(* ===== verification/_CoqProject ===== *)
-Q . S2P
Prelude.v
JsString.v
JsNumber.v
JsInt.v
JsMap.v
Windows.v
JsJson.v
JsonParse.v
JsRegex.v
Errors.v
Assets.v
DbPool.v
Replay.v
Pagination.v
AuditLog.v
IpAllowlist.v
Ssrf.v
Money.v
JsRound.v
TransactionState.v
Transaction.v
TransactionQuery.v
FeeBump.v
Sanitizer.v
Memos.v
Donations.v
Webhooks.v
Sync.v
Reconciliation.v
CircuitBreaker.v
MultiSig.v
Routing.v
LeaderElection.v
PaymentChannel.v
Permissions.v
SocialRecovery.v
JsDate.v
Scheduler.v
SequenceManager.v
SequenceAllocation.v
SequenceCache.v
NonceStore.v
Signing.v
ApiKeys.v
Tokens.v
RateLimits.v
BruteForce.v
Abuse.v
Auth.v
Limits.v
Matching.v
CorporateMatching.v
Campaigns.v
Crowdfunding.v
DonationChecks.v
Pledges.v
Custodial.v
Idempotency.v
DonationRecord.v
MockStellar.v
MockAccounts.v
MockHoldings.v
