(* ===== verification/Prelude.v ===== *)
(** * Stellar Micro-Donation API: verification library (root)

    The program is a Node.js REST service for small donations on the Stellar
    network ([src/src/]).  Express routes call services; services keep their
    state in SQLite tables and in process memory, and talk to the network
    through one Stellar service.  This library models the parts that decide
    about money and access.  Money: amounts, the transaction model and its
    state machine, custodial donations with their limits, campaigns and
    matching programs, refunds and approvals, routing, recurring donations,
    payment channels, multi-signature submission, account recovery, fee
    bumps, pledges and crowdfunding, the synchronisation with the network and
    the simulated network of the tests.  Access:
    API keys, address lists, request signatures, access and refresh tokens,
    permissions, rate limits, lock-outs, abuse detection.  Coordination
    between instances and requests: idempotency keys, lease, circuit breaker,
    sequence numbers, nonces, the pool of database connections.  Outbound:
    webhooks with their retries, and the check of their addresses.

    ** Files

    - [Prelude]: outcomes (a value or a thrown exception), code with state
      that may throw, invariants of step relations, list searches.
    - [JsString], [JsNumber], [JsInt], [JsMap], [JsJson], [JsonParse],
      [JsRegex], [JsDate]: what the code uses of the language: strings over code points
      below 256, doubles (correctly rounded, printed by the shortest digits),
      the integers they hold exactly, maps in insertion order with the stable
      sort, [JSON.stringify] and [JSON.parse], backtracking patterns, UTC
      dates.  [JsRound]: how far sums of doubles are from exact amounts.
    - [Windows]: counting in sliding and in fixed windows of time, shared by
      [Limits] and [RateLimits].
    - [Errors] ([utils/errors.js]): the error classes with their codes.
    - [Money] ([utils/money.js], [utils/feeCalculator.js]): amounts in
      stroops, their decimal strings, fees.
    - [TransactionState] ([utils/transactionStateMachine.js]): the statuses,
      their legacy aliases and the transition table.
    - [Transaction] ([models/transaction.js]): the in-memory store, the
      idempotency index, the deferred writes to [donations_store] with their
      rollback, every updater and the queries.  Objects carry their identity,
      because the code compares them by reference when a write fails.
    - [TransactionQuery] (the same file): filters, sorting and cursors.
    - [Donations] ([services/DonationService.js],
      [utils/confirmationChecker.js]): refunds, approvals and their expiry,
      confirmation by ledger depth, status updates.
    - [Limits] ([services/LimitService.js],
      [services/DonationVelocityService.js]), [Matching]
      ([services/MatchingProgramService.js]), [Campaigns]
      ([services/CampaignMilestoneService.js] and the contributions of
      [services/DonationService.js]), [Sanitizer] ([utils/sanitizer.js]):
      the parts a custodial donation uses.
    - [Custodial] ([services/DonationService.js],
      [services/DonationTotalsRepository.js]): the whole flow of a custodial
      donation over these parts, with the totals it keeps.
    - [Idempotency] ([services/IdempotencyService.js],
      [middleware/idempotency.js]): the table of keys, the middleware as an
      interleaving of requests, and the slot per key it implements.
    - [CircuitBreaker] ([utils/circuitBreaker.js]): one breaker, its
      operations in flight, and its synchronisation through the database.
    - [MultiSig] ([services/MultiSigService.js]): collection of signatures in
      sequence and in overlapping calls.
    - [Routing] ([services/DonationRouter.js], [services/routing/] and their
      repositories): the strategies and the recorded decisions.
    - [LeaderElection] ([utils/leaderElection.js]): the lease table, and the
      class [Lease], the promise to schedulers, with its instance.
    - [Scheduler] ([services/RecurringDonationScheduler.js]): a client of
      [Lease]; the tick, the retry loop, one execution, dates, and the
      requests that cancel or pause a schedule ([routes/stream.js],
      [routes/recurringDonation.js]).
    - [DonationRecord] ([services/DonationService.js]: createDonationRecord
      and createClaimableDonation), with the parts it uses: [Assets]
      ([utils/stellarAsset.js]), [DonationChecks]
      ([utils/donationValidator.js], [utils/overpaymentDetector.js],
      [utils/anonymization.js], [constants/tags.js]), [Memos]
      ([utils/memoValidator.js], [utils/memoCollisionDetector.js]).
    - [Sync] ([services/TransactionSyncService.js] and its scheduler),
      [Reconciliation] ([services/TransactionReconciliationService.js],
      [utils/confirmationChecker.js]).
    - [Ssrf] ([utils/ssrf.js]) and [Webhooks] ([services/WebhookService.js]).
    - [MockStellar], [MockAccounts], [MockHoldings]
      ([services/MockStellarService.js], [services/mock/]): the network the
      service runs against without Horizon.
    - [PaymentChannel] ([services/PaymentChannelService.js]).
    - [SocialRecovery] ([services/SocialRecoveryService.js]).
    - [SequenceManager] ([utils/sequenceManager.js]), [SequenceAllocation]
      ([services/SequenceManager.js]: numbers reserved in the database),
      [SequenceCache] ([services/SequenceCacheService.js]).
    - [FeeBump] ([services/FeeBumpService.js]): over [Transaction].
    - [Pledges] ([models/Pledge.js], [services/PledgeFulfillmentService.js],
      [routes/admin/pledges.js]) and [Crowdfunding]
      ([services/CrowdfundingService.js],
      [services/AdminCrowdfundingService.js], [routes/campaigns.js]).
    - [CorporateMatching] ([services/CorporateMatchingService.js],
      [routes/admin/corporateMatching.js]): over [Transaction].
    - [Pagination] ([utils/pagination.js], [utils/validationHelpers.js]):
      pages of tables and lists; [AuditLog] ([services/AuditLogService.js]).
    - [DbPool] ([utils/database.js]): the pool of connections as turns of
      the event loop, and the transactions run on a connection.
    - [NonceStore] ([utils/nonceStore.js]).
    - [Permissions] ([utils/scopeValidator.js], [utils/permissions.js],
      [config/permissionMatrix.js], [models/permissions.js],
      [middleware/rbac.js], [utils/rbacValidator.js]).
    - [IpAllowlist] ([utils/ipAllowlist.js]), [ApiKeys]
      ([models/apiKeys.js]), [Signing] ([utils/requestSigner.js],
      [middleware/requestSigning.js]), [Tokens] (the refresh tokens of
      [services/JwtService.js]), [RateLimits]
      ([middleware/RateLimitStore.js], [middleware/perKeyRateLimit.js],
      [middleware/rateLimitHeaders.js], [services/rateLimitStores/]),
      [BruteForce] ([utils/bruteForceProtection.js], [routes/auth.js]),
      [Abuse] ([services/AbuseDetectionService.js],
      [middleware/suspiciousPatternDetection.js] and the two detectors of
      [utils/]).
    - [Replay] ([utils/replayDetector.js], [middleware/replayDetection.js],
      [middleware/deduplication.js]): repeated requests.
    - [Auth] ([services/JwtService.js], [middleware/apiKey.js],
      [middleware/rbac.js]): the check of a request, from its headers to the
      handler of a protected route.

    ** How the parts call each other

    [Transaction] calls [TransactionState]; [TransactionQuery] reads its
    store; [Donations] and [Custodial] call its operations, and so do [Sync]
    and [Reconciliation], which bumps fees through [FeeBump].
    [DonationRecord] checks with [DonationChecks], [Assets] and [Memos],
    pays, stores through [Transaction], and then runs [Campaigns], [Matching]
    and [CorporateMatching].  [Custodial] asks [Limits], pays, and then runs
    [Campaigns] and [Matching]; its texts pass [Sanitizer].  A refund asks
    [Memos] what text the network takes.  [FeeBump] reads and updates the
    store of [Transaction]; [CorporateMatching] stores its donations there;
    [AuditLog] pages its table with [Pagination].  [Webhooks] asks [Ssrf]
    before every request, which compares addresses as [IpAllowlist] does.
    [MockStellar] uses [Assets] and [Memos]; [MockAccounts] and
    [MockHoldings] extend its state.
    [Pledges] uses the amounts of [Money] and, like [Crowdfunding], the rows
    of [Campaigns].  [Scheduler] calls [LeaderElection] through the class
    [Lease].  The limit per key of [RateLimits] is written against the class
    [RateLimitStore] with the laws [RateLimitLaws], which the store in memory
    and the store in Redis satisfy.  [Signing] is a client of [NonceStore],
    [BruteForce] of [Tokens]; [Auth] composes [ApiKeys], [IpAllowlist],
    [Signing], [NonceStore] and [RateLimits] in the order of the middleware.
    Each component is a Module named after its file; definitions keep the
    names of the code.

    ** How the code is represented

    A function that may throw returns an [outcome]; a method that changes its
    object returns an [outcome] and the new state, where the changes made
    before a throw stay.  What happens between two turns of the event loop is
    one step; calls that interleave are steps of a relation ([Transaction],
    [CircuitBreaker], [MultiSig], [SequenceManager], [SequenceAllocation],
    [ApiKeys], [Tokens], [Idempotency], [CorporateMatching],
    [PaymentChannel], [DbPool]).  A
    payment is logged when the network is asked for it, with or without an
    answer, because one that ends in an error may have been carried out; the
    theorems count what was asked and how many of these asks, and of the
    database statements after them, failed.  Times, random numbers, identifiers, and the answers of
    the database, of Redis and of the network are arguments, so the theorems
    hold for all of them.  Parameters are SHA-256 and the message
    authentication codes, the base64url and JSON encoding of the claims of a
    token, the decryption of a stored secret, the distance and the random
    source of the routing strategies, the collation of identifiers, and the
    signature check of the multi-signature service; hypotheses about them
    state what their documentation promises and are instantiated in the
    witnesses.

    ** What the theorems show

    - Transactions: an idempotency key belongs to one stored transaction; a
      status never moves down the progress order, under any interleaving of
      calls and failing writes; the exact result, record and error of a
      status change on every branch; cursor pages of the default order visit
      every match once.
    - Donations: what was checked before a donation was paid, on each of the
      two flows, and how often the network is asked; what is recorded of a
      payment and with which fields; that the totals kept are the sums of the
      recorded donations; what a refund checked before it paid; payments per
      idempotency key of a refund, at most one more than lookups of the key
      that failed; when a donation counts as confirmed; limits and windows
      bound what they count; matching never spends more than its total when
      the calls do not overlap; milestones are announced once when
      contributions do not overlap.
    - Pledges and campaigns: a pledge is asked for at most once, and once
      more for each payment that was followed by a failed UPDATE; an escrow
      row is paid once over any creation, PATCH, contribution, settlement and
      expiry, if the calls that settle a campaign do not overlap and finish;
      what was pledged is held or was moved.
    - Money: parsing and printing of amounts are exact and inverse; fees are
      in their documented bounds.
    - Recurring donations: at most three payments are asked for per run, at
      most one and one more for each that was not answered or not recorded,
      none for a recorded cycle; exact effect of success and failure, with
      the cancellations and pauses that arrive meanwhile; the maximum number
      of executions; exact calendar dates; one instance per tick.
    - Channels, multi-signature, recovery: what the network is asked to do
      was authorised (capacity, verified signers, distinct guardians), and
      how often: a channel pays at most once, and once more for each failed
      statement and each overlapping close.
    - Coordination: the middleware of idempotency keys implements one slot
      per key, with one run at a time and a replay afterwards; exclusion of
      the lease, of the breaker's probe and of the account lock (with order
      and progress); failure windows; retries end; accepted nonces stay
      rejected in their window; a reserved sequence number is committed once;
      a connection is leased to one caller, never more are open than the pool
      allows, waiting callers are served in order and none waits beside an
      idle connection, and a database transaction is kept whole or undone.
    - Access: a protected handler runs only after key, address, signature and
      rate limit were checked; the signatures accepted are those whose hex
      digits, in either case and cut digits read as 0, are the code of the
      request; a revoked key is rejected, and how long a
      cached validation may outlive the revocation; a signed request is
      accepted once; access tokens are authentic and round-trip; reuse of a
      refresh token revokes its family, a family ends, guesses are bounded
      when they do not overlap; the requests of a key per window, in terms of
      the limit and the factor of each store, and the announced delay
      suffices; a
      request passes only with role and scope; both permission matchers
      agree; addresses match a range exactly when their prefix does.
    - Corporate matching: the counters agree with the booked matches under
      any interleaving, each payment belongs to one booked row, a spent
      program stays spent, and the exported report is read back.
    - The network: donations between wallets of the simulated network
      conserve the sum of the balances to the stroop although they are texts
      added as doubles (below 2^28 lumens); a synchronisation records what
      the pages hold; a cycle of reconciliation confirms exactly the
      donations the network knows.
    - Webhooks: what one delivery sends and leaves, for any answers; every
      request goes to a URL that passes the check with the answer of the
      lookup made for that request; rounds and dead letters are bounded.
    - Lists and the audit log: pages show each row once, in both directions
      and under a snapshot, by the record [pager] that tables and lists in
      memory satisfy; the trail only grows, and what its hash protects.
    - Repeated requests: how often identical requests reach the handler.
    - Some theorems and examples describe defects the models reach: a settled
      channel paid twice, two overlapping submissions or closes, a payment
      repeated because its recording failed or its outcome is unknown, a
      cancellation overwritten by the execution it arrived in, a donation
      with an idempotency key paid again and answered with the first one, a
      recovery stuck after a failed swap, a refund that
      leaves its donation confirmed, approvals that never complete, an
      enforcement of signatures that a request switches off, a donor blocked
      for successful donations, a signature that does not cover the nonce, a
      revocation undone by a validation in flight, overlapping matches above
      the total, a milestone announced twice, sequence numbers never granted
      after the tenth without the network, a failed fee bump counted as an
      error of another kind, a pledge paid in stroops as if they were lumens
      and paid again from a stale row, a refund paid again after a failure, a
      pledge that arrives after settlement and stays, a closed connection
      handed to a caller, writes lost after a failed rollback, the cap of an
      employee exceeded by matches that overlap, an unpaid match counted, a
      second page that is the first again, categories of the audit log that do
      not exist.

    ** Bounds and fuel

    Loops with a bound in the code have it as a number (three attempts of the
    scheduler, five retries of the sequence manager).  Following cursors uses
    one more step than stored transactions, and the theorem shows that the
    last page is reached.  Printing a number uses one digit per bit at most;
    the shortest representation of a double needs at most 17 digits.  The
    month of a day is found in 11 steps, the evicting loop consumes the list.
    A repetition of a pattern uses the length of the input, because an
    iteration that consumes nothing is abandoned.  Code that runs over
    several turns is cut into its turns: six calls for the idempotency
    middleware, four statements for the validation of a key, five for a
    rotation, six for a reservation of a sequence number; theorems show that
    these are enough to end it.  The loop that serves waiting callers
    consumes their queue.

    ** Not modelled

    Express routes and middleware glue (but for the routes that change the
    state of a component themselves), GraphQL, start-up, logging and metrics,
    mail and server-sent events, subscription tiers, anomaly detection,
    statistics, exports, backups, encryption, and the Stellar service over
    Horizon, whose answers are arguments.  Retry delays, timers and the order
    of rows without a sort key are left out. *)

From stdpp Require Export base tactics list gmap strings option relations.
From Stdlib Require Export ZArith Lia.

(** ** Outcomes: a value, or a thrown exception *)

Inductive outcome (E A : Type) : Type :=
| Ret (a : A)
| Throw (e : E).
Arguments Ret {E A} a.
Arguments Throw {E A} e.

Definition outcome_bind_def {E A B} (f : A → outcome E B) (m : outcome E A) : outcome E B :=
  match m with Ret a => f a | Throw e => Throw e end.

#[global] Instance outcome_ret E : MRet (outcome E) := λ A, Ret.
#[global] Instance outcome_bind E : MBind (outcome E) := λ A B, outcome_bind_def.
#[global] Instance outcome_eq_dec `{EqDecision E, EqDecision A} : EqDecision (outcome E A).
Proof. solve_decision. Defined.

Definition is_ret {E A} (m : outcome E A) : bool :=
  match m with Ret _ => true | Throw _ => false end.

(** ** Stateful code that may throw

    A method that mutates its object and may throw keeps the mutations made
    before the throw, as in JavaScript. *)

Definition stx (E S A : Type) : Type := S → outcome E A * S.

#[global] Instance stx_ret E S : MRet (stx E S) := λ A a s, (Ret a, s).
#[global] Instance stx_bind E S : MBind (stx E S) := λ A B f m s,
  match m s with
  | (Ret a, s') => f a s'
  | (Throw e, s') => (Throw e, s')
  end.

Definition get_st {E S} : stx E S S := λ s, (Ret s, s).
Definition put_st {E S} (s : S) : stx E S unit := λ _, (Ret (), s).
Definition modify_st {E S} (f : S → S) : stx E S unit := λ s, (Ret (), f s).
Definition throw {E S A} (e : E) : stx E S A := λ s, (Throw e, s).
Definition lift_out {E S A} (m : outcome E A) : stx E S A := λ s, (m, s).
(** [try { m } catch (e) { h e }] *)
Definition try_catch {E S A} (m : stx E S A) (h : E → stx E S A) : stx E S A := λ s,
  match m s with
  | (Ret a, s') => (Ret a, s')
  | (Throw e, s') => h e s'
  end.
(** [try { m } finally { f }]: an exception of [f] replaces the result. *)
Definition try_finally {E S A} (m : stx E S A) (f : stx E S unit) : stx E S A := λ s,
  match m s with
  | (r, s') => match f s' with
               | (Ret _, s'') => (r, s'')
               | (Throw e, s'') => (Throw e, s'')
               end
  end.
Definition when {E S} (b : bool) (m : stx E S unit) : stx E S unit :=
  if b then m else mret ().

(** ** Reachability and invariants of step relations *)

Definition preserves {S} (step : S → S → Prop) (I : S → Prop) : Prop :=
  ∀ s s', I s → step s s' → I s'.

Lemma preserves_rtc {S} (step : S → S → Prop) (I : S → Prop) s s' :
  preserves step I → rtc step s s' → I s → I s'.
Proof. intros Hp Hr. induction Hr; eauto. Qed.

Lemma preserves_and {S} (step : S → S → Prop) (I J : S → Prop) :
  preserves step I → (∀ s s', I s → J s → step s s' → J s') →
  preserves step (λ s, I s ∧ J s).
Proof. intros HI HJ s s' [??] ?; split; eauto. Qed.

(** ** Tactics shared by the components *)

(** Unfold the monad operations and compute. *)
Ltac run_st :=
  unfold mbind, mret, stx_bind, stx_ret, outcome_bind, outcome_ret, outcome_bind_def,
    get_st, put_st, modify_st, throw, lift_out, when in *; simpl in *.

(** Only the monad operations of the goal, without simplifying. *)
Ltac stx_unfold :=
  unfold mbind, mret, stx_bind, stx_ret, get_st, put_st, modify_st, throw, lift_out, when;
  cbv beta iota.

(** Case analysis on every match of the goal and the hypotheses. *)
Ltac split_cases := repeat (case_match || simplify_eq/=).

(** Turn boolean tests on [Z] into propositions. *)
Ltac zbool :=
  repeat match goal with
  | H : (_ <? _)%Z = true |- _ => apply Z.ltb_lt in H
  | H : (_ <? _)%Z = false |- _ => apply Z.ltb_ge in H
  | H : (_ <=? _)%Z = true |- _ => apply Z.leb_le in H
  | H : (_ <=? _)%Z = false |- _ => apply Z.leb_gt in H
  | H : (_ >? _)%Z = true |- _ => apply Z.gtb_lt in H
  | H : (_ >=? _)%Z = true |- _ => apply Z.geb_le in H
  | H : (_ =? _)%Z = true |- _ => apply Z.eqb_eq in H
  | H : (_ =? _)%Z = false |- _ => apply Z.eqb_neq in H
  | H : (_ && _)%bool = true |- _ => apply andb_prop in H as [? ?]
  | H : (_ || _)%bool = false |- _ => apply orb_false_elim in H as [? ?]
  end.

(** ** Generic list lemmas *)

(** [List.find] and friends on a decidable test. *)
Fixpoint find_first {A} (f : A → bool) (l : list A) : option A :=
  match l with
  | [] => None
  | x :: l => if f x then Some x else find_first f l
  end.

Lemma find_first_Some {A} (f : A → bool) l x :
  find_first f l = Some x → x ∈ l ∧ f x = true.
Proof.
  induction l as [|y l IH]; simpl; [done|]. destruct (f y) eqn:?.
  - intros [= ->]. split; [left|done].
  - intros H. destruct (IH H); split; [by right|done].
Qed.

Lemma find_first_None {A} (f : A → bool) l x :
  find_first f l = None → x ∈ l → f x = false.
Proof.
  induction l as [|y l IH]; simpl; [by intros _ ?%elem_of_nil|].
  destruct (f y) eqn:?; [done|]. intros ? [->|?]%elem_of_cons; eauto.
Qed.

Lemma filter_length_le {A} (P Q : A → Prop) `{∀ x, Decision (P x), ∀ x, Decision (Q x)} (l : list A) :
  (∀ x, x ∈ l → P x → Q x) → (length (filter P l) <= length (filter Q l))%nat.
Proof.
  induction l as [|x l IH]; [done|]. intros Hpq. rewrite !filter_cons.
  specialize (IH ltac:(intros; apply Hpq; [by right|done])).
  destruct (decide (P x)) as [HP|]; destruct (decide (Q x)) as [|HQ]; cbn; try lia.
  exfalso. apply HQ, Hpq; [by left|done].
Qed.

Lemma filter_lose {A} (P : A → Prop) `{∀ x, Decision (P x)} (l : list A) x :
  x ∈ l → ¬ P x → (length (filter P l) < length l)%nat.
Proof. intros. by eapply length_filter_lt. Qed.

Lemma filter_all {A} (P : A → Prop) `{∀ x, Decision (P x)} (l : list A) :
  Forall P l → filter P l = l.
Proof. induction 1 as [|x l Hx _ IH]; [done|]. by rewrite filter_cons_True, IH. Qed.

Lemma filter_idemp {A} (P : A → Prop) `{∀ x, Decision (P x)} (l : list A) : filter P (filter P l) = filter P l.
Proof. rewrite list_filter_filter. apply list_filter_iff. tauto. Qed.

Lemma filter_elem_iff {A} (P Q : A → Prop) `{∀ x, Decision (P x), ∀ x, Decision (Q x)} (l : list A) :
  (∀ x, x ∈ l → P x ↔ Q x) → filter P l = filter Q l.
Proof.
  induction l as [|x l IH]; [done|]. intros Hpq. rewrite !filter_cons, IH by (intros; apply Hpq; by right).
  destruct (Hpq x) as [H1 H2]; [left|]. repeat case_decide; tauto || done.
Qed.

Lemma filter_none {A} (P : A → Prop) `{∀ x, Decision (P x)} (l : list A) :
  Forall (λ x, ¬ P x) l → filter P l = [].
Proof. induction 1 as [|x l Hx _ IH]; [done|]. by rewrite filter_cons_False, IH. Qed.

Lemma list_insert_elem {A} (l : list A) j x y : y ∈ <[j:=x]> l → y = x ∨ y ∈ l.
Proof.
  intros [k Hk]%list_elem_of_lookup. apply list_lookup_insert_Some in Hk as [(_ & -> & _)|[_ Hk]]; [by left|].
  right. by eapply list_elem_of_lookup_2.
Qed.

(** A list whose keys are distinct holds one element of each key. *)
Lemma fmap_unique {A B} (g : A → B) (l : list A) r r' : NoDup (g <$> l) → r ∈ l → r' ∈ l → g r = g r' → r = r'.
Proof.
  intros Hnd [i Hi]%list_elem_of_lookup [j Hj]%list_elem_of_lookup Heq.
  assert (i = j) as ->; [|congruence].
  eapply (NoDup_lookup (g <$> l)); [done|rewrite list_lookup_fmap, Hi; done|].
  rewrite list_lookup_fmap, Hj. cbn. congruence.
Qed.

Lemma fmap_ext_elem {A B} (f g : A → B) (l : list A) : (∀ x, x ∈ l → f x = g x) → f <$> l = g <$> l.
Proof. intros H. apply list_fmap_ext. intros i x Hx. apply H. by eapply list_elem_of_lookup_2. Qed.
