(* ===== verification/JsString.v ===== *)
(** * JavaScript strings

    A string is a sequence of code units below 256.  This file holds the
    String and BigInt operations of the language that the modelled sources
    use: [trim], [toLowerCase], [split], [includes], [startsWith], [padEnd],
    [padStart], [slice], [BigInt(str)], [String(bigint)], [Buffer.from(s, 'hex')]. *)

From Stdlib Require Import Ascii NArith.
From S2P Require Import Prelude.
Local Open Scope Z_scope.

(* stdpp seals [String.append]; the proofs below compute with it. *)
#[global] Arguments String.append !s1 s2 : simpl nomatch.

(** ** Characters *)

Definition char_code (c : ascii) : Z := Z.of_N (N_of_ascii c).
Definition char_of_code (z : Z) : ascii := ascii_of_N (Z.to_N z).

Definition is_digit (c : ascii) : bool := (48 <=? char_code c) && (char_code c <=? 57).
Definition digit_val (c : ascii) : Z := char_code c - 48.
Definition digit_char (d : Z) : ascii := char_of_code (d + 48).
(** White space as [String.prototype.trim] has it, below code 256. *)
Definition is_space (c : ascii) : bool :=
  ((9 <=? char_code c) && (char_code c <=? 13)) || (char_code c =? 32) || (char_code c =? 160).
Definition lower_char (c : ascii) : ascii :=
  let n := char_code c in
  if ((65 <=? n) && (n <=? 90)) || ((192 <=? n) && (n <=? 222) && negb (n =? 215))
  then char_of_code (n + 32) else c.

(** ** Strings *)

Fixpoint str_forall (p : ascii → bool) (s : string) : bool :=
  match s with
  | EmptyString => true
  | String c s => p c && str_forall p s
  end.

Fixpoint str_exists (p : ascii → bool) (s : string) : bool :=
  match s with
  | EmptyString => false
  | String c s => p c || str_exists p s
  end.

Fixpoint str_map (f : ascii → ascii) (s : string) : string :=
  match s with
  | EmptyString => EmptyString
  | String c s => String (f c) (str_map f s)
  end.

Definition to_lower : string → string := str_map lower_char.

Fixpoint trim_start (s : string) : string :=
  match s with
  | EmptyString => EmptyString
  | String c s' => if is_space c then trim_start s' else s
  end.

Fixpoint trim_end (s : string) : string :=
  match s with
  | EmptyString => EmptyString
  | String c s' =>
      match trim_end s' with
      | EmptyString => if is_space c then EmptyString else String c EmptyString
      | t => String c t
      end
  end.

Definition trim (s : string) : string := trim_end (trim_start s).

Fixpoint str_repeat (n : nat) (c : ascii) : string :=
  match n with O => EmptyString | S n => String c (str_repeat n c) end.

(** [s.padEnd(n, c)], [s.padStart(n, c)] for a one-character filler. *)
Definition pad_end (n : nat) (c : ascii) (s : string) : string :=
  s +:+ str_repeat (n - String.length s) c.
Definition pad_start (n : nat) (c : ascii) (s : string) : string :=
  str_repeat (n - String.length s) c +:+ s.
(** [s.slice(0, n)] *)
Fixpoint str_take (n : nat) (s : string) : string :=
  match n, s with
  | S n, String c s => String c (str_take n s)
  | _, _ => EmptyString
  end.
(** [s.slice(n)] *)
Fixpoint str_drop (n : nat) (s : string) : string :=
  match n, s with
  | S n, String _ s => str_drop n s
  | _, _ => s
  end.

(** [s.startsWith(p)] *)
Fixpoint starts_with (p s : string) : bool :=
  match p, s with
  | EmptyString, _ => true
  | String a p, String b s => Ascii.eqb a b && starts_with p s
  | _, _ => false
  end.

(** [s.includes(p)] *)
Fixpoint str_includes (p s : string) : bool :=
  starts_with p s ||
  match s with
  | EmptyString => false
  | String _ s => str_includes p s
  end.

(** [s.split(c)] for a one-character separator. *)
Fixpoint split_on (c : ascii) (s : string) : list string :=
  match s with
  | EmptyString => [EmptyString]
  | String a s =>
      if Ascii.eqb a c then EmptyString :: split_on c s
      else match split_on c s with
           | w :: ws => String a w :: ws
           | [] => [String a EmptyString]
           end
  end.

(** [a < b] on strings: code-unit order. *)
Definition str_ltb (a b : string) : bool :=
  match String.compare a b with Lt => true | _ => false end.

(** [l.join(sep)] *)
Fixpoint str_join (sep : string) (l : list string) : string :=
  match l with
  | [] => ""
  | [w] => w
  | w :: ws => w +:+ sep +:+ str_join sep ws
  end.

(** ** Decimal numerals *)

(** The value of a digit string, most significant digit first. *)
Fixpoint digits_acc (acc : Z) (s : string) : Z :=
  match s with
  | EmptyString => acc
  | String c s => digits_acc (acc * 10 + digit_val c) s
  end.
Definition digits_val (s : string) : Z := digits_acc 0 s.

(** The decimal digits of a natural number; [fuel] bounds their count. *)
Fixpoint digits_of (fuel : nat) (n : Z) (acc : string) : string :=
  match fuel with
  | O => acc
  | S fuel =>
      let acc := String (digit_char (n mod 10)) acc in
      if n / 10 =? 0 then acc else digits_of fuel (n / 10) acc
  end.
(** [String(n)] for a BigInt or an integer-valued Number below 1e21. *)
Definition nat_to_string (n : Z) : string := digits_of (S (Z.to_nat (Z.log2 n))) n "".
Definition Z_to_string (z : Z) : string :=
  if z <? 0 then "-" +:+ nat_to_string (- z) else nat_to_string z.

Definition is_empty (s : string) : bool :=
  match s with EmptyString => true | _ => false end.

(** [/^\d+$/.test(s)] *)
Definition all_digits (s : string) : bool := negb (is_empty s) && str_forall is_digit s.

Definition hex_val (c : ascii) : option Z :=
  let n := char_code c in
  if (48 <=? n) && (n <=? 57) then Some (n - 48)
  else if (97 <=? n) && (n <=? 102) then Some (n - 87)
  else if (65 <=? n) && (n <=? 70) then Some (n - 55)
  else None.

(** Digits of a radix up to 16, [None] on any other character. *)
Fixpoint radix_acc (radix acc : Z) (s : string) : option Z :=
  match s with
  | EmptyString => Some acc
  | String c s =>
      match hex_val c with
      | Some d => if d <? radix then radix_acc radix (acc * radix + d) s else None
      | None => None
      end
  end.

(** [BigInt(str)]: white space is trimmed, the empty string is 0, a sign is
    allowed on decimals only; [None] is the SyntaxError. *)
Definition BigInt_of_string (str : string) : option Z :=
  let s := trim str in
  if is_empty s then Some 0
  else if starts_with "0x" s || starts_with "0X" s then
    if is_empty (str_drop 2 s) then None else radix_acc 16 0 (str_drop 2 s)
  else if starts_with "0o" s || starts_with "0O" s then
    if is_empty (str_drop 2 s) then None else radix_acc 8 0 (str_drop 2 s)
  else if starts_with "0b" s || starts_with "0B" s then
    if is_empty (str_drop 2 s) then None else radix_acc 2 0 (str_drop 2 s)
  else match s with
       | String "-" d => if all_digits d then Some (- digits_val d) else None
       | String "+" d => if all_digits d then Some (digits_val d) else None
       | d => if all_digits d then Some (digits_val d) else None
       end.

(** [Buffer.from(s, 'hex')]: pairs of hex digits up to the first character
    that is not one; an odd last digit is dropped. *)
Fixpoint hex_decode (s : string) : list Z :=
  match s with
  | String a (String b s) =>
      match hex_val a, hex_val b with
      | Some x, Some y => (x * 16 + y) :: hex_decode s
      | _, _ => []
      end
  | _ => []
  end.

(** ** Characters: lemmas *)

Lemma char_code_range c : 0 <= char_code c < 256.
Proof.
  unfold char_code. pose proof (N_ascii_bounded c). lia.
Qed.

Lemma char_code_of_code z : 0 <= z < 256 → char_code (char_of_code z) = z.
Proof.
  intros. unfold char_code, char_of_code. rewrite N_ascii_embedding; lia.
Qed.

Lemma digit_char_val d : 0 <= d < 10 → digit_val (digit_char d) = d.
Proof. intros. unfold digit_val, digit_char. rewrite char_code_of_code; lia. Qed.

Lemma digit_char_digit d : 0 <= d < 10 → is_digit (digit_char d) = true.
Proof.
  intros. unfold is_digit, digit_char. rewrite char_code_of_code by lia.
  apply andb_true_intro; split; apply Z.leb_le; lia.
Qed.

Lemma is_digit_spec c : is_digit c = true ↔ 48 <= char_code c <= 57.
Proof. unfold is_digit. rewrite andb_true_iff, !Z.leb_le. lia. Qed.

Lemma digit_not_space c : is_digit c = true → is_space c = false.
Proof.
  rewrite is_digit_spec. intros H. unfold is_space.
  rewrite !orb_false_iff, andb_false_iff, !Z.leb_gt, !Z.eqb_neq. lia.
Qed.

Lemma char_eqb_code a b : Ascii.eqb a b = (char_code a =? char_code b).
Proof.
  destruct (Ascii.eqb_spec a b) as [->|Hne]; [by rewrite Z.eqb_refl|].
  symmetry. apply Z.eqb_neq. intros Heq. apply Hne.
  unfold char_code in Heq. apply N2Z.inj in Heq.
  by rewrite <- (ascii_N_embedding a), <- (ascii_N_embedding b), Heq.
Qed.

(** ** Strings: lemmas *)

Lemma str_forall_app p s t : str_forall p (s +:+ t) = str_forall p s && str_forall p t.
Proof.
  induction s as [|c s IH]; [done|]. cbn. rewrite IH. by rewrite andb_assoc.
Qed.

Lemma str_app_nil_r (s : string) : s +:+ "" = s.
Proof. induction s as [|c s IH]; [done|]. cbn. by f_equal. Qed.

Lemma str_app_assoc (s t u : string) : (s +:+ t) +:+ u = s +:+ (t +:+ u).
Proof. induction s as [|c s IH]; [done|]. cbn. by f_equal. Qed.

Lemma str_length_app (s t : string) :
  String.length (s +:+ t) = (String.length s + String.length t)%nat.
Proof. induction s as [|c s IH]; [done|]. cbn. by rewrite IH. Qed.

Lemma str_length_repeat n c : String.length (str_repeat n c) = n.
Proof. induction n; cbn; congruence. Qed.

Lemma str_take_app_length (s t : string) : str_take (String.length s) (s +:+ t) = s.
Proof. induction s as [|c s IH]; cbn; [by destruct t|]. by f_equal. Qed.

Lemma str_forall_repeat p n c : p c = true → str_forall p (str_repeat n c) = true.
Proof. intros Hc. induction n; cbn; [done|]. by rewrite Hc. Qed.

Lemma trim_start_id c s : is_space c = false → trim_start (String c s) = String c s.
Proof. cbn. by intros ->. Qed.

Lemma trim_end_id s :
  str_forall (λ c, negb (is_space c)) s = true → trim_end s = s.
Proof.
  induction s as [|c s IH]; [done|]. cbn. intros [Hc Hs]%andb_prop.
  rewrite (IH Hs). destruct (is_space c); [done|]. by destruct s.
Qed.

Lemma trim_id s : str_forall (λ c, negb (is_space c)) s = true → trim s = s.
Proof.
  intros H. unfold trim. destruct s as [|c s]; [done|].
  pose proof H as H'. cbn in H'. apply andb_prop in H' as [Hc ?].
  rewrite trim_start_id; [by apply trim_end_id|]. by destruct (is_space c).
Qed.

(** Splitting around the first separator. *)
Lemma split_on_none c s :
  str_forall (λ a, negb (Ascii.eqb a c)) s = true → split_on c s = [s].
Proof.
  induction s as [|a s IH]; [done|]. cbn. intros [Ha Hs]%andb_prop.
  destruct (Ascii.eqb a c); [done|]. by rewrite (IH Hs).
Qed.

Lemma split_on_app c s t :
  str_forall (λ a, negb (Ascii.eqb a c)) s = true →
  split_on c (s +:+ String c t) = s :: split_on c t.
Proof.
  induction s as [|a s IH]; cbn; [by rewrite Ascii.eqb_refl|].
  intros [Ha Hs]%andb_prop. destruct (Ascii.eqb a c); [done|]. by rewrite (IH Hs).
Qed.

Lemma split_on_ne c s : split_on c s ≠ [].
Proof. destruct s as [|a s]; cbn; [done|]. by repeat case_match. Qed.

Lemma str_join_split c s : str_join (String c "") (split_on c s) = s.
Proof.
  induction s as [|a s IH]; [done|]. cbn.
  destruct (Ascii.eqb_spec a c) as [->|].
  - cbn [str_join]. destruct (split_on c s) as [|w ws] eqn:Hs; [by apply split_on_ne in Hs|].
    cbn. by f_equal.
  - destruct (split_on c s) as [|w [|w' ws]] eqn:Hs; [by apply split_on_ne in Hs|..];
      cbn in IH |- *; by f_equal.
Qed.

(** *** The order of strings *)

Lemma str_ltb_irrefl s : str_ltb s s = false.
Proof. unfold str_ltb. pose proof (String.compare_antisym s s). by destruct (String.compare s s). Qed.

Lemma str_geb_trans a b c : str_ltb b a = false → str_ltb c b = false → str_ltb c a = false.
Proof.
  revert b c. unfold str_ltb.
  induction a as [|x a IH]; intros [|y b] [|z c]; cbn; try done.
  unfold Ascii.compare. specialize (IH b c).
  destruct (N.compare_spec (Ascii.N_of_ascii y) (Ascii.N_of_ascii x)) as [Hxy|Hxy|Hxy],
    (N.compare_spec (Ascii.N_of_ascii z) (Ascii.N_of_ascii y)) as [Hyz|Hyz|Hyz],
    (N.compare_spec (Ascii.N_of_ascii z) (Ascii.N_of_ascii x)) as [Hxz|Hxz|Hxz];
    try done; try lia.
Qed.

Lemma str_ltb_asym a b : str_ltb a b = true → str_ltb b a = false.
Proof.
  unfold str_ltb. rewrite (String.compare_antisym a b). by destruct (String.compare b a).
Qed.

Lemma str_ltb_antisym a b : str_ltb a b = false → str_ltb b a = false → a = b.
Proof.
  unfold str_ltb. rewrite (String.compare_antisym a b).
  destruct (String.compare b a) eqn:Hc; cbn; try done. intros _ _. by apply String.compare_eq_iff in Hc.
Qed.

(** ** Decimal numerals: lemmas *)

Lemma str_compare_app a b c : String.compare (a +:+ b) (a +:+ c) = String.compare b c.
Proof.
  induction a as [|x a IH]; [done|]. cbn. unfold Ascii.compare. by rewrite N.compare_refl.
Qed.

Lemma str_ltb_app a b c : str_ltb (a +:+ b) (a +:+ c) = str_ltb b c.
Proof. unfold str_ltb. by rewrite str_compare_app. Qed.

Lemma str_ltb_trans a b c : str_ltb a b = true → str_ltb b c = true → str_ltb a c = true.
Proof.
  intros H1 H2. destruct (str_ltb a c) eqn:H3; [done|].
  pose proof (str_geb_trans c a b H3 (str_ltb_asym _ _ H1)). congruence.
Qed.

Lemma digits_acc_app acc s t : digits_acc acc (s +:+ t) = digits_acc (digits_acc acc s) t.
Proof. revert acc. induction s as [|c s IH]; intros acc; [done|]. cbn. apply IH. Qed.

Lemma digits_acc_shift acc s :
  digits_acc acc s = acc * 10 ^ Z.of_nat (String.length s) + digits_acc 0 s.
Proof.
  revert acc. induction s as [|c s IH]; intros acc.
  - cbn. lia.
  - cbn [digits_acc String.length]. rewrite IH, (IH (0 * 10 + _)).
    rewrite Nat2Z.inj_succ, Z.pow_succ_r by lia. lia.
Qed.

Lemma digits_val_app s t :
  digits_val (s +:+ t) = digits_val s * 10 ^ Z.of_nat (String.length t) + digits_val t.
Proof. unfold digits_val. rewrite digits_acc_app. apply digits_acc_shift. Qed.

Lemma digits_acc_nonneg acc s : str_forall is_digit s = true → 0 <= acc → 0 <= digits_acc acc s.
Proof.
  revert acc. induction s as [|c s IH]; intros acc; [done|]. cbn.
  intros [Hc Hs]%andb_prop Ha. apply IH; [done|].
  apply is_digit_spec in Hc. unfold digit_val. lia.
Qed.

Lemma digits_val_nonneg s : str_forall is_digit s = true → 0 <= digits_val s.
Proof. intros. by apply digits_acc_nonneg. Qed.

Lemma digits_val_bound s :
  str_forall is_digit s = true → digits_val s < 10 ^ Z.of_nat (String.length s).
Proof.
  unfold digits_val. induction s as [|c s IH]; [done|]. cbn [str_forall digits_acc String.length].
  intros [Hc Hs]%andb_prop. apply is_digit_spec in Hc.
  rewrite digits_acc_shift, Nat2Z.inj_succ, Z.pow_succ_r by lia.
  specialize (IH Hs). unfold digit_val. nia.
Qed.

Lemma digits_val_zeros n : digits_val (str_repeat n "0") = 0.
Proof.
  unfold digits_val. induction n; [done|]. cbn [str_repeat digits_acc].
  by change (0 * 10 + digit_val "0") with 0.
Qed.

Lemma digits_of_val fuel n acc :
  0 <= n → n < 2 ^ Z.of_nat fuel →
  digits_val (digits_of fuel n acc) = n * 10 ^ Z.of_nat (String.length acc) + digits_val acc.
Proof.
  revert n acc. induction fuel as [|fuel IH]; intros n acc Hn Hf.
  - change (2 ^ Z.of_nat 0) with 1 in Hf. assert (n = 0) as -> by lia. done.
  - cbn [digits_of].
    pose proof (Z.mod_pos_bound n 10 ltac:(lia)) as Hm.
    pose proof (Z.div_mod n 10 ltac:(lia)) as Hd.
    rewrite Nat2Z.inj_succ, Z.pow_succ_r in Hf by lia.
    assert (Hval : digits_val (String (digit_char (n mod 10)) acc)
      = n mod 10 * 10 ^ Z.of_nat (String.length acc) + digits_val acc).
    { unfold digits_val. cbn [digits_acc]. rewrite digits_acc_shift.
      rewrite digit_char_val by lia. lia. }
    destruct (Z.eqb_spec (n / 10) 0) as [Hz|Hz].
    + rewrite Hval. rewrite Hz in Hd. lia.
    + rewrite IH; [|apply Z.div_pos; lia|apply Z.div_lt_upper_bound; lia].
      rewrite Hval. cbn [String.length]. rewrite Nat2Z.inj_succ, Z.pow_succ_r by lia.
      nia.
Qed.

Lemma digits_of_digits fuel n acc :
  0 <= n → str_forall is_digit acc = true → str_forall is_digit (digits_of fuel n acc) = true.
Proof.
  revert n acc. induction fuel as [|fuel IH]; intros n acc Hn Ha; [done|].
  cbn [digits_of]. pose proof (Z.mod_pos_bound n 10 ltac:(lia)) as Hm.
  assert (str_forall is_digit (String (digit_char (n mod 10)) acc) = true).
  { cbn. by rewrite digit_char_digit by lia. }
  case_match; [done|]. apply IH; [apply Z.div_pos; lia|done].
Qed.

Lemma digits_of_nonempty fuel n acc : acc ≠ EmptyString → digits_of fuel n acc ≠ EmptyString.
Proof.
  revert n acc. induction fuel as [|fuel IH]; intros n acc Ha; [done|].
  cbn [digits_of]. case_match; [done|]. by apply IH.
Qed.

Lemma nat_to_string_val n : 0 <= n → digits_val (nat_to_string n) = n.
Proof.
  intros Hn. unfold nat_to_string. rewrite digits_of_val; [cbn; lia|done|].
  rewrite Nat2Z.inj_succ, Z2Nat.id by apply Z.log2_nonneg.
  destruct (Z.eq_dec n 0) as [->|]; [done|]. apply Z.log2_spec; lia.
Qed.

Lemma nat_to_string_digits n : 0 <= n → str_forall is_digit (nat_to_string n) = true.
Proof. intros. by apply digits_of_digits. Qed.

Lemma nat_to_string_nonempty n : nat_to_string n ≠ EmptyString.
Proof.
  unfold nat_to_string. cbn [digits_of]. case_match; [done|]. by apply digits_of_nonempty.
Qed.

Lemma nat_to_string_all_digits n : 0 <= n → all_digits (nat_to_string n) = true.
Proof.
  intros Hn. unfold all_digits. rewrite nat_to_string_digits by done.
  pose proof (nat_to_string_nonempty n). by destruct (nat_to_string n).
Qed.

Lemma nat_to_string_inj n m : 0 <= n → 0 <= m → nat_to_string n = nat_to_string m → n = m.
Proof. intros Hn Hm Heq. rewrite <- (nat_to_string_val n), <- (nat_to_string_val m); congruence. Qed.

Lemma nat_to_string_length n k :
  0 <= n < 10 ^ Z.of_nat k → (0 < k)%nat → (String.length (nat_to_string n) <= k)%nat.
Proof.
  intros [Hn Hk] Hpos. unfold nat_to_string.
  assert (Hgen : ∀ fuel n k acc, 0 <= n < 10 ^ Z.of_nat k → (0 < k)%nat →
    (String.length (digits_of fuel n acc) <= k + String.length acc)%nat).
  { clear. induction fuel as [|fuel IH]; intros n k acc [Hn Hk] Hpos; cbn [digits_of]; [lia|].
    destruct (Z.eqb_spec (n / 10) 0); [cbn; lia|].
    destruct k as [|[|k]]; [lia| |].
    - exfalso. change (10 ^ Z.of_nat 1) with 10 in Hk. apply n0. apply Z.div_small. lia.
    - etrans; [apply (IH _ (S k)); [|lia]|cbn; lia].
      rewrite (Nat2Z.inj_succ (S k)), Z.pow_succ_r in Hk by lia.
      split; [apply Z.div_pos; lia|apply Z.div_lt_upper_bound; lia]. }
  etrans; [apply Hgen; done|cbn; lia].
Qed.

Lemma digits_not_space s :
  str_forall is_digit s = true → str_forall (λ c, negb (is_space c)) s = true.
Proof.
  induction s as [|c s IH]; [done|]. cbn. intros [Hc Hs]%andb_prop.
  rewrite (digit_not_space c Hc). by apply IH.
Qed.

Lemma digits_not_char (c : ascii) s :
  is_digit c = false → str_forall is_digit s = true →
  str_forall (λ a, negb (Ascii.eqb a c)) s = true.
Proof.
  intros Hc. induction s as [|a s IH]; [done|]. cbn. intros [Ha Hs]%andb_prop.
  rewrite (IH Hs). destruct (Ascii.eqb_spec a c) as [->|]; [congruence|done].
Qed.

Lemma all_digits_forall s : all_digits s = true → str_forall is_digit s = true.
Proof. unfold all_digits. by intros [_ ?]%andb_prop. Qed.

Lemma BigInt_of_digits s : all_digits s = true → BigInt_of_string s = Some (digits_val s).
Proof.
  intros Hd. pose proof (all_digits_forall _ Hd) as Hf. unfold BigInt_of_string.
  rewrite trim_id by by apply digits_not_space.
  destruct s as [|c s]; [done|]. cbn in Hf. apply andb_prop in Hf as [Hc Hs].
  assert (Hx : ∀ d, is_digit d = false → starts_with (String "0" (String d "")) (String c s) = false).
  { intros d Hd'. cbn -[Ascii.eqb]. destruct (Ascii.eqb "0" c); [|done]. destruct s as [|e s]; [done|].
    cbn in Hs. apply andb_prop in Hs as [He _]. cbn -[Ascii.eqb].
    destruct (Ascii.eqb_spec d e) as [->|]; [congruence|done]. }
  rewrite !Hx by done. cbn [is_empty orb].
  destruct (Ascii.eqb_spec c "-") as [->|Hm]; [done|].
  destruct (Ascii.eqb_spec c "+") as [->|Hp]; [done|].
  destruct c as [[] [] [] [] [] [] [] []]; try (by rewrite Hd); vm_compute in Hc; done.
Qed.

Lemma BigInt_of_nat_to_string n : 0 <= n → BigInt_of_string (nat_to_string n) = Some n.
Proof.
  intros Hn. rewrite BigInt_of_digits by by apply nat_to_string_all_digits. by rewrite nat_to_string_val.
Qed.
