(* ===== verification/JsNumber.v ===== *)
(** * JavaScript Numbers

    A Number is an IEEE 754 binary64 value, taken from the executable
    specification [SpecFloat] of the standard library: arithmetic rounds to
    nearest even, comparisons are the IEEE ones.  The file adds the language's
    conversions that the sources use: [Number(str)], [parseFloat],
    [String(num)], [num.toFixed(n)], [Math.min], [Math.max], [Math.floor],
    [Math.round], and the order lemmas the components share. *)

From Stdlib Require Import Ascii SpecFloat.
From S2P Require Import Prelude JsString.
Local Open Scope Z_scope.

Abbreviation num := spec_float (only parsing).

Create HintDb num.

#[export] Instance num_eq_dec : EqDecision spec_float.
Proof. solve_decision. Defined.

Definition prec : Z := 53.
Definition emax : Z := 1024.

(** ** Arithmetic and comparison *)

Definition num_add : num → num → num := SFadd prec emax.
Definition num_sub : num → num → num := SFsub prec emax.
Definition num_mul : num → num → num := SFmul prec emax.
Definition num_div : num → num → num := SFdiv prec emax.
Definition num_neg : num → num := SFopp.

Definition num_ltb (a b : num) : bool := SFltb a b.
Definition num_leb (a b : num) : bool := SFleb a b.
Definition num_gtb (a b : num) : bool := SFltb b a.
Definition num_geb (a b : num) : bool := SFleb b a.
(** [a === b] on Numbers *)
Definition num_eqb (a b : num) : bool := SFeqb a b.

Definition num_nan : num := S754_nan.
Definition num_inf : num := S754_infinity false.
Definition num_zero : num := S754_zero false.

Definition num_is_nan (a : num) : bool := match a with S754_nan => true | _ => false end.
Definition num_is_finite (a : num) : bool :=
  match a with S754_zero _ | S754_finite _ _ _ => true | _ => false end.
(** Truthiness: only NaN and the zeros are falsy. *)
Definition num_truthy (a : num) : bool :=
  match a with S754_nan | S754_zero _ => false | _ => true end.

Definition num_of_Z (z : Z) : num := binary_normalize prec emax z 0 false.

(** The Number nearest to [s * 10 ^ e], for [0 <= s]. *)
Definition num_of_dec (neg : bool) (s e : Z) : num :=
  match s with
  | Zpos p =>
      if 0 <=? e then
        match s * 10 ^ e with
        | Zpos q => binary_round prec emax neg q 0
        | _ => S754_zero neg
        end
      else
        let '(mz, ez, lz) := SFdiv_core_binary prec emax s 0 (10 ^ (- e)) 0 in
        binary_round_aux prec emax neg mz ez lz
  | _ => S754_zero neg
  end.

(** ** Integer parts *)

(** [floor (m * 2 ^ e * k / d)] for the magnitude of a finite Number. *)
Definition scaled_floor (m : positive) (e k d : Z) : Z :=
  if 0 <=? e then (Zpos m * 2 ^ e * k) / d else (Zpos m * k) / (2 ^ (- e) * d).

Definition num_floor_Z (a : num) : option Z :=
  match a with
  | S754_zero _ => Some 0
  | S754_finite false m e => Some (scaled_floor m e 1 1)
  | S754_finite true m e =>
      Some (if 0 <=? e then - (Zpos m * 2 ^ e) else - Zpos m / 2 ^ (- e))
  | _ => None
  end.

(** [Number.isInteger] *)
Definition num_is_integer (a : num) : bool :=
  match a with
  | S754_zero _ => true
  | S754_finite _ m e => if 0 <=? e then true else Zpos m mod 2 ^ (- e) =? 0
  | _ => false
  end.

(** [Math.floor] *)
Definition num_floor (a : num) : num :=
  match a with
  | S754_finite s m e =>
      match num_floor_Z a with
      | Some z => match z with 0 => S754_zero s | _ => num_of_Z z end
      | None => a
      end
  | _ => a
  end.

(** [Math.round]: the nearest integer, halves towards positive infinity. *)
Definition num_round (a : num) : num :=
  match a with
  | S754_finite s m e =>
      if 0 <=? e then a
      else let v := if s then - Zpos m else Zpos m in
           match (2 * v + 2 ^ (- e)) / (2 * 2 ^ (- e)) with
           | 0 => S754_zero s
           | z => num_of_Z z
           end
  | _ => a
  end.

(** [Math.min], [Math.max] of two Numbers: NaN propagates, -0 is below +0. *)
Definition num_min (a b : num) : num :=
  if num_is_nan a || num_is_nan b then S754_nan
  else match a, b with
       | S754_zero s, S754_zero t => S754_zero (s || t)
       | _, _ => if num_ltb b a then b else a
       end.
Definition num_max (a b : num) : num :=
  if num_is_nan a || num_is_nan b then S754_nan
  else match a, b with
       | S754_zero s, S754_zero t => S754_zero (s && t)
       | _, _ => if num_ltb a b then b else a
       end.

(** ** Number to string *)

(** The shortest decimal [(s, n)], with [k] digits of [s], whose value
    [s * 10 ^ (n - k)] reads back as the Number [m * 2 ^ e]. *)
Definition candidate (m : positive) (e n k : Z) : option (Z * Z) :=
  let x := S754_finite false m e in
  let lo := if 0 <=? n - k then scaled_floor m e 1 (10 ^ (n - k))
            else scaled_floor m e (10 ^ (k - n)) 1 in
  let twice := if 0 <=? n - k then scaled_floor m e 2 (10 ^ (n - k))
               else scaled_floor m e (2 * 10 ^ (k - n)) 1 in
  let near := (twice + 1) / 2 in
  let far := if near =? lo then lo + 1 else lo in
  if bool_decide (num_of_dec false near (n - k) = x) then Some (near, n)
  else if bool_decide (num_of_dec false far (n - k) = x) then Some (far, n)
  else None.

Fixpoint shortest (m : positive) (e n : Z) (fuel : nat) (k : Z) : Z * Z :=
  match candidate m e n k with
  | Some r => r
  | None => match fuel with
            | O => (0, n)
            | S fuel => shortest m e n fuel (k + 1)
            end
  end.

(** The [n] with [10 ^ (n - 1) <= m * 2 ^ e < 10 ^ n], from the binary estimate. *)
Definition dec_exponent (m : positive) (e : Z) : Z :=
  let n0 := (Z.log2 (Zpos m) + e) * 30103 / 100000 in
  let below n := if 0 <=? n then scaled_floor m e 1 (10 ^ n) =? 0
                 else scaled_floor m e (10 ^ (- n)) 1 =? 0 in
  if below n0 then n0 else if below (n0 + 1) then n0 + 1 else n0 + 2.

(** Drop the zeros at the end of a digit string of value [s]. *)
Fixpoint strip_zeros (fuel : nat) (s : Z) : Z :=
  match fuel with
  | O => s
  | S fuel => if s mod 10 =? 0 then strip_zeros fuel (s / 10) else s
  end.

Definition pos_to_string (m : positive) (e : Z) : string :=
  let '(s0, n0) := shortest m e (dec_exponent m e) 17 1 in
  let ds0 := nat_to_string s0 in
  let s := strip_zeros 17 s0 in
  let ds := nat_to_string s in
  let k := Z.of_nat (String.length ds) in
  (* a rounding up to the next power of ten lengthens the digits by one *)
  let n := if s =? 1 then
             (if bool_decide (num_of_dec false 1 (n0 - 1) = S754_finite false m e)
              then n0 else n0 + 1) else n0 in
  if (k <=? n) && (n <=? 21) then ds +:+ str_repeat (Z.to_nat (n - k)) "0"
  else if (0 <? n) && (n <=? 21) then
    str_take (Z.to_nat n) ds +:+ "." +:+ str_drop (Z.to_nat n) ds
  else if (-6 <? n) && (n <=? 0) then
    "0." +:+ str_repeat (Z.to_nat (- n)) "0" +:+ ds
  else
    let ex := (if 0 <? n - 1 then "e+" else "e-") +:+ nat_to_string (Z.abs (n - 1)) in
    if k =? 1 then ds +:+ ex else str_take 1 ds +:+ "." +:+ str_drop 1 ds +:+ ex.

(** [String(x)] *)
Definition num_to_string (a : num) : string :=
  match a with
  | S754_nan => "NaN"
  | S754_zero _ => "0"
  | S754_infinity false => "Infinity"
  | S754_infinity true => "-Infinity"
  | S754_finite false m e => pos_to_string m e
  | S754_finite true m e => "-" +:+ pos_to_string m e
  end.

(** [x.toFixed(f)] *)
Definition fixed_digits (f : nat) (n : Z) : string :=
  let ds := pad_start (S f) "0" (nat_to_string n) in
  let k := (String.length ds - f)%nat in
  match f with
  | O => ds
  | _ => str_take k ds +:+ "." +:+ str_drop k ds
  end.
Definition num_to_fixed (f : nat) (a : num) : string :=
  match a with
  | S754_zero _ => fixed_digits f 0
  | S754_finite s m e =>
      if num_geb (S754_finite false m e) (num_of_Z (10 ^ 21)) then num_to_string a
      else (if s then "-" else "") +:+
           fixed_digits f ((scaled_floor m e (2 * 10 ^ Z.of_nat f) 1 + 1) / 2)
  | _ => num_to_string a
  end.

(** ** String to Number *)

Fixpoint scan_digits (s : string) : string * string :=
  match s with
  | String c s' => if is_digit c then let '(d, r) := scan_digits s' in (String c d, r) else ("", s)
  | EmptyString => ("", "")
  end.

(** Exponent part of a decimal literal; nothing is consumed when malformed. *)
Definition scan_exponent (s : string) : Z * string :=
  match s with
  | String c r =>
      if Ascii.eqb c "e" || Ascii.eqb c "E" then
        let '(sg, r1) := match r with
                         | String "-" r1 => (-1, r1)
                         | String "+" r1 => (1, r1)
                         | _ => (1, r)
                         end in
        let '(d, r2) := scan_digits r1 in
        if is_empty d then (0, s) else (sg * digits_val d, r2)
      else (0, s)
  | EmptyString => (0, s)
  end.

(** An unsigned decimal literal: the Number and what follows it. *)
Definition scan_decimal (neg : bool) (s : string) : option (num * string) :=
  if starts_with "Infinity" s then Some (S754_infinity neg, str_drop 8 s) else
  let '(ip, r) := scan_digits s in
  let '(fp, r2) := match r with
                   | String "." r1 => let '(f, r2) := scan_digits r1 in
                                      if is_empty ip && is_empty f then ("", r) else (f, r2)
                   | _ => ("", r)
                   end in
  if is_empty ip && is_empty fp then None
  else let '(ex, r3) := scan_exponent r2 in
       Some (num_of_dec neg (digits_val (ip +:+ fp)) (ex - Z.of_nat (String.length fp)), r3).

Definition scan_number (s : string) : option (num * string) :=
  match s with
  | String "-" r => scan_decimal true r
  | String "+" r => scan_decimal false r
  | _ => scan_decimal false s
  end.

(** [parseFloat(s)] *)
Definition parse_float (s : string) : num :=
  match scan_number (trim_start s) with Some (x, _) => x | None => S754_nan end.

(** [Number(s)] *)
Definition num_of_string (str : string) : num :=
  let s := trim str in
  if is_empty s then num_zero
  else if starts_with "0x" s || starts_with "0X" s || starts_with "0o" s || starts_with "0O" s
          || starts_with "0b" s || starts_with "0B" s then
    match BigInt_of_string s with Some z => num_of_Z z | None => S754_nan end
  else match scan_number s with
       | Some (x, EmptyString) => x
       | _ => S754_nan
       end.

(** [parseInt(s, 10)]: the integer prefix, [None] for NaN. *)
Definition parse_int (s : string) : option Z :=
  let dec neg r := let '(d, _) := scan_digits r in
                   if is_empty d then None
                   else Some (if neg : bool then - digits_val d else digits_val d) in
  match trim_start s with
  | String "-" r => dec true r
  | String "+" r => dec false r
  | r => dec false r
  end.

(** ** Checks against the language's own results *)

Example num_to_string_samples :
  map (λ s, num_to_string (num_of_string s))
    ["0.1"; "1e21"; "123456789012345680000"; "5e-324"; "-1.5e-7"; "0.000001"; "1e23"; "100";
     "123.456"; "9007199254740993"; "1.7976931348623157e308"]
  = ["0.1"; "1e+21"; "123456789012345680000"; "5e-324"; "-1.5e-7"; "0.000001"; "1e+23"; "100";
     "123.456"; "9007199254740992"; "1.7976931348623157e+308"].
Proof. vm_compute. reflexivity. Qed.

Example num_sum_sample :
  num_to_string (num_add (num_of_string "0.1") (num_of_string "0.2")) = "0.30000000000000004".
Proof. vm_compute. reflexivity. Qed.

Example num_to_fixed_samples :
  (num_to_fixed 7 (num_of_string "10.5"), num_to_fixed 2 (num_of_string "1.005"),
   num_to_fixed 7 (num_of_string "-0.00000001")) = ("10.5000000", "1.00", "-0.0000000").
Proof. vm_compute. reflexivity. Qed.

Example num_parse_samples :
  (parse_float "12.5abc", num_round (num_of_string "-2.5"), parse_int "-42px")
  = (num_of_string "12.5", num_of_Z (-2), Some (-42)).
Proof. vm_compute. reflexivity. Qed.

(** ** Integers read back *)

Lemma scan_digits_all s : str_forall is_digit s = true → scan_digits s = (s, "").
Proof.
  induction s as [|c s IH]; [done|]. cbn. intros [Hc Hs]%andb_prop. by rewrite Hc, (IH Hs).
Qed.

Lemma parse_int_Z_to_string z : parse_int (Z_to_string z) = Some z.
Proof.
  assert (Hd : ∀ n, 0 <= n → parse_int (nat_to_string n) = Some n ∧
    parse_int (String "-" (nat_to_string n)) = Some (- n)).
  { intros n Hn. pose proof (nat_to_string_digits n Hn) as Hf.
    pose proof (nat_to_string_nonempty n) as Hne. pose proof (nat_to_string_val n Hn) as Hv.
    assert (He : is_empty (nat_to_string n) = false) by by destruct (nat_to_string n).
    unfold parse_int. split.
    - destruct (nat_to_string n) as [|c s] eqn:Hs; [done|].
      pose proof Hf as Hc. cbn in Hc. apply andb_prop in Hc as [Hc _].
      rewrite trim_start_id by by apply digit_not_space.
      pose proof (scan_digits_all _ Hf) as Hsc.
      destruct c as [[] [] [] [] [] [] [] []]; vm_compute in Hc; try discriminate Hc;
        by rewrite Hsc, He, Hv.
    - cbn [trim_start]. change (is_space "-") with false. cbv iota.
      by rewrite scan_digits_all, He, Hv. }
  unfold Z_to_string. destruct (Z.ltb_spec z 0).
  - cbn [String.append]. rewrite (proj2 (Hd (- z) ltac:(lia))). f_equal. lia.
  - by apply Hd.
Qed.

(** ** Order lemmas *)

(** Comparison is lexicographic on the class and sign, the exponent and the
    mantissa; NaN has no key. *)
Definition num_key (a : num) : option (Z * Z * Z) :=
  match a with
  | S754_nan => None
  | S754_infinity s => Some (if s then -2 else 2, 0, 0)
  | S754_zero _ => Some (0, 0, 0)
  | S754_finite s m e => Some (if s then (-1, - e, Zneg m) else (1, e, Zpos m))
  end.

Definition key_lt (k l : Z * Z * Z) : Prop :=
  let '(c1, e1, m1) := k in
  let '(c2, e2, m2) := l in
  c1 < c2 ∨ (c1 = c2 ∧ (e1 < e2 ∨ (e1 = e2 ∧ m1 < m2))).

Definition key_compare (k l : Z * Z * Z) : comparison :=
  let '(c1, e1, m1) := k in
  let '(c2, e2, m2) := l in
  match Z.compare c1 c2 with
  | Eq => match Z.compare e1 e2 with Eq => Z.compare m1 m2 | c => c end
  | c => c
  end.

Lemma SFcompare_key a b :
  SFcompare a b =
    match num_key a, num_key b with
    | Some k, Some l => Some (key_compare k l)
    | _, _ => None
    end.
Proof.
  destruct a as [s|s| |s m e], b as [s'|s'| |s' m' e']; try done;
    try (by destruct s); try (by destruct s'); try (by destruct s, s').
  destruct s, s'; try done; cbn [SFcompare num_key key_compare].
  rewrite Z.compare_opp.
  destruct (Z.compare_spec e e') as [->|H|H].
  - by rewrite !Z.compare_refl.
  - by rewrite (proj2 (Z.compare_gt_iff e' e) H).
  - by rewrite (proj2 (Z.compare_lt_iff e' e) H).
Qed.

Lemma key_compare_lt k l : key_compare k l = Lt ↔ key_lt k l.
Proof.
  destruct k as [[c1 e1] m1], l as [[c2 e2] m2]; cbn.
  destruct (Z.compare_spec c1 c2), (Z.compare_spec e1 e2), (Z.compare_spec m1 m2);
    split; intros; try done; lia.
Qed.

Lemma key_compare_gt k l : key_compare k l = Gt ↔ key_lt l k.
Proof.
  destruct k as [[c1 e1] m1], l as [[c2 e2] m2]; cbn.
  destruct (Z.compare_spec c1 c2), (Z.compare_spec e1 e2), (Z.compare_spec m1 m2);
    split; intros; try done; lia.
Qed.

Lemma key_lt_irrefl k : ¬ key_lt k k.
Proof. destruct k as [[c e] m]; cbn; lia. Qed.

Lemma key_lt_trans k l n : key_lt k l → key_lt l n → key_lt k n.
Proof. destruct k as [[c e] m], l as [[c2 e2] m2], n as [[c3 e3] m3]; cbn; lia. Qed.

Lemma key_lt_cotrans k l n : key_lt k l → key_lt k n ∨ key_lt n l.
Proof. destruct k as [[c e] m], l as [[c2 e2] m2], n as [[c3 e3] m3]; cbn; lia. Qed.

Lemma num_key_Some a : num_is_nan a = false ↔ ∃ k, num_key a = Some k.
Proof. destruct a; cbn; naive_solver. Qed.

Lemma num_ltb_key a b :
  num_ltb a b = true ↔ ∃ k l, num_key a = Some k ∧ num_key b = Some l ∧ key_lt k l.
Proof.
  unfold num_ltb, SFltb. rewrite SFcompare_key.
  destruct (num_key a) as [k|], (num_key b) as [l|]; try naive_solver.
  pose proof (key_compare_lt k l). destruct (key_compare k l); naive_solver.
Qed.

Lemma num_leb_key a b :
  num_leb a b = true ↔ ∃ k l, num_key a = Some k ∧ num_key b = Some l ∧ ¬ key_lt l k.
Proof.
  unfold num_leb, SFleb. rewrite SFcompare_key.
  destruct (num_key a) as [k|], (num_key b) as [l|]; try naive_solver.
  pose proof (key_compare_gt k l). destruct (key_compare k l); naive_solver.
Qed.

Lemma num_ltb_irrefl a : num_ltb a a = false.
Proof.
  apply not_true_is_false. rewrite num_ltb_key. intros (k & l & ? & ? & Hlt).
  simplify_eq. by eapply key_lt_irrefl.
Qed.

Lemma num_ltb_trans a b c : num_ltb a b = true → num_ltb b c = true → num_ltb a c = true.
Proof. rewrite !num_ltb_key. naive_solver eauto using key_lt_trans. Qed.

Lemma num_leb_trans a b c : num_leb a b = true → num_leb b c = true → num_leb a c = true.
Proof.
  rewrite !num_leb_key. intros (k & l & ? & ? & Hkl) (l' & n & ? & ? & Hln).
  assert (l' = l) as -> by congruence.
  exists k, n. do 2 (split; [done|]). intros Hnk. destruct (key_lt_cotrans _ _ l Hnk); naive_solver.
Qed.

Lemma num_leb_ltb_trans a b c : num_leb a b = true → num_ltb b c = true → num_ltb a c = true.
Proof.
  rewrite num_leb_key, !num_ltb_key. intros (k & l & ? & ? & Hkl) (l' & n & ? & ? & Hln).
  assert (l' = l) as -> by congruence. exists k, n. do 2 (split; [done|]).
  destruct (key_lt_cotrans _ _ k Hln); naive_solver.
Qed.

(** The negation of [>] is [<=], except on NaN. *)
Lemma num_gtb_false a b :
  num_is_nan a = false → num_is_nan b = false → num_gtb a b = false → num_leb a b = true.
Proof.
  rewrite !num_key_Some. intros [k Hk] [l Hl] Hgt. apply num_leb_key.
  exists k, l. do 2 (split; [done|]). intros Hlt.
  assert (num_gtb a b = true); [|congruence]. apply num_ltb_key. naive_solver.
Qed.

Lemma num_leb_not_nan a b : num_leb a b = true → num_is_nan a = false ∧ num_is_nan b = false.
Proof. rewrite num_leb_key, !num_key_Some. naive_solver. Qed.

Lemma num_ltb_not_nan a b : num_ltb a b = true → num_is_nan a = false ∧ num_is_nan b = false.
Proof. rewrite num_ltb_key, !num_key_Some. naive_solver. Qed.

Lemma num_leb_refl a : num_is_nan a = false → num_leb a a = true.
Proof.
  rewrite num_key_Some. intros [k Hk]. apply num_leb_key. exists k, k.
  split_and!; [done..|]. apply key_lt_irrefl.
Qed.

Lemma num_ltb_leb a b : num_ltb a b = true → num_leb a b = true.
Proof.
  rewrite num_ltb_key, num_leb_key. intros (k & l & ? & ? & H). exists k, l.
  do 2 (split; [done|]). intros H'. eapply key_lt_irrefl, key_lt_trans; eauto.
Qed.

Lemma num_total a b :
  num_is_nan a = false → num_is_nan b = false → num_ltb a b = true ∨ num_leb b a = true.
Proof.
  intros Ha Hb. destruct (num_ltb a b) eqn:H; [by left|right].
  by apply num_gtb_false.
Qed.

#[export] Hint Resolve num_ltb_leb num_leb_refl num_leb_trans : num.
