(* ===== verification/JsInt.v ===== *)
(** * Integer-valued Numbers

    Below 2^53 a Number represents an integer exactly, and the sum, the
    difference and the product of two such Numbers are exact as long as the
    result is below 2^53 too.  These lemmas let the components that compute
    with times and counters as Numbers reason about them as integers. *)

From Stdlib Require Import Ascii SpecFloat.
From S2P Require Import Prelude JsString JsNumber.
Local Open Scope Z_scope.

Definition max_int : Z := 2 ^ 53.

(** The mantissa and the exponent of a positive integer below 2^53. *)
Definition mant (z : positive) : positive := Z.to_pos (Zpos z * 2 ^ (52 - Z.log2 (Zpos z))).
Definition expo (z : positive) : Z := Z.log2 (Zpos z) - 52.

Lemma digits2_log2 p : Zpos (digits2_pos p) = Z.log2 (Zpos p) + 1.
Proof.
  induction p as [p IH|p IH|]; cbn [digits2_pos]; [| |done]; rewrite Pos2Z.inj_succ, IH.
  - rewrite (Pos2Z.inj_xI p), Z.log2_succ_double by lia. lia.
  - rewrite (Pos2Z.inj_xO p), Z.log2_double by lia. lia.
Qed.

Lemma log2_shift z k : 0 <= k → Z.log2 (Zpos z * 2 ^ k) = Z.log2 (Zpos z) + k.
Proof. intros. rewrite Z.log2_mul_pow2 by lia. lia. Qed.

Lemma log2_small z : Zpos z < max_int → 0 <= Z.log2 (Zpos z) <= 52.
Proof.
  intros Hz. split; [apply Z.log2_nonneg|].
  enough (Z.log2 (Zpos z) < 53) by lia. apply Z.log2_lt_pow2; [lia|exact Hz].
Qed.

Lemma mant_val z : Zpos z < max_int → Zpos (mant z) = Zpos z * 2 ^ (- expo z).
Proof.
  intros Hz%log2_small. unfold mant, expo. rewrite Z2Pos.id; [f_equal; f_equal; lia|].
  apply Z.mul_pos_pos; [lia|apply Z.pow_pos_nonneg; lia].
Qed.

Lemma iter_pos_add {A} (f : A → A) n x : SpecFloat.iter_pos f n x = Nat.iter (Pos.to_nat n) f x.
Proof.
  revert x. induction n as [n IH|n IH|]; intros x; cbn [SpecFloat.iter_pos]; [| |done].
  - rewrite !IH, Pos2Nat.inj_xI, <- Nat.iter_add. cbn [Nat.mul].
    replace (S (Pos.to_nat n + (Pos.to_nat n + 0))) with (Pos.to_nat n + Pos.to_nat n + 1)%nat by lia.
    by rewrite (Nat.iter_add (Pos.to_nat n + Pos.to_nat n) 1).
  - rewrite !IH, Pos2Nat.inj_xO, <- Nat.iter_add. f_equal. lia.
Qed.

(** Shifting out zeros loses nothing. *)
Lemma shr_exact m n :
  SpecFloat.iter_pos shr_1 n (Build_shr_record (Zpos m * 2 ^ Zpos n) false false) = Build_shr_record (Zpos m) false false.
Proof.
  rewrite iter_pos_add, <- (positive_nat_Z n). generalize (Pos.to_nat n). clear n. intros n. revert m.
  induction n as [|n IH]; intros m.
  - cbn -[Z.mul]. by rewrite Z.mul_1_r.
  - rewrite Nat.iter_succ_r, Nat2Z.inj_succ, Z.pow_succ_r by lia.
    replace (Zpos m * (2 * 2 ^ Z.of_nat n)) with (2 * (Zpos m * 2 ^ Z.of_nat n)) by lia.
    pose proof (IH m) as H. destruct (Zpos m * 2 ^ Z.of_nat n) as [|q|q] eqn:Hq.
    + pose proof (Z.pow_pos_nonneg 2 (Z.of_nat n)). lia.
    + exact H.
    + pose proof (Z.pow_pos_nonneg 2 (Z.of_nat n)). lia.
Qed.

Lemma fexp_int z : Zpos z < max_int → fexp prec emax (Z.log2 (Zpos z) + 1) = expo z.
Proof. intros Hz%log2_small. unfold fexp, expo, emin, prec, emax. lia. Qed.

(** Rounding a mantissa that has the bits of an integer and zeros behind. *)
Lemma round_aux_int s z m e :
  Zpos z < max_int → e <= expo z → Zpos m = Zpos z * 2 ^ (- e) →
  binary_round_aux prec emax s (Zpos m) e loc_Exact = S754_finite s (mant z) (expo z).
Proof.
  intros Hz He Hm. pose proof (log2_small z Hz) as Hl. pose proof (mant_val z Hz) as Hv.
  assert (Hlm : Z.log2 (Zpos m) = Z.log2 (Zpos z) - e) by (rewrite Hm, log2_shift; unfold expo in He; lia).
  assert (Hlv : Z.log2 (Zpos (mant z)) = Z.log2 (Zpos z) - expo z) by (rewrite Hv, log2_shift; unfold expo; lia).
  assert (H1 : shr_fexp prec emax (Zpos m) e loc_Exact = (Build_shr_record (Zpos (mant z)) false false, expo z)).
  { unfold shr_fexp, Zdigits2, shr_record_of_loc. rewrite digits2_log2, Hlm.
    replace (Z.log2 (Zpos z) - e + 1 + e) with (Z.log2 (Zpos z) + 1) by lia. rewrite fexp_int by done.
    assert (Hmm : Zpos m = Zpos (mant z) * 2 ^ (expo z - e)).
    { rewrite Hm, Hv, <- Z.mul_assoc, <- Z.pow_add_r by (unfold expo in *; lia). f_equal. f_equal. lia. }
    unfold shr. destruct (expo z - e) as [|n|n] eqn:Hn; [| |lia].
    - rewrite Z.mul_1_r in Hmm. rewrite Hmm. f_equal. lia.
    - rewrite Hmm, shr_exact. f_equal. lia. }
  unfold binary_round_aux. rewrite H1. cbn [shr_m loc_of_shr_record round_nearest_even].
  unfold shr_fexp, Zdigits2, shr_record_of_loc. rewrite digits2_log2, Hlv.
  replace (Z.log2 (Zpos z) - expo z + 1 + expo z) with (Z.log2 (Zpos z) + 1) by lia. rewrite fexp_int, Z.sub_diag by done.
  cbn [shr shr_m]. rewrite (proj2 (Z.leb_le (expo z) (emax - prec))); [done|]. unfold expo, emax, prec. lia.
Qed.

Lemma shl_align_val m e e' : e' <= e →
  snd (shl_align m e e') = e' ∧ Zpos (fst (shl_align m e e')) = Zpos m * 2 ^ (e - e').
Proof.
  intros He. unfold shl_align. destruct (e' - e) as [|d|d] eqn:Hd; [|lia|].
  - cbn [fst snd]. assert (e = e') as -> by lia. rewrite Z.sub_diag, Z.mul_1_r. split; [lia|done].
  - cbn [fst snd]. split; [lia|]. replace (e - e') with (Zpos d) by lia.
    rewrite <- (Z.shiftl_mul_pow2 (Zpos m) (Zpos d)) by lia. cbn [Z.shiftl].
    by apply (Pos.iter_swap_gen _ _ Zpos).
Qed.

Lemma round_int s z m e :
  Zpos z < max_int → e <= 0 → Zpos m = Zpos z * 2 ^ (- e) →
  binary_round prec emax s m e = S754_finite s (mant z) (expo z).
Proof.
  intros Hz He Hm. unfold binary_round. rewrite digits2_log2, Hm, log2_shift by lia.
  replace (Z.log2 (Zpos z) + - e + 1 + e) with (Z.log2 (Zpos z) + 1) by lia. rewrite fexp_int by done.
  destruct (Z.le_gt_cases (expo z) e) as [Hle|Hgt].
  - destruct (shl_align_val m e (expo z) Hle) as [Hs Hf]. destruct (shl_align m e (expo z)) as [m' e'].
    cbn [fst snd] in Hs, Hf. subst e'. apply round_aux_int; [done|done|].
    rewrite Hf, Hm, <- Z.mul_assoc, <- Z.pow_add_r by lia. f_equal. f_equal. lia.
  - unfold shl_align. destruct (expo z - e) as [|d|d] eqn:Hd; [lia| |lia].
    apply round_aux_int; [done|lia|done].
Qed.

(** ** The Number of an integer *)

Lemma num_of_Z_pos z : Zpos z < max_int → num_of_Z (Zpos z) = S754_finite false (mant z) (expo z).
Proof. intros Hz. apply round_int; [done|lia|]. cbn -[Z.mul]. lia. Qed.
Lemma num_of_Z_neg z : Zpos z < max_int → num_of_Z (Zneg z) = S754_finite true (mant z) (expo z).
Proof. intros Hz. apply round_int; [done|lia|]. cbn -[Z.mul]. lia. Qed.

Lemma num_of_Z_finite z : Z.abs z < max_int → num_is_finite (num_of_Z z) = true.
Proof. destruct z; intros; [done|by rewrite num_of_Z_pos|by rewrite num_of_Z_neg by lia]. Qed.
Lemma num_of_Z_not_nan z : Z.abs z < max_int → num_is_nan (num_of_Z z) = false.
Proof. intros H%num_of_Z_finite. by destruct (num_of_Z z). Qed.

(** The rounding of a scaled integer. *)
Lemma normalize_int z m e :
  Z.abs z < max_int → e <= 0 → m = z * 2 ^ (- e) → binary_normalize prec emax m e false = num_of_Z z.
Proof.
  intros Hz He ->. pose proof (Z.pow_pos_nonneg 2 (- e) ltac:(lia) ltac:(lia)) as Hp.
  destruct z as [|z|z]; [by rewrite Z.mul_0_l| |].
  - rewrite num_of_Z_pos by exact Hz. destruct (Zpos z * 2 ^ (- e)) as [|m|m] eqn:Hm; [lia| |lia].
    cbn [binary_normalize]. apply round_int; [exact Hz|done|by rewrite Hm].
  - rewrite num_of_Z_neg by lia. destruct (Zneg z * 2 ^ (- e)) as [|m|m] eqn:Hm; [lia|lia|].
    cbn [binary_normalize]. apply round_int; [lia|done|lia].
Qed.

(** The mantissa of an aligned integer. *)
Lemma aligned_val z e :
  Zpos z < max_int → e <= expo z → Zpos (fst (shl_align (mant z) (expo z) e)) = Zpos z * 2 ^ (- e).
Proof.
  intros Hz He. destruct (shl_align_val (mant z) (expo z) e He) as [_ ->].
  pose proof (log2_small z Hz). rewrite mant_val, <- Z.mul_assoc, <- Z.pow_add_r by (done || unfold expo in *; lia).
  f_equal. f_equal. lia.
Qed.

Lemma expo_neg z : Zpos z < max_int → expo z <= 0.
Proof. intros ?%log2_small. unfold expo. lia. Qed.

Ltac int_arith a b :=
  pose proof (expo_neg a ltac:(lia)); pose proof (expo_neg b ltac:(lia));
  apply normalize_int; [lia|lia|];
  unfold cond_Zopp; rewrite !aligned_val by lia; lia.

Lemma num_sub_Z a b :
  Z.abs a < max_int → Z.abs b < max_int → Z.abs (a - b) < max_int →
  num_sub (num_of_Z a) (num_of_Z b) = num_of_Z (a - b).
Proof.
  intros Ha Hb Hab. unfold num_sub.
  destruct a as [|a|a], b as [|b|b]; try done;
    rewrite ?(num_of_Z_pos a), ?(num_of_Z_neg a), ?(num_of_Z_pos b), ?(num_of_Z_neg b) by lia; cbn [SFsub].
  - change (0 - Zpos b) with (Zneg b). by rewrite (num_of_Z_neg b).
  - change (0 - Zneg b) with (Zpos b). by rewrite (num_of_Z_pos b).
  - rewrite Z.sub_0_r. by rewrite (num_of_Z_pos a).
  - int_arith a b.
  - int_arith a b.
  - rewrite Z.sub_0_r. by rewrite (num_of_Z_neg a) by lia.
  - int_arith a b.
  - int_arith a b.
Qed.

Lemma num_add_Z a b :
  Z.abs a < max_int → Z.abs b < max_int → Z.abs (a + b) < max_int →
  num_add (num_of_Z a) (num_of_Z b) = num_of_Z (a + b).
Proof.
  intros Ha Hb Hab. unfold num_add.
  destruct a as [|a|a], b as [|b|b]; try done;
    rewrite ?(num_of_Z_pos a), ?(num_of_Z_neg a), ?(num_of_Z_pos b), ?(num_of_Z_neg b) by lia; cbn [SFadd].
  - by rewrite Z.add_0_l, (num_of_Z_pos b).
  - by rewrite Z.add_0_l, (num_of_Z_neg b) by lia.
  - by rewrite Z.add_0_r, (num_of_Z_pos a).
  - int_arith a b.
  - int_arith a b.
  - by rewrite Z.add_0_r, (num_of_Z_neg a) by lia.
  - int_arith a b.
  - int_arith a b.
Qed.

(** A positive factor, so that no negative zero appears. *)
Lemma num_mul_Z a k :
  0 < k < max_int → Z.abs (a * k) < max_int →
  num_mul (num_of_Z a) (num_of_Z k) = num_of_Z (a * k).
Proof.
  intros Hk Hak. unfold num_mul. destruct k as [|k|k]; [lia| |lia].
  assert (Ha : Z.abs a < max_int) by nia.
  assert (Hmul : ∀ a s, Zpos a < max_int → Zpos (a * k) < max_int →
    binary_round_aux prec emax s (Zpos (mant a * mant k)) (expo a + expo k) loc_Exact =
    S754_finite s (mant (a * k)) (expo (a * k))).
  { clear a Ha Hak. intros a s Ha Hak.
    pose proof (log2_small a Ha). pose proof (log2_small k ltac:(lia)). pose proof (log2_small (a * k) Hak).
    apply round_aux_int; [done| |].
    - pose proof (Z.log2_mul_below (Zpos a) (Zpos k) ltac:(lia) ltac:(lia)).
      rewrite <- Pos2Z.inj_mul in H2. unfold expo in *. lia.
    - rewrite Pos2Z.inj_mul, (mant_val a), (mant_val k), Pos2Z.inj_mul by lia.
      replace (- (expo a + expo k)) with (- expo a + - expo k) by lia.
      rewrite Z.pow_add_r by (unfold expo; lia). lia. }
  destruct a as [|a|a].
  - rewrite (num_of_Z_pos k) by lia. done.
  - rewrite (num_of_Z_pos a), (num_of_Z_pos k) by lia. change (Zpos a * Zpos k) with (Zpos (a * k)) in *.
    cbn [SFmul xorb]. rewrite (num_of_Z_pos (a * k)) by lia. apply Hmul; lia.
  - rewrite (num_of_Z_neg a), (num_of_Z_pos k) by lia. change (Zneg a * Zpos k) with (Zneg (a * k)) in *.
    cbn [SFmul xorb]. rewrite (num_of_Z_neg (a * k)) by lia. apply Hmul; lia.
Qed.

(** ** Order *)

Lemma mant_lt a b : Zpos a < max_int → Zpos b < max_int → Zpos a < Zpos b →
  expo a < expo b ∨ (expo a = expo b ∧ Zpos (mant a) < Zpos (mant b)).
Proof.
  intros Ha Hb Hab. pose proof (Z.log2_le_mono (Zpos a) (Zpos b) ltac:(lia)).
  destruct (Z.eq_dec (expo a) (expo b)) as [He|]; [right|left; unfold expo in *; lia].
  split; [done|]. rewrite !mant_val, He by done.
  pose proof (Z.pow_pos_nonneg 2 (- expo b) ltac:(lia)). pose proof (expo_neg b Hb). nia.
Qed.

Lemma num_of_Z_key z : Z.abs z < max_int → num_key (num_of_Z z) =
  Some (match z with 0 => (0, 0, 0) | Zpos p => (1, expo p, Zpos (mant p)) | Zneg p => (-1, - expo p, Zneg (mant p)) end).
Proof. destruct z; intros; [done|by rewrite num_of_Z_pos|by rewrite num_of_Z_neg by lia]. Qed.

Lemma num_lt_Z a b : Z.abs a < max_int → Z.abs b < max_int → a < b → num_ltb (num_of_Z a) (num_of_Z b) = true.
Proof.
  intros Ha Hb Hab. apply num_ltb_key. rewrite !num_of_Z_key by done. do 2 eexists. split_and!; [done..|].
  destruct a as [|a|a], b as [|b|b]; cbn [key_lt]; try lia.
  - pose proof (mant_lt a b Ha Hb Hab). lia.
  - pose proof (mant_lt b a ltac:(lia) ltac:(lia) ltac:(lia)). lia.
Qed.

Lemma num_ltb_Z a b : Z.abs a < max_int → Z.abs b < max_int → num_ltb (num_of_Z a) (num_of_Z b) = (a <? b).
Proof.
  intros Ha Hb. destruct (Z.ltb_spec a b) as [Hlt|Hge]; [by apply num_lt_Z|].
  apply not_true_is_false. intros Hlt. destruct (Z.eq_dec a b) as [->|].
  - by rewrite num_ltb_irrefl in Hlt.
  - pose proof (num_lt_Z b a Hb Ha ltac:(lia)) as Hlt'.
    pose proof (num_ltb_trans _ _ _ Hlt Hlt') as Hbad. by rewrite num_ltb_irrefl in Hbad.
Qed.

Lemma num_gtb_Z a b : Z.abs a < max_int → Z.abs b < max_int → num_gtb (num_of_Z a) (num_of_Z b) = (b <? a).
Proof. intros. by apply num_ltb_Z. Qed.

(** ** The decimal digits of an integer read back *)

Lemma num_of_string_nat n : 0 <= n → num_of_string (nat_to_string n) = num_of_Z n.
Proof.
  intros Hn. pose proof (nat_to_string_digits n Hn) as Hf. pose proof (nat_to_string_nonempty n) as Hne.
  pose proof (nat_to_string_val n Hn) as Hv. pose proof (scan_digits_all _ Hf) as Hsc.
  unfold num_of_string. rewrite trim_id by by apply digits_not_space.
  assert (He : is_empty (nat_to_string n) = false) by by destruct (nat_to_string n).
  rewrite He.
  assert (Hdec : scan_decimal false (nat_to_string n) = Some (num_of_Z n, "")).
  { unfold scan_decimal.
    assert (starts_with "Infinity" (nat_to_string n) = false) as ->.
    { destruct (nat_to_string n) as [|c s]; [done|]. cbn in Hf. apply andb_prop in Hf as [Hc _].
      cbn -[Ascii.eqb]. destruct (Ascii.eqb_spec "I"%char c) as [<-|]; [done|done]. }
    rewrite Hsc. cbv beta iota. rewrite He. cbn [is_empty andb scan_exponent String.length].
    rewrite str_app_nil_r, Hv. do 2 f_equal. destruct n as [|n|n]; [done| |lia].
    cbn -[Z.mul binary_round]. by rewrite Z.mul_1_r. }
  assert (Hnum : scan_number (nat_to_string n) = Some (num_of_Z n, "")).
  { unfold scan_number. destruct (nat_to_string n) as [|c s]; [done|].
    cbn in Hf. apply andb_prop in Hf as [Hc _].
    destruct c as [[] [] [] [] [] [] [] []]; vm_compute in Hc; try discriminate Hc; exact Hdec. }
  rewrite Hnum. destruct (_ || _) eqn:Hp; [|done]. exfalso. clear - Hp Hf.
  destruct (nat_to_string n) as [|c [|d s]]; [done|cbn -[Ascii.eqb] in Hp..].
  - by rewrite !andb_false_r in Hp.
  - cbn in Hf. apply andb_prop in Hf as [_ [Hd _]%andb_prop].
    destruct d as [[] [] [] [] [] [] [] []]; vm_compute in Hd; try discriminate Hd;
      cbn -[Ascii.eqb] in Hp; by rewrite !andb_false_r in Hp.
Qed.
