(* ===== verification/JsMap.v ===== *)
(** * Ordered maps and sorting

    A JavaScript [Map] iterates in insertion order: [set] on a present key
    keeps its place, a new key goes to the end.  It is an association list
    here.  The file also holds [Array.prototype.sort] (a stable sort by a
    comparator) and the sortedness lemmas the paginated queries share. *)

From Stdlib Require Export Sorted.
From S2P Require Import Prelude.
Local Open Scope Z_scope.

Lemma StronglySorted_snoc {A} (R : A → A → Prop) l x :
  StronglySorted R l → Forall (λ y, R y x) l → StronglySorted R (l ++ [x]).
Proof.
  induction 1 as [|y l Hl IH Hy]; cbn; [by repeat constructor|]. intros [Hyx Hx]%Forall_cons. constructor; [by apply IH|].
  apply Forall_app. split; [done|]. by apply Forall_singleton.
Qed.

Section js_map.
Context {K V : Type} `{EqDecision K}.
Implicit Types (m : list (K * V)) (k : K) (v : V).

(** [m.get(k)] *)
Fixpoint map_get m k : option V :=
  match m with
  | [] => None
  | (k', v) :: m => if decide (k' = k) then Some v else map_get m k
  end.
(** [m.set(k, v)] *)
Fixpoint map_set m k v : list (K * V) :=
  match m with
  | [] => [(k, v)]
  | (k', v') :: m => if decide (k' = k) then (k, v) :: m else (k', v') :: map_set m k v
  end.
(** [m.delete(k)] *)
Fixpoint map_del m k : list (K * V) :=
  match m with
  | [] => []
  | (k', v') :: m => if decide (k' = k) then map_del m k else (k', v') :: map_del m k
  end.
(** [m.has(k)] *)
Definition map_has m k : bool := bool_decide (is_Some (map_get m k)).
(** [m.size] *)
Definition map_size m : Z := Z.of_nat (length m).

Lemma map_get_set m k k' v : map_get (map_set m k v) k' = if decide (k = k') then Some v else map_get m k'.
Proof.
  induction m as [|[k1 v1] m IH]; cbn; [done|].
  destruct (decide (k1 = k)) as [->|]; cbn; [by repeat case_decide|].
  rewrite IH. repeat case_decide; congruence.
Qed.

Lemma map_get_set_eq m k v : map_get (map_set m k v) k = Some v.
Proof. rewrite map_get_set. by case_decide. Qed.

Lemma map_get_set_ne m k k' v : k ≠ k' → map_get (map_set m k v) k' = map_get m k'.
Proof. intros. rewrite map_get_set. by case_decide. Qed.

Lemma map_get_del m k k' : map_get (map_del m k) k' = if decide (k = k') then None else map_get m k'.
Proof.
  induction m as [|[k1 v1] m IH]; cbn; [by case_decide|].
  destruct (decide (k1 = k)) as [->|]; cbn; rewrite IH; repeat case_decide; congruence.
Qed.

Lemma map_get_Some_elem m k v : map_get m k = Some v → (k, v) ∈ m.
Proof.
  induction m as [|[k1 v1] m IH]; cbn; [done|]. case_decide.
  - intros [= ->]. subst. left.
  - intros. right. by apply IH.
Qed.

Lemma map_get_elem m k v : NoDup m.*1 → (k, v) ∈ m → map_get m k = Some v.
Proof.
  induction m as [|[k1 v1] m IH]; cbn; [by intros _ ?%elem_of_nil|].
  intros [Hn Hnd]%NoDup_cons [[= -> ->]|Hin]%elem_of_cons; [by case_decide|].
  case_decide as Heq; [|by apply IH]. subst. destruct Hn. apply list_elem_of_fmap. by exists (k, v).
Qed.

Lemma map_get_perm m m' k : NoDup m.*1 → m ≡ₚ m' → map_get m k = map_get m' k.
Proof.
  intros Hnd Hp. assert (Hnd' : NoDup m'.*1) by (by rewrite <- Hp).
  destruct (map_get m k) as [v|] eqn:Hg.
  - symmetry. apply map_get_elem; [done|]. rewrite <- Hp. by apply map_get_Some_elem.
  - destruct (map_get m' k) as [v|] eqn:Hg'; [|done]. apply map_get_Some_elem in Hg'.
    rewrite <- Hp in Hg'. apply map_get_elem in Hg'; [congruence|done].
Qed.

Lemma map_get_None m k : map_get m k = None ↔ k ∉ m.*1.
Proof.
  induction m as [|[k1 v1] m IH]; cbn; [split; [intros _ H; by apply elem_of_nil in H|done]|].
  rewrite not_elem_of_cons. case_decide; naive_solver.
Qed.

Lemma map_set_keys m k v :
  (map_set m k v).*1 = if map_get m k is Some _ then m.*1 else m.*1 ++ [k].
Proof.
  induction m as [|[k1 v1] m IH]; cbn; [done|].
  case_decide; cbn; [by subst|]. rewrite IH. by destruct (map_get m k).
Qed.

Lemma map_set_NoDup m k v : NoDup m.*1 → NoDup (map_set m k v).*1.
Proof.
  intros Hnd. rewrite map_set_keys. destruct (map_get m k) eqn:Hg; [done|].
  apply map_get_None in Hg. apply NoDup_app. split_and!; [done| |apply NoDup_singleton].
  intros x ? ->%list_elem_of_singleton. done.
Qed.

Lemma map_del_keys m k : (map_del m k).*1 = filter (k ≠.) m.*1.
Proof.
  induction m as [|[k1 v1] m IH]; [done|]. rewrite fmap_cons, filter_cons. cbn [map_del fst].
  repeat case_decide; try congruence. rewrite fmap_cons. by f_equal.
Qed.

Lemma map_del_NoDup m k : NoDup m.*1 → NoDup (map_del m k).*1.
Proof. rewrite map_del_keys. apply NoDup_filter. Qed.

Lemma map_set_elem m k v k' v' :
  (k', v') ∈ map_set m k v → (k' = k ∧ v' = v) ∨ (k', v') ∈ m.
Proof.
  induction m as [|[k1 v1] m IH]; cbn.
  - intros ?%list_elem_of_singleton. naive_solver.
  - case_decide; intros [[= -> ->]|Hin]%elem_of_cons; rewrite ?elem_of_cons; naive_solver.
Qed.

Lemma map_del_elem m k k' v' : (k', v') ∈ map_del m k → k' ≠ k ∧ (k', v') ∈ m.
Proof.
  induction m as [|[k1 v1] m IH]; cbn; [by intros ?%elem_of_nil|].
  case_decide; rewrite ?elem_of_cons; naive_solver.
Qed.

Lemma map_set_length m k v :
  length (map_set m k v) = if map_get m k is Some _ then length m else S (length m).
Proof.
  induction m as [|[k1 v1] m IH]; cbn; [done|].
  case_decide; cbn; [done|]. rewrite IH. by destruct (map_get m k).
Qed.

Lemma map_del_length m k : (length (map_del m k) <= length m)%nat.
Proof. induction m as [|[k1 v1] m IH]; cbn; [done|]. case_decide; cbn; lia. Qed.

Lemma map_del_length_lt m k : map_has m k = true → (length (map_del m k) < length m)%nat.
Proof.
  unfold map_has. induction m as [|[k1 v1] m IH]; cbn; [done|]. case_decide; cbn.
  - intros _. pose proof (map_del_length m k). lia.
  - intros Hh. specialize (IH Hh). lia.
Qed.
(** A loop over the entries that replaces or deletes each of them. *)
Definition map_entries (f : V → option V) m : list (K * V) := omap (λ e, pair e.1 <$> f e.2) m.

Lemma map_set_fresh m k v : map_get m k = None → map_set m k v = m ++ [(k, v)].
Proof.
  induction m as [|[k' v'] m IH]; [done|]. cbn. destruct (decide (k' = k)); [done|]. intros H. by rewrite IH.
Qed.
Lemma map_get_app m m' k : map_get (m ++ m') k = match map_get m k with Some v => Some v | None => map_get m' k end.
Proof. induction m as [|[k' v'] m IH]; [done|]. cbn. by destruct (decide (k' = k)). Qed.

Lemma map_entries_keys (f : V → option V) m k : k ∈ (map_entries f m).*1 → k ∈ m.*1.
Proof.
  unfold map_entries. induction m as [|[k1 v1] m IH]; cbn; [done|]. destruct (f v1) as [v|]; cbn.
  - intros [->|Hin]%elem_of_cons; [left|right; by apply IH].
  - intros Hin. right. by apply IH.
Qed.

Lemma map_entries_NoDup (f : V → option V) m : NoDup m.*1 → NoDup (map_entries f m).*1.
Proof.
  induction m as [|[k1 v1] m IH]; [done|]. cbn. intros [Hn Hnd]%NoDup_cons. unfold map_entries. cbn.
  destruct (f v1) as [v|]; cbn; [|by apply IH]. apply NoDup_cons. split; [|by apply IH].
  intros Hin. by apply map_entries_keys in Hin.
Qed.

Lemma map_get_entries (f : V → option V) m k : NoDup m.*1 → map_get (map_entries f m) k = map_get m k ≫= f.
Proof.
  induction m as [|[k1 v1] m IH]; [done|]. cbn. intros [Hn Hnd]%NoDup_cons. specialize (IH Hnd).
  unfold map_entries in *. cbn. case_decide as Hk.
  - subst k1. cbn. destruct (f v1) as [v|]; cbn; [by rewrite decide_True|]. rewrite IH.
    apply map_get_None in Hn. by rewrite Hn.
  - destruct (f v1) as [v|]; cbn; [by rewrite decide_False|done].
Qed.

End js_map.

(** ** [Array.prototype.sort] *)

Section sort.
Context {A : Type} (cmp : A → A → Z).

Fixpoint sort_insert (x : A) (l : list A) : list A :=
  match l with
  | [] => [x]
  | y :: l' => if cmp y x <=? 0 then y :: sort_insert x l' else x :: l
  end.
(** Elements comparing equal keep their order. *)
Definition js_sort (l : list A) : list A := foldl (λ acc x, sort_insert x acc) [] l.

Lemma sort_insert_perm x l : sort_insert x l ≡ₚ x :: l.
Proof.
  induction l as [|y l IH]; cbn; [done|]. case_match; [|done].
  rewrite IH. apply Permutation_swap.
Qed.

Lemma js_sort_perm_acc l acc : foldl (λ acc x, sort_insert x acc) acc l ≡ₚ acc ++ l.
Proof.
  revert acc. induction l as [|x l IH]; intros acc; cbn; [by rewrite app_nil_r|].
  rewrite IH, sort_insert_perm. by rewrite <- Permutation_middle.
Qed.

Lemma js_sort_perm l : js_sort l ≡ₚ l.
Proof. apply js_sort_perm_acc. Qed.

Context (Htot : ∀ x y, cmp x y <= 0 ∨ cmp y x <= 0).
Context (Htrans : ∀ x y z, cmp x y <= 0 → cmp y z <= 0 → cmp x z <= 0).

Lemma sort_insert_sorted x l :
  StronglySorted (λ a b, cmp a b <= 0) l → StronglySorted (λ a b, cmp a b <= 0) (sort_insert x l).
Proof.
  induction 1 as [|y l Hs IH Hy]; cbn; [repeat constructor|].
  destruct (Z.leb_spec (cmp y x) 0) as [Hle|Hgt].
  - constructor; [done|]. rewrite sort_insert_perm. by constructor.
  - assert (Hxy : cmp x y <= 0) by (destruct (Htot x y); lia).
    constructor; [by constructor|]. constructor; [done|].
    eapply Forall_impl; [exact Hy|]. cbn. eauto.
Qed.

Lemma js_sort_sorted l : StronglySorted (λ a b, cmp a b <= 0) (js_sort l).
Proof.
  unfold js_sort. assert (H : StronglySorted (λ a b, cmp a b <= 0) []) by constructor.
  revert H. generalize (@nil A). induction l as [|x l IH]; intros acc H; cbn; [done|].
  apply IH. by apply sort_insert_sorted.
Qed.
End sort.

(** ** Slices and searches on arrays *)

Lemma StronglySorted_pair {A} (R : A → A → Prop) l1 y l2 :
  StronglySorted R (l1 ++ y :: l2) → (∀ x, x ∈ l1 → R x y) ∧ (∀ x, x ∈ l2 → R y x).
Proof.
  induction l1 as [|a l1 IH]; cbn; intros H; apply StronglySorted_inv in H as [Hs Hf];
    rewrite Forall_forall in Hf.
  - split; [intros ? ?%elem_of_nil; done|done].
  - destruct (IH Hs) as [H1 H2]. split; [|done].
    intros x [->|Hx]%elem_of_cons; [|by apply H1]. apply Hf. set_solver.
Qed.

(** [l.slice(i, j)] for non-negative bounds. *)
Definition slice {A} (i j : nat) (l : list A) : list A := take (j - i) (drop i l).

(** [l.findIndex(p)]: [None] is [-1]. *)
Fixpoint find_index {A} (p : A → bool) (l : list A) : option nat :=
  match l with
  | [] => None
  | x :: l => if p x then Some O else S <$> find_index p l
  end.

Lemma find_index_app {A} (p : A → bool) l1 l2 :
  Forall (λ x, p x = false) l1 →
  find_index p (l1 ++ l2) = (λ i, (length l1 + i)%nat) <$> find_index p l2.
Proof.
  induction 1 as [|x l1 Hx _ IH]; cbn; [by destruct (find_index p l2)|].
  rewrite Hx, IH. by destruct (find_index p l2).
Qed.

Lemma find_index_Some {A} (p : A → bool) l i :
  find_index p l = Some i →
  Forall (λ x, p x = false) (take i l) ∧ ∃ x, l !! i = Some x ∧ p x = true.
Proof.
  revert i. induction l as [|x l IH]; intros i; cbn; [done|].
  destruct (p x) eqn:Hp; [intros [= <-]; cbn; eauto|].
  destruct (find_index p l) as [j|]; [|done]. intros [= <-]. cbn.
  destruct (IH j eq_refl) as (? & ? & ? & ?). eauto.
Qed.

Lemma find_index_None {A} (p : A → bool) l :
  find_index p l = None → Forall (λ x, p x = false) l.
Proof.
  induction l as [|x l IH]; cbn; [done|]. destruct (p x) eqn:?; [done|].
  destruct (find_index p l); naive_solver.
Qed.
