(* ===== verification/Windows.v ===== *)
(** * Counting in windows of time

    How many of a list of times lie in a window of a given length, and the
    two ways the code bounds that number: a sliding window, which keeps the
    times themselves, and fixed windows, which keep a counter and its start. *)

From S2P Require Import Prelude.
Local Open Scope Z_scope.

Module Windows.

Section windows.
(** The length of the window. *)
Context (W : Z).

(** In the window that ends at [t]. *)
Definition in_window (t a : Z) : bool := (t - W <? a) && (a <=? t).
Definition count_in (t : Z) (l : list Z) : nat := length (filter (λ a, in_window t a = true) l).

Lemma in_window_spec t a : in_window t a = true ↔ t - W < a <= t.
Proof. unfold in_window. rewrite andb_true_iff, Z.ltb_lt, Z.leb_le. lia. Qed.

Lemma count_in_cons t a l : count_in t (a :: l) = ((if in_window t a then 1 else 0) + count_in t l)%nat.
Proof. unfold count_in. rewrite filter_cons. by destruct (in_window t a). Qed.

Lemma count_in_app t l l' : count_in t (l ++ l') = (count_in t l + count_in t l')%nat.
Proof. unfold count_in. by rewrite filter_app, length_app. Qed.

Lemma count_in_le t l : (count_in t l <= length l)%nat.
Proof. apply length_filter. Qed.

Lemma count_in_none t l : Forall (λ a, t < a) l → count_in t l = 0%nat.
Proof.
  intros Hl. unfold count_in. rewrite filter_none; [done|].
  eapply Forall_impl; [exact Hl|]. cbn. intros a Ha Hw. apply in_window_spec in Hw. lia.
Qed.

(** At most [limit] in every window, of times that are all past. *)
Definition bounded (limit now : Z) (ts : list Z) : Prop :=
  Forall (λ a, a <= now) ts ∧ ∀ t, Z.of_nat (count_in t ts) <= Z.max 0 limit.

Lemma bounded_nil limit now : bounded limit now [].
Proof. split; [done|]. intros t. cbn. lia. Qed.

Lemma bounded_later limit now now' ts : now <= now' → bounded limit now ts → bounded limit now' ts.
Proof. intros Hn [Hl Hb]. split; [|done]. eapply Forall_impl; [exact Hl|]. cbn. lia. Qed.

(** ** Sliding windows *)

(** One more at [r], where fewer than [limit] were counted since [c - W]. *)
Lemma sliding_accept limit now c r ts :
  0 <= W → now <= r → c <= r → bounded limit now ts →
  Z.of_nat (length (filter (λ a, c - W < a) ts)) < limit →
  bounded limit r (ts ++ [r]).
Proof.
  intros Hw Hnr Hcr Hb Hlim. split.
  { apply Forall_app. split; [apply (bounded_later _ _ _ _ Hnr Hb)|by repeat constructor]. }
  destruct Hb as [Hle Hb].
  intros t. rewrite count_in_app, count_in_cons. specialize (Hb t).
  change (count_in t []) with 0%nat. destruct (in_window t r) eqn:Hin; [|lia].
  apply in_window_spec in Hin.
  assert (Hsub : (count_in t ts <= length (filter (λ a, (c - W < a)%Z) ts))%nat).
  { apply filter_length_le. intros x Hx Hix. apply in_window_spec in Hix. lia. }
  lia.
Qed.

(** ** Fixed windows *)

(** The times [acc] accepted so far, those of the current window [cur], which
    began at [s] and counts [n]; any window of the same length meets at most
    two fixed ones. *)
Record fixed (limit s n : Z) (acc : list Z) : Prop := mk_fixed {
  fixed_parts : ∃ old cur, acc = old ++ cur ∧
    Forall (λ a, s <= a <= s + W) cur ∧ Z.of_nat (length cur) <= n ∧ Z.of_nat (length cur) <= Z.max 0 limit ∧
    Forall (λ a, a < s) old ∧
    (∀ t, Z.of_nat (count_in t old) <= 2 * Z.max 0 limit) ∧
    Z.of_nat (length (filter (λ a, s - W <= a) old)) <= Z.max 0 limit
}.

Lemma fixed_nil limit s : fixed limit s 0 [].
Proof. split. exists [], []. split_and!; try done; cbn; lia. Qed.

Lemma fixed_bound limit s n acc t : fixed limit s n acc → Z.of_nat (count_in t acc) <= 2 * Z.max 0 limit.
Proof.
  intros [(old & cur & -> & Hcur & Hn & Hl & Hold & H2 & Hlast)]. rewrite count_in_app.
  destruct (Z.lt_ge_cases t s) as [Ht|Ht].
  - rewrite (count_in_none t cur); [specialize (H2 t); lia|].
    eapply Forall_impl; [exact Hcur|]. cbn. lia.
  - assert (Hs : (count_in t old <= length (filter (λ a, (s - W <= a)%Z) old))%nat).
    { apply filter_length_le. intros x Hx Hix. apply in_window_spec in Hix. lia. }
    pose proof (count_in_le t cur). lia.
Qed.

(** One more in the window, counted. *)
Lemma fixed_accept limit s n acc a :
  fixed limit s n acc → s <= a <= s + W → n < limit → fixed limit s (n + 1) (acc ++ [a]).
Proof.
  intros [(old & cur & -> & Hcur & Hn & Hl & Hold & H2 & Hlast)] Ha Hlim. split. exists old, (cur ++ [a]).
  rewrite length_app. cbn. split_and!; try lia; try done.
  - by rewrite (assoc_L (++)).
  - apply Forall_app. split; [exact Hcur|]. by apply Forall_singleton.
Qed.

(** One more that is counted but not accepted. *)
Lemma fixed_skip limit s n n' acc : fixed limit s n acc → n <= n' → fixed limit s n' acc.
Proof.
  intros [(old & cur & -> & Hcur & Hn & Hl & Hold & H2 & Hlast)] Hn'. split. exists old, cur.
  split_and!; try done; lia.
Qed.

(** The next window begins, after everything accepted so far. *)
Lemma fixed_next limit s n acc s' :
  fixed limit s n acc → s + W <= s' → Forall (λ a, a < s') acc → fixed limit s' 0 acc.
Proof.
  intros Hf Hs' Hacc. pose proof (λ t, fixed_bound limit s n acc t Hf) as Hb.
  destruct Hf as [(old & cur & -> & Hcur & Hn & Hl & Hold & H2 & Hlast)]. split. exists (old ++ cur), [].
  rewrite app_nil_r. split_and!; try done; [cbn; lia|].
  rewrite filter_app, length_app, (filter_none _ old); [|eapply Forall_impl; [exact Hold|]; cbn; lia].
  cbn. pose proof (length_filter (λ a, s' - W <= a) cur). lia.
Qed.

Lemma fixed_past limit s n acc : fixed limit s n acc → Forall (λ a, a <= s + W) acc ∨ W < 0.
Proof.
  destruct (Z.lt_ge_cases W 0); [by right|]. intros [(old & cur & -> & Hcur & _ & _ & Hold & _)]. left.
  apply Forall_app. split; (eapply Forall_impl; [eassumption|]); cbn; lia.
Qed.

End windows.

End Windows.
