(* ===== verification/JsJson.v ===== *)
(** * JSON values ([JSON.stringify])

    Values as [JSON.parse] yields them; an object is the list of its own
    fields in order, without repetition.  [stringify] takes the optional
    property list of [JSON.stringify(value, keys)], which restricts and orders
    the fields of the objects at EVERY depth.  [sort_strings] is the default
    [Array.prototype.sort] on strings. *)

From Stdlib Require Import Ascii.
From stdpp Require sorting.
From S2P Require Import Prelude JsString JsNumber JsMap.
Local Open Scope Z_scope.

Inductive json :=
| JNull
| JBool (b : bool)
| JNum (n : SpecFloat.spec_float)
| JStr (s : string)
| JArr (l : list json)
| JObj (fields : list (string * json)).

(** ** Quoting *)

Definition dquote : ascii := char_of_code 34.
Definition bslash : ascii := char_of_code 92.
Definition hex_digit (d : Z) : ascii := char_of_code (if d <? 10 then d + 48 else d + 87).

Definition json_char (c : ascii) : string :=
  let n := char_code c in
  let esc s := String bslash s in
  if n =? 34 then esc (String dquote "")
  else if n =? 92 then esc (String bslash "")
  else if n =? 8 then esc "b" else if n =? 9 then esc "t" else if n =? 10 then esc "n"
  else if n =? 12 then esc "f" else if n =? 13 then esc "r"
  else if n <? 32 then esc ("u00" +:+ String (hex_digit (n / 16)) (String (hex_digit (n mod 16)) ""))
  else String c "".
Fixpoint json_chars (s : string) : string :=
  match s with EmptyString => "" | String c s => json_char c +:+ json_chars s end.
Definition quote (s : string) : string := String dquote (json_chars s +:+ String dquote "").

(** ** Serialisation *)

Definition select_fields {A} (keys : option (list string)) (l : list (string * A)) : list (string * A) :=
  match keys with
  | None => l
  | Some ks => omap (λ k, pair k <$> map_get l k) ks
  end.

Fixpoint stringify (keys : option (list string)) (j : json) : string :=
  match j with
  | JNull => "null"
  | JBool b => if b then "true" else "false"
  | JNum n => if num_is_finite n then num_to_string n else "null"
  | JStr s => quote s
  | JArr l =>
      let ser := (fix go l := match l with [] => [] | x :: l => stringify keys x :: go l end) l in
      "[" +:+ str_join "," ser +:+ "]"
  | JObj fields =>
      let ser := (fix go l := match l with
                              | [] => []
                              | (k, v) :: l => (k, stringify keys v) :: go l
                              end) fields in
      "{" +:+ str_join "," ((λ p, quote p.1 +:+ ":" +:+ p.2) <$> select_fields keys ser) +:+ "}"
  end.

Lemma stringify_obj keys fields :
  stringify keys (JObj fields) =
    "{" +:+ str_join "," ((λ p, quote p.1 +:+ ":" +:+ p.2) <$>
      select_fields keys (prod_map id (stringify keys) <$> fields)) +:+ "}".
Proof.
  cbn [stringify]. do 5 f_equal. induction fields as [|[k v] l IH]; [done|]. cbn. by rewrite IH.
Qed.

(** ** The default sort of strings *)

Definition str_cmp (a b : string) : Z := if str_ltb a b then -1 else if str_ltb b a then 1 else 0.
Definition sort_strings : list string → list string := js_sort str_cmp.

Lemma str_cmp_le a b : str_cmp a b <= 0 ↔ str_ltb b a = false.
Proof.
  unfold str_cmp. destruct (str_ltb a b) eqn:Hab.
  - split; [intros _; by apply str_ltb_asym|lia].
  - destruct (str_ltb b a); split; (done || lia).
Qed.

Lemma sort_strings_sorted l : StronglySorted (λ a b, str_cmp a b <= 0) (sort_strings l).
Proof.
  apply js_sort_sorted.
  - intros x y. rewrite !str_cmp_le. destruct (str_ltb y x) eqn:H; [|by left].
    right. by apply str_ltb_asym.
  - intros x y z. rewrite !str_cmp_le. intros. by eapply str_geb_trans.
Qed.

(** The sorted list depends on the elements only. *)
Lemma sort_strings_perm l l' : l ≡ₚ l' → sort_strings l = sort_strings l'.
Proof.
  intros Hp. apply (sorting.StronglySorted_unique_strong (λ a b, str_cmp a b <= 0)).
  - intros x y _ _. rewrite !str_cmp_le. auto using str_ltb_antisym.
  - apply sort_strings_sorted.
  - apply sort_strings_sorted.
  - unfold sort_strings. by rewrite !js_sort_perm.
Qed.

(** With a property list an object is read field by field: the order of its
    own fields does not matter. *)
Lemma stringify_obj_perm ks fields fields' :
  NoDup fields.*1 → fields ≡ₚ fields' →
  stringify (Some ks) (JObj fields) = stringify (Some ks) (JObj fields').
Proof.
  intros Hnd Hp. rewrite !stringify_obj. do 4 f_equal. cbn [select_fields].
  generalize (stringify (Some ks)) as g. intros g. apply list_omap_ext. apply Forall_Forall2_diag, Forall_forall.
  intros k _. f_equal. apply map_get_perm; [by rewrite <- list_fmap_compose|by rewrite Hp].
Qed.
