(* ===== verification/JsonParse.v ===== *)
(** * Parsing JSON ([JSON.parse])

    The grammar of ECMA-404 over the strings of code units below 256: an escape
    of a larger code unit is outside the model, and reads as an error.  Every
    text is read with the fuel it needs: [parse_fuel]. *)

From Stdlib Require Import Ascii.
From S2P Require Import Prelude JsString JsNumber JsMap JsJson.
Local Open Scope Z_scope.

Module JsonParse.

Definition json_space (c : ascii) : bool :=
  let n := char_code c in (n =? 9) || (n =? 10) || (n =? 13) || (n =? 32).
Fixpoint skip_ws (s : string) : string :=
  match s with String c r => if json_space c then skip_ws r else s | EmptyString => EmptyString end.

(** The characters an escape of one letter stands for. *)
Definition unescape (c : ascii) : option ascii :=
  let n := char_code c in
  if (n =? 34) || (n =? 92) || (n =? 47) then Some c
  else if n =? 98 then Some (char_of_code 8) else if n =? 102 then Some (char_of_code 12)
  else if n =? 110 then Some (char_of_code 10) else if n =? 114 then Some (char_of_code 13)
  else if n =? 116 then Some (char_of_code 9) else None.

Definition hex4 (a b c d : ascii) : option ascii :=
  w ← hex_val a; x ← hex_val b; y ← hex_val c; z ← hex_val d;
  let n := ((w * 16 + x) * 16 + y) * 16 + z in
  if n <? 256 then Some (char_of_code n) else None.

Definition cons_char (c : ascii) (o : option (string * string)) : option (string * string) :=
  match o with Some (s, r) => Some (String c s, r) | None => None end.

(** A string after its opening quote, and what follows the closing one. *)
Fixpoint parse_chars (s : string) : option (string * string) :=
  match s with
  | EmptyString => None
  | String c s1 =>
      if Ascii.eqb c dquote then Some ("", s1)
      else if Ascii.eqb c bslash then
        match s1 with
        | EmptyString => None
        | String e s2 =>
            if Ascii.eqb e "u" then
              match s2 with
              | String h1 (String h2 (String h3 (String h4 s3))) =>
                  match hex4 h1 h2 h3 h4 with Some x => cons_char x (parse_chars s3) | None => None end
              | _ => None
              end
            else match unescape e with Some x => cons_char x (parse_chars s2) | None => None end
        end
      else if char_code c <? 32 then None
      else cons_char c (parse_chars s1)
  end.

(** A number: no sign but a minus, no zero before a digit, digits on both
    sides of the point. *)
Definition parse_number (s : string) : option (num * string) :=
  let '(neg, body) := match s with String c r => if Ascii.eqb c "-" then (true, r) else (false, s) | _ => (false, s) end in
  let '(ip, r) := scan_digits body in
  let point_ok := match r with
                  | String c r1 => if Ascii.eqb c "." then negb (is_empty (scan_digits r1).1) else true
                  | EmptyString => true
                  end in
  if is_empty ip || (starts_with "0" ip && negb (String.length ip =? 1)%nat) || negb point_ok then None
  else scan_decimal neg body.

Definition literal (w : string) (j : json) (s : string) : option (json * string) :=
  if starts_with w s then Some (j, str_drop (String.length w) s) else None.

(** The rest after white space and the character [c], when it is next. *)
Definition eat (c : ascii) (s : string) : option string :=
  match skip_ws s with
  | String d r => if Ascii.eqb d c then Some r else None
  | EmptyString => None
  end.

(** [true], [false], [null] and the numbers *)
Definition parse_atom (s : string) : option (json * string) :=
  let s := skip_ws s in
  if starts_with "t" s then literal "true" (JBool true) s
  else if starts_with "f" s then literal "false" (JBool false) s
  else if starts_with "n" s then literal "null" JNull s
  else '(n, r) ← parse_number s; Some (JNum n, r).

Fixpoint parse_value (fuel : nat) (s : string) : option (json * string) :=
  match fuel with
  | O => None
  | S fuel =>
      match eat dquote s with
      | Some r => '(t, r) ← parse_chars r; Some (JStr t, r)
      | None =>
          match eat "[" s with
          | Some r => match eat "]" r with
                      | Some r => Some (JArr [], r)
                      | None => '(l, r) ← parse_elements fuel r; Some (JArr l, r)
                      end
          | None =>
              match eat "{" s with
              | Some r => match eat "}" r with
                          | Some r => Some (JObj [], r)
                          | None => '(l, r) ← parse_fields fuel [] r; Some (JObj l, r)
                          end
              | None => parse_atom s
              end
          end
      end
  end
with parse_elements (fuel : nat) (s : string) : option (list json * string) :=
  match fuel with
  | O => None
  | S fuel =>
      '(x, r) ← parse_value fuel s;
      match eat "]" r with
      | Some r => Some ([x], r)
      | None => r ← eat "," r; '(l, r) ← parse_elements fuel r; Some (x :: l, r)
      end
  end
with parse_fields (fuel : nat) (acc : list (string * json)) (s : string) : option (list (string * json) * string) :=
  match fuel with
  | O => None
  | S fuel =>
      r ← eat dquote s;
      '(k, r) ← parse_chars r;
      r ← eat ":" r;
      '(x, r) ← parse_value fuel r;
      match eat "}" r with
      | Some r => Some (map_set acc k x, r)
      | None => r ← eat "," r; parse_fields fuel (map_set acc k x) r
      end
  end.

Definition fuel_of (s : string) : nat := 2 * String.length s + 2.

(** [JSON.parse(s)]: [None] is a SyntaxError. *)
Definition parse (s : string) : option json :=
  '(j, r) ← parse_value (fuel_of s) s;
  if is_empty (skip_ws r) then Some j else None.

Example parse_samples :
  let q := String dquote "" in
  parse (" { " +:+ q +:+ "a" +:+ q +:+ " : [1, -2.5e1 ,true,null], " +:+ q +:+ "b" +:+ q +:+ ":{}}") =
    Some (JObj [("a", JArr [JNum (num_of_Z 1); JNum (num_of_Z (-25)); JBool true; JNull]); ("b", JObj [])]) ∧
  parse "[1,]" = None ∧ parse "01" = None ∧ parse "1." = None ∧ parse "[] []" = None ∧ parse "" = None ∧
  parse (q +:+ "a" +:+ String bslash ("u0041" +:+ q)) = Some (JStr "aA").
Proof. by vm_compute. Qed.

(** ** Every step consumes *)

Lemma skip_ws_length s : (String.length (skip_ws s) <= String.length s)%nat.
Proof. induction s as [|c s IH]; cbn; [done|]. case_match; cbn; lia. Qed.

Lemma eat_length c s r : eat c s = Some r → (String.length r < String.length s)%nat.
Proof.
  unfold eat. pose proof (skip_ws_length s). destruct (skip_ws s) as [|d u]; [done|].
  destruct (Ascii.eqb d c); [|done]. intros [= <-]. cbn in *. lia.
Qed.

Lemma parse_chars_sizes s t r :
  parse_chars s = Some (t, r) → (String.length t + String.length r < String.length s)%nat.
Proof.
  remember (String.length s) as n eqn:Hn. revert s t r Hn.
  induction (lt_wf n) as [n _ IH]. intros s t r ->. destruct s as [|c s]; [done|]. cbn -[Ascii.eqb Z.ltb dquote bslash].
  destruct (Ascii.eqb c dquote); [intros [= <- <-]; cbn; lia|].
  assert (Hgo : ∀ x s', (String.length s' <= String.length s)%nat → cons_char x (parse_chars s') = Some (t, r) →
    (String.length t + String.length r < S (String.length s))%nat).
  { intros x s' Hle. destruct (parse_chars s') as [[t' r']|] eqn:Hk; [|done]. intros [= <- <-].
    pose proof (IH (String.length s') ltac:(cbn; lia) s' t' r' eq_refl Hk).
    destruct (Nat.eq_dec (String.length s') (String.length s)); cbn; lia. }
  destruct (Ascii.eqb c bslash).
  - destruct s as [|e s2]; [done|]. destruct (Ascii.eqb e "u").
    + destruct s2 as [|h1 [|h2 [|h3 [|h4 s3]]]]; try done. destruct hex4; [|done]. apply Hgo. cbn; lia.
    + destruct (unescape e); [|done]. apply Hgo. cbn; lia.
  - destruct (char_code c <? 32); [done|]. by apply Hgo.
Qed.

Lemma parse_chars_length s t r : parse_chars s = Some (t, r) → (String.length r < String.length s)%nat.
Proof. intros H%parse_chars_sizes. lia. Qed.

Lemma scan_digits_split s : (scan_digits s).1 +:+ (scan_digits s).2 = s.
Proof.
  induction s as [|c s IH]; [done|]. cbn. destruct (is_digit c); [|done]. destruct (scan_digits s) as [d r]. cbn in *. by rewrite IH.
Qed.
Lemma scan_digits_length s :
  (String.length (scan_digits s).1 + String.length (scan_digits s).2 = String.length s)%nat.
Proof. by rewrite <- str_length_app, scan_digits_split. Qed.

Lemma scan_exponent_length s : (String.length (scan_exponent s).2 <= String.length s)%nat.
Proof.
  destruct s as [|c s]; [done|]. unfold scan_exponent. destruct (_ || _); [|done].
  assert (Hgo : ∀ sg : Z, ∀ r1 : string, (String.length r1 <= String.length s)%nat →
    (String.length (let '(d, r2) := scan_digits r1 in if is_empty d then (0%Z, String c s) else ((sg * digits_val d)%Z, r2)).2
     <= S (String.length s))%nat).
  { intros sg r1 Hr. pose proof (scan_digits_length r1). destruct (scan_digits r1) as [d r2]. destruct (is_empty d); cbn in *; lia. }
  destruct s as [|a s]; [apply Hgo; cbn; lia|].
  assert (Ha : a = "-"%char ∨ a = "+"%char ∨
    (match String a s with String "-" r1 => (-1, r1) | String "+" r1 => (1, r1) | _ => (1, String a s) end) = (1, String a s)).
  { destruct a as [[] [] [] [] [] [] [] []]; auto. }
  destruct Ha as [->|[->|Ha]]; [apply Hgo; cbn; lia..|]. rewrite Ha. apply Hgo. cbn; lia.
Qed.

Lemma scan_decimal_length neg s n r :
  (scan_digits s).1 ≠ "" → scan_decimal neg s = Some (n, r) → (String.length r < String.length s)%nat.
Proof.
  intros Hip. unfold scan_decimal.
  assert (Hi : starts_with "Infinity" s = false).
  { destruct s as [|c s]; [done|]. cbn in Hip. destruct (is_digit c) eqn:Hc; [|done].
    cbn -[Ascii.eqb]. destruct (Ascii.eqb_spec "I" c) as [<-|]; done. }
  rewrite Hi. pose proof (scan_digits_length s) as Hl. destruct (scan_digits s) as [ip r1]. cbn [fst snd] in *.
  assert (Hpos : (0 < String.length ip)%nat) by (destruct ip; [done|cbn; lia]).
  set (fr := match r1 with String "." _ => _ | _ => _ end).
  assert (Hfr : (String.length fr.2 <= String.length r1)%nat).
  { subst fr. destruct r1 as [|c r1]; [done|].
    assert (Hc : c = "."%char ∨ (match String c r1 with
      | String "." r1 => let '(f, r2) := scan_digits r1 in if is_empty ip && is_empty f then ("", String c r1) else (f, r2)
      | _ => ("", String c r1) end) = ("", String c r1)).
    { destruct c as [[] [] [] [] [] [] [] []]; auto. }
    destruct Hc as [->|Hc]; [|by rewrite Hc]. pose proof (scan_digits_length r1). destruct (scan_digits r1) as [f r2].
    case_match; cbn in *; lia. }
  destruct fr as [fp r2]. destruct (is_empty ip && is_empty fp); [done|].
  pose proof (scan_exponent_length r2). destruct (scan_exponent r2) as [ex r3]. intros [= _ <-]. cbn [fst snd] in *. lia.
Qed.

Lemma parse_number_length s n r : parse_number s = Some (n, r) → (String.length r < String.length s)%nat.
Proof.
  unfold parse_number.
  assert (Hb : ∃ neg body, (match s with String c r => if Ascii.eqb c "-" then (true, r) else (false, s) | _ => (false, s) end)
                             = (neg, body) ∧ (String.length body <= String.length s)%nat).
  { destruct s as [|c s']; [by eexists _, _|]. destruct (Ascii.eqb c "-"); eexists _, _; split; try done. cbn; lia. }
  destruct Hb as (neg & body & -> & Hle). destruct (scan_digits body) as [ip r1] eqn:Hs.
  destruct (_ || _) eqn:Hbad; [done|]. intros Hd. apply scan_decimal_length in Hd; [lia|].
  rewrite Hs. cbn. intros ->. done.
Qed.

Lemma str_drop_length n s : String.length (str_drop n s) = (String.length s - n)%nat.
Proof. revert n. induction s as [|c s IH]; intros [|n]; cbn; auto. Qed.

Lemma literal_length w j s x r : w ≠ "" → literal w j s = Some (x, r) → (String.length r < String.length s)%nat.
Proof.
  intros Hw. unfold literal. destruct (starts_with w s) eqn:Hs; [|done]. intros [= _ <-].
  rewrite str_drop_length. destruct w; [done|]. destruct s; [done|]. cbn. lia.
Qed.

Lemma parse_atom_length s x r : parse_atom s = Some (x, r) → (String.length r < String.length s)%nat.
Proof.
  intros H. apply Nat.lt_le_trans with (String.length (skip_ws s)); [|apply skip_ws_length].
  revert H. unfold parse_atom. cbv zeta. set (u := skip_ws s).
  destruct (starts_with "t" u); [by apply literal_length|]. destruct (starts_with "f" u); [by apply literal_length|].
  destruct (starts_with "n" u); [by apply literal_length|]. intros ([n r'] & Hn & [= _ <-])%bind_Some.
  by eapply parse_number_length.
Qed.

(** One step of a parser that succeeded. *)
Ltac parsed H :=
  match type of H with
  | (match eat ?c ?s with _ => _ end) = _ => let E := fresh "E" in destruct (eat c s) eqn:E; [apply eat_length in E|clear E]
  | (eat _ _ ≫= _) = _ => let E := fresh "E" in apply bind_Some in H as (? & E & H); apply eat_length in E
  | (_ ≫= _) = _ => let E := fresh "E" in apply bind_Some in H as ([? ?] & E & H)
  end.

(** What the three parsers leave is shorter than what they were given. *)
Record consume (fuel : nat) : Prop := {
  co_value s j r : parse_value fuel s = Some (j, r) → (String.length r < String.length s)%nat;
  co_elements s l r : parse_elements fuel s = Some (l, r) → (String.length r < String.length s)%nat;
  co_fields acc s l r : parse_fields fuel acc s = Some (l, r) → (String.length r < String.length s)%nat;
}.

Lemma parse_consume fuel : consume fuel.
Proof.
  induction fuel as [|fuel [IHv IHe IHf]]; [done|].
  split; intros *; cbn [parse_value parse_elements parse_fields]; intros H; repeat parsed H; simplify_eq;
    repeat match goal with
           | E : parse_chars _ = Some _ |- _ => apply parse_chars_length in E
           | E : parse_value _ _ = Some _ |- _ => apply IHv in E
           | E : parse_elements _ _ = Some _ |- _ => apply IHe in E
           | E : parse_fields _ _ _ = Some _ |- _ => apply IHf in E
           | E : parse_atom _ = Some _ |- _ => apply parse_atom_length in E
           end; lia.
Qed.

(** A text inside a text is shorter. *)
Lemma parse_str_shorter s t : parse s = Some (JStr t) → (String.length t < String.length s)%nat.
Proof.
  unfold parse, fuel_of. rewrite Nat.add_comm. cbn [Nat.add parse_value]. intros ([j r] & H & Hj)%bind_Some.
  destruct (is_empty _); [injection Hj as ->|done]. destruct (eat dquote s) as [u|] eqn:E.
  { apply eat_length in E. apply bind_Some in H as ([t' r'] & Ht & [= -> _]). apply parse_chars_sizes in Ht. lia. }
  repeat parsed H; try discriminate H. revert H. unfold parse_atom, literal. repeat case_match; try done.
  intros ([? ?] & _ & Hx)%bind_Some. discriminate Hx.
Qed.

(** ** Fuel *)

Record same_result (n m : nat) : Prop := {
  sr_value s : (2 * String.length s < n)%nat → (2 * String.length s < m)%nat → parse_value n s = parse_value m s;
  sr_elements s : (2 * String.length s + 1 < n)%nat → (2 * String.length s + 1 < m)%nat → parse_elements n s = parse_elements m s;
  sr_fields acc s : (2 * String.length s + 1 < n)%nat → (2 * String.length s + 1 < m)%nat →
    parse_fields n acc s = parse_fields m acc s;
}.

Lemma parse_same n m : same_result n m.
Proof.
  revert m. induction n as [|n IH]; intros [|m]; [by split; intros; lia..|]. destruct (IH m) as [IHv IHe IHf].
  split; intros *; intros Hn Hm; cbn [parse_value parse_elements parse_fields].
  - destruct (eat dquote s); [done|]. destruct (eat "[" s) as [r|] eqn:E.
    { apply eat_length in E. destruct (eat "]" r); [done|]. rewrite IHe by lia. done. }
    destruct (eat "{" s) as [r|] eqn:E2; [|done]. apply eat_length in E2. destruct (eat "}" r); [done|].
    rewrite IHf by lia. done.
  - rewrite IHv by lia. destruct (parse_value m s) as [[x r]|] eqn:E; [|done]. apply (co_value _ (parse_consume m)) in E.
    cbn. destruct (eat "]" r); [done|]. destruct (eat "," r) as [r'|] eqn:E2; [|done]. apply eat_length in E2. cbn.
    rewrite IHe by lia. done.
  - destruct (eat dquote s) as [r|] eqn:E1; [|done]. apply eat_length in E1. cbn.
    destruct (parse_chars r) as [[k r1]|] eqn:E2; [|done]. apply parse_chars_length in E2. cbn.
    destruct (eat ":" r1) as [r2|] eqn:E3; [|done]. apply eat_length in E3. cbn. rewrite IHv by lia.
    destruct (parse_value m r2) as [[x r3]|] eqn:E4; [|done]. apply (co_value _ (parse_consume m)) in E4. cbn.
    destruct (eat "}" r3); [done|]. destruct (eat "," r3) as [r4|] eqn:E5; [|done]. apply eat_length in E5. cbn.
    by rewrite IHf by lia.
Qed.

(** More fuel than [fuel_of] changes nothing. *)
Theorem parse_fuel n s : (fuel_of s <= n)%nat → parse_value n s = parse_value (fuel_of s) s.
Proof. unfold fuel_of. intros Hn. apply (sr_value _ _ (parse_same _ _)); lia. Qed.

(** ** What [JSON.stringify] quotes is read back *)

Lemma json_char_read c r : parse_chars (json_char c +:+ r) = cons_char c (parse_chars r).
Proof. destruct c as [[] [] [] [] [] [] [] []]; reflexivity. Qed.

Lemma quote_read s r : parse_chars (json_chars s +:+ String dquote r) = Some (s, r).
Proof.
  induction s as [|c s IH]; [reflexivity|]. cbn [json_chars]. rewrite str_app_assoc, json_char_read, IH. done.
Qed.

End JsonParse.
