(* ===== verification/JsRegex.v ===== *)
(** * Regular expressions

    The backtracking semantics of ECMAScript patterns (without captures, in
    the mode of code units below 256): [matches r i] lists, in the order the
    engine tries them, the places where a match of [r] from [i] can end.  A
    place is the character before it and the rest of the input.  An iteration
    of a star must consume, so as many iterations as the input has characters
    are enough ([star_fuel]). *)

From Stdlib Require Import Ascii String.
From S2P Require Import Prelude JsString.
Local Open Scope Z_scope.

Inductive re :=
| REps
| RSet (p : ascii → bool)      (* a character class *)
| RSeq (a b : re)
| RAlt (a b : re)
| RStar (a : re)               (* greedy *)
| RNot (a : re)                (* (?! a) *)
| RWordB                       (* \b *)
| RStart | REnd.               (* ^ and $ *)

Definition place : Type := option ascii * string.

Definition is_word (c : ascii) : bool :=
  let n := char_code c in
  is_digit c || ((65 <=? n) && (n <=? 90)) || ((97 <=? n) && (n <=? 122)) || (n =? 95).
Definition word_at (o : option ascii) : bool := match o with Some c => is_word c | None => false end.
Definition head_char (s : string) : option ascii := match s with String c _ => Some c | "" => None end.

Fixpoint star (f : place → list place) (fuel : nat) (i : place) : list place :=
  match fuel with
  | O => [i]
  | S fuel =>
      mjoin ((λ j, star f fuel j) <$> filter (λ j, (String.length j.2 < String.length i.2)%nat) (f i)) ++ [i]
  end.

Fixpoint matches (r : re) (i : place) : list place :=
  match r with
  | REps => [i]
  | RSet p => match i.2 with String c s => if p c then [(Some c, s)] else [] | "" => [] end
  | RSeq a b => mjoin (matches b <$> matches a i)
  | RAlt a b => matches a i ++ matches b i
  | RStar a => star (matches a) (String.length i.2) i
  | RNot a => match matches a i with [] => [i] | _ => [] end
  | RWordB => if Bool.eqb (word_at i.1) (word_at (head_char i.2)) then [] else [i]
  | RStart => match i.1 with None => [i] | Some _ => [] end
  | REnd => match i.2 with "" => [i] | _ => [] end
  end.

(** [re.test(s)] for a pattern that is not anchored: a match somewhere. *)
Fixpoint test_from (r : re) (prev : option ascii) (s : string) : bool :=
  match matches r (prev, s) with
  | _ :: _ => true
  | [] => match s with String c s => test_from r (Some c) s | "" => false end
  end.
Definition re_test (r : re) (s : string) : bool := test_from r None s.

(** The length of the first match at a place. *)
Definition match_length (r : re) (i : place) : option nat :=
  match matches r i with j :: _ => Some (String.length i.2 - String.length j.2)%nat | [] => None end.

(** [s.replace(re, '')] with the g flag; [skip] characters belong to a match. *)
Fixpoint delete_from (r : re) (skip : nat) (prev : option ascii) (s : string) : string :=
  match s with
  | "" => ""
  | String c s' =>
      match skip with
      | S skip => delete_from r skip (Some c) s'
      | O => match match_length r (prev, s) with
             | Some (S n) => delete_from r n (Some c) s'
             | _ => String c (delete_from r O (Some c) s')
             end
      end
  end.
Definition re_delete (r : re) (s : string) : string := delete_from r O None s.

(** ** Classes and abbreviations *)

Definition c_char (c : ascii) : ascii → bool := λ x, bool_decide (x = c).
Definition c_not (p : ascii → bool) : ascii → bool := λ x, negb (p x).
Definition c_or (p q : ascii → bool) : ascii → bool := λ x, p x || q x.
Definition c_range (lo hi : Z) : ascii → bool := λ x, (lo <=? char_code x) && (char_code x <=? hi).
Definition c_letter : ascii → bool := c_or (c_range 65 90) (c_range 97 122).
(** A letter under the i flag. *)
Definition c_ci (c : ascii) : ascii → bool := λ x, bool_decide (lower_char x = lower_char c).
Definition RPlus (a : re) : re := RSeq a (RStar a).
Definition ROpt (a : re) : re := RAlt a REps.
(** A literal text, and one under the i flag. *)
Fixpoint RLit (s : string) : re := match s with "" => REps | String c s => RSeq (RSet (c_char c)) (RLit s) end.
Fixpoint RLitCI (s : string) : re := match s with "" => REps | String c s => RSeq (RSet (c_ci c)) (RLitCI s) end.
Fixpoint RSeqs (l : list re) : re := match l with [] => REps | [a] => a | a :: l => RSeq a (RSeqs l) end.
Fixpoint RTimes (n : nat) (a : re) : re := match n with O => REps | S n => RSeq a (RTimes n a) end.
(** [a{m,n}] *)
Fixpoint RUpTo (n : nat) (a : re) : re := match n with O => REps | S n => ROpt (RSeq a (RUpTo n a)) end.
Definition RBetween (m n : nat) (a : re) : re := RSeq (RTimes m a) (RUpTo (n - m) a).

(** ** Lemmas *)

(** More fuel than characters changes nothing. *)
Lemma star_fuel f n m i :
  (String.length i.2 <= n)%nat → (n <= m)%nat → star f n i = star f m i.
Proof.
  revert m i. induction n as [|n IH]; intros m i Hi Hm.
  - destruct m; [done|]. cbn [star]. assert (Hf : filter (λ j, (String.length j.2 < String.length i.2)%nat) (f i) = []).
    { apply filter_none, Forall_forall. intros. lia. }
    rewrite Hf. done.
  - destruct m as [|m]; [lia|]. cbn [star]. do 2 f_equal. apply fmap_ext_elem.
    intros j [Hj _]%list_elem_of_filter. apply IH; lia.
Qed.

(** Deleting matches leaves a subsequence. *)
Abbreviation chars := String.list_ascii_of_string (only parsing).

Lemma delete_from_sublist r skip prev s : chars (delete_from r skip prev s) `sublist_of` chars s.
Proof.
  revert skip prev. induction s as [|c s IH]; intros skip prev; [done|]. cbn [delete_from].
  destruct skip as [|skip]; [|by apply sublist_cons].
  destruct match_length as [[|n]|]; [by apply sublist_skip|by apply sublist_cons|by apply sublist_skip].
Qed.

Lemma re_delete_sublist r s : chars (re_delete r s) `sublist_of` chars s.
Proof. apply delete_from_sublist. Qed.
