(* ===== verification/Errors.v ===== *)
(** * Errors ([src/src/utils/errors.js])

    The error classes of the application and the exceptions of the language
    that the modelled code raises.  Messages are kept where code reads them
    (plain [Error] objects); application errors carry their class name, code,
    numeric code and HTTP status. *)

From S2P Require Import Prelude.
Local Open Scope Z_scope.

Module Errors.

(** The values of [ERROR_CODES]: every entry's key is its [code]. *)
Definition ERROR_CODES : list (string * Z) :=
  [("VALIDATION_ERROR", 1000); ("INVALID_REQUEST", 1001); ("INVALID_LIMIT", 1002);
   ("INVALID_OFFSET", 1003); ("INVALID_DATE_FORMAT", 1004); ("INVALID_AMOUNT", 1005);
   ("INVALID_FREQUENCY", 1006); ("MISSING_REQUIRED_FIELD", 1007);
   ("IDEMPOTENCY_KEY_REQUIRED", 1008); ("INVALID_SCHEMA_VERSION", 1009); ("SSRF_BLOCKED", 1010);
   ("UNAUTHORIZED", 2000); ("ACCESS_DENIED", 2001); ("INSUFFICIENT_PERMISSIONS", 2002);
   ("INVALID_API_KEY", 2003); ("SEP10_REPLAY_DETECTED", 2004);
   ("NOT_FOUND", 3000); ("WALLET_NOT_FOUND", 3001); ("TRANSACTION_NOT_FOUND", 3002);
   ("USER_NOT_FOUND", 3003); ("DONATION_NOT_FOUND", 3004); ("ENDPOINT_NOT_FOUND", 3005);
   ("METHOD_NOT_ALLOWED", 3006);
   ("DUPLICATE_TRANSACTION", 4000); ("DUPLICATE_DONATION", 4001);
   ("INSUFFICIENT_BALANCE", 5000); ("TRANSACTION_FAILED", 5001);
   ("INVALID_STATE_TRANSITION", 5015); ("FEE_BUMP_MAX_ATTEMPTS", 5010);
   ("FEE_BUMP_EXCEEDS_CAP", 5011); ("FEE_BUMP_INVALID_STATE", 5012);
   ("FEE_BUMP_NO_ENVELOPE", 5013); ("FEE_BUMP_FAILED", 5014);
   ("ROUTING_STRATEGY_REQUIRED", 5020); ("INVALID_ROUTING_STRATEGY", 5021);
   ("POOL_NAME_REQUIRED", 5022); ("POOL_NOT_FOUND", 5023); ("POOL_EMPTY", 5024);
   ("POOL_ALREADY_EXISTS", 5025); ("RECIPIENT_NOT_IN_POOL", 5026);
   ("DONOR_COORDINATES_REQUIRED", 5027); ("NO_ELIGIBLE_RECIPIENTS", 5028);
   ("NO_ACTIVE_CAMPAIGNS", 5029); ("RECIPIENT_ACCOUNT_NOT_FOUND", 5030);
   ("DONATION_APPROVAL_EXPIRED", 5031); ("DONATION_ALREADY_APPROVED_BY_SIGNER", 5032);
   ("INSUFFICIENT_BALANCE_AFTER_RESERVE", 5033); ("MISSING_SECRET_KEY", 5034);
   ("RATE_LIMIT_EXCEEDED", 6000);
   ("INTERNAL_ERROR", 9000); ("DATABASE_ERROR", 9001); ("VERIFICATION_FAILED", 9002);
   ("SERVICE_UNAVAILABLE", 9003); ("STELLAR_NETWORK_ERROR", 9004);
   ("EXTERNAL_SERVICE_ERROR", 9005); ("RESOURCE_CONFLICT", 4009); ("NOT_IMPLEMENTED", 9006)].

(** [ERROR_CODES[key]]: [None] is [undefined]. *)
Definition lookup_code (key : string) : option (string * Z) :=
  find_first (λ e, bool_decide (e.1 = key)) ERROR_CODES.

(** The [errorCode] argument of a constructor. *)
Inductive code_arg :=
| CObj (code : string) (numeric : Z)
| CStr (s : string)
| CNone.

(** [ERROR_CODES.KEY], as an argument *)
Definition code_ref (key : string) : code_arg :=
  match lookup_code key with Some (c, n) => CObj c n | None => CNone end.

Record app_error := mk_app_error {
  err_name : string;
  errorCode : string;
  numericCode : Z;
  statusCode : Z;
}.

#[export] Instance app_error_eq_dec : EqDecision app_error.
Proof. solve_decision. Defined.

(** Everything the modelled code throws. *)
Inductive jserror :=
| EApp (e : app_error)
| EPlain (message : string)    (* new Error(message) *)
| EType (message : string)     (* a TypeError of the language *)
| ERange                       (* a RangeError of the language *)
| ESyntax                      (* a SyntaxError of the language *)
| EReference (name : string)    (* a ReferenceError of the language *)
| EUnique                      (* SQLite: UNIQUE constraint failed *)
| EDb (message : string).      (* any other database failure *)

#[export] Instance jserror_eq_dec : EqDecision jserror.
Proof. solve_decision. Defined.

(** The constructor of [AppError]: an empty string or code is falsy. *)
Definition AppError (name : string) (c : code_arg) (status : Z) : app_error :=
  match c with
  | CObj code numeric =>
      if bool_decide (code = "") then mk_app_error name "INTERNAL_ERROR" 9000 status
      else mk_app_error name code numeric status
  | CStr s =>
      mk_app_error name s
        (match find_first (λ e, bool_decide (e.1 = s)) ERROR_CODES with
         | Some (_, n) => n
         | None => 9000
         end) status
  | CNone => mk_app_error name "INTERNAL_ERROR" 9000 status
  end.

Definition ValidationError_with (c : code_arg) : jserror := EApp (AppError "ValidationError" c 400).
(** Without an [errorCode] argument the default code is used. *)
Definition ValidationError : jserror := ValidationError_with (code_ref "VALIDATION_ERROR").
Definition UnauthorizedError (c : code_arg) : jserror := EApp (AppError "UnauthorizedError" c 401).
Definition ForbiddenError (c : code_arg) : jserror := EApp (AppError "ForbiddenError" c 403).
Definition NotFoundError_with (c : code_arg) : jserror := EApp (AppError "NotFoundError" c 404).
Definition NotFoundError : jserror := NotFoundError_with (code_ref "NOT_FOUND").
Definition BusinessLogicError (c : code_arg) : jserror := EApp (AppError "BusinessLogicError" c 422).
Definition InternalError (c : code_arg) : jserror := EApp (AppError "InternalError" c 500).
Definition DatabaseError : jserror := EApp (AppError "DatabaseError" (code_ref "DATABASE_ERROR") 500).
Definition DuplicateError (c : code_arg) : jserror := EApp (AppError "DuplicateError" c 409).
Definition ConflictError : jserror :=
  EApp (AppError "ConflictError" (code_ref "RESOURCE_CONFLICT") 409).

(** [error.errorCode], [undefined] on errors that are not application errors. *)
Definition error_code_of (e : jserror) : option string :=
  match e with EApp a => Some (errorCode a) | _ => None end.

(** Every key names one entry and every numeric code one key. *)
Lemma lookup_code_total : forallb (λ e, bool_decide (lookup_code e.1 = Some e)) ERROR_CODES = true.
Proof. vm_compute. reflexivity. Qed.

Lemma numeric_codes_nodup : NoDup (ERROR_CODES.*2).
Proof. apply (bool_decide_unpack _). vm_compute. done. Qed.

Lemma lookup_code_key key c n : lookup_code key = Some (c, n) → c = key ∧ (key, n) ∈ ERROR_CODES.
Proof.
  intros H. apply find_first_Some in H as [Hin Hk]. apply bool_decide_eq_true in Hk.
  cbn in Hk. by subst.
Qed.

End Errors.
Export Errors.
