(* ===== verification/Assets.v ===== *)
(** * Assets ([src/src/utils/stellarAsset.js])

    The assets a request names, read from a text or an object, and compared by
    a key.  The check of an issuer is that of the SDK, a parameter. *)

From Stdlib Require Import Ascii.
From S2P Require Import Prelude JsString JsMap JsJson JsonParse Errors.
Local Open Scope Z_scope.

(** ** Trimming *)

Lemma trim_end_idem s : trim_end (trim_end s) = trim_end s.
Proof.
  induction s as [|c s IH]; [done|]. cbn [trim_end]. destruct (trim_end s) as [|d t] eqn:Ht.
  - destruct (is_space c) eqn:Hc; [done|]. cbn [trim_end]. by rewrite Hc.
  - change (trim_end (String c (String d t))) with (match trim_end (String d t) with
      | EmptyString => if is_space c then EmptyString else String c EmptyString | t => String c t end). by rewrite IH.
Qed.

Lemma trim_start_cases s : trim_start s = "" ∨ ∃ c t, trim_start s = String c t ∧ is_space c = false.
Proof. induction s as [|c s IH]; [by left|]. cbn. destruct (is_space c) eqn:Hc; [done|]. right. by exists c, s. Qed.

Lemma trim_idem s : trim (trim s) = trim s.
Proof.
  unfold trim. destruct (trim_start_cases s) as [->|(c & t & -> & Hc)]; [done|].
  destruct (trim_end (String c t)) as [|d u] eqn:Ht; [done|].
  assert (d = c) as ->.
  { cbn [trim_end] in Ht. destruct (trim_end t); [rewrite Hc in Ht|]; by injection Ht as <- _. }
  rewrite trim_start_id by done. rewrite <- Ht. apply trim_end_idem.
Qed.

Lemma trim_end_snoc s c : is_space c = false → trim_end (s +:+ String c "") = s +:+ String c "".
Proof.
  intros Hc. induction s as [|d s IH]; cbn [String.append trim_end]; [by rewrite Hc|]. rewrite IH. by destruct s.
Qed.

Lemma trim_between c s d : is_space c = false → is_space d = false →
  trim (String c (s +:+ String d "")) = String c (s +:+ String d "").
Proof. intros Hc Hd. unfold trim. rewrite trim_start_id by done. apply (trim_end_snoc (String c s)), Hd. Qed.

Lemma trim_length s : (String.length (trim s) <= String.length s)%nat.
Proof.
  unfold trim. transitivity (String.length (trim_start s)).
  - induction (trim_start s) as [|c t IH]; [done|]. cbn [trim_end]. destruct (trim_end t); [case_match|]; cbn in *; lia.
  - induction s as [|c s IH]; [done|]. cbn. case_match; cbn in *; lia.
Qed.

Module Assets.

Record asset := mk_asset { a_type : string; code : string; issuer : option string }.
#[global] Instance asset_eq_dec : EqDecision asset.
Proof. solve_decision. Defined.

Definition NATIVE_ASSET_CODE : string := "XLM".
Definition native : asset := mk_asset "native" NATIVE_ASSET_CODE None.

(** [/[A-Z0-9]/] *)
Definition is_code_char (c : ascii) : bool :=
  is_digit c || ((65 <=? char_code c) && (char_code c <=? 90)).
(** [/^[A-Z0-9]{1,12}$/.test(s)] *)
Definition code_pattern (s : string) : bool :=
  (1 <=? String.length s)%nat && (String.length s <=? 12)%nat && str_forall is_code_char s.

(** A property that is a string, trimmed. *)
Definition text_field (k : string) (fields : list (string * json)) : option string :=
  match map_get fields k with Some (JStr s) => Some (trim s) | _ => None end.

Section sdk.
Context (isValidEd25519PublicKey : string → bool).

Definition invalid : jserror := ValidationError_with (code_ref "INVALID_REQUEST").
Definition missing : jserror := ValidationError_with (code_ref "MISSING_REQUIRED_FIELD").

Definition parse_object (fields : list (string * json)) : outcome jserror asset :=
  let code := default "" (text_field "code" fields) in
  let issuer := default "" (text_field "issuer" fields) in
  let type := to_lower <$> text_field "type" fields in
  if bool_decide (type = Some "native") || (is_empty code && is_empty issuer) then Ret native
  else if negb (code_pattern code) then Throw invalid
  else if is_empty issuer || negb (isValidEd25519PublicKey issuer) then Throw invalid
  else Ret (mk_asset "credit_alphanum" code (Some issuer)).

(** [trimmed.toLowerCase() === 'native' || trimmed.toUpperCase() === 'XLM'] *)
Definition names_native (trimmed : string) : bool :=
  bool_decide (to_lower trimmed = "native" ∨ to_lower trimmed = "xlm").

(** A text that is JSON is read again, and may be a text again. *)
Fixpoint parse_input (fuel : nat) (value : json) : outcome jserror asset :=
  match value with
  | JNull | JStr "" => Throw missing
  | JStr s =>
      let trimmed := trim s in
      if names_native trimmed then Ret native
      else match JsonParse.parse trimmed with
           | None => Throw invalid
           | Some parsed => match fuel with O => Throw invalid | S fuel => parse_input fuel parsed end
           end
  | JObj fields => parse_object fields
  | JBool _ | JNum _ | JArr _ => Throw invalid
  end.

Definition input_fuel (value : json) : nat := match value with JStr s => String.length s | _ => O end.
(** A missing value is [JNull]. *)
Definition parseAssetInput (value : json) : outcome jserror asset := parse_input (input_fuel value) value.

Definition getAssetKey (a : asset) : string :=
  if bool_decide (a_type a = "native") then "native" else code a +:+ ":" +:+ default "null" (issuer a).
Definition isSameAsset (left right : asset) : bool := bool_decide (getAssetKey left = getAssetKey right).

(** A record of Horizon; the outer option is the missing record. *)
Record horizon := mk_horizon { asset_type : option string; asset_code : string; asset_issuer : option string }.
Definition normalizeHorizonAsset (record : option horizon) : asset :=
  match record with
  | None => native
  | Some r => if bool_decide (asset_type r = Some "native") then native
              else mk_asset "credit_alphanum" (asset_code r) (asset_issuer r)
  end.

Definition serializeAsset (a : asset) : json :=
  JObj [("type", JStr (a_type a)); ("code", JStr (code a));
        ("issuer", match issuer a with Some i => JStr i | None => JNull end)].

(** ** What is read *)

(** The assets that are read. *)
Inductive wf : asset → Prop :=
| wf_native : wf native
| wf_credit c i : code_pattern c = true → trim i = i → i ≠ "" → isValidEd25519PublicKey i = true →
    wf (mk_asset "credit_alphanum" c (Some i)).

Lemma parse_input_wf fuel v :
  match parse_input fuel v with
  | Ret a => wf a
  | Throw e => e = missing ∨ e = invalid
  end.
Proof.
  revert v. induction fuel as [|fuel IH]; intros [| | |[|c s]| |fields]; cbn [parse_input]; auto.
  all: try (destruct (names_native _); [constructor|]; destruct (JsonParse.parse _); auto; apply IH).
  all: unfold parse_object; cbv zeta; destruct (bool_decide _ || _); [constructor|];
    destruct (code_pattern _) eqn:Hc; cbn [negb]; [|auto];
    destruct (is_empty (default "" (text_field "issuer" fields)) || _) eqn:Hi; [auto|];
    apply orb_false_iff in Hi as [Hne Hv]; apply negb_false_iff in Hv; constructor; auto.
  all: try by intros Hz; rewrite Hz in Hne.
  all: unfold text_field; case_match; [case_match|]; try done; apply trim_idem.
Qed.

Lemma parse_input_fuel n m v : (input_fuel v <= n)%nat → (input_fuel v <= m)%nat → parse_input n v = parse_input m v.
Proof.
  revert m v. induction n as [|n IH]; intros m v Hn Hm.
  - destruct v as [| | |[|c s]| |]; try by destruct m. cbn in Hn. lia.
  - destruct v as [| | |[|c s]| |]; try by destruct m. destruct m as [|m]; [cbn in Hm; lia|]. cbn [parse_input].
    destruct (names_native _); [done|]. destruct (JsonParse.parse _) as [j|] eqn:Hp; [|done].
    cbn [input_fuel] in Hn, Hm. apply IH; (destruct j as [| | |t| |]; [cbn; lia..| |cbn; lia|cbn; lia]);
      apply JsonParse.parse_str_shorter in Hp; pose proof (trim_length (String c s)); cbn [input_fuel] in *; lia.
Qed.

(** ** Keys *)

Lemma code_pattern_spec c : code_pattern c = true → c ≠ "" ∧ str_forall is_code_char c = true.
Proof.
  unfold code_pattern. intros [[Hl _]%andb_prop Hc]%andb_prop. split; [|done]. by intros ->.
Qed.

Lemma code_not_colon c : str_forall is_code_char c = true → str_forall (λ a, negb (Ascii.eqb a ":")) c = true.
Proof.
  induction c as [|a c IH]; [done|]. cbn -[Ascii.eqb is_code_char]. intros [Ha Hc]%andb_prop. rewrite IH by done.
  destruct (Ascii.eqb_spec a ":") as [->|]; done.
Qed.

Lemma key_colon a : wf a → a_type a ≠ "native" →
  ∃ c i, a = mk_asset "credit_alphanum" c (Some i) ∧ getAssetKey a = c +:+ String ":" i ∧
         split_on ":" (getAssetKey a) = c :: split_on ":" i.
Proof.
  intros [|c i Hc Ht Hi Hv] Ha; [done|]. exists c, i. apply code_pattern_spec in Hc as [_ Hc].
  split_and!; [done..|]. cbn. by apply split_on_app, code_not_colon.
Qed.

Lemma code_trim c : str_forall is_code_char c = true → trim c = c.
Proof.
  intros Hc. apply trim_id. revert Hc. induction c as [|a c IH]; [done|]. cbn -[is_code_char is_space].
  intros [Ha Hc]%andb_prop. rewrite IH by done. rewrite andb_true_r. revert Ha. unfold is_code_char, is_digit, is_space.
  destruct a as [[] [] [] [] [] [] [] []]; by vm_compute.
Qed.

Lemma parse_serialized a : wf a → parseAssetInput (serializeAsset a) = Ret a.
Proof.
  intros [|c i Hc Ht Hi Hv]; [by vm_compute|]. pose proof (code_pattern_spec _ Hc) as [Hne Hch].
  unfold parseAssetInput, serializeAsset. cbn [input_fuel parse_input code issuer a_type]. set (fields := [_; _; _]).
  unfold parse_object.
  assert (text_field "type" fields = Some "credit_alphanum") as -> by reflexivity.
  assert (text_field "code" fields = Some (trim c)) as -> by reflexivity.
  assert (text_field "issuer" fields = Some (trim i)) as -> by reflexivity.
  rewrite Ht, code_trim by done. cbn [from_option id fmap option_fmap option_map id].
  rewrite bool_decide_eq_false_2 by done. rewrite Hc, Hv. by destruct c, i.
Qed.

Lemma eat_head c r : JsonParse.json_space c = false → JsonParse.eat c (String c r) = Some r.
Proof. intros Hc. unfold JsonParse.eat. cbn [JsonParse.skip_ws]. by rewrite Hc, Ascii.eqb_refl. Qed.
Lemma eat_other c d r : JsonParse.json_space c = false → Ascii.eqb c d = false → JsonParse.eat d (String c r) = None.
Proof. intros Hc Hd. unfold JsonParse.eat. cbn [JsonParse.skip_ws]. by rewrite Hc, Hd. Qed.

(** A text value, then the rest of an object. *)
Lemma parse_value_quote n s r : JsonParse.parse_value (S n) (String dquote (json_chars s +:+ String dquote r)) = Some (JStr s, r).
Proof. cbn [JsonParse.parse_value]. rewrite eat_head by done. cbn. by rewrite JsonParse.quote_read. Qed.

Lemma parse_field n acc k s r :
  JsonParse.parse_fields (S (S n)) acc (String dquote (json_chars k +:+ String dquote (String ":"
      (String dquote (json_chars s +:+ String dquote (String "," r))))))
  = JsonParse.parse_fields (S n) (map_set acc k (JStr s)) r.
Proof.
  cbn [JsonParse.parse_fields]. rewrite eat_head by done. cbn [mbind option_bind]. rewrite JsonParse.quote_read. cbn [mbind option_bind].
  rewrite eat_head by done. cbn [mbind option_bind]. rewrite parse_value_quote. cbn [mbind option_bind]. rewrite eat_other by done.
  by rewrite eat_head by done.
Qed.

Lemma parse_last_field n acc k s r :
  JsonParse.parse_fields (S (S n)) acc (String dquote (json_chars k +:+ String dquote (String ":"
      (String dquote (json_chars s +:+ String dquote (String "}" r))))))
  = Some (map_set acc k (JStr s), r).
Proof.
  cbn [JsonParse.parse_fields]. rewrite eat_head by done. cbn [mbind option_bind]. rewrite JsonParse.quote_read. cbn [mbind option_bind].
  rewrite eat_head by done. cbn [mbind option_bind]. rewrite parse_value_quote. cbn [mbind option_bind]. by rewrite eat_head by done.
Qed.

(** A text property in front of [rest]. *)
Definition prop_text (k s : string) (rest : string) : string :=
  String dquote (json_chars k +:+ String dquote (String ":" (String dquote (json_chars s +:+ String dquote rest)))).

Lemma stringify_asset c i :
  stringify None (serializeAsset (mk_asset "credit_alphanum" c (Some i))) =
  String "{" (prop_text "type" "credit_alphanum" (String "," (prop_text "code" c (String "," (prop_text "issuer" i "}"))))).
Proof.
  unfold serializeAsset. rewrite stringify_obj. unfold quote, prop_text. cbn [fmap list_fmap prod_map fst snd select_fields str_join].
  cbn -[json_chars dquote]. unfold quote. repeat (rewrite !str_app_assoc; cbn -[json_chars dquote]). done.
Qed.

Lemma parse_serialized_text c i :
  JsonParse.parse (stringify None (serializeAsset (mk_asset "credit_alphanum" c (Some i)))) =
  Some (serializeAsset (mk_asset "credit_alphanum" c (Some i))).
Proof.
  rewrite stringify_asset. unfold JsonParse.parse. set (s := String "{" _).
  rewrite <- (JsonParse.parse_fuel (5 + JsonParse.fuel_of s) s) by lia. subst s.
  set (n := JsonParse.fuel_of _). cbn [Nat.add]. cbn [JsonParse.parse_value].
  rewrite !eat_other by done. rewrite eat_head by done. unfold prop_text at 1. rewrite eat_other by done.
  unfold prop_text. rewrite !parse_field, parse_last_field. reflexivity.
Qed.

Lemma text_braces a : ∃ x, stringify None (serializeAsset a) = String "{" (x +:+ String "}" "").
Proof. unfold serializeAsset. rewrite stringify_obj. by eexists. Qed.

(** ** Theorems *)

(** An asset that is read is the native one or has a code of one to twelve
    capital letters and digits and an issuer the SDK accepts, without white
    space around it; every other value is refused as missing or invalid. *)
Theorem parseAssetInput_wf v :
  match parseAssetInput v with
  | Ret a => wf a
  | Throw e => e = missing ∨ e = invalid
  end.
Proof. apply parse_input_wf. Qed.

(** A text is read by its JSON value, to any depth of texts inside texts. *)
Theorem parseAssetInput_text s :
  s ≠ "" →
  parseAssetInput (JStr s) =
    if names_native (trim s) then Ret native
    else match JsonParse.parse (trim s) with
         | Some j => parseAssetInput j
         | None => Throw invalid
         end.
Proof.
  intros Hs. unfold parseAssetInput. destruct s as [|c s]; [done|]. cbn [input_fuel parse_input String.length].
  destruct (names_native _); [done|]. destruct (JsonParse.parse _) as [j|] eqn:Hp; [|done].
  assert (input_fuel j <= String.length s)%nat.
  { destruct j as [| | |t| |]; cbn [input_fuel]; try lia. apply JsonParse.parse_str_shorter in Hp.
    pose proof (trim_length (String c s)). cbn [String.length] in *. lia. }
  by apply parse_input_fuel.
Qed.

(** Two assets that were read have the same key only if they are equal. *)
Theorem isSameAsset_eq a b : wf a → wf b → isSameAsset a b = bool_decide (a = b).
Proof.
  intros Ha Hb. unfold isSameAsset. apply bool_decide_ext. split; [|by intros ->]. intros Hk.
  assert (Hn : ∀ x, wf x → a_type x = "native" → x = native) by (intros x [|]; done).
  destruct (decide (a_type a = "native")) as [Hta|Hta]; destruct (decide (a_type b = "native")) as [Htb|Htb].
  - by rewrite (Hn a), (Hn b).
  - destruct (key_colon b Hb Htb) as (c & i & -> & Hkb & Hsb). rewrite (Hn a Ha Hta) in Hk. rewrite <- Hk in Hsb.
    cbn in Hsb. injection Hsb as _ Hsb. by destruct (split_on_ne ":" i).
  - destruct (key_colon a Ha Hta) as (c & i & -> & Hka & Hsa). rewrite (Hn b Hb Htb) in Hk. rewrite Hk in Hsa.
    cbn in Hsa. injection Hsa as _ Hsa. by destruct (split_on_ne ":" i).
  - destruct (key_colon a Ha Hta) as (c & i & -> & Hka & Hsa). destruct (key_colon b Hb Htb) as (c' & i' & -> & Hkb & Hsb).
    rewrite Hk, Hsb in Hsa. injection Hsa as -> Hi. f_equal. f_equal.
    by rewrite <- (str_join_split ":" i), <- (str_join_split ":" i'), Hi.
Qed.

(** What is sent to a client, as an object or as its text, is read back. *)
Theorem asset_roundtrip a :
  wf a → parseAssetInput (serializeAsset a) = Ret a ∧
         parseAssetInput (JStr (stringify None (serializeAsset a))) = Ret a.
Proof.
  intros Ha. split; [by apply parse_serialized|]. destruct (text_braces a) as [x Hx].
  pose proof (parse_serialized a Ha) as Ho. rewrite parseAssetInput_text by by rewrite Hx.
  assert (Ht : trim (stringify None (serializeAsset a)) = stringify None (serializeAsset a)) by (rewrite Hx; by apply trim_between).
  rewrite Ht. replace (names_native _) with false.
  2:{ symmetry. apply bool_decide_eq_false. rewrite Hx. cbn. intros [?|?]; done. }
  destruct Ha as [|c i Hc Hi Hne Hv].
  - by replace (JsonParse.parse _) with (Some (serializeAsset native)) by by vm_compute.
  - by rewrite parse_serialized_text.
Qed.

End sdk.

Definition ex_issuer : string := "GISSUER".
Definition ex_usd : asset := mk_asset "credit_alphanum" "USDC" (Some ex_issuer).
Definition ex_valid (s : string) : bool := starts_with "G" s.

Lemma isSameAsset_eq_witness : isSameAsset ex_usd native = false.
Proof.
  refine (eq_trans (isSameAsset_eq ex_valid ex_usd native _ _) _).
  - exact (wf_credit ex_valid "USDC" ex_issuer eq_refl eq_refl ltac:(done) eq_refl).
  - exact (wf_native ex_valid).
  - by vm_compute.
Defined.

Lemma asset_roundtrip_witness :
  parseAssetInput ex_valid (serializeAsset ex_usd) = Ret ex_usd ∧
  parseAssetInput ex_valid (JStr (stringify None (serializeAsset ex_usd))) = Ret ex_usd.
Proof.
  exact (asset_roundtrip ex_valid ex_usd (wf_credit ex_valid "USDC" ex_issuer eq_refl eq_refl ltac:(done) eq_refl)).
Defined.

Lemma parseAssetInput_text_witness : parseAssetInput ex_valid (JStr " xlm ") = Ret native.
Proof. exact (parseAssetInput_text ex_valid " xlm " ltac:(done)). Defined.

End Assets.
