(* ===== verification/DbPool.v ===== *)
(** * The pool of database connections ([src/src/utils/database.js])

    Acquisition, the queue of waiters, release and retirement, the health
    check, initialisation and shutdown of the pool, as a machine whose steps
    are the turns of the event loop: a call runs up to what it waits for, and
    a task (a connection that opens or closes, a ping) that ends resumes its
    call in the same turn, because nothing else is queued when the driver
    calls back.  Connections are objects; [cid] is the number the pool gave
    them, which starts again after a shutdown.  The second part is
    [runTransaction] over one connection. *)

From S2P Require Import Prelude JsString JsNumber Errors.
Local Open Scope Z_scope.

Module DbPool.

(** ** Configuration *)

Definition DEFAULT_POOL_SIZE : Z := 5.
Definition DEFAULT_POOL_MIN : Z := 1.
Definition DEFAULT_POOL_MAX : Z := 10.

Definition parsePositiveIntegerEnv (variableName : string) (rawValue : option string) (defaultValue : Z) : outcome jserror Z :=
  match rawValue with
  | None | Some "" => Ret defaultValue
  | Some raw =>
      match parse_int raw with
      | Some parsed => if parsed <=? 0 then Throw (EDb (variableName +:+ " must be a positive integer")) else Ret parsed
      | None => Throw (EDb (variableName +:+ " must be a positive integer"))
      end
  end.

Record config := mk_config { g_poolSize : Z; g_poolMin : Z; g_poolMax : Z }.
(** The environment variables [DB_POOL_MIN], [DB_POOL_MAX], [DB_POOL_SIZE]. *)
Definition getPoolConfiguration (pool_min pool_max pool_size : option string) : outcome jserror config :=
  poolMin ← parsePositiveIntegerEnv "DB_POOL_MIN" pool_min DEFAULT_POOL_MIN;
  poolMax ← parsePositiveIntegerEnv "DB_POOL_MAX" pool_max DEFAULT_POOL_MAX;
  poolSize ← parsePositiveIntegerEnv "DB_POOL_SIZE" pool_size (Z.min poolMax DEFAULT_POOL_SIZE);
  Ret (mk_config (Z.min poolSize poolMax) poolMin poolMax).

(** ** State *)

Record conn := mk_conn { obj : Z; cid : Z }.
#[global] Instance conn_eq_dec : EqDecision conn.
Proof. solve_decision. Defined.

(** A lease: the request it was given to, its connection, [released]. *)
Record lease := mk_lease { l_req : Z; l_conn : conn; l_released : bool }.

(** What calls wait for. *)
Inductive task :=
| TInit (rs : list Z)                     (* [initialize]: the first connection opens; who waits for it *)
| TAcquire (r : Z)                        (* [acquireConnection]: a connection opens *)
| TDrain                                  (* [drainWaitQueue]: a connection opens *)
| TRetired                                (* [releaseConnection]: a retired connection closes *)
| TPing (c : conn) (rest : list conn)     (* [_checkIdleConnections]: a ping *)
| TStale (rest : list conn)               (* the same: a stale connection closes *)
| TReplace (rest : list conn)             (* the same: a fresh connection opens *)
| TClosing.                               (* [close]: the connections close *)

Record st := mk_st {
  initialized : bool;
  closing : bool;
  connections : list conn;
  inUse : list Z;                         (* the objects marked [inUse] *)
  closed : list Z;                        (* the objects closed *)
  waitQueue : list Z;                     (* requests, first in first *)
  initializing : bool;
  nextConnectionId : Z;
  next_obj : Z;
  pendingCreations : Z;
  queueDrainInProgress : bool;
  staleConnectionsReplaced : Z;
  leases : list lease;                    (* in the order they were given *)
  rejected : list Z;                      (* requests that threw *)
  tasks : list task;
}.

Definition init_st : st := mk_st false false [] [] [] [] false 1 1 0 false 0 [] [] [].

Definition set_connections (l : list conn) (s : st) : st := mk_st (initialized s) (closing s) l (inUse s) (closed s) (waitQueue s) (initializing s) (nextConnectionId s) (next_obj s) (pendingCreations s) (queueDrainInProgress s) (staleConnectionsReplaced s) (leases s) (rejected s) (tasks s).
Definition set_in_use (l : list Z) (s : st) : st := mk_st (initialized s) (closing s) (connections s) l (closed s) (waitQueue s) (initializing s) (nextConnectionId s) (next_obj s) (pendingCreations s) (queueDrainInProgress s) (staleConnectionsReplaced s) (leases s) (rejected s) (tasks s).
Definition set_closed (l : list Z) (s : st) : st := mk_st (initialized s) (closing s) (connections s) (inUse s) l (waitQueue s) (initializing s) (nextConnectionId s) (next_obj s) (pendingCreations s) (queueDrainInProgress s) (staleConnectionsReplaced s) (leases s) (rejected s) (tasks s).
Definition set_queue (l : list Z) (s : st) : st := mk_st (initialized s) (closing s) (connections s) (inUse s) (closed s) l (initializing s) (nextConnectionId s) (next_obj s) (pendingCreations s) (queueDrainInProgress s) (staleConnectionsReplaced s) (leases s) (rejected s) (tasks s).
Definition set_pending (n : Z) (s : st) : st := mk_st (initialized s) (closing s) (connections s) (inUse s) (closed s) (waitQueue s) (initializing s) (nextConnectionId s) (next_obj s) n (queueDrainInProgress s) (staleConnectionsReplaced s) (leases s) (rejected s) (tasks s).
Definition set_draining (b : bool) (s : st) : st := mk_st (initialized s) (closing s) (connections s) (inUse s) (closed s) (waitQueue s) (initializing s) (nextConnectionId s) (next_obj s) (pendingCreations s) b (staleConnectionsReplaced s) (leases s) (rejected s) (tasks s).
Definition set_stale (n : Z) (s : st) : st := mk_st (initialized s) (closing s) (connections s) (inUse s) (closed s) (waitQueue s) (initializing s) (nextConnectionId s) (next_obj s) (pendingCreations s) (queueDrainInProgress s) n (leases s) (rejected s) (tasks s).
Definition set_leases (l : list lease) (s : st) : st := mk_st (initialized s) (closing s) (connections s) (inUse s) (closed s) (waitQueue s) (initializing s) (nextConnectionId s) (next_obj s) (pendingCreations s) (queueDrainInProgress s) (staleConnectionsReplaced s) l (rejected s) (tasks s).
Definition set_rejected (l : list Z) (s : st) : st := mk_st (initialized s) (closing s) (connections s) (inUse s) (closed s) (waitQueue s) (initializing s) (nextConnectionId s) (next_obj s) (pendingCreations s) (queueDrainInProgress s) (staleConnectionsReplaced s) (leases s) l (tasks s).
Definition set_tasks (l : list task) (s : st) : st := mk_st (initialized s) (closing s) (connections s) (inUse s) (closed s) (waitQueue s) (initializing s) (nextConnectionId s) (next_obj s) (pendingCreations s) (queueDrainInProgress s) (staleConnectionsReplaced s) (leases s) (rejected s) l.
Definition set_flags (i c g : bool) (s : st) : st := mk_st i c (connections s) (inUse s) (closed s) (waitQueue s) g (nextConnectionId s) (next_obj s) (pendingCreations s) (queueDrainInProgress s) (staleConnectionsReplaced s) (leases s) (rejected s) (tasks s).

Section pool.
(** [state.poolSize] *)
Context (poolSize : Z).

Definition in_use (s : st) (c : conn) : bool := bool_decide (obj c ∈ inUse s).
Definition mark (c : conn) (s : st) : st := set_in_use (obj c :: inUse s) s.
Definition unmark (c : conn) (s : st) : st := set_in_use (filter (λ o, o ≠ obj c) (inUse s)) s.
Definition close_conn (c : conn) (s : st) : st := set_closed (obj c :: closed s) s.
Definition start (t : task) (s : st) : st := set_tasks (tasks s ++ [t]) s.
Definition reject (r : Z) (s : st) : st := set_rejected (rejected s ++ [r]) s.

Definition canCreateConnection (s : st) : bool := Z.of_nat (length (connections s)) + pendingCreations s <? poolSize.
Definition findIdleConnection (s : st) : option conn := find_first (λ c, negb (in_use s c)) (connections s).
Definition createLease (r : Z) (c : conn) (s : st) : st := set_leases (leases s ++ [mk_lease r c false]) s.
(** [inUse = true] and the lease *)
Definition grant (r : Z) (c : conn) (s : st) : st := createLease r c (mark c s).

(** [createConnectionRecord], up to what it waits for, and its end. *)
Definition create_start (t : task) (s : st) : st := start t (set_pending (pendingCreations s + 1) s).
Definition created (s : st) : conn * st :=
  let c := mk_conn (next_obj s) (nextConnectionId s) in
  (c, mk_st (initialized s) (closing s) (connections s ++ [c]) (inUse s) (closed s) (waitQueue s) (initializing s)
        (nextConnectionId s + 1) (next_obj s + 1) (pendingCreations s - 1) (queueDrainInProgress s)
        (staleConnectionsReplaced s) (leases s) (rejected s) (tasks s)).
Definition create_failed (s : st) : st := set_pending (pendingCreations s - 1) s.

(** [connections.splice] at the first record with the same [id]. *)
Fixpoint remove_id (i : Z) (l : list conn) : list conn :=
  match l with [] => [] | c :: l => if cid c =? i then l else c :: remove_id i l end.
Definition drop_conn (c : conn) (s : st) : st := set_connections (remove_id (cid c) (connections s)) s.

(** ** Acquisition *)

(** The rest of [acquireConnection] once the pool is initialized. *)
Definition acquire_body (r : Z) (s : st) : st :=
  if closing s then reject r s
  else
    match waitQueue s, findIdleConnection s with
    | [], Some c => grant r c s
    | [], None => if canCreateConnection s then create_start (TAcquire r) s else set_queue [r] s
    | q, _ => set_queue (q ++ [r]) s
    end.

(** [await state.initializing]: the last [initialize] that was started. *)
Fixpoint join (r : Z) (l : list task) : list task :=
  match l with
  | [] => []
  | TInit rs :: l =>
      if existsb (λ t, if t is TInit _ then true else false) l then TInit rs :: join r l else TInit (rs ++ [r]) :: l
  | t :: l => t :: join r l
  end.

(** [ensureInitialized] first: the first call opens a connection. *)
Definition acquireConnection (r : Z) (s : st) : st :=
  if initialized s then acquire_body r s
  else if initializing s then set_tasks (join r (tasks s)) s
  else create_start (TInit [r]) (set_flags false false true s).

(** The timer of a waiter. *)
Definition waiter_timeout (r : Z) (s : st) : st :=
  if bool_decide (r ∈ waitQueue s) then reject r (set_queue (filter (λ x, x ≠ r) (waitQueue s)) s) else s.

(** ** Release *)

Definition handConnectionToNextWaiter (c : conn) (s : st) : st :=
  match waitQueue s with [] => s | r :: q => grant r c (set_queue q s) end.

(** The loop of [drainWaitQueue], over the queue. *)
Fixpoint drain_loop (q : list Z) (s : st) : st :=
  match q with
  | [] => set_draining false s
  | r :: q =>
      match findIdleConnection s with
      | Some c => drain_loop q (grant r c (set_queue q s))
      | None => if canCreateConnection s then create_start TDrain s else set_draining false s
      end
  end.
Definition drainWaitQueue (s : st) : st :=
  if queueDrainInProgress s || closing s then s else drain_loop (waitQueue s) (set_draining true s).

Definition releaseConnection (c : conn) (retire : bool) (s : st) : st :=
  if retire then start TRetired (close_conn c (drop_conn c s)) else handConnectionToNextWaiter c (unmark c s).

(** [release] of the lease with this number: once. *)
Definition release (n : nat) (retire : bool) (s : st) : st :=
  match leases s !! n with
  | Some l =>
      if l_released l then s
      else releaseConnection (l_conn l) retire (set_leases (<[n := mk_lease (l_req l) (l_conn l) true]> (leases s)) s)
  | None => s
  end.

(** A statement of [execute] on the lease [m]: a timeout answers the caller
    and keeps the lease; the callback ends it, and retires the connection of a
    statement that timed out; so does a driver that throws. *)
Inductive exec := Running | TimedOut | Settled.
Definition statement_timeout (x : exec) : exec := match x with Running => TimedOut | _ => x end.
Definition statement_callback (x : exec) (m : nat) (s : st) : exec * st :=
  (Settled, release m (match x with TimedOut => true | _ => false end) s).
Definition statement_throws (m : nat) (s : st) : exec * st := (Settled, release m true s).

(** ** Health check *)

Definition health_next (rest : list conn) (s : st) : st :=
  match rest with
  | [] => s
  | c :: rest => if closing s then s else start (TPing c rest) s
  end.
Definition runHealthCheck (s : st) : st :=
  if negb (initialized s) || closing s then s else health_next (filter (λ c, in_use s c = false) (connections s)) s.

(** ** Shutdown *)

Definition close (s : st) : st :=
  start TClosing
    (mk_st (initialized s) true [] (inUse s) ((obj <$> connections s) ++ closed s) [] (initializing s) (nextConnectionId s)
       (next_obj s) (pendingCreations s) (queueDrainInProgress s) (staleConnectionsReplaced s) (leases s)
       (rejected s ++ waitQueue s) (tasks s)).
(** The resets at its end. *)
Definition close_end (s : st) : st :=
  mk_st false false (connections s) (inUse s) (closed s) (waitQueue s) false 1 (next_obj s) 0 false 0
    (leases s) (rejected s) (tasks s).

(** ** Tasks that end *)

(** The rest of [initialize], and then of the acquisitions that waited for it. *)
Definition initialize_end (rs : list Z) (ok : bool) (s : st) : st :=
  if ok then foldl (λ s r, acquire_body r s) (set_flags true (closing s) false (created s).2) rs
  else set_flags (initialized s) (closing s) false (set_rejected (rejected s ++ rs) (create_failed s)).

Definition acquire_end (r : Z) (ok : bool) (s : st) : st :=
  if ok then let '(c, s) := created s in grant r c s else reject r (create_failed s).

Definition drain_end (ok : bool) (s : st) : st :=
  if ok then
    let '(c, s) := created s in
    match waitQueue s with
    | [] => set_draining false s
    | r :: q => drain_loop q (grant r c (set_queue q s))
    end
  else set_draining false (create_failed s).

Definition retire_end (s : st) : st := if closing s then s else drainWaitQueue s.

Definition ping_end (c : conn) (rest : list conn) (ok : bool) (s : st) : st :=
  if ok then health_next rest s else start (TStale rest) (close_conn c (drop_conn c s)).
Definition stale_end (rest : list conn) (s : st) : st :=
  let s := set_stale (staleConnectionsReplaced s + 1) s in
  if negb (closing s) && canCreateConnection s then create_start (TReplace rest) s else health_next rest s.
Definition replace_end (rest : list conn) (ok : bool) (s : st) : st :=
  health_next rest (if ok then (created s).2 else create_failed s).

Definition finish (t : task) (ok : bool) (s : st) : st :=
  match t with
  | TInit rs => initialize_end rs ok s
  | TAcquire r => acquire_end r ok s
  | TDrain => drain_end ok s
  | TRetired => retire_end s
  | TPing c rest => ping_end c rest ok s
  | TStale rest => stale_end rest s
  | TReplace rest => replace_end rest ok s
  | TClosing => close_end s
  end.

(** ** The turns of the event loop *)

Inductive event :=
| EAcquire (r : Z)
| ERelease (n : nat) (retire : bool)
| ETimeout (r : Z)
| EHealth
| EDone (n : nat) (ok : bool)          (* the task with this number ends *)
| EClose.

Definition turn (e : event) (s : st) : st :=
  match e with
  | EAcquire r => acquireConnection r s
  | ERelease n retire => release n retire s
  | ETimeout r => waiter_timeout r s
  | EHealth => runHealthCheck s
  | EDone n ok => match tasks s !! n with Some t => finish t ok (set_tasks (delete n (tasks s)) s) | None => s end
  | EClose => close s
  end.
Definition run (l : list event) (s : st) : st := foldl (λ s e, turn e s) s l.

(** ** Metrics *)

Record metrics := mk_metrics { total : Z; active : Z; idle : Z; waiting : Z }.
Definition getPoolMetrics (s : st) : metrics :=
  let active := Z.of_nat (length (filter (λ c, in_use s c = true) (connections s))) in
  let total := Z.of_nat (length (connections s)) in
  mk_metrics total active (total - active) (Z.of_nat (length (waitQueue s))).

(** ** Lists of connections *)

Definition numbered (c : conn) : Prop := cid c = obj c.

Lemma numbered_inj c d : numbered c → numbered d → cid c = cid d → c = d.
Proof. destruct c, d. unfold numbered. cbn. congruence. Qed.
Lemma numbered_obj c d : numbered c → numbered d → obj c = obj d → c = d.
Proof. destruct c, d. unfold numbered. cbn. congruence. Qed.

Lemma filter_flip (f g : conn → bool) l c :
  NoDup l → c ∈ l → f c = false → g c = true → (∀ x, x ∈ l → x ≠ c → g x = f x) →
  filter (λ x, g x = true) l ≡ₚ c :: filter (λ x, f x = true) l.
Proof.
  intros Hnd Hin Hf Hg He. apply list_elem_of_split in Hin as (l1 & l2 & ->).
  apply NoDup_app in Hnd as (_ & Hd & [Hn2 _]%NoDup_cons).
  assert (H : ∀ l : list conn, (∀ x, x ∈ l → x ∈ l1 ++ c :: l2 ∧ x ≠ c) → filter (λ x, g x = true) l = filter (λ x, f x = true) l).
  { induction l as [|x l IH]; intros Hl; [done|]. destruct (Hl x ltac:(left)) as [Hx Hne].
    rewrite !filter_cons, He by done. rewrite IH; [done|]. intros y Hy. apply Hl. by right. }
  rewrite !filter_app, !filter_cons, Hf, Hg. cbn. rewrite Permutation_middle.
  rewrite (H l1), (H l2); [done| |]; intros x Hx; split.
  - apply elem_of_app. right. by right.
  - by intros ->.
  - apply elem_of_app. by left.
  - intros ->. by apply (Hd c); [|left].
Qed.

Lemma remove_id_perm c l :
  (∀ x, x ∈ l → numbered x) → numbered c → c ∈ l → l ≡ₚ c :: remove_id (cid c) l.
Proof.
  intros Hl Hc Hin. induction l as [|x l IH]; [by apply elem_of_nil in Hin|]. cbn.
  destruct (Z.eqb_spec (cid x) (cid c)) as [He|Hne].
  - rewrite (numbered_inj x c); [done|apply Hl; left|done|done].
  - apply elem_of_cons in Hin as [->|Hin]; [done|]. etrans; [apply perm_skip, IH; [intros; apply Hl; by right|done]|].
    apply perm_swap.
Qed.

Lemma remove_id_absent c l : (∀ x, x ∈ l → numbered x) → numbered c → c ∉ l → remove_id (cid c) l = l.
Proof.
  intros Hl Hc Hin. induction l as [|x l IH]; [done|]. cbn. apply not_elem_of_cons in Hin as [Hne Hin].
  destruct (Z.eqb_spec (cid x) (cid c)) as [He|_].
  - exfalso. apply Hne. symmetry. apply numbered_inj; [apply Hl; left|done|done].
  - rewrite IH; [done| |done]. intros; apply Hl; by right.
Qed.

Lemma remove_id_sub i l x : x ∈ remove_id i l → x ∈ l.
Proof.
  induction l as [|y l IH]; [done|]. cbn. destruct (cid y =? i); [by right|].
  intros [->|Hx]%elem_of_cons; [left|right; auto].
Qed.

(** ** Leases *)

(** The connections of the leases in force. *)
Definition held (s : st) : list conn := l_conn <$> filter (λ l, l_released l = false) (leases s).

Lemma held_lease r c s : held (createLease r c s) = held s ++ [c].
Proof. unfold held, createLease. cbn. rewrite filter_app, fmap_app. done. Qed.

Lemma held_release (ls : list lease) n l :
  ls !! n = Some l → l_released l = false →
  l_conn <$> filter (λ l, l_released l = false) ls ≡ₚ
  l_conn l :: (l_conn <$> filter (λ l, l_released l = false) (<[n := mk_lease (l_req l) (l_conn l) true]> ls)).
Proof.
  intros Hn Hl. pose proof (lookup_lt_Some _ _ _ Hn) as Hlt. rewrite <- (take_drop_middle ls n l Hn) at 1.
  rewrite insert_take_drop by done. rewrite !filter_app, !filter_cons, !fmap_app.
  rewrite decide_True by done. rewrite decide_False by done. cbn. by rewrite <- Permutation_middle.
Qed.

(** ** The state of a pool that is up *)

Definition creates (t : task) : bool :=
  match t with TInit _ | TAcquire _ | TDrain | TReplace _ => true | _ => false end.
Definition creations (l : list task) : Z := Z.of_nat (length (filter (λ t, creates t = true) l)).
Definition pinged (t : task) : list conn :=
  match t with TPing c rest => c :: rest | TStale rest | TReplace rest => rest | _ => [] end.

(** Tasks of a pool that is up and stays so. *)
Definition plain (t : task) : bool := match t with TInit _ | TClosing => false | _ => true end.

(** [k]: creations that just ended. *)
Record pool_ok (k : Z) (s : st) : Prop := mk_pool_ok {
  ok_up : initialized s = true;
  ok_open : closing s = false;
  ok_nodup : NoDup (connections s);
  ok_numbered : ∀ c, c ∈ connections s ∨ c ∈ held s ∨ c ∈ concat (pinged <$> tasks s) → numbered c ∧ obj c < next_obj s;
  ok_next : nextConnectionId s = next_obj s;
  ok_held : held s ≡ₚ filter (λ c, in_use s c = true) (connections s);
  ok_alive : ∀ c, c ∈ connections s → obj c ∉ closed s;
  ok_closed : ∀ o, o ∈ closed s → o < next_obj s;
  ok_capacity : Z.of_nat (length (connections s)) + pendingCreations s <= poolSize;
  ok_pending : pendingCreations s = creations (tasks s) + k;
  ok_tasks : ∀ t, t ∈ tasks s → plain t = true;
  ok_used : ∀ o, o ∈ inUse s → o < next_obj s
}.

(** Everything but leases, marks, queue and rejections is kept. *)
Definition same_pool (s s' : st) : Prop :=
  initialized s' = initialized s ∧ closing s' = closing s ∧ connections s' = connections s ∧ closed s' = closed s ∧
  nextConnectionId s' = nextConnectionId s ∧ next_obj s' = next_obj s ∧ pendingCreations s' = pendingCreations s ∧
  tasks s' = tasks s.

Lemma same_ok k s s' :
  same_pool s s' → held s' = held s → inUse s' = inUse s → pool_ok k s → pool_ok k s'.
Proof.
  intros (H1 & H2 & H3 & H4 & H5 & H6 & H7 & H8) Hh Hu [K1 K2 K3 K4 K5 K6 K7 K8 K9 K10 K11 K12].
  assert (Hf : filter (λ c, in_use s' c = true) (connections s) = filter (λ c, in_use s c = true) (connections s))
    by (unfold in_use; by rewrite Hu).
  split; rewrite ?H1, ?H2, ?H3, ?H4, ?H5, ?H6, ?H7, ?H8, ?Hh, ?Hu, ?Hf; assumption.
Qed.

Lemma idle_spec s c : findIdleConnection s = Some c → c ∈ connections s ∧ in_use s c = false.
Proof. intros [Hin H]%find_first_Some. by apply negb_true_iff in H. Qed.

Lemma grant_ok k r c s : c ∈ connections s → in_use s c = false → pool_ok k s → pool_ok k (grant r c s).
Proof.
  intros Hc Hidle [K1 K2 K3 K4 K5 K6 K7 K8 K9 K10 K11 K12].
  assert (Hh : held (grant r c s) = held s ++ [c]) by exact (held_lease r c (mark c s)).
  split; try done.
  - intros x. rewrite Hh. cbn. intros Hx. apply K4. rewrite elem_of_app, list_elem_of_singleton in Hx.
    destruct Hx as [?|[[?| ->]|?]]; auto.
  - rewrite Hh. cbn [connections grant createLease set_leases mark set_in_use].
    rewrite (filter_flip (in_use s) (in_use (grant r c s)) (connections s) c); [|done..| |].
    + rewrite K6. by rewrite Permutation_app_comm.
    + unfold in_use. cbn. apply bool_decide_eq_true. by left.
    + intros x Hx Hne. unfold in_use. cbn. apply bool_decide_ext. rewrite elem_of_cons. split; [|by right].
      intros [He|?]; [|done]. exfalso. apply Hne. apply numbered_obj; [apply K4; auto|apply K4; auto|done].
  - cbn. intros o [->|?]%elem_of_cons; [by apply K4; left|by apply K12].
Qed.

Lemma start_ok k t s :
  creates t = false → plain t = true → (∀ c, c ∈ pinged t → numbered c ∧ obj c < next_obj s) → pool_ok k s → pool_ok k (start t s).
Proof.
  intros Ht Hpl Hp [K1 K2 K3 K4 K5 K6 K7 K8 K9 K10 K11 K12]. split; try done.
  - intros c. cbn. rewrite fmap_app, concat_app, !elem_of_app. cbn. rewrite app_nil_r.
    intros [?|[?|[?|?]]]; [apply K4; auto..|by apply Hp].
  - cbn. rewrite K10. unfold creations. by rewrite filter_app, filter_cons_False, app_nil_r by by rewrite Ht.
  - cbn. intros t' [?|He%list_elem_of_singleton]%elem_of_app; [by apply K11|by subst t'].
Qed.

Lemma create_start_ok k t s :
  creates t = true → plain t = true → (∀ c, c ∈ pinged t → numbered c ∧ obj c < next_obj s) →
  canCreateConnection s = true → pool_ok k s → pool_ok k (create_start t s).
Proof.
  intros Ht Hi Hp Hcan [K1 K2 K3 K4 K5 K6 K7 K8 K9 K10 K11 K12]. apply Z.ltb_lt in Hcan. split; try done.
  - intros c. cbn. rewrite fmap_app, concat_app, !elem_of_app. cbn. rewrite app_nil_r.
    intros [?|[?|[?|?]]]; [apply K4; auto..|by apply Hp].
  - cbn. lia.
  - cbn. rewrite K10. unfold creations. rewrite filter_app, filter_cons_True, length_app by done. cbn. lia.
  - cbn. intros t' [?|He%list_elem_of_singleton]%elem_of_app; [by apply K11|by subst t'].
Qed.

Lemma failed_ok k s : pool_ok (k + 1) s → pool_ok k (create_failed s).
Proof. intros [K1 K2 K3 K4 K5 K6 K7 K8 K9 K10 K11 K12]. split; try done; cbn; lia. Qed.

Lemma created_ok k s :
  pool_ok (k + 1) s →
  let '(c, s') := created s in pool_ok k s' ∧ c ∈ connections s' ∧ in_use s' c = false.
Proof.
  intros [K1 K2 K3 K4 K5 K6 K7 K8 K9 K10 K11 Hu]. cbn. set (c := mk_conn (next_obj s) (nextConnectionId s)).
  assert (Hidle : bool_decide (next_obj s ∈ inUse s) = false) by (apply bool_decide_eq_false; intros ?%Hu; lia).
  split_and!; [|apply elem_of_app; right; by left|exact Hidle].
  split; try done; cbn.
  - apply NoDup_app. split_and!; [done| |apply NoDup_singleton].
    intros x Hx ->%list_elem_of_singleton. destruct (K4 c) as [_ H]; [by left|]. cbn in H. lia.
  - intros x. rewrite elem_of_app, list_elem_of_singleton.
    intros [[Hx| ->]|Hx]; [|split; [done|cbn; lia]|]; (destruct (K4 x) as [? ?]; [tauto|split; [done|lia]]).
  - lia.
  - change (held s ≡ₚ filter (λ x, in_use s x = true) (connections s ++ [c])).
    rewrite filter_app, K6, (filter_none _ [c]); [by rewrite app_nil_r|].
    apply Forall_singleton. unfold in_use. cbn. by rewrite Hidle.
  - intros x [Hx| ->%list_elem_of_singleton]%elem_of_app; [by apply K7|]. cbn. intros ?%K8. lia.
  - intros o ?%K8. lia.
  - rewrite length_app. cbn. lia.
  - lia.
  - intros o ?%Hu. lia.
Qed.

Lemma queue_ok k q s : pool_ok k s → pool_ok k (set_queue q s).
Proof. by apply same_ok. Qed.
Lemma reject_ok k r s : pool_ok k s → pool_ok k (reject r s).
Proof. by apply same_ok. Qed.
Lemma draining_ok k b s : pool_ok k s → pool_ok k (set_draining b s).
Proof. by apply same_ok. Qed.
Lemma stale_ok k n s : pool_ok k s → pool_ok k (set_stale n s).
Proof. by apply same_ok. Qed.

Lemma hand_ok k c s :
  c ∈ connections s → in_use s c = false → pool_ok k s → pool_ok k (handConnectionToNextWaiter c s).
Proof.
  intros Hc Hi Hok. unfold handConnectionToNextWaiter. destruct (waitQueue s) as [|r q]; [done|].
  apply grant_ok; [done|done|by apply queue_ok].
Qed.

Lemma held_in k s c : pool_ok k s → c ∈ held s → c ∈ connections s ∧ in_use s c = true.
Proof. intros Hok Hc. rewrite (ok_held _ _ Hok) in Hc. apply list_elem_of_filter in Hc. tauto. Qed.

(** A lease that ends: its connection is idle. *)
Lemma unmark_ok n l s :
  leases s !! n = Some l → l_released l = false → pool_ok 0 s →
  let s1 := unmark (l_conn l) (set_leases (<[n := mk_lease (l_req l) (l_conn l) true]> (leases s)) s) in
  pool_ok 0 s1 ∧ in_use s1 (l_conn l) = false.
Proof.
  intros Hn Hl Hok. cbv zeta. pose proof (held_release _ _ _ Hn Hl) as Hh. set (c := l_conn l) in *.
  set (s1 := unmark c _). fold (held s) in Hh.
  change (l_conn <$> filter (λ l, l_released l = false) (<[n := mk_lease (l_req l) c true]> (leases s))) with (held s1) in Hh.
  destruct (held_in 0 s c Hok) as [Hin Hu]; [rewrite Hh; left|].
  assert (Hc1 : in_use s1 c = false).
  { unfold in_use. apply bool_decide_eq_false. cbn. by intros [? _]%list_elem_of_filter. }
  split; [|exact Hc1]. destruct Hok as [K1 K2 K3 K4 K5 K6 K7 K8 K9 K10 K11 K12]. split; try done.
  - intros x Hx. apply K4. destruct Hx as [?|[Hx|?]]; [tauto| |tauto]. right. left. rewrite Hh. by right.
  - cbn [connections s1 unmark set_in_use set_leases]. apply (Permutation_cons_inv (a := c)). rewrite <- Hh, K6.
    apply filter_flip; [done..|]. intros x Hx Hne. unfold in_use. cbn. apply bool_decide_ext.
    rewrite list_elem_of_filter. split; [|tauto]. intros Ho. split; [|done].
    intros He. apply Hne. apply numbered_obj; [apply K4; auto..|done].
  - intros o. cbn. rewrite list_elem_of_filter. intros [_ Ho]. by apply K12.
Qed.

(** A connection leaves the pool, with its mark and its lease. *)
Lemma drop_ok c s s1 :
  pool_ok 0 s → numbered c ∧ obj c < next_obj s → same_pool s s1 → inUse s1 = inUse s →
  (c ∈ connections s → in_use s c = true → held s ≡ₚ c :: held s1) →
  (in_use s c = false ∨ c ∉ connections s → held s ≡ₚ held s1) →
  pool_ok 0 (close_conn c (drop_conn c s1)).
Proof.
  intros [K1 K2 K3 K4 K5 K6 K7 K8 K9 K10 K11 K12] Hc (H1 & H2 & H3 & H4 & H5 & H6 & H7 & H8) Hu Hh1 Hh2.
  assert (Hnum : ∀ x, x ∈ connections s → numbered x) by (intros x Hx; apply K4; auto).
  assert (Hsub : ∀ x, x ∈ remove_id (cid c) (connections s) → x ∈ connections s) by apply remove_id_sub.
  assert (Hcon : connections (close_conn c (drop_conn c s1)) = remove_id (cid c) (connections s)) by (cbn; by rewrite H3).
  assert (Hf : ∀ l : list conn, filter (λ x, in_use (close_conn c (drop_conn c s1)) x = true) l = filter (λ x, in_use s x = true) l).
  { intros l. unfold in_use. cbn. by rewrite Hu. }
  assert (Hheld : held s1 ≡ₚ filter (λ x, in_use s x = true) (remove_id (cid c) (connections s)) ∧
                  NoDup (remove_id (cid c) (connections s)) ∧ c ∉ remove_id (cid c) (connections s)).
  { destruct (decide (c ∈ connections s)) as [Hin|Hout].
    - pose proof (remove_id_perm c _ Hnum (proj1 Hc) Hin) as Hp. set (D := remove_id (cid c) (connections s)) in *.
      clearbody D. clear Hcon Hsub.
      assert (Hnd : NoDup (c :: D)) by by rewrite <- Hp.
      apply NoDup_cons in Hnd as [Hn Hnd]. split; [|done].
      destruct (in_use s c) eqn:Hcu.
      + apply (Permutation_cons_inv (a := c)). rewrite <- Hh1, K6, Hp, filter_cons_True by done. done.
      + rewrite <- Hh2, K6, Hp, filter_cons_False by (rewrite ?Hcu; auto). done.
    - rewrite remove_id_absent by (done || apply Hc). split; [|done]. rewrite <- Hh2 by auto. done. }
  destruct Hheld as (Hheld & Hnd & Hn).
  assert (Hle : (length (remove_id (cid c) (connections s)) <= length (connections s))%nat).
  { clear. induction (connections s) as [|x l IH]; [done|]. cbn. destruct (cid x =? cid c); cbn; lia. }
  split; rewrite ?Hcon, ?Hf; try (cbn; congruence).
  - intros x. change (tasks (close_conn c (drop_conn c s1))) with (tasks s1). change (held (close_conn c (drop_conn c s1))) with (held s1).
    cbn. rewrite H6, H8. intros [Hx|[Hx|Hx]]; apply K4; [auto| |auto]. left. rewrite Hheld in Hx.
    apply list_elem_of_filter in Hx. apply Hsub. tauto.
  - exact Hheld.
  - intros x Hx. cbn. rewrite H4. intros [He|Ho]%elem_of_cons; [|by apply (K7 x); [apply Hsub|]].
    assert (x = c) as -> by (apply numbered_obj; [by apply Hnum, Hsub|apply Hc|done]). by apply Hn.
  - cbn. rewrite H4, H6. intros o [->|Ho]%elem_of_cons; [apply Hc|by apply K8].
  - cbn. rewrite H7. lia.
  - cbn. by rewrite H8.
  - cbn. rewrite Hu, H6. exact K12.
Qed.

Lemma release_ok n retire s : pool_ok 0 s → pool_ok 0 (release n retire s).
Proof.
  intros Hok. unfold release. destruct (leases s !! n) as [l|] eqn:Hn; [|done]. destruct (l_released l) eqn:Hl; [done|].
  assert (Hc : l_conn l ∈ held s).
  { unfold held. apply list_elem_of_fmap_2, list_elem_of_filter. split; [done|]. by eapply list_elem_of_lookup_2. }
  destruct (held_in 0 s _ Hok Hc) as [Hin Hu]. unfold releaseConnection. destruct retire.
  - apply start_ok; [done|done|by intros x ?%elem_of_nil|].
    apply (drop_ok _ s); [done|apply (ok_numbered _ _ Hok); auto|done|done| |intros [?|?]; congruence].
    intros _ _. exact (held_release _ _ _ Hn Hl).
  - destruct (unmark_ok n l s Hn Hl Hok) as [Hok1 Hi]. by apply hand_ok.
Qed.

Lemma drain_loop_ok k q s : pool_ok k s → pool_ok k (drain_loop q s).
Proof.
  revert s. induction q as [|r q IH]; intros s Hok; [by apply draining_ok|]. cbn [drain_loop].
  destruct (findIdleConnection s) as [c|] eqn:Hi.
  - apply IH. apply idle_spec in Hi as [Hin Hu]. apply grant_ok; [done|done|by apply queue_ok].
  - destruct (canCreateConnection s) eqn:Hcan; [|by apply draining_ok].
    by apply create_start_ok; [| |intros c ?%elem_of_nil| |].
Qed.

Lemma drain_ok k s : pool_ok k s → pool_ok k (drainWaitQueue s).
Proof. intros Hok. unfold drainWaitQueue. destruct (_ || _); [done|]. by apply drain_loop_ok, draining_ok. Qed.

Lemma acquire_body_ok k r s : pool_ok k s → pool_ok k (acquire_body r s).
Proof.
  intros Hok. unfold acquire_body. destruct (closing s); [by apply reject_ok|].
  destruct (waitQueue s); [|by apply queue_ok]. destruct (findIdleConnection s) as [c|] eqn:Hi.
  - apply idle_spec in Hi as [Hin Hu]. by apply grant_ok.
  - destruct (canCreateConnection s) eqn:Hcan; [|by apply queue_ok].
    by apply create_start_ok; [| |intros c ?%elem_of_nil| |].
Qed.

Lemma health_next_ok k rest s :
  (∀ c, c ∈ rest → numbered c ∧ obj c < next_obj s) → pool_ok k s → pool_ok k (health_next rest s).
Proof.
  intros Hr Hok. destruct rest as [|c rest]; [done|]. cbn. destruct (closing s); [done|]. by apply start_ok.
Qed.

Lemma delete_task_ok n t s :
  tasks s !! n = Some t → pool_ok 0 s →
  pool_ok (if creates t then 1 else 0) (set_tasks (delete n (tasks s)) s) ∧
  plain t = true ∧ ∀ c, c ∈ pinged t → numbered c ∧ obj c < next_obj s.
Proof.
  intros Hn [K1 K2 K3 K4 K5 K6 K7 K8 K9 K10 K11 K12].
  assert (Hin : t ∈ tasks s) by by eapply list_elem_of_lookup_2.
  assert (Hp : ∀ c, c ∈ pinged t → c ∈ concat (pinged <$> tasks s)).
  { intros c Hc. apply list_elem_of_In, in_concat. exists (pinged t).
    rewrite <- !list_elem_of_In. split; [by apply list_elem_of_fmap_2|done]. }
  assert (Hperm : tasks s ≡ₚ t :: delete n (tasks s)) by by apply delete_Permutation.
  split_and!.
  - split; try done.
    + intros c Hc. apply K4. destruct Hc as [?|[?|Hc]]; [tauto..|]. right. right. cbn in Hc.
      apply list_elem_of_In, in_concat in Hc as (l & Hl & Hc). apply list_elem_of_In, in_concat. exists l. split; [|done].
      rewrite <- list_elem_of_In in *. apply list_elem_of_fmap in Hl as (t' & -> & Ht). apply list_elem_of_fmap_2.
      rewrite Hperm. by right.
    + cbn. rewrite K10. unfold creations. rewrite Hperm at 1. rewrite filter_cons. destruct (creates t) eqn:Ht.
      * rewrite decide_True by done. cbn. lia.
      * rewrite decide_False by done. lia.
    + intros t' Ht. apply K11. rewrite Hperm. by right.
  - by apply K11.
  - intros c Hc. apply K4. auto.
Qed.

(** A pool that was not used yet. *)
Record cold (s : st) : Prop := mk_cold {
  cold_down : initialized s = false;
  cold_open : closing s = false;
  cold_empty : connections s = [] ∧ inUse s = [] ∧ closed s = [] ∧ waitQueue s = [] ∧ leases s = [];
  cold_next : nextConnectionId s = next_obj s;
  cold_task : initializing s = false ∧ tasks s = [] ∧ pendingCreations s = 0 ∨
              initializing s = true ∧ ∃ rs, tasks s = [TInit rs] ∧ pendingCreations s = 1
}.

(** Turns without a shutdown, where a ping fails on idle connections only. *)
Definition calm (e : event) (s : st) : Prop :=
  match e with
  | EClose => False
  | EDone n false => match tasks s !! n with Some (TPing c _) => in_use s c = false | _ => True end
  | _ => True
  end.

Inductive step (s : st) : st → Prop := step_turn e : calm e s → step s (turn e s).

Definition pool_inv (s : st) : Prop := cold s ∨ pool_ok 0 s.

(** The first connection is open. *)
Definition warm (s : st) : st := set_flags true (closing s) false (created s).2.

Lemma warm_ok rs s :
  1 <= poolSize → tasks s = [TInit rs] → pendingCreations s = 1 → cold s → pool_ok 0 (warm (set_tasks [] s)).
Proof.
  intros Hsize Ht Hp [K1 K2 (K3 & K4 & K5 & K6 & K7) K8 _].
  split; cbn; rewrite ?K3, ?K4, ?K5, ?K6, ?Hp; try done.
  - apply NoDup_singleton.
  - unfold held. cbn. rewrite K7. cbn. intros c [Hc|[Hc|Hc]]; [|by apply elem_of_nil in Hc..].
    apply list_elem_of_singleton in Hc as ->. unfold numbered. cbn. lia.
  - lia.
  - unfold held. cbn. rewrite K7. cbn. unfold in_use. cbn. rewrite K4. done.
  - intros c _. apply not_elem_of_nil.
  - by intros o ?%elem_of_nil.
  - by intros t ?%elem_of_nil.
  - by intros o ?%elem_of_nil.
Qed.

(** The code after a task. *)
Ltac ends := unfold finish, initialize_end, acquire_end, drain_end, retire_end, ping_end, stale_end, replace_end; cbv beta iota.

Lemma acquire_all_ok k rs s : pool_ok k s → pool_ok k (foldl (λ s r, acquire_body r s) s rs).
Proof. revert s. induction rs as [|r rs IH]; intros s Hok; [done|]. by apply IH, acquire_body_ok. Qed.

Lemma finish_ok t ok s :
  plain t = true → (∀ c, c ∈ pinged t → numbered c ∧ obj c < next_obj s) →
  (ok = false → match t with TPing c _ => in_use s c = false | _ => True end) →
  pool_ok (if creates t then 1 else 0) s → pool_ok 0 (finish t ok s).
Proof.
  intros Hi Hp Hcalm Hok. destruct t as [rs|r| | |c rest|rest|rest|]; ends; cbn [creates pinged] in *.
  - done.
  - destruct ok; [|by apply reject_ok, failed_ok]. pose proof (created_ok 0 s Hok) as Hc.
    destruct (created s) as [c s1]. destruct Hc as (Hok1 & Hin & Hu). by apply grant_ok.
  - destruct ok; [|by apply draining_ok, failed_ok]. pose proof (created_ok 0 s Hok) as Hc.
    destruct (created s) as [c s1]. destruct Hc as (Hok1 & Hin & Hu).
    destruct (waitQueue s1) as [|r q]; [by apply draining_ok|]. apply drain_loop_ok, grant_ok; [done|done|by apply queue_ok].
  - destruct (closing s); [done|]. by apply drain_ok.
  - destruct ok; [apply health_next_ok; [|done]; intros x Hx; apply Hp; by right|].
    apply start_ok; [done|done|intros x Hx; apply Hp; by right|].
    apply (drop_ok c s); [done|apply Hp; left|done|done| |done]. rewrite Hcalm by done. done.
  - set (s1 := set_stale _ s). assert (Hok1 : pool_ok 0 s1) by by apply stale_ok.
    destruct (negb (closing s1)); cbn [andb]; [|by apply health_next_ok].
    destruct (canCreateConnection s1) eqn:Hcan; [by apply create_start_ok|by apply health_next_ok].
  - destruct ok; [|apply health_next_ok; [exact Hp|by apply failed_ok]].
    pose proof (created_ok 0 s Hok) as Hc. destruct (created s) as [c s1] eqn:Hcr. destruct Hc as (Hok1 & _ & _). cbn.
    apply health_next_ok; [|done]. intros x Hx. destruct (Hp x Hx) as [H1 H2]. split; [done|].
    unfold created in Hcr. injection Hcr as <- <-. cbn. lia.
  - done.
Qed.

Lemma turn_inv e s : 1 <= poolSize → calm e s → pool_inv s → pool_inv (turn e s).
Proof.
  intros Hsize Hcalm [Hcold|Hok].
  - destruct Hcold as [K1 K2 (K3 & K4 & K5 & K6 & K7) K8 K9].
    assert (Hsame : pool_inv s) by (left; by split).
    destruct e as [r|n retire|r| |n ok|]; cbn [turn]; [| | | | |done].
    + unfold acquireConnection. rewrite K1. left. destruct K9 as [(Hi & Ht & Hp)|(Hi & rs & Ht & Hp)]; rewrite Hi, ?Ht.
      * split; cbn; rewrite ?Ht, ?Hp; [done..|]. right. split; [done|]. by exists [r].
      * cbn. split; cbn; rewrite ?Hp; [done..|]. right. split; [done|]. by exists (rs ++ [r]).
    + unfold release. by rewrite K7.
    + unfold waiter_timeout. rewrite K6, bool_decide_false by apply not_elem_of_nil. done.
    + unfold runHealthCheck. by rewrite K1.
    + destruct K9 as [(Hi & Ht & Hp)|(Hi & rs & Ht & Hp)]; rewrite Ht; [done|]. destruct n as [|n]; [|done]. cbn [lookup list_lookup].
      destruct ok.
      * right. apply acquire_all_ok. apply (warm_ok rs s); [done..|]. split; [done..|]. right. eauto.
      * left. split; cbn; rewrite ?Hp; [done..|]. by left.
  - destruct e as [r|n retire|r| |n ok|]; cbn [turn]; [| | | | |done]; [right|right|right|right|].
    + unfold acquireConnection. rewrite (ok_up _ _ Hok). by apply acquire_body_ok.
    + by apply release_ok.
    + unfold waiter_timeout. case_bool_decide; [|done]. by apply reject_ok, queue_ok.
    + unfold runHealthCheck. destruct (_ || _); [done|]. apply health_next_ok; [|done].
      intros c [_ Hc]%list_elem_of_filter. apply (ok_numbered _ _ Hok). by left.
    + destruct (tasks s !! n) as [t|] eqn:Ht; [|by right]. right.
      destruct (delete_task_ok n t s Ht Hok) as (Hok1 & Hpl & Hp). apply finish_ok; [done|done| |done].
      intros ->. cbn in Hcalm. rewrite Ht in Hcalm. by destruct t.
Qed.

Lemma reachable_inv s : 1 <= poolSize → rtc step init_st s → pool_inv s.
Proof.
  intros Hsize Hr. eapply preserves_rtc; [|exact Hr|left; by constructor; [..|left]].
  intros s1 s2 Hi [e He]. by apply turn_inv.
Qed.

(** C14: Without a shutdown, and if pings fail on idle connections only, a connection is leased to one
    holder at a time, every connection marked in use has its holder and is open, and the pool never
    exceeds its size, connections being opened included: whatever opens, closes, times out or fails. *)
Theorem leases_exclusive s :
  1 <= poolSize → rtc step init_st s →
  NoDup (held s) ∧
  (∀ c, c ∈ held s ↔ c ∈ connections s ∧ in_use s c = true) ∧
  (∀ c, c ∈ connections s → obj c ∉ closed s) ∧
  Z.of_nat (length (connections s)) + Z.max 0 (pendingCreations s) <= poolSize.
Proof.
  intros Hsize Hr. pose proof (reachable_inv s Hsize Hr) as Hinv.
  destruct Hinv as [[K1 K2 (K3 & K4 & K5 & K6 & K7) K8 K9]|[K1 K2 K3 K4 K5 K6 K7 K8 K9 K10 K11 K12]].
  - unfold held. rewrite K3, K7. cbn. split_and!; [constructor| | |destruct K9 as [(_ & _ & ->)|(_ & rs & _ & ->)]; lia].
    + intros c. split; [by intros ?%elem_of_nil|by intros [?%elem_of_nil _]].
    + by intros c ?%elem_of_nil.
  - split_and!; [rewrite K6; by apply NoDup_filter| |done|].
    + intros c. rewrite K6, list_elem_of_filter. tauto.
    + pose proof K10 as Hp. unfold creations in Hp. lia.
Qed.

(** The connection of a statement that timed out serves nobody else: it stays leased until the
    driver calls back, and is then closed and out of the pool. *)
Theorem timed_out_connection_retired s m l :
  1 <= poolSize → rtc step init_st s → leases s !! m = Some l → l_released l = false →
  let '(x, s') := statement_callback (statement_timeout Running) m s in
  in_use s (l_conn l) = true ∧ l_conn l ∉ connections s' ∧ l_conn l ∉ held s' ∧ obj (l_conn l) ∈ closed s'.
Proof.
  intros Hsize Hr Hm Hl. cbn. pose proof (reachable_inv s Hsize Hr) as Hinv.
  destruct Hinv as [Hc|Hok]; [destruct (cold_empty _ Hc) as (_ & _ & _ & _ & H); by rewrite H in Hm|].
  assert (Hh : l_conn l ∈ held s).
  { unfold held. apply list_elem_of_fmap_2, list_elem_of_filter. split; [done|]. by eapply list_elem_of_lookup_2. }
  destruct (held_in 0 s _ Hok Hh) as [Hin Hu]. split; [done|].
  pose proof (release_ok m true s Hok) as Hok'.
  assert (Hout : l_conn l ∉ connections (release m true s)).
  { unfold release. rewrite Hm, Hl. cbn. intros Hx.
    assert (Hp : connections s ≡ₚ l_conn l :: remove_id (cid (l_conn l)) (connections s)).
    { apply remove_id_perm; [intros x Hx'; apply (ok_numbered _ _ Hok); auto|apply (ok_numbered _ _ Hok); auto|done]. }
    pose proof (ok_nodup _ _ Hok) as Hnd. rewrite Hp in Hnd. apply NoDup_cons in Hnd as [Hnd _]. done. }
  split; [done|]. split; [by intros [? _]%(held_in 0 _ _ Hok')|]. unfold release. rewrite Hm, Hl. cbn. left.
Qed.

(** ** The queue *)

(** The same, and no ping fails. *)
Definition healthy (e : event) (s : st) : Prop :=
  match e with
  | EClose => False
  | EDone n false => match tasks s !! n with Some (TPing _ _) => False | _ => True end
  | _ => True
  end.
Inductive healthy_step (s : st) : st → Prop := healthy_turn e : healthy e s → healthy_step s (turn e s).

(** While someone waits nothing is idle; no stale connection is being replaced. *)
Definition busy (s : st) : Prop := waitQueue s ≠ [] → ∀ c, c ∈ connections s → in_use s c = true.
Definition sound (t : task) : Prop := match t with TStale _ | TReplace _ => False | _ => True end.
Definition busy_ok (s : st) : Prop := busy s ∧ ∀ t, t ∈ tasks s → sound t.

Lemma no_idle s : busy s → waitQueue s ≠ [] → findIdleConnection s = None.
Proof.
  intros Hb Hq. destruct (findIdleConnection s) as [c|] eqn:Hi; [|done]. apply idle_spec in Hi as [Hin Hu].
  rewrite (Hb Hq c Hin) in Hu. done.
Qed.

Lemma mark_in_use c s x : in_use (mark c s) x = bool_decide (obj x = obj c) || in_use s x.
Proof.
  unfold in_use. cbn. destruct (decide (obj x = obj c)) as [->|Hne].
  - rewrite (bool_decide_true (_ = _)) by done. apply bool_decide_eq_true. by left.
  - rewrite (bool_decide_false (_ = _)) by done. cbn. apply bool_decide_ext. rewrite elem_of_cons. tauto.
Qed.

Lemma busy_grant r c q s :
  (∀ x, x ∈ connections s → obj x ≠ obj c → in_use s x = true) → busy (grant r c (set_queue q s)).
Proof.
  intros Hx _ x Hin. change (in_use (grant r c (set_queue q s)) x) with (in_use (mark c s) x). rewrite mark_in_use.
  destruct (decide (obj x = obj c)) as [He|Hne]; [by rewrite bool_decide_true|]. rewrite (Hx x) by done. apply orb_true_r.
Qed.

Lemma start_busy t s : sound t → busy_ok s → busy_ok (start t s).
Proof.
  intros Ht [B1 B2]. split; [exact B1|]. intros t' [?|He%list_elem_of_singleton]%elem_of_app; [by apply B2|by subst t'].
Qed.

Lemma acquire_body_busy r s : busy_ok s → busy_ok (acquire_body r s).
Proof.
  intros [B1 B2]. unfold acquire_body. destruct (closing s); [by split|].
  destruct (waitQueue s) as [|r0 q] eqn:Hw; [|split; [|done]; intros _; apply B1; by rewrite Hw].
  destruct (findIdleConnection s) as [c|] eqn:Hidle; [by split; [intros Hne|]|].
  destruct (canCreateConnection s); [by apply start_busy|]. split; [|done].
  intros _ c Hc. by apply (find_first_None _ _ c), negb_false_iff in Hidle.
Qed.

Lemma drain_busy s : busy_ok s → busy_ok (drain_loop (waitQueue s) s).
Proof.
  intros Hb. destruct (waitQueue s) as [|r q] eqn:Hw; cbn [drain_loop]; [exact Hb|].
  rewrite no_idle; [|apply Hb|by rewrite Hw]. destruct (canCreateConnection s); [|exact Hb].
  by apply (start_busy TDrain (set_pending (pendingCreations s + 1) s)).
Qed.

Lemma release_busy n retire s : busy_ok s → busy_ok (release n retire s).
Proof.
  intros [B1 B2]. unfold release. destruct (leases s !! n) as [l|]; [|done]. destruct (l_released l); [done|].
  unfold releaseConnection. set (c := l_conn l). destruct retire.
  - apply start_busy; [done|]. split; [|done]. intros Hq x Hx. exact (B1 Hq x (remove_id_sub (cid c) _ x Hx)).
  - unfold handConnectionToNextWaiter. cbn [waitQueue unmark set_in_use set_leases].
    destruct (waitQueue s) as [|r q] eqn:Hw; (split; [|done]); [intros Hq; cbn in Hq; by rewrite Hw in Hq|].
    apply busy_grant. intros x Hx Hne. assert (Hu : in_use s x = true) by (apply B1; [by rewrite Hw|done]).
    unfold in_use in *. cbn. apply bool_decide_eq_true in Hu. by apply bool_decide_eq_true, list_elem_of_filter.
Qed.

(** A connection that opens for a request or for the queue. *)
Lemma created_busy r s : busy_ok s → let '(c, s1) := created s in ∀ q, busy_ok (grant r c (set_queue q s1)) ∨ waitQueue s = [].
Proof.
  intros [B1 B2]. cbn. intros q. destruct (waitQueue s) as [|r0 q0] eqn:Hw; [by right|left]. split; [|done].
  apply busy_grant. cbn. intros x [Hx|Hx]%elem_of_app Hne; [apply B1; [by rewrite Hw|done]|].
  apply list_elem_of_singleton in Hx as ->. done.
Qed.

Lemma finish_busy t ok s :
  (∀ rs, t = TInit rs → waitQueue s = []) → sound t → t ≠ TClosing → (ok = false → match t with TPing _ _ => False | _ => True end) →
  busy_ok s → busy_ok (finish t ok s).
Proof.
  intros Hi Hs Hcl Hok Hb. destruct t as [rs|r| | |c rest|rest|rest|]; ends; try done.
  - destruct ok; [|exact Hb]. assert (H0 : busy_ok (set_flags true (closing s) false (created s).2)).
    { destruct Hb as [B1 B2]. split; [|done]. intros Hq. cbn in Hq. by rewrite (Hi rs eq_refl) in Hq. }
    revert H0. generalize (set_flags true (closing s) false (created s).2). clear. induction rs as [|r rs IH]; intros s H0; [done|].
    by apply IH, acquire_body_busy.
  - destruct ok; [|exact Hb]. pose proof (created_busy r s Hb) as Hc. destruct (created s) as [c s1] eqn:Hcr.
    destruct (Hc (waitQueue s1)) as [H|H]; [exact H|]. injection Hcr as <- <-. destruct Hb as [B1 B2]. split; [|done].
    intros Hq. cbn in Hq. by rewrite H in Hq.
  - destruct ok; [|exact Hb]. destruct (created s) as [c s1] eqn:Hcr.
    destruct (waitQueue s1) as [|r q] eqn:Hw.
    + injection Hcr as <- <-. destruct Hb as [B1 B2]. split; [|done]. intros Hq. cbn in Hq, Hw. by rewrite Hw in Hq.
    + pose proof (created_busy r s Hb) as Hc. rewrite Hcr in Hc. destruct (Hc q) as [H|H].
      * exact (drain_busy (grant r c (set_queue q s1)) H).
      * injection Hcr as <- <-. cbn in Hw. congruence.
  - destruct (closing s); [done|]. unfold drainWaitQueue. destruct (_ || _); [done|].
    exact (drain_busy (set_draining true s) Hb).
  - destruct ok; [|by destruct Hok]. destruct rest as [|x rest]; [done|]. cbn. destruct (closing s); [done|]. by apply start_busy.
Qed.

Lemma healthy_calm e s : healthy e s → calm e s.
Proof. destruct e as [| | | |n []|]; cbn; try done. destruct (tasks s !! n) as [[]|]; done. Qed.

Lemma turn_busy e s : healthy e s → pool_inv s → busy_ok s → busy_ok (turn e s).
Proof.
  intros He Hinv Hb. destruct e as [r|n retire|r| |n ok|]; cbn [turn]; [| | | | |done].
  - unfold acquireConnection. destruct (initialized s); [by apply acquire_body_busy|]. destruct (initializing s).
    + destruct Hb as [B1 B2]. split; [exact B1|]. cbn. intros t Ht.
      assert (Hj : ∀ l, (∀ t, t ∈ l → sound t) → ∀ t, t ∈ join r l → sound t); [|exact (Hj _ B2 t Ht)].
      clear. intros l Hl. induction l as [|t l IH]; [done|]. assert (Hl' : ∀ t, t ∈ l → sound t) by (intros; apply Hl; by right).
      assert (Ht : sound t) by (apply Hl; left).
      destruct t; cbn; try (intros t [->|?]%elem_of_cons; [done|by apply IH]).
      destruct (existsb _ l); intros t [->|?]%elem_of_cons; try done; [by apply IH|by apply Hl'].
    + by apply start_busy.
  - by apply release_busy.
  - unfold waiter_timeout. case_bool_decide as Hr; [|done]. destruct Hb as [B1 B2]. split; [|done].
    intros _. apply B1. intros Hq. rewrite Hq in Hr. by apply elem_of_nil in Hr.
  - unfold runHealthCheck. destruct (_ || _); [done|]. destruct (filter _ (connections s)); [done|].
    cbn. destruct (closing s); [done|]. by apply start_busy.
  - destruct (tasks s !! n) as [t|] eqn:Ht; [|done]. assert (Hin : t ∈ tasks s) by by eapply list_elem_of_lookup_2.
    apply finish_busy.
    + intros rs ->. destruct Hinv as [Hc|Hok]; [apply (cold_empty _ Hc)|]. by apply (ok_tasks _ _ Hok) in Hin.
    + by apply Hb.
    + intros ->. destruct Hinv as [Hc|Hok]; [|by apply (ok_tasks _ _ Hok) in Hin].
      destruct (cold_task _ Hc) as [(_ & H & _)|(_ & rs & H & _)]; rewrite H in Hin; [by apply elem_of_nil in Hin|].
      by apply list_elem_of_singleton in Hin.
    + intros ->. cbn in He. rewrite Ht in He. by destruct t.
    + destruct Hb as [B1 B2]. split; [exact B1|]. cbn. intros t' Ht'. apply B2.
      rewrite (delete_Permutation (tasks s) n t Ht). by right.
Qed.

(** While requests wait, no connection is idle, as long as no ping fails: whatever opens, closes,
    times out or fails. *)
Theorem no_idle_while_waiting s :
  1 <= poolSize → rtc healthy_step init_st s → waitQueue s ≠ [] →
  ∀ c, c ∈ connections s → in_use s c = true.
Proof.
  intros Hsize Hr. assert (H : pool_inv s ∧ busy_ok s); [|apply H].
  eapply (preserves_rtc healthy_step (λ s, pool_inv s ∧ busy_ok s)); [|exact Hr|].
  - intros s1 s2 [Hi Hb] [e He]. split; [by apply turn_inv, Hi; [|apply healthy_calm]|by apply turn_busy].
  - split; [left; by constructor; [..|left]|]. split; [by intros Hq|]. by intros t ?%elem_of_nil.
Qed.

(** ** First in, first out *)

Definition reqs (s : st) : list Z := l_req <$> leases s.

(** From [s] to [s'] the first [k] waiters were served; [x] are served besides. *)
Definition served (k : nat) (x : list Z) (s s' : st) : Prop :=
  (∃ y, waitQueue s' = drop k (waitQueue s) ++ y) ∧ reqs s' = reqs s ++ take k (waitQueue s) ++ x.

Lemma served_none s s' : waitQueue s' = waitQueue s → leases s' = leases s → served 0 [] s s'.
Proof. intros Hq Hl. unfold served, reqs. rewrite Hq, Hl. split; [exists []|]; by rewrite ?app_nil_r. Qed.

Lemma acquire_body_served r s : ∃ x, served 0 x s (acquire_body r s) ∧ (waitQueue s ≠ [] → x = []).
Proof.
  unfold acquire_body. destruct (closing s); [exists []; split; [by apply served_none|done]|].
  destruct (waitQueue s) as [|r0 q] eqn:Hw.
  - destruct (findIdleConnection s) as [c|]; [|destruct (canCreateConnection s)].
    + exists [r]. split; [|done]. split; [exists []; cbn; by rewrite Hw|]. unfold reqs. cbn. by rewrite fmap_app, Hw.
    + exists []. split; [by apply served_none|done].
    + exists []. split; [|done]. split; [exists [r]; cbn; by rewrite Hw|]. unfold reqs. cbn. by rewrite Hw, app_nil_r.
  - exists []. split; [|done]. split; [exists [r]; cbn; by rewrite Hw|]. unfold reqs. cbn. by rewrite Hw, app_nil_r.
Qed.

Lemma acquire_all_served rs s :
  ∃ x, served 0 x s (foldl (λ s r, acquire_body r s) s rs) ∧ (waitQueue s ≠ [] → x = []).
Proof.
  revert s. induction rs as [|r rs IH]; intros s; [exists []; split; [by apply served_none|done]|]. cbn [foldl].
  destruct (acquire_body_served r s) as (x & [[y Hy] Hx] & Hn). destruct (IH (acquire_body r s)) as (x' & [[y' Hy'] Hx'] & Hn').
  exists (x ++ x'). unfold served. rewrite Hy', Hx', Hx, Hy. split; [split|].
  - exists (y ++ y'). cbn. by rewrite !drop_0, app_assoc.
  - rewrite !take_0. cbn. by rewrite <- app_assoc.
  - intros H. rewrite Hn, Hn'; [done| |done]. rewrite Hy. cbn. rewrite drop_0. by destruct (waitQueue s).
Qed.

Lemma drain_served s : ∃ k, served k [] s (drain_loop (waitQueue s) s).
Proof.
  assert (H : ∀ q s, waitQueue s = q → ∃ k, served k [] s (drain_loop q s)); [|by apply H].
  clear s. induction q as [|r q IH]; intros s Hq; cbn [drain_loop]; [exists O; by apply served_none|].
  destruct (findIdleConnection s) as [c|].
  - destruct (IH (grant r c (set_queue q s)) eq_refl) as (k & [[y Hy] Hx]). exists (S k). unfold served. rewrite Hy, Hx, Hq.
    split; [by exists y|]. unfold reqs. cbn. rewrite fmap_app, <- !app_assoc. done.
  - exists O. destruct (canCreateConnection s); by apply served_none.
Qed.

Lemma hand_served c s : ∃ k, served k [] s (handConnectionToNextWaiter c s).
Proof.
  unfold handConnectionToNextWaiter. destruct (waitQueue s) as [|r q] eqn:Hw; [exists O; by apply served_none|].
  exists 1%nat. split; [exists []; cbn; by rewrite Hw, app_nil_r|]. unfold reqs. cbn. rewrite Hw, fmap_app. done.
Qed.

Lemma served_from k s0 s s' : waitQueue s0 = waitQueue s → reqs s0 = reqs s → served k [] s0 s' → served k [] s s'.
Proof. unfold served. by intros -> ->. Qed.

Lemma reqs_released n l s :
  leases s !! n = Some l → reqs (set_leases (<[n := mk_lease (l_req l) (l_conn l) true]> (leases s)) s) = reqs s.
Proof.
  intros Hn. unfold reqs. cbn. rewrite list_fmap_insert. apply list_insert_id. by rewrite list_lookup_fmap, Hn.
Qed.

Lemma health_served rest s : served 0 [] s (health_next rest s).
Proof. destruct rest; [by apply served_none|]. cbn. destruct (closing s); by apply served_none. Qed.

Lemma finish_served t ok s :
  ∃ k x, served k x s (finish t ok s) ∧ (x = [] ∨ waitQueue s = [] ∨ ∃ r, t = TAcquire r).
Proof.
  destruct t as [rs|r| | |c rest|rest|rest|]; ends.
  - destruct ok; [|exists O, []; split; [by apply served_none|by left]].
    destruct (acquire_all_served rs (set_flags true (closing s) false (created s).2)) as (x & Hx & Hn).
    exists O, x. split; [exact Hx|]. destruct (decide (waitQueue s = [])) as [H|H]; [by right; left|left; by apply Hn].
  - destruct ok; [|exists O, []; split; [by apply served_none|by left]]. exists O, [r]. cbn.
    split; [|right; right; by exists r]. split; [exists []; by rewrite app_nil_r|]. unfold reqs. cbn. by rewrite fmap_app.
  - destruct ok; [|exists O, []; split; [by apply served_none|by left]]. cbn [created].
    set (s1 := mk_st _ _ _ _ _ _ _ _ _ _ _ _ _ _ _). destruct (waitQueue s1) as [|r q] eqn:Hw.
    { exists O, []. split; [by apply served_none|by left]. }
    destruct (drain_served (grant r (mk_conn (next_obj s) (nextConnectionId s)) (set_queue q s1))) as (k & [[y Hy] Hx]).
    exists (S k), []. split; [|by left]. change (waitQueue s1) with (waitQueue s) in Hw. unfold served.
    change (waitQueue (grant r (mk_conn (next_obj s) (nextConnectionId s)) (set_queue q s1))) with q in *.
    rewrite Hy, Hx, Hw. split; [by exists y|]. unfold reqs. cbn. rewrite fmap_app, <- !app_assoc. done.
  - destruct (closing s); [exists O, []; split; [by apply served_none|by left]|]. unfold drainWaitQueue.
    destruct (_ || _); [exists O, []; split; [by apply served_none|by left]|].
    destruct (drain_served (set_draining true s)) as (k & Hk). exists k, []. split; [exact Hk|by left].
  - exists O, []. split; [|by left]. destruct ok; [apply health_served|by apply served_none].
  - exists O, []. split; [|by left]. destruct (_ && _); [by apply served_none|exact (health_served rest _)].
  - exists O, []. split; [|by left]. destruct ok; [exact (health_served rest (created s).2)|exact (health_served rest (create_failed s))].
  - exists O, []. split; [by apply served_none|by left].
Qed.

(** Waiters are served in the order in which they came: in any state, a turn other than a shutdown
    or a waiter's timeout serves a prefix of the queue and keeps the rest in place; nobody else is
    served while someone waits, except a request whose own connection was already being opened. *)
Theorem waiters_fifo e s :
  match e with EClose | ETimeout _ => False | _ => True end →
  ∃ k x, served k x s (turn e s) ∧
    (x = [] ∨ waitQueue s = [] ∨ ∃ n ok r, e = EDone n ok ∧ tasks s !! n = Some (TAcquire r)).
Proof.
  intros He. destruct e as [r|n retire|r| |n ok|]; cbn [turn]; [| |done| | |done].
  - unfold acquireConnection. destruct (initialized s).
    + destruct (acquire_body_served r s) as (x & Hx & Hn). exists O, x. split; [done|].
      destruct (decide (waitQueue s = [])) as [H|H]; [by right; left|left; by apply Hn].
    + exists O, []. split; [|by left]. destruct (initializing s); by apply served_none.
  - unfold release. destruct (leases s !! n) as [l|] eqn:Hl; [|exists O, []; split; [by apply served_none|by left]].
    destruct (l_released l); [exists O, []; split; [by apply served_none|by left]|].
    unfold releaseConnection. destruct retire.
    + exists O, []. split; [|by left]. set (s1 := set_leases _ s).
      by apply (served_from 0 s1); [|exact (reqs_released n l s Hl)|apply served_none].
    + destruct (hand_served (l_conn l) (unmark (l_conn l) (set_leases (<[n:=mk_lease (l_req l) (l_conn l) true]> (leases s)) s)))
        as (k & Hk). exists k, []. split; [|by left]. eapply served_from; [| |exact Hk]; [done|exact (reqs_released n l s Hl)].
  - exists O, []. split; [|by left]. unfold runHealthCheck. destruct (_ || _); [by apply served_none|apply health_served].
  - destruct (tasks s !! n) as [t|] eqn:Ht; [|exists O, []; split; [by apply served_none|by left]].
    destruct (finish_served t ok (set_tasks (delete n (tasks s)) s)) as (k & x & Hs & Hx). exists k, x. split; [exact Hs|].
    destruct Hx as [?|[?|[r ->]]]; [by left|right; by left|]. right. right. by exists n, ok, r.
Qed.

(** ** What the theorems leave out *)

(** A ping that fails on a connection leased since the check began takes the connection from
    under its holder, closed; and when the holder releases it, the next waiter gets it. *)
Theorem stale_connection_handed_over s n c rest m l r q :
  tasks s !! n = Some (TPing c rest) → leases s !! m = Some l → l_conn l = c → l_released l = false →
  waitQueue s = r :: q →
  let s1 := turn (EDone n false) s in
  let s2 := turn (ERelease m false) s1 in
  (leases s1 !! m = Some l ∧ obj c ∈ closed s1) ∧
  waitQueue s2 = q ∧ last (leases s2) = Some (mk_lease r c false) ∧ obj c ∈ closed s2.
Proof.
  intros Ht Hl Hc Hr Hq. cbv zeta. cbn [turn]. rewrite Ht. ends.
  set (s1 := start _ _). assert (Hl1 : leases s1 !! m = Some l) by done.
  assert (Hq1 : waitQueue s1 = r :: q) by done. assert (Hc1 : obj c ∈ closed s1) by (cbn; left).
  clearbody s1. split; [done|]. unfold release. rewrite Hl1, Hr. unfold releaseConnection, handConnectionToNextWaiter.
  rewrite Hc. cbn. rewrite Hq1. cbn. rewrite last_snoc. done.
Qed.

End pool.

(** The configured size is at least one and never above the configured maximum. *)
Theorem pool_configuration a b c g :
  getPoolConfiguration a b c = Ret g → 1 <= g_poolSize g <= g_poolMax g.
Proof.
  assert (Hp : ∀ n raw d x, 1 <= d → parsePositiveIntegerEnv n raw d = Ret x → 1 <= x).
  { intros n raw d x Hd. unfold parsePositiveIntegerEnv. destruct raw as [[|ch raw]|]; [by intros [= <-]| |by intros [= <-]].
    destruct (parse_int _) as [z|]; [|done]. destruct (Z.leb_spec z 0); [done|]. intros [= <-]. lia. }
  unfold getPoolConfiguration, mbind, outcome_bind, outcome_bind_def.
  destruct (parsePositiveIntegerEnv "DB_POOL_MIN" a DEFAULT_POOL_MIN) as [m|]; [|done].
  destruct (parsePositiveIntegerEnv "DB_POOL_MAX" b DEFAULT_POOL_MAX) as [x|] eqn:Hx; [|done].
  destruct (parsePositiveIntegerEnv "DB_POOL_SIZE" c _) as [z|] eqn:Hz; [|done]. intros [= <-]. cbn.
  apply Hp in Hx; [|done]. apply Hp in Hz; [lia|]. unfold DEFAULT_POOL_SIZE. lia.
Qed.

(** ** Transactions *)

Section transaction.
(** The data, and what the callback computes. *)
Context {D A : Type}.

(** One connection: the committed data, and the data of its open transaction. *)
Record db := mk_db { committed : D; work : option D }.

(** What the driver answers to each of the three statements. *)
Record driver := mk_driver { begin_answer : option jserror; commit_answer : option jserror; rollback_answer : option jserror }.

Definition statement (answer : option jserror) (f : db → outcome jserror db) : stx jserror db unit := λ d,
  match f d with
  | Throw e => (Throw e, d)
  | Ret d' => match answer with Some e => (Throw e, d) | None => (Ret (), d') end
  end.

Definition begin_immediate (d : db) : outcome jserror db :=
  match work d with
  | Some _ => Throw (EDb "cannot start a transaction within a transaction")
  | None => Ret (mk_db (committed d) (Some (committed d)))
  end.
Definition commit (d : db) : outcome jserror db :=
  match work d with Some w => Ret (mk_db w None) | None => Throw (EDb "cannot commit - no transaction is active") end.
Definition rollback (d : db) : outcome jserror db :=
  match work d with Some _ => Ret (mk_db (committed d) None) | None => Throw (EDb "cannot rollback - no transaction is active") end.

(** A statement outside [runTransaction] runs in the transaction the
    connection has, if it has one. *)
Definition plain_write (f : D → D) (d : db) : db :=
  match work d with Some w => mk_db (committed d) (Some (f w)) | None => mk_db (f (committed d)) None end.

(** The callback, with the operations it is given. *)
Definition callback_on (callback : D → outcome jserror A * D) : stx jserror db A := λ d,
  match work d with
  | Some w => let '(r, w') := callback w in (r, mk_db (committed d) (Some w'))
  | None => let '(r, c) := callback (committed d) in (r, mk_db c None)
  end.

(** On a connection just leased, which is released in every case. *)
Definition runTransaction (dr : driver) (callback : D → outcome jserror A * D) : stx jserror db A :=
  try_catch
    (statement (begin_answer dr) begin_immediate;;
     result ← callback_on callback;
     statement (commit_answer dr) commit;;
     mret result)
    (λ err, try_catch (statement (rollback_answer dr) rollback) (λ _, mret ());; throw err).

(** C29: On a connection without a transaction, and unless ROLLBACK fails, either everything the callback
    wrote is committed and its result returned, or nothing is and the error is thrown; the connection
    has no transaction afterwards. *)
Theorem transaction_atomic dr callback d :
  work d = None → rollback_answer dr = None →
  let '(r, d') := runTransaction dr callback d in
  work d' = None ∧
  match r with
  | Ret a => begin_answer dr = None ∧ commit_answer dr = None ∧ callback (committed d) = (Ret a, committed d')
  | Throw _ => committed d' = committed d
  end.
Proof.
  intros Hw Hr. unfold runTransaction, try_catch, statement, begin_immediate. stx_unfold. rewrite Hw, Hr.
  destruct (begin_answer dr) as [e|] eqn:Hb; cbn.
  - unfold rollback. rewrite Hw. cbn. done.
  - unfold callback_on. cbn. destruct (callback (committed d)) as [[a|e] w'] eqn:Hc; cbn; [|done].
    destruct (commit_answer dr) as [e|] eqn:Hm; cbn; done.
Qed.

(** If ROLLBACK fails the connection goes back to the pool with its transaction open: a write of
    another request that is answered with success is part of it, and is lost when the next
    transaction on the connection cleans up. *)
Theorem open_transaction_loses_writes dr dr' callback callback' e e' w d f :
  work d = None → begin_answer dr = None → callback (committed d) = (Throw e, w) → rollback_answer dr = Some e' →
  rollback_answer dr' = None →
  let d1 := (runTransaction dr callback d).2 in
  let d2 := plain_write f d1 in
  work d1 = Some w ∧ work d2 = Some (f w) ∧
  runTransaction dr' callback' d2 = (Throw (EDb "cannot start a transaction within a transaction"), mk_db (committed d) None).
Proof.
  intros Hw Hb Hc Hr Hr'. cbv zeta.
  assert (H1 : (runTransaction dr callback d).2 = mk_db (committed d) (Some w)).
  { unfold runTransaction, try_catch, statement, begin_immediate. stx_unfold. rewrite Hw, Hb, Hr. cbn.
    unfold callback_on. cbn. rewrite Hc. done. }
  rewrite H1. split; [done|]. split; [done|]. unfold runTransaction, try_catch, statement. cbn. stx_unfold.
  by rewrite Hr'.
Qed.

End transaction.

(** ** Concrete runs *)

Definition ex_two : list event := [EAcquire 1; EDone 0 true; EAcquire 2; EDone 0 true].
Definition ex_full : st := run 2 (ex_two ++ [EAcquire 3]) init_st.

(** A shutdown while a connection opens counts that connection twice: a pool of two then opens a
    third connection, and a lease from before the shutdown, released, gives its closed connection to
    the next waiter. *)
Theorem shutdown_breaks_pool :
  let s := run 2 [EAcquire 1; EDone 0 true; EAcquire 2; EClose; EDone 1 true; EDone 0 true;
                  EAcquire 3; EDone 0 true; EAcquire 4; EDone 0 true; EAcquire 5] init_st in
  length (connections s) = 3%nat ∧ pendingCreations s = -1 ∧ waitQueue s = [5] ∧
  last (leases (turn 2 (ERelease 0 false) s)) = Some (mk_lease 5 (mk_conn 1 1) false) ∧
  1 ∈ closed (turn 2 (ERelease 0 false) s).
Proof. vm_compute. split_and!; try done. left. Qed.

(** A waiter behind a connection that fails to open is not woken, although the
    pool has room. *)
Example failed_creation_strands_waiter :
  let s := run 2 [EAcquire 1; EDone 0 true; EAcquire 2; EAcquire 3; EDone 0 false] init_st in
  waitQueue s = [3] ∧ canCreateConnection 2 s = true ∧ tasks s = [].
Proof. vm_compute. auto. Qed.

Lemma run_reachable n l s0 s :
  rtc (step n) s0 s → Forall (λ e, match e with EClose | EDone _ false => False | _ => True end) l → rtc (step n) s0 (run n l s).
Proof.
  intros Hr Hl. revert s Hr. induction Hl as [|e l He _ IH]; intros s Hr; [done|]. apply IH.
  eapply rtc_r; [exact Hr|]. apply step_turn. destruct e as [| | | |k []|]; done.
Qed.
Lemma run_healthy n l s0 s :
  rtc (healthy_step n) s0 s → Forall (λ e, match e with EClose | EDone _ false => False | _ => True end) l →
  rtc (healthy_step n) s0 (run n l s).
Proof.
  intros Hr Hl. revert s Hr. induction Hl as [|e l He _ IH]; intros s Hr; [done|]. apply IH.
  eapply rtc_r; [exact Hr|]. apply healthy_turn. destruct e as [| | | |k []|]; done.
Qed.

Lemma leases_exclusive_witness :
  NoDup (held ex_full) ∧
  (∀ c, c ∈ held ex_full ↔ c ∈ connections ex_full ∧ in_use ex_full c = true) ∧
  (∀ c, c ∈ connections ex_full → obj c ∉ closed ex_full) ∧
  Z.of_nat (length (connections ex_full)) + Z.max 0 (pendingCreations ex_full) <= 2.
Proof.
  apply (leases_exclusive 2 ex_full ltac:(done)). apply run_reachable; [apply rtc_refl|]. by repeat constructor.
Defined.

Lemma no_idle_while_waiting_witness : Forall (λ c, in_use ex_full c = true) (connections ex_full).
Proof.
  apply Forall_forall, (no_idle_while_waiting 2 ex_full ltac:(done)); [|discriminate].
  apply run_healthy; [apply rtc_refl|]. by repeat constructor.
Defined.

Lemma timed_out_connection_retired_witness :
  let '(x, s') := statement_callback (statement_timeout Running) 0 ex_full in
  in_use ex_full (mk_conn 1 1) = true ∧ mk_conn 1 1 ∉ connections s' ∧ mk_conn 1 1 ∉ held s' ∧ 1 ∈ closed s'.
Proof.
  refine (timed_out_connection_retired 2 ex_full 0 (mk_lease 1 (mk_conn 1 1) false) ltac:(done) _ eq_refl eq_refl).
  apply run_reachable; [apply rtc_refl|]. by repeat constructor.
Defined.

Lemma waiters_fifo_witness :
  ∃ k x, served k x ex_full (turn 2 (ERelease 0 false) ex_full) ∧
    (x = [] ∨ waitQueue ex_full = [] ∨ ∃ n ok r, ERelease 0 false = EDone n ok ∧ tasks ex_full !! n = Some (TAcquire r)).
Proof. exact (waiters_fifo 2 (ERelease 0 false) ex_full I). Defined.

(** The check starts while the second connection is idle; requests take both. *)
Definition ex_pinged : st := run 2 (ex_two ++ [ERelease 1 false; EHealth; EAcquire 3; EAcquire 4]) init_st.

Lemma stale_connection_handed_over_witness :
  let s1 := turn 2 (EDone 0 false) ex_pinged in
  let s2 := turn 2 (ERelease 2 false) s1 in
  (leases s1 !! 2%nat = Some (mk_lease 3 (mk_conn 2 2) false) ∧ 2 ∈ closed s1) ∧
  waitQueue s2 = [] ∧ last (leases s2) = Some (mk_lease 4 (mk_conn 2 2) false) ∧ 2 ∈ closed s2.
Proof.
  exact (stale_connection_handed_over 2 ex_pinged 0 (mk_conn 2 2) [] 2 (mk_lease 3 (mk_conn 2 2) false) 4 []
    eq_refl eq_refl eq_refl eq_refl eq_refl).
Defined.

Lemma pool_configuration_witness : 1 <= 3 <= 3.
Proof. exact (pool_configuration None (Some "3") (Some "8") (mk_config 3 1 3) ltac:(by vm_compute)). Defined.

Definition ex_driver (b c r : option jserror) : driver := mk_driver b c r.
Definition ex_body (z : Z) : outcome jserror string * Z := (Ret "done", z + 5).
Definition ex_throw (z : Z) : outcome jserror string * Z := (Throw (EPlain "no"), z + 5).
Definition ex_io : jserror := EDb "disk I/O error".

Lemma transaction_atomic_witness :
  runTransaction (ex_driver None (Some ex_io) None) ex_body (mk_db 10 None) = (Throw ex_io, mk_db 10 None) ∧
  work (mk_db 10 None) = (None : option Z) ∧ committed (mk_db 10 (None : option Z)) = 10.
Proof.
  split; [reflexivity|].
  exact (transaction_atomic (ex_driver None (Some ex_io) None) ex_body (mk_db 10 None) eq_refl eq_refl).
Defined.

Lemma open_transaction_loses_writes_witness :
  runTransaction (ex_driver None None None) ex_body
    (plain_write (λ z, z + 1) (runTransaction (ex_driver None None (Some ex_io)) ex_throw (mk_db 10 None)).2) =
  (Throw (EDb "cannot start a transaction within a transaction"), mk_db 10 None).
Proof.
  exact (proj2 (proj2 (open_transaction_loses_writes (ex_driver None None (Some ex_io)) (ex_driver None None None) ex_throw ex_body
    (EPlain "no") ex_io 15 (mk_db 10 None) (λ z, z + 1) eq_refl eq_refl eq_refl eq_refl eq_refl))).
Defined.

End DbPool.
