(* ===== verification/Replay.v ===== *)
(** * Repeated requests ([src/src/utils/replayDetector.js],
      [src/src/middleware/replayDetection.js],
      [src/src/config/replayDetection.js],
      [src/src/middleware/deduplication.js])

    The fingerprint of a request and the store that counts fingerprints, and
    the cache that answers a repeated request with the first response.  Both
    bring a body into a canonical form first: the fields of every object,
    however deep, are sorted.  SHA-256 and [localeCompare] are parameters. *)

From stdpp Require sorting.
From S2P Require Import Prelude JsString JsNumber JsMap JsJson.
Local Open Scope Z_scope.

Module Replay.

(** ** Canonical values *)

(** The own fields of an object are listed with the array indices first, in
    numeric order, then in the order of their creation. *)
Definition is_index (k : string) : bool :=
  all_digits k && bool_decide (nat_to_string (digits_val k) = k) && (digits_val k <? 2 ^ 32 - 1).
Definition own_order (fields : list (string * json)) : list (string * json) :=
  js_sort (λ a b, digits_val a.1 - digits_val b.1) (filter (λ p, is_index p.1 = true) fields) ++
  filter (λ p, is_index p.1 = false) fields.

(** A copy with the fields of every object created in the order of a
    comparator, without those that [keep] refuses. *)
Fixpoint canonical (cmp : string → string → Z) (keep : string → bool) (j : json) : json :=
  match j with
  | JArr l => JArr ((fix go l := match l with [] => [] | x :: l => canonical cmp keep x :: go l end) l)
  | JObj fields =>
      let done_ := (fix go l := match l with
                                | [] => []
                                | (k, v) :: l => (k, canonical cmp keep v) :: go l
                                end) fields in
      JObj (own_order (filter (λ p, keep p.1 = true) (select_fields (Some (js_sort cmp done_.*1)) done_)))
  | _ => j
  end.

Lemma canonical_arr cmp keep l : canonical cmp keep (JArr l) = JArr (canonical cmp keep <$> l).
Proof. reflexivity. Qed.

Lemma canonical_obj cmp keep fields :
  canonical cmp keep (JObj fields) =
    let vs := prod_map id (canonical cmp keep) <$> fields in
    JObj (own_order (filter (λ p, keep p.1 = true) (select_fields (Some (js_sort cmp vs.*1)) vs))).
Proof.
  cbn [canonical].
  assert (He : ∀ l : list (string * json),
    (fix go l := match l with [] => [] | (k, v) :: l => (k, canonical cmp keep v) :: go l end) l =
    prod_map id (canonical cmp keep) <$> l) by (induction l as [|[k v] l IH]; [done|]; cbn; by rewrite IH).
  by rewrite He.
Qed.

(** The same value up to the order of the fields of its objects, at every
    depth. *)
Inductive same_value : json → json → Prop :=
| same_refl j : same_value j j
| same_arr l l' : Forall2 same_value l l' → same_value (JArr l) (JArr l')
| same_obj fields mid fields' :
    NoDup fields.*1 → Forall2 (λ p q, p.1 = q.1 ∧ same_value p.2 q.2) fields mid → mid ≡ₚ fields' →
    same_value (JObj fields) (JObj fields').

(** A comparator that orders all keys. *)
Record total_order (cmp : string → string → Z) : Prop := mk_total_order {
  cmp_total : ∀ a b, cmp a b <= 0 ∨ cmp b a <= 0;
  cmp_trans : ∀ a b c, cmp a b <= 0 → cmp b c <= 0 → cmp a c <= 0;
  cmp_antisym : ∀ a b, cmp a b <= 0 → cmp b a <= 0 → a = b
}.

Lemma js_sort_keys cmp l l' : total_order cmp → l ≡ₚ l' → js_sort cmp l = js_sort cmp l'.
Proof.
  intros [Htot Htr Hanti] Hp. apply (sorting.StronglySorted_unique_strong (λ a b, cmp a b <= 0)).
  - intros x y _ _. apply Hanti.
  - by apply js_sort_sorted.
  - by apply js_sort_sorted.
  - by rewrite !js_sort_perm.
Qed.

Lemma str_cmp_total_order : total_order str_cmp.
Proof.
  split.
  - intros x y. rewrite !str_cmp_le. destruct (str_ltb y x) eqn:H; [|by left]. right. by apply str_ltb_asym.
  - intros x y z. rewrite !str_cmp_le. intros. by eapply str_geb_trans.
  - intros x y. rewrite !str_cmp_le. intros. by apply str_ltb_antisym.
Qed.

(** The canonical form depends on the value only. *)
Lemma canonical_same cmp keep j j' : total_order cmp → same_value j j' → canonical cmp keep j = canonical cmp keep j'.
Proof.
  intros Ho. revert j j'. fix IH 3. intros j j' [j0|l l' Hl|fields mid fields' Hnd Hf Hp].
  - done.
  - rewrite !canonical_arr. f_equal. induction Hl as [|x y l l' Hxy _ IHl]; [done|]. cbn. f_equal; [by apply IH|done].
  - rewrite !canonical_obj. cbn [JsJson.select_fields].
    assert (Hm : prod_map id (canonical cmp keep) <$> fields = prod_map id (canonical cmp keep) <$> mid).
    { clear -IH Hf. induction Hf as [|[k v] [k' v'] l l' [Hk Hv] _ IHl]; [done|]. cbn in *.
      subst. f_equal; [|done]. unfold prod_map. cbn. f_equal. by apply IH. }
    assert (Hnd' : NoDup (prod_map id (canonical cmp keep) <$> mid).*1).
    { rewrite <- Hm, <- list_fmap_compose. done. }
    rewrite Hm. unfold select_fields.
    assert (Hpm : prod_map id (canonical cmp keep) <$> mid ≡ₚ prod_map id (canonical cmp keep) <$> fields') by by rewrite Hp.
    rewrite (js_sort_keys cmp _ (prod_map id (canonical cmp keep) <$> fields').*1 Ho) by by rewrite Hpm.
    do 3 f_equal. apply list_omap_ext, Forall_Forall2_diag, Forall_forall. intros k _. f_equal. by apply map_get_perm.
Qed.

(** ** Fingerprints *)

(** The values JavaScript takes for true. *)
Definition truthy (j : json) : bool :=
  match j with
  | JNull => false
  | JBool b => b
  | JNum n => num_truthy n
  | JStr s => negb (is_empty s)
  | JArr _ | JObj _ => true
  end.
(** [a || b], where a missing value is [None]. *)
Definition or_json (a : option json) (b : json) : json :=
  match a with Some v => if truthy v then v else b | None => b end.

Definition sortKeys : json → json := canonical str_cmp (λ k, negb (bool_decide (k = "__proto__"))).

Record request := mk_request {
  q_method : string;
  q_path : string;
  q_query : option json;
  q_body : option json;
  q_apiKey_id : option json;    (* req.apiKey && req.apiKey.id *)
  q_user_id : option json;      (* req.user && req.user.id *)
  q_clientIp : option json;
  q_ip : option json;
}.

Definition callerId (r : request) : json :=
  or_json (q_apiKey_id r) (or_json (q_user_id r) (or_json (q_clientIp r) (or_json (q_ip r) (JStr "anonymous")))).

Definition components (r : request) : json :=
  JObj [("method", JStr (q_method r)); ("path", JStr (q_path r)); ("query", or_json (q_query r) (JObj []));
        ("body", or_json (q_body r) (JStr "")); ("callerId", callerId r)].

Definition computeFingerprint (sha256 : string → string) (r : request) : string :=
  sha256 (stringify None (sortKeys (components r))).

(** ** TrackingStore *)

(** Times by fingerprint, in the order of their first request. *)
Definition store : Type := list (string * list Z).

Definition record (fp : string) (t : Z) (s : store) : store :=
  map_set s fp (default [] (map_get s fp) ++ [t]).
Definition getTimestamps (now : Z) (fp : string) (windowMs : Z) (s : store) : list Z :=
  match map_get s fp with None => [] | Some ts => filter (λ t, now - windowMs <= t) ts end.
Definition getCount (now : Z) (fp : string) (windowMs : Z) (s : store) : Z :=
  Z.of_nat (length (getTimestamps now fp windowMs s)).

(** The fingerprints and the timestamps removed, and the store. *)
Definition cleanup (now windowMs : Z) (s : store) : Z * Z * store :=
  let recent ts := filter (λ t, now - windowMs <= t) ts in
  let s' := map_entries (λ ts, match recent ts with [] => None | l => Some l end) s in
  (Z.of_nat (length (filter (λ e, recent e.2 = []) s)),
   foldr (λ e n, Z.of_nat (length e.2) - Z.of_nat (length (recent e.2)) + n) 0 s, s').

(** [Math.min(...l)] and [Math.max(...l)], [null] for an empty list. *)
Definition oldest (l : list Z) : option Z := match l with [] => None | x :: l => Some (foldl Z.min x l) end.
Definition newest (l : list Z) : option Z := match l with [] => None | x :: l => Some (foldl Z.max x l) end.

Record fp_data := mk_fp_data { fingerprint : string; count : Z; oldestTimestamp : option Z; newestTimestamp : option Z }.
Record stats := mk_stats {
  totalFingerprints : Z;
  totalTimestamps : Z;
  topFingerprints : list fp_data;
  st_oldest : option Z;
  st_newest : option Z;
}.
Definition getStats (s : store) : stats :=
  let data := js_sort (λ a b, count b - count a)
    ((λ e, mk_fp_data e.1 (Z.of_nat (length e.2)) (oldest e.2) (newest e.2)) <$> s) in
  mk_stats (map_size s) (foldr (λ e n, Z.of_nat (length e.2) + n) 0 s) (take 10 data)
    (oldest (omap oldestTimestamp data)) (newest (omap newestTimestamp data)).

(** ** The middleware *)

Record config := mk_config { threshold : Z; windowSeconds : Z; cleanupIntervalSeconds : Z }.

Definition parseAndValidateInt (value : option string) (defaultValue : Z) (minValue : option Z) : Z :=
  match value with
  | None => defaultValue
  | Some v =>
      if is_empty v then defaultValue
      else match parse_int v with
           | None => defaultValue
           | Some parsed =>
               match minValue with
               | Some m => if parsed <? m then defaultValue else parsed
               | None => parsed
               end
           end
  end.
(** The environment: REPLAY_THRESHOLD, REPLAY_WINDOW_SECONDS and
    REPLAY_CLEANUP_INTERVAL_SECONDS. *)
Definition loadConfig (threshold_ window_ interval : option string) : config :=
  mk_config (parseAndValidateInt threshold_ 3 (Some 2)) (parseAndValidateInt window_ 60 (Some 10))
            (parseAndValidateInt interval 60 None).

Definition EXEMPT_PATHS : list string := ["/health"; "/health/live"; "/health/ready"].

(** The headers X-Replay-Count and X-Replay-Window; X-Replay-Detected goes
    with them. *)
Definition runCheck (cfg : config) (now : Z) (fp : string) (s : store) : option (Z * Z) * store :=
  let s := record fp now s in
  let n := getCount now fp (windowSeconds cfg * 1000) s in
  (if n >? threshold cfg then Some (n, windowSeconds cfg) else None, s).

Definition replayDetectionMiddleware (sha256 : string → string) (cfg : config) (now : Z) (r : request) (s : store)
  : option (Z * Z) * store :=
  if bool_decide (q_path r ∈ EXEMPT_PATHS) then (None, s)
  else runCheck cfg now (computeFingerprint sha256 r) s.

(** *** Requests and clean-ups, one after the other *)

Inductive event := ERequest (t : Z) (r : request) | EClean (t : Z).
Definition event_time (e : event) : Z := match e with ERequest t _ | EClean t => t end.
Definition tracked (e : event) : bool :=
  match e with ERequest _ r => negb (bool_decide (q_path r ∈ EXEMPT_PATHS)) | EClean _ => false end.

Section detection.
Context (sha256 : string → string) (cfg : config).

Definition handle (e : event) (s : store) : store :=
  match e with
  | ERequest t r => (replayDetectionMiddleware sha256 cfg t r s).2
  | EClean t => (cleanup t (windowSeconds cfg * 1000) s).2
  end.

(** The times at which a fingerprint was seen. *)
Definition seen (fp : string) (l : list event) : list Z :=
  omap (λ e, match e with
             | ERequest t r => if tracked e && bool_decide (computeFingerprint sha256 r = fp) then Some t else None
             | EClean _ => None
             end) l.

(** The store knows every time that is still in the window at [now], and
    later. *)
Definition knows (now : Z) (l : list event) (s : store) : Prop :=
  NoDup s.*1 ∧
  ∀ fp t, now <= t →
    filter (λ x, t - windowSeconds cfg * 1000 <= x) (default [] (map_get s fp)) =
    filter (λ x, t - windowSeconds cfg * 1000 <= x) (seen fp l).

Fixpoint ordered (now : Z) (l : list event) : Prop :=
  match l with [] => True | e :: l => now <= event_time e ∧ ordered (event_time e) l end.

Lemma seen_later now now' l s : now <= now' → knows now l s → knows now' l s.
Proof. intros Hn [Hnd Hk]. split; [done|]. intros fp t Ht. apply Hk. lia. Qed.

Lemma seen_snoc fp l e : seen fp (l ++ [e]) = seen fp l ++ seen fp [e].
Proof. apply omap_app. Qed.
Lemma seen_request fp t r :
  seen fp [ERequest t r] =
    if negb (bool_decide (q_path r ∈ EXEMPT_PATHS)) && bool_decide (computeFingerprint sha256 r = fp) then [t] else [].
Proof. unfold seen, tracked. cbn [omap list_omap]. by destruct (_ && _). Qed.

Lemma handle_knows now l e s : knows now l s → now <= event_time e → knows (event_time e) (l ++ [e]) (handle e s).
Proof.
  intros [Hnd Hk] Hn. destruct e as [t r|t]; cbn [event_time handle] in *.
  - assert (Hr : ∀ fp, seen fp (l ++ [ERequest t r]) = seen fp l ++ seen fp [ERequest t r]) by (intros; apply seen_snoc).
    setoid_rewrite seen_request in Hr. unfold replayDetectionMiddleware.
    destruct (bool_decide (q_path r ∈ EXEMPT_PATHS)) eqn:Hex; cbn [snd runCheck negb andb] in *.
    + split; [done|]. intros fp u Hu. rewrite Hr, app_nil_r. apply Hk. lia.
    + split; [by apply map_set_NoDup|]. intros fp u Hu. rewrite Hr. unfold record.
      rewrite map_get_set. destruct (decide (computeFingerprint sha256 r = fp)) as [<-|Hne].
      * rewrite bool_decide_true by done. cbn [from_option id]. rewrite !filter_app. f_equal. apply Hk. lia.
      * rewrite bool_decide_false by done. rewrite app_nil_r. apply Hk. lia.
  - split; [by apply map_entries_NoDup|].
    intros fp u Hu. rewrite seen_snoc. change (seen fp [EClean t]) with (@nil Z). rewrite app_nil_r.
    unfold cleanup. cbn [snd]. rewrite map_get_entries by done.
    rewrite <- (Hk fp u) by lia. destruct (map_get s fp) as [ts|]; [|done]. cbn [mbind option_bind from_option id].
    assert (Hf : filter (λ x, u - windowSeconds cfg * 1000 <= x) ts =
                 filter (λ x, u - windowSeconds cfg * 1000 <= x) (filter (λ x, t - windowSeconds cfg * 1000 <= x) ts)).
    { rewrite list_filter_filter. apply list_filter_iff. intros x. lia. }
    rewrite Hf. by destruct (filter (λ x, t - _ <= x) ts).
Qed.

Lemma handled_knows now l e0 s :
  knows now e0 s → ordered now l → knows (foldl (λ _ e, event_time e) now l) (e0 ++ l) (foldl (λ s e, handle e s) s l).
Proof.
  revert now e0 s. induction l as [|e l IH]; intros now e0 s Hk Ho; [by rewrite app_nil_r|].
  destruct Ho as [Hn Ho]. cbn. rewrite cons_middle, app_assoc. apply IH; [|done]. by eapply handle_knows.
Qed.

(** The times of a fingerprint in the window that ends with this request. *)
Definition in_window (t : Z) (fp : string) (l : list event) : list Z :=
  filter (λ x, t - windowSeconds cfg * 1000 <= x) (seen fp l).

(** C34: The detection is exact: whatever requests and clean-ups came before, in the order of
    time, a request outside the exempt paths is reported when, itself included, more than the
    threshold of requests with its fingerprint came in the window, and with their number. *)
Theorem detection_exact now l t r :
  ordered now l → foldl (λ _ e, event_time e) now l <= t →
  (replayDetectionMiddleware sha256 cfg t r (foldl (λ s e, handle e s) [] l)).1 =
    let n := Z.of_nat (length (in_window t (computeFingerprint sha256 r) (l ++ [ERequest t r]))) in
    if bool_decide (q_path r ∈ EXEMPT_PATHS) then None
    else if n >? threshold cfg then Some (n, windowSeconds cfg) else None.
Proof.
  intros Ho Ht.
  assert (Hk : knows (foldl (λ _ e, event_time e) now l) l (foldl (λ s e, handle e s) [] l)).
  { apply (handled_knows now l [] []); [split; [constructor|done]|done]. }
  apply (handle_knows _ _ (ERequest t r)) in Hk as [_ Hk]; [|done].
  specialize (Hk (computeFingerprint sha256 r) t ltac:(cbn; lia)). unfold in_window. rewrite <- Hk.
  cbn [handle]. unfold replayDetectionMiddleware. destruct (bool_decide _); [done|]. cbn [runCheck fst snd].
  unfold runCheck. cbn [fst snd]. unfold getCount, getTimestamps, record.
  by rewrite map_get_set_eq.
Qed.

End detection.

(** *** Stability *)

Lemma same_truthy j j' : same_value j j' → truthy j = truthy j'.
Proof. by intros []. Qed.

Lemma or_json_same a a' b : option_Forall2 same_value a a' → same_value (or_json a b) (or_json a' b).
Proof.
  intros [v v' Hv|]; [|apply same_refl]. cbn. rewrite (same_truthy _ _ Hv). destruct (truthy v'); [done|apply same_refl].
Qed.

(** A client that sends the fields of the query or of the body in another order, at any
    depth, has the same fingerprint. *)
Theorem fingerprint_stable sha256 r query body :
  option_Forall2 same_value (q_query r) query → option_Forall2 same_value (q_body r) body →
  computeFingerprint sha256 r =
  computeFingerprint sha256 (mk_request (q_method r) (q_path r) query body (q_apiKey_id r) (q_user_id r)
                                        (q_clientIp r) (q_ip r)).
Proof.
  intros Hq Hb. unfold computeFingerprint, sortKeys. do 2 f_equal. apply canonical_same; [apply str_cmp_total_order|].
  unfold components. eapply same_obj; [|  |reflexivity].
  - apply (bool_decide_unpack _). by vm_compute.
  - repeat (apply Forall2_cons; split; [split; [done|]|]); cbn; try apply same_refl; [by apply or_json_same..|constructor].
Qed.

(** ** Deduplication by the body *)

Section deduplication.
Context (sha256 : string → string) (localeCompare : string → string → Z).

(** The replacer of [JSON.stringify] sorts the fields of each object before it
    is listed; [String] of a body that is not an object. *)
Definition normaliseBody (body : option json) : string :=
  match body with
  | None | Some JNull => ""
  | Some (JBool b) => if b then "true" else "false"
  | Some (JNum n) => num_to_string n
  | Some (JStr s) => s
  | Some j => stringify None (canonical localeCompare (λ _, true) j)
  end.

Definition computeHash (apiKey method path : string) (body : option json) : string :=
  sha256 (apiKey +:+ ":" +:+ method +:+ ":" +:+ path +:+ ":" +:+ normaliseBody body).

Record cached := mk_cached { c_status : Z; c_body : json; c_expiresAt : Z }.
Definition cache : Type := list (string * cached).

Definition evictExpired (now : Z) (c : cache) : cache :=
  map_entries (λ e, if c_expiresAt e <=? now then None else Some e) c.
Definition clearCache : cache := [].

Record dedup_request := mk_dedup_request {
  d_method : string;
  d_path : string;
  d_body : option json;
  d_idempotency : option string;      (* idempotency-key *)
  d_xidempotency : option string;     (* x-idempotency-key *)
  d_key_id : option string;           (* req.apiKey.id, printed *)
  d_key : option string;              (* req.apiKey.key *)
  d_header : option string;           (* x-api-key *)
}.

Definition MUTABLE_METHODS : list string := ["POST"; "PUT"; "PATCH"; "DELETE"].

Definition or_string (a b : option string) : option string :=
  match a with Some s => if is_empty s then b else a | None => b end.

Definition caller (r : dedup_request) : string :=
  default "anonymous" (or_string (d_key_id r) (or_string (d_key r) (or_string (d_header r) None))).

Definition request_hash (r : dedup_request) : string :=
  computeHash (caller r) (d_method r) (d_path r) (d_body r).

(** What the middleware does with a request: nothing, an answer of the cache,
    or the handler, whose response is stored under the hash. *)
Inductive decision := Pass | Answer (status : Z) (body : json) | Run (hash : string).

Definition deduplicationMiddleware (now : Z) (r : dedup_request) (c : cache) : decision * cache :=
  if negb (bool_decide (d_method r ∈ MUTABLE_METHODS)) then (Pass, c)
  else if bool_decide (is_Some (or_string (d_idempotency r) (or_string (d_xidempotency r) None))) then (Pass, c)
  else
    let c := evictExpired now c in
    let hash := request_hash r in
    match map_get c hash with
    | Some e => if c_expiresAt e >? now then (Answer (c_status e) (c_body e), c) else (Run hash, c)
    | None => (Run hash, c)
    end.

(** [interceptJson], when the handler answers. *)
Definition interceptJson (ttlMs now : Z) (hash : string) (statusCode : Z) (data : json) (c : cache) : cache :=
  if (200 <=? statusCode) && (statusCode <? 300) then map_set c hash (mk_cached statusCode data (now + ttlMs)) else c.

(** The requests this middleware looks at. *)
Definition eligible (r : dedup_request) : bool :=
  bool_decide (d_method r ∈ MUTABLE_METHODS) &&
  bool_decide (or_string (d_idempotency r) (or_string (d_xidempotency r) None) = None).

(** Requests that arrive and handlers that answer, in any order. *)
Inductive turn := TRequest (now : Z) (r : dedup_request) | TAnswer (now : Z) (hash : string) (status : Z) (body : json).
Definition turn_time (u : turn) : Z := match u with TRequest now _ | TAnswer now _ _ _ => now end.
Definition run_turn (ttlMs : Z) (u : turn) (c : cache) : cache :=
  match u with
  | TRequest now r => (deduplicationMiddleware now r c).2
  | TAnswer now hash status body => interceptJson ttlMs now hash status body c
  end.
Definition answers (hash : string) (u : turn) : bool :=
  match u with TAnswer _ h status _ => bool_decide (h = hash) && (200 <=? status) && (status <? 300) | _ => false end.

Definition wf (c : cache) : Prop := NoDup c.*1.

Lemma evict_get now c h : wf c → map_get (evictExpired now c) h =
  match map_get c h with Some e => if c_expiresAt e <=? now then None else Some e | None => None end.
Proof. intros. unfold evictExpired. rewrite map_get_entries by done. by destruct (map_get c h). Qed.

Lemma run_turn_wf ttl u c : wf c → wf (run_turn ttl u c).
Proof.
  intros Hw. destruct u; cbn; unfold deduplicationMiddleware, interceptJson.
  - repeat case_match; cbn; try done; by apply map_entries_NoDup.
  - case_match; [by apply map_set_NoDup|done].
Qed.

(** An entry that has not expired stays, until its request is answered again. *)
Lemma run_turn_keeps ttl u c h e :
  wf c → map_get c h = Some e → answers h u = false → turn_time u < c_expiresAt e → map_get (run_turn ttl u c) h = Some e.
Proof.
  intros Hw Hg Ha Ht. destruct u as [now r|now h' status body]; cbn in *.
  - assert (He : map_get (evictExpired now c) h = Some e).
    { rewrite evict_get, Hg by done. by rewrite (proj2 (Z.leb_gt _ _) Ht). }
    unfold deduplicationMiddleware. by repeat case_match.
  - unfold interceptJson. destruct ((200 <=? status) && (status <? 300)) eqn:Hs; [|done].
    rewrite map_get_set. case_decide as Hh; [|done]. subst. rewrite bool_decide_true in Ha by done. cbn in Ha. congruence.
Qed.

Lemma turns_keep ttl l c h e :
  wf c → map_get c h = Some e → Forall (λ u, answers h u = false ∧ turn_time u < c_expiresAt e) l →
  wf (foldl (λ c u, run_turn ttl u c) c l) ∧ map_get (foldl (λ c u, run_turn ttl u c) c l) h = Some e.
Proof.
  revert c. induction l as [|u l IH]; intros c Hw Hg Hl; [done|].
  apply Forall_cons in Hl as [[Ha Ht] Hl]. cbn. apply IH; [by apply run_turn_wf|by apply run_turn_keeps|done].
Qed.

(** A repeated request is answered once: after a handler answered with success, every
    eligible request with the same hash within the time to live gets that answer and its handler
    does not run, whatever other requests come and answer in between. *)
Theorem repeated_request_answered ttl l c t r now status body :
  wf c → eligible r = true → 200 <= status < 300 →
  Forall (λ u, answers (request_hash r) u = false ∧ turn_time u < t + ttl) l → now < t + ttl →
  (deduplicationMiddleware now r
     (foldl (λ c u, run_turn ttl u c) (interceptJson ttl t (request_hash r) status body c) l)).1 =
    Answer status body.
Proof.
  intros Hw He Hs Hl Hn. apply andb_true_iff in He as [Hm Hi]. apply bool_decide_eq_true in Hi.
  set (c0 := interceptJson _ _ _ _ _ _).
  assert (Hc0 : wf c0 ∧ map_get c0 (request_hash r) = Some (mk_cached status body (t + ttl))).
  { unfold c0, interceptJson. rewrite (proj2 (Z.leb_le _ _)), (proj2 (Z.ltb_lt _ _)) by lia. cbn.
    split; [by apply map_set_NoDup|by rewrite map_get_set_eq]. }
  destruct Hc0 as [Hw0 Hg0]. destruct (turns_keep ttl l _ _ _ Hw0 Hg0 Hl) as [Hw1 Hg1].
  unfold deduplicationMiddleware. rewrite Hm, Hi. cbn [negb].
  rewrite (bool_decide_false (is_Some None)) by (by intros [? ?]).
  rewrite evict_get, Hg1 by done. cbn [c_expiresAt].
  rewrite (proj2 (Z.leb_gt _ _)) by lia. cbn [c_expiresAt c_status c_body].
  by replace (t + ttl >? now) with true by lia.
Qed.

(** The response is stored when it is sent: repetitions that arrive before the first handler
    answers all run. *)
Theorem concurrent_duplicates_run c now r n :
  wf c → eligible r = true → (∀ e, map_get c (request_hash r) = Some e → c_expiresAt e <= now) →
  let after := Nat.iter n (λ c, (deduplicationMiddleware now r c).2) c in
  (deduplicationMiddleware now r after).1 = Run (request_hash r).
Proof.
  intros Hw He Hold. apply andb_true_iff in He as [Hm Hi]. apply bool_decide_eq_true in Hi.
  assert (Hstep : ∀ c, wf c → (∀ e, map_get c (request_hash r) = Some e → c_expiresAt e <= now) →
    deduplicationMiddleware now r c = (Run (request_hash r), evictExpired now c) ∧
    map_get (evictExpired now c) (request_hash r) = None).
  { intros c' Hw' Hold'. unfold deduplicationMiddleware. rewrite Hm, Hi. cbn [negb].
    rewrite (bool_decide_false (is_Some None)) by (by intros [? ?]).
    assert (Hn : map_get (evictExpired now c') (request_hash r) = None); [|by rewrite Hn].
    rewrite evict_get by done. destruct (map_get c' _) as [e|] eqn:Hg; [|done].
    by rewrite (proj2 (Z.leb_le _ _) (Hold' _ eq_refl)). }
  intros after. assert (Hn : wf after ∧ ∀ e, map_get after (request_hash r) = Some e → c_expiresAt e <= now).
  { unfold after. clear after. induction n as [|n [Hw' Hold']]; [done|]. change (Nat.iter (S n) ?f c) with (f (Nat.iter n f c)).
    cbv beta. destruct (Hstep _ Hw' Hold') as [-> Hg]. cbn. split; [by apply map_entries_NoDup|]. by rewrite Hg. }
  destruct Hn as [Hw' Hold']. by destruct (Hstep _ Hw' Hold') as [-> _].
Qed.

(** A body with its fields in another order, at any depth, has the same hash, if the
    collation orders all keys. *)
Theorem body_order_irrelevant k m p body body' :
  total_order localeCompare → same_value body body' →
  computeHash k m p (Some body) = computeHash k m p (Some body').
Proof.
  intros Ho Hs. unfold computeHash, normaliseBody. do 7 f_equal.
  pose proof (canonical_same localeCompare (λ _, true) _ _ Ho Hs) as Hc. by destruct Hs; rewrite ?Hc.
Qed.

End deduplication.

(** ** Examples *)

Definition ex_cfg : config := loadConfig (Some "2") (Some "5") None.
(** The window of 5 seconds is below the minimum: the default applies. *)
Example config_minimum : ex_cfg = mk_config 2 60 60.
Proof. reflexivity. Qed.

Definition ex_req (body : json) : request := mk_request "POST" "/donations" None (Some body) (Some (JNum (num_of_Z 7))) None None None.
Definition ex_body : json := JObj [("amount", JStr "5"); ("to", JObj [("b", JNull); ("a", JBool true)])].
Definition ex_body' : json := JObj [("to", JObj [("a", JBool true); ("b", JNull)]); ("amount", JStr "5")].

Lemma ex_same : same_value ex_body ex_body'.
Proof.
  eapply (same_obj _ [("amount", JStr "5"); ("to", JObj [("a", JBool true); ("b", JNull)])]).
  - apply (bool_decide_unpack _). by vm_compute.
  - apply Forall2_cons. split; [split; [done|apply same_refl]|]. apply Forall2_cons. split; [split; [done|]|constructor].
    eapply (same_obj _ [("b", JNull); ("a", JBool true)]).
    + apply (bool_decide_unpack _). by vm_compute.
    + repeat (apply Forall2_cons; split; [split; [done|apply same_refl]|]). constructor.
    + apply Permutation_swap.
  - apply Permutation_swap.
Qed.

Lemma detection_exact_witness :
  let l := [ERequest 1000 (ex_req ex_body); EClean 2000; ERequest 3000 (ex_req ex_body')] in
  (replayDetectionMiddleware id ex_cfg 4000 (ex_req ex_body) (foldl (λ s e, handle id ex_cfg e s) [] l)).1 = Some (3, 60).
Proof.
  intros l. etransitivity; [apply (detection_exact id ex_cfg 0 l 4000 (ex_req ex_body))|].
  - cbn. repeat split; lia.
  - cbn. lia.
  - vm_compute. reflexivity.
Defined.

Lemma fingerprint_stable_witness :
  computeFingerprint id (ex_req ex_body) = computeFingerprint id (ex_req ex_body').
Proof.
  apply (fingerprint_stable id (ex_req ex_body) None (Some ex_body')); [constructor|constructor; exact ex_same].
Defined.

Definition ex_dedup (body : json) : dedup_request :=
  mk_dedup_request "POST" "/donations" (Some body) None None (Some "7") None None.

Lemma repeated_request_answered_witness :
  let c := interceptJson 60000 1000 (request_hash id str_cmp (ex_dedup ex_body)) 201 JNull [] in
  (deduplicationMiddleware id str_cmp 50000 (ex_dedup ex_body)
     (run_turn id str_cmp 60000 (TRequest 2000 (ex_dedup JNull)) c)).1 = Answer 201 JNull.
Proof.
  apply (repeated_request_answered id str_cmp 60000 [TRequest 2000 (ex_dedup JNull)] [] 1000 (ex_dedup ex_body) 50000 201 JNull).
  - constructor.
  - reflexivity.
  - lia.
  - repeat constructor.
  - lia.
Defined.

Lemma concurrent_duplicates_run_witness :
  let r := ex_dedup ex_body in
  (deduplicationMiddleware id str_cmp 1000 r (Nat.iter 3 (λ c, (deduplicationMiddleware id str_cmp 1000 r c).2) [])).1 =
    Run (request_hash id str_cmp r).
Proof.
  apply (concurrent_duplicates_run id str_cmp [] 1000 (ex_dedup ex_body) 3); [constructor|reflexivity|done].
Defined.

Lemma body_order_irrelevant_witness :
  computeHash id str_cmp "7" "POST" "/donations" (Some ex_body) = computeHash id str_cmp "7" "POST" "/donations" (Some ex_body').
Proof. apply (body_order_irrelevant id str_cmp); [exact str_cmp_total_order|exact ex_same]. Defined.

End Replay.
