(* ===== verification/Pagination.v ===== *)
(** * Pages of lists ([utils/pagination.js], [utils/validationHelpers.js])

    A list is read page by page with a cursor: the time and the identifier of
    a row.  Tables are paged by SQL ([sql_page], with the clause of
    [buildCursorWhereClause] and the two ways in which its callers order the
    rows), lists in memory by [paginateCollection].  Both implement the
    windows of a sorted list, the record [pager], against which the theorems
    about following cursors are proved.  What [new Date(text)] makes of a text
    is an argument: beyond the ISO format it is left to the implementation of
    the language.  A cursor is modelled decoded; identifiers in cursors of
    tables are the integers of the column. *)

From Stdlib Require Import SpecFloat Ascii.
From stdpp Require sorting.
From S2P Require Import Prelude JsString JsNumber JsMap Errors.
Local Open Scope Z_scope.

Module Pagination.

Definition DEFAULT_LIMIT : Z := 20.
Definition MAX_LIMIT : Z := 100.

Inductive direction := Next | Prev.
#[global] Instance direction_eq_dec : EqDecision direction.
Proof. solve_decision. Defined.

(** ** Query parameters *)

(** A raw value: missing, a number, a text, or something else. *)
Inductive raw := RMissing | RNumber (x : num) | RString (s : string) | ROther.

Definition isStrictIntegerString (value : string) : bool :=
  match trim value with
  | String "-" r => all_digits r
  | t => all_digits t
  end.

(** [Number(text)] of a strict integer.  The integer stands for its double:
    beyond 2^53 both are above every maximum used. *)
Definition strict_integer (value : string) : Z :=
  match trim value with
  | String "-" r => - digits_val r
  | t => digits_val t
  end.

Definition in_bounds (min max z : Z) : option Z := if (z <? min) || (max <? z) then None else Some z.

(** [None] is [valid: false]. *)
Definition validateInteger (value : raw) (min max default_ : Z) : option Z :=
  match value with
  | RMissing | RString "" => Some default_
  | RNumber x => if num_is_integer x then z ← num_floor_Z x; in_bounds min max z else None
  | RString s => if isStrictIntegerString s then in_bounds min max (strict_integer s) else None
  | ROther => None
  end.

Definition validateLimit (value : raw) (default_ max : Z) : option Z := validateInteger value 1 max default_.

Definition parse_direction (value : raw) : option direction :=
  match value with
  | RMissing | RString "" => Some Next
  | RString s => if bool_decide (s = "next") then Some Next else if bool_decide (s = "prev") then Some Prev else None
  | _ => None
  end.

Definition INVALID_REQUEST : jserror := ValidationError_with (code_ref "INVALID_REQUEST").
Definition INVALID_LIMIT : jserror := ValidationError_with (code_ref "INVALID_LIMIT").

Record cursor := mk_cursor { c_timestamp : string; c_id : Z }.
#[global] Instance cursor_eq_dec : EqDecision cursor.
Proof. solve_decision. Defined.

(** A cursor as it arrives: none, not the encoding of an object, or the two
    fields, [None] where they are of another type. *)
Inductive cursor_arg := NoCursor | BadCursor | Payload (timestamp : option string) (id : option Z).

Section dates.
(** [new Date(x).toISOString()], [None] for an invalid date. *)
Context (iso : string → option string).

Definition decodeCursor (c : cursor_arg) : outcome jserror (option cursor) :=
  match c with
  | NoCursor => Ret None
  | Payload (Some t) (Some i) =>
      if is_empty (trim t) then Throw INVALID_REQUEST
      else match iso t with Some t => Ret (Some (mk_cursor t i)) | None => Throw INVALID_REQUEST end
  | _ => Throw INVALID_REQUEST
  end.

Definition parseSnapshotAt (value : raw) : outcome jserror (option string) :=
  match value with
  | RMissing | RString "" => Ret None
  | RString s => match iso s with Some t => Ret (Some t) | None => Throw INVALID_REQUEST end
  | _ => Throw INVALID_REQUEST
  end.

Definition validateSnapshotAt (value : raw) : outcome jserror (option string) :=
  match value with
  | RMissing | RString "" => Ret None
  | RString s => match iso (trim s) with Some t => Ret (Some t) | None => Throw INVALID_REQUEST end
  | _ => Throw INVALID_REQUEST
  end.

Record page_query := mk_page_query {
  q_cursor : option cursor;
  q_limit : Z;
  q_direction : direction;
  q_snapshotAt : option string;
}.

Definition parseCursorPaginationQuery (limit direction : raw) (cursor : cursor_arg) (snapshotAt : raw)
  : outcome jserror page_query :=
  match validateInteger limit 1 MAX_LIMIT DEFAULT_LIMIT with
  | None => Throw INVALID_LIMIT
  | Some l =>
      match parse_direction direction with
      | None => Throw INVALID_REQUEST
      | Some d =>
          c ← decodeCursor cursor;
          s ← parseSnapshotAt snapshotAt;
          Ret (mk_page_query c l d s)
      end
  end.

(** ** Tables *)

Section table.
(** The two columns of the order. *)
Context {A : Type} (ts : A → string) (id : A → Z).

Definition cursor_of (a : A) : cursor := mk_cursor (ts a) (id a).

(** [new Date(...)] of an invalid date has no ISO text. *)
Definition createCursorFromItem (item : option A) : outcome jserror (option cursor) :=
  match item with
  | None => Ret None
  | Some a => match iso (ts a) with Some t => Ret (Some (mk_cursor t (id a))) | None => Throw ERange end
  end.

Definition in_snapshot (snapshotAt : option string) (a : A) : bool :=
  match snapshotAt with Some s => negb (str_ltb s (ts a)) | None => true end.

Definition before_cursor (d : direction) (c : cursor) (a : A) : bool :=
  match d with
  | Prev => str_ltb (c_timestamp c) (ts a) || (bool_decide (ts a = c_timestamp c) && (c_id c <? id a))
  | Next => str_ltb (ts a) (c_timestamp c) || (bool_decide (ts a = c_timestamp c) && (id a <? c_id c))
  end.

Definition buildCursorWhereClause (c : option cursor) (d : direction) (snapshotAt : option string) (a : A) : bool :=
  match c with Some c => before_cursor d c a | None => true end && in_snapshot snapshotAt a.

Record meta := mk_meta { next_cursor : option cursor; prev_cursor : option cursor }.

Definition buildCursorMeta (items : list A) (d : direction) (hasMore hasCursor : bool) : outcome jserror meta :=
  let firstItem := if match d with Next => hasCursor | Prev => hasMore end then head items else None in
  let lastItem := if match d with Next => hasMore | Prev => hasCursor end then last items else None in
  n ← createCursorFromItem lastItem;
  p ← createCursorFromItem firstItem;
  Ret (mk_meta n p).

(** ORDER BY timestamp, id: ascending *)
Definition cmp_key (a b : A) : Z :=
  if str_ltb (ts a) (ts b) then -1 else if str_ltb (ts b) (ts a) then 1 else id a - id b.
Definition order_by (d : direction) : A → A → Z :=
  match d with Next => λ a b, cmp_key b a | Prev => cmp_key end.

(** One request: the rows of the table that match its other filters, the order
    the caller asks for (by the direction, or always descending). *)
Definition sql_page (by_direction : bool) (rows : list A) (c : option cursor) (d : direction) (limit : nat)
  (snapshotAt : option string) : outcome jserror (list A * meta) :=
  let order := if by_direction then d else Next in
  let found := take (limit + 1) (js_sort (order_by order) (filter (λ a, buildCursorWhereClause c d snapshotAt a = true) rows)) in
  let hasMore := bool_decide (limit < length found)%nat in
  let pageRows := take limit found in
  let items := match order with Prev => reverse pageRows | Next => pageRows end in
  m ← buildCursorMeta items d hasMore (bool_decide (is_Some c));
  Ret (items, m).
End table.
End dates.

(** ** Lists in memory *)

Section collection.
(** [getTime] of the time of an item, its identifier as text, and the
    collation of identifiers.  Times stand for their ISO texts in cursors. *)
Context {A : Type} (time : A → Z) (id : A → string) (localeCompare : string → string → Z).

Definition key_of (a : A) : Z * string := (time a, id a).

Definition compareItemsDescending (left right : A) : Z :=
  if negb (time left =? time right) then time right - time left else localeCompare (id right) (id left).

Definition collection_sorted (items : list A) (snapshotAt : option Z) : list A :=
  js_sort compareItemsDescending
    (match snapshotAt with Some s => filter (λ a, time a <= s) items | None => items end).

Definition paginateCollection (items : list A) (c : option (Z * string)) (limit : nat) (d : direction)
  (snapshotAt : option Z) : outcome jserror (list A * nat * option (Z * string) * option (Z * string)) :=
  let sortedItems := collection_sorted items snapshotAt in
  let totalCount := length sortedItems in
  match match c with
        | None => Some (O, limit)
        | Some c =>
            cursorIndex ← find_index (λ a, bool_decide (key_of a = c)) sortedItems;
            Some (match d with
                  | Next => (S cursorIndex, (S cursorIndex + limit)%nat)
                  | Prev => ((cursorIndex - limit)%nat, cursorIndex)
                  end)
        end with
  | None => Throw INVALID_REQUEST
  | Some (startIndex, endIndex) =>
      let pageItems := slice startIndex endIndex sortedItems in
      let next_cursor := if bool_decide (endIndex < totalCount)%nat then key_of <$> last pageItems else None in
      let prev_cursor := if bool_decide (0 < startIndex)%nat then key_of <$> head pageItems else None in
      Ret (pageItems, totalCount, next_cursor, prev_cursor)
  end.
End collection.

(** ** What both promise: the windows of a list *)

Section pager.
Context {A C : Type} (key : A → C).

(** Where a cursor leads in the list: behind the row it names. *)
Definition at_pos (l : list A) (pos : nat) (c : option C) : Prop :=
  match c with
  | None => pos = O
  | Some c => ∃ n a, pos = S n ∧ l !! n = Some a ∧ c = key a
  end.

Record answer := mk_answer { an_items : list A; an_next : option C; an_prev : option C }.

(** [page] shows the list [l] in windows of [limit]. *)
Record pager (l : list A) (limit : nat) (page : option C → direction → outcome jserror answer) : Prop := {
  pg_next pos c :
    at_pos l pos c →
    let w := take limit (drop pos l) in
    page c Next = Ret (mk_answer w (if bool_decide (pos + limit < length l)%nat then key <$> last w else None)
                         (match c with Some _ => key <$> head w | None => None end));
  pg_prev n a :
    l !! n = Some a →
    let w := drop (n - limit) (take n l) in
    page (Some (key a)) Prev = Ret (mk_answer w (key <$> last w)
                                      (if bool_decide (limit < n)%nat then key <$> head w else None));
}.

(** A client that follows the next cursors; [fuel] bounds the pages. *)
Fixpoint walk (page : option C → direction → outcome jserror answer) (fuel : nat) (c : option C) : outcome jserror (list A) :=
  match fuel with
  | O => Ret []
  | S fuel =>
      r ← page c Next;
      match an_next r with
      | None => Ret (an_items r)
      | Some c => rest ← walk page fuel (Some c); Ret (an_items r ++ rest)
      end
  end.

Context (l : list A) (limit : nat) (page : option C → direction → outcome jserror answer).
Context (Hp : pager l limit page) (Hlimit : (0 < limit)%nat).

Lemma last_window pos : (pos + limit < length l)%nat → last (take limit (drop pos l)) = l !! (pos + limit - 1)%nat.
Proof.
  intros Hlt. rewrite last_lookup, length_take, length_drop. rewrite lookup_take_lt by lia.
  rewrite lookup_drop. f_equal. lia.
Qed.

Lemma walk_from fuel pos c :
  at_pos l pos c → (length l - pos < fuel)%nat → walk page fuel c = Ret (drop pos l).
Proof.
  revert pos c. induction fuel as [|fuel IH]; intros pos c Hc Hf; [lia|]. cbn [walk].
  rewrite (pg_next _ _ _ Hp pos c Hc). cbn [mbind outcome_bind outcome_bind_def an_next an_items].
  case_bool_decide as Hm; cbn [mbind].
  - rewrite last_window by done. destruct (lookup_lt_is_Some_2 l (pos + limit - 1)%nat) as [a Ha]; [lia|].
    rewrite Ha. cbn [fmap option_fmap option_map].
    rewrite (IH (pos + limit)%nat).
    + cbn. f_equal. rewrite <- drop_drop. apply take_drop.
    + exists (pos + limit - 1)%nat, a. split; [lia|done].
    + lia.
  - rewrite take_ge; [done|]. rewrite length_drop. lia.
Qed.
End pager.

(** ** A table implements the windows *)

Section table_pager.
Context (iso : string → option string).
Context {A : Type} (ts : A → string) (id : A → Z).

Lemma cmp_key_total a b : cmp_key ts id a b <= 0 ∨ cmp_key ts id b a <= 0.
Proof.
  unfold cmp_key. destruct (str_ltb (ts a) (ts b)) eqn:H1; [left; lia|].
  destruct (str_ltb (ts b) (ts a)) eqn:H2; [right; lia|lia].
Qed.

Lemma cmp_key_le a b :
  cmp_key ts id a b <= 0 ↔ str_ltb (ts a) (ts b) = true ∨ (ts a = ts b ∧ id a <= id b).
Proof.
  unfold cmp_key. destruct (str_ltb (ts a) (ts b)) eqn:H1; [split; [auto|lia]|].
  destruct (str_ltb (ts b) (ts a)) eqn:H2.
  - split; [lia|]. intros [?|[He _]]; [done|]. rewrite He, str_ltb_irrefl in H2. done.
  - pose proof (str_ltb_antisym _ _ H1 H2). split; [right; split; [done|lia]|intros [?|[_ ?]]; [done|lia]].
Qed.

Lemma cmp_key_trans a b c : cmp_key ts id a b <= 0 → cmp_key ts id b c <= 0 → cmp_key ts id a c <= 0.
Proof.
  rewrite !cmp_key_le. intros [H1|[H1 H1']] [H2|[H2 H2']].
  - left. by eapply str_ltb_trans.
  - left. congruence.
  - left. congruence.
  - right. split; [congruence|lia].
Qed.

Lemma order_total d a b : order_by ts id d a b <= 0 ∨ order_by ts id d b a <= 0.
Proof. destruct d; apply cmp_key_total. Qed.
Lemma order_trans d a b c : order_by ts id d a b <= 0 → order_by ts id d b c <= 0 → order_by ts id d a c <= 0.
Proof. destruct d; cbn; eauto using cmp_key_trans. Qed.

Definition ordered (d : direction) (l : list A) : list A := js_sort (order_by ts id d) l.

Lemma ordered_sorted d l : StronglySorted (λ a b, order_by ts id d a b <= 0) (ordered d l).
Proof. apply js_sort_sorted; [apply order_total|apply order_trans]. Qed.
Lemma ordered_perm d l : ordered d l ≡ₚ l.
Proof. apply js_sort_perm. Qed.

(** With distinct identifiers the order is the only one. *)
Lemma ordered_unique d l l' :
  NoDup (id <$> l) → l' ≡ₚ l → StronglySorted (λ a b, order_by ts id d a b <= 0) l' → ordered d l = l'.
Proof.
  intros Hnd Hperm Hs. eapply sorting.StronglySorted_unique_strong; [|apply ordered_sorted|exact Hs|by rewrite ordered_perm].
  intros x y Hx Hy Hxy Hyx. rewrite ordered_perm in Hx. rewrite Hperm in Hy.
  eapply (fmap_unique id); [done..|].
  destruct d; cbn in Hxy, Hyx; apply cmp_key_le in Hxy; apply cmp_key_le in Hyx; 
    destruct Hxy as [Hxy|[He Hxy]], Hyx as [Hyx|[He' Hyx]]; try lia;
    try (pose proof (str_ltb_asym _ _ Hxy)); try (pose proof (str_ltb_asym _ _ Hyx));
    rewrite ?He, ?He', ?str_ltb_irrefl in *; congruence.
Qed.

Lemma filter_sorted (R : A → A → Prop) (P : A → Prop) `{∀ x, Decision (P x)} l :
  StronglySorted R l → StronglySorted R (filter P l).
Proof.
  induction 1 as [|x l Hs IH Hx]; [constructor|]. rewrite filter_cons. case_decide; [|done].
  constructor; [done|]. rewrite Forall_forall in *. intros y [_ Hy]%list_elem_of_filter. auto.
Qed.

Lemma filter_ids (P : A → Prop) `{∀ x, Decision (P x)} l : NoDup (id <$> l) → NoDup (id <$> filter P l).
Proof.
  induction l as [|x l IH]; [done|]. rewrite fmap_cons. intros [Hx Hl]%NoDup_cons. rewrite filter_cons.
  case_decide; [|by apply IH]. rewrite fmap_cons. apply NoDup_cons. split; [|by apply IH]. intros (y & Hy & Hin)%list_elem_of_fmap. apply Hx. rewrite Hy.
  apply list_elem_of_fmap_2. by apply list_elem_of_filter in Hin as [_ ?].
Qed.

Lemma ordered_filter d (P : A → Prop) `{∀ x, Decision (P x)} l :
  NoDup (id <$> l) → ordered d (filter P l) = filter P (ordered d l).
Proof.
  intros Hnd. apply ordered_unique; [by apply filter_ids| |apply filter_sorted, ordered_sorted].
  by rewrite ordered_perm.
Qed.

Lemma reverse_sorted (R : A → A → Prop) l : StronglySorted R l → StronglySorted (λ a b, R b a) (reverse l).
Proof.
  induction 1 as [|x l Hs IH Hx]; [constructor|]. rewrite reverse_cons.
  apply sorting.StronglySorted_app_2; [|done|repeat constructor].
  intros a b Ha ->%list_elem_of_singleton. rewrite elem_of_reverse in Ha. rewrite Forall_forall in Hx. auto.
Qed.

Lemma ordered_reverse l : NoDup (id <$> l) → ordered Prev l = reverse (ordered Next l).
Proof.
  intros Hnd. apply ordered_unique; [done|by rewrite reverse_Permutation, ordered_perm|].
  apply (reverse_sorted _ _ (ordered_sorted Next l)).
Qed.

(** The test of a cursor cuts the sorted list at its row. *)
Lemma before_next a b : before_cursor ts id Next (cursor_of ts id a) b = negb (cmp_key ts id a b <=? 0).
Proof.
  unfold before_cursor, cmp_key. cbn.
  destruct (str_ltb (ts b) (ts a)) eqn:H1; [by rewrite (str_ltb_asym _ _ H1)|]. cbn.
  destruct (str_ltb (ts a) (ts b)) eqn:H2.
  - rewrite bool_decide_false; [done|]. intros He. by rewrite He, str_ltb_irrefl in H2.
  - rewrite bool_decide_true by by rewrite (str_ltb_antisym _ _ H1 H2). cbn. lia.
Qed.

Lemma before_prev a b : before_cursor ts id Prev (cursor_of ts id a) b = negb (cmp_key ts id b a <=? 0).
Proof.
  unfold before_cursor, cmp_key. cbn.
  destruct (str_ltb (ts a) (ts b)) eqn:H1; [by rewrite (str_ltb_asym _ _ H1)|]. cbn.
  destruct (str_ltb (ts b) (ts a)) eqn:H2.
  - rewrite bool_decide_false; [done|]. intros He. by rewrite He, str_ltb_irrefl in H2.
  - rewrite bool_decide_true by by rewrite (str_ltb_antisym _ _ H1 H2). cbn. lia.
Qed.

Lemma cmp_key_distinct a b : id a ≠ id b → cmp_key ts id a b <= 0 → (cmp_key ts id b a <=? 0) = false.
Proof.
  intros Hne Hab%cmp_key_le. apply Z.leb_gt, Z.nle_gt. intros Hba%cmp_key_le.
  destruct Hab as [Hab|[He Hab]], Hba as [Hba|[He' Hba]]; try lia.
  - rewrite (str_ltb_asym _ _ Hab) in Hba. done.
  - by rewrite He', str_ltb_irrefl in Hab.
  - by rewrite He, str_ltb_irrefl in Hba.
Qed.

Lemma cut_at l1 a l2 :
  StronglySorted (λ a b, cmp_key ts id b a <= 0) (l1 ++ a :: l2) → NoDup (id <$> l1 ++ a :: l2) →
  filter (λ x, before_cursor ts id Next (cursor_of ts id a) x = true) (l1 ++ a :: l2) = l2 ∧
  filter (λ x, before_cursor ts id Prev (cursor_of ts id a) x = true) (l1 ++ a :: l2) = l1.
Proof.
  intros Hs Hnd. destruct (StronglySorted_pair _ _ _ _ Hs) as [H1 H2].
  assert (Hne : ∀ x, x ∈ l1 ∨ x ∈ l2 → id x ≠ id a).
  { rewrite fmap_app, fmap_cons in Hnd. apply NoDup_app in Hnd as (_ & Hd & [Hn _]%NoDup_cons).
    intros x [Hx|Hx] He.
    - apply (Hd (id x)); [by apply list_elem_of_fmap_2|]. rewrite He. left.
    - apply Hn. rewrite <- He. by apply list_elem_of_fmap_2. }
  assert (Ha : cmp_key ts id a a <= 0) by (apply cmp_key_le; right; split; [done|lia]).
  rewrite !filter_app, !filter_cons, before_next, before_prev, (proj2 (Z.leb_le _ _) Ha). cbn [negb].
  rewrite !decide_False by done. split.
  - rewrite filter_none, filter_all; [done| |].
    + apply Forall_forall. intros x Hx. rewrite before_next. apply negb_true_iff. apply cmp_key_distinct; auto.
    + apply Forall_forall. intros x Hx. rewrite before_next, (proj2 (Z.leb_le _ _) (H1 x Hx)). done.
  - rewrite filter_all, filter_none; [by rewrite app_nil_r| |].
    + apply Forall_forall. intros x Hx. rewrite before_prev, (proj2 (Z.leb_le _ _) (H2 x Hx)). done.
    + apply Forall_forall. intros x Hx. rewrite before_prev. apply negb_true_iff. apply cmp_key_distinct; [apply not_eq_sym|]; auto.
Qed.

Section pages.
Context (rows : list A) (limit : nat) (snapshotAt : option string).
(** Rows have distinct identifiers, and their times are in the form in which
    a cursor holds them. *)
Context (Hids : NoDup (id <$> rows)) (Hiso : ∀ a, a ∈ rows → iso (ts a) = Some (ts a)).

(** What the pages show: the rows of the snapshot, the newest first. *)
Definition shown : list A := ordered Next (filter (λ a, in_snapshot ts snapshotAt a = true) rows).

Definition table_page (c : option cursor) (d : direction) : outcome jserror (answer (A := A) (C := cursor)) :=
  '(items, m) ← sql_page iso ts id true rows c d limit snapshotAt;
  Ret (mk_answer items (next_cursor m) (prev_cursor m)).

Lemma shown_elem a : a ∈ shown → a ∈ rows.
Proof. unfold shown. rewrite ordered_perm. by intros [_ ?]%list_elem_of_filter. Qed.

Lemma shown_ids : NoDup (id <$> shown).
Proof. unfold shown. rewrite ordered_perm. by apply filter_ids. Qed.

Lemma item_cursor (o : option A) :
  (∀ a, o = Some a → a ∈ rows) → createCursorFromItem iso ts id o = Ret (cursor_of ts id <$> o).
Proof. destruct o as [a|]; [|done]. intros Ha. cbn. by rewrite Hiso by auto. Qed.

(** The rows found, in the order asked for. *)
Lemma found_rows d c :
  js_sort (order_by ts id d) (filter (λ a, buildCursorWhereClause ts id c d snapshotAt a = true) rows) =
  (match d with Next => λ l, l | Prev => reverse end)
    (match c with
     | None => shown
     | Some c => filter (λ a, before_cursor ts id d c a = true) shown
     end).
Proof.
  transitivity (ordered d (match c with
    | None => filter (λ a, in_snapshot ts snapshotAt a = true) rows
    | Some c => filter (λ a, before_cursor ts id d c a = true) (filter (λ a, in_snapshot ts snapshotAt a = true) rows)
    end)).
  { unfold ordered. f_equal. unfold buildCursorWhereClause. destruct c as [c|].
    - rewrite list_filter_filter. apply list_filter_iff. intros a. by rewrite andb_true_iff.
    - by apply list_filter_iff. }
  set (l := filter (λ a, in_snapshot ts snapshotAt a = true) rows).
  assert (Hl : NoDup (id <$> l)) by (by apply filter_ids). unfold shown. fold l.
  destruct c as [c|], d.
  - by apply ordered_filter.
  - rewrite ordered_filter, ordered_reverse by done. apply filter_reverse.
  - done.
  - by apply ordered_reverse.
Qed.

Lemma cut_shown n a :
  shown !! n = Some a →
  filter (λ x, before_cursor ts id Next (cursor_of ts id a) x = true) shown = drop (S n) shown ∧
  filter (λ x, before_cursor ts id Prev (cursor_of ts id a) x = true) shown = take n shown.
Proof.
  intros Ha. pose proof (take_drop_middle shown n a Ha) as Hm.
  pose proof (ordered_sorted Next (filter (λ a, in_snapshot ts snapshotAt a = true) rows)) as Hs.
  fold shown in Hs. rewrite <- Hm in Hs at 1. pose proof shown_ids as Hnd. rewrite <- Hm in Hnd.
  destruct (cut_at _ _ _ Hs Hnd) as [H1 H2]. by rewrite Hm in H1, H2.
Qed.

Lemma meta_window w d hasMore hasCursor :
  w `sublist_of` shown →
  buildCursorMeta iso ts id w d hasMore hasCursor =
  Ret (mk_meta (if match d with Next => hasMore | Prev => hasCursor end then cursor_of ts id <$> last w else None)
               (if match d with Next => hasCursor | Prev => hasMore end then cursor_of ts id <$> head w else None)).
Proof.
  intros Hw. assert (Hin : ∀ a, a ∈ w → a ∈ rows) by (intros a Ha; by eapply shown_elem, elem_of_sublist).
  unfold buildCursorMeta. rewrite !item_cursor; cbn.
  - by destruct d, hasMore, hasCursor.
  - intros a Ha. destruct (match d with Next => hasMore | Prev => hasCursor end); [|done]. apply Hin.
    by apply last_Some_elem_of.
  - intros a Ha. destruct (match d with Next => hasCursor | Prev => hasMore end); [|done]. apply Hin.
    destruct w; [done|]. injection Ha as ->. left.
Qed.

Lemma take_window {B} (l : list B) : take limit (take (limit + 1) l) = take limit l.
Proof. rewrite take_take. f_equal. lia. Qed.

Lemma more_window {B} (l : list B) : bool_decide (limit < length (take (limit + 1) l))%nat = bool_decide (limit < length l)%nat.
Proof. apply bool_decide_ext. rewrite length_take. lia. Qed.

Lemma page_next pos c :
  at_pos (cursor_of ts id) shown pos c →
  table_page c Next =
  Ret (mk_answer (take limit (drop pos shown))
         (if bool_decide (pos + limit < length shown)%nat then cursor_of ts id <$> last (take limit (drop pos shown)) else None)
         (match c with Some _ => cursor_of ts id <$> head (take limit (drop pos shown)) | None => None end)).
Proof.
  intros Hc. unfold table_page, sql_page. cbv zeta. rewrite found_rows.
  replace (match c with Some c => filter (λ a, before_cursor ts id Next c a = true) shown | None => shown end)
    with (drop pos shown).
  2:{ destruct c as [c|]; [|by rewrite Hc]. destruct Hc as (n & a & -> & Ha & ->). symmetry. by apply cut_shown. }
  rewrite take_window, more_window, meta_window by (etransitivity; [apply sublist_take|apply sublist_drop]).
  cbn. do 2 f_equal.
  - rewrite length_drop. rewrite (bool_decide_ext (limit < length shown - pos)%nat (pos + limit < length shown)%nat) by lia. done.
  - by destruct c.
Qed.

Lemma page_prev n a :
  shown !! n = Some a →
  let w := drop (n - limit) (take n shown) in
  table_page (Some (cursor_of ts id a)) Prev =
  Ret (mk_answer w (cursor_of ts id <$> last w) (if bool_decide (limit < n)%nat then cursor_of ts id <$> head w else None)).
Proof.
  intros Ha w. unfold table_page, sql_page. cbv zeta. rewrite found_rows, (proj2 (cut_shown n a Ha)).
  pose proof (lookup_lt_Some _ _ _ Ha) as Hlt.
  rewrite take_window, more_window, length_reverse, length_take, Nat.min_l by lia.
  assert (Hw : reverse (take limit (reverse (take n shown))) = w).
  { rewrite take_reverse, reverse_involutive, length_take, Nat.min_l by lia. done. }
  rewrite Hw, meta_window by (etransitivity; [apply sublist_drop|apply sublist_take]). done.
Qed.
End pages.
End table_pager.

(** Paging a table by SQL, ordered by the direction, shows the windows of its
    rows: rows need distinct identifiers and times in the form of cursors. *)
Theorem table_is_pager (iso : string → option string) {A} (ts : A → string) (id : A → Z) rows limit snapshotAt :
  NoDup (id <$> rows) → (∀ a, a ∈ rows → iso (ts a) = Some (ts a)) →
  pager (cursor_of ts id) (shown ts id rows snapshotAt) limit (table_page iso ts id rows limit snapshotAt).
Proof. intros Hids Hiso. split; [by apply page_next|by apply page_prev]. Qed.

(** ** A list in memory implements the windows *)

Section collection_pager.
Context {A : Type} (time : A → Z) (id : A → string) (localeCompare : string → string → Z).
Context (items : list A) (limit : nat) (snapshotAt : option Z).

Definition collection_page (c : option (Z * string)) (d : direction)
  : outcome jserror (answer (A := A) (C := Z * string)) :=
  '(w, total, n, p) ← paginateCollection time id localeCompare items c limit d snapshotAt;
  Ret (mk_answer w n p).

Let l := collection_sorted time id localeCompare items snapshotAt.

Lemma find_key n a : NoDup (id <$> l) → l !! n = Some a → find_index (λ x, bool_decide (key_of time id x = key_of time id a)) l = Some n.
Proof.
  intros Hnd Ha. rewrite <- (take_drop_middle l n a Ha) in Hnd |- *.
  pose proof (lookup_lt_Some _ _ _ Ha) as Hlt.
  rewrite find_index_app.
  - cbn [find_index]. rewrite bool_decide_true by done. cbn. f_equal. rewrite length_take. lia.
  - rewrite fmap_app, fmap_cons in Hnd. apply NoDup_app in Hnd as (_ & Hd & _).
    apply Forall_forall. intros x Hx. apply bool_decide_false. intros [= _ He].
    apply (Hd (id x)); [by apply list_elem_of_fmap_2|]. rewrite He. left.
Qed.

Lemma collection_next pos c :
  NoDup (id <$> l) → at_pos (key_of time id) l pos c →
  collection_page c Next =
  Ret (mk_answer (take limit (drop pos l))
         (if bool_decide (pos + limit < length l)%nat then key_of time id <$> last (take limit (drop pos l)) else None)
         (match c with Some _ => key_of time id <$> head (take limit (drop pos l)) | None => None end)).
Proof.
  intros Hnd Hc. unfold collection_page, paginateCollection. cbv zeta. fold l. destruct c as [c|].
  - destruct Hc as (n & a & -> & Ha & ->). rewrite (find_key n a Hnd Ha). unfold slice. cbn -[take drop].
    replace (n + limit - n)%nat with limit by lia. done.
  - cbn in Hc. subst pos. unfold slice. rewrite Nat.sub_0_r. done.
Qed.

Lemma collection_prev n a :
  NoDup (id <$> l) → l !! n = Some a →
  let w := drop (n - limit) (take n l) in
  collection_page (Some (key_of time id a)) Prev =
  Ret (mk_answer w (key_of time id <$> last w) (if bool_decide (limit < n)%nat then key_of time id <$> head w else None)).
Proof.
  intros Hnd Ha w. unfold collection_page, paginateCollection. cbv zeta. fold l. rewrite (find_key n a Hnd Ha).
  cbn -[take drop slice]. pose proof (lookup_lt_Some _ _ _ Ha) as Hlt. rewrite bool_decide_true by done.
  replace (slice (n - limit) n l) with w by (unfold w, slice; by rewrite skipn_firstn_comm).
  rewrite (bool_decide_ext (0 < n - limit)%nat (limit < n)%nat) by lia. done.
Qed.
End collection_pager.

(** So does paging a list in memory; the sorted list is cut by position, so
    this holds for any collation. *)
Theorem collection_is_pager {A} (time : A → Z) (id : A → string) localeCompare items limit snapshotAt :
  NoDup (id <$> items) →
  pager (key_of time id) (collection_sorted time id localeCompare items snapshotAt) limit
    (collection_page time id localeCompare items limit snapshotAt).
Proof.
  intros Hids. assert (NoDup (id <$> collection_sorted time id localeCompare items snapshotAt)) as Hnd.
  { unfold collection_sorted. rewrite js_sort_perm. destruct snapshotAt as [s|]; [|done].
    revert Hids. clear. induction items as [|x l IH]; [done|]. rewrite fmap_cons. intros [Hx Hl]%NoDup_cons.
    rewrite filter_cons. case_decide; [|by apply IH]. rewrite fmap_cons. apply NoDup_cons. split; [|by apply IH].
    intros (y & Hy & Hin)%list_elem_of_fmap. apply Hx. rewrite Hy. apply list_elem_of_fmap_2.
    by apply list_elem_of_filter in Hin as [_ ?]. }
  split; [intros pos c Hc; by apply collection_next|intros n a Ha; by apply collection_prev].
Qed.

Lemma sql_page_elem iso {A} (ts : A → string) (id : A → Z) by_direction rows c d limit snapshotAt items m a :
  sql_page iso ts id by_direction rows c d limit snapshotAt = Ret (items, m) → a ∈ items → a ∈ rows.
Proof.
  unfold sql_page. cbv zeta. set (found := take (limit + 1) _). destruct (buildCursorMeta _ _ _ _ _ _ _) as [m'|]; [|done].
  intros [= <- _] Ha. assert (Hf : a ∈ found).
  { destruct (if by_direction then d else Next); [|rewrite elem_of_reverse in Ha];
      (eapply elem_of_sublist; [exact Ha|apply sublist_take]). }
  eapply elem_of_sublist in Hf; [|apply sublist_take]. rewrite js_sort_perm in Hf. by apply list_elem_of_filter in Hf as [_ ?].
Qed.

(** ** What a client sees *)

(** Following the next cursors shows the whole list, each row once, and ends:
    the pages are at most one more than the rows. *)
Theorem walk_shows_all {A C} (key : A → C) l limit page :
  pager key l limit page → (0 < limit)%nat → walk page (S (length l)) None = Ret l.
Proof. intros Hp Hl. rewrite (walk_from key l limit page Hp Hl _ 0%nat); [done|done|lia]. Qed.

(** The previous cursor of a page leads back to the page before it. *)
Theorem previous_page {A C} (key : A → C) l limit page pos c :
  pager key l limit page → at_pos key l (pos + limit) (Some c) →
  ∃ r, page (Some c) Next = Ret r ∧
    ∀ p, an_prev r = Some p → ∃ r', page (Some p) Prev = Ret r' ∧ an_items r' = take limit (drop pos l).
Proof.
  intros Hp Hc. eexists. split; [by eapply pg_next|]. cbn. intros p Hprev.
  destruct (head (take limit (drop (pos + limit) l))) as [a|] eqn:Ha; [|done]. injection Hprev as <-.
  assert (Hla : l !! (pos + limit)%nat = Some a).
  { rewrite <- (Nat.add_0_r (pos + limit)), <- lookup_drop. destruct limit; [done|].
    by destruct (drop _ l). }
  eexists. split; [by eapply pg_prev|]. cbn. rewrite skipn_firstn_comm.
  f_equal; [lia|f_equal; lia].
Qed.

(** A snapshot does not change when later rows are added, wherever the cursor
    and the direction lead. *)
Theorem snapshot_stable iso {A} (ts : A → string) (id : A → Z) by_direction rows new c d limit s :
  Forall (λ a, str_ltb s (ts a) = true) new →
  sql_page iso ts id by_direction (rows ++ new) c d limit (Some s) = sql_page iso ts id by_direction rows c d limit (Some s).
Proof.
  intros Hnew. unfold sql_page. rewrite filter_app, (filter_none _ new), app_nil_r; [done|].
  eapply Forall_impl; [exact Hnew|]. intros a Ha. unfold buildCursorWhereClause, in_snapshot. rewrite Ha.
  by rewrite andb_false_r.
Qed.

(** The rows of an answer and where its next page is. *)
Definition rows_and_next {A} (o : outcome jserror (list A * meta)) : option (list A * option cursor) :=
  match o with Ret (l, m) => Some (l, next_cursor m) | Throw _ => None end.

(** Tables whose times are written by the database, a day and a time apart by
    a space, while cursors hold the ISO form: on the day of the cursor every
    row is before it, so its page is the first page again. *)
Theorem same_day_page_repeats iso {A} (ts : A → string) (id : A → Z) by_direction rows limit day t i :
  (∀ a, a ∈ rows → is_Some (iso (ts a))) → (∀ a, a ∈ rows → ∃ time, ts a = day +:+ " " +:+ time) →
  rows_and_next (sql_page iso ts id by_direction rows (Some (mk_cursor (day +:+ "T" +:+ t) i)) Next limit None) =
  rows_and_next (sql_page iso ts id by_direction rows None Next limit None).
Proof.
  intros Hiso Hday. unfold sql_page. cbv zeta.
  set (o := if by_direction then Next else Next).
  rewrite (filter_all _ rows) by (apply Forall_forall; intros a Ha; destruct (Hday a Ha) as [time Ht];
    unfold buildCursorWhereClause, before_cursor; cbn [c_timestamp]; by rewrite Ht, str_ltb_app).
  rewrite (filter_all _ rows) by (by apply Forall_forall).
  set (found := take (limit + 1) _). set (items := match o with Prev => reverse _ | Next => _ end).
  assert (Hin : ∀ a, a ∈ items → is_Some (iso (ts a))).
  { intros a Ha. apply Hiso. unfold items, found in Ha. replace o with Next in Ha by (by destruct by_direction).
    eapply elem_of_sublist in Ha; [|etransitivity; apply sublist_take]. by rewrite js_sort_perm in Ha. }
  unfold buildCursorMeta. rewrite !bool_decide_true by (by eexists). rewrite (bool_decide_false (is_Some None)) by (by intros []).
  destruct (createCursorFromItem iso ts id (if bool_decide (limit < length found)%nat then last items else None)) as [n|e];
    [|done].
  destruct (head items) as [a|] eqn:Ha; [|done]. cbn.
  destruct (Hin a) as [x Hx]; [destruct items; [done|injection Ha as ->; left]|]. by rewrite Hx.
Qed.

(** ** Bounds *)

Theorem validateInteger_bounds v min max d z :
  min <= d <= max → validateInteger v min max d = Some z → min <= z <= max.
Proof.
  intros Hd. assert (Hb : ∀ x, in_bounds min max x = Some z → min <= z <= max).
  { intros x. unfold in_bounds. destruct (Z.ltb_spec x min), (Z.ltb_spec max x); cbn; intros [= <-]; lia. }
  unfold validateInteger. destruct v as [|x|s|]; [by intros [= <-]| | |done].
  - destruct (num_is_integer x); [|done]. destruct (num_floor_Z x); [|done]. apply Hb.
  - destruct s as [|c s]; [by intros [= <-]|]. destruct (isStrictIntegerString _); [|done]. apply Hb.
Qed.

(** A request that is accepted asks for 1 to 100 rows. *)
Theorem page_limit_bounds iso limit direction c snapshotAt q :
  parseCursorPaginationQuery iso limit direction c snapshotAt = Ret q → 1 <= q_limit q <= 100.
Proof.
  unfold parseCursorPaginationQuery. destruct (validateInteger _ _ _ _) as [l|] eqn:Hl; [|done].
  apply validateInteger_bounds in Hl; [|done]. destruct (parse_direction direction); [|done].
  destruct (decodeCursor iso c) as [c'|]; [|done]. cbn. destruct (parseSnapshotAt iso snapshotAt); [|done]. cbn.
  by intros [= <-].
Qed.

(** ** The theorems at concrete inputs *)

Definition ex_rows : list (string * Z) :=
  [("2026-05-01T08:00:00.000Z", 1); ("2026-05-02T08:00:00.000Z", 2); ("2026-05-02T08:00:00.000Z", 3)].
Definition ex_page := table_page Some fst snd ex_rows 2 None.
Definition ex_shown : list (string * Z) := shown fst snd ex_rows None.

Lemma ex_ids : NoDup (snd <$> ex_rows).
Proof. apply (bool_decide_unpack _). by vm_compute. Qed.

Lemma ex_pager : pager (cursor_of fst snd) ex_shown 2 ex_page.
Proof. split; [apply page_next|apply page_prev]; by apply ex_ids || done. Qed.

Lemma table_is_pager_witness : pager (cursor_of fst snd) ex_shown 2 ex_page.
Proof. exact (table_is_pager Some fst snd ex_rows 2 None ex_ids (λ _ _, eq_refl)). Defined.

Lemma collection_is_pager_witness :
  pager (key_of fst snd) (collection_sorted fst snd (λ _ _, 0) [(1, "a"); (2, "b")] None) 1
    (collection_page fst snd (λ _ _, 0) [(1, "a"); (2, "b")] 1 None).
Proof.
  refine (collection_is_pager fst snd (λ _ _, 0) [(1, "a"); (2, "b")] 1 None _).
  apply (bool_decide_unpack _). by vm_compute.
Defined.

Lemma walk_shows_all_witness : walk ex_page 4 None = Ret ex_shown.
Proof. exact (walk_shows_all (cursor_of fst snd) ex_shown 2 ex_page ex_pager ltac:(lia)). Defined.

Lemma previous_page_witness :
  ∃ r, ex_page (Some (mk_cursor "2026-05-02T08:00:00.000Z" 2)) Next = Ret r ∧
    ∀ p, an_prev r = Some p → ∃ r', ex_page (Some p) Prev = Ret r' ∧ an_items r' = take 2 ex_shown.
Proof.
  refine (previous_page (cursor_of fst snd) ex_shown 2 ex_page 0 (mk_cursor "2026-05-02T08:00:00.000Z" 2) ex_pager _).
  exists 1%nat, ("2026-05-02T08:00:00.000Z", 2). by vm_compute.
Defined.

Lemma snapshot_stable_witness :
  sql_page Some fst snd true (ex_rows ++ [("2026-05-03T08:00:00.000Z", 4)]) None Next 2 (Some "2026-05-02T12:00:00.000Z") =
  sql_page Some fst snd true ex_rows None Next 2 (Some "2026-05-02T12:00:00.000Z").
Proof. refine (snapshot_stable Some fst snd true ex_rows _ None Next 2 _ _). by repeat constructor. Defined.

(** Three campaigns of a day: the second page is the first one. *)
Definition ex_campaigns : list (string * Z) := [("2026-05-01 08:00:00", 1); ("2026-05-01 09:00:00", 2); ("2026-05-01 10:00:00", 3)].
Lemma same_day_page_repeats_witness :
  rows_and_next (sql_page Some fst snd false ex_campaigns (Some (mk_cursor "2026-05-01T10:00:00.000Z" 3)) Next 1 None) =
  rows_and_next (sql_page Some fst snd false ex_campaigns None Next 1 None).
Proof.
  refine (same_day_page_repeats Some fst snd false ex_campaigns 1 "2026-05-01" "10:00:00.000Z" 3 (λ _ _, ltac:(eauto)) _).
  intros a Ha. repeat (apply elem_of_cons in Ha as [->|Ha]; [by eexists|]). by apply elem_of_nil in Ha.
Defined.

Lemma validateInteger_bounds_witness : 1 <= 7 <= 100.
Proof. exact (validateInteger_bounds (RString " 7 ") 1 100 20 7 ltac:(lia) eq_refl). Defined.

Lemma page_limit_bounds_witness : 1 <= 20 <= 100.
Proof. exact (page_limit_bounds Some RMissing (RString "prev") NoCursor RMissing (mk_page_query None 20 Prev None) eq_refl). Defined.
End Pagination.
