(* ===== verification/AuditLog.v ===== *)
(** * The audit log ([services/AuditLogService.js])

    Entries are checked, hashed and inserted; nothing updates or deletes them
    here.  The hash covers some of the fields.  Pages are those of
    [Pagination].  SHA-256, the parser of JSON and the dates of the language
    are arguments, as is the text of the details after the sanitiser and the
    mask.  One step is one call of [log]; its two statements do not depend on
    the rows, so calls that overlap are calls in the order of their inserts. *)

From stdpp Require Import list_numbers.
From Stdlib Require Import SpecFloat Ascii.
From S2P Require Import Prelude JsString JsNumber JsMap Errors Pagination.
Local Open Scope Z_scope.

Module AuditLog.

Record row := mk_row {
  id : Z;
  timestamp : string;
  category : string;
  action : string;
  severity : string;
  result : string;
  userId : option string;
  requestId : option string;
  ipAddress : option string;
  resource : option string;
  reason : option string;
  details : string;
  integrityHash : string;
}.

Record st := mk_st {
  rows : list row;
  next_id : Z;
  tableInitialized : bool;
  totalAttempts : Z;
  totalFailures : Z;
}.
Definition init : st := mk_st [] 1 false 0 0.
Definition M := stx jserror st.

Definition count_attempt (s : st) : st :=
  mk_st (rows s) (next_id s) (tableInitialized s) (totalAttempts s + 1) (totalFailures s).
Definition logWriteFailure (s : st) : st :=
  mk_st (rows s) (next_id s) (tableInitialized s) (totalAttempts s) (totalFailures s + 1).
Definition initialized (s : st) : st := mk_st (rows s) (next_id s) true (totalAttempts s) (totalFailures s).
Definition insert_row (r : row) (s : st) : st :=
  mk_st (rows s ++ [r]) (next_id s + 1) (tableInitialized s) (totalAttempts s) (totalFailures s).

(** Attempts, failures, and their quotient. *)
Definition getMetrics (s : st) : Z * Z * num :=
  (totalAttempts s, totalFailures s,
   if totalAttempts s =? 0 then num_zero else num_div (num_of_Z (totalFailures s)) (num_of_Z (totalAttempts s))).

(** [AUDIT_CATEGORY]; a name that is not in it is [undefined]. *)
Definition AUDIT_CATEGORY : list string :=
  ["AUTHENTICATION"; "AUTHORIZATION"; "API_KEY_MANAGEMENT"; "FINANCIAL_OPERATION"; "WALLET_OPERATION";
   "WALLET_MANAGEMENT"; "CONFIGURATION"; "RATE_LIMITING"; "ABUSE_DETECTION"; "DATA_ACCESS"].
Definition CATEGORY (name : string) : option string := find_first (λ c, bool_decide (c = name)) AUDIT_CATEGORY.

(** The argument of [log]; a missing or null field is [None]. *)
Record params := mk_params {
  p_category : option string;
  p_action : option string;
  p_severity : option string;
  p_result : option string;
  p_userId : option string;
  p_requestId : option string;
  p_ipAddress : option string;
  p_resource : option string;
  p_reason : option string;
  p_details : string;
}.

Definition truthy (x : option string) : option string :=
  match x with Some s => if is_empty s then None else Some s | None => None end.

Definition missing_fields : jserror := EPlain "Missing required audit log fields".

Section service.
Context (sha256 : string → string).

(** [null] in a template is the text null. *)
Definition hash_input (r : row) : string :=
  timestamp r +:+ "|" +:+ category r +:+ "|" +:+ action r +:+ "|" +:+ result r +:+ "|" +:+
  default "null" (userId r) +:+ "|" +:+ details r.
Definition generateHash (r : row) : string := sha256 (hash_input r).
Definition verifyIntegrity (r : row) : bool := bool_decide (generateHash r = integrityHash r).
Definition with_hash (r : row) (h : string) : row :=
  mk_row (id r) (timestamp r) (category r) (action r) (severity r) (result r) (userId r) (requestId r) (ipAddress r)
    (resource r) (reason r) (details r) h.

(** What a call meets: the clock, and whether creating the table and inserting
    work. *)
Record env := mk_env { v_now : string; v_table : bool; v_insert : bool }.

Definition db_error : jserror := DatabaseError.

Definition initializeTable (v : env) : M unit := λ s,
  if tableInitialized s then (Ret (), s)
  else if v_table v then (Ret (), initialized s) else (Throw db_error, s).

(** The [catch] block of [_log]: [None] is [undefined]. *)
Definition caught {A} (e : jserror) : M (option A) :=
  modify_st logWriteFailure;;
  if bool_decide (e = missing_fields) then throw e else mret None.

Definition audit_entry (now : string) (i : Z) (c a sv r : string) (p : params) : row :=
  let e := mk_row i now c a sv r (p_userId p) (p_requestId p) (p_ipAddress p) (p_resource p) (p_reason p) (p_details p) "" in
  with_hash e (generateHash e).

Definition _log (v : env) (p : params) : M (option row) :=
  try_catch
    (match truthy (p_category p), truthy (p_action p), truthy (p_severity p), truthy (p_result p) with
     | Some c, Some a, Some sv, Some r =>
         initializeTable v;;
         s ← get_st;
         if v_insert v then
           let e := audit_entry (v_now v) (next_id s) c a sv r p in
           modify_st (insert_row e);; mret (Some e)
         else throw db_error
     | _, _, _, _ => throw missing_fields
     end)
    caught.

(** The answer: the entry, or [undefined], or the object that reports the
    failure. *)
Inductive logged := Entry (r : row) | Undefined | Failed (e : jserror).

Definition log (v : env) (p : params) : M logged :=
  modify_st count_attempt;;
  try_catch
    (initializeTable v;;
     r ← _log v p;
     mret (match r with Some r => Entry r | None => Undefined end))
    (λ e,
      modify_st logWriteFailure;;
      if bool_decide (e = missing_fields) then throw e else mret (Failed e)).

(** Both read names that are declared nowhere. *)
Definition flush : M unit := throw (EReference "_pendingBuffer").
Definition startAutoFlush : M unit := throw (EReference "_autoFlushTimer").
Definition stopAutoFlush : M unit := throw (EReference "_autoFlushTimer").

(** ** Queries *)

Record filters := mk_filters {
  f_category : option string;
  f_action : option string;
  f_severity : option string;
  f_userId : option string;
  f_requestId : option string;
  f_startDate : option string;
  f_endDate : option string;
}.
Definition no_filters : filters := mk_filters None None None None None None None.

Definition if_given (f : option string) (p : string → bool) : bool := match truthy f with Some x => p x | None => true end.

Definition buildFilterQuery (f : filters) (r : row) : bool :=
  if_given (f_category f) (λ x, bool_decide (category r = x)) &&
  if_given (f_action f) (λ x, bool_decide (action r = x)) &&
  if_given (f_severity f) (λ x, bool_decide (severity r = x)) &&
  if_given (f_userId f) (λ x, bool_decide (userId r = Some x)) &&
  if_given (f_requestId f) (λ x, bool_decide (requestId r = Some x)) &&
  if_given (f_startDate f) (λ x, negb (str_ltb (timestamp r) x)) &&
  if_given (f_endDate f) (λ x, negb (str_ltb x (timestamp r))).
Definition matching (f : filters) (s : st) : list row := filter (λ r, buildFilterQuery f r = true) (rows s).

(** [JSON.parse(row.details || '{}')]: what the parsed details print, [None]
    for a text that is not JSON. *)
Context (parsed : string → option string).
Definition parseRows (l : list row) : outcome jserror (list (row * string)) :=
  mapM (λ r, match parsed (if is_empty (details r) then "{}" else details r) with
             | Some x => Ret (r, x)
             | None => Throw ESyntax
             end) l.

Definition query (f : filters) (limit offset : nat) (s : st) : outcome jserror (list (row * string)) :=
  parseRows (take limit (drop offset (js_sort (Pagination.order_by timestamp id Pagination.Next) (matching f s)))).

Definition cursorExists (f : filters) (c : option Pagination.cursor) (s : st) : bool :=
  match c with
  | None => true
  | Some c => existsb (λ r, bool_decide (timestamp r = Pagination.c_timestamp c) && (id r =? Pagination.c_id c)) (matching f s)
  end.

Context (iso : string → option string).

(** The rows, the total of the snapshot, the cursors. *)
Definition queryPaginated (f : filters) (c : option Pagination.cursor) (limit : nat) (d : Pagination.direction)
  (snapshotAt : option string) (s : st) : outcome jserror (list (row * string) * nat * Pagination.meta) :=
  let totalCount := length (filter (λ r, Pagination.in_snapshot timestamp snapshotAt r = true) (matching f s)) in
  if negb (cursorExists f c s) then Throw Pagination.INVALID_REQUEST
  else
    '(items, m) ← Pagination.sql_page iso timestamp id true (matching f s) c d limit snapshotAt;
    data ← parseRows items;
    Ret (data, totalCount, m).

(** GROUP BY category, action, severity, result, with COUNT. *)
Definition group (r : row) : string * string * string * string := (category r, action r, severity r, result r).
Definition getStatistics (f : filters) (s : st) : list ((string * string * string * string) * nat) :=
  let l := matching (mk_filters (f_category f) (f_action f) (f_severity f) (f_userId f) None (f_startDate f) (f_endDate f)) s in
  (λ k, (k, length (filter (λ r, group r = k) l))) <$> remove_dups (group <$> l).

(** ** The trail *)

Inductive step (s : st) : st → Prop := step_log v p : step s (log v p s).2.

Definition complete (p : params) : bool :=
  bool_decide (is_Some (truthy (p_category p))) && bool_decide (is_Some (truthy (p_action p))) &&
  bool_decide (is_Some (truthy (p_severity p))) && bool_decide (is_Some (truthy (p_result p))).
Definition entry_of (v : env) (i : Z) (p : params) : row :=
  audit_entry (v_now v) i (default "" (truthy (p_category p))) (default "" (truthy (p_action p)))
    (default "" (truthy (p_severity p))) (default "" (truthy (p_result p))) p.

Lemma missing_thrown : bool_decide (missing_fields = missing_fields) = true.
Proof. done. Qed.
Lemma db_swallowed : bool_decide (db_error = missing_fields) = false.
Proof. done. Qed.

(** What one call does. *)
Lemma log_run v p s :
  log v p s =
  if tableInitialized s || v_table v then
    let s := initialized (count_attempt s) in
    if complete p then
      if v_insert v then (Ret (Entry (entry_of v (next_id s) p)), insert_row (entry_of v (next_id s) p) s)
      else (Ret Undefined, logWriteFailure s)
    else (Throw missing_fields, logWriteFailure (logWriteFailure s))
  else (Ret (Failed db_error), logWriteFailure (count_attempt s)).
Proof.
  unfold log, _log, initializeTable, caught, try_catch, complete, entry_of. stx_unfold. cbn.
  destruct s as [rs n t a fl]. cbn. destruct t; [|destruct (v_table v)]; cbn; [| |by rewrite db_swallowed].
  all: destruct (truthy (p_category p)) as [c|], (truthy (p_action p)) as [ac|], (truthy (p_severity p)) as [sv|],
         (truthy (p_result p)) as [r|]; cbn; rewrite ?missing_thrown; try done.
  all: destruct (v_insert v); cbn; rewrite ?db_swallowed; done.
Qed.

(** A call inserts one entry or none. *)
Lemma log_cases v p s :
  (∃ r, (log v p s).2 = insert_row r (initialized (count_attempt s)) ∧
     id r = next_id s ∧ timestamp r = v_now v ∧ integrityHash r = generateHash r) ∨
  (rows (log v p s).2 = rows s ∧ next_id (log v p s).2 = next_id s).
Proof.
  rewrite log_run. case_match; [|by right]. cbv zeta. case_match; [|by right]. case_match; [|by right].
  left. by eexists.
Qed.

Definition inv (s : st) : Prop :=
  NoDup (id <$> rows s) ∧ Forall (λ r, id r < next_id s) (rows s) ∧ Forall (λ r, verifyIntegrity r = true) (rows s).

Lemma log_inv v p s : inv s → inv (log v p s).2.
Proof.
  intros (H1 & H2 & H3). destruct (log_cases v p s) as [(r & -> & Hi & _ & Hh)|[Hr Hn]].
  - unfold inv, insert_row. cbn [rows next_id initialized count_attempt]. split_and!.
    + rewrite fmap_app. apply NoDup_app. split_and!; [done| |apply NoDup_singleton].
      intros x (l & -> & Hin)%list_elem_of_fmap Hx%list_elem_of_singleton. rewrite Forall_forall in H2. specialize (H2 l Hin).
      cbn in Hx. lia.
    + apply Forall_app. split; [eapply Forall_impl; [exact H2|]; cbn; lia|]. repeat constructor. cbn. lia.
    + apply Forall_app. split; [done|]. repeat constructor. by apply bool_decide_true.
  - unfold inv. by rewrite Hr, Hn.
Qed.

Lemma trail_inv s : rtc step init s → inv s.
Proof.
  intros Hr. eapply (preserves_rtc step inv); [|exact Hr|].
  - intros s1 s2 Hi [v p]. by apply log_inv.
  - split_and!; constructor.
Qed.

(** The trail only grows: whatever calls follow, in whatever order, the
    entries stay as they are, and every entry verifies. *)
Theorem trail_grows s s' :
  rtc step init s → rtc step s s' →
  rows s `prefix_of` rows s' ∧ Forall (λ r, verifyIntegrity r = true) (rows s').
Proof.
  intros Hs Hr. split; [|apply trail_inv; by etransitivity].
  clear Hs. induction Hr as [|s1 s2 s3 [v p] _ IH]; [done|]. etransitivity; [|exact IH].
  destruct (log_cases v p s1) as [(r & -> & _)|[-> _]]; [|done]. by eexists.
Qed.

(** *** Errors *)

(** A call throws exactly when a required field is missing and the table
    exists or can be created; failures of the database are never thrown. *)
Theorem log_throws v p s :
  (∃ e, (log v p s).1 = Throw e) ↔ complete p = false ∧ (tableInitialized s || v_table v) = true.
Proof.
  rewrite log_run. destruct (tableInitialized s || v_table v); cbv zeta; [|by split; [intros [e ?]|intros [_ ?]]].
  destruct (complete p); [|by split; [|intros _; eexists]].
  destruct (v_insert v); by split; [intros [e ?]|intros [? _]].
Qed.

(** An entry with a missing field counts as one attempt and two failures. *)
Theorem missing_field_counts_twice v p s :
  complete p = false → tableInitialized s = true →
  totalAttempts (log v p s).2 = totalAttempts s + 1 ∧ totalFailures (log v p s).2 = totalFailures s + 2.
Proof. intros Hc Ht. rewrite log_run, Ht, Hc. cbn. lia. Qed.

(** *** What the hash covers *)

Definition no_bar (s : string) : bool := str_forall (λ c, negb (Ascii.eqb c "|")) s.

Lemma bar_inj a b x y : no_bar a = true → no_bar b = true → a +:+ "|" +:+ x = b +:+ "|" +:+ y → a = b ∧ x = y.
Proof.
  revert b. induction a as [|c a IH]; intros [|c' b]; cbn -[Ascii.eqb].
  - by intros _ _ [= ->].
  - intros _ [Hc _]%andb_true_iff [= <- _]. by rewrite Ascii.eqb_refl in Hc.
  - intros [Hc _]%andb_true_iff _ [= -> _]. by rewrite Ascii.eqb_refl in Hc.
  - intros [_ Ha]%andb_true_iff [_ Hb]%andb_true_iff [= -> H]. destruct (IH b Ha Hb H) as [-> ->]. done.
Qed.

Definition plain (r : row) : bool :=
  no_bar (timestamp r) && no_bar (category r) && no_bar (action r) && no_bar (result r) && no_bar (default "null" (userId r)).

(** If no two texts have the same hash, an entry that verifies with the hash
    of another entry has its time, category, action, result, user and
    details, unless these hold the separator. *)
Theorem tampering_detected r r' :
  (∀ x y, sha256 x = sha256 y → x = y) → plain r = true → plain r' = true →
  verifyIntegrity r = true → verifyIntegrity r' = true → integrityHash r = integrityHash r' →
  timestamp r = timestamp r' ∧ category r = category r' ∧ action r = action r' ∧ result r = result r' ∧
  default "null" (userId r) = default "null" (userId r') ∧ details r = details r'.
Proof.
  intros Hinj Hp Hp' Hv%bool_decide_eq_true Hv'%bool_decide_eq_true Hh.
  assert (He : hash_input r = hash_input r') by (apply Hinj; unfold generateHash in *; congruence).
  unfold plain in *. repeat (apply andb_true_iff in Hp as [Hp ?]; apply andb_true_iff in Hp' as [Hp' ?]).
  unfold hash_input in He. repeat (apply bar_inj in He as [? He]; [|done|done]). done.
Qed.

(** Nothing detects a change of severity, request, address, resource, reason
    or identifier. *)
Theorem unprotected_fields r sv rq ip rs re i :
  verifyIntegrity (mk_row i (timestamp r) (category r) (action r) sv (result r) (userId r) rq ip rs re (details r)
                     (integrityHash r)) = verifyIntegrity r.
Proof. done. Qed.

(** The check of an entry as [query] returns it, with its details parsed. *)
Definition verify_queried (e : row * string) : bool :=
  bool_decide (sha256 (hash_input (mk_row (id e.1) (timestamp e.1) (category e.1) (action e.1) (severity e.1) (result e.1)
    (userId e.1) (requestId e.1) (ipAddress e.1) (resource e.1) (reason e.1) e.2 "")) = integrityHash e.1).

Lemma str_app_cancel a x y : a +:+ x = a +:+ y → x = y.
Proof. induction a as [|c a IH]; [done|]. intros [= H]. auto. Qed.

Lemma parseRows_Ret l e : parseRows l = Ret e → e.*1 = l.
Proof.
  unfold parseRows. revert e. induction l as [|r l IH]; intros e; cbn; [by intros [= <-]|].
  destruct (parsed _) as [x|]; [|done]. cbn. destruct (mapM _ l) as [es|]; [|done]. cbn. intros [= <-]. cbn. f_equal. by apply IH.
Qed.

Lemma parseRows_ok l :
  (∀ r, r ∈ l → is_Some (parsed (if is_empty (details r) then "{}" else details r))) → ∃ e, parseRows l = Ret e.
Proof.
  unfold parseRows. induction l as [|r l IH]; intros Hl; cbn; [by eexists|].
  destruct (Hl r) as [x ->]; [left|]. cbn. destruct IH as [e ->]; [intros r' Hr'; apply Hl; by right|]. by eexists.
Qed.

(** A queried entry verifies only if its parsed details print as they are
    stored; an object never does, because every object prints the same. *)
Theorem queried_entries_fail s f limit offset l :
  (∀ x y, sha256 x = sha256 y → x = y) → rtc step init s → query f limit offset s = Ret l →
  Forall (λ e, verify_queried e = bool_decide (e.2 = details e.1)) l.
Proof.
  intros Hinj (_ & _ & Hv)%trail_inv Hq. apply Forall_forall. intros e He.
  assert (Hin : e.1 ∈ rows s).
  { apply parseRows_Ret in Hq. assert (H : e.1 ∈ l.*1) by (by apply list_elem_of_fmap_2). rewrite Hq in H.
    eapply elem_of_sublist in H; [|etransitivity; [apply sublist_take|apply sublist_drop]].
    rewrite js_sort_perm in H. by apply list_elem_of_filter in H as [_ ?]. }
  rewrite Forall_forall in Hv. specialize (Hv _ Hin). apply bool_decide_eq_true in Hv. unfold verify_queried.
  apply bool_decide_ext. rewrite <- Hv. unfold generateHash. split; [|intros H2; unfold hash_input; cbn [timestamp category action result userId details]; by rewrite H2].
  intros H%Hinj. unfold hash_input in H. cbn [timestamp category action result userId details] in H.
  by repeat apply str_app_cancel in H.
Qed.

(** *** Pages *)

Definition audit_page (f : filters) (limit : nat) (snapshotAt : option string) (s : st) (c : option Pagination.cursor)
  (d : Pagination.direction) : outcome jserror (Pagination.answer (A := row) (C := Pagination.cursor)) :=
  '(data, total, m) ← queryPaginated f c limit d snapshotAt s;
  Ret (Pagination.mk_answer data.*1 (Pagination.next_cursor m) (Pagination.prev_cursor m)).

Lemma audit_table_page f limit snapshotAt s c d :
  (∀ r, r ∈ rows s → is_Some (parsed (if is_empty (details r) then "{}" else details r))) →
  cursorExists f c s = true →
  audit_page f limit snapshotAt s c d = Pagination.table_page iso timestamp id (matching f s) limit snapshotAt c d.
Proof.
  intros Hj Hc. unfold audit_page, queryPaginated, Pagination.table_page. rewrite Hc. cbn [negb].
  destruct (Pagination.sql_page _ _ _ _ _ _ _ _ _) as [[items m]|e] eqn:Hp; [|done]. cbn.
  destruct (parseRows_ok items) as [data Hd].
  { intros r Hr. apply Hj. pose proof (Pagination.sql_page_elem _ _ _ _ _ _ _ _ _ _ _ _ Hp Hr) as Hin.
    by apply list_elem_of_filter in Hin as [_ ?]. }
  rewrite Hd. cbn. by rewrite (parseRows_Ret _ _ Hd).
Qed.

Definition visible (f : filters) (snapshotAt : option string) (s : st) : list row :=
  Pagination.shown timestamp id (matching f s) snapshotAt.

Lemma audit_pager f limit snapshotAt s :
  rtc step init s → (∀ r, r ∈ rows s → iso (timestamp r) = Some (timestamp r)) →
  (∀ r, r ∈ rows s → is_Some (parsed (if is_empty (details r) then "{}" else details r))) →
  Pagination.pager (Pagination.cursor_of timestamp id) (visible f snapshotAt s) limit (audit_page f limit snapshotAt s).
Proof.
  intros (Hn & _ & _)%trail_inv Hi Hj.
  assert (Hnm : NoDup (id <$> matching f s)) by (by apply Pagination.filter_ids).
  assert (Him : ∀ r, r ∈ matching f s → iso (timestamp r) = Some (timestamp r)).
  { intros r [_ Hr]%list_elem_of_filter. auto. }
  assert (He : ∀ n a, visible f snapshotAt s !! n = Some a → cursorExists f (Some (Pagination.cursor_of timestamp id a)) s = true).
  { intros n a Ha%list_elem_of_lookup_2%Pagination.shown_elem. apply existsb_exists. exists a.
    split; [by apply list_elem_of_In|]. cbn. rewrite bool_decide_true by done. by rewrite Z.eqb_refl. }
  split.
  - intros pos c Hc w. rewrite audit_table_page; [by apply Pagination.page_next|done|].
    destruct c as [c|]; [|done]. destruct Hc as (n & a & _ & Ha & ->). by eapply He.
  - intros n a Ha w. rewrite audit_table_page; [by apply Pagination.page_prev|done|by eapply He].
Qed.

(** An auditor who follows the next cursors sees every entry that matches the
    filters and the snapshot, once, the newest first. *)
Theorem audit_pages_complete f limit snapshotAt s :
  rtc step init s → (0 < limit)%nat → (∀ r, r ∈ rows s → iso (timestamp r) = Some (timestamp r)) →
  (∀ r, r ∈ rows s → is_Some (parsed (if is_empty (details r) then "{}" else details r))) →
  Pagination.walk (audit_page f limit snapshotAt s) (S (length (visible f snapshotAt s))) None =
    Ret (visible f snapshotAt s) ∧
  visible f snapshotAt s ≡ₚ filter (λ r, buildFilterQuery f r && Pagination.in_snapshot timestamp snapshotAt r = true) (rows s).
Proof.
  intros Hs Hl Hi Hj. split.
  - rewrite (Pagination.walk_from (Pagination.cursor_of timestamp id) (visible f snapshotAt s) limit _
               (audit_pager f limit snapshotAt s Hs Hi Hj) Hl _ 0%nat); [done|done|lia].
  - unfold visible, Pagination.shown, matching. rewrite Pagination.ordered_perm, list_filter_filter.
    apply reflexive_eq, list_filter_iff. intros r. rewrite andb_true_iff. tauto.
Qed.

(** *** Statistics *)

Lemma sum_counts {K} `{EqDecision K} (g : row → K) (ks : list K) l :
  NoDup ks → (∀ r, r ∈ l → g r ∈ ks) → sum_list ((λ k, length (filter (λ r, g r = k) l)) <$> ks) = length l.
Proof.
  intros Hks. induction l as [|r l IH]; intros Hl.
  - induction ks as [|k ks IHk]; [done|]. cbn. apply IHk; [by apply NoDup_cons in Hks as [_ ?]|]. by intros r ?%elem_of_nil.
  - cbn [length]. rewrite <- IH by (intros r' Hr'; apply Hl; by right).
    assert (Hin : g r ∈ ks) by (apply Hl; left). clear IH Hl. revert Hin.
    induction Hks as [|k ks Hk Hks IHk]; [by intros ?%elem_of_nil|]. cbn [fmap list_fmap sum_list].
    unfold Datatypes.id in *. rewrite filter_cons. intros [Hg|Hin]%elem_of_cons.
    + rewrite decide_True by done. cbn [length].
      rewrite (fmap_ext_elem _ (λ k, length (filter (λ r, g r = k) l)) ks); [lia|].
      intros k' Hk'. rewrite filter_cons_False; [done|]. congruence.
    + rewrite decide_False by (intros Hg; by rewrite Hg in Hin). rewrite IHk by done. lia.
Qed.

(** The counts of the groups sum to the number of entries that match. *)
Theorem statistics_count_all f s :
  sum_list (snd <$> getStatistics f s) =
  length (matching (mk_filters (f_category f) (f_action f) (f_severity f) (f_userId f) None (f_startDate f) (f_endDate f)) s).
Proof.
  unfold getStatistics. cbv zeta. rewrite <- list_fmap_compose. apply sum_counts; [apply NoDup_remove_dups|].
  intros r Hr. apply elem_of_remove_dups. by apply list_elem_of_fmap_2.
Qed.
End service.

(** Feature flags, disputes, fee bumps, pledges and the scheduler name
    categories that do not exist: nothing they report is written. *)
Theorem undefined_category_unlogged sha256 v p s name :
  name ∈ ["ADMIN"; "SYSTEM"; "DONATION"] → p_category p = CATEGORY name → rows (log sha256 v p s).2 = rows s.
Proof.
  intros Hn Hp. assert (Hc : CATEGORY name = None).
  { repeat (apply elem_of_cons in Hn as [->|Hn]; [done|]). by apply elem_of_nil in Hn. }
  rewrite Hc in Hp. rewrite log_run. case_match; [|done]. cbv zeta. unfold complete. by rewrite Hp.
Qed.

(** ** The theorems at concrete inputs *)

Definition ex_sha (x : string) : string := x.
Definition ex_env (now : string) : env := mk_env now true true.
Definition ex_params (c user details : string) : params :=
  mk_params (Some c) (Some "WALLET_CREATED") (Some "HIGH") (Some "SUCCESS") (Some user) None None None None details.
Definition ex_log (now user : string) (s : st) : st := (log ex_sha (ex_env now) (ex_params "WALLET_OPERATION" user "{}") s).2.
Definition ex_s : st := ex_log "2026-05-02T08:00:00.000Z" "u2" (ex_log "2026-05-01T08:00:00.000Z" "u1" init).
Definition ex_parsed (x : string) : option string := if starts_with "{" x then Some "[object Object]" else Some x.

Lemma ex_reachable : rtc (step ex_sha) init ex_s.
Proof. do 2 (eapply rtc_l; [apply step_log|]). apply rtc_refl. Qed.

Lemma trail_grows_witness :
  rows ex_s `prefix_of` rows (ex_log "2026-05-03T08:00:00.000Z" "u3" ex_s) ∧
  Forall (λ r, verifyIntegrity ex_sha r = true) (rows (ex_log "2026-05-03T08:00:00.000Z" "u3" ex_s)).
Proof.
  refine (trail_grows ex_sha ex_s (ex_log "2026-05-03T08:00:00.000Z" "u3" ex_s) ex_reachable _).
  apply rtc_once, step_log.
Defined.

Definition ex_incomplete : params := mk_params None (Some "FEATURE_FLAG_UPDATED") (Some "MEDIUM") (Some "SUCCESS") None None None None None "{}".
Lemma missing_field_counts_twice_witness :
  totalAttempts (log ex_sha (ex_env "t") ex_incomplete ex_s).2 = 3 ∧ totalFailures (log ex_sha (ex_env "t") ex_incomplete ex_s).2 = 2.
Proof. exact (missing_field_counts_twice ex_sha (ex_env "t") ex_incomplete ex_s eq_refl eq_refl). Defined.

Definition ex_row : row :=
  audit_entry ex_sha "2026-05-01T08:00:00.000Z" 1 "WALLET_OPERATION" "WALLET_CREATED" "HIGH" "SUCCESS"
    (ex_params "WALLET_OPERATION" "u1" "{}").
Lemma tampering_detected_witness :
  timestamp ex_row = timestamp ex_row ∧ category ex_row = category ex_row ∧ action ex_row = action ex_row ∧
  result ex_row = result ex_row ∧ default "null" (userId ex_row) = default "null" (userId ex_row) ∧
  details ex_row = details ex_row.
Proof.
  exact (tampering_detected ex_sha ex_row ex_row (λ x y H, H) ltac:(by vm_compute) ltac:(by vm_compute)
           ltac:(by vm_compute) ltac:(by vm_compute) eq_refl).
Defined.

Definition ex_queried : list (row * string) := default [] (match query ex_parsed no_filters 10 0 ex_s with Ret l => Some l | Throw _ => None end).
Lemma queried_entries_fail_witness :
  Forall (λ e, verify_queried ex_sha e = bool_decide (e.2 = details e.1)) ex_queried.
Proof.
  exact (queried_entries_fail ex_sha ex_parsed ex_s no_filters 10 0 ex_queried (λ x y H, H) ex_reachable
           ltac:(by vm_compute)).
Defined.

Lemma audit_pages_complete_witness :
  Pagination.walk (audit_page ex_parsed Some no_filters 1 None ex_s) 3 None = Ret (visible no_filters None ex_s) ∧
  visible no_filters None ex_s ≡ₚ
    filter (λ r, buildFilterQuery no_filters r && Pagination.in_snapshot timestamp None r = true) (rows ex_s).
Proof.
  refine (audit_pages_complete ex_sha ex_parsed Some no_filters 1 None ex_s ex_reachable ltac:(lia) (λ _ _, eq_refl) _).
  intros r _. unfold ex_parsed. case_match; by eexists.
Defined.

Definition ex_flag : params :=
  mk_params (CATEGORY "ADMIN") (Some "FEATURE_FLAG_UPDATED") (Some "MEDIUM") (Some "SUCCESS") None None None None None "{}".
Lemma undefined_category_unlogged_witness : rows (log ex_sha (ex_env "t") ex_flag ex_s).2 = rows ex_s.
Proof. refine (undefined_category_unlogged ex_sha (ex_env "t") ex_flag ex_s "ADMIN" _ eq_refl). left. Defined.

End AuditLog.
