(* ===== verification/IpAllowlist.v ===== *)
(** * Address lists ([src/src/utils/ipAllowlist.js])

    IPv4 and IPv6 addresses, CIDR ranges, and the check of a client against
    the list of an API key.  The 32-bit operators of the language and the
    tests [net.isIPv4] and [net.isIPv6] are written out. *)

From Stdlib Require Import Ascii String.
From S2P Require Import Prelude JsString JsNumber Errors.
Local Open Scope Z_scope.

(** ** 32-bit operators *)

Definition to_int32 (z : Z) : Z := (z + 2 ^ 31) mod 2 ^ 32 - 2 ^ 31.
Definition to_uint32 (z : Z) : Z := z mod 2 ^ 32.
(** [a << n], [a | b], [a & b], [a >>> 0] *)
Definition shl32 (a n : Z) : Z := to_int32 (Z.shiftl (to_int32 a) (to_uint32 n mod 32)).
Definition or32 (a b : Z) : Z := to_int32 (Z.lor (to_int32 a) (to_int32 b)).
Definition and32 (a b : Z) : Z := to_int32 (Z.land (to_int32 a) (to_int32 b)).

Module IpAllowlist.
Import Errors.

(** [s.split(sep)] for a separator of two characters. *)
Fixpoint split_two (a b : ascii) (s : string) : list string :=
  match s with
  | String c (String d s' as s1) =>
      if Ascii.eqb c a && Ascii.eqb d b then "" :: split_two a b s'
      else match split_two a b s1 with
           | w :: ws => String c w :: ws
           | [] => [String c ""]
           end
  | s => [s]
  end.

(** ** [net.isIPv4], [net.isIPv6] *)

(** [0-9], [1-9][0-9], 1[0-9][0-9], 2[0-4][0-9] or 25[0-5] *)
Definition octet (s : string) : bool :=
  all_digits s && (String.length s <=? 3)%nat && (digits_val s <=? 255) &&
  match s with String "0" (String _ _) => false | _ => true end.
Definition isIPv4 (s : string) : bool :=
  let parts := split_on "." s in
  (List.length parts =? 4)%nat && forallb octet parts.

Definition is_hex (c : ascii) : bool := match hex_val c with Some _ => true | None => false end.
Definition segment (s : string) : bool :=
  negb (is_empty s) && (String.length s <=? 4)%nat && str_forall is_hex s.
(** The number of 16-bit groups of a list that may end in an IPv4 address. *)
Fixpoint groups (l : list string) : option nat :=
  match l with
  | [] => Some O
  | [w] => if segment w then Some 1%nat else if isIPv4 w then Some 2%nat else None
  | w :: l => if segment w then S <$> groups l else None
  end.
Definition colon_parts (s : string) : list string := if is_empty s then [] else split_on ":" s.
Definition zone_char (c : ascii) : bool :=
  let n := char_code c in
  is_digit c || ((65 <=? n) && (n <=? 90)) || ((97 <=? n) && (n <=? 122)) || (n =? 45) || (n =? 46) || (n =? 58).
Definition isIPv6 (s : string) : bool :=
  let '(addr, zone_ok) :=
    match split_on "%" s with
    | [a] => (a, true)
    | [a; z] => (a, negb (is_empty z) && str_forall zone_char z)
    | _ => ("", false)
    end in
  zone_ok &&
  match split_two ":" ":" addr with
  | [whole] => match groups (split_on ":" whole) with Some n => (n =? 8)%nat | None => false end
  | [lhs; rhs] =>
      forallb segment (colon_parts lhs) &&
      match groups (colon_parts rhs) with
      | Some n => (List.length (colon_parts lhs) + n <=? 7)%nat
      | None => false
      end
  | _ => false
  end.

(** ** The addresses *)

(** [/^::ffff:(\d+\.\d+\.\d+\.\d+)$/i] *)
Definition normalizeIp (ip : string) : string :=
  let rest := str_drop 7 ip in
  let parts := split_on "." rest in
  if bool_decide (to_lower (str_take 7 ip) = "::ffff:") && (List.length parts =? 4)%nat && forallb all_digits parts
  then rest else ip.

(** [parseInt] gives NaN on no digits, which the operators take as 0. *)
Definition ipv4ToInt (ip : string) : Z :=
  to_uint32 (foldl (λ acc o, or32 (shl32 acc 8) (default 0 (parse_int o))) 0 (split_on "." ip)).

(** [parseInt(g || '0', 16)]: the hexadecimal prefix; [None] is NaN. *)
Fixpoint hex_prefix (acc : option Z) (s : string) : option Z :=
  match s with
  | String c s' => match hex_val c with Some d => hex_prefix (Some (default 0 acc * 16 + d)) s' | None => acc end
  | EmptyString => acc
  end.
Definition parse_hex (s : string) : option Z := hex_prefix None (if is_empty s then "0" else s).

(** [Array(missing)] throws on a negative length, [BigInt(NaN)] too. *)
Definition ipv6ToBigInt (ip : string) : outcome jserror Z :=
  let halves := split_two ":" ":" ip in
  let half i := match halves !! i with Some h => colon_parts h | None => [] end in
  let lhs := half 0%nat in
  let rhs := half 1%nat in
  let missing := 8 - Z.of_nat (List.length lhs) - Z.of_nat (List.length rhs) in
  if missing <? 0 then Throw ERange
  else
    let groups := lhs ++ replicate (Z.to_nat missing) "0" ++ rhs in
    foldl (λ acc g, a ← acc; match parse_hex g with
                             | Some x => Ret (Z.lor (Z.shiftl a 16) x)
                             | None => Throw ERange
                             end) (Ret 0) groups.

(** A prefix that is not a number counts as 0 in the shift of 32-bit masks
    and throws in the other. *)
Definition mask4 (prefix : option Z) : Z :=
  if bool_decide (prefix = Some 0) then 0
  else to_uint32 (shl32 (-1) (match prefix with Some p => 32 - p | None => 0 end)).
Definition mask6 (prefix : option Z) : outcome jserror Z :=
  match prefix with
  | Some 0 => Ret 0
  | Some p => Ret (Z.land (Z.shiftl (-1) (128 - p)) (2 ^ 128 - 1))
  | None => Throw ERange
  end.

Definition isInCidr (clientIp cidr : string) : outcome jserror bool :=
  let parts := split_on "/" cidr in
  let network := default "" (parts !! 0%nat) in
  let prefix := match parts !! 1%nat with Some p => parse_int p | None => None end in
  let normClient := normalizeIp clientIp in
  let normNetwork := normalizeIp network in
  if isIPv4 normNetwork && isIPv4 normClient then
    let mask := mask4 prefix in
    Ret (and32 (ipv4ToInt normClient) mask =? and32 (ipv4ToInt normNetwork) mask)
  else if isIPv6 normNetwork && isIPv6 normClient then
    mask ← mask6 prefix;
    a ← ipv6ToBigInt normClient;
    b ← ipv6ToBigInt normNetwork;
    Ret (Z.land a mask =? Z.land b mask)
  else Ret false.

Fixpoint any_entry (normClient : string) (l : list string) : outcome jserror bool :=
  match l with
  | [] => Ret false
  | entry :: l =>
      let slash := str_includes "/" entry in
      let parts := split_on "/" entry in
      let normEntry := normalizeIp (if slash then default "" (parts !! 0%nat) else entry) in
      if slash then
        let prefix := default "" (parts !! 1%nat) in
        inside ← isInCidr normClient (normEntry +:+ "/" +:+ prefix);
        if (inside : bool) then Ret true else any_entry normClient l
      else if bool_decide (normEntry = normClient) then Ret true
      else any_entry normClient l
  end.

(** The list of a key: absent or empty allows everything. *)
Definition isIpAllowed (clientIp : option string) (allowedIps : option (list string)) : outcome jserror bool :=
  match allowedIps with
  | None | Some [] => Ret true
  | Some l =>
      match clientIp with
      | None => Ret false
      | Some ip => if is_empty ip then Ret false else any_entry (normalizeIp ip) l
      end
  end.

Example isInCidr_samples :
  (isInCidr "10.1.2.3" "10.0.0.0/8", isInCidr "11.1.2.3" "10.0.0.0/8", isInCidr "::ffff:192.168.1.7" "192.168.1.0/24",
   isInCidr "2001:db8::5" "2001:db8::/32", isInCidr "2001:db9::5" "2001:db8::/32", isInCidr "1.2.3.4" "200.0.0.0/0")
  = (Ret true, Ret false, Ret true, Ret true, Ret false, Ret true).
Proof. vm_compute. reflexivity. Qed.

(** ** The operators *)

Lemma int32_mod z : to_int32 z mod 2 ^ 32 = z mod 2 ^ 32.
Proof. unfold to_int32. Z.div_mod_to_equations; lia. Qed.

Lemma int32_eq a b : to_int32 a = to_int32 b ↔ a mod 2 ^ 32 = b mod 2 ^ 32.
Proof.
  split; [intros H; by rewrite <- (int32_mod a), <- (int32_mod b), H|].
  unfold to_int32. intros H. Z.div_mod_to_equations; lia.
Qed.

Lemma int32_small z : - 2 ^ 31 <= z < 2 ^ 31 → to_int32 z = z.
Proof. intros. unfold to_int32. rewrite Z.mod_small; lia. Qed.

Lemma land_mod a b : Z.land a b mod 2 ^ 32 = Z.land (a mod 2 ^ 32) (b mod 2 ^ 32).
Proof.
  rewrite <- !Z.land_ones by lia. apply Z.bits_inj'. intros n Hn. rewrite !Z.land_spec.
  by destruct (Z.testbit a n), (Z.testbit b n), (Z.testbit (Z.ones 32) n).
Qed.
Lemma lor_mod a b : Z.lor a b mod 2 ^ 32 = Z.lor (a mod 2 ^ 32) (b mod 2 ^ 32).
Proof.
  rewrite <- !Z.land_ones by lia. apply Z.bits_inj'. intros n Hn. rewrite !Z.land_spec, !Z.lor_spec, !Z.land_spec.
  by destruct (Z.testbit a n), (Z.testbit b n), (Z.testbit (Z.ones 32) n).
Qed.

(** Masking the low [k] of [n] bits. *)
Lemma land_mask a n k : 0 <= a < 2 ^ n → 0 <= k <= n → Z.land a (2 ^ n - 2 ^ k) = a / 2 ^ k * 2 ^ k.
Proof.
  intros Ha Hk.
  assert (Hm : 2 ^ n - 2 ^ k = Z.shiftl (Z.ones (n - k)) k).
  { rewrite Z.shiftl_mul_pow2, Z.ones_equiv, <- Z.sub_1_r, Z.mul_sub_distr_r, <- Z.pow_add_r by lia.
    replace (n - k + k) with n by lia. lia. }
  rewrite Hm, <- Z.shiftl_mul_pow2, <- Z.shiftr_div_pow2 by lia.
  apply Z.bits_inj'. intros i Hi. rewrite Z.land_spec.
  destruct (Z.lt_ge_cases i k) as [Hlt|Hge].
  - rewrite !Z.shiftl_spec_low by done. apply andb_false_r.
  - rewrite !Z.shiftl_spec by lia. rewrite Z.shiftr_spec by lia. replace (i - k + k) with i by lia.
    destruct (Z.lt_ge_cases i n) as [Hin|Hin].
    + rewrite Z.ones_spec_low by lia. apply andb_true_r.
    + rewrite Z.ones_spec_high by lia. rewrite andb_false_r.
      destruct (Z.eq_dec a 0) as [->|]; [by rewrite Z.bits_0|]. symmetry. apply Z.bits_above_log2; [lia|].
      assert (Z.log2 a < n) by (apply Z.log2_lt_pow2; lia). lia.
Qed.

Lemma same_network a b k : 0 < 2 ^ k → a / 2 ^ k * 2 ^ k = b / 2 ^ k * 2 ^ k ↔ a / 2 ^ k = b / 2 ^ k.
Proof. intros. split; [by intros ?%Z.mul_reg_r; [|lia]|congruence]. Qed.

Lemma and32_mask a b p : 0 <= p <= 32 → 0 <= a < 2 ^ 32 → 0 <= b < 2 ^ 32 →
  (and32 a (mask4 (Some p)) =? and32 b (mask4 (Some p))) = bool_decide (a / 2 ^ (32 - p) = b / 2 ^ (32 - p)).
Proof.
  intros Hp Ha Hb. assert (Hk : 0 < 2 ^ (32 - p)) by (apply Z.pow_pos_nonneg; lia).
  assert (Hmask : mask4 (Some p) = 2 ^ 32 - 2 ^ (32 - p)).
  { unfold mask4. case_bool_decide as H0; [simplify_eq; done|].
    assert (p ≠ 0) by congruence. assert (2 ^ (32 - p) <= 2 ^ 31) by (apply Z.pow_le_mono_r; lia).
    unfold shl32, to_uint32 at 2. rewrite (Z.mod_small (32 - p) (2 ^ 32)), Z.mod_small by lia.
    rewrite (int32_small (-1)), Z.shiftl_mul_pow2, int32_small by lia. unfold to_uint32.
    symmetry. apply Z.mod_unique with (-1); lia. }
  assert (Hpow : 2 ^ (32 - p) <= 2 ^ 32) by (apply Z.pow_le_mono_r; lia).
  rewrite Hmask. unfold and32. apply Bool.eq_true_iff_eq. rewrite Z.eqb_eq, bool_decide_eq_true.
  rewrite int32_eq, !land_mod, !int32_mod, (Z.mod_small a), (Z.mod_small b), (Z.mod_small (2 ^ 32 - _)) by lia.
  rewrite !land_mask by lia. by apply same_network.
Qed.

(** ** The number of an address *)

Definition octets_val (l : list string) : Z := foldl (λ acc o, acc * 256 + digits_val o) 0 l.

Lemma octet_val o : octet o = true → 0 <= digits_val o < 256 ∧ parse_int o = Some (digits_val o) ∧ all_digits o = true.
Proof.
  unfold octet. intros [[[Hd _]%andb_prop Hv]%andb_prop _]%andb_prop. apply Z.leb_le in Hv.
  pose proof (all_digits_forall o Hd) as Hf. pose proof (digits_val_nonneg o Hf). split_and!; [lia|lia| |done].
  unfold parse_int. destruct o as [|c s]; [done|]. pose proof Hf as Hc. cbn in Hc. apply andb_prop in Hc as [Hc _].
  rewrite trim_start_id by by apply digit_not_space. pose proof (scan_digits_all _ Hf) as Hsc.
  destruct c as [[] [] [] [] [] [] [] []]; vm_compute in Hc; try discriminate Hc; by rewrite Hsc.
Qed.

Lemma or_shift acc o : 0 <= acc < 2 ^ 24 → 0 <= o < 256 →
  or32 (shl32 acc 8) o mod 2 ^ 32 = acc * 256 + o ∧ (acc < 2 ^ 23 → or32 (shl32 acc 8) o = acc * 256 + o).
Proof.
  intros Ha Ho.
  assert (Hor : Z.lor (acc * 256) o = acc * 256 + o).
  { symmetry. apply Z.add_nocarry_lor. change 256 with (2 ^ 8). rewrite <- Z.shiftl_mul_pow2 by lia.
    apply Z.bits_inj'. intros i Hi. rewrite Z.land_spec, Z.bits_0. destruct (Z.lt_ge_cases i 8).
    - by rewrite Z.shiftl_spec_low.
    - destruct (Z.eq_dec o 0) as [->|]; [by rewrite Z.bits_0, andb_false_r|].
      rewrite (Z.bits_above_log2 o), andb_false_r; [done|lia|].
      assert (Z.log2 o < 8) by (apply Z.log2_lt_pow2; lia). lia. }
  assert (Hmod : or32 (shl32 acc 8) o mod 2 ^ 32 = acc * 256 + o).
  { unfold or32, shl32. change (to_uint32 8 mod 32) with 8. rewrite int32_mod, lor_mod, !int32_mod.
    rewrite (int32_small acc), Z.shiftl_mul_pow2 by lia. change (2 ^ 8) with 256.
    rewrite !Z.mod_small by lia. exact Hor. }
  split; [exact Hmod|]. intros Hs. rewrite <- (int32_small (acc * 256 + o)) by lia. unfold or32 in *.
  apply int32_eq. rewrite int32_mod in Hmod. rewrite Hmod. symmetry. apply Z.mod_small. lia.
Qed.

(** The shifts compute the positional value, the sign of the last one undone by [>>> 0]. *)
Lemma ipv4ToInt_val ip : isIPv4 ip = true →
  ipv4ToInt ip = octets_val (split_on "." ip) ∧ 0 <= octets_val (split_on "." ip) < 2 ^ 32.
Proof.
  unfold isIPv4, ipv4ToInt, octets_val. intros [Hl Ho]%andb_prop.
  destruct (split_on "." ip) as [|a [|b [|c [|d [|e l]]]]]; try done. cbn [forallb] in Ho.
  repeat match goal with H : _ && _ = true |- _ => apply andb_prop in H as [? ?] end.
  destruct (octet_val a) as (Ha & Pa & _), (octet_val b) as (Hb & Pb & _), (octet_val c) as (Hc & Pc & _),
    (octet_val d) as (Hd & Pd & _); [done..|]. cbn [foldl]. rewrite Pa, Pb, Pc, Pd. cbn [from_option id].
  set (x := digits_val a) in *. set (y := digits_val b) in *. set (z := digits_val c) in *. set (w := digits_val d) in *.
  rewrite (proj2 (or_shift 0 x ltac:(lia) Ha) ltac:(lia)).
  rewrite (proj2 (or_shift (0 * 256 + x) y ltac:(lia) Hb) ltac:(lia)).
  rewrite (proj2 (or_shift ((0 * 256 + x) * 256 + y) z ltac:(lia) Hc) ltac:(lia)).
  unfold to_uint32. rewrite (proj1 (or_shift (((0 * 256 + x) * 256 + y) * 256 + z) w ltac:(lia) Hd)). split; [done|lia].
Qed.

(** ** Ranges *)

Definition v4_char (c : ascii) : bool := is_digit c || Ascii.eqb c ".".

Lemma join_chars l : forallb all_digits l = true → str_forall v4_char (str_join "." l) = true.
Proof.
  assert (Hd : ∀ w, all_digits w = true → str_forall v4_char w = true).
  { intros w Hw%all_digits_forall. induction w as [|c w IH]; [done|]. cbn in Hw |- *.
    apply andb_prop in Hw as [Hc Hw]. unfold v4_char. rewrite Hc. by apply IH. }
  induction l as [|w l IH]; [done|]. cbn [forallb str_join]. intros [Hw Hl]%andb_prop.
  destruct l as [|w' l]; [by apply Hd|]. rewrite !str_forall_app. rewrite Hd by done.
  rewrite IH by done. done.
Qed.

Lemma isIPv4_chars ip : isIPv4 ip = true → str_forall v4_char ip = true ∧ ip ≠ "".
Proof.
  unfold isIPv4. intros [Hl Ho]%andb_prop. split; [|by intros ->].
  rewrite <- (str_join_split "." ip). apply join_chars. revert Ho.
  induction (split_on "." ip) as [|w l IH] in |- *; [done|]. clear Hl. cbn. intros [Hw Hl]%andb_prop.
  destruct (octet_val w Hw) as (_ & _ & ->). by apply IH.
Qed.

Lemma normalize_v4 ip : isIPv4 ip = true → normalizeIp ip = ip.
Proof.
  intros [Hc Hne]%isIPv4_chars. unfold normalizeIp. rewrite bool_decide_false; [done|].
  destruct ip as [|c s]; [done|]. cbn [str_forall] in Hc. apply andb_prop in Hc as [Hc _].
  cbn [str_take to_lower str_map]. intros [= Hx _]. unfold v4_char in Hc.
  destruct c as [[] [] [] [] [] [] [] []]; vm_compute in Hc; try discriminate Hc; vm_compute in Hx; discriminate Hx.
Qed.

Lemma v4_no_slash ip : str_forall v4_char ip = true → str_forall (λ a, negb (Ascii.eqb a "/")) ip = true.
Proof.
  induction ip as [|c s IH]; [done|]. cbn. intros [Hc Hs]%andb_prop. rewrite (IH Hs), andb_true_r.
  destruct (Ascii.eqb_spec c "/") as [->|]; [done|done].
Qed.

(** A range of IPv4 addresses: a client is inside exactly when it agrees with the network on the
    leading bits, for every prefix length from 0 to 32, although the code computes with signed
    32-bit integers. *)
Theorem isInCidr_spec client network p :
  isIPv4 client = true → isIPv4 network = true → 0 <= p <= 32 →
  isInCidr client (network +:+ "/" +:+ nat_to_string p) =
  Ret (bool_decide (octets_val (split_on "." client) / 2 ^ (32 - p) = octets_val (split_on "." network) / 2 ^ (32 - p))).
Proof.
  intros Hc Hn Hp. destruct (ipv4ToInt_val client Hc) as [Vc Rc], (ipv4ToInt_val network Hn) as [Vn Rn].
  pose proof (isIPv4_chars network Hn) as [Hnc _]. unfold isInCidr.
  change (network +:+ "/" +:+ nat_to_string p)%stdpp with (network +:+ String "/" (nat_to_string p))%stdpp.
  rewrite split_on_app by by apply v4_no_slash.
  rewrite (split_on_none "/" (nat_to_string p)) by (apply digits_not_char; [done|apply nat_to_string_digits; lia]).
  cbn [lookup list_lookup from_option id]. rewrite !normalize_v4, Hc, Hn by done. cbn [andb].
  pose proof (parse_int_Z_to_string p) as Hpi. unfold Z_to_string in Hpi. destruct (Z.ltb_spec p 0); [lia|]. rewrite Hpi.
  rewrite Vc, Vn. f_equal. by apply and32_mask.
Qed.

(** A prefix beyond 32 shifts by its value modulo 32. *)
Lemma prefix_beyond_32 : isInCidr "99.9.9.9" "10.0.0.0/33" = Ret true.
Proof. vm_compute. reflexivity. Qed.

Lemma isInCidr_spec_witness : isInCidr "10.255.0.1" "10.128.0.0/9" = Ret true.
Proof.
  change "10.128.0.0/9" with ("10.128.0.0" +:+ "/" +:+ nat_to_string 9)%stdpp.
  rewrite (isInCidr_spec "10.255.0.1" "10.128.0.0" 9); [reflexivity|reflexivity|reflexivity|lia].
Defined.

End IpAllowlist.
