(* ===== verification/Ssrf.v ===== *)
(** * Outbound URLs ([src/src/utils/ssrf.js])

    The ranges of addresses no request may be sent to, and the checks of a host
    and of a URL.  [new URL] and the lookup of names belong to the platform and
    are parameters: a URL as its protocol and host name, a name as the list of
    its addresses with their families.  Logs and audit entries are left out. *)

From Stdlib Require Import Ascii String.
From S2P Require Import Prelude JsString JsNumber Errors IpAllowlist.
Local Open Scope Z_scope.

Module Ssrf.
Import Errors IpAllowlist.

(** [ip.split('.').reduce((acc, oct) => (acc * 256 + parseInt(oct, 10)) >>> 0, 0)]: NaN becomes 0. *)
Definition ipv4ToInt (ip : string) : Z :=
  foldl (λ acc oct, match parse_int oct with Some o => to_uint32 (acc * 256 + o) | None => 0 end) 0 (split_on "." ip).

(** [~((1 << (32 - bits)) - 1) >>> 0] *)
Definition cidr_mask (bits : Z) : Z := to_uint32 (Z.lnot (to_int32 (shl32 1 (32 - bits) - 1))).

Definition ranges : list (string * Z) :=
  [("0.0.0.0", 8); ("10.0.0.0", 8); ("100.64.0.0", 10); ("127.0.0.0", 8); ("169.254.0.0", 16); ("172.16.0.0", 12);
   ("192.0.0.0", 24); ("192.168.0.0", 16); ("198.18.0.0", 15); ("198.51.100.0", 24); ("203.0.113.0", 24); ("224.0.0.0", 4);
   ("240.0.0.0", 4); ("255.255.255.255", 32)].
Definition BLOCKED_IPV4_CIDRS : list (Z * Z) := (λ r, (ipv4ToInt r.1, cidr_mask r.2)) <$> ranges.

Definition isBlockedIPv4 (ip : string) : bool :=
  let ipInt := ipv4ToInt ip in
  existsb (λ r, to_uint32 (and32 ipInt r.2) =? r.1) BLOCKED_IPV4_CIDRS.

(** [ip.toLowerCase().replace(/^\[|\]$/g, '')] *)
Definition strip_open (s : string) : string := match s with String "[" t => t | _ => s end.
Fixpoint strip_close (s : string) : string :=
  match s with String "]" EmptyString => "" | String c t => String c (strip_close t) | EmptyString => "" end.
Definition bare (ip : string) : string := strip_close (strip_open (to_lower ip)).

Definition blocked_prefixes : list string :=
  ["fc"; "fd"; "fe8"; "fe9"; "fea"; "feb"; "ff"; "2001:db8:"; "2001:10:"; "64:ff9b:"].
Definition isBlockedIPv6 (ip : string) : bool :=
  let normalized := bare ip in
  if bool_decide (normalized = "::1" ∨ normalized = "::") || existsb (λ p, starts_with p normalized) blocked_prefixes then true
  else if starts_with "::ffff:" normalized then
    let ipv4Part := str_drop 7 normalized in
    isIPv4 ipv4Part && isBlockedIPv4 ipv4Part
  else false.

Section platform.
Context (parse_url : string → option (string * string)) (lookup_host : string → outcome jserror (list (string * Z))) (production : bool).

Definition blocked (family : Z) (address : string) : bool :=
  ((family =? 4) && isBlockedIPv4 address) || ((family =? 6) && isBlockedIPv6 address).

Definition SsrfError (what : string) : jserror := EPlain ("SSRF: " +:+ what)%stdpp.

Definition assertSafeHost (hostname : string) : outcome jserror () :=
  if isIPv4 hostname then
    if isBlockedIPv4 hostname then Throw (SsrfError ("blocked IPv4 address: " +:+ hostname)%stdpp) else Ret ()
  else if isIPv6 hostname then
    if isBlockedIPv6 hostname then Throw (SsrfError ("blocked IPv6 address: " +:+ hostname)%stdpp) else Ret ()
  else
    match lookup_host hostname with
    | Throw _ => Throw (SsrfError ("DNS resolution failed for " +:+ hostname)%stdpp)
    | Ret addresses =>
        match find_first (λ a, blocked a.2 a.1) addresses with
        | Some a => Throw (SsrfError ("hostname " +:+ hostname +:+ " resolves to blocked " +:+ a.1)%stdpp)
        | None => Ret ()
        end
    end.

(** [http] is for the local host, outside production. *)
Definition allowed_protocol (protocol hostname : string) : bool :=
  bool_decide (protocol = "https:") || (bool_decide (hostname = "localhost" ∨ hostname = "127.0.0.1") && negb production).

(** The result is the parsed URL. *)
Definition assertSafeOutboundUrl (urlStr : string) : outcome jserror (string * string) :=
  match parse_url urlStr with
  | None => Throw (SsrfError ("invalid URL: " +:+ urlStr)%stdpp)
  | Some (protocol, hostname) =>
      if allowed_protocol protocol hostname then assertSafeHost hostname;; Ret (protocol, hostname)
      else Throw (SsrfError ("only HTTPS is allowed, got " +:+ protocol +:+ " in " +:+ urlStr)%stdpp)
  end.

(** The addresses a request to the host may reach, as far as the check saw. *)
Definition reaches (hostname : string) (a : string * Z) : Prop :=
  (isIPv4 hostname = true ∧ a = (hostname, 4)) ∨ (isIPv4 hostname = false ∧ isIPv6 hostname = true ∧ a = (hostname, 6)) ∨
  (isIPv4 hostname = false ∧ isIPv6 hostname = false ∧ ∃ l, lookup_host hostname = Ret l ∧ a ∈ l).

(** A URL that passes is https, or http to the local host outside production,
    and none of the addresses the check saw for its host is blocked. *)
Theorem safe_url_spec urlStr protocol hostname :
  assertSafeOutboundUrl urlStr = Ret (protocol, hostname) →
  parse_url urlStr = Some (protocol, hostname) ∧ allowed_protocol protocol hostname = true ∧
  ∀ a, reaches hostname a → blocked a.2 a.1 = false.
Proof.
  unfold assertSafeOutboundUrl. destruct (parse_url urlStr) as [[p h]|]; [|done]. destruct (allowed_protocol p h) eqn:Ha; [|done].
  destruct (assertSafeHost h) as [[]|e] eqn:Hs; [|done]. intros [= <- <-]. split_and!; [done|done|].
  revert Hs. unfold assertSafeHost, reaches, blocked. destruct (isIPv4 h) eqn:H4.
  { destruct (isBlockedIPv4 h) eqn:Hb; [done|]. intros _ a [[_ ->]|[[? _]|[? _]]]; [|done..]. cbn -[isBlockedIPv4 isBlockedIPv6]. by rewrite Hb. }
  destruct (isIPv6 h) eqn:H6.
  { destruct (isBlockedIPv6 h) eqn:Hb; [done|]. intros _ a [[? _]|[(_ & _ & ->)|(_ & ? & _)]]; [done| |done]. cbn -[isBlockedIPv4 isBlockedIPv6]. by rewrite Hb. }
  destruct (lookup_host h) as [l|]; [|done]. destruct (find_first _ l) eqn:Hf; [done|].
  intros _ a [[? _]|[(_ & ? & _)|(_ & _ & l' & [= <-] & Hin)]]; [done..|]. by apply (find_first_None _ _ _ Hf) in Hin.
Qed.
End platform.

(** ** Ranges *)

Lemma uint_mask a k : 0 <= a < 2 ^ 32 → 0 <= k <= 32 → to_uint32 (and32 a (2 ^ 32 - 2 ^ k)) = a / 2 ^ k * 2 ^ k.
Proof.
  intros Ha Hk. assert (0 < 2 ^ k <= 2 ^ 32) by (split; [apply Z.pow_pos_nonneg; lia|apply Z.pow_le_mono_r; lia]).
  unfold to_uint32, and32. rewrite int32_mod, land_mod, !int32_mod, (Z.mod_small a), (Z.mod_small (2 ^ 32 - _)) by lia.
  by apply land_mask.
Qed.

Lemma quotient_range a n k : 0 < 2 ^ k → n mod 2 ^ k = 0 → a / 2 ^ k * 2 ^ k = n ↔ n <= a < n + 2 ^ k.
Proof.
  intros Hk Hn. pose proof (Z.div_mod a (2 ^ k) ltac:(lia)). pose proof (Z.mod_pos_bound a (2 ^ k) Hk). split; [intros <-; lia|].
  intros Ha. pose proof (Z.div_mod n (2 ^ k) ltac:(lia)) as Hd. rewrite Hn in Hd.
  assert (a / 2 ^ k = n / 2 ^ k) as ->; [|lia]. symmetry. apply Z.div_unique_pos with (a - n); lia.
Qed.

Lemma ipv4ToInt_octets ip : isIPv4 ip = true →
  ipv4ToInt ip = octets_val (split_on "." ip) ∧ 0 <= octets_val (split_on "." ip) < 2 ^ 32.
Proof.
  intros Hip. split; [|by apply ipv4ToInt_val]. revert Hip. unfold isIPv4, ipv4ToInt, octets_val. intros [Hl Ho]%andb_prop.
  destruct (split_on "." ip) as [|a [|b [|c [|d [|e l]]]]]; try done. cbn [forallb] in Ho.
  repeat match goal with H : _ && _ = true |- _ => apply andb_prop in H as [? ?] end.
  destruct (octet_val a) as (Ha & Pa & _), (octet_val b) as (Hb & Pb & _), (octet_val c) as (Hc & Pc & _),
    (octet_val d) as (Hd & Pd & _); [done..|]. cbn [foldl]. rewrite Pa, Pb, Pc, Pd. unfold to_uint32.
  set (x := digits_val a) in *. set (y := digits_val b) in *. set (z := digits_val c) in *. set (w := digits_val d) in *.
  rewrite (Z.mod_small (0 * 256 + x)), (Z.mod_small ((0 * 256 + x) * 256 + y)),
    (Z.mod_small (((0 * 256 + x) * 256 + y) * 256 + z)), (Z.mod_small ((((0 * 256 + x) * 256 + y) * 256 + z) * 256 + w)) by lia. done.
Qed.

(** The masks and the networks are what the ranges say. *)
Lemma ranges_ok : Forall (λ r, isIPv4 r.1 = true ∧ 0 <= 32 - r.2 <= 32 ∧ cidr_mask r.2 = 2 ^ 32 - 2 ^ (32 - r.2) ∧
  ipv4ToInt r.1 mod 2 ^ (32 - r.2) = 0) ranges.
Proof. repeat constructor; cbn; lia. Qed.

(** An address is blocked exactly when it lies in one of the ranges. *)
Theorem blocked_ipv4_exact ip : isIPv4 ip = true →
  isBlockedIPv4 ip = true ↔
  ∃ net p, (net, p) ∈ ranges ∧
    octets_val (split_on "." net) <= octets_val (split_on "." ip) < octets_val (split_on "." net) + 2 ^ (32 - p).
Proof.
  intros Hip. destruct (ipv4ToInt_octets ip Hip) as [Hv Hr]. unfold isBlockedIPv4. cbv zeta. rewrite existsb_exists.
  pose proof ranges_ok as Hok. rewrite Forall_forall in Hok.
  assert (Hone : ∀ net p, (net, p) ∈ ranges → (to_uint32 (and32 (ipv4ToInt ip) (cidr_mask p)) =? ipv4ToInt net) = true ↔
    octets_val (split_on "." net) <= octets_val (split_on "." ip) < octets_val (split_on "." net) + 2 ^ (32 - p)).
  { intros net p Hin. destruct (Hok _ Hin) as (Hn & Hp & Hm & Hz). cbn [fst snd] in Hn, Hp, Hm, Hz. rewrite Hm, Hv, uint_mask by lia.
    rewrite Z.eqb_eq. destruct (ipv4ToInt_octets net Hn) as [Hvn _]. rewrite Hvn in Hz |- *. apply quotient_range; [|done].
    apply Z.pow_pos_nonneg; lia. }
  split.
  - intros ([n m] & Hin & Hb). apply list_elem_of_In, list_elem_of_fmap in Hin as ([net p] & [= -> ->] & Hin).
    exists net, p. split; [done|]. by apply Hone.
  - intros (net & p & Hin & Hb). exists (ipv4ToInt net, cidr_mask p). split; [|by apply Hone].
    apply list_elem_of_In, list_elem_of_fmap. by exists (net, p).
Qed.

(** An IPv4 address that is mapped into IPv6 is blocked as itself. *)
Lemma mapped_blocked ip : isIPv4 ip = true → isBlockedIPv6 ("::ffff:" +:+ ip)%stdpp = isBlockedIPv4 ip.
Proof.
  intros Hip. destruct (isIPv4_chars ip Hip) as [Hc _]. unfold isBlockedIPv6, bare.
  assert (Hl : ∀ s, str_forall v4_char s = true → to_lower s = s ∧ strip_close s = s).
  { induction s as [|c s IH]; [done|]. cbn [str_forall]. intros [Hd Hs]%andb_prop. apply IH in Hs as [Hl Hs].
    unfold to_lower in *. cbn [str_map]. rewrite Hl. split.
    - f_equal. unfold v4_char in Hd. destruct c as [[] [] [] [] [] [] [] []]; vm_compute in Hd; done.
    - cbn [strip_close]. rewrite Hs. unfold v4_char in Hd. destruct c as [[] [] [] [] [] [] [] []]; vm_compute in Hd; done. }
  destruct (Hl ip Hc) as [Hlow Hcl].
  assert (Hb : strip_close (strip_open (to_lower ("::ffff:" +:+ ip)%stdpp)) = ("::ffff:" +:+ ip)%stdpp).
  { unfold to_lower in *. cbn [String.append str_map]. rewrite Hlow. cbn -[lower_char]. change (lower_char ":") with (":"%char). change (lower_char "f") with ("f"%char). cbn. destruct ip; [done|]. by rewrite Hcl. }
  rewrite Hb. cbn -[isBlockedIPv4 isIPv4]. rewrite Hip. destruct ip; [done|]. done.
Qed.

(** ** Examples *)

(** The same address in hexadecimal is not recognised. *)
Example hex_mapped_passes :
  isIPv6 "::ffff:7f00:1" = true ∧ isBlockedIPv6 "::ffff:7f00:1" = false ∧ isBlockedIPv6 "::ffff:127.0.0.1" = true.
Proof. by vm_compute. Qed.

(** Outside production http to the local host passes the check of the protocol
    and fails that of the address. *)
Example localhost_blocked :
  allowed_protocol false "http:" "127.0.0.1" = true ∧
  is_ret (assertSafeOutboundUrl (λ _, Some ("http:", "127.0.0.1")) (λ _, Ret []) false "http://127.0.0.1") = false.
Proof. by vm_compute. Qed.

Lemma blocked_ipv4_exact_witness : isBlockedIPv4 "172.31.255.255" = true.
Proof.
  apply (blocked_ipv4_exact "172.31.255.255" eq_refl). exists "172.16.0.0", 12.
  split; [unfold ranges; rewrite !elem_of_cons; tauto|vm_compute; split; [discriminate|reflexivity]].
Defined.

Lemma safe_url_spec_witness : blocked 4 "93.184.216.34" = false.
Proof.
  assert (Hs : assertSafeOutboundUrl (λ _, Some ("https:", "example.org")) (λ _, Ret [("93.184.216.34", 4)]) true "https://example.org"
    = Ret ("https:", "example.org")) by (vm_compute; reflexivity).
  refine (proj2 (proj2 (safe_url_spec (λ _, Some ("https:", "example.org")) (λ _, Ret [("93.184.216.34", 4)]) true "https://example.org"
    "https:" "example.org" Hs)) ("93.184.216.34", 4) _).
  right. right. split; [reflexivity|]. split; [reflexivity|]. exists [("93.184.216.34", 4)]. split; [reflexivity|apply list_elem_of_here].
Defined.

End Ssrf.
