(* ===== verification/Money.v ===== *)
(** * Money ([src/src/utils/money.js], [src/src/utils/feeCalculator.js])

    Integer stroop arithmetic and the analytics fee.  A BigInt is a [Z];
    BigInt division truncates towards zero ([Z.quot]). *)

From Stdlib Require Import Ascii SpecFloat.
From S2P Require Import Prelude JsString JsNumber Errors.
Local Open Scope Z_scope.

Module Money.

Definition STROOPS_PER_XLM : Z := 10000000.
Definition BPS_DIVISOR : Z := 10000.

(** Arguments that the code passes to [String(..)] or [BigInt(..)]. *)
Inductive arg :=
| ABig (z : Z)
| ANum (n : num)
| AStr (s : string).

(** [String(x)] *)
Definition arg_to_string (a : arg) : string :=
  match a with
  | ABig z => Z_to_string z
  | ANum n => num_to_string n
  | AStr s => s
  end.

(** [BigInt(x)] *)
Definition to_BigInt (a : arg) : outcome jserror Z :=
  match a with
  | ABig z => Ret z
  | ANum n => if num_is_integer n
              then match num_floor_Z n with Some z => Ret z | None => Throw ERange end
              else Throw ERange
  | AStr s => match BigInt_of_string s with Some z => Ret z | None => Throw ESyntax end
  end.

(** [/^-?\d+(\.\d+)?$/.test(s)] *)
Definition xlm_pattern (s : string) : bool :=
  let body := match s with String "-" r => r | _ => s end in
  match split_on "." body with
  | [w] => all_digits w
  | [w; f] => all_digits w && all_digits f
  | _ => false
  end.

Definition toStroops (xlm : arg) : outcome jserror Z :=
  let str := trim (arg_to_string xlm) in
  if negb (xlm_pattern str) then Throw (EPlain ("Invalid XLM amount: " +:+ arg_to_string xlm))
  else if starts_with "-" str then
    Throw (EPlain ("Amount must be non-negative: " +:+ arg_to_string xlm))
  else
    let '(whole, frac) := match split_on "." str with
                          | w :: f :: _ => (w, f)
                          | [w] => (w, "")
                          | [] => ("", "")
                          end in
    let fracPadded := str_take 7 (pad_end 7 "0" frac) in
    w ← to_BigInt (AStr whole);
    f ← to_BigInt (AStr fracPadded);
    let stroops := w * STROOPS_PER_XLM + f in
    if stroops <? 0 then
      Throw (EPlain ("Amount must be non-negative: " +:+ arg_to_string xlm))
    else Ret stroops.

Definition fromStroops (stroops : arg) : outcome jserror string :=
  match stroops with
  | ABig stroops =>
      let abs := if stroops <? 0 then - stroops else stroops in
      let sign := if stroops <? 0 then "-" else "" in
      let whole := Z.quot abs STROOPS_PER_XLM in
      let frac := Z.rem abs STROOPS_PER_XLM in
      Ret (sign +:+ Z_to_string whole +:+ "." +:+ pad_start 7 "0" (Z_to_string frac))
  | _ => Throw (EPlain "fromStroops expects a BigInt")
  end.

(** [FeeOptions]; a missing field is [undefined]. *)
Record fee_options := {
  minFeeStroops : option arg;
  maxFeeStroops : option arg;
  surgeMultiplierBps : option arg;
}.
Definition no_options : fee_options :=
  {| minFeeStroops := None; maxFeeStroops := None; surgeMultiplierBps := None |}.

Definition calcFee (amountStroops bps : arg) (opts : fee_options) : outcome jserror Z :=
  match amountStroops with
  | ABig amount =>
      bpsBig ← to_BigInt bps;
      if bpsBig <? 0 then Throw (EPlain "calcFee: bps must be non-negative")
      else
        effectiveBps ← match surgeMultiplierBps opts with
                       | None => Ret bpsBig
                       | Some s => surgeBps ← to_BigInt s;
                                   Ret (Z.quot (bpsBig * surgeBps) BPS_DIVISOR)
                       end;
        let fee := Z.quot (amount * effectiveBps) BPS_DIVISOR in
        minFee ← match minFeeStroops opts with None => Ret 0 | Some m => to_BigInt m end;
        let fee := if fee <? minFee then minFee else fee in
        match maxFeeStroops opts with
        | None => Ret fee
        | Some m => maxFee ← to_BigInt m;
                    Ret (if fee >? maxFee then maxFee else fee)
        end
  | _ => Throw (EPlain "calcFee: amountStroops must be BigInt")
  end.

Definition addStroops (a b : arg) : outcome jserror Z :=
  x ← to_BigInt a; y ← to_BigInt b; Ret (x + y).
Definition subtractStroops (a b : arg) : outcome jserror Z :=
  x ← to_BigInt a; y ← to_BigInt b; Ret (x - y).

(** ** Fee calculator *)

Definition DEFAULT_FEE_BPS : Z := 200.
Definition MAX_FEE_BPS : Z := 500.
Definition MIN_FEE_STROOPS : Z := 100000.

Record fee_result := {
  fee : string;
  feeStroops : Z;
  feePercentage : num;
  originalAmount : string;
  totalWithFee : string;
}.

(** [None] is the missing second argument. *)
Definition calculateAnalyticsFee (amount : arg) (feeBps : option arg) : outcome jserror fee_result :=
  bps ← to_BigInt (default (ABig DEFAULT_FEE_BPS) feeBps);
  if (bps <? 0) || (bps >? MAX_FEE_BPS) then
    Throw (EPlain "Fee bps must be between 0 and 500 (5%)")
  else
    amountStroops ← toStroops amount;
    if amountStroops <=? 0 then Throw (EPlain "Amount must be a positive value")
    else
      feeStroops ← calcFee (ABig amountStroops) (ABig bps)
        {| minFeeStroops := Some (ABig MIN_FEE_STROOPS); maxFeeStroops := None;
           surgeMultiplierBps := None |};
      let totalStroops := amountStroops + feeStroops in
      fee ← fromStroops (ABig feeStroops);
      originalAmount ← fromStroops (ABig amountStroops);
      totalWithFee ← fromStroops (ABig totalStroops);
      Ret {| fee := fee; feeStroops := feeStroops;
             feePercentage := num_div (num_of_Z bps) (num_of_Z 100);
             originalAmount := originalAmount; totalWithFee := totalWithFee |}.

(** ** Reference reading of an amount *)

(** A decimal literal as [(negative, digits, scale)]: the value is
    [digits / 10 ^ scale]. *)
Definition decimal_of (s : string) : option (bool * Z * nat) :=
  if xlm_pattern s then
    let '(neg, body) := match s with String "-" r => (true, r) | _ => (false, s) end in
    match split_on "." body with
    | [w] => Some (neg, digits_val w, O)
    | [w; f] => Some (neg, digits_val (w +:+ f), String.length f)
    | _ => None
    end
  else None.

(** ** Lemmas *)

Lemma str_drop_take n s : str_take n s +:+ str_drop n s = s.
Proof. revert n. induction s as [|c s IH]; intros [|n]; cbn; try done. by rewrite IH. Qed.

Lemma str_take_length n s : (n <= String.length s)%nat → String.length (str_take n s) = n.
Proof. revert n. induction s as [|c s IH]; intros [|n]; cbn; try lia. intros. rewrite IH; lia. Qed.

Lemma str_take_forall p n s : str_forall p s = true → str_forall p (str_take n s) = true.
Proof.
  intros H. rewrite <- (str_drop_take n s), str_forall_app in H. by apply andb_prop in H as [??].
Qed.

Lemma str_drop_forall p n s : str_forall p s = true → str_forall p (str_drop n s) = true.
Proof.
  intros H. rewrite <- (str_drop_take n s), str_forall_app in H. by apply andb_prop in H as [??].
Qed.

(** Seven fractional digits of [f], padded or cut. *)
Definition frac7 (f : string) : string := str_take 7 (pad_end 7 "0" f).

Lemma frac7_all_digits f : str_forall is_digit f = true → all_digits (frac7 f) = true.
Proof.
  intros Hf. unfold all_digits, frac7.
  assert (Hp : str_forall is_digit (pad_end 7 "0" f) = true).
  { unfold pad_end. rewrite str_forall_app, Hf. by apply str_forall_repeat. }
  rewrite (str_take_forall _ 7 _ Hp).
  assert (Hl : String.length (str_take 7 (pad_end 7 "0" f)) = 7%nat).
  { apply str_take_length. unfold pad_end. rewrite str_length_app, str_length_repeat. lia. }
  by destruct (str_take 7 _).
Qed.

(** Padding and cutting is the floor of the fraction in stroops. *)
Lemma frac7_floor f :
  str_forall is_digit f = true →
  digits_val (frac7 f) = digits_val f * STROOPS_PER_XLM / 10 ^ Z.of_nat (String.length f).
Proof.
  intros Hf. unfold frac7, pad_end, STROOPS_PER_XLM.
  set (k := String.length f).
  assert (Hd : ∀ g : string, str_forall is_digit g = true → (7 <= String.length g)%nat →
    digits_val (str_take 7 g) = digits_val g * 10 ^ 7 / 10 ^ Z.of_nat (String.length g)).
  { intros g Hg Hl. rewrite <- (str_drop_take 7 g) at 2 3.
    rewrite digits_val_app, str_length_app, str_take_length, Nat2Z.inj_add by done.
    rewrite Z.pow_add_r by lia. change (Z.of_nat 7) with 7.
    set (r := str_drop 7 g). set (m := Z.of_nat (String.length r)).
    pose proof (Z.pow_pos_nonneg 10 m ltac:(lia) ltac:(lia)).
    rewrite (Z.mul_comm (10 ^ 7) (10 ^ m)), Z.div_mul_cancel_r by lia.
    rewrite Z.div_add_l by lia.
    pose proof (digits_val_nonneg r (str_drop_forall _ 7 _ Hg)).
    pose proof (digits_val_bound r (str_drop_forall _ 7 _ Hg)).
    rewrite (Z.div_small (digits_val r)) by done. lia. }
  rewrite Hd.
  - rewrite digits_val_app, str_length_app, str_length_repeat, digits_val_zeros, Z.add_0_r.
    fold k. rewrite Nat2Z.inj_add, Z.pow_add_r by lia.
    pose proof (Z.pow_pos_nonneg 10 (Z.of_nat (7 - k)) ltac:(lia) ltac:(lia)).
    rewrite <- Z.mul_assoc, (Z.mul_comm (10 ^ Z.of_nat (7 - k))), Z.mul_assoc.
    by rewrite Z.div_mul_cancel_r by lia.
  - rewrite str_forall_app, Hf. by apply str_forall_repeat.
  - rewrite str_length_app, str_length_repeat. lia.
Qed.

Lemma split_body s : s = String "-" (str_drop 1 s) ∨ starts_with "-" s = false.
Proof.
  destruct s as [|c s]; [by right|]. cbn -[Ascii.eqb].
  destruct (Ascii.eqb_spec "-" c) as [<-|]; [by left|by right].
Qed.

(** Matching on a leading minus sign. *)
Lemma match_minus {A} s (f : string → A) (d : A) :
  starts_with "-" s = false → match s with String "-" r => f r | _ => d end = d.
Proof.
  destruct s as [|c s]; [done|]. cbn -[Ascii.eqb].
  destruct (Ascii.eqb_spec "-" c) as [|Hc]; [done|]. intros _.
  destruct c as [[] [] [] [] [] [] [] []]; done.
Qed.

Lemma toStroops_parts w f :
  all_digits w = true → str_forall is_digit f = true →
  to_BigInt (AStr w) = Ret (digits_val w) ∧ to_BigInt (AStr (frac7 f)) = Ret (digits_val (frac7 f)).
Proof.
  intros Hw Hf. unfold to_BigInt.
  by rewrite !BigInt_of_digits by eauto using frac7_all_digits.
Qed.

Lemma fromStroops_shape z :
  0 <= z → fromStroops (ABig z) =
    Ret (nat_to_string (z / STROOPS_PER_XLM) +:+
         String "." (pad_start 7 "0" (nat_to_string (z mod STROOPS_PER_XLM)))).
Proof.
  intros Hz. unfold fromStroops. replace (z <? 0) with false by (symmetry; by apply Z.ltb_ge).
  rewrite Z.quot_div_nonneg, Z.rem_mod_nonneg by (unfold STROOPS_PER_XLM; lia).
  pose proof (Z.div_pos z STROOPS_PER_XLM Hz ltac:(done)).
  pose proof (Z.mod_pos_bound z STROOPS_PER_XLM ltac:(done)).
  unfold Z_to_string. rewrite !(proj2 (Z.ltb_ge _ _)) by lia. reflexivity.
Qed.

Lemma decimal_of_parts neg w f :
  all_digits w = true → all_digits f = true →
  let s := (if neg : bool then "-" else "") +:+ w +:+ String "." f in
  trim s = s ∧ decimal_of s = Some (neg, digits_val (w +:+ f), String.length f).
Proof.
  intros Hw Hf. cbv zeta.
  pose proof (all_digits_forall _ Hw) as Hwf. pose proof (all_digits_forall _ Hf) as Hff.
  split.
  - apply trim_id. rewrite !str_forall_app, (digits_not_space w) by done.
    change (str_forall ?p (String "." f)) with (str_forall p f).
    rewrite (digits_not_space f) by done. by destruct neg.
  - assert (Hs : split_on "." (w +:+ String "." f) = [w; f]).
    { by rewrite split_on_app, split_on_none by by apply digits_not_char. }
    unfold decimal_of, xlm_pattern. destruct neg; cbn [String.append].
    + by rewrite Hs, Hw, Hf.
    + assert (Hm : starts_with "-" (w +:+ String "." f) = false).
      { destruct w as [|c w]; [done|]. cbn in Hwf. apply andb_prop in Hwf as [Hc _].
        cbn -[Ascii.eqb]. destruct (Ascii.eqb_spec "-" c) as [<-|]; done. }
      rewrite !match_minus by done. by rewrite Hs, Hw, Hf.
Qed.

Lemma pad_start_digits n s :
  all_digits s = true → all_digits (pad_start n "0" s) = true ∧
  digits_val (pad_start n "0" s) = digits_val s.
Proof.
  intros Hs. unfold pad_start, all_digits.
  rewrite str_forall_app, str_forall_repeat, (all_digits_forall _ Hs) by done.
  rewrite digits_val_app, digits_val_zeros. split; [|lia].
  by destruct (n - String.length s)%nat, s.
Qed.

Lemma toStroops_val (a : arg) :
  toStroops a =
    match decimal_of (trim (arg_to_string a)) with
    | None => Throw (EPlain ("Invalid XLM amount: " +:+ arg_to_string a))
    | Some (true, _, _) => Throw (EPlain ("Amount must be non-negative: " +:+ arg_to_string a))
    | Some (false, d, k) => Ret (d * STROOPS_PER_XLM / 10 ^ Z.of_nat k)
    end.
Proof.
  unfold toStroops, decimal_of. set (s := trim _).
  destruct (xlm_pattern s) eqn:Hp; [|done]. cbn [negb].
  destruct (split_body s) as [Hs|Hs].
  { rewrite Hs in Hp |- *. unfold xlm_pattern in Hp. change (starts_with "-" _) with true. cbv iota.
    destruct (split_on "." (str_drop 1 s)) as [|w [|f [|]]]; done. }
  unfold xlm_pattern in Hp. rewrite !match_minus in * by done. rewrite Hs.
  destruct (split_on "." s) as [|w [|f [|]]]; [done| | |done].
  - destruct (toStroops_parts w "" Hp ltac:(done)) as [Hw Hf].
    change (str_take 7 (pad_end 7 "0" "")) with (frac7 ""). rewrite Hw, Hf.
    cbn -[digits_val STROOPS_PER_XLM Z.ltb frac7].
    change (frac7 "") with (str_repeat 7 "0"). rewrite digits_val_zeros.
    pose proof (digits_val_nonneg w (all_digits_forall _ Hp)).
    rewrite (proj2 (Z.ltb_ge _ _)) by (unfold STROOPS_PER_XLM; lia).
    f_equal. change (10 ^ 0) with 1. rewrite Z.div_1_r. lia.
  - apply andb_prop in Hp as [Hpw Hpf]. pose proof (all_digits_forall _ Hpf) as Hff.
    destruct (toStroops_parts w f Hpw Hff) as [Hw Hf].
    fold (frac7 f). rewrite Hw, Hf. cbn -[digits_val STROOPS_PER_XLM Z.ltb frac7].
    pose proof (digits_val_nonneg w (all_digits_forall _ Hpw)).
    pose proof (digits_val_nonneg f Hff).
    pose proof (Z.pow_pos_nonneg 10 (Z.of_nat (String.length f)) ltac:(lia) ltac:(lia)).
    rewrite frac7_floor by done.
    rewrite (proj2 (Z.ltb_ge _ _)); unfold STROOPS_PER_XLM.
    + f_equal. rewrite digits_val_app, Z.mul_add_distr_r.
      rewrite <- Z.mul_assoc, (Z.mul_comm (10 ^ _)), Z.mul_assoc, Z.div_add_l by lia. done.
    + apply Z.add_nonneg_nonneg; [lia|]. apply Z.div_pos; lia.
Qed.

(** A [bigint] is read as a whole number of XLM. *)
Lemma toStroops_integer (n : Z) : 0 <= n → toStroops (ABig n) = Ret (n * STROOPS_PER_XLM).
Proof.
  intros Hn. pose proof (nat_to_string_all_digits n Hn) as Hd.
  assert (Hs : arg_to_string (ABig n) = nat_to_string n).
  { cbn [arg_to_string]. unfold Z_to_string. by rewrite (proj2 (Z.ltb_ge _ _)) by lia. }
  assert (Ht : trim (nat_to_string n) = nat_to_string n).
  { apply trim_id. apply digits_not_space, all_digits_forall, Hd. }
  assert (Hm : starts_with "-" (nat_to_string n) = false).
  { pose proof (all_digits_forall _ Hd) as Hf. destruct (nat_to_string n) as [|c w]; [done|]. cbn in Hf.
    apply andb_prop in Hf as [Hc _]. cbn -[Ascii.eqb]. destruct (Ascii.eqb_spec "-" c) as [<-|]; done. }
  rewrite toStroops_val, Hs, Ht. unfold decimal_of, xlm_pattern.
  rewrite !match_minus by done.
  rewrite split_on_none by by apply digits_not_char, all_digits_forall.
  rewrite Hd. cbn [String.append negb String.length Z.of_nat]. f_equal.
  change (10 ^ 0) with 1. rewrite Z.div_1_r. f_equal. apply nat_to_string_val; done.
Qed.

Lemma toStroops_nonneg (a : arg) (n : Z) : toStroops a = Ret n → 0 <= n.
Proof.
  unfold toStroops. set (t := trim _). destruct (negb _); [done|]. destruct (starts_with _ _); [done|].
  destruct (match split_on "." t with _ :: _ => _ | [] => _ end) as [w f]. unfold mbind, outcome_bind, outcome_bind_def.
  destruct (to_BigInt (AStr w)) as [x|]; [|done].
  destruct (to_BigInt (AStr (str_take 7 (pad_end 7 "0" f)))) as [y|]; [|done]. cbv zeta.
  destruct (Z.ltb_spec (x * STROOPS_PER_XLM + y) 0); [done|]. by intros [= <-].
Qed.

Lemma fromStroops_read (z : Z) :
  ∃ s, fromStroops (ABig z) = Ret s ∧
       toStroops (AStr s) =
         if z <? 0 then Throw (EPlain ("Amount must be non-negative: " +:+ s)) else Ret z.
Proof.
  assert (Hz : 0 <= Z.abs z) by lia. set (n := Z.abs z) in *.
  pose proof (Z.div_pos n STROOPS_PER_XLM Hz ltac:(done)) as Hq.
  pose proof (Z.mod_pos_bound n STROOPS_PER_XLM ltac:(done)) as Hr.
  set (w := nat_to_string (n / STROOPS_PER_XLM)).
  set (f := pad_start 7 "0" (nat_to_string (n mod STROOPS_PER_XLM))).
  pose proof (nat_to_string_all_digits _ Hq) as Hw. fold w in Hw.
  destruct (pad_start_digits 7 _ (nat_to_string_all_digits _ (proj1 Hr))) as [Hf Hfv]. fold f in Hf, Hfv.
  assert (Hl : String.length f = 7%nat).
  { unfold f, pad_start. rewrite str_length_app, str_length_repeat.
    pose proof (nat_to_string_length (n mod STROOPS_PER_XLM) 7 Hr ltac:(lia)). lia. }
  exists ((if z <? 0 then "-" else "") +:+ w +:+ String "." f). split.
  - pose proof (fromStroops_shape n Hz) as Hs. fold w f in Hs. unfold fromStroops in Hs |- *.
    rewrite (proj2 (Z.ltb_ge n 0)) in Hs by done. injection Hs as Hs. cbn [String.append] in Hs.
    f_equal. destruct (Z.ltb_spec z 0).
    + replace (- z) with n by lia. cbn. f_equal. exact Hs.
    + replace z with n by lia. exact Hs.
  - destruct (decimal_of_parts (z <? 0) w f Hw Hf) as [Ht Hd].
    rewrite toStroops_val. cbn [arg_to_string]. rewrite Ht, Hd. destruct (Z.ltb_spec z 0); [done|].
    rewrite digits_val_app, Hfv, Hl. unfold w. rewrite !nat_to_string_val by lia.
    f_equal. change (10 ^ Z.of_nat 7) with STROOPS_PER_XLM. rewrite Z.div_mul by done.
    rewrite (Z.mul_comm _ STROOPS_PER_XLM), <- Z.div_mod by done. lia.
Qed.

Lemma fromStroops_toStroops z :
  0 <= z → ∃ s, fromStroops (ABig z) = Ret s ∧ toStroops (AStr s) = Ret z.
Proof.
  intros Hz. destruct (fromStroops_read z) as (s & ? & Hs). exists s. split; [done|].
  by rewrite (proj2 (Z.ltb_ge _ _) Hz) in Hs.
Qed.

Lemma calcFee_floor amount bps mn :
  0 <= amount → 0 <= bps →
  calcFee (ABig amount) (ABig bps)
    {| minFeeStroops := Some (ABig mn); maxFeeStroops := None; surgeMultiplierBps := None |}
  = Ret (Z.max mn (amount * bps / BPS_DIVISOR)).
Proof.
  intros Ha Hb. unfold calcFee. cbn -[Z.ltb Z.quot].
  rewrite (proj2 (Z.ltb_ge _ _)) by done. cbn -[Z.ltb Z.quot].
  rewrite Z.quot_div_nonneg by (unfold BPS_DIVISOR; nia).
  f_equal. destruct (Z.ltb_spec (amount * bps / BPS_DIVISOR) mn); lia.
Qed.

Lemma calcFee_clamp amount bps mn mx :
  0 <= amount → 0 <= bps →
  calcFee (ABig amount) (ABig bps)
    {| minFeeStroops := Some (ABig mn); maxFeeStroops := Some (ABig mx); surgeMultiplierBps := None |}
  = Ret (Z.min mx (Z.max mn (amount * bps / BPS_DIVISOR))).
Proof.
  intros Ha Hb. pose proof (calcFee_floor amount bps mn Ha Hb) as H.
  unfold calcFee in *. cbn -[Z.ltb Z.gtb Z.quot] in *.
  rewrite (proj2 (Z.ltb_ge bps 0)) in * by done. cbn -[Z.ltb Z.gtb Z.quot] in *.
  injection H as ->. f_equal. destruct (Z.gtb_spec (Z.max mn (amount * bps / BPS_DIVISOR)) mx); lia.
Qed.

(** ** Properties *)

(** On every argument, [toStroops] either rejects it with the message of
    the first failing check (not a decimal literal, or a negative one) or
    returns exactly the floor of the decimal value in stroops: digits beyond
    the seventh are cut, never rounded up. *)
Theorem toStroops_spec (a : arg) :
  toStroops a =
    match decimal_of (trim (arg_to_string a)) with
    | None => Throw (EPlain ("Invalid XLM amount: " +:+ arg_to_string a))
    | Some (true, _, _) => Throw (EPlain ("Amount must be non-negative: " +:+ arg_to_string a))
    | Some (false, d, k) => Ret (d * STROOPS_PER_XLM / 10 ^ Z.of_nat k)
    end.
Proof. apply toStroops_val. Qed.

(** Formatting a non-negative stroop amount and reading it back is the
    identity, and a negative amount formats to a string that is rejected. *)
Theorem stroops_roundtrip (z : Z) :
  ∃ s, fromStroops (ABig z) = Ret s ∧
       toStroops (AStr s) =
         if z <? 0 then Throw (EPlain ("Amount must be non-negative: " +:+ s)) else Ret z.
Proof. apply fromStroops_read. Qed.

(** Without a surge multiplier, [calcFee] on a non-negative amount and
    rate returns the floor of [amount * bps / 10000] clamped into
    [[min, max]] (the maximum wins over the minimum), is monotone in the amount,
    and rejects a negative rate whatever the amount is. *)
Theorem calcFee_spec (amount bps mn mx : Z) (Ha : 0 <= amount) :
  let run a := calcFee (ABig a) (ABig bps)
    {| minFeeStroops := Some (ABig mn); maxFeeStroops := Some (ABig mx);
       surgeMultiplierBps := None |} in
  (bps < 0 → run amount = Throw (EPlain "calcFee: bps must be non-negative")) ∧
  (0 <= bps → run amount = Ret (Z.min mx (Z.max mn (amount * bps / BPS_DIVISOR)))) ∧
  (0 <= bps → ∀ b, amount <= b → ∃ f g, run amount = Ret f ∧ run b = Ret g ∧ f <= g <= mx).
Proof.
  cbv zeta.
  assert (Hrun : ∀ a, 0 <= a → 0 <= bps → calcFee (ABig a) (ABig bps)
    {| minFeeStroops := Some (ABig mn); maxFeeStroops := Some (ABig mx);
       surgeMultiplierBps := None |} = Ret (Z.min mx (Z.max mn (a * bps / BPS_DIVISOR)))).
  { intros a Ha0 Hb. by apply calcFee_clamp. }
  split_and!.
  - intros Hb. unfold calcFee. cbn -[Z.ltb]. by rewrite (proj2 (Z.ltb_lt _ _) Hb).
  - by apply Hrun.
  - intros Hb b Hab. rewrite !Hrun by lia. do 2 eexists. do 2 (split; [reflexivity|]).
    assert (amount * bps / BPS_DIVISOR <= b * bps / BPS_DIVISOR); [|lia].
    apply Z.div_le_mono; [done|]. nia.
Qed.

Lemma calcFee_spec_witness :
  calcFee (ABig 1234567) (ABig 200)
    {| minFeeStroops := Some (ABig 0); maxFeeStroops := Some (ABig 100000);
       surgeMultiplierBps := None |} = Ret 24691.
Proof.
  destruct (calcFee_spec 1234567 200 0 100000 ltac:(lia)) as (_ & H & _). apply H. lia.
Defined.

(** C38: [calculateAnalyticsFee] succeeds exactly on rates between 0 and 500
    and amounts that read as a positive number of stroops.  The three displayed
    amounts then read back to the fee, the amount and their exact sum, and the
    fee is at least 0.01 XLM and otherwise at most five percent. *)
Theorem calculateAnalyticsFee_spec (a : arg) (bps : Z) :
  match calculateAnalyticsFee a (Some (ABig bps)) with
  | Ret r => ∃ z, 0 <= bps <= MAX_FEE_BPS ∧ toStroops a = Ret z ∧ 0 < z ∧
      toStroops (AStr (originalAmount r)) = Ret z ∧
      toStroops (AStr (fee r)) = Ret (feeStroops r) ∧
      toStroops (AStr (totalWithFee r)) = Ret (z + feeStroops r) ∧
      MIN_FEE_STROOPS <= feeStroops r <= Z.max MIN_FEE_STROOPS (z * 5 / 100)
  | Throw _ => bps < 0 ∨ bps > MAX_FEE_BPS ∨ ∀ z, toStroops a = Ret z → z <= 0
  end.
Proof.
  unfold calculateAnalyticsFee. cbn -[calcFee toStroops fromStroops MAX_FEE_BPS].
  destruct ((bps <? 0) || (bps >? MAX_FEE_BPS)) eqn:Hb; cbn -[calcFee toStroops fromStroops MAX_FEE_BPS].
  { rewrite orb_true_iff, Z.ltb_lt, Z.gtb_lt in Hb. lia. }
  rewrite orb_false_iff, Z.ltb_ge in Hb. destruct Hb as [Hb1 Hb2].
  assert (Hb3 : bps <= MAX_FEE_BPS) by (destruct (Z.gtb_spec bps MAX_FEE_BPS); [done|lia]).
  destruct (toStroops a) as [z|e]; cbn -[calcFee toStroops fromStroops MAX_FEE_BPS];
    [|right; right; done].
  destruct (Z.leb_spec z 0) as [Hz|Hz].
  { right; right. by intros ? [= <-]. }
  rewrite calcFee_floor by lia. cbn -[toStroops fromStroops MAX_FEE_BPS MIN_FEE_STROOPS].
  set (f := Z.max MIN_FEE_STROOPS _).
  assert (Hf : MIN_FEE_STROOPS <= f <= Z.max MIN_FEE_STROOPS (z * 5 / 100)).
  { unfold f. split; [lia|]. apply Z.max_le_compat_l. unfold BPS_DIVISOR, MAX_FEE_BPS in *.
    replace (z * 5 / 100) with (z * 500 / 10000);
      [apply Z.div_le_mono; [done|nia]|].
    replace (z * 500) with (z * 5 * 100) by lia. change 10000 with (100 * 100).
    by rewrite Z.div_mul_cancel_r. }
  assert (0 <= f) by (unfold MIN_FEE_STROOPS in *; lia).
  destruct (fromStroops_toStroops f) as (s1 & -> & H1); [lia|].
  destruct (fromStroops_toStroops z) as (s2 & -> & H2); [lia|].
  destruct (fromStroops_toStroops (z + f)) as (s3 & -> & H3); [lia|].
  cbn -[toStroops fromStroops MAX_FEE_BPS MIN_FEE_STROOPS]. exists z. split_and!; done || lia.
Qed.

End Money.
