(* ===== verification/JsRound.v ===== *)
(** * The accuracy of Numbers that hold amounts

    Sums, differences and decimal literals are rounded to the nearest Number.
    Below 2^28 the error of one rounding is at most 2^-26; three of them stay
    under half of the last of seven decimals, so [toFixed(7)] recovers the exact
    count of stroops. *)

From Stdlib Require Import Ascii SpecFloat.
From S2P Require Import Prelude JsString JsNumber Money.
Local Open Scope Z_scope.

(** ** Places of a truncated mantissa *)

(** The real [N / D] lies at [l] between [m] and [m + 1] units [u]. *)
Definition placed (N D m u : Z) (l : location) : Prop :=
  match l with
  | loc_Exact => N = m * (u * D)
  | loc_Inexact c => m * (u * D) < N < (m + 1) * (u * D) ∧ (2 * N ?= (2 * m + 1) * (u * D)) = c
  end.

Ltac solve_placed tac :=
  intros; cbn [loc_of_shr_record shr_m orb] in *; repeat match goal with H : _ ∧ _ |- _ => destruct H end;
  repeat match goal with
  | H : (_ ?= _) = Eq |- _ => apply Z.compare_eq_iff in H
  | H : (_ ?= _) = Lt |- _ => apply Z.compare_lt_iff in H
  | H : (_ ?= _) = Gt |- _ => apply Z.compare_gt_iff in H
  end;
  repeat match goal with |- _ ∧ _ => split end;
  try match goal with
  | |- (_ ?= _) = Eq => apply Z.compare_eq_iff
  | |- (_ ?= _) = Lt => apply Z.compare_lt_iff
  | |- (_ ?= _) = Gt => apply Z.compare_gt_iff
  end; tac.

Lemma shr_1_placed N D u r : 0 < u * D → 0 <= shr_m r → placed N D (shr_m r) u (loc_of_shr_record r) →
  shr_m (shr_1 r) = shr_m r / 2 ∧ placed N D (shr_m r / 2) (2 * u) (loc_of_shr_record (shr_1 r)).
Proof.
  destruct r as [m a b]. cbn [shr_m]. intros Hu Hm. replace (2 * u * D) with (2 * (u * D)) in * by ring.
  unfold placed. replace (2 * u * D) with (2 * (u * D)) by ring. set (w := u * D) in *. clearbody w.
  assert (Hdiv : ∀ p c, 0 <= c < 2 → (2 * p + c) / 2 = p) by (intros; symmetry; apply Z.div_unique_pos with c; lia).
  destruct m as [|[p|p|]|p]; [| | | |lia]; cbn [shr_1 shr_m].
  - split; [done|]. rewrite Z.div_0_l by lia. destruct a, b; cbn -[Z.mul Z.add]; solve_placed lia.
  - rewrite (Pos2Z.inj_xI p), Hdiv by lia. split; [done|].
    destruct a, b; cbn -[Z.mul Z.add]; solve_placed lia.
  - rewrite (Pos2Z.inj_xO p). replace (2 * Zpos p) with (2 * Zpos p + 0) by ring. rewrite Hdiv by lia. split; [done|].
    destruct a, b; cbn -[Z.mul Z.add]; solve_placed lia.
  - split; [done|]. change (1 / 2) with 0. destruct a, b; cbn -[Z.mul Z.add]; solve_placed lia.
Qed.

Lemma iter_placed N D n : ∀ u r, 0 < u * D → 0 <= shr_m r → placed N D (shr_m r) u (loc_of_shr_record r) →
  let r' := SpecFloat.iter_pos shr_1 n r in
  shr_m r' = shr_m r / 2 ^ Zpos n ∧ placed N D (shr_m r') (2 ^ Zpos n * u) (loc_of_shr_record r').
Proof.
  induction n as [n IH|n IH|]; intros u r Hu Hm Hp; cbn [SpecFloat.iter_pos].
  - destruct (shr_1_placed N D u r Hu Hm Hp) as [Hm1 Hp1]. rewrite <- Hm1 in Hp1.
    destruct (IH (2 * u) (shr_1 r)) as [Hm2 Hp2]; [nia|rewrite Hm1; apply Z.div_pos; lia|done|].
    assert (H2 : 0 < 2 ^ Zpos n) by (apply Z.pow_pos_nonneg; lia).
    destruct (IH (2 ^ Zpos n * (2 * u)) (SpecFloat.iter_pos shr_1 n (shr_1 r))) as [Hm3 Hp3];
      [nia|rewrite Hm2, Hm1; apply Z.div_pos; [apply Z.div_pos; lia|lia]|done|].
    assert (Hpow : 2 ^ Zpos n~1 = 2 ^ Zpos n * (2 ^ Zpos n * 2)) by (replace (Zpos n~1) with (Zpos n + (Zpos n + 1)) by lia; rewrite !Z.pow_add_r by lia; ring).
    split.
    + rewrite Hm3, Hm2, Hm1. rewrite !Z.div_div by lia. f_equal. rewrite Hpow. ring.
    + replace (2 ^ Zpos n~1 * u) with (2 ^ Zpos n * (2 ^ Zpos n * (2 * u))); [done|]. rewrite Hpow. ring.
  - destruct (IH u r) as [Hm2 Hp2]; [done..|]. assert (H2 : 0 < 2 ^ Zpos n) by (apply Z.pow_pos_nonneg; lia).
    destruct (IH (2 ^ Zpos n * u) (SpecFloat.iter_pos shr_1 n r)) as [Hm3 Hp3]; [nia|rewrite Hm2; apply Z.div_pos; lia|done|].
    assert (Hpow : 2 ^ Zpos n~0 = 2 ^ Zpos n * 2 ^ Zpos n) by (rewrite <- Z.pow_add_r by lia; f_equal; lia).
    split.
    + rewrite Hm3, Hm2, !Z.div_div by lia. f_equal. by rewrite Hpow.
    + replace (2 ^ Zpos n~0 * u) with (2 ^ Zpos n * (2 ^ Zpos n * u)); [done|]. rewrite Hpow. ring.
  - destruct (shr_1_placed N D u r Hu Hm Hp) as [Hm1 Hp1]. rewrite Hm1. change (2 ^ 1) with 2. done.
Qed.

(** ** Digits and exponents *)

Lemma digits2_pos_bounds p : 2 ^ (Zpos (digits2_pos p) - 1) <= Zpos p < 2 ^ Zpos (digits2_pos p).
Proof.
  induction p as [p IH|p IH|]; cbn [digits2_pos]; [| |done].
  all: rewrite Pos2Z.inj_succ; replace (Z.succ (Zpos (digits2_pos p)) - 1) with (Zpos (digits2_pos p) - 1 + 1) by lia;
    unfold Z.succ; rewrite !Z.pow_add_r by lia; lia.
Qed.

Lemma digits_bounds m : 0 < m → 2 ^ (Zdigits2 m - 1) <= m < 2 ^ Zdigits2 m ∧ 0 < Zdigits2 m.
Proof. intros Hm. destruct m as [|p|p]; [lia| |lia]. cbn [Zdigits2]. split; [apply digits2_pos_bounds|lia]. Qed.

(** [2 ^ (d - 1) <= m < 2 ^ d] determines [d]. *)
Lemma digits_unique m d : 0 < d → 2 ^ (d - 1) <= m < 2 ^ d → Zdigits2 m = d.
Proof.
  intros Hd Hm. assert (0 < m) by (pose proof (Z.pow_pos_nonneg 2 (d - 1)); lia). destruct (digits_bounds m) as [Hb Hp]; [done|].
  destruct (Z.lt_trichotomy (Zdigits2 m) d) as [Hlt|[?|Hgt]]; [|done|].
  - assert (2 ^ Zdigits2 m <= 2 ^ (d - 1)) by (apply Z.pow_le_mono_r; lia). lia.
  - assert (2 ^ d <= 2 ^ (Zdigits2 m - 1)) by (apply Z.pow_le_mono_r; lia). lia.
Qed.

Lemma digits_le m d : 0 <= d → 0 <= m < 2 ^ d → Zdigits2 m <= d.
Proof.
  intros Hd Hm. destruct (decide (m = 0)) as [->|]; [done|]. destruct (digits_bounds m) as [Hb Hp]; [lia|].
  destruct (Z.le_gt_cases (Zdigits2 m) d); [done|]. assert (2 ^ d <= 2 ^ (Zdigits2 m - 1)) by (apply Z.pow_le_mono_r; lia). lia.
Qed.

Lemma fexp_eq e : fexp prec emax e = Z.max (e - 53) (-1074).
Proof. done. Qed.

(** The unit of the exponent [e], in units of 2^-1074. *)
Definition unit_of (e : Z) : Z := 2 ^ (e + 1074).
Lemma unit_pos e : -1074 <= e → 0 < unit_of e.
Proof. intros. apply Z.pow_pos_nonneg; lia. Qed.
Lemma unit_add e k : -1074 <= e → 0 <= k → unit_of (e + k) = 2 ^ k * unit_of e.
Proof. intros. unfold unit_of. rewrite <- Z.pow_add_r by lia. f_equal. lia. Qed.

Lemma loc_of_record m l : loc_of_shr_record (shr_record_of_loc m l) = l.
Proof. by destruct l as [|[]]. Qed.
Lemma m_of_record m l : shr_m (shr_record_of_loc m l) = m.
Proof. by destruct l as [|[]]. Qed.

(** The shift to the exponent of the format. *)
Lemma shr_fexp_spec N D m e l : 0 < D → 0 <= m → -1074 <= e → placed N D m (unit_of e) l →
  let e' := Z.max e (fexp prec emax (Zdigits2 m + e)) in
  ∃ r, shr_fexp prec emax m e l = (r, e') ∧ shr_m r = m / 2 ^ (e' - e) ∧ placed N D (shr_m r) (unit_of e') (loc_of_shr_record r).
Proof.
  intros HD Hm He Hp. unfold shr_fexp, shr. pose proof (unit_pos e He). cbv zeta.
  set (f := fexp prec emax (Zdigits2 m + e)). destruct (f - e) as [|k|k] eqn:Hk.
  - exists (shr_record_of_loc m l). rewrite loc_of_record, m_of_record. replace (Z.max e f) with e by lia. split_and!; [done| |done].
    by rewrite Z.sub_diag, Z.div_1_r.
  - destruct (iter_placed N D k (unit_of e) (shr_record_of_loc m l)) as [Hs Hp']; [nia|by rewrite m_of_record| |].
    { by rewrite loc_of_record, m_of_record. }
    exists (SpecFloat.iter_pos shr_1 k (shr_record_of_loc m l)). replace (Z.max e f) with (e + Zpos k) by lia. split; [done|].
    rewrite Hs, m_of_record in *. replace (e + Zpos k - e) with (Zpos k) by lia. split; [done|]. by rewrite unit_add by lia.
  - exists (shr_record_of_loc m l). rewrite loc_of_record, m_of_record. replace (Z.max e f) with e by lia. split_and!; [done| |done].
    by rewrite Z.sub_diag, Z.div_1_r.
Qed.

(** Rounding to nearest even: half a unit at most. *)
Lemma round_even_near N D m u l : 0 < u * D → 0 <= m → placed N D m u l →
  let m1 := round_nearest_even m l in (m1 = m ∨ m1 = m + 1) ∧ 2 * Z.abs (m1 * (u * D) - N) <= u * D.
Proof.
  intros Hu Hm Hp. unfold placed in Hp. generalize dependent (u * D). intros w Hw Hp. destruct l as [|[]]; cbn [round_nearest_even]; cbv zeta.
  - split; [by left|lia].
  - destruct Hp as [Hn Hc%Z.compare_eq_iff]. destruct (Z.even m); (split; [tauto|lia]).
  - destruct Hp as [Hn Hc]. change (2 * N < (2 * m + 1) * w) in Hc. split; [by left|lia].
  - destruct Hp as [Hn Hc%Z.gt_lt]. split; [by right|lia].
Qed.

(** ** The rounding of a truncated mantissa *)

Definition mag (a : num) : Z := match a with S754_finite _ m e => Zpos m * unit_of e | _ => 0 end.
Definition sign_of (a : num) : bool := match a with S754_finite s _ _ => s | _ => false end.
(** The value, in units of 2^-1074. *)
Definition sval (a : num) : Z := cond_Zopp (sign_of a) (mag a).

(** Numbers below 2^29 in canonical form. *)
Definition tame (a : num) : Prop :=
  match a with
  | S754_zero _ => True
  | S754_finite _ m e => fexp prec emax (Zpos (digits2_pos m) + e) = e ∧ e <= -24
  | _ => False
  end.

Lemma tame_exponent s m e : tame (S754_finite s m e) → -1074 <= e <= -24.
Proof. cbn. rewrite fexp_eq. lia. Qed.

(** 2^28 in units of 2^-1074, and the largest error of a rounding, doubled. *)
Definition limit : Z := 2 ^ 1102.
Definition ulp : Z := 2 ^ 1049.

Lemma normalise m1 e' : 0 <= m1 <= 2 ^ 53 → -1074 <= e' <= -25 → (e' ≠ -1074 → 2 ^ 52 <= m1) →
  ∃ r e'', shr_fexp prec emax m1 e' loc_Exact = (r, e'') ∧ 0 <= shr_m r ∧ shr_m r * unit_of e'' = m1 * unit_of e' ∧
    e'' <= -24 ∧ (0 < shr_m r → fexp prec emax (Zdigits2 (shr_m r) + e'') = e'').
Proof.
  intros Hm He Hc. destruct (shr_fexp_spec (m1 * unit_of e') 1 m1 e' loc_Exact) as (r & Heq & Hr & _); [lia..|cbn; lia|].
  rewrite Heq. exists r. eexists. split; [reflexivity|]. rewrite Hr, !fexp_eq. destruct (decide (m1 = 2 ^ 53)) as [->|Hne].
  - rewrite (digits_unique (2 ^ 53) 54) by (split; reflexivity || lia). replace (Z.max e' (Z.max (54 + e' - 53) (-1074))) with (e' + 1) by lia.
    replace (e' + 1 - e') with 1 by lia. change (2 ^ 53 / 2 ^ 1) with (2 ^ 52). rewrite unit_add by lia. split_and!; [lia|lia|lia|].
    intros _. rewrite (digits_unique (2 ^ 52) 53) by (split; reflexivity || lia). lia.
  - assert (Hd : Zdigits2 m1 <= 53) by (apply digits_le; lia).
    replace (Z.max e' (Z.max (Zdigits2 m1 + e' - 53) (-1074))) with e' by lia. rewrite Z.sub_diag, Z.div_1_r.
    split_and!; [lia|done|lia|]. intros _. destruct (decide (e' = -1074)) as [->|Hs]; [lia|]. specialize (Hc Hs).
    rewrite (digits_unique m1 53) by (cbn; lia). lia.
Qed.

Lemma round_aux_near s m e l N D :
  0 < D → 0 <= m → -1074 <= e <= -25 → e <= fexp prec emax (Zdigits2 m + e) → placed N D m (unit_of e) l → N < limit * D →
  let r := binary_round_aux prec emax s m e l in
  tame r ∧ 2 * Z.abs (mag r * D - N) <= ulp * D ∧ (0 < mag r → sign_of r = s).
Proof.
  intros HD Hm He Hf Hp HN. destruct (shr_fexp_spec N D m e l HD Hm ltac:(lia) Hp) as (r1 & Heq & Hr1 & Hp1).
  pose proof (fexp_eq (Zdigits2 m + e)) as Hfe. set (e' := fexp prec emax (Zdigits2 m + e)) in *. clearbody e'. cbv zeta in Heq, Hr1, Hp1.
  replace (Z.max e e') with e' in * by lia.
  assert (Hdm : Zdigits2 m + e <= 28).
  { destruct (decide (m = 0)) as [->|]; [cbn; lia|]. destruct (digits_bounds m) as [Hb Hd]; [lia|].
    assert (Hlow : m * unit_of e < limit). { apply (Z.mul_lt_mono_pos_r D); [lia|]. destruct l; cbn in Hp; lia. }
    unfold unit_of, limit in Hlow. assert (H2 : 2 ^ (Zdigits2 m - 1) * 2 ^ (e + 1074) < 2 ^ 1102).
    { eapply Z.le_lt_trans; [|exact Hlow]. apply Z.mul_le_mono_nonneg_r; [apply Z.pow_nonneg; lia|lia]. }
    rewrite <- Z.pow_add_r in H2 by lia. apply Z.pow_lt_mono_r_iff in H2; lia. }
  assert (He' : -1074 <= e' <= -25) by lia.
  assert (Hk : 0 < 2 ^ (e' - e)) by (apply Z.pow_pos_nonneg; lia).
  assert (Hm1 : 0 <= shr_m r1 < 2 ^ 53).
  { rewrite Hr1. split; [apply Z.div_pos; lia|]. destruct (decide (m = 0)) as [->|]; [by rewrite Z.div_0_l by lia|].
    destruct (digits_bounds m) as [Hb Hd]; [lia|]. apply Z.div_lt_upper_bound; [lia|].
    eapply Z.lt_le_trans; [apply Hb|]. rewrite <- Z.pow_add_r by lia. apply Z.pow_le_mono_r; lia. }
  assert (Hlow : e' ≠ -1074 → 2 ^ 52 <= shr_m r1).
  { intros Hs. rewrite Hr1. destruct (decide (m = 0)) as [->|]; [exfalso; cbn in *; lia|].
    destruct (digits_bounds m) as [Hb Hd]; [lia|]. apply Z.div_le_lower_bound; [lia|].
    eapply Z.le_trans; [|apply Hb]. rewrite <- Z.pow_add_r by lia. apply Z.pow_le_mono_r; lia. }
  pose proof (unit_pos e' ltac:(lia)) as Hu.
  destruct (round_even_near N D (shr_m r1) (unit_of e') (loc_of_shr_record r1)) as [Hr Hn]; [nia|lia|done|].
  set (m1 := round_nearest_even (shr_m r1) (loc_of_shr_record r1)) in *.
  destruct (normalise m1 e') as (r2 & e'' & Heq2 & Hpos & Hval & Hle & Hcan); [lia|lia|intros Hs; specialize (Hlow Hs); lia|].
  intros r. assert (Hr' : r = match shr_m r2 with Z0 => S754_zero s | Zpos p => S754_finite s p e'' | Zneg _ => S754_nan end).
  { unfold r, binary_round_aux. rewrite Heq. fold m1. rewrite Heq2. destruct (shr_m r2) eqn:Hs; [done| |done].
    rewrite (proj2 (Z.leb_le _ _)); [done|]. change (emax - prec) with 971. lia. }
  assert (Hmag : mag r = m1 * unit_of e') by (rewrite Hr', <- Hval; destruct (shr_m r2); done || lia).
  assert (Hulp : unit_of e' <= ulp) by (apply Z.pow_le_mono_r; lia).
  rewrite Hmag. split_and!.
  - rewrite Hr'. destruct (shr_m r2) eqn:Hs; [done| |lia]. cbn. split; [by apply Hcan|lia].
  - replace (m1 * unit_of e' * D) with (m1 * (unit_of e' * D)) by ring. nia.
  - intros Hpos'. rewrite Hr'. destruct (shr_m r2) eqn:Hs; [|done|lia]. rewrite <- Hval in Hpos'. lia.
Qed.

(** ** Sums and differences *)

Lemma shl_align_spec m e e' : -1074 <= e' → -1074 <= e →
  let '(m', f) := shl_align m e e' in f = Z.min e e' ∧ Zpos m' * unit_of f = Zpos m * unit_of e.
Proof.
  intros He' He. unfold shl_align. destruct (e' - e) as [|d|d] eqn:Hd; [by replace (Z.min e e') with e by lia..|].
  replace (Z.min e e') with e' by lia. split; [done|]. replace e with (e' + Zpos d) by lia. rewrite unit_add by lia.
  assert (Hit : ∀ k x, Zpos (Pos.iter xO x k) = Zpos x * 2 ^ Zpos k).
  { intros k x. induction k as [|k IH] using Pos.peano_ind; [cbn; lia|]. rewrite Pos.iter_succ, Pos2Z.inj_succ, Z.pow_succ_r by lia.
    rewrite (Pos2Z.inj_xO (Pos.iter xO x k)), IH. lia. }
  rewrite Hit. ring.
Qed.

Lemma unit_le e f : -1074 <= e <= f → unit_of e <= unit_of f.
Proof. intros. apply Z.pow_le_mono_r; lia. Qed.

Lemma round_near s m e : -1074 <= e → Zpos m * unit_of e < limit →
  let r := binary_round prec emax s m e in
  tame r ∧ 2 * Z.abs (mag r - Zpos m * unit_of e) <= ulp ∧ (0 < mag r → sign_of r = s).
Proof.
  intros He Hlim. unfold binary_round. pose proof (shl_align_spec m e (fexp prec emax (Zpos (digits2_pos m) + e))) as Hs.
  rewrite fexp_eq in Hs at 1. specialize (Hs ltac:(lia) He).
  destruct (shl_align m e (fexp prec emax (Zpos (digits2_pos m) + e))) as [mz ez]. destruct Hs as [-> Hv].
  rewrite fexp_eq in *. set (ez := Z.min e _) in *.
  assert (Hdm : Zpos (digits2_pos m) + e <= 28).
  { pose proof (digits2_pos_bounds m) as [Hb _]. unfold unit_of, limit in Hlim.
    assert (H2 : 2 ^ (Zpos (digits2_pos m) - 1) * 2 ^ (e + 1074) < 2 ^ 1102).
    { eapply Z.le_lt_trans; [|exact Hlim]. apply Z.mul_le_mono_nonneg_r; [apply Z.pow_nonneg; lia|lia]. }
    rewrite <- Z.pow_add_r in H2 by lia. apply Z.pow_lt_mono_r_iff in H2; lia. }
  assert (Hez : -1074 <= ez <= -25) by lia. pose proof (unit_pos ez ltac:(lia)).
  (* the digits of the shifted mantissa *)
  assert (Hd : Zpos (digits2_pos mz) + ez = Zpos (digits2_pos m) + e).
  { pose proof (digits2_pos_bounds m) as [Hb1 Hb2]. assert (Hmz : Zpos mz = Zpos m * 2 ^ (e - ez)).
    { apply (Z.mul_cancel_r _ _ (unit_of ez)); [lia|]. rewrite Hv. replace e with (ez + (e - ez)) at 1 by lia. rewrite unit_add by lia. ring. }
    assert (0 < 2 ^ (e - ez)) by (apply Z.pow_pos_nonneg; lia).
    assert (Zdigits2 (Zpos mz) = Zpos (digits2_pos m) + (e - ez)) as Hdz; [|cbn in Hdz; lia].
    apply digits_unique; [lia|]. rewrite Hmz. split.
    - replace (Zpos (digits2_pos m) + (e - ez) - 1) with (Zpos (digits2_pos m) - 1 + (e - ez)) by lia. rewrite Z.pow_add_r by lia. nia.
    - rewrite Z.pow_add_r by lia. nia. }
  pose proof (round_aux_near s (Zpos mz) ez loc_Exact (Zpos mz * unit_of ez) 1 ltac:(lia) ltac:(lia) Hez) as Hr.
  rewrite fexp_eq in Hr. cbn [Zdigits2] in Hr. rewrite Hd in Hr. specialize (Hr ltac:(lia) ltac:(cbn; lia) ltac:(lia)).
  cbv zeta in Hr. rewrite !Z.mul_1_r, Hv in Hr. exact Hr.
Qed.

Lemma normalize_near z e : -1074 <= e → Z.abs z * unit_of e < limit →
  let r := binary_normalize prec emax z e false in tame r ∧ 2 * Z.abs (sval r - z * unit_of e) <= ulp ∧ (0 <= z → 0 <= sval r).
Proof.
  intros He Hz. unfold binary_normalize. destruct z as [|p|p]; [split_and!; done| |].
  - destruct (round_near false p e He Hz) as (Ht & Hn & Hs). split; [done|]. unfold sval.
    destruct (decide (0 < mag (binary_round prec emax false p e))) as [Hp|Hp]; [rewrite (Hs Hp); cbn; split; lia|].
    assert (mag (binary_round prec emax false p e) = 0) as H0.
    { destruct (binary_round _ _ _ _ _) as [| | |s m' e']; try done. cbn in Hp, Ht |- *. pose proof (unit_pos e'). pose proof (fexp_eq (Zpos (digits2_pos m') + e')). nia. }
    rewrite H0 in *. destruct (sign_of _); cbn; split; lia.
  - destruct (round_near true p e He Hz) as (Ht & Hn & Hs). split; [done|]. unfold sval.
    destruct (decide (0 < mag (binary_round prec emax true p e))) as [Hp|Hp]; [rewrite (Hs Hp); cbn; split; lia|].
    assert (mag (binary_round prec emax true p e) = 0) as H0.
    { destruct (binary_round _ _ _ _ _) as [| | |s m' e']; try done. cbn in Hp, Ht |- *. pose proof (unit_pos e'). pose proof (fexp_eq (Zpos (digits2_pos m') + e')). nia. }
    rewrite H0 in *. destruct (sign_of _); cbn; split; lia.
Qed.

Lemma finite_sval s m e e' : -1074 <= e' <= e → cond_Zopp s (Zpos (fst (shl_align m e e'))) * unit_of e' = sval (S754_finite s m e).
Proof.
  intros He. pose proof (shl_align_spec m e e' ltac:(lia) ltac:(lia)) as Hs. destruct (shl_align m e e') as [m' f]. destruct Hs as [-> Hv].
  rewrite Z.min_r in Hv by lia. unfold sval. cbn. destruct s; cbn; lia.
Qed.

Lemma neg_sval a : sval (num_neg a) = - sval a.
Proof. destruct a as [| | |[] m e]; cbn; unfold sval; cbn; try lia; by destruct s. Qed.
Lemma neg_tame a : tame a → tame (num_neg a).
Proof. by destruct a. Qed.

(** A sum below the limit is off by half a unit of the last place at most. *)
Lemma add_near a b : tame a → tame b → Z.abs (sval a + sval b) < limit →
  tame (num_add a b) ∧ 2 * Z.abs (sval (num_add a b) - (sval a + sval b)) <= ulp ∧ (0 <= sval a + sval b → 0 <= sval (num_add a b)).
Proof.
  intros Ha Hb Hlim. assert (Hulp : 0 <= ulp) by (apply Z.pow_nonneg; lia).
  destruct a as [s1| | |s1 m1 e1]; [|done|done|]; (destruct b as [s2| | |s2 m2 e2]; [|done|done|]).
  - destruct s1, s2; cbn; (split; [done|unfold sval; cbn; lia]).
  - change (num_add (S754_zero s1) (S754_finite s2 m2 e2)) with (S754_finite s2 m2 e2). split; [done|].
    assert (sval (S754_zero s1) = 0) as Hz by (by destruct s1). rewrite Hz in *. lia.
  - change (num_add (S754_finite s1 m1 e1) (S754_zero s2)) with (S754_finite s1 m1 e1). split; [done|].
    assert (sval (S754_zero s2) = 0) as Hz by (by destruct s2). rewrite Hz in *. lia.
  - pose proof (tame_exponent _ _ _ Ha). pose proof (tame_exponent _ _ _ Hb). unfold num_add, SFadd.
    rewrite <- (finite_sval s1 m1 e1 (Z.min e1 e2)), <- (finite_sval s2 m2 e2 (Z.min e1 e2)), <- Z.mul_add_distr_r in * by lia.
    pose proof (unit_pos (Z.min e1 e2) ltac:(lia)). rewrite Z.abs_mul, (Z.abs_eq (unit_of _)) in Hlim by lia.
    pose proof (λ H, normalize_near _ _ H Hlim) as Hnear. destruct (Hnear ltac:(lia)) as (Ht & Hn & Hs). split_and!; [done|done|]. intros Hz. apply Hs. nia.
Qed.

Lemma sub_as_add a b : num_sub a b = num_add a (num_neg b).
Proof.
  destruct a as [[]|[]| |s1 m1 e1], b as [[]|[]| |s2 m2 e2]; try done; unfold num_sub, num_add, num_neg, SFsub, SFadd, SFopp; f_equal;
    destruct s2; cbn [negb cond_Zopp]; lia.
Qed.

Lemma sub_near a b : tame a → tame b → Z.abs (sval a - sval b) < limit →
  tame (num_sub a b) ∧ 2 * Z.abs (sval (num_sub a b) - (sval a - sval b)) <= ulp ∧ (0 <= sval a - sval b → 0 <= sval (num_sub a b)).
Proof.
  intros Ha Hb Hlim. rewrite sub_as_add. pose proof (add_near a (num_neg b) Ha (neg_tame b Hb)) as H. rewrite neg_sval in H.
  rewrite Z.add_opp_r in H. by apply H.
Qed.

(** ** Decimal literals *)

Lemma dec_near n k : 0 <= n < 2 ^ 28 * 10 ^ k → 0 < k → let r := num_of_dec false n (- k) in
  tame r ∧ 2 * Z.abs (sval r * 10 ^ k - n * 2 ^ 1074) <= ulp * 10 ^ k.
Proof.
  intros Hn Hk. assert (HD : 0 < 10 ^ k) by (apply Z.pow_pos_nonneg; lia). cbv zeta.
  assert (Hulp : 0 <= ulp) by (apply Z.pow_nonneg; lia). destruct n as [|p|p]; [by split; [|cbn; nia]| |lia].
  unfold num_of_dec. destruct (Z.leb_spec 0 (- k)); [lia|]. rewrite Z.opp_involutive. unfold SFdiv_core_binary.
  rewrite !fexp_eq, !Z.add_0_r. destruct (digits_bounds (Zpos p)) as [Hp Hdp]; [lia|]. destruct (digits_bounds (10 ^ k)) as [Hd Hdd]; [lia|].
  set (d1 := Zdigits2 (Zpos p)) in *. set (d2 := Zdigits2 (10 ^ k)) in *.
  set (e' := Z.min (Z.max (d1 - d2 - 53) (-1074)) (0 - 0)).
  assert (Hsmall : d1 - d2 <= 28).
  { assert (H2 : 2 ^ (d1 - 1) < 2 ^ (28 + d2)) by (rewrite Z.pow_add_r by lia; nia). apply Z.pow_lt_mono_r_iff in H2; lia. }
  assert (He' : -1074 <= e' <= -25) by lia.
  set (m' := match 0 - 0 - e' with Z0 => Zpos p | Zpos _ => Z.shiftl (Zpos p) (0 - 0 - e') | Zneg _ => 0 end).
  assert (Hm' : m' = Zpos p * 2 ^ (- e')).
  { unfold m'. replace (0 - 0 - e') with (- e') by lia. destruct (- e') as [|x|x] eqn:Hx; [lia| |lia]. by rewrite Z.shiftl_mul_pow2 by lia. }
  clearbody m'. assert (Hpow : 0 < 2 ^ (- e')) by (apply Z.pow_pos_nonneg; lia).
  pose proof (Z_div_mod m' (10 ^ k) ltac:(lia)) as Hqr. destruct (Z.div_eucl m' (10 ^ k)) as [q r]. destruct Hqr as [Hqr Hr].
  assert (Hu : 2 ^ (- e') * unit_of e' = 2 ^ 1074) by (unfold unit_of; rewrite <- Z.pow_add_r by lia; f_equal; lia).
  pose proof (unit_pos e' ltac:(lia)) as Hup.
  assert (HN : Zpos p * 2 ^ 1074 = (q * 10 ^ k + r) * unit_of e') by (rewrite <- Hu; replace (q * 10 ^ k + r) with m' by lia; rewrite Hm'; ring).
  assert (Hq : 0 <= q) by nia.
  assert (Hplaced : placed (Zpos p * 2 ^ 1074) (10 ^ k) q (unit_of e') (new_location (10 ^ k) r)).
  { unfold new_location. assert (Z.even (10 ^ k) = true) as -> by (rewrite Z.even_pow by lia; done). unfold new_location_even.
    destruct (Z.eqb_spec r 0) as [->|Hr0]; cbn [placed]; rewrite HN.
    - ring.
    - split; [nia|]. destruct (2 * r ?= 10 ^ k) eqn:Hc.
      + apply Z.compare_eq_iff in Hc. apply Z.compare_eq_iff. nia.
      + change (2 * r < 10 ^ k) in Hc. change (2 * ((q * 10 ^ k + r) * unit_of e') < (2 * q + 1) * (unit_of e' * 10 ^ k)). nia.
      + apply Z.gt_lt in Hc. apply Z.lt_gt. nia. }
  assert (Hqd : e' <= Z.max (Zdigits2 q + e' - 53) (-1074)).
  { destruct (decide (e' = -1074)); [lia|]. assert (Hq2 : 2 ^ 52 <= q).
    { assert (Hm2 : 2 ^ 52 * 10 ^ k <= m').
      { rewrite Hm'. assert (He2 : e' <= d1 - d2 - 53) by lia.
        transitivity (2 ^ (d1 - 1) * 2 ^ (- e')); [|nia]. rewrite <- Z.pow_add_r by lia.
        transitivity (2 ^ 52 * 2 ^ d2); [nia|]. rewrite <- Z.pow_add_r by lia. apply Z.pow_le_mono_r; lia. }
      nia. }
    destruct (digits_bounds q) as [Hb Hb']; [lia|]. assert (2 ^ 52 < 2 ^ Zdigits2 q) as Hl by lia. apply Z.pow_lt_mono_r_iff in Hl; lia. }
  pose proof (round_aux_near false q e' (new_location (10 ^ k) r) (Zpos p * 2 ^ 1074) (10 ^ k) HD Hq He') as Hfin.
  rewrite fexp_eq in Hfin. specialize (Hfin ltac:(lia) Hplaced).
  assert (Hlim : Zpos p * 2 ^ 1074 < limit * 10 ^ k). { change limit with (2 ^ 28 * 2 ^ 1074). generalize dependent (2 ^ 1074). intros. nia. }
  specialize (Hfin Hlim). cbv zeta in Hfin. destruct Hfin as (Ht & Hnear & Hs). split; [done|]. unfold sval.
  destruct (binary_round_aux prec emax false q e' _) as [| | |[] m e]; cbn in Ht, Hnear, Hs |- *; try done.
  pose proof (unit_pos e ltac:(rewrite fexp_eq in Ht; lia)). specialize (Hs ltac:(lia)). done.
Qed.

(** ** Stroops *)

(** [a] holds [n] stroops, up to [k] roundings. *)
Definition stroops_of (k : Z) (a : num) (n : Z) : Prop :=
  tame a ∧ 2 * Z.abs (sval a * 10 ^ 7 - n * 2 ^ 1074) <= k * (ulp * 10 ^ 7).
(** Amounts below 2^28 XLM. *)
Definition amount_limit : Z := 2 ^ 28 * 10 ^ 7.

(** Six roundings are less than two stroops. *)
Lemma ulp_small : 6 * (ulp * 10 ^ 7) < 2 * 2 ^ 1074.
Proof. vm_compute. done. Qed.
Lemma limit_eq : limit * 10 ^ 7 = amount_limit * 2 ^ 1074.
Proof. vm_compute. done. Qed.

Lemma literal_stroops n : 0 <= n < amount_limit → stroops_of 1 (num_of_dec false n (-7)) n.
Proof. intros Hn. destruct (dec_near n 7) as [Ht Hv]; [exact Hn|lia|]. split; [done|]. by rewrite Z.mul_1_l. Qed.

Lemma add_stroops j k a b x y : stroops_of j a x → stroops_of k b y → 0 <= j → 0 <= k → j + k <= 6 → Z.abs (x + y) < amount_limit →
  stroops_of (j + k + 1) (num_add a b) (x + y).
Proof.
  intros [Ha Hx] [Hb Hy] Hj Hk Hjk Hlim. pose proof ulp_small as Hs. pose proof limit_eq as Hl.
  assert (Hulp : 0 < ulp) by (apply Z.pow_pos_nonneg; lia).
  destruct (add_near a b Ha Hb) as (Ht & Hn & _).
  - generalize dependent limit. generalize dependent amount_limit. generalize dependent ulp. generalize (2 ^ 1074) as w. intros. nia.
  - split; [done|]. change (10 ^ 7) with 10000000 in *. generalize dependent (num_add a b). generalize dependent ulp. generalize (2 ^ 1074) as w. intros. lia.
Qed.

Lemma neg_stroops k a x : stroops_of k a x → stroops_of k (num_neg a) (- x).
Proof. intros [Ht Hx]. split; [by apply neg_tame|]. rewrite neg_sval. lia. Qed.

Lemma sub_stroops j k a b x y : stroops_of j a x → stroops_of k b y → 0 <= j → 0 <= k → j + k <= 6 → Z.abs (x - y) < amount_limit →
  stroops_of (j + k + 1) (num_sub a b) (x - y).
Proof. intros Ha Hb Hj Hk Hjk Hlim. rewrite sub_as_add. rewrite <- Z.add_opp_r in *. by apply add_stroops; [|apply neg_stroops|..]. Qed.

(** ** Comparisons *)

Lemma canonical_bounds m e : fexp prec emax (Zpos (digits2_pos m) + e) = e →
  Zpos m < 2 ^ 53 ∧ (e ≠ -1074 → 2 ^ 52 <= Zpos m).
Proof.
  rewrite fexp_eq. intros He. pose proof (digits2_pos_bounds m) as [Hb1 Hb2]. split.
  - eapply Z.lt_le_trans; [exact Hb2|]. apply Z.pow_le_mono_r; lia.
  - intros Hne. eapply Z.le_trans; [|exact Hb1]. apply Z.pow_le_mono_r; lia.
Qed.

Lemma mag_lt s1 m1 e1 s2 m2 e2 : tame (S754_finite s1 m1 e1) → tame (S754_finite s2 m2 e2) → e1 < e2 →
  Zpos m1 * unit_of e1 < Zpos m2 * unit_of e2.
Proof.
  intros [H1 _] [H2 _] He. destruct (canonical_bounds m1 e1 H1) as [Hm1 _]. destruct (canonical_bounds m2 e2 H2) as [_ Hm2].
  rewrite fexp_eq in *. specialize (Hm2 ltac:(lia)). pose proof (unit_pos e1 ltac:(lia)).
  replace e2 with (e1 + (e2 - e1)) by lia. rewrite unit_add by lia. assert (Hk : 2 ^ 1 <= 2 ^ (e2 - e1)) by (apply Z.pow_le_mono_r; lia).
  generalize dependent (2 ^ (e2 - e1)). intros k Hk. generalize dependent (unit_of e1). intros u Hu.
  change (2 ^ 53) with (2 * 2 ^ 52) in Hm1. generalize dependent (2 ^ 52). intros c Hm1 Hm2.
  apply Z.lt_le_trans with (c * (2 * u)); [nia|]. apply Z.mul_le_mono_nonneg; nia.
Qed.

Lemma ltb_sval a b : tame a → tame b → num_ltb a b = true ↔ sval a < sval b.
Proof.
  intros Ha Hb. unfold num_ltb, SFltb, sval.
  destruct a as [s1| | |s1 m1 e1]; [|done|done|]; (destruct b as [s2| | |s2 m2 e2]; [|done|done|]); cbn [SFcompare mag sign_of cond_Zopp].
  - cbn. split; [done|lia].
  - pose proof (unit_pos e2 ltac:(pose proof (tame_exponent _ _ _ Hb); lia)). destruct s2; cbn [cond_Zopp]; split; (done || nia).
  - pose proof (unit_pos e1 ltac:(pose proof (tame_exponent _ _ _ Ha); lia)). destruct s1; cbn [cond_Zopp]; split; (done || nia).
  - pose proof (unit_pos e1 ltac:(pose proof (tame_exponent _ _ _ Ha); lia)). pose proof (unit_pos e2 ltac:(pose proof (tame_exponent _ _ _ Hb); lia)).
    assert (Hcmp : ∀ c : comparison, c = match e1 ?= e2 with Lt => Lt | Gt => Gt | Eq => Pos.compare_cont Eq m1 m2 end →
      c = (Zpos m1 * unit_of e1 ?= Zpos m2 * unit_of e2)).
    { intros c ->. destruct (Z.compare_spec e1 e2) as [->|Hlt|Hgt]; symmetry.
      - rewrite <- Zmult_compare_compat_r by lia. done.
      - apply Z.compare_lt_iff. by eapply mag_lt.
      - apply Z.compare_gt_iff. by eapply mag_lt. }
    specialize (Hcmp _ eq_refl).
    destruct s1, s2; cbn [cond_Zopp].
    + replace (match e1 ?= e2 with Eq => CompOpp (Pos.compare_cont Eq m1 m2) | Lt => Gt | Gt => Lt end)
        with (CompOpp (match e1 ?= e2 with Lt => Lt | Gt => Gt | Eq => Pos.compare_cont Eq m1 m2 end)) by (by destruct (e1 ?= e2)).
      rewrite Hcmp. destruct (Z.compare_spec (Zpos m1 * unit_of e1) (Zpos m2 * unit_of e2)); cbn; split; (done || lia).
    + split; [nia|done].
    + split; [done|nia].
    + rewrite Hcmp. destruct (Z.compare_spec (Zpos m1 * unit_of e1) (Zpos m2 * unit_of e2)); cbn; split; (done || lia).
Qed.

(** Amounts a stroop apart are told apart. *)
Lemma lt_stroops j k a b x y : stroops_of j a x → stroops_of k b y → 0 <= j → 0 <= k → j + k <= 6 → x < y → num_ltb a b = true.
Proof.
  intros [Ha Hx] [Hb Hy] Hj Hk Hjk Hlt. apply ltb_sval; [done..|]. pose proof ulp_small as Hs.
  assert (Hulp : 0 < ulp) by (apply Z.pow_pos_nonneg; lia).
  assert (Hsum : (j + k) * (ulp * 10 ^ 7) <= 6 * (ulp * 10 ^ 7)) by (apply Z.mul_le_mono_nonneg_r; lia).
  generalize dependent ulp. generalize (sval a) (sval b). assert (0 < 2 ^ 1074) as Hw by (apply Z.pow_pos_nonneg; lia).
  generalize dependent (2 ^ 1074). intros w Hw sa sb u. intros. assert (x * w + w <= y * w) by nia. lia.
Qed.
Lemma not_lt_stroops j k a b x y : stroops_of j a x → stroops_of k b y → 0 <= j → 0 <= k → j + k <= 6 → y < x → num_ltb a b = false.
Proof.
  intros Ha Hb Hj Hk Hjk Hlt. pose proof (lt_stroops k j b a y x Hb Ha Hk Hj ltac:(lia) Hlt) as H.
  apply ltb_sval in H; [|apply Hb|apply Ha]. destruct (num_ltb a b) eqn:Hab; [|done]. apply ltb_sval in Hab; [lia|apply Ha|apply Hb].
Qed.

(** ** Seven decimals *)

Lemma to_fixed_near a n : stroops_of 3 a n → 0 < n ∨ n = 0 ∧ 0 <= sval a → num_to_fixed 7 a = fixed_digits 7 n.
Proof.
  intros [Ht Hv] Hn. assert (Hs : 3 * (ulp * 10 ^ 7) < 2 ^ 1074) by (vm_compute; done).
  assert (Hw : 0 < 2 ^ 1074) by (apply Z.pow_pos_nonneg; lia).
  destruct a as [s| | |s m e]; [|done|done|].
  { destruct Hn as [Hn|[-> _]]; [|done]. exfalso. unfold sval in Hv. cbn [sign_of mag cond_Zopp] in Hv. generalize dependent (ulp * 10 ^ 7). generalize dependent (2 ^ 1074). intros. nia. }
  pose proof (tame_exponent _ _ _ Ht) as He. pose proof (unit_pos e ltac:(lia)) as Hu. unfold sval in Hv, Hn. cbn [sign_of mag] in Hv, Hn.
  assert (HP : 2 ^ 1074 = 2 ^ (- e) * unit_of e) by (unfold unit_of; rewrite <- Z.pow_add_r by lia; f_equal; lia).
  assert (HPp : 0 < 2 ^ (- e)) by (apply Z.pow_pos_nonneg; lia).
  destruct s.
  { exfalso. cbn [cond_Zopp] in Hv, Hn. destruct Hn as [Hn|[_ Hn]]; [|nia]. generalize dependent (ulp * 10 ^ 7). generalize dependent (2 ^ 1074). intros. nia. }
  unfold num_to_fixed. assert (Hsmall : num_geb (S754_finite false m e) (num_of_Z (10 ^ 21)) = false).
  { change (num_of_Z (10 ^ 21)) with (S754_finite false 7629394531250000 17). unfold num_geb, SFleb, SFcompare.
    rewrite (proj2 (Z.compare_gt_iff 17 e)) by lia. done. }
  rewrite Hsmall. cbn [String.append]. f_equal. unfold scaled_floor. rewrite (proj2 (Z.leb_gt _ _)) by lia.
  change (Z.of_nat 7) with 7. rewrite Z.mul_1_r. cbn [cond_Zopp] in Hv.
  set (P := 2 ^ (- e)) in *. set (X := Zpos m * (2 * 10 ^ 7)).
  assert (HX : Z.abs (X - 2 * n * P) < P).
  { apply (Z.mul_lt_mono_pos_r (unit_of e)); [done|]. rewrite <- HP. eapply Z.le_lt_trans; [|exact Hs]. etransitivity; [|exact Hv].
    rewrite <- (Z.abs_eq (unit_of e)) at 1 by lia. rewrite <- Z.abs_mul, HP. unfold X. apply Z.eq_le_incl. rewrite <- (Z.abs_eq 2) at 3 by lia.
    rewrite <- Z.abs_mul. f_equal. ring. }
  assert (HX0 : 0 <= X) by (unfold X; lia). clearbody X P. pose proof (Z.div_mod X P ltac:(lia)) as Hq. pose proof (Z.mod_pos_bound X P HPp) as Hr. set (q := X / P) in *.
  assert (Hm : 0 < n → q = 2 * n \/ q = 2 * n - 1) by nia.
  assert (Hq0 : n = 0 → q = 0). { intros ->. nia. }
  assert (q = 2 * n \/ q = 2 * n - 1) as [-> | ->] by (destruct Hn as [?|[? _]]; [tauto|left; lia]).
  - symmetry. apply Z.div_unique_pos with 1; lia.
  - symmetry. apply Z.div_unique_pos with 0; lia.
Qed.
Lemma to_fixed_stroops a n : stroops_of 3 a n → 0 < n → num_to_fixed 7 a = fixed_digits 7 n.
Proof. intros. apply to_fixed_near; tauto. Qed.

Lemma scan_digits_stop d c r : str_forall is_digit d = true → is_digit c = false → scan_digits (d +:+ String c r)%stdpp = (d, String c r).
Proof.
  intros Hd Hc. induction d as [|x d IH]; cbn; [by rewrite Hc|]. cbn in Hd. apply andb_prop in Hd as [Hx Hd]. by rewrite Hx, IH.
Qed.

Lemma str_split n (s : string) : (str_take n s +:+ str_drop n s)%stdpp = s.
Proof. revert s. induction n as [|n IH]; intros s; destruct s; cbn; try done. by rewrite IH. Qed.
Lemma str_drop_len n (s : string) : String.length (str_drop n s) = (String.length s - n)%nat.
Proof. revert s. induction n as [|n IH]; intros s; destruct s; cbn; try done. Qed.

Lemma scan_number_digit c s : is_digit c = true → scan_number (String c s) = scan_decimal false (String c s) ∧ starts_with "Infinity" (String c s) = false.
Proof. by destruct c as [[] [] [] [] [] [] [] []]. Qed.

(** A decimal text is read as its literal. *)
Lemma parse_decimal w f : all_digits w = true → str_forall is_digit f = true →
  parse_float (w +:+ String "." f)%stdpp = num_of_dec false (digits_val (w +:+ f)%stdpp) (- Z.of_nat (String.length f)).
Proof.
  intros Hw Hf. unfold parse_float. destruct w as [|c w]; [done|]. apply all_digits_forall in Hw. pose proof Hw as Hw'. cbn [str_forall] in Hw.
  apply andb_prop in Hw as [Hc Hw]. destruct (scan_number_digit c (w +:+ String "." f)%stdpp Hc) as [Hs Hi].
  cbn [String.append]. rewrite trim_start_id by (by apply digit_not_space). rewrite Hs. unfold scan_decimal. rewrite Hi.
  change (String c (w +:+ String "." f)%stdpp) with ((String c w) +:+ String "." f)%stdpp.
  rewrite (scan_digits_stop (String c w) "." f) by done. rewrite scan_digits_all by done. done.
Qed.
Lemma parse_whole w : all_digits w = true → parse_float w = num_of_dec false (digits_val w) 0.
Proof.
  intros Hw. unfold parse_float. destruct w as [|c w]; [done|]. apply all_digits_forall in Hw. pose proof Hw as Hw'. cbn [str_forall] in Hw.
  apply andb_prop in Hw as [Hc Hw]. destruct (scan_number_digit c w Hc) as [Hs Hi].
  rewrite trim_start_id by (by apply digit_not_space). rewrite Hs. unfold scan_decimal. rewrite Hi, scan_digits_all by done.
  cbn [is_empty andb scan_exponent]. assert (((String c w) +:+ "")%stdpp = String c w) as ->; [|done].
  cbn. f_equal. clear. induction w as [|x w IH]; [done|]. cbn. by rewrite IH.
Qed.

(** [toFixed(7)] is read back as the literal of as many stroops. *)
Lemma parse_fixed n : 0 <= n → parse_float (fixed_digits 7 n) = num_of_dec false n (-7).
Proof.
  intros Hn. unfold fixed_digits. pose proof (Money.pad_start_digits 8 (nat_to_string n) (nat_to_string_all_digits n Hn)) as [Had Hval].
  rewrite nat_to_string_val in Hval by done. set (ds := pad_start 8 "0" (nat_to_string n)) in *.
  assert (Hlen : (8 <= String.length ds)%nat). { unfold ds, pad_start. rewrite str_length_app, str_length_repeat. lia. }
  clearbody ds. set (k := (String.length ds - 7)%nat). pose proof (str_split k ds) as Hsp.
  assert (Hfl : String.length (str_drop k ds) = 7%nat) by (rewrite str_drop_len; unfold k; lia).
  assert (Hil : str_take k ds ≠ ""). { destruct ds as [|c ds]; [cbn in Hlen; lia|]. destruct k as [|j] eqn:Hk; [unfold k in Hk; lia|done]. }
  apply all_digits_forall in Had. rewrite <- Hsp, str_forall_app in Had. apply andb_prop in Had as [Hi Hf].
  change (str_take k ds +:+ "." +:+ str_drop k ds)%stdpp with (str_take k ds +:+ String "." (str_drop k ds))%stdpp.
  rewrite parse_decimal; [by rewrite Hsp, Hval, Hfl| |done]. unfold all_digits. rewrite Hi. by destruct (str_take k ds).
Qed.

Lemma parse_fixed_stroops n : 0 <= n < amount_limit → stroops_of 1 (parse_float (fixed_digits 7 n)) n.
Proof. intros Hn. rewrite parse_fixed by lia. by apply literal_stroops. Qed.

(** The stroops of a decimal text with at most seven decimals. *)
Definition text_stroops (w f : string) : Z := digits_val (w +:+ f)%stdpp * 10 ^ (7 - Z.of_nat (String.length f)).

Lemma dec_stroops n k : 0 <= k <= 7 → 0 <= n * 10 ^ (7 - k) < amount_limit → stroops_of 1 (num_of_dec false n (- k)) (n * 10 ^ (7 - k)).
Proof.
  intros Hk Hn. assert (Hp : 0 < 10 ^ (7 - k)) by (apply Z.pow_pos_nonneg; lia).
  assert (Hs : 10 ^ 7 = 10 ^ k * 10 ^ (7 - k)) by (rewrite <- Z.pow_add_r by lia; f_equal; lia).
  assert (Hn' : 0 <= n < 2 ^ 28 * 10 ^ k) by (unfold amount_limit in Hn; rewrite Hs in Hn; nia).
  assert (H : tame (num_of_dec false n (- k)) ∧ 2 * Z.abs (sval (num_of_dec false n (- k)) * 10 ^ k - n * 2 ^ 1074) <= ulp * 10 ^ k).
  { destruct (decide (k = 0)) as [->|]; [|by apply dec_near; [|lia]]. destruct n as [|p|p]; [by split; [|vm_compute]| |lia].
    change (num_of_dec false (Zpos p) (- 0)) with (match Zpos p * 10 ^ 0 with Zpos q => binary_round prec emax false q 0 | _ => S754_zero false end).
    change (10 ^ 0) with 1 in *. rewrite !Z.mul_1_r in *. destruct (round_near false p 0) as (Ht & Hr & Hsg); [lia|unfold unit_of, limit; cbn [Z.add]; change (2 ^ 1102) with (2 ^ 28 * 2 ^ 1074); apply Z.mul_lt_mono_pos_r; [apply Z.pow_pos_nonneg; lia|lia]|].
    split; [done|]. unfold sval. change (unit_of 0) with (2 ^ 1074) in Hr.
    destruct (binary_round prec emax false p 0) as [| | |[] m e]; cbn in Ht, Hr, Hsg |- *; try done.
    pose proof (unit_pos e ltac:(rewrite fexp_eq in Ht; lia)). specialize (Hsg ltac:(lia)). done. }
  destruct H as [Ht Hv]. split; [done|]. rewrite Hs. generalize dependent (2 ^ 1074). intros w Hv. rewrite Z.mul_1_l.
  replace (sval (num_of_dec false n (- k)) * (10 ^ k * 10 ^ (7 - k)) - n * 10 ^ (7 - k) * w)
    with ((sval (num_of_dec false n (- k)) * 10 ^ k - n * w) * 10 ^ (7 - k)) by ring.
  rewrite Z.abs_mul, (Z.abs_eq (10 ^ (7 - k))) by lia. nia.
Qed.

Lemma decimal_stroops w f : all_digits w = true → str_forall is_digit f = true → (String.length f <= 7)%nat →
  text_stroops w f < amount_limit → stroops_of 1 (parse_float (w +:+ String "." f)%stdpp) (text_stroops w f).
Proof.
  intros Hw Hf Hl Ht. rewrite parse_decimal by done. apply dec_stroops; [lia|]. split; [|done].
  apply Z.mul_nonneg_nonneg; [|apply Z.pow_nonneg; lia]. apply digits_val_nonneg. rewrite str_forall_app, Hf, andb_true_r. by apply all_digits_forall.
Qed.
Lemma whole_stroops w : all_digits w = true → digits_val w * 10 ^ 7 < amount_limit → stroops_of 1 (parse_float w) (digits_val w * 10 ^ 7).
Proof.
  intros Hw Ht. rewrite parse_whole by done. apply (dec_stroops (digits_val w) 0); [lia|]. split; [|done].
  apply Z.mul_nonneg_nonneg; [|lia]. apply digits_val_nonneg. by apply all_digits_forall.
Qed.
