(* ===== verification/TransactionState.v ===== *)
(** * Transaction states ([src/src/utils/transactionStateMachine.js])

    A state is the string the code stores.  Strings that name a property of
    every JavaScript object (such as ["constructor"]) are outside the model:
    the code never stores one, they fail [assertValidState]. *)

From S2P Require Import Prelude JsString Errors.
Local Open Scope Z_scope.

Module TransactionState.

Definition PENDING : string := "pending".
Definition QUEUED : string := "queued".
Definition SUBMITTED : string := "submitted".
Definition PENDING_CONFIRMATION : string := "pending_confirmation".
Definition CONFIRMED : string := "confirmed".
Definition FAILED : string := "failed".
Definition EXPIRED : string := "expired".

Definition TRANSACTION_STATES : list string :=
  [PENDING; QUEUED; SUBMITTED; PENDING_CONFIRMATION; CONFIRMED; FAILED; EXPIRED].

Definition LEGACY_STATE_ALIASES : list (string * string) :=
  [("completed", CONFIRMED); ("cancelled", FAILED)].

Definition VALID_TRANSITIONS : list (string * list string) :=
  [(PENDING, [QUEUED; SUBMITTED; PENDING_CONFIRMATION; CONFIRMED; FAILED]);
   (QUEUED, [SUBMITTED; FAILED]);
   (SUBMITTED, [PENDING_CONFIRMATION; CONFIRMED; FAILED]);
   (PENDING_CONFIRMATION, [CONFIRMED; FAILED]);
   (CONFIRMED, [FAILED]);
   (FAILED, []);
   (EXPIRED, [])].

Definition assoc {A} (l : list (string * A)) (k : string) : option A :=
  snd <$> find_first (λ e, bool_decide (e.1 = k)) l.

(** [None] is [undefined] or [null]. *)
Definition normalizeState (state : option string) : string :=
  match state with
  | None => PENDING
  | Some s =>
      if is_empty s then PENDING
      else let normalized := trim (to_lower s) in
           default normalized (assoc LEGACY_STATE_ALIASES normalized)
  end.

Definition isValidState (state : string) : bool := bool_decide (state ∈ TRANSACTION_STATES).

Definition assertValidState (state : string) : outcome jserror unit :=
  if isValidState state then Ret () else Throw (ValidationError_with (code_ref "INVALID_REQUEST")).

Definition canTransition (fromState toState : string) : bool :=
  if bool_decide (fromState = toState) then true
  else match assoc VALID_TRANSITIONS fromState with
       | Some tos => bool_decide (toState ∈ tos)
       | None => false
       end.

Definition assertValidTransition (fromState toState : string) : outcome jserror unit :=
  if canTransition fromState toState then Ret ()
  else Throw (BusinessLogicError (code_ref "INVALID_STATE_TRANSITION")).

(** ** Progress order *)

(** A transition to another state moves strictly up this order. *)
Definition rank (s : string) : Z :=
  match find_first (λ e, bool_decide (e.1 = s))
    [(PENDING, 0); (QUEUED, 1); (SUBMITTED, 2); (PENDING_CONFIRMATION, 3); (CONFIRMED, 4);
     (FAILED, 5); (EXPIRED, 5)] with
  | Some (_, r) => r
  | None => -1
  end.

(** Every pair of states, for the finite checks. *)
Definition state_pairs : list (string * string) :=
  s ← TRANSACTION_STATES; t ← TRANSACTION_STATES; [(s, t)].

Lemma state_pairs_all (P : string → string → bool) s t :
  forallb (λ p, P p.1 p.2) state_pairs = true →
  isValidState s = true → isValidState t = true → P s t = true.
Proof.
  intros HP Hs Ht. rewrite forallb_forall in HP.
  apply bool_decide_eq_true in Hs, Ht. apply (HP (s, t)).
  apply list_elem_of_In. unfold state_pairs.
  apply list_elem_of_bind. exists s. split; [|done].
  apply list_elem_of_bind. exists t. split; [by left|done].
Qed.

Lemma canTransition_rank s t :
  isValidState s = true → isValidState t = true → canTransition s t = true →
  s = t ∨ rank s < rank t.
Proof.
  intros Hs Ht Hc.
  pose proof (state_pairs_all (λ s t, negb (canTransition s t) || bool_decide (s = t) ||
    (rank s <? rank t)) s t eq_refl Hs Ht) as H. cbv beta in H. rewrite Hc in H. cbn in H.
  apply orb_true_iff in H as [H|H]; [left; by apply bool_decide_eq_true in H|right; by zbool].
Qed.

Lemma canTransition_from_failed t : canTransition FAILED t = true → t = FAILED.
Proof.
  unfold canTransition. case_bool_decide; [done|]. cbn. by intros ?.
Qed.

Lemma canTransition_to_expired s : canTransition s EXPIRED = true → s = EXPIRED.
Proof.
  unfold canTransition, assoc. case_bool_decide; [done|].
  cbn -[PENDING QUEUED SUBMITTED PENDING_CONFIRMATION CONFIRMED FAILED].
  repeat case_bool_decide; try done; cbn; intros H'; by apply bool_decide_eq_true in H'; set_solver.
Qed.

Lemma PENDING_valid : isValidState PENDING = true.
Proof. reflexivity. Qed.

(** ** Properties *)

(** A sequence of accepted status changes from [s]: each state is valid and
    each step passes [assertValidTransition]. *)
Fixpoint chain (s : string) (l : list string) : Prop :=
  match l with
  | [] => True
  | t :: l => isValidState t = true ∧ assertValidTransition s t = Ret () ∧ chain t l
  end.

(** How many steps of the chain change the state. *)
Fixpoint changes (s : string) (l : list string) : Z :=
  match l with
  | [] => 0
  | t :: l => (if bool_decide (s = t) then 0 else 1) + changes t l
  end.

Lemma assertValidTransition_can s t : assertValidTransition s t = Ret () → canTransition s t = true.
Proof. unfold assertValidTransition. by destruct (canTransition s t). Qed.

Lemma rank_le s : rank s <= 5.
Proof. unfold rank. cbn. repeat case_bool_decide; lia. Qed.

(** C32: The life of a transaction is finite: along any accepted sequence of
    statuses at most five steps change the status, the order
    pending < queued < submitted < pending_confirmation < confirmed < failed is
    never descended, a failed transaction stays failed, and no step enters
    [expired]. *)
Theorem status_progress (s : string) (l : list string)
    (Hs : isValidState s = true) (Hc : chain s l) :
  changes s l <= 5 - rank s ∧
  Forall (λ t, rank s <= rank t) l ∧
  (s = FAILED → Forall (eq FAILED) l) ∧
  (s ≠ EXPIRED → EXPIRED ∉ l).
Proof.
  revert s Hs Hc. induction l as [|t l IH]; intros s Hs; cbn [chain changes].
  - intros _. pose proof (rank_le s). split_and!; try done; [lia|set_solver].
  - intros (Ht & Ha%assertValidTransition_can & Hc).
    destruct (IH t Ht Hc) as (IH1 & IH2 & IH3 & IH4).
    destruct (canTransition_rank s t Hs Ht Ha) as [<-|Hlt].
    { rewrite bool_decide_true by done. split_and!; [lia|by constructor; [lia|]|..].
      - intros Hf. specialize (IH3 Hf). constructor; congruence.
      - intros He. rewrite not_elem_of_cons. naive_solver. }
    split_and!.
    + case_bool_decide; lia.
    + constructor; [lia|]. eapply Forall_impl; [exact IH2|]. cbn; lia.
    + intros ->. apply canTransition_from_failed in Ha. subst. lia.
    + intros He. rewrite not_elem_of_cons. split; [intros Heq|apply IH4; intros Heq];
        apply He, canTransition_to_expired; congruence.
Qed.

Lemma status_progress_witness :
  changes PENDING [SUBMITTED; SUBMITTED; CONFIRMED; FAILED] = 3 ∧
  changes PENDING [SUBMITTED; SUBMITTED; CONFIRMED; FAILED] <= 5 - rank PENDING.
Proof.
  split; [reflexivity|].
  apply (status_progress PENDING [SUBMITTED; SUBMITTED; CONFIRMED; FAILED]);
    [reflexivity|repeat split].
Defined.

#[global] Arguments normalizeState : simpl never.
#[global] Arguments canTransition : simpl never.
#[global] Arguments isValidState : simpl never.

End TransactionState.
