(* ===== verification/Transaction.v ===== *)
(** * Transaction model ([src/src/models/transaction.js])

    The in-memory store of donations, its idempotency index and the deferred
    writes to the [donations_store] table.  Objects have an identity: the
    store and the index hold references ([oid]), because the rollback of a
    failed write compares them with [===]. *)

From S2P Require Import Prelude JsString JsNumber JsMap Errors TransactionState.
Local Open Scope Z_scope.

Module Transaction.
Export TransactionState.

Record approval := { signerKeyId : string; approvedAt : Z }.

(** The fields of a stored transaction that the modelled code reads. *)
Record transaction := mk_tx {
  id : string;
  amount : num;
  donor : option string;
  recipient : option string;
  memo : string;
  notes : option string;
  tags : list string;
  apiKeyId : option string;
  timestamp : Z;
  status : string;
  stellarTxId : option string;
  stellarLedger : option Z;
  statusUpdatedAt : Z;
  confirmedAt : option Z;
  envelopeXdr : option string;
  feeBumpCount : Z;
  originalFee : option Z;
  currentFee : option Z;
  lastFeeBumpAt : option Z;
  idempotencyKey : option string;
  deleted_at : option Z;
  approvals : list approval;
  requiredApprovals : option Z;
  approvalExpiresAt : option Z;
  matchedDonationId : option string;
  nft : list (string * option string);
}.

(** The argument of [create]: a missing or falsy field is [None]. *)
Record tx_data := mk_data {
  d_id : option string;
  d_amount : num;
  d_donor : option string;
  d_recipient : option string;
  d_memo : option string;
  d_notes : option string;
  d_tags : list string;
  d_apiKeyId : option string;
  d_timestamp : option Z;
  d_status : option string;
  d_stellarTxId : option string;
  d_stellarLedger : option Z;
  d_statusUpdatedAt : option Z;
  d_confirmedAt : option Z;
  d_envelopeXdr : option string;
  d_feeBumpCount : Z;
  d_originalFee : option Z;
  d_currentFee : option Z;
  d_lastFeeBumpAt : option Z;
  d_idempotencyKey : option string;
  d_requiredApprovals : option Z;
  d_approvalExpiresAt : option Z;
  d_matchedDonationId : option string;
}.

Definition data (amount : num) (donor recipient key status : option string) : tx_data :=
  mk_data None amount donor recipient None None [] None None status None None None None None 0
    None None None key None None None.

(** [x || fallback] on an optional string: the empty string is falsy. *)
Definition truthy_str (x : option string) : option string :=
  match x with Some s => if is_empty s then None else Some s | None => None end.

Definition with_status (t : transaction) (s : string) (at_ : Z) : transaction :=
  mk_tx (id t) (amount t) (donor t) (recipient t) (memo t) (notes t) (tags t) (apiKeyId t)
    (timestamp t) s (stellarTxId t) (stellarLedger t) at_ (confirmedAt t) (envelopeXdr t)
    (feeBumpCount t) (originalFee t) (currentFee t) (lastFeeBumpAt t) (idempotencyKey t)
    (deleted_at t) (approvals t) (requiredApprovals t) (approvalExpiresAt t)
    (matchedDonationId t) (nft t).

(** [stellarData] of [updateStatus]; the outer option of [sd_notes] and
    [sd_tags] is [hasOwnProperty]. *)
Record stellar_data := {
  sd_transactionId : option string;
  sd_ledger : option Z;
  sd_confirmedAt : option Z;
  sd_notes : option (option string);
  sd_tags : option (option (list string));
}.
Definition no_stellar_data : stellar_data :=
  {| sd_transactionId := None; sd_ledger := None; sd_confirmedAt := None;
     sd_notes := None; sd_tags := None |}.

Definition truthy_Z (x : option Z) : option Z :=
  match x with Some z => if z =? 0 then None else Some z | None => None end.

(** [a || b], keeping [b] when [a] is falsy *)
Definition or_else {A} (a b : option A) : option A := match a with Some _ => a | None => b end.

Definition with_stellar (t : transaction) (d : stellar_data) : transaction :=
  mk_tx (id t) (amount t) (donor t) (recipient t) (memo t)
    (default (notes t) (sd_notes d))
    (match sd_tags d with
     | Some (Some l) => l
     | Some None => []
     | None => tags t
     end)
    (apiKeyId t) (timestamp t) (status t)
    (or_else (truthy_str (sd_transactionId d)) (stellarTxId t))
    (or_else (truthy_Z (sd_ledger d)) (stellarLedger t))
    (statusUpdatedAt t)
    (or_else (sd_confirmedAt d) (confirmedAt t))
    (envelopeXdr t) (feeBumpCount t) (originalFee t) (currentFee t) (lastFeeBumpAt t)
    (idempotencyKey t) (deleted_at t) (approvals t) (requiredApprovals t) (approvalExpiresAt t)
    (matchedDonationId t) (nft t).

(** [feeBumpData]: [None] is [undefined]. *)
Record fee_bump_data := {
  fb_feeBumpCount : option Z;
  fb_currentFee : option Z;
  fb_lastFeeBumpAt : option Z;
  fb_envelopeXdr : option string;
  fb_stellarTxId : option string;
}.

Definition with_fee_bump (t : transaction) (d : fee_bump_data) : transaction :=
  mk_tx (id t) (amount t) (donor t) (recipient t) (memo t) (notes t) (tags t) (apiKeyId t)
    (timestamp t) (status t) (or_else (fb_stellarTxId d) (stellarTxId t)) (stellarLedger t)
    (statusUpdatedAt t) (confirmedAt t) (or_else (fb_envelopeXdr d) (envelopeXdr t))
    (default (feeBumpCount t) (fb_feeBumpCount d)) (originalFee t)
    (or_else (fb_currentFee d) (currentFee t)) (or_else (fb_lastFeeBumpAt d) (lastFeeBumpAt t))
    (idempotencyKey t) (deleted_at t) (approvals t) (requiredApprovals t) (approvalExpiresAt t)
    (matchedDonationId t) (nft t).

Definition with_approvals (t : transaction) (l : list approval) : transaction :=
  mk_tx (id t) (amount t) (donor t) (recipient t) (memo t) (notes t) (tags t) (apiKeyId t)
    (timestamp t) (status t) (stellarTxId t) (stellarLedger t) (statusUpdatedAt t)
    (confirmedAt t) (envelopeXdr t) (feeBumpCount t) (originalFee t) (currentFee t)
    (lastFeeBumpAt t) (idempotencyKey t) (deleted_at t) l (requiredApprovals t)
    (approvalExpiresAt t) (matchedDonationId t) (nft t).

Definition with_matched (t : transaction) (m : option string) : transaction :=
  mk_tx (id t) (amount t) (donor t) (recipient t) (memo t) (notes t) (tags t) (apiKeyId t)
    (timestamp t) (status t) (stellarTxId t) (stellarLedger t) (statusUpdatedAt t)
    (confirmedAt t) (envelopeXdr t) (feeBumpCount t) (originalFee t) (currentFee t)
    (lastFeeBumpAt t) (idempotencyKey t) (deleted_at t) (approvals t) (requiredApprovals t)
    (approvalExpiresAt t) m (nft t).

Definition nft_fields : list string :=
  ["nft_asset_code"; "nft_issuer"; "nft_tx_hash"; "nft_minted_at"; "nft_mint_error"].

Definition with_nft (t : transaction) (d : list (string * option string)) : transaction :=
  let nft' := foldl (λ acc f, match map_get d f with
                              | Some v => map_set acc f v
                              | None => acc
                              end) (nft t) nft_fields in
  mk_tx (id t) (amount t) (donor t) (recipient t) (memo t) (notes t) (tags t) (apiKeyId t)
    (timestamp t) (status t) (stellarTxId t) (stellarLedger t) (statusUpdatedAt t)
    (confirmedAt t) (envelopeXdr t) (feeBumpCount t) (originalFee t) (currentFee t)
    (lastFeeBumpAt t) (idempotencyKey t) (deleted_at t) (approvals t) (requiredApprovals t)
    (approvalExpiresAt t) (matchedDonationId t) nft'.

(** ** State *)

Record obj := mk_obj { oid : nat; tx : transaction }.

(** A row of [donations_store] (migrations/033_donations_store.js). *)
Record row := { r_key : option string; r_stellar : option string; r_data : transaction }.

Record st := mk_st {
  _store : list (string * obj);
  _idempotencyIndex : list (string * obj);
  next_oid : nat;
  writes : list obj;               (* writes in flight *)
  table : list (string * row);
  events : list (string * obj);    (* lifecycle events, oldest first *)
}.

Definition init : st := mk_st [] [] O [] [] [].

Definition M := stx jserror st.

Definition set_store (s : st) x : st :=
  mk_st x (_idempotencyIndex s) (next_oid s) (writes s) (table s) (events s).
Definition set_index (s : st) x : st :=
  mk_st (_store s) x (next_oid s) (writes s) (table s) (events s).
Definition set_writes (s : st) x : st :=
  mk_st (_store s) (_idempotencyIndex s) (next_oid s) x (table s) (events s).
Definition set_table (s : st) x : st :=
  mk_st (_store s) (_idempotencyIndex s) (next_oid s) (writes s) x (events s).

(** A fresh object. *)
Definition alloc (t : transaction) : M obj := λ s,
  (Ret (mk_obj (next_oid s) t),
   mk_st (_store s) (_idempotencyIndex s) (S (next_oid s)) (writes s) (table s) (events s)).

Definition emit (name : string) (o : obj) : M unit :=
  modify_st (λ s, mk_st (_store s) (_idempotencyIndex s) (next_oid s) (writes s) (table s)
                    (events s ++ [(name, o)])).

(** ** Persistence *)

Definition _persist (o : obj) : M unit := modify_st (λ s, set_writes s (writes s ++ [o])).

(** [length(x) = 56 AND x GLOB 'G*'], on a column that may be NULL. *)
Definition address_check (x : option string) : bool :=
  match truthy_str x with
  | None => true
  | Some s => (String.length s =? 56)%nat && starts_with "G" s
  end.

Inductive db_result := DbOk (t : list (string * row)) | DbKeyConflict | DbOther.

(** The upsert of [_persist] on the table, with the table's constraints: the
    CHECKs first, then the conflict target, then the other UNIQUE columns. *)
Definition upsert (rows : list (string * row)) (t : transaction) : db_result :=
  let key := truthy_str (idempotencyKey t) in
  let stellar := truthy_str (stellarTxId t) in
  let other_has (col : row → option string) (v : option string) :=
    bool_decide (v ≠ None) &&
    existsb (λ e, bool_decide (e.1 ≠ id t) && bool_decide (col e.2 = v)) rows in
  if negb (address_check (donor t) && address_check (recipient t)) then DbOther
  else match map_get rows (id t) with
       | Some r =>
           if other_has r_stellar stellar then DbOther
           else DbOk (map_set rows (id t) {| r_key := r_key r; r_stellar := stellar; r_data := t |})
       | None =>
           if other_has r_key key then DbKeyConflict
           else if other_has r_stellar stellar then DbOther
           else DbOk (map_set rows (id t) {| r_key := key; r_stellar := stellar; r_data := t |})
       end.

Definition same_obj (x : option obj) (o : obj) : bool :=
  match x with Some y => Nat.eqb (oid y) (oid o) | None => false end.

(** The [.catch] of [_persist] *)
Definition rollback (o : obj) (s : st) : st :=
  if same_obj (map_get (_store s) (id (tx o))) o then
    let s1 := set_store s (map_del (_store s) (id (tx o))) in
    match truthy_str (idempotencyKey (tx o)) with
    | Some k => if same_obj (map_get (_idempotencyIndex s) k) o
                then set_index s1 (map_del (_idempotencyIndex s) k) else s1
    | None => s1
    end
  else s.

(** One write in flight settles. *)
Definition settle (i : nat) (s : st) : st :=
  match writes s !! i with
  | None => s
  | Some o =>
      let s := set_writes s (delete i (writes s)) in
      match upsert (table s) (tx o) with
      | DbOk rows => set_table s rows
      | DbKeyConflict => rollback o s
      | DbOther => s
      end
  end.

(** The body of [_ensureLoaded] on a readable table: every row is a new
    object, shared by the store and the index. *)
Definition load (s : st) : st :=
  foldl (λ s e,
    let o := mk_obj (next_oid s) (r_data e.2) in
    let s := mk_st (map_set (_store s) (id (tx o)) o) (_idempotencyIndex s) (S (next_oid s))
               (writes s) (table s) (events s) in
    match truthy_str (idempotencyKey (tx o)) with
    | Some k => set_index s (map_set (_idempotencyIndex s) k o)
    | None => s
    end) s (table s).

Definition _reloadFromDb (s : st) : st := load (set_index (set_store s []) []).
Definition _clearAllData (s : st) : st := set_table (set_index (set_store s []) []) [].

(** ** Operations *)

Definition new_transaction (now : Z) (uuid : string) (d : tx_data) (st_ : string) : transaction :=
  mk_tx (default uuid (truthy_str (d_id d))) (d_amount d) (d_donor d) (d_recipient d)
    (default "" (d_memo d)) (truthy_str (d_notes d)) (d_tags d) (truthy_str (d_apiKeyId d))
    (default now (d_timestamp d)) st_ (truthy_str (d_stellarTxId d)) (truthy_Z (d_stellarLedger d))
    (default now (d_statusUpdatedAt d)) (d_confirmedAt d) (truthy_str (d_envelopeXdr d))
    (d_feeBumpCount d) (truthy_Z (d_originalFee d)) (truthy_Z (d_currentFee d))
    (d_lastFeeBumpAt d) (d_idempotencyKey d) None [] (d_requiredApprovals d)
    (d_approvalExpiresAt d) (d_matchedDonationId d) [].

(** The idempotency check of [create] *)
Definition indexed (s : st) (key : option string) : option obj :=
  match key with Some k => map_get (_idempotencyIndex s) k | None => None end.

(** [uuid] is what [uuidv4()] returns. *)
Definition create (now : Z) (uuid : string) (d : tx_data) : M obj :=
  let normalizedStatus := normalizeState (or_else (truthy_str (d_status d)) (Some PENDING)) in
  lift_out (assertValidState normalizedStatus);;
  s ← get_st;
  match indexed s (truthy_str (d_idempotencyKey d)) with
  | Some existing => mret existing
  | None =>
      o ← alloc (new_transaction now uuid d normalizedStatus);
      modify_st (λ s, set_store s (map_set (_store s) (id (tx o)) o));;
      match truthy_str (idempotencyKey (tx o)) with
      | Some k => modify_st (λ s, set_index s (map_set (_idempotencyIndex s) k o))
      | None => mret ()
      end;;
      _persist o;;
      emit "donation.created" o;;
      mret o
  end.

(** [_store.get(id)], or the plain error of the update methods *)
Definition find_tx (i : string) : M obj :=
  s ← get_st;
  match map_get (_store s) i with
  | Some o => mret o
  | None => throw (EPlain ("Transaction not found: " +:+ i))
  end.

(** The common end of the update methods. *)
Definition replace (i : string) (updated : transaction) : M obj :=
  o ← alloc updated;
  modify_st (λ s, set_store s (map_set (_store s) i o));;
  _persist o;;
  mret o.

Definition status_event (s : string) : option string :=
  if bool_decide (s = SUBMITTED) then Some "donation.submitted"
  else if bool_decide (s = CONFIRMED) then Some "donation.confirmed"
  else if bool_decide (s = FAILED) then Some "donation.failed"
  else None.

Definition updateStatus (now : Z) (i : string) (status_ : option string) (d : stellar_data) : M obj :=
  o ← find_tx i;
  let currentStatus := normalizeState (Some (status (tx o))) in
  let nextStatus := normalizeState status_ in
  lift_out (assertValidState currentStatus);;
  lift_out (assertValidState nextStatus);;
  lift_out (assertValidTransition currentStatus nextStatus);;
  let previousStatusTimestamp := statusUpdatedAt (tx o) in
  let nextStatusTimestamp := Z.max now (previousStatusTimestamp + 1) in
  updated ← replace i (with_stellar (with_status (tx o) nextStatus nextStatusTimestamp) d);
  match status_event nextStatus with
  | Some name => emit name updated
  | None => mret ()
  end;;
  mret updated.

Definition updateFeeBumpData (i : string) (d : fee_bump_data) : M obj :=
  o ← find_tx i; replace i (with_fee_bump (tx o) d).
Definition updateApprovals (i : string) (l : list approval) : M obj :=
  o ← find_tx i; replace i (with_approvals (tx o) l).
Definition updateMatchedDonationId (i : string) (m : option string) : M obj :=
  o ← find_tx i; replace i (with_matched (tx o) m).
Definition updateNftData (i : string) (d : list (string * option string)) : M obj :=
  o ← find_tx i; replace i (with_nft (tx o) d).

(** ** Queries *)

Definition loadTransactions (s : st) : list obj := snd <$> _store s.

Definition getById (s : st) (i : string) : option obj :=
  match map_get (_store s) i with
  | Some o => if deleted_at (tx o) is Some _ then None else Some o
  | None => None
  end.

Definition getAll (s : st) (includeDeleted : bool) : list obj :=
  if includeDeleted then loadTransactions s
  else filter (λ o, deleted_at (tx o) = None) (loadTransactions s).

Definition getByStatus (s : st) (x : option string) : list obj :=
  filter (λ o, Some (status (tx o)) = x) (loadTransactions s).

Definition getByStellarTxId (s : st) (x : option string) : option obj :=
  find_first (λ o, bool_decide (stellarTxId (tx o) = x)) (loadTransactions s).

Definition getByDateRange (s : st) (startDate endDate : Z) : list obj :=
  filter (λ o, startDate <= timestamp (tx o) <= endDate) (loadTransactions s).

(** The local day of [date] is [[startOfDay, endOfDay]]. *)
Definition getDailyTotalByDonor (s : st) (who : option string) (startOfDay endOfDay : Z) : num :=
  foldl (λ total o, num_add total (amount (tx o))) num_zero
    (filter (λ o, donor (tx o) = who ∧ startOfDay <= timestamp (tx o) <= endOfDay ∧
                  status (tx o) ≠ "failed" ∧ status (tx o) ≠ "cancelled") (loadTransactions s)).

Record page := { p_data : list obj; p_total : Z; p_hasMore : bool }.

(** [limit] and [offset] as [parseInt] gives them, non-negative. *)
Definition getPaginated (s : st) (limit offset : nat) : page :=
  let transactions := loadTransactions s in
  {| p_data := slice offset (offset + limit) transactions;
     p_total := Z.of_nat (length transactions);
     p_hasMore := bool_decide (offset + limit < length transactions)%nat |}.

(** ** Steps *)

(** A call of the model or the settling of a write in flight; [new_id] holds
    of the identifiers that [create] may use. *)
Inductive step (new_id : string → Prop) (s : st) : st → Prop :=
| step_create now uuid d :
    new_id (default uuid (truthy_str (d_id d))) → step new_id s (create now uuid d s).2
| step_updateStatus now i x d : step new_id s (updateStatus now i x d s).2
| step_updateFeeBumpData i d : step new_id s (updateFeeBumpData i d s).2
| step_updateApprovals i l : step new_id s (updateApprovals i l s).2
| step_updateMatchedDonationId i m : step new_id s (updateMatchedDonationId i m s).2
| step_updateNftData i d : step new_id s (updateNftData i d s).2
| step_settle i : step new_id s (settle i s).

Definition objs (s : st) : list obj :=
  (_store s).*2 ++ (_idempotencyIndex s).*2 ++ writes s.

(** Objects are numbered, the store is keyed by the transaction's id, its
    statuses are valid, and every stored idempotency key is indexed under the
    same transaction. *)
Record inv (s : st) : Prop := {
  inv_nodup : NoDup (_store s).*1;
  inv_fresh : ∀ o, o ∈ objs s → (oid o < next_oid s)%nat;
  inv_coherent : ∀ o p, o ∈ objs s → p ∈ objs s → oid o = oid p → o = p;
  inv_id : ∀ i o, map_get (_store s) i = Some o → id (tx o) = i;
  inv_status : ∀ i o, map_get (_store s) i = Some o → isValidState (status (tx o)) = true;
  inv_key : ∀ i o k, map_get (_store s) i = Some o → truthy_str (idempotencyKey (tx o)) = Some k →
    ∃ e, map_get (_idempotencyIndex s) k = Some e ∧ id (tx e) = i;
}.

Lemma inv_init : inv init.
Proof. split; cbn; try (by intros; set_solver || done). constructor. Qed.

Lemma objs_elem s p : p ∈ objs s ↔ p ∈ (_store s).*2 ∨ p ∈ (_idempotencyIndex s).*2 ∨ p ∈ writes s.
Proof. unfold objs. by rewrite !elem_of_app. Qed.

Lemma objs_store s i o : map_get (_store s) i = Some o → o ∈ objs s.
Proof.
  intros H%map_get_Some_elem. unfold objs. rewrite !elem_of_app. left.
  apply list_elem_of_fmap. by exists (i, o).
Qed.

Lemma objs_index s k o : map_get (_idempotencyIndex s) k = Some o → o ∈ objs s.
Proof.
  intros H%map_get_Some_elem. unfold objs. rewrite !elem_of_app. right; left.
  apply list_elem_of_fmap. by exists (k, o).
Qed.

Lemma map_set_objs (m : list (string * obj)) i o p :
  p ∈ (map_set m i o).*2 → p = o ∨ p ∈ m.*2.
Proof.
  rewrite !list_elem_of_fmap. intros ([j q] & -> & [[_ ->]|Hin]%map_set_elem); [by left|right].
  by exists (j, q).
Qed.

Lemma map_del_objs (m : list (string * obj)) i p : p ∈ (map_del m i).*2 → p ∈ m.*2.
Proof.
  rewrite !list_elem_of_fmap. intros ([j q] & -> & [_ Hin]%map_del_elem). by exists (j, q).
Qed.

(** Discharge the last hypothesis of [objs_grow] below. *)
Ltac old_or_new :=
  let H := fresh in
  intros ?; rewrite !objs_elem; intros [H|[H|H]];
  cbn [replace alloc modify_st _persist emit set_store set_index set_writes _store
       _idempotencyIndex writes mbind mret stx_bind stx_ret snd] in H;
  first [apply map_set_objs in H as [->|H] | apply elem_of_app in H as [H|H];
         [|apply list_elem_of_singleton in H as ->] | idtac]; auto.

(** The objects after a step are old ones or the one allocated. *)
Lemma objs_grow s s' o :
  inv s → oid o = next_oid s → next_oid s' = S (next_oid s) →
  (∀ p, p ∈ objs s' → p = o ∨ p ∈ objs s) →
  (∀ p, p ∈ objs s' → (oid p < next_oid s')%nat) ∧
  (∀ p q, p ∈ objs s' → q ∈ objs s' → oid p = oid q → p = q).
Proof.
  intros Hi Ho Hn Hgrow.
  assert (Hlt : ∀ p, p ∈ objs s → (oid p < next_oid s)%nat) by apply (inv_fresh s Hi). split.
  - intros p Hp. rewrite Hn. destruct (Hgrow p Hp) as [->|Hq]; [lia|]. specialize (Hlt p Hq). lia.
  - intros p q Hp Hq Heq. destruct (Hgrow p Hp) as [->|Hp'], (Hgrow q Hq) as [->|Hq']; try done.
    + specialize (Hlt q Hq'). lia.
    + specialize (Hlt p Hp'). lia.
    + by apply (inv_coherent s Hi).
Qed.

Lemma replace_run i t s :
  replace i t s =
    (Ret (mk_obj (next_oid s) t),
     mk_st (map_set (_store s) i (mk_obj (next_oid s) t)) (_idempotencyIndex s) (S (next_oid s))
       (writes s ++ [mk_obj (next_oid s) t]) (table s) (events s)).
Proof. reflexivity. Qed.

(** Replacing a stored transaction by one with the same id and key. *)
Lemma replace_inv s i o t :
  inv s → map_get (_store s) i = Some o → id t = id (tx o) →
  idempotencyKey t = idempotencyKey (tx o) → isValidState (status t) = true →
  inv (replace i t s).2.
Proof.
  intros Hi Hg Hid Hk Hst. rewrite replace_run. set (n := mk_obj (next_oid s) t).
  destruct (objs_grow s (mk_st (map_set (_store s) i n) (_idempotencyIndex s) (S (next_oid s))
       (writes s ++ [n]) (table s) (events s)) n Hi eq_refl eq_refl) as [Hf Hc].
  { old_or_new. }
  pose proof (inv_id s Hi i o Hg) as Hoid.
  split; [by apply map_set_NoDup, inv_nodup|exact Hf|exact Hc|..]; cbn; intros j p; rewrite map_get_set; case_decide as Hij.
  - intros [= <-]. cbn. congruence.
  - apply (inv_id s Hi).
  - intros [= <-]. done.
  - apply (inv_status s Hi).
  - intros k [= <-]. cbn. rewrite Hk. subst j. by apply (inv_key s Hi).
  - intros k. by apply (inv_key s Hi).
Qed.

(** What an update method does: nothing on an unknown id, else [replace] and
    possibly an event. *)
Lemma emit_inv name o s : inv s → inv (emit name o s).2.
Proof. intros Hi. destruct Hi. by split. Qed.

Lemma create_inv now uuid d s : inv s → inv (create now uuid d s).2.
Proof.
  intros Hi. unfold create. run_st.
  set (ns := normalizeState _). unfold assertValidState.
  destruct (isValidState ns) eqn:Hv; [|done]. cbn.
  destruct (indexed s (truthy_str (d_idempotencyKey d))) eqn:Hx; [done|].
  set (t := new_transaction now uuid d ns). set (o := mk_obj (next_oid s) t).
  change (idempotencyKey t) with (d_idempotencyKey d).
  assert (Hstore : ∀ j p, map_get (map_set (_store s) (id t) o) j = Some p →
    (j = id t ∧ p = o) ∨ (j ≠ id t ∧ map_get (_store s) j = Some p)).
  { intros j p. rewrite map_get_set. case_decide; naive_solver. }
  destruct (truthy_str (d_idempotencyKey d)) as [k|] eqn:Hk; cbn in Hx |- *.
  - destruct (objs_grow s (mk_st (map_set (_store s) (id t) o)
      (map_set (_idempotencyIndex s) k o) (S (next_oid s)) (writes s ++ [o]) (table s)
      (events s ++ [("donation.created", o)])) o Hi eq_refl eq_refl) as [Hf Hc].
    { old_or_new. }
    split; [by apply map_set_NoDup, inv_nodup|exact Hf|exact Hc|..]; cbn.
    + intros j p [[-> ->]|[_ Hg]]%Hstore; [done|by apply (inv_id s Hi)].
    + intros j p [[-> ->]|[_ Hg]]%Hstore; [done|by eapply (inv_status s Hi)].
    + intros j p k' [[-> ->]|[_ Hg]]%Hstore Hk'.
      * change (idempotencyKey (tx o)) with (d_idempotencyKey d) in Hk'. rewrite Hk in Hk'.
        injection Hk' as <-. exists o. by rewrite map_get_set_eq.
      * destruct (inv_key s Hi j p k' Hg Hk') as (e & He & Hid). exists e.
        rewrite map_get_set_ne by congruence. done.
  - destruct (objs_grow s (mk_st (map_set (_store s) (id t) o)
      (_idempotencyIndex s) (S (next_oid s)) (writes s ++ [o]) (table s)
      (events s ++ [("donation.created", o)])) o Hi eq_refl eq_refl) as [Hf Hc].
    { old_or_new. }
    split; [by apply map_set_NoDup, inv_nodup|exact Hf|exact Hc|..]; cbn.
    + intros j p [[-> ->]|[_ Hg]]%Hstore; [done|by apply (inv_id s Hi)].
    + intros j p [[-> ->]|[_ Hg]]%Hstore; [done|by eapply (inv_status s Hi)].
    + intros j p k' [[-> ->]|[_ Hg]]%Hstore Hk'; [|by eapply (inv_key s Hi)].
      change (idempotencyKey (tx o)) with (d_idempotencyKey d) in Hk'. congruence.
Qed.

(** Fewer objects and a smaller store. *)
Lemma rollback_inv o s : inv s → o ∈ objs s → inv (rollback o s).
Proof.
  intros Hi Ho. unfold rollback.
  destruct (same_obj (map_get (_store s) (id (tx o))) o) eqn:Hs; [|done].
  destruct (map_get (_store s) (id (tx o))) as [o1|] eqn:Hg; [|done]. cbn in Hs.
  apply Nat.eqb_eq in Hs.
  assert (o1 = o) as -> by (apply (inv_coherent s Hi); eauto using objs_store).
  assert (Hstore : ∀ j p, map_get (map_del (_store s) (id (tx o))) j = Some p →
    id (tx o) ≠ j ∧ map_get (_store s) j = Some p).
  { intros j p. rewrite map_get_del. case_decide; done. }
  assert (Hbase : ∀ idx, (∀ k e, map_get idx k = Some e → e ∈ objs s) →
    (∀ p, p ∈ idx.*2 → p ∈ objs s) →
    (∀ k e, map_get (_idempotencyIndex s) k = Some e → id (tx e) ≠ id (tx o) →
            map_get idx k = Some e) →
    inv (set_index (set_store s (map_del (_store s) (id (tx o)))) idx)).
  { intros idx _ Hsub Hkeep.
    assert (Hin : ∀ p, p ∈ objs (set_index (set_store s (map_del (_store s) (id (tx o)))) idx) →
      p ∈ objs s).
    { intros p [H|[H|H]]%objs_elem; cbn in H; [|auto|]; apply objs_elem;
        [left; by eapply map_del_objs|by right; right]. }
    split; cbn.
    - by apply map_del_NoDup, inv_nodup.
    - intros p Hp. by apply (inv_fresh s Hi), Hin.
    - intros p q Hp Hq. apply (inv_coherent s Hi); auto.
    - intros j p [_ H]%Hstore. by apply (inv_id s Hi).
    - intros j p [_ H]%Hstore. by eapply (inv_status s Hi).
    - intros j p k [Hne H]%Hstore Hk. destruct (inv_key s Hi j p k H Hk) as (e & He & Hid).
      exists e. split; [|done]. apply Hkeep; [done|congruence]. }
  assert (Hidx : ∀ p, p ∈ (_idempotencyIndex s).*2 → p ∈ objs s).
  { intros p Hp. apply objs_elem. auto. }
  assert (Hstay : inv (set_store s (map_del (_store s) (id (tx o))))).
  { apply (Hbase (_idempotencyIndex s)); eauto using objs_index. }
  destruct (truthy_str (idempotencyKey (tx o))) as [k|]; [|done].
  destruct (same_obj (map_get (_idempotencyIndex s) k) o) eqn:Hsi; [|done].
  destruct (map_get (_idempotencyIndex s) k) as [e|] eqn:He; [|done]. cbn in Hsi.
  apply Nat.eqb_eq in Hsi.
  assert (e = o) as -> by (apply (inv_coherent s Hi); eauto using objs_index).
  apply Hbase.
  - intros k' e'. rewrite map_get_del. case_decide; [done|]. apply objs_index.
  - intros p Hp. eapply Hidx, map_del_objs, Hp.
  - intros k' e' He' Hne. rewrite map_get_del. case_decide; [congruence|done].
Qed.

Lemma writes_sub_inv s ws : (∀ o, o ∈ ws → o ∈ writes s) → inv s → inv (set_writes s ws).
Proof.
  intros Hsub Hi.
  assert (Hin : ∀ p, p ∈ objs (set_writes s ws) → p ∈ objs s).
  { intros p [H|[H|H]]%objs_elem; apply objs_elem; auto. }
  destruct Hi as [? Hf Hc ???]. split; auto.
Qed.

Lemma set_table_inv s rows : inv s → inv (set_table s rows).
Proof. intros []. by split. Qed.

Lemma settle_inv i s : inv s → inv (settle i s).
Proof.
  intros Hi. unfold settle. destruct (writes s !! i) as [o|] eqn:Ho; [|done].
  assert (Hsub : ∀ p, p ∈ delete i (writes s) → p ∈ writes s).
  { intros p Hp. exact (elem_of_sublist _ _ p Hp (sublist_delete _ _)). }
  case_match; [by apply set_table_inv, writes_sub_inv| |by apply writes_sub_inv].
  assert (Hcomm : rollback o (set_writes s (delete i (writes s))) =
    set_writes (rollback o s) (delete i (writes s))).
  { unfold rollback. cbn. by repeat case_match. }
  assert (Hw : writes (rollback o s) = writes s).
  { unfold rollback. by repeat case_match. }
  rewrite Hcomm. apply writes_sub_inv; [by rewrite Hw|].
  apply rollback_inv; [done|]. apply objs_elem. right; right. by eapply list_elem_of_lookup_2.
Qed.

(** The update methods: nothing happens on an unknown id. *)
Lemma update_inv i s (f : transaction → transaction) :
  inv s → (∀ t, id (f t) = id t ∧ idempotencyKey (f t) = idempotencyKey t ∧
                status (f t) = status t) →
  inv ((o ← find_tx i; replace i (f (tx o))) s).2.
Proof.
  intros Hi Hf. unfold find_tx, mbind, stx_bind, get_st. cbn.
  destruct (map_get (_store s) i) as [o|] eqn:Hg; [|done].
  change (inv (replace i (f (tx o)) s).2).
  destruct (Hf (tx o)) as (? & ? & Hst). eapply replace_inv; eauto.
  rewrite Hst. by eapply inv_status.
Qed.

(** [updateStatus] on every branch. *)
Lemma updateStatus_run now i x d s :
  updateStatus now i x d s =
    match map_get (_store s) i with
    | None => (Throw (EPlain ("Transaction not found: " +:+ i)), s)
    | Some o =>
        let cur := normalizeState (Some (status (tx o))) in
        let nxt := normalizeState x in
        if negb (isValidState cur && isValidState nxt) then
          (Throw (ValidationError_with (code_ref "INVALID_REQUEST")), s)
        else if negb (canTransition cur nxt) then
          (Throw (BusinessLogicError (code_ref "INVALID_STATE_TRANSITION")), s)
        else
          let n := mk_obj (next_oid s) (with_stellar
            (with_status (tx o) nxt (Z.max now (statusUpdatedAt (tx o) + 1))) d) in
          (Ret n,
           mk_st (map_set (_store s) i n) (_idempotencyIndex s) (S (next_oid s))
             (writes s ++ [n]) (table s)
             (match status_event nxt with
              | Some name => events s ++ [(name, n)]
              | None => events s
              end))
    end.
Proof.
  unfold updateStatus, find_tx. unfold mbind, stx_bind, get_st, lift_out. cbn -[code_ref].
  destruct (map_get (_store s) i) as [o|]; [|done]. cbn -[code_ref canTransition status_event].
  unfold assertValidState, assertValidTransition.
  destruct (isValidState (normalizeState (Some (status (tx o))))); [|done].
  destruct (isValidState (normalizeState x)); [|done].
  destruct (canTransition _ _); [|done]. cbn -[status_event].
  by destruct (status_event (normalizeState x)).
Qed.

Lemma updateStatus_inv now i x d s : inv s → inv (updateStatus now i x d s).2.
Proof.
  intros Hi. rewrite updateStatus_run. destruct (map_get (_store s) i) as [o|] eqn:Hg; [|done].
  cbv zeta. destruct (isValidState (normalizeState (Some _)) && isValidState _) eqn:Hv; [|done].
  apply andb_prop in Hv as [_ Hv]. cbn [negb].
  destruct (canTransition _ _); [|done]. cbn [negb snd].
  set (t := with_stellar _ d).
  pose proof (replace_inv s i o t Hi Hg eq_refl eq_refl Hv) as Hr.
  rewrite replace_run in Hr. destruct Hr. by split.
Qed.

Lemma step_inv new_id : preserves (step new_id) inv.
Proof.
  intros s s' Hi Hs. destruct Hs.
  - by apply create_inv.
  - by apply updateStatus_inv.
  - by apply (update_inv i s (λ t, with_fee_bump t d)).
  - by apply (update_inv i s (λ t, with_approvals t l)).
  - by apply (update_inv i s (λ t, with_matched t m)).
  - by apply (update_inv i s (λ t, with_nft t d)).
  - by apply settle_inv.
Qed.

Lemma normalize_valid x : isValidState x = true → normalizeState (Some x) = x.
Proof.
  intros H%bool_decide_eq_true. unfold TRANSACTION_STATES in H.
  repeat (apply elem_of_cons in H as [->|H]; [reflexivity|]). by apply elem_of_nil in H.
Qed.

(** What one transaction may look like after any number of steps. *)
Definition later (o : obj) (x : option obj) : Prop :=
  match x with
  | None => True
  | Some p => idempotencyKey (tx p) = idempotencyKey (tx o) ∧
              rank (status (tx o)) <= rank (status (tx p)) ∧
              statusUpdatedAt (tx o) <= statusUpdatedAt (tx p) ∧
              (status (tx o) = FAILED → status (tx p) = FAILED)
  end.

Lemma later_refl o : later o (Some o).
Proof. unfold later. split_and!; [done|lia|lia|done]. Qed.

Lemma later_trans o p x : later o (Some p) → later p x → later o x.
Proof.
  unfold later. destruct x as [q|]; [|done]. intros (?&?&?&?) (?&?&?&?).
  split_and!; [congruence|lia|lia|auto].
Qed.

(** A map update at [j] with a later object. *)
Lemma later_set s i j o n :
  later o (map_get (_store s) i) →
  (∀ p, map_get (_store s) j = Some p → later p (Some n)) →
  map_get (_store s) j ≠ None →
  later o (map_get (map_set (_store s) j n) i).
Proof.
  intros Ho Hn Hsome. rewrite map_get_set. case_decide as Hji; [|done]. subst j.
  destruct (map_get (_store s) i) as [p|]; [|done]. eapply later_trans; eauto.
Qed.

Lemma later_update i j o s (f : transaction → transaction) :
  later o (map_get (_store s) i) →
  (∀ t, idempotencyKey (f t) = idempotencyKey t ∧ status (f t) = status t ∧
        statusUpdatedAt (f t) = statusUpdatedAt t) →
  later o (map_get (_store ((p ← find_tx j; replace j (f (tx p))) s).2) i).
Proof.
  intros Ho Hf. unfold find_tx, mbind, stx_bind, get_st. cbn.
  destruct (map_get (_store s) j) as [p|] eqn:Hg; [|done].
  change (later o (map_get (_store (replace j (f (tx p)) s).2) i)). rewrite replace_run.
  apply later_set; [done| |congruence]. intros q. rewrite Hg. intros [= <-].
  destruct (Hf (tx p)) as (H1 & H2 & H3). unfold later. cbn. rewrite H1, H2, H3.
  split_and!; [done|lia|lia|done].
Qed.

Lemma later_updateStatus now i j x d o s :
  inv s → later o (map_get (_store s) i) →
  later o (map_get (_store (updateStatus now j x d s).2) i).
Proof.
  intros Hi Ho. rewrite updateStatus_run.
  destruct (map_get (_store s) j) as [p|] eqn:Hg; [|done]. cbv zeta.
  pose proof (inv_status s Hi j p Hg) as Hp. rewrite (normalize_valid _ Hp), Hp.
  destruct (isValidState (normalizeState x)) eqn:Hx; [|done].
  destruct (canTransition _ _) eqn:Hc; [|done]. cbn [negb andb snd _store].
  apply later_set; [done| |congruence]. intros q. rewrite Hg. intros [= <-].
  unfold later. cbn. split_and!; [done| |lia|].
  - destruct (canTransition_rank _ _ Hp Hx Hc) as [->|]; lia.
  - intros Hf. rewrite Hf in Hc. by apply canTransition_from_failed in Hc.
Qed.

Lemma later_del i o (m : list (string * obj)) j :
  later o (map_get m i) → later o (map_get (map_del m j) i).
Proof. intros H. rewrite map_get_del. by case_decide. Qed.

Lemma later_settle i k o s :
  later o (map_get (_store s) i) → later o (map_get (_store (settle k s)) i).
Proof.
  intros Ho. unfold settle. destruct (writes s !! k); [|done].
  case_match; [done| |done]. unfold rollback. cbn.
  repeat case_match; cbn; auto using later_del.
Qed.

Lemma later_create new_id now uuid d i o s :
  ¬ new_id i → new_id (default uuid (truthy_str (d_id d))) →
  later o (map_get (_store s) i) →
  later o (map_get (_store (create now uuid d s).2) i).
Proof.
  intros Hni Hnew Ho. unfold create. run_st. unfold assertValidState.
  destruct (isValidState _); [|done]. cbn.
  destruct (indexed s (truthy_str (d_idempotencyKey d))); [done|].
  assert (map_get (map_set (_store s) (default uuid (truthy_str (d_id d)))
    (mk_obj (next_oid s) (new_transaction now uuid d
       (normalizeState (or_else (truthy_str (d_status d)) (Some PENDING)))))) i =
    map_get (_store s) i) as Heq by (apply map_get_set_ne; congruence).
  destruct (truthy_str (d_idempotencyKey d)); cbn; by rewrite Heq.
Qed.

Lemma later_preserved new_id i o :
  ¬ new_id i → preserves (step new_id) (λ s, inv s ∧ later o (map_get (_store s) i)).
Proof.
  intros Hni. apply preserves_and; [apply step_inv|].
  intros s s' Hi Ho Hs. destruct Hs.
  - eapply later_create; eauto.
  - by apply later_updateStatus.
  - by apply (later_update i _ o s (λ t, with_fee_bump t d)).
  - by apply (later_update i _ o s (λ t, with_approvals t l)).
  - by apply (later_update i _ o s (λ t, with_matched t m)).
  - by apply (later_update i _ o s (λ t, with_nft t d)).
  - by apply later_settle.
Qed.

(** A replayed key is answered from the index without a change of state. *)
Lemma create_replay now uuid d s k e :
  d_idempotencyKey d = Some k → is_empty k = false → map_get (_idempotencyIndex s) k = Some e →
  isValidState (normalizeState (or_else (truthy_str (d_status d)) (Some PENDING))) = true →
  create now uuid d s = (Ret e, s).
Proof.
  intros Hk Hne He Hv. unfold create. run_st. unfold assertValidState. rewrite Hv. cbn.
  unfold indexed. by rewrite Hk; cbn; rewrite Hne, He.
Qed.

(** ** Properties *)

(** A key that is not indexed: a new object under the identifier. *)
Lemma create_fresh now u d s :
  let status_ := normalizeState (or_else (truthy_str (d_status d)) (Some PENDING)) in
  isValidState status_ = true → indexed s (truthy_str (d_idempotencyKey d)) = None →
  ∃ s', create now u d s = (Ret (mk_obj (next_oid s) (new_transaction now u d status_)), s') ∧
    _store s' = map_set (_store s) (default u (truthy_str (d_id d))) (mk_obj (next_oid s) (new_transaction now u d status_)) ∧
    table s' = table s.
Proof.
  cbv zeta. intros Hv Hi. unfold create, assertValidState. stx_unfold. rewrite Hv. cbn. rewrite Hi.
  destruct (truthy_str (d_idempotencyKey d)); by eexists.
Qed.

(** C1: At any point of any interleaving of the model's calls with the
    settling of its deferred writes (roll-backs of lost races included), an
    idempotency key belongs to at most one stored transaction, and a repeated
    [create] with that key changes nothing and answers with an object of that
    very transaction. *)
Theorem idempotency_key_unique (new_id : string → Prop) (s : st) (i k : string) (o : obj)
    (Hr : rtc (step new_id) init s) (Ho : map_get (_store s) i = Some o)
    (Hk : idempotencyKey (tx o) = Some k) (Hne : is_empty k = false) :
  (∀ j p, map_get (_store s) j = Some p → idempotencyKey (tx p) = Some k → j = i) ∧
  (∀ now uuid d, d_idempotencyKey d = Some k →
     isValidState (normalizeState (or_else (truthy_str (d_status d)) (Some PENDING))) = true →
     ∃ e, create now uuid d s = (Ret e, s) ∧ id (tx e) = i).
Proof.
  pose proof (preserves_rtc _ _ _ _ (step_inv new_id) Hr inv_init) as Hi.
  assert (Hkey : ∀ j p, map_get (_store s) j = Some p → idempotencyKey (tx p) = Some k →
    ∃ e, map_get (_idempotencyIndex s) k = Some e ∧ id (tx e) = j).
  { intros j p Hp Hpk. apply (inv_key s Hi j p k Hp). rewrite Hpk. cbn. by rewrite Hne. }
  destruct (Hkey i o Ho Hk) as (e & He & Hid). split.
  - intros j p Hp Hpk. destruct (Hkey j p Hp Hpk) as (e' & He' & Hid'). congruence.
  - intros now uuid d Hd Hv. exists e. split; [|done]. by eapply create_replay.
Qed.

(** The state after one [create] and one [updateStatus]. *)
Definition demo_data : tx_data := data (num_of_Z 5) None None (Some "key-1") None.
Definition demo1 : st := (create 1000 "tx-1" demo_data init).2.
Definition demo2 : st := (updateStatus 2000 "tx-1" (Some CONFIRMED) no_stellar_data demo1).2.

Lemma demo2_reachable : rtc (step (eq "tx-1")) init demo2.
Proof.
  eapply rtc_l; [by apply (step_create _ _ 1000 "tx-1" demo_data)|].
  eapply rtc_l; [apply step_updateStatus|]. constructor.
Qed.

Lemma idempotency_key_unique_witness :
  ∃ o, map_get (_store demo2) "tx-1" = Some o ∧
       ∀ j p, map_get (_store demo2) j = Some p → idempotencyKey (tx p) = Some "key-1" → j = "tx-1".
Proof.
  eexists. split; [vm_compute; reflexivity|].
  refine (proj1 (idempotency_key_unique (eq "tx-1") demo2 "tx-1" "key-1" _ demo2_reachable _ _ _));
    vm_compute; reflexivity.
Defined.

(** C4: Whatever the model's later calls and deferred writes do, as long as no
    new transaction reuses its identifier, a stored transaction keeps its
    idempotency key, its status never moves down the progress order, its
    [statusUpdatedAt] never goes back, and a failed transaction stays failed. *)
Theorem transaction_progress (before new_id : string → Prop) (s s' : st) (i : string) (o p : obj)
    (H0 : rtc (step before) init s) (Hr : rtc (step new_id) s s') (Hni : ¬ new_id i)
    (Ho : map_get (_store s) i = Some o) (Hp : map_get (_store s') i = Some p) :
  idempotencyKey (tx p) = idempotencyKey (tx o) ∧
  rank (status (tx o)) <= rank (status (tx p)) ∧
  statusUpdatedAt (tx o) <= statusUpdatedAt (tx p) ∧
  (status (tx o) = FAILED → status (tx p) = FAILED).
Proof.
  pose proof (preserves_rtc _ _ _ _ (step_inv before) H0 inv_init) as Hi.
  pose proof (preserves_rtc _ _ _ _ (later_preserved new_id i o Hni) Hr) as Hl.
  cbv beta in Hl. rewrite Ho in Hl. destruct (Hl (conj Hi (later_refl o))) as [_ Hlater].
  rewrite Hp in Hlater. exact Hlater.
Qed.

Lemma transaction_progress_witness :
  ∃ o p, map_get (_store demo1) "tx-1" = Some o ∧ map_get (_store demo2) "tx-1" = Some p ∧
         rank (status (tx o)) <= rank (status (tx p)).
Proof.
  do 2 eexists. split; [vm_compute; reflexivity|]. split; [vm_compute; reflexivity|].
  refine (proj1 (proj2 (transaction_progress (eq "tx-1") (eq "tx-2") demo1 demo2 "tx-1" _ _ _ _ _ _ _))).
  - eapply rtc_l; [by apply (step_create _ _ 1000 "tx-1" demo_data)|constructor].
  - eapply rtc_l; [apply step_updateStatus|constructor].
  - discriminate.
  - vm_compute. reflexivity.
  - vm_compute. reflexivity.
Defined.

(** The fields no status update touches. *)
Definition kept_fields (t : transaction) :=
  ((id t, amount t, donor t, recipient t, memo t, apiKeyId t, timestamp t, envelopeXdr t, feeBumpCount t),
   (originalFee t, currentFee t, lastFeeBumpAt t, idempotencyKey t, deleted_at t, approvals t, requiredApprovals t,
    approvalExpiresAt t, matchedDonationId t, nft t)).

(** C12: [updateStatus] on every branch.  An unknown id is a plain error; an unknown current or target status
    a ValidationError, whichever of the two it is; a change the table of transitions forbids a
    BusinessLogicError; each leaves the state as it was.  Every other call succeeds: the transaction gets
    the new status, a time stamp not before now and strictly after the previous one, the transaction id,
    ledger and confirmation time that were given (empty and zero values count as missing), notes and tags
    if they were among the data, and keeps all its other fields.  The result is stored under the id, one
    write of it is queued, the event of the status is emitted, and nothing else changes. *)
Theorem updateStatus_spec (now : Z) (i : string) (x : option string) (d : stellar_data) (s : st) :
  let nxt := normalizeState x in
  (map_get (_store s) i = None → updateStatus now i x d s = (Throw (EPlain ("Transaction not found: " +:+ i)), s)) ∧
  ∀ o, map_get (_store s) i = Some o →
    let cur := normalizeState (Some (status (tx o))) in
    (cur ∉ TRANSACTION_STATES ∨ nxt ∉ TRANSACTION_STATES →
       updateStatus now i x d s = (Throw (ValidationError_with (code_ref "INVALID_REQUEST")), s)) ∧
    (cur ∈ TRANSACTION_STATES → nxt ∈ TRANSACTION_STATES → canTransition cur nxt = false →
       updateStatus now i x d s = (Throw (BusinessLogicError (code_ref "INVALID_STATE_TRANSITION")), s)) ∧
    (cur ∈ TRANSACTION_STATES → nxt ∈ TRANSACTION_STATES → canTransition cur nxt = true →
       ∃ n s', updateStatus now i x d s = (Ret n, s') ∧
         kept_fields (tx n) = kept_fields (tx o) ∧
         status (tx n) = nxt ∧
         statusUpdatedAt (tx n) = Z.max now (statusUpdatedAt (tx o) + 1) ∧
         stellarTxId (tx n) = match sd_transactionId d with None | Some "" => stellarTxId (tx o) | given => given end ∧
         stellarLedger (tx n) = match sd_ledger d with None | Some 0 => stellarLedger (tx o) | given => given end ∧
         confirmedAt (tx n) = match sd_confirmedAt d with None => confirmedAt (tx o) | given => given end ∧
         notes (tx n) = match sd_notes d with None => notes (tx o) | Some given => given end ∧
         tags (tx n) = match sd_tags d with None => tags (tx o) | Some None => [] | Some (Some given) => given end ∧
         _store s' = map_set (_store s) i n ∧
         writes s' = writes s ++ [n] ∧
         events s' = events s ++ (if decide (nxt = SUBMITTED) then [("donation.submitted", n)]
                                  else if decide (nxt = CONFIRMED) then [("donation.confirmed", n)]
                                  else if decide (nxt = FAILED) then [("donation.failed", n)] else []) ∧
         _idempotencyIndex s' = _idempotencyIndex s ∧ table s' = table s).
Proof.
  cbv zeta. rewrite updateStatus_run. split; [by intros ->|]. intros o ->. cbv zeta. unfold isValidState.
  set (cur := normalizeState (Some (status (tx o)))). set (nxt := normalizeState x). split_and!.
  - intros [H|H]; [by rewrite (bool_decide_false _ H)|]. by rewrite (bool_decide_false _ H), andb_false_r.
  - intros Hc Hn Ht. by rewrite (bool_decide_true _ Hc), (bool_decide_true _ Hn), Ht.
  - intros Hc Hn Ht. rewrite (bool_decide_true _ Hc), (bool_decide_true _ Hn), Ht. cbn [negb andb]. do 2 eexists. split; [done|].
    cbn [tx with_stellar with_status status statusUpdatedAt stellarTxId stellarLedger confirmedAt notes tags _store writes events
      _idempotencyIndex table]. split_and!; try done.
    + destruct (sd_transactionId d) as [t|]; [by destruct t|done].
    + by destruct (sd_ledger d) as [[]|].
    + by destruct (sd_confirmedAt d).
    + unfold status_event. repeat case_decide; repeat case_bool_decide; try done. by rewrite app_nil_r.
Qed.

(** A pending transaction is confirmed; what it cannot become is refused. *)
Lemma updateStatus_spec_witness :
  (∃ n s', updateStatus 2000 "tx-1" (Some "completed") no_stellar_data demo1 = (Ret n, s') ∧ status (tx n) = CONFIRMED ∧
     amount (tx n) = num_of_Z 5 ∧ idempotencyKey (tx n) = Some "key-1") ∧
  updateStatus 2000 "tx-1" (Some "expired") no_stellar_data demo1 =
    (Throw (BusinessLogicError (code_ref "INVALID_STATE_TRANSITION")), demo1).
Proof.
  set (o := default (mk_obj 0 (new_transaction 0 "" demo_data "")) (map_get (_store demo1) "tx-1")).
  assert (map_get (_store demo1) "tx-1" = Some o) as Ho by (vm_compute; reflexivity).
  assert (normalizeState (Some (status (tx o))) = PENDING ∧ amount (tx o) = num_of_Z 5 ∧ idempotencyKey (tx o) = Some "key-1") as (Hp & Ha & Hi)
    by (vm_compute; repeat split). clearbody o. split.
  - destruct (updateStatus_spec 2000 "tx-1" (Some "completed") no_stellar_data demo1) as [_ H].
    destruct (H _ Ho) as (_ & _ & Hok). rewrite Hp in Hok. destruct Hok as (n & s' & Hr & Hk & Hs & _);
      [apply (bool_decide_unpack _); vm_compute; reflexivity..|vm_compute; reflexivity|].
    exists n, s'. unfold kept_fields in Hk. injection Hk. intros. split_and!; [exact Hr|exact Hs|congruence..].
  - destruct (updateStatus_spec 2000 "tx-1" (Some "expired") no_stellar_data demo1) as [_ H].
    destruct (H _ Ho) as (_ & Hno & _). rewrite Hp in Hno. apply Hno; [apply (bool_decide_unpack _); vm_compute; reflexivity..|vm_compute; reflexivity].
Defined.

(** The replay of a [create] answers with the object the index kept, not
    with the stored one: after the payment is confirmed, the same key still
    answers [pending]. *)
Theorem create_replay_stale :
  ∃ o e, map_get (_store demo2) "tx-1" = Some o ∧ status (tx o) = CONFIRMED ∧
    (create 3000 "tx-2" demo_data demo2).1 = Ret e ∧ id (tx e) = "tx-1" ∧ status (tx e) = PENDING.
Proof. do 2 eexists. split_and!; vm_compute; reflexivity. Qed.

End Transaction.
