(* ===== verification/TransactionQuery.v ===== *)
(** * Cursor pagination of transactions
      ([getCursorPaginated] in [src/src/models/transaction.js])

    The compound filters, the sort and the cursor of the transaction list.
    [localeCompare] is the collation of the host: a parameter, with the laws
    of a total order on the identifiers. *)

From Stdlib Require Import Ascii.
From S2P Require Import Prelude JsString JsNumber JsMap Transaction.
Local Open Scope Z_scope.

Module TransactionQuery.
Import Transaction.

(** Dates are time values; [None] inside is an invalid date (NaN). *)
Record query := {
  q_limit : nat;
  q_from : option string;
  q_to : option string;
  q_amountMin : option string;
  q_amountMax : option string;
  q_start : option (option Z);
  q_end : option (option Z);
  q_status : option string;
  q_memoContains : option string;
  q_sort : option string;
  q_any : bool;           (* filterMode === 'any' *)
  q_mode_set : bool;      (* filterMode !== 'all' *)
}.

(** A cursor string: base64 JSON with a numeric or other [t], or anything
    that does not decode as JSON. *)
Inductive cursor :=
| CJson (t : option Z) (id : string)
| CRaw (s : string).

(** [(cursorTime, cursorId)]; a [None] time inside is NaN. *)
Definition decode_cursor (c : cursor) : option (option Z * string) :=
  match c with
  | CJson (Some t) i => Some (Some t, i)
  | CJson None _ => None
  | CRaw s =>
      match split_on "_" s with
      | p0 :: p1 :: ps => Some (parse_int p0, str_join "_" (p1 :: ps))
      | _ => None
      end
  end.

Definition time_geb (t : Z) (b : option Z) : bool := match b with Some b => b <=? t | None => false end.
Definition time_leb (t : Z) (b : option Z) : bool := match b with Some b => t <=? b | None => false end.

(** [predicates] *)
Definition predicates (q : query) : list (transaction → bool) :=
  (if q_from q is Some a then [λ t, bool_decide (donor t = Some a)] else []) ++
  (if q_to q is Some a then [λ t, bool_decide (recipient t = Some a)] else []) ++
  (if q_amountMin q is Some s then [λ t, num_geb (amount t) (parse_float s)] else []) ++
  (if q_amountMax q is Some s then [λ t, num_leb (amount t) (parse_float s)] else []) ++
  (if q_start q is Some b then [λ t, time_geb (timestamp t) b] else []) ++
  (if q_end q is Some b then [λ t, time_leb (timestamp t) b] else []) ++
  (if q_status q is Some s then [λ t, bool_decide (to_lower (status t) = to_lower s)] else []) ++
  (if q_memoContains q is Some s
   then [λ t, str_includes (to_lower s) (to_lower (memo t))] else []).

Definition passes (q : query) (t : transaction) : bool :=
  match predicates q with
  | [] => true
  | ps => if q_any q then existsb (λ p, p t) ps else forallb (λ p, p t) ps
  end.

Definition active (q : query) (s : st) : list transaction :=
  filter (λ t, passes q t = true) (filter (λ t, deleted_at t = None) (tx <$> loadTransactions s)).

Inductive sort_field := SAmount | STimestamp | SStatus.

(** The sort field and whether it ascends. *)
Definition parse_sort (q : query) : sort_field * bool :=
  match q_sort q with
  | None => (STimestamp, false)
  | Some s =>
      let parts := split_on ":" s in
      let field := to_lower (default "" (head parts)) in
      let dir := to_lower (default "" (nth_error parts 1)) in
      ((if bool_decide (field = "amount") then SAmount
        else if bool_decide (field = "status") then SStatus else STimestamp),
       bool_decide (dir = "asc"))
  end.

Definition key_ltb (f : sort_field) (a b : transaction) : bool :=
  match f with
  | SAmount => num_ltb (amount a) (amount b)
  | SStatus => str_ltb (to_lower (status a)) (to_lower (status b))
  | STimestamp => timestamp a <? timestamp b
  end.

Record page_result := {
  r_data : list transaction;
  r_nextCursor : option cursor;
  r_hasMore : bool;
}.

Definition hasFilters (q : query) : bool :=
  bool_decide (q_from q ≠ None) || bool_decide (q_to q ≠ None) ||
  bool_decide (q_amountMin q ≠ None) || bool_decide (q_amountMax q ≠ None) ||
  bool_decide (q_start q ≠ None) || bool_decide (q_end q ≠ None) ||
  bool_decide (q_status q ≠ None) || bool_decide (q_memoContains q ≠ None) ||
  bool_decide (q_sort q ≠ None) || q_mode_set q.

Definition make_cursor (q : query) (t : transaction) : cursor :=
  if hasFilters q then CJson (Some (timestamp t)) (id t)
  else CRaw (Z_to_string (timestamp t) +:+ "_" +:+ id t).

Section collation.
Context (localeCompare : string → string → Z).

Definition compare (f : sort_field) (asc : bool) (a b : transaction) : Z :=
  if key_ltb f a b then (if asc then -1 else 1)
  else if key_ltb f b a then (if asc then 1 else -1)
  else localeCompare (id b) (id a).

Definition sorted (q : query) (s : st) : list transaction :=
  let '(f, asc) := parse_sort q in js_sort (compare f asc) (active q s).

(** The test of [findIndex] *)
Definition after_cursor (c : option Z * string) (t : transaction) : bool :=
  match c.1 with
  | Some time => (timestamp t <? time) ||
                 ((timestamp t =? time) && (localeCompare (id t) c.2 <? 0))
  | None => false
  end.

Definition getCursorPaginated (q : query) (c : option cursor) (s : st) : page_result :=
  let sorted := sorted q s in
  let start := match (match c with Some c => decode_cursor c | None => None end) with
               | None => Some O
               | Some dc => find_index (after_cursor dc) sorted
               end in
  match start with
  | None => {| r_data := []; r_nextCursor := None; r_hasMore := false |}
  | Some startIndex =>
      let pageLimit := Nat.min (q_limit q) 100 in
      let paginatedData := slice startIndex (startIndex + pageLimit) sorted in
      let hasMore := bool_decide (startIndex + pageLimit < length sorted)%nat in
      {| r_data := paginatedData;
         r_nextCursor := if hasMore then make_cursor q <$> last paginatedData else None;
         r_hasMore := hasMore |}
  end.

(** A client that follows the cursors; [fuel] bounds the number of pages. *)
Fixpoint walk (fuel : nat) (q : query) (c : option cursor) (s : st) : list transaction :=
  match fuel with
  | O => []
  | S fuel =>
      let r := getCursorPaginated q c s in
      r_data r ++ (if r_nextCursor r is Some c' then walk fuel q (Some c') s else [])
  end.

(** ** Lemmas *)

Context (lc_sgn : ∀ a b, Z.sgn (localeCompare a b) = - Z.sgn (localeCompare b a)).
Context (lc_eq : ∀ a b, localeCompare a b = 0 → a = b).
Context (lc_trans : ∀ a b c, localeCompare a b <= 0 → localeCompare b c <= 0 → localeCompare a c <= 0).

Lemma compare_time a b :
  compare STimestamp false a b <= 0 ↔
  timestamp b < timestamp a ∨ (timestamp b = timestamp a ∧ localeCompare (id b) (id a) <= 0).
Proof.
  unfold compare. cbn.
  destruct (Z.ltb_spec (timestamp a) (timestamp b)), (Z.ltb_spec (timestamp b) (timestamp a)); lia.
Qed.

Lemma lc_total a b : localeCompare a b <= 0 ∨ localeCompare b a <= 0.
Proof. pose proof (lc_sgn a b). lia. Qed.

Lemma sorted_default q s :
  q_sort q = None → StronglySorted (λ a b, compare STimestamp false a b <= 0) (sorted q s).
Proof.
  intros Hs. unfold sorted, parse_sort. rewrite Hs. apply js_sort_sorted.
  - intros x y. rewrite !compare_time. pose proof (lc_total (id x) (id y)). lia.
  - intros x y z. rewrite !compare_time. pose proof (lc_trans (id z) (id y) (id x)). lia.
Qed.

(** The cursor of an item selects exactly the items after it. *)
Lemma after_cursor_before x y :
  compare STimestamp false x y <= 0 → after_cursor (Some (timestamp y), id y) x = false.
Proof.
  rewrite compare_time. intros H. unfold after_cursor. cbn.
  pose proof (lc_sgn (id x) (id y)).
  destruct (Z.ltb_spec (timestamp x) (timestamp y)), (Z.eqb_spec (timestamp x) (timestamp y)),
    (Z.ltb_spec (localeCompare (id x) (id y)) 0); cbn; try done; lia.
Qed.

Lemma after_cursor_after x y :
  compare STimestamp false y x <= 0 → id x ≠ id y →
  after_cursor (Some (timestamp y), id y) x = true.
Proof.
  rewrite compare_time. intros H Hne. unfold after_cursor. cbn.
  pose proof (λ h, Hne (lc_eq (id x) (id y) h)).
  destruct (Z.ltb_spec (timestamp x) (timestamp y)), (Z.eqb_spec (timestamp x) (timestamp y)),
    (Z.ltb_spec (localeCompare (id x) (id y)) 0); cbn; try done; lia.
Qed.

Lemma find_after l1 y l2 :
  StronglySorted (λ a b, compare STimestamp false a b <= 0) (l1 ++ y :: l2) →
  NoDup (id <$> l1 ++ y :: l2) → l2 ≠ [] →
  find_index (after_cursor (Some (timestamp y), id y)) (l1 ++ y :: l2) = Some (S (length l1)).
Proof.
  intros Hs Hnd Hne. destruct (StronglySorted_pair _ _ _ _ Hs) as [H1 H2].
  destruct l2 as [|x l2]; [done|].
  rewrite find_index_app.
  2:{ apply Forall_forall. intros z Hz. by apply after_cursor_before, H1. }
  cbn [find_index]. rewrite after_cursor_before.
  2:{ rewrite compare_time. pose proof (lc_sgn (id y) (id y)). lia. }
  rewrite after_cursor_after; [cbn [fmap option_fmap option_map]; f_equal; lia|apply H2; left|].
  rewrite fmap_app in Hnd. cbn in Hnd. apply NoDup_app in Hnd as (_ & _ & Hnd).
  apply NoDup_cons in Hnd as [Hnd _]. intros Heq. apply Hnd. rewrite Heq. left.
Qed.

Lemma decode_make_cursor q t : decode_cursor (make_cursor q t) = Some (Some (timestamp t), id t).
Proof.
  unfold make_cursor. destruct (hasFilters q); [done|]. unfold decode_cursor.
  assert (Hu : str_forall (λ a, negb (Ascii.eqb a "_")) (Z_to_string (timestamp t)) = true).
  { unfold Z_to_string. destruct (Z.ltb_spec (timestamp t) 0); cbn -[Ascii.eqb].
    - apply digits_not_char; [done|]. apply nat_to_string_digits. lia.
    - apply digits_not_char; [done|]. by apply nat_to_string_digits. }
  change ("_" +:+ id t) with (String "_" (id t)). rewrite split_on_app by done.
  pose proof (str_join_split "_" (id t)) as Hj.
  destruct (split_on "_" (id t)) as [|p ps] eqn:Hs; [by apply split_on_ne in Hs|].
  by rewrite parse_int_Z_to_string, Hj.
Qed.

(** The page that starts at position [n] of the sorted list, and where the
    next cursor leads. *)
Definition cursor_at (q : query) (s : st) (n : nat) (c : option cursor) : Prop :=
  match c with
  | None => n = O
  | Some c => ∃ dc, decode_cursor c = Some dc ∧ find_index (after_cursor dc) (sorted q s) = Some n
  end.

Lemma page_at q s n c :
  cursor_at q s n c →
  let m := (n + Nat.min (q_limit q) 100)%nat in
  let r := getCursorPaginated q c s in
  r_data r = take (Nat.min (q_limit q) 100) (drop n (sorted q s)) ∧
  r_nextCursor r = if decide (m < length (sorted q s))%nat
                   then make_cursor q <$> last (r_data r) else None.
Proof.
  intros Hc. cbv zeta. unfold getCursorPaginated, cursor_at in *. destruct c as [c|].
  - destruct Hc as (dc & -> & ->). cbn. unfold slice.
    replace (n + _ - n)%nat with (Nat.min (q_limit q) 100) by lia. split; [done|].
    case_bool_decide; by case_decide.
  - subst n. cbn. unfold slice. rewrite Nat.sub_0_r. split; [done|].
    case_bool_decide; by case_decide.
Qed.

Lemma next_cursor_at q s n :
  q_sort q = None → NoDup (id <$> sorted q s) → (0 < q_limit q)%nat →
  let p := Nat.min (q_limit q) 100 in
  (n + p < length (sorted q s))%nat →
  ∃ t, last (take p (drop n (sorted q s))) = Some t ∧ cursor_at q s (n + p) (Some (make_cursor q t)).
Proof.
  intros Hq Hnd Hl. cbv zeta. set (p := Nat.min (q_limit q) 100). set (L := sorted q s). intros Hlt.
  assert (Hp : (0 < p)%nat) by lia.
  destruct (lookup_lt_is_Some_2 L (n + p - 1)) as [t Ht]; [lia|].
  exists t. split.
  - rewrite last_lookup, length_take, length_drop.
    rewrite lookup_take_lt by lia. rewrite lookup_drop.
    replace (n + pred (min p (length L - n)))%nat with (n + p - 1)%nat by lia. done.
  - exists (Some (timestamp t), id t). split; [apply decode_make_cursor|].
    assert (Hsplit : L = take (n + p - 1) L ++ t :: drop (n + p) L).
    { rewrite <- (take_drop (n + p - 1) L) at 1. f_equal.
      rewrite (drop_S _ t) by done. do 2 f_equal. lia. }
    pose proof (sorted_default q s Hq) as Hsort. fold L in Hsort, Hnd |- *.
    rewrite Hsplit in Hsort, Hnd |- *.
    rewrite find_after; [f_equal; rewrite length_take; lia|done|done|].
    intros Hnil. apply (f_equal length) in Hnil. rewrite length_drop in Hnil. cbn in Hnil. lia.
Qed.

Lemma walk_drop q s fuel n c :
  q_sort q = None → NoDup (id <$> sorted q s) → (0 < q_limit q)%nat →
  cursor_at q s n c → (length (sorted q s) - n < fuel)%nat →
  walk fuel q c s = drop n (sorted q s).
Proof.
  intros Hq Hnd Hl. revert n c. induction fuel as [|fuel IH]; intros n c Hc Hf; [lia|].
  cbn [walk]. destruct (page_at q s n c Hc) as [Hd Hn]. rewrite Hn. cbv zeta in *. rewrite Hd.
  set (p := Nat.min (q_limit q) 100) in *. case_decide as Hlt.
  - destruct (next_cursor_at q s n Hq Hnd Hl Hlt) as (t & Ht & Hat). fold p in Ht, Hat.
    rewrite Ht. cbn [fmap option_fmap option_map].
    rewrite (IH (n + p)%nat _ Hat) by lia.
    rewrite <- drop_drop. apply take_drop.
  - rewrite app_nil_r. apply take_ge. rewrite length_drop. lia.
Qed.

End collation.

Lemma active_ids q s : inv s → NoDup (id <$> active q s).
Proof.
  intros Hi. unfold active.
  assert (Heq : id <$> (tx <$> loadTransactions s) = (_store s).*1).
  { unfold loadTransactions. rewrite <- !list_fmap_compose. apply list_fmap_ext.
    intros j [i o] Hj. cbn. apply (inv_id s Hi). apply map_get_elem; [apply (inv_nodup s Hi)|].
    by eapply list_elem_of_lookup_2. }
  assert (Hnd : NoDup (id <$> (tx <$> loadTransactions s))) by (rewrite Heq; apply (inv_nodup s Hi)).
  revert Hnd. generalize (tx <$> loadTransactions s). intros l Hnd.
  assert (Hsub : filter (λ t, passes q t = true) (filter (λ t, deleted_at t = None) l) `sublist_of` l).
  { etrans; apply sublist_filter. }
  eapply sublist_NoDup; [exact Hnd|]. by apply fmap_sublist.
Qed.

Lemma active_length q s : (length (active q s) <= length (_store s))%nat.
Proof.
  unfold active. etrans; [apply length_filter|]. etrans; [apply length_filter|].
  unfold loadTransactions. by rewrite !length_fmap.
Qed.

(** Code-unit order, the collation of the witnesses. *)
Definition code_unit_compare (a b : string) : Z :=
  match String.compare a b with Lt => -1 | Eq => 0 | Gt => 1 end.

Lemma code_unit_trans a b c :
  code_unit_compare a b <= 0 → code_unit_compare b c <= 0 → code_unit_compare a c <= 0.
Proof.
  revert b c. unfold code_unit_compare.
  induction a as [|x a IH]; intros [|y b] [|z c]; cbn; try done.
  unfold Ascii.compare. specialize (IH b c).
  destruct (N.compare_spec (N_of_ascii x) (N_of_ascii y)) as [Hxy|Hxy|Hxy],
    (N.compare_spec (N_of_ascii y) (N_of_ascii z)) as [Hyz|Hyz|Hyz],
    (N.compare_spec (N_of_ascii x) (N_of_ascii z)) as [Hxz|Hxz|Hxz]; try done; try lia.
Qed.

Lemma code_unit_sgn a b : Z.sgn (code_unit_compare a b) = - Z.sgn (code_unit_compare b a).
Proof.
  unfold code_unit_compare. rewrite (String.compare_antisym b a). by destruct (String.compare a b).
Qed.

Lemma code_unit_eq a b : code_unit_compare a b = 0 → a = b.
Proof.
  unfold code_unit_compare. destruct (String.compare a b) eqn:H; try done.
  intros _. by apply String.compare_eq_iff.
Qed.

(** ** Properties *)

(** C20: Following the cursors of the default order visits every matching
    transaction exactly once, newest first: the pages concatenate to the whole
    filtered and sorted list, for every filter, every positive page size and
    every reachable store, and the walk ends after at most one page per item
    plus one. *)
Theorem cursor_walk_complete (localeCompare : string → string → Z) (new_id : string → Prop)
    (q : query) (s : st)
    (lc_sgn : ∀ a b, Z.sgn (localeCompare a b) = - Z.sgn (localeCompare b a))
    (lc_eq : ∀ a b, localeCompare a b = 0 → a = b)
    (lc_trans : ∀ a b c, localeCompare a b <= 0 → localeCompare b c <= 0 → localeCompare a c <= 0)
    (Hr : rtc (step new_id) init s) (Hq : q_sort q = None) (Hl : (0 < q_limit q)%nat) :
  let all := walk localeCompare (S (length (_store s))) q None s in
  all = sorted localeCompare q s ∧
  all ≡ₚ active q s ∧
  StronglySorted (λ a b, timestamp b <= timestamp a) all.
Proof.
  cbv zeta. pose proof (preserves_rtc _ _ _ _ (step_inv new_id) Hr inv_init) as Hi.
  assert (Hperm : sorted localeCompare q s ≡ₚ active q s).
  { unfold sorted. destruct (parse_sort q). apply js_sort_perm. }
  assert (Hw : walk localeCompare (S (length (_store s))) q None s = sorted localeCompare q s).
  { rewrite (walk_drop localeCompare lc_sgn lc_eq lc_trans q s _ 0 None Hq); [done|..]; [|done|done|].
    - rewrite Hperm. by apply active_ids.
    - rewrite Hperm, Nat.sub_0_r. pose proof (active_length q s). lia. }
  rewrite Hw. split_and!; [done|done|].
  pose proof (sorted_default localeCompare lc_sgn lc_trans q s Hq) as Hs. revert Hs.
  generalize (sorted localeCompare q s). induction 1 as [|x l Hs IH Hf]; constructor; [done|].
  eapply Forall_impl; [exact Hf|]. intros y. rewrite compare_time. lia.
Qed.

Definition plain_query (limit : nat) (sort : option string) : query :=
  Build_query limit None None None None None None None None sort false false.

(** Three donations of 5, 3 and 4, in this order of time. *)
Definition three : st :=
  let mk now i a s := (create now i (data (num_of_Z a) None None None None) s).2 in
  mk 3000 "c" 4 (mk 2000 "b" 3 (mk 1000 "a" 5 init)).

Lemma three_reachable : rtc (step (λ _, True)) init three.
Proof.
  unfold three.
  eapply rtc_l; [by apply (step_create _ _ 1000 "a")|].
  eapply rtc_l; [by apply (step_create _ _ 2000 "b")|].
  eapply rtc_l; [by apply (step_create _ _ 3000 "c")|]. constructor.
Qed.

Lemma cursor_walk_complete_witness :
  id <$> walk code_unit_compare 4 (plain_query 1 None) None three = ["c"; "b"; "a"] ∧
  walk code_unit_compare 4 (plain_query 1 None) None three
    = sorted code_unit_compare (plain_query 1 None) three.
Proof.
  split; [vm_compute; reflexivity|].
  refine (proj1 (cursor_walk_complete code_unit_compare (λ _, True) (plain_query 1 None) three
    code_unit_sgn code_unit_eq code_unit_trans three_reachable eq_refl _)).
  cbn. lia.
Defined.

(** The cursor always selects by time, so with another sort the pages do
    not partition the list: sorted by ascending amount (b, c, a) with one item
    per page, a client sees b and then nothing but a, and never c. *)
Theorem cursor_walk_amount_incomplete :
  let q := plain_query 1 (Some "amount:asc") in
  (id <$> sorted code_unit_compare q three) = ["b"; "c"; "a"] ∧
  (id <$> walk code_unit_compare 4 q None three) = ["b"; "a"].
Proof. split; vm_compute; reflexivity. Qed.

End TransactionQuery.
