(* ===== verification/FeeBump.v ===== *)
(** * Fee bumps ([src/src/services/FeeBumpService.js])

    The fee bump of a submitted transaction over the transaction model, and
    the job that looks for stuck ones.  A call is cut at its awaits: the
    checks and the snapshot of the transaction, the submission to the network,
    and the recording of its answer.  The answers of the network are
    arguments; a submission is logged when it is made.  Audit entries are left
    out. *)

From S2P Require Import Prelude JsString JsNumber JsMap Errors TransactionState Transaction.
Local Open Scope Z_scope.

Module FeeBump.
Import Transaction.

(** Next to the transactions, the fee bumps sent to the network. *)
Record st := mk_st { txs : Transaction.st; submissions : list (string * Z) }.
Definition M := stx jserror st.

Definition on_txs {A} (m : Transaction.M A) : M A := λ s,
  let '(x, t) := m (txs s) in (x, mk_st t (submissions s)).
Definition log_submission (i : string) (fee : Z) (s : st) : st := mk_st (txs s) (submissions s ++ [(i, fee)]).

Definition MAX_FEE_BUMP_ATTEMPTS : Z := 3.
Definition STUCK_THRESHOLD_MS : Z := 5 * 60 * 1000.
Definition MAX_FEE_CAP_STROOPS : Z := 1000000.

Section service.
(** [config.maxAttempts], [config.stuckThresholdMs], [config.maxFeeCapStroops],
    or their defaults. *)
Context (maxAttempts stuckThresholdMs maxFeeCapStroops : Z).

(** The checks before the [try]. *)
Definition check (i : string) (s : Transaction.st) : outcome jserror transaction :=
  match getById s i with
  | None => Throw (NotFoundError_with (code_ref "TRANSACTION_NOT_FOUND"))
  | Some o =>
      let t := tx o in
      if negb (bool_decide (status t = SUBMITTED)) then Throw (BusinessLogicError (code_ref "FEE_BUMP_INVALID_STATE"))
      else if bool_decide (truthy_str (envelopeXdr t) = None) then Throw (BusinessLogicError (code_ref "FEE_BUMP_NO_ENVELOPE"))
      else if maxAttempts <=? feeBumpCount t then Throw (BusinessLogicError (code_ref "FEE_BUMP_MAX_ATTEMPTS"))
      else Ret t
  end.

Definition current_fee (t : transaction) : option Z := truthy_Z (currentFee t).

(** The fee: the given one, or the estimate of the network if it is higher
    than the current one, or twice the current one; never above the cap. *)
Definition choose_fee (newFee : option Z) (estimate : outcome jserror Z) (t : transaction) : outcome jserror Z :=
  fee ← match newFee with
        | Some f => Ret f
        | None => e ← estimate;
                  Ret (if e <=? default 0 (current_fee t) then default 100 (current_fee t) * 2 else e)
        end;
  if maxFeeCapStroops <? fee then Throw (BusinessLogicError (code_ref "FEE_BUMP_EXCEEDS_CAP")) else Ret fee.

(** What a call knows after its checks. *)
Record bump := mk_bump { b_id : string; b_tx : transaction; b_count : Z }.
Definition start (i : string) (s : st) : outcome jserror bump :=
  t ← check i (txs s); Ret (mk_bump i t (feeBumpCount t + 1)).

Record result := mk_result { r_originalFee : option Z; r_newFee : Z; r_feeBumpCount : Z; r_hash : string }.
Record answer := mk_answer { n_envelopeXdr : option string; n_hash : string }.

(** [updateFeeBumpData] is synchronous: it returns the transaction, which has
    no method [catch]. *)
Definition not_a_promise : jserror := EType "Transaction.updateFeeBumpData(...).catch is not a function".

(** The [catch] block: what follows the call of [catch] is not reached. *)
Definition failed (now : Z) (b : bump) : M result :=
  on_txs (updateFeeBumpData (b_id b) {| fb_feeBumpCount := Some (b_count b); fb_currentFee := None;
                                       fb_lastFeeBumpAt := Some now; fb_envelopeXdr := None; fb_stellarTxId := None |});;
  throw not_a_promise.

(** After the answer of the network. *)
Definition finish (now : Z) (b : bump) (fee : Z) (a : outcome jserror answer) : M result :=
  try_catch
    (n ← lift_out a;
     on_txs (updateFeeBumpData (b_id b) {| fb_feeBumpCount := Some (b_count b); fb_currentFee := Some fee;
                                          fb_lastFeeBumpAt := Some now; fb_envelopeXdr := n_envelopeXdr n;
                                          fb_stellarTxId := Some (n_hash n) |});;
     mret (mk_result (or_else (current_fee (b_tx b)) (originalFee (b_tx b))) fee (b_count b) (n_hash n)))
    (λ _, failed now b).

(** A call nothing interleaves with. *)
Definition feeBump (now : Z) (i : string) (newFee : option Z) (estimate : outcome jserror Z) (a : outcome jserror answer)
  : M result :=
  s ← get_st;
  b ← lift_out (start i s);
  match choose_fee newFee estimate (b_tx b) with
  | Throw _ => failed now b
  | Ret fee => modify_st (log_submission i fee);; finish now b fee a
  end.

(** ** Stuck transactions *)

Definition is_stuck (now : Z) (o : obj) : bool :=
  (now - statusUpdatedAt (tx o) >? stuckThresholdMs) && (feeBumpCount (tx o) <? maxAttempts).
Definition detectStuckTransactions (now : Z) (s : Transaction.st) : list obj :=
  filter (λ o, is_stuck now o = true) (getByStatus s (Some SUBMITTED)).

Record tally := mk_tally { processed : Z; succeeded : Z; failures : Z; skipped : Z }.
(** The loop over the list found at the start. *)
Fixpoint bump_all (now : Z) (estimate : string → outcome jserror Z) (a : string → outcome jserror answer)
  (l : list obj) (t : tally) (s : st) : tally * st :=
  match l with
  | [] => (t, s)
  | o :: l =>
      if bool_decide (truthy_str (envelopeXdr (tx o)) = None) then
        bump_all now estimate a l (mk_tally (processed t) (succeeded t) (failures t) (skipped t + 1)) s
      else
        match feeBump now (id (tx o)) None (estimate (id (tx o))) (a (id (tx o))) s with
        | (Ret _, s) => bump_all now estimate a l (mk_tally (processed t) (succeeded t + 1) (failures t) (skipped t)) s
        | (Throw _, s) => bump_all now estimate a l (mk_tally (processed t) (succeeded t) (failures t + 1) (skipped t)) s
        end
  end.
Definition processStuckTransactions (now : Z) (estimate : string → outcome jserror Z) (a : string → outcome jserror answer)
  (s : st) : tally * st :=
  let l := detectStuckTransactions now (txs s) in
  bump_all now estimate a l (mk_tally (Z.of_nat (length l)) 0 0 0) s.

(** ** One call *)

Lemma update_fee_run i d s :
  updateFeeBumpData i d s =
    match map_get (_store s) i with
    | Some o => replace i (with_fee_bump (tx o) d) s
    | None => (Throw (EPlain ("Transaction not found: " +:+ i)), s)
    end.
Proof. unfold updateFeeBumpData, find_tx. stx_unfold. by destruct (map_get (_store s) i). Qed.

Lemma start_Ret i s b :
  start i s = Ret b →
  b_id b = i ∧ ∃ o, map_get (_store (txs s)) i = Some o ∧ b_tx b = tx o ∧ b_count b = feeBumpCount (tx o) + 1 ∧
    feeBumpCount (tx o) < maxAttempts ∧ status (tx o) = SUBMITTED.
Proof.
  unfold start, check, getById. destruct (map_get (_store (txs s)) i) as [o|]; [|done].
  destruct (deleted_at (tx o)); [done|]. cbn. destruct (decide (status (tx o) = SUBMITTED)) as [Hs|Hs];
    [rewrite bool_decide_true by done|by rewrite bool_decide_false by done]. cbn.
  destruct (bool_decide (truthy_str (envelopeXdr (tx o)) = None)); cbn; [done|].
  destruct (Z.leb_spec maxAttempts (feeBumpCount (tx o))); cbn; [done|].
  intros [= <-]. cbn. split; [done|]. exists o. split_and!; (done || lia).
Qed.

Lemma choose_fee_cap newFee estimate t fee : choose_fee newFee estimate t = Ret fee → fee <= maxFeeCapStroops.
Proof.
  unfold choose_fee. destruct (match newFee with Some f => Ret f | None => _ end) as [f|e]; [|done]. cbn.
  destruct (Z.ltb_spec maxFeeCapStroops f); cbn; [done|]. by intros [= <-].
Qed.

(** What recording a bump does to the transactions. *)
Lemma update_fee_spec i d s o c :
  map_get (_store s) i = Some o → fb_feeBumpCount d = Some c →
  is_ret (updateFeeBumpData i d s).1 = true ∧
  (∃ o', map_get (_store (updateFeeBumpData i d s).2) i = Some o' ∧ feeBumpCount (tx o') = c) ∧
  ∀ k, k ≠ i → map_get (_store (updateFeeBumpData i d s).2) k = map_get (_store s) k.
Proof.
  intros Hg Hc. rewrite update_fee_run, Hg, replace_run. cbn. split_and!; [done| |].
  - eexists. rewrite map_get_set_eq. split; [done|]. cbn. by rewrite Hc.
  - intros k Hk. by rewrite map_get_set_ne.
Qed.

(** Both ends of a call record it. *)
Lemma failed_run now b s o :
  map_get (_store (txs s)) (b_id b) = Some o →
  ∃ d, fb_feeBumpCount d = Some (b_count b) ∧
       failed now b s = (Throw not_a_promise, mk_st (updateFeeBumpData (b_id b) d (txs s)).2 (submissions s)).
Proof.
  intros Hg. unfold failed, on_txs. stx_unfold. rewrite update_fee_run, Hg, replace_run. eexists.
  split; [|rewrite update_fee_run, Hg, replace_run; reflexivity]. done.
Qed.

Lemma finish_run now b fee a s o :
  map_get (_store (txs s)) (b_id b) = Some o →
  ∃ r d, fb_feeBumpCount d = Some (b_count b) ∧
         finish now b fee a s = (r, mk_st (updateFeeBumpData (b_id b) d (txs s)).2 (submissions s)) ∧
         is_ret r = is_ret a ∧ (is_ret r = false → r = Throw not_a_promise).
Proof.
  intros Hg. unfold finish, try_catch. destruct a as [n|e]; stx_unfold.
  - unfold on_txs. rewrite update_fee_run, Hg, replace_run. do 2 eexists.
    split; [|split; [rewrite update_fee_run, Hg, replace_run; reflexivity|done]]. done.
  - destruct (failed_run now b s o Hg) as (d & Hd & ->). eauto 7.
Qed.

(** ** Several calls *)

(** Everything else that happens to the transactions: calls of the model that
    do not bump fees, on any transaction, and the writes in flight; no new
    transaction gets the identifier [i]. *)
Inductive calm (i : string) (s : Transaction.st) : Transaction.st → Prop :=
| calm_create now uuid d : default uuid (truthy_str (d_id d)) ≠ i → calm i s (create now uuid d s).2
| calm_status now j x d : calm i s (updateStatus now j x d s).2
| calm_approvals j l : calm i s (updateApprovals j l s).2
| calm_matched j m : calm i s (updateMatchedDonationId j m s).2
| calm_nft j d : calm i s (updateNftData j d s).2
| calm_settle k : calm i s (settle k s).

(** The counter of [i], or the transaction is gone. *)
Definition counts (i : string) (P : Z → Prop) (s : Transaction.st) : Prop :=
  match map_get (_store s) i with Some o => P (feeBumpCount (tx o)) | None => True end.

Lemma counts_replace i P j t s :
  (∀ o, map_get (_store s) j = Some o → feeBumpCount t = feeBumpCount (tx o)) → map_get (_store s) j ≠ None →
  counts i P s → counts i P (replace j t s).2.
Proof.
  intros Ht Hj. unfold counts. rewrite replace_run. cbn. rewrite map_get_set. case_decide as Hji; [|done]. subst j.
  destruct (map_get (_store s) i) as [o|] eqn:Hg; [|done]. cbn. by rewrite (Ht o).
Qed.

Lemma counts_update i P j (f : transaction → transaction) s :
  (∀ t, feeBumpCount (f t) = feeBumpCount t) →
  counts i P s → counts i P ((o ← find_tx j; replace j (f (tx o))) s).2.
Proof.
  intros Hf Hc. unfold find_tx. stx_unfold. destruct (map_get (_store s) j) as [o|] eqn:Hg; [|done].
  apply counts_replace; [|congruence|done]. intros o' Ho'. rewrite Hf. congruence.
Qed.

Lemma counts_calm i P s s' : calm i s s' → counts i P s → counts i P s'.
Proof.
  intros Hs Hc. destruct Hs as [now uuid d Hne|now j x d|j l|j m|j d|k].
  - unfold counts in *. unfold create. run_st. unfold assertValidState.
    destruct (isValidState _); [|done]. cbn.
    destruct (indexed s (truthy_str (d_idempotencyKey d))); [done|].
    destruct (truthy_str (d_idempotencyKey d)); cbn; by rewrite map_get_set_ne.
  - rewrite updateStatus_run. destruct (map_get (_store s) j) as [o|] eqn:Hg; [|done]. cbv zeta.
    destruct (negb _); [done|]. destruct (negb _); [done|]. unfold counts in *. cbn. rewrite map_get_set.
    case_decide as Hji; [|done]. subst j. by rewrite Hg in Hc.
  - by apply (counts_update i P j (λ t, with_approvals t l)).
  - by apply (counts_update i P j (λ t, with_matched t m)).
  - by apply (counts_update i P j (λ t, with_nft t d)).
  - unfold counts in *. unfold settle. destruct (writes s !! k) as [o|]; [|done].
    destruct (upsert _ _); [done| |done]. unfold rollback.
    destruct (same_obj (map_get (_store _) _) o); [|done]. cbn.
    destruct (truthy_str (idempotencyKey (tx o))); [destruct (same_obj _ o)|]; cbn;
      rewrite map_get_del; by case_decide.
Qed.

(** A call: nothing, when a check fails, or it is recorded, and at most one fee
    below the cap was sent. *)
Lemma feeBump_run now j newFee estimate a s :
  let s' := (feeBump now j newFee estimate a s).2 in
  s' = s ∨
  ∃ o d sent, map_get (_store (txs s)) j = Some o ∧ feeBumpCount (tx o) < maxAttempts ∧
    fb_feeBumpCount d = Some (feeBumpCount (tx o) + 1) ∧
    s' = mk_st (updateFeeBumpData j d (txs s)).2 (submissions s ++ sent) ∧
    (sent = [] ∨ ∃ fee, sent = [(j, fee)] ∧ fee <= maxFeeCapStroops).
Proof.
  cbv zeta. unfold feeBump. stx_unfold. destruct (start j s) as [b|e] eqn:Hb; [|by left].
  apply start_Ret in Hb as (<- & o & Hg & Ht & Hc & Hlt & _). right. exists o. rewrite <- Hc.
  destruct (choose_fee newFee estimate (b_tx b)) as [fee|e] eqn:Hfee.
  - apply choose_fee_cap in Hfee.
    destruct (finish_run now b fee a (log_submission (b_id b) fee s) o Hg) as (r & d & Hd & -> & _).
    exists d, [(b_id b, fee)]. eauto 8.
  - destruct (failed_run now b s o Hg) as (d & Hd & ->). exists d, []. rewrite app_nil_r. eauto 8.
Qed.

Inductive step (i : string) (s : st) : st → Prop :=
| step_calm t : calm i (txs s) t → step i s (mk_st t (submissions s))
| step_bump now j newFee estimate a : step i s (feeBump now j newFee estimate a s).2.

Definition sent_for (i : string) (s : st) : nat := length (filter (λ p, p.1 = i) (submissions s)).

Record bounded (i : string) (s : st) : Prop := mk_bounded {
  bd_count : counts i (λ c, Z.of_nat (sent_for i s) <= c) (txs s);
  bd_sent : Z.of_nat (sent_for i s) <= Z.max 0 maxAttempts;
  bd_fee : Forall (λ p, p.2 <= maxFeeCapStroops) (submissions s)
}.

Lemma bounded_step i : preserves (step i) (bounded i).
Proof.
  intros s s' [Hc Hs Hf] Hst. destruct Hst as [t Ht|now j newFee estimate a].
  { split; [|done..]. by eapply (counts_calm i). }
  pose proof (feeBump_run now j newFee estimate a s) as [Heq|Hrun]; [by rewrite Heq|].
  destruct Hrun as (o & d & sent & Hg & Hlt & Hd & -> & Hsent).
  destruct (update_fee_spec j d (txs s) o _ Hg Hd) as (_ & (o' & Hg' & Hc') & Hother).
  assert (Hfees : Forall (λ p, p.2 <= maxFeeCapStroops) (submissions s ++ sent)).
  { apply Forall_app. split; [done|]. destruct Hsent as [->|(fee & -> & ?)]; by repeat constructor. }
  unfold sent_for, counts in *. destruct (decide (j = i)) as [->|Hne].
  - rewrite Hg in Hc.
    assert (Hl : (length (filter (λ p, p.1 = i) (submissions s ++ sent)) <= S (length (filter (λ p, p.1 = i) (submissions s))))%nat).
    { rewrite filter_app, length_app. destruct Hsent as [->|(fee & -> & _)]; [cbn; lia|].
      rewrite filter_cons_True by done. cbn. lia. }
    split; unfold counts, sent_for; cbn [txs submissions]; [rewrite Hg', Hc'; lia|lia|done].
  - assert (Hl : filter (λ p, p.1 = i) (submissions s ++ sent) = filter (λ p, p.1 = i) (submissions s)).
    { rewrite filter_app. destruct Hsent as [->|(fee & -> & _)]; [by rewrite app_nil_r|].
      rewrite filter_cons_False by done. by rewrite app_nil_r. }
    split; unfold counts, sent_for; cbn [txs submissions]; rewrite ?Hl; [|done..]. by rewrite Hother by congruence.
Qed.

(** Whatever happens to the transactions between them, calls that do not overlap send at most
    the maximum number of fee bumps for a transaction, and no fee above the cap. *)
Theorem attempts_bounded i t s :
  counts i (λ c, 0 <= c) t → rtc (step i) (mk_st t []) s →
  Z.of_nat (sent_for i s) <= Z.max 0 maxAttempts ∧ Forall (λ p, p.2 <= maxFeeCapStroops) (submissions s).
Proof.
  intros Hc Hr. assert (Hb : bounded i s).
  { eapply preserves_rtc; [apply bounded_step|exact Hr|]. split; cbn; [exact Hc|lia|constructor]. }
  destruct Hb. done.
Qed.

(** Calls that overlap count once: all that started in one state send their bump, and however
    many of them end, the counter is one more than before. *)
Theorem overlapping_bumps_counted_once i s b l :
  start i s = Ret b → l ≠ [] →
  ∃ o o', map_get (_store (txs s)) i = Some o ∧
    map_get (_store (txs (foldl (λ s e, (finish e.1.1 b e.1.2 e.2 s).2) s l))) i = Some o' ∧
    feeBumpCount (tx o') = feeBumpCount (tx o) + 1.
Proof.
  intros Hb Hl. apply start_Ret in Hb as (<- & o & Hg & _ & Hc & _ & _). exists o.
  assert (Hstep : ∀ s o e, map_get (_store (txs s)) (b_id b) = Some o →
    ∃ o', map_get (_store (txs (finish e.1.1 b e.1.2 e.2 s).2)) (b_id b) = Some o' ∧ feeBumpCount (tx o') = b_count b).
  { intros s' o2 e Hg'. destruct (finish_run e.1.1 b e.1.2 e.2 s' o2 Hg') as (r & d & Hd & -> & _).
    destruct (update_fee_spec (b_id b) d (txs s') o2 _ Hg' Hd) as (_ & Ho & _). exact Ho. }
  rewrite <- Hc. clear Hc. revert s o Hg. induction l as [|e l IH]; [done|]. intros s o Hg. cbn.
  destruct (Hstep s o e Hg) as (o1 & Hg1 & Hc1). destruct l as [|e2 l].
  - exists o1. done.
  - destruct (IH ltac:(done) _ _ Hg1) as (o' & _ & H2 & H3). eauto.
Qed.

(** A bump that fails after its checks throws a TypeError, whatever went wrong (the cap
    included), and counts as an attempt. *)
Theorem failed_bump_type_error now i newFee estimate a s b :
  start i s = Ret b → is_ret (choose_fee newFee estimate (b_tx b)) && is_ret a = false →
  (feeBump now i newFee estimate a s).1 = Throw not_a_promise ∧
  counts i (λ c, c = b_count b) (txs (feeBump now i newFee estimate a s).2).
Proof.
  intros Hb Hf. unfold feeBump. stx_unfold. rewrite Hb.
  apply start_Ret in Hb as (<- & o & Hg & _ & _ & _ & _).
  assert (Hcount : ∀ d u, map_get (_store u) (b_id b) = Some o → fb_feeBumpCount d = Some (b_count b) →
    counts (b_id b) (λ c, c = b_count b) (updateFeeBumpData (b_id b) d u).2).
  { intros d u Hu Hd. destruct (update_fee_spec (b_id b) d u o _ Hu Hd) as (_ & (o' & Ho & Hc) & _). unfold counts. by rewrite Ho. }
  destruct (choose_fee _ _ _) as [fee|e].
  - destruct (finish_run now b fee a (log_submission (b_id b) fee s) o Hg) as (r & d & Hd & -> & Hr & Hthrow).
    cbn in Hf. split; [cbn; apply Hthrow; congruence|]. by apply Hcount.
  - destruct (failed_run now b s o Hg) as (d & Hd & ->). split; [done|]. by apply Hcount.
Qed.

(** The fee of an automatic bump is higher than the one before. *)
Theorem automatic_fee_higher estimate t fee :
  (∀ f, currentFee t = Some f → 0 <= f) → choose_fee None estimate t = Ret fee → default 0 (currentFee t) < fee.
Proof.
  intros Hp. unfold choose_fee, current_fee. destruct estimate as [e|]; [|done]. cbn.
  assert (Hc : default 0 (truthy_Z (currentFee t)) = default 0 (currentFee t) ∧
               0 <= default 0 (currentFee t) ∧ default 0 (currentFee t) < default 100 (truthy_Z (currentFee t)) * 2).
  { destruct (currentFee t) as [f|]; cbn; [|lia]. specialize (Hp f eq_refl). destruct (Z.eqb_spec f 0); cbn; lia. }
  destruct Hc as (-> & H0 & H2). destruct (Z.leb_spec e (default 0 (currentFee t)));
    (destruct (_ <? _); cbn; [done|]); intros [= <-]; lia.
Qed.

(** Every stuck transaction the job found is counted once: bumped, failed, or skipped for want
    of an envelope. *)
Theorem processed_adds_up now estimate a s :
  let t := (processStuckTransactions now estimate a s).1 in
  processed t = succeeded t + failures t + skipped t.
Proof.
  unfold processStuckTransactions. generalize (detectStuckTransactions now (txs s)). intros l. cbv zeta.
  assert (H : ∀ t s, processed (bump_all now estimate a l t s).1 = processed t ∧
    succeeded (bump_all now estimate a l t s).1 + failures (bump_all now estimate a l t s).1 + skipped (bump_all now estimate a l t s).1 =
    succeeded t + failures t + skipped t + Z.of_nat (length l)).
  { clear s. induction l as [|o l IH]; intros t s; [cbn; lia|]. cbn [bump_all length].
    destruct (bool_decide _); [|destruct (feeBump _ _ _ _ _ _) as [[r|e] s']];
      (match goal with |- context [bump_all now estimate a l ?t' ?s'] => destruct (IH t' s') as [H1 H2] end;
       rewrite H1, H2; cbn [processed succeeded failures skipped]; lia). }
  destruct (H (mk_tally (Z.of_nat (length l)) 0 0 0) s) as [-> ->]. cbn. lia.
Qed.

End service.

(** ** Examples *)

Definition ex_data : tx_data :=
  mk_data None (num_of_Z 5) None None None None [] None None (Some SUBMITTED) None None None None (Some "env") 0
          (Some 100) (Some 100) None None None None None.
Definition ex_txs : Transaction.st := (create 1000 "tx-1" ex_data Transaction.init).2.
Definition ex_st : st := mk_st ex_txs [].
Definition ex_answer : outcome jserror answer := Ret (mk_answer (Some "env2") "hash").
Abbreviation bump_of := (feeBump MAX_FEE_BUMP_ATTEMPTS MAX_FEE_CAP_STROOPS).

(** Three bumps are sent, at rising fees; the fourth call is refused. *)
Definition four_bumps : st :=
  foldl (λ s now, (bump_of now "tx-1" None (Ret 150) ex_answer s).2) ex_st [2000; 3000; 4000; 5000].

Lemma bumps_reachable l s :
  rtc (step MAX_FEE_BUMP_ATTEMPTS MAX_FEE_CAP_STROOPS "tx-1") s
      (foldl (λ s now, (bump_of now "tx-1" None (Ret 150) ex_answer s).2) s l).
Proof.
  revert s. induction l as [|t l IH]; intros s; cbn [foldl]; [done|]. eapply rtc_l; [apply step_bump|apply IH].
Qed.

Lemma attempts_bounded_witness :
  submissions four_bumps = [("tx-1", 150); ("tx-1", 300); ("tx-1", 600)] ∧ Z.of_nat (sent_for "tx-1" four_bumps) <= 3.
Proof.
  split; [vm_compute; reflexivity|]. change 3 with (Z.max 0 MAX_FEE_BUMP_ATTEMPTS).
  refine (proj1 (attempts_bounded MAX_FEE_BUMP_ATTEMPTS MAX_FEE_CAP_STROOPS "tx-1" ex_txs four_bumps _ (bumps_reachable _ _))).
  vm_compute. discriminate.
Defined.

Definition ex_bump : bump := mk_bump "tx-1" (tx (default (mk_obj 0 (new_transaction 0 "" ex_data "")) (map_get (_store ex_txs) "tx-1"))) 1.

Lemma overlapping_bumps_counted_once_witness :
  start MAX_FEE_BUMP_ATTEMPTS "tx-1" ex_st = Ret ex_bump ∧
  ∃ o', map_get (_store (txs (foldl (λ s e, (finish e.1.1 ex_bump e.1.2 e.2 s).2) ex_st
                              [(2000, 150, ex_answer); (2000, 150, ex_answer); (2000, 150, ex_answer)]))) "tx-1" = Some o' ∧
        feeBumpCount (tx o') = 1.
Proof.
  split; [vm_compute; reflexivity|].
  destruct (overlapping_bumps_counted_once MAX_FEE_BUMP_ATTEMPTS "tx-1" ex_st ex_bump
    [(2000, 150, ex_answer); (2000, 150, ex_answer); (2000, 150, ex_answer)]) as (o & o' & Ho & Ho' & Hc); [vm_compute; reflexivity|done|].
  exists o'. split; [exact Ho'|]. rewrite Hc. vm_compute in Ho. injection Ho as <-. reflexivity.
Defined.

Lemma failed_bump_type_error_witness :
  (bump_of 2000 "tx-1" (Some 2000000) (Ret 0) ex_answer ex_st).1 = Throw not_a_promise ∧
  (bump_of 2000 "tx-1" None (Throw (EPlain "timeout")) ex_answer ex_st).1 = Throw not_a_promise.
Proof.
  split.
  - refine (proj1 (failed_bump_type_error MAX_FEE_BUMP_ATTEMPTS MAX_FEE_CAP_STROOPS 2000 "tx-1" (Some 2000000) (Ret 0) ex_answer ex_st ex_bump _ _));
      vm_compute; reflexivity.
  - refine (proj1 (failed_bump_type_error MAX_FEE_BUMP_ATTEMPTS MAX_FEE_CAP_STROOPS 2000 "tx-1" None (Throw (EPlain "timeout")) ex_answer ex_st ex_bump _ _));
      vm_compute; reflexivity.
Defined.

Lemma automatic_fee_higher_witness : default 0 (currentFee (b_tx ex_bump)) < 200.
Proof.
  apply (automatic_fee_higher MAX_FEE_CAP_STROOPS (Ret 90)).
  - vm_compute. intros f [= <-]. discriminate.
  - vm_compute. reflexivity.
Defined.

End FeeBump.
