(* ===== verification/Sanitizer.v ===== *)
(** * Sanitising of texts ([src/src/utils/sanitizer.js])

    The removal of tags, handlers, control characters and escape sequences,
    the encoding of HTML entities, and the sanitisers of the field types.
    Unicode normalisation is the identity on code points below 256; the
    markup sanitiser and the recursion into log data are left out. *)

From Stdlib Require Import Ascii String.
From S2P Require Import Prelude JsString JsRegex.
Local Open Scope Z_scope.

Module Sanitizer.

(** ** Patterns *)

Definition dquote : ascii := char_of_code 34.
Definition squote : ascii := char_of_code 39.
Definition c_quote : ascii → bool := c_or (c_char dquote) (c_char squote).
Definition any_not (p : ascii → bool) : re := RStar (RSet (c_not p)).
Definition spaces : re := RStar (RSet is_space).

(** The element of a name with its content: an opening tag, text, brackets that
    do not begin the closing tag, the closing tag; without regard to case. *)
Definition element_re (tag : string) : re :=
  let close := RLitCI ("</" +:+ tag +:+ ">") in
  RSeqs [RLitCI ("<" +:+ tag); RWordB; any_not (c_char "<");
         RStar (RSeqs [RNot close; RSet (c_char "<"); any_not (c_char "<")]); close].
(** [/\s*on\w+\s*=\s*Q[^Q]*Q/gi] where Q is a quote of either kind *)
Definition handler_quoted_re : re :=
  RSeqs [spaces; RLitCI "on"; RPlus (RSet is_word); spaces; RSet (c_char "="); spaces;
         RSet c_quote; any_not c_quote; RSet c_quote].
(** [/\s*on\w+\s*=\s*[^\s>]*/gi] *)
Definition handler_re : re :=
  RSeqs [spaces; RLitCI "on"; RPlus (RSet is_word); spaces; RSet (c_char "="); spaces;
         any_not (c_or is_space (c_char ">"))].
(** [/javascript:[^Q\s>]*/gi] *)
Definition javascript_re : re := RSeq (RLitCI "javascript:") (any_not (c_or c_quote (c_or is_space (c_char ">")))).
(** [/<\/?[a-zA-Z][^>]*>/g] *)
Definition tag_re : re :=
  RSeqs [RSet (c_char "<"); ROpt (RSet (c_char "/")); RSet c_letter; any_not (c_char ">"); RSet (c_char ">")].
(** [/\x1B(?:\[[0-?]*[ -/]*[@-~]|[@-_])/g] *)
Definition ansi_re : re :=
  RSeq (RSet (c_range 27 27))
    (RAlt (RSeqs [RSet (c_char "["); RStar (RSet (c_range 48 63)); RStar (RSet (c_range 32 47)); RSet (c_range 64 126)])
          (RSet (c_range 64 95))).

(** ** Helpers *)

Fixpoint str_flat_map (f : ascii → string) (s : string) : string :=
  match s with "" => "" | String c s => f c +:+ str_flat_map f s end.
Fixpoint str_filter (p : ascii → bool) (s : string) : string :=
  match s with "" => "" | String c s => if p c then String c (str_filter p s) else str_filter p s end.

Definition entity (c : ascii) : string :=
  if bool_decide (c = "&"%char) then "&amp;"
  else if bool_decide (c = "<"%char) then "&lt;"
  else if bool_decide (c = ">"%char) then "&gt;"
  else if bool_decide (c = dquote) then "&quot;"
  else if bool_decide (c = squote) then "&#x27;"
  else if bool_decide (c = "/"%char) then "&#x2F;"
  else String c "".
Definition encodeHtmlEntities (s : string) : string := str_flat_map entity s.

Definition removeScriptTagsAndHandlers (s : string) : string :=
  let s := re_delete (element_re "script") s in
  let s := re_delete (element_re "iframe") s in
  let s := re_delete (element_re "style") s in
  let s := re_delete handler_quoted_re s in
  let s := re_delete handler_re s in
  re_delete javascript_re s.

Definition stripHtmlTags (s : string) : string := re_delete tag_re (removeScriptTagsAndHandlers s).

Definition removeNullBytes (s : string) : string := str_filter (λ c, negb (char_code c =? 0)) s.

Definition is_control (allowNewlines : bool) (c : ascii) : bool :=
  let n := char_code c in
  ((n <=? 31) || (n =? 127)) && negb (allowNewlines && ((n =? 10) || (n =? 13))).
Definition removeControlCharacters (allowNewlines : bool) (s : string) : string :=
  str_filter (λ c, negb (is_control allowNewlines c)) s.

Definition removeAnsiSequences (s : string) : string := re_delete ansi_re s.

(** ** The sanitisers *)

Record options := mk_options {
  maxLength : nat; allowNewlines : bool; allowSpecialChars : bool; encodeHtml : bool; stripTags : bool;
}.
Definition default_options : options := mk_options 255 false true true false.

(** [[a-zA-Z0-9\s\-_.@]] *)
Definition plain_char (c : ascii) : bool :=
  c_letter c || is_digit c || is_space c || existsb (λ x, bool_decide (c = x)) ["-"; "_"; "."; "@"]%char.

Definition sanitizeText (o : options) (input : option string) : string :=
  match input with
  | None => ""
  | Some input =>
      let s := removeAnsiSequences (trim input) in
      let s := removeNullBytes s in
      let s := removeControlCharacters (allowNewlines o) s in
      let s := removeScriptTagsAndHandlers s in
      let s := if stripTags o then stripHtmlTags s else s in
      let s := if allowSpecialChars o then s else str_filter plain_char s in
      let s := if encodeHtml o && allowSpecialChars o && negb (stripTags o) then encodeHtmlEntities s else s in
      str_take (maxLength o) s
  end.

(** The common body of [sanitizeMemo], [sanitizeLabel] and [sanitizeName]. *)
Definition sanitize_short (max : nat) (s : string) : string :=
  let s := stripHtmlTags s in
  let s := removeControlCharacters false s in
  let s := removeNullBytes s in
  let s := removeAnsiSequences s in
  str_take max (trim s).
Definition sanitizeMemo : string → string := sanitize_short 28.
Definition sanitizeLabel : string → string := sanitize_short 100.
Definition sanitizeName : string → string := sanitize_short 100.

Definition sanitizeIdentifier (s : option string) : string :=
  str_filter (λ c, negb (bool_decide (c = "@"%char))) (sanitizeText (mk_options 100 false false true false) s).

(** [sanitizeDescription] without markup. *)
Definition sanitizeDescription (max : nat) (s : string) : string :=
  let s := stripHtmlTags s in
  let s := removeControlCharacters true s in
  let s := removeNullBytes s in
  let s := removeAnsiSequences s in
  str_take max (trim s).

Definition sanitizeStellarAddress (s : string) : string :=
  let s := removeNullBytes (trim s) in
  let s := removeScriptTagsAndHandlers s in
  let s := removeControlCharacters false s in
  str_take 56 (removeAnsiSequences s).

(** ** Every step of the short sanitisers deletes *)

Definition deletes (f : string → string) : Prop := ∀ s, chars (f s) `sublist_of` chars s.

Lemma deletes_comp f g : deletes f → deletes g → deletes (λ s, g (f s)).
Proof. intros Hf Hg s. etrans; [apply Hg|apply Hf]. Qed.

Lemma deletes_re r : deletes (re_delete r).
Proof. intros s. apply re_delete_sublist. Qed.

Lemma deletes_filter p : deletes (str_filter p).
Proof. intros s. induction s as [|c s IH]; [done|]. cbn. destruct (p c); by constructor. Qed.

Lemma deletes_trim_start : deletes trim_start.
Proof. intros s. induction s as [|c s IH]; [done|]. cbn. destruct (is_space c); [by apply sublist_cons|done]. Qed.

Lemma deletes_trim_end : deletes trim_end.
Proof.
  intros s. induction s as [|c s IH]; [done|]. cbn [trim_end].
  destruct (trim_end s); [case_match|]; cbn in *; try by apply sublist_skip. apply sublist_nil_l.
Qed.

Lemma deletes_trim : deletes trim.
Proof. apply (deletes_comp _ _ deletes_trim_start deletes_trim_end). Qed.

Lemma deletes_take n : deletes (str_take n).
Proof.
  intros s. revert n. induction s as [|c s IH]; intros [|n]; cbn; try done; [apply sublist_nil_l|].
  by apply sublist_skip.
Qed.

Create HintDb sanitize.
#[local] Hint Resolve deletes_re deletes_filter deletes_trim deletes_take : sanitize.

Lemma deletes_scripts : deletes removeScriptTagsAndHandlers.
Proof. intros s. unfold removeScriptTagsAndHandlers. do 5 (etrans; [apply deletes_re|]). apply deletes_re. Qed.

Lemma deletes_tags : deletes stripHtmlTags.
Proof. intros s. etrans; [apply deletes_re|apply deletes_scripts]. Qed.

(** A class of characters that a text does not have stays away. *)
Lemma str_forall_chars p s : str_forall p s = true ↔ Forall (λ c, p c = true) (chars s).
Proof.
  induction s as [|c s IH]; cbn; [split; [constructor|done]|]. rewrite andb_true_iff, IH, Forall_cons. done.
Qed.

Lemma deletes_forall f p s : deletes f → str_forall p s = true → str_forall p (f s) = true.
Proof. intros Hf. rewrite !str_forall_chars. rewrite !Forall_forall. intros H c Hc. apply H. by eapply elem_of_sublist. Qed.

Lemma filter_forall p s : str_forall p (str_filter p s) = true.
Proof. induction s as [|c s IH]; [done|]. cbn. destruct (p c) eqn:Hc; [cbn; by rewrite Hc|done]. Qed.

Lemma str_take_bound n s : (String.length (str_take n s) <= n)%nat.
Proof. revert s. induction n as [|n IH]; intros [|c s]; cbn; try lia. specialize (IH s). lia. Qed.

(** The short sanitisers: bounded, without control characters, and nothing
    that was not in the text, in its order. *)
Theorem sanitize_short_spec max s :
  (String.length (sanitize_short max s) <= max)%nat ∧
  str_forall (λ c, negb (is_control false c)) (sanitize_short max s) = true ∧
  chars (sanitize_short max s) `sublist_of` chars s.
Proof.
  unfold sanitize_short. split_and!.
  - apply str_take_bound.
  - do 2 (apply deletes_forall; [auto with sanitize|]). unfold removeAnsiSequences, removeNullBytes.
    do 2 (apply deletes_forall; [auto with sanitize|]). apply filter_forall.
  - etrans; [apply deletes_take|]. etrans; [apply deletes_trim|]. etrans; [apply deletes_re|].
    etrans; [apply deletes_filter|]. etrans; [apply deletes_filter|]. apply deletes_tags.
Qed.

(** Tags are removed before control characters: a NUL after the bracket hides
    a tag until the last step uncovers it. *)
Example memo_tag_survives :
  sanitizeMemo ("<" +:+ String (char_of_code 0) "script>alert(1)</" +:+ String (char_of_code 0) "script>") =
    "<script>alert(1)</script>".
Proof. vm_compute. reflexivity. Qed.

(** ** Encoded text *)

Definition html_special (c : ascii) : bool :=
  existsb (λ x, bool_decide (c = x)) ["<"%char; ">"%char; dquote; squote; "/"%char].

Lemma entity_plain c : str_forall (λ c, negb (html_special c)) (entity c) = true.
Proof. destruct c as [[] [] [] [] [] [] [] []]; vm_compute; reflexivity. Qed.

Lemma encode_plain s : str_forall (λ c, negb (html_special c)) (encodeHtmlEntities s) = true.
Proof.
  induction s as [|c s IH]; [done|]. cbn -[entity]. rewrite str_forall_app, entity_plain. done.
Qed.

(** With the default treatment a text cannot open a tag or leave an attribute
    value: no bracket, quote or slash reaches the output; its length is
    bounded. *)
Theorem sanitizeText_encoded o input :
  encodeHtml o = true → allowSpecialChars o = true → stripTags o = false →
  str_forall (λ c, negb (html_special c)) (sanitizeText o input) = true ∧
  (String.length (sanitizeText o input) <= maxLength o)%nat.
Proof.
  intros He Ha Hs. destruct input as [s|]; [|cbn; split; [done|lia]].
  unfold sanitizeText. rewrite He, Ha, Hs. cbn [andb negb]. split; [|apply str_take_bound].
  apply deletes_forall; [apply deletes_take|]. apply encode_plain.
Qed.

(** The text may be cut inside an entity. *)
Example entity_cut : sanitizeText (mk_options 3 false true true false) (Some "a<b") = "a&l".
Proof. vm_compute. reflexivity. Qed.

(** An identifier is plain: letters, digits, white space without line breaks,
    and [-_.]. *)
Theorem sanitizeIdentifier_plain s :
  str_forall (λ c, plain_char c && negb (bool_decide (c = "@"%char)) && negb (is_control false c)) (sanitizeIdentifier s) = true ∧
  (String.length (sanitizeIdentifier s) <= 100)%nat.
Proof.
  unfold sanitizeIdentifier. destruct s as [s|]; [|cbn; split; [done|lia]]. unfold sanitizeText.
  cbn [allowNewlines stripTags allowSpecialChars encodeHtml maxLength andb].
  set (u := str_filter plain_char _). split.
  - assert (Hu : str_forall plain_char (str_take 100 u) = true ∧ str_forall (λ c, negb (is_control false c)) (str_take 100 u) = true).
    { split; (apply deletes_forall; [apply deletes_take|]); subst u; [apply filter_forall|].
      apply deletes_forall; [apply deletes_filter|]. apply deletes_forall; [apply deletes_scripts|]. apply filter_forall. }
    destruct Hu as [Hu1 Hu2]. set (v := str_take 100 u) in *.
    apply str_forall_chars. pose proof (filter_forall (λ c, negb (bool_decide (c = "@"%char))) v) as H3.
    apply str_forall_chars in H3.
    pose proof (proj1 (str_forall_chars _ _) (deletes_forall _ _ _ (deletes_filter (λ c, negb (bool_decide (c = "@"%char)))) Hu1)) as H1.
    pose proof (proj1 (str_forall_chars _ _) (deletes_forall _ _ _ (deletes_filter (λ c, negb (bool_decide (c = "@"%char)))) Hu2)) as H2.
    rewrite Forall_forall in *. intros c Hc. by rewrite H1, H2, H3.
  - etrans; [|apply (str_take_bound 100 u)]. pose proof (deletes_filter (λ c, negb (bool_decide (c = "@"%char))) (str_take 100 u)) as H.
    apply sublist_length in H. assert (Hlen : ∀ s : string, length (chars s) = String.length s)
      by (clear; intros s; induction s; cbn; congruence). by rewrite !Hlen in H.
Qed.

Lemma sanitizeText_encoded_witness :
  sanitizeText default_options (Some "<b>Ann & Bo</b>") = "&lt;b&gt;Ann &amp; Bo&lt;&#x2F;b&gt;" ∧
  str_forall (λ c, negb (html_special c)) (sanitizeText default_options (Some "<b>Ann & Bo</b>")) = true.
Proof.
  split; [by vm_compute|]. apply (sanitizeText_encoded default_options (Some "<b>Ann & Bo</b>")); reflexivity.
Defined.

End Sanitizer.
