(* ===== verification/Memos.v ===== *)
(** * Memos ([src/src/utils/memoValidator.js], [src/src/utils/memoCollisionDetector.js])

    The validation of a memo by its type, the cut to the length the network
    takes, and the detector of memos used again within a window, which is
    proved against the list of all payments.  A memo is a text; the branches
    for values of other types are left out. *)

From Stdlib Require Import Ascii.
From S2P Require Import Prelude JsString JsNumber JsMap JsRegex Assets Sanitizer.
Local Open Scope Z_scope.

Module Memos.

(** ** Validation *)

Definition MAX_MEMO_LENGTH : nat := 28.
Definition MAX_UINT64 : Z := 18446744073709551615.

(** [Buffer.byteLength(s, 'utf8')] *)
Definition byte_width (c : ascii) : nat := if char_code c <? 128 then 1%nat else 2%nat.
Fixpoint byteLength (s : string) : nat :=
  match s with EmptyString => O | String c s => (byte_width c + byteLength s)%nat end.

(** The sanitised memo, or the code of the refusal. *)
Inductive verdict := Valid (sanitized : string) | Invalid (code : string).

Definition validate (memo : string) : verdict :=
  if is_empty memo then Valid ""
  else
    let sanitized := trim memo in
    if (MAX_MEMO_LENGTH <? byteLength sanitized)%nat then Invalid "MEMO_TOO_LONG"
    else if str_exists (λ c, char_code c =? 0) sanitized then Invalid "INVALID_MEMO_CONTENT"
    else if str_exists (λ c, (char_code c <=? 31) || (char_code c =? 127)) sanitized then Invalid "INVALID_MEMO_FORMAT"
    else Valid sanitized.

Definition _validateId (value : string) : verdict :=
  let str := trim value in
  if negb (all_digits str) then Invalid "INVALID_MEMO_ID"
  else match BigInt_of_string str with
       | Some bigVal => if (bigVal <? 0) || (MAX_UINT64 <? bigVal) then Invalid "INVALID_MEMO_ID" else Valid str
       | None => Invalid "INVALID_MEMO_ID"
       end.

Definition hex_char (c : ascii) : bool := is_digit c || ((97 <=? char_code c) && (char_code c <=? 102)).
(** [/^[0-9a-f]{64}$/.test(s)] *)
Definition hash_pattern (s : string) : bool := (String.length s =? 64)%nat && str_forall hex_char s.

Definition _validateHash (value : string) : verdict :=
  let hex := to_lower (trim value) in
  if negb (hash_pattern hex) then Invalid "INVALID_MEMO_HASH" else Valid hex.

Definition validateWithType (memo : option string) (memoType : string) : verdict :=
  if bool_decide (memoType ∉ ["text"; "hash"; "id"; "return"]) then Invalid "INVALID_MEMO_TYPE"
  else match memo with
       | None => Valid ""
       | Some memo =>
           if is_empty memo then Valid ""
           else if bool_decide (memoType = "text") then validate memo
           else if bool_decide (memoType = "id") then _validateId memo
           else _validateHash memo
       end.

(** The length is that of the memo as it is sent. *)
Definition validateFinalMemo (memo : option string) (memoType : string) : option string :=
  match memo with
  | None => None
  | Some memo =>
      if is_empty memo then None
      else if bool_decide (memoType = "text") then
        if (MAX_MEMO_LENGTH <? byteLength memo)%nat then Some "MEMO_TOO_LONG" else None
      else if bool_decide (memoType = "hash" ∨ memoType = "return") then
        if hash_pattern (to_lower (trim memo)) then None else Some "INVALID_MEMO_HASH"
      else if bool_decide (memoType = "id") then
        match _validateId memo with Valid _ => None | Invalid c => Some c end
      else Some "INVALID_MEMO_TYPE"
  end.

Definition isEmpty (memo : option string) : bool :=
  match memo with None => true | Some m => is_empty m || is_empty (trim m) end.

(** [while (byteLength(t) > 28) t = t.slice(0, -1)]: at most one turn for each
    character. *)
Fixpoint drop_while_long (fuel : nat) (t : string) : string :=
  if (MAX_MEMO_LENGTH <? byteLength t)%nat then
    match fuel with O => t | S fuel => drop_while_long fuel (str_take (String.length t - 1) t) end
  else t.
Definition truncate (memo : option string) : string :=
  match memo with
  | None => ""
  | Some m => let sanitized := trim m in drop_while_long (String.length sanitized) sanitized
  end.

(** [validateAndSanitizeMemo] of the donation service *)
Definition validateAndSanitizeMemo (memo : option string) : verdict :=
  match memo with
  | None => Valid ""
  | Some m => match validate m with
              | Invalid c => Invalid c
              | Valid _ => Valid (Sanitizer.sanitizeMemo m)
              end
  end.

(** ** Lengths *)

Lemma byteLength_app s t : byteLength (s +:+ t) = (byteLength s + byteLength t)%nat.
Proof. induction s as [|c s IH]; cbn; [done|]. rewrite IH. lia. Qed.
Lemma byte_width_pos c : (1 <= byte_width c <= 2)%nat.
Proof. unfold byte_width. case_match; lia. Qed.
Lemma length_byteLength s : (String.length s <= byteLength s)%nat.
Proof. induction s as [|c s IH]; cbn; [done|]. pose proof (byte_width_pos c). lia. Qed.

Definition prefix_of (p s : string) : Prop := ∃ t, s = p +:+ t.

Lemma str_take_prefix n s : prefix_of (str_take n s) s.
Proof. exists (str_drop n s). revert n. induction s as [|c s IH]; intros [|n]; cbn; try done. f_equal. apply IH. Qed.

Lemma str_take_all n s : (String.length s <= n)%nat → str_take n s = s.
Proof. revert n. induction s as [|c s IH]; intros [|n]; cbn; try done; [lia|]. intros. f_equal. apply IH. lia. Qed.

Lemma prefix_split p s : prefix_of p s → (String.length p <= String.length s)%nat ∧
  ((String.length p < String.length s)%nat → prefix_of p (str_take (String.length s - 1) s)) ∧
  (String.length p = String.length s → p = s).
Proof.
  intros [t ->]. rewrite str_length_app. split_and!; [lia| |].
  - intros Ht. exists (str_take (String.length t - 1) t).
    replace (String.length p + String.length t - 1)%nat with (String.length p + (String.length t - 1))%nat by lia.
    clear Ht. induction p as [|c p IH]; cbn; [done|]. by f_equal.
  - intros Hl. destruct t; [by rewrite str_app_nil_r|cbn in Hl; lia].
Qed.

Lemma prefix_trans p q s : prefix_of p q → prefix_of q s → prefix_of p s.
Proof. intros [t ->] [u ->]. exists (t +:+ u). apply str_app_assoc. Qed.

Lemma drop_while_long_spec fuel t :
  (String.length t <= fuel)%nat →
  let u := drop_while_long fuel t in
  prefix_of u t ∧ (byteLength u <= MAX_MEMO_LENGTH)%nat ∧
  ∀ v, prefix_of v t → (byteLength v <= MAX_MEMO_LENGTH)%nat → prefix_of v u.
Proof.
  revert t. induction fuel as [|fuel IH]; intros t Hf; cbn [drop_while_long] in *;
    destruct (Nat.ltb_spec MAX_MEMO_LENGTH (byteLength t)) as [Hl|Hl].
  - destruct t; [cbn in Hl; lia|cbn in Hf; lia].
  - split_and!; [by exists ""; rewrite str_app_nil_r|done|auto].
  - destruct t as [|c t]; [cbn in Hl; lia|]. set (t' := str_take _ _).
    assert (Hle : (String.length t' <= fuel)%nat).
    { subst t'. cbn [String.length] in *. etrans; [apply Sanitizer.str_take_bound|lia]. }
    destruct (IH t' Hle) as (Hp & Hb & Hm). split_and!; [|done|].
    + eapply prefix_trans; [exact Hp|]. apply str_take_prefix.
    + intros v Hv Hbv. destruct (prefix_split _ _ Hv) as (Hlen & Hshort & Hsame).
      destruct (decide (String.length v = String.length (String c t))) as [He|He].
      * rewrite (Hsame He) in Hbv. unfold MAX_MEMO_LENGTH in *. lia.
      * apply Hm; [|done]. apply Hshort. lia.
  - split_and!; [by exists ""; rewrite str_app_nil_r|done|auto].
Qed.

(** ** Deleting characters *)


Lemma sublist_cases c u s :
  chars u `sublist_of` chars (String c s) →
  chars u `sublist_of` chars s ∨ ∃ u', u = String c u' ∧ chars u' `sublist_of` chars s.
Proof.
  cbn. intros [?|(k & Hk & Hs)]%sublist_cons_r; [by left|]. right. destruct u as [|d u]; [done|].
  cbn in Hk. injection Hk as -> <-. by exists u.
Qed.
Lemma sublist_empty u : chars u `sublist_of` chars "" → u = "".
Proof. cbn. intros H%sublist_nil_r. by destruct u. Qed.

Lemma byteLength_sublist u s : chars u `sublist_of` chars s → (byteLength u <= byteLength s)%nat.
Proof.
  revert u. induction s as [|c s IH]; intros u; [by intros ->%sublist_empty|].
  intros [H|(u' & -> & H)]%sublist_cases; apply IH in H; cbn; lia.
Qed.

Lemma trim_start_sublist u s : chars u `sublist_of` chars s → chars (trim_start u) `sublist_of` chars (trim_start s).
Proof.
  revert u. induction s as [|c s IH]; intros u; [by intros ->%sublist_empty|]. intros H. cbn [trim_start].
  destruct (is_space c) eqn:Hc.
  - apply sublist_cases in H as [H|(u' & -> & H)]; [by apply IH|]. cbn [trim_start]. rewrite Hc. by apply IH.
  - etrans; [apply Sanitizer.deletes_trim_start|done].
Qed.

Lemma trim_end_sublist u s : chars u `sublist_of` chars s → chars (trim_end u) `sublist_of` chars (trim_end s).
Proof.
  revert u. induction s as [|c s IH]; intros u; [by intros ->%sublist_empty|].
  intros [H|(u' & -> & H)]%sublist_cases; apply IH in H; cbn [trim_end].
  - destruct (trim_end s) as [|d t]; [apply sublist_empty in H as ->; apply sublist_nil_l|]. by apply sublist_cons.
  - destruct (trim_end s) as [|d t]; [by apply sublist_empty in H as ->|].
    destruct (trim_end u') as [|e v]; [|by apply sublist_skip]. destruct (is_space c); [apply sublist_nil_l|].
    cbn. apply sublist_skip. apply sublist_nil_l.
Qed.

Lemma sanitizeMemo_sublist m : chars (Sanitizer.sanitizeMemo m) `sublist_of` chars (trim m).
Proof.
  unfold Sanitizer.sanitizeMemo, Sanitizer.sanitize_short. etrans; [apply Sanitizer.deletes_take|].
  apply trim_end_sublist, trim_start_sublist. etrans; [apply Sanitizer.deletes_re|].
  etrans; [apply Sanitizer.deletes_filter|]. etrans; [apply Sanitizer.deletes_filter|]. apply Sanitizer.deletes_tags.
Qed.

(** ** Theorems *)

(** The cut memo is the longest beginning of the trimmed memo, in whole
    characters, that the network takes. *)
Theorem truncate_longest m :
  prefix_of (truncate (Some m)) (trim m) ∧ (byteLength (truncate (Some m)) <= MAX_MEMO_LENGTH)%nat ∧
  ∀ v, prefix_of v (trim m) → (byteLength v <= MAX_MEMO_LENGTH)%nat → prefix_of v (truncate (Some m)).
Proof. by apply drop_while_long_spec. Qed.

Lemma valid_memo_cases m s : validate m = Valid s → (m = "" ∨ s = trim m) ∧ (byteLength s <= MAX_MEMO_LENGTH)%nat.
Proof.
  unfold validate. destruct (is_empty m) eqn:Hm; [intros [= <-]; split; [left; by destruct m|cbn; lia]|].
  cbv zeta. destruct (Nat.ltb_spec MAX_MEMO_LENGTH (byteLength (trim m))); [done|].
  destruct (str_exists _ _); [done|]. destruct (str_exists _ _); [done|]. intros [= <-]. auto.
Qed.

Lemma hex_lower_fix c : hex_char c = true → lower_char c = c ∧ is_space c = false.
Proof. destruct c as [[] [] [] [] [] [] [] []]; by vm_compute. Qed.
Lemma hash_fix s : str_forall hex_char s = true → trim s = s ∧ to_lower s = s.
Proof.
  intros Hs. split.
  - apply trim_id. revert Hs. induction s as [|c s IH]; [done|]. cbn -[hex_char]. intros [Hc Hs]%andb_prop.
    rewrite IH by done. by rewrite (proj2 (hex_lower_fix c Hc)).
  - revert Hs. unfold to_lower. induction s as [|c s IH]; [done|]. cbn -[hex_char lower_char]. intros [Hc Hs]%andb_prop.
    rewrite IH by done. by rewrite (proj1 (hex_lower_fix c Hc)).
Qed.

Lemma final_typed memo memoType s : validateWithType memo memoType = Valid s → validateFinalMemo (Some s) memoType = None.
Proof.
  intros H. unfold validateWithType in H. case_bool_decide as Hin; [done|]. unfold validateFinalMemo.
  destruct memo as [m|]; [|by injection H as <-]. destruct (is_empty m); [by injection H as <-|].
  destruct (is_empty s) eqn:Hs; [done|].
  case_bool_decide as Ht; [|case_bool_decide as Hid].
  - apply valid_memo_cases in H as [_ Hb]. by rewrite (proj2 (Nat.ltb_ge _ _)).
  - subst memoType. rewrite bool_decide_false by by intros [?|?]. revert H. unfold _validateId.
    destruct (all_digits (trim m)) eqn:Hd; [|done]. cbn [negb]. destruct (BigInt_of_string _) as [b|] eqn:Hb; [|done].
    destruct (_ || _) eqn:Hr; [done|]. intros [= <-]. by rewrite trim_idem, Hd, Hb, Hr.
  - assert (memoType = "hash" ∨ memoType = "return").
    { rewrite !elem_of_cons, elem_of_nil in Hin. naive_solver. }
    rewrite bool_decide_true by done. revert H. unfold _validateHash.
    destruct (hash_pattern (to_lower (trim m))) eqn:Hh; [|done]. cbn [negb]. intros [= <-].
    pose proof Hh as Hh'. unfold hash_pattern in Hh. apply andb_prop in Hh as [_ Hx]. apply hash_fix in Hx as [-> ->].
    by rewrite Hh'.
Qed.

Lemma final_text memo s : validateAndSanitizeMemo memo = Valid s → validateFinalMemo (Some s) "text" = None.
Proof.
  intros H. unfold validateFinalMemo. destruct (is_empty s); [done|]. rewrite bool_decide_true by done.
  unfold validateAndSanitizeMemo in H. destruct memo as [m|]; [|by injection H as <-].
  destruct (validate m) as [t|] eqn:Hv; [|done]. injection H as <-.
  apply valid_memo_cases in Hv as [Hm Hb]. pose proof (byteLength_sublist _ _ (sanitizeMemo_sublist m)).
  rewrite (proj2 (Nat.ltb_ge _ _)); [done|]. destruct Hm as [-> | ->]; cbn in *; lia.
Qed.

(** A memo that is accepted, by its type or sanitised as a text, is one the
    network takes for that type. *)
Theorem accepted_memo_final memo memoType s :
  validateWithType memo memoType = Valid s ∨ memoType = "text" ∧ validateAndSanitizeMemo memo = Valid s →
  validateFinalMemo (Some s) memoType = None.
Proof. intros [H|[-> H]]; [by eapply final_typed|by eapply final_text]. Qed.

Lemma accepted_memo_final_witness :
  validateWithType (Some " 0042 "%string) "id" = Valid "0042" ∧ validateFinalMemo (Some "0042"%string) "id" = None.
Proof.
  assert (H : validateWithType (Some " 0042 "%string) "id" = Valid "0042") by (vm_compute; reflexivity).
  split; [exact H|]. exact (accepted_memo_final (Some " 0042 "%string) "id" "0042" (or_introl H)).
Defined.

(** ** The detector *)

Module Detector.

Record payment := mk_payment {
  memo : string;                     (* empty when the payment has none *)
  donor : option string;
  recipient : option string;
  amount : num;
  sessionId : option string;
  transactionId : option string;
}.
Record entry := mk_entry { e_payment : payment; timestamp : Z }.

Definition truthy (o : option string) : option string := match o with Some "" => None | _ => o end.

(** The map from trimmed memos to the payments that had them. *)
Definition store := list (string * list entry).

Record report := mk_report { collision : bool; suspicious : bool; reason : option string; priorPayments : list entry }.
Definition clear : report := mk_report false false None [].

(** The first objection an earlier payment raises, if any. *)
Definition objection (current p : payment) : option string :=
  if bool_decide (donor p ≠ donor current) then Some "DIFFERENT_DONOR_SAME_MEMO"
  else if negb (num_eqb (amount p) (amount current)) then Some "AMOUNT_MISMATCH"
  else match truthy (sessionId current), truthy (sessionId p) with
       | Some a, Some b => if bool_decide (a ≠ b) then Some "SESSION_ID_MISMATCH" else None
       | _, _ => None
       end.
Fixpoint first_objection (current : payment) (prior : list entry) : option string :=
  match prior with
  | [] => None
  | p :: l => match objection current (e_payment p) with Some r => Some r | None => first_objection current l end
  end.

Definition _evaluate (prior : list entry) (current : payment) : report :=
  match prior with
  | [] => clear
  | _ => let r := first_objection current prior in mk_report true (bool_decide (is_Some r)) r prior
  end.

Section window.
Context (windowMs : Z).

Definition fresh (now : Z) (l : list entry) : list entry := filter (λ e, now - windowMs <= timestamp e) l.

Definition check (now : Z) (p : payment) (s : store) : report * store :=
  if is_empty (trim (memo p)) then (clear, s)
  else
    let m := trim (memo p) in
    let prior := fresh now (default [] (map_get s m)) in
    (_evaluate prior p, map_set s m (prior ++ [mk_entry p now])).

(** [cleanup]: lists with nothing left are deleted. *)
Definition cleanup (now : Z) (s : store) : store :=
  map_entries (λ l, match fresh now l with [] => None | l => Some l end) s.

(** ** Against the list of all payments *)

(** Of all payments with a memo, oldest first, those with the memo [m]. *)
Definition with_memo (m : string) (h : list entry) : list entry := filter (λ e, trim (memo (e_payment e)) = m) h.

Definition spec_check (now : Z) (p : payment) (h : list entry) : report * list entry :=
  if is_empty (trim (memo p)) then (clear, h)
  else (_evaluate (fresh now (with_memo (trim (memo p)) h)) p, h ++ [mk_entry p now]).

(** What is still in the window at [t] is the same on both sides. *)
Record tracks (t : Z) (h : list entry) (s : store) : Prop := {
  tr_keys : NoDup s.*1;
  tr_list m : fresh t (default [] (map_get s m)) = fresh t (with_memo m h);
}.

Lemma fresh_later t t' l : t <= t' → fresh t' (fresh t l) = fresh t' l.
Proof.
  intros Ht. unfold fresh. rewrite list_filter_filter. apply list_filter_iff. intros e. lia.
Qed.

Lemma tracks_later t t' h s : t <= t' → tracks t h s → tracks t' h s.
Proof.
  intros Ht [Hk Hl]. split; [done|]. intros m. by rewrite <- (fresh_later t t' (default _ _)), Hl, fresh_later.
Qed.

Lemma fresh_app t l l' : fresh t (l ++ l') = fresh t l ++ fresh t l'.
Proof. apply filter_app. Qed.

(** One check on both sides. *)
Lemma check_spec now p h s :
  tracks now h s →
  (check now p s).1 = (spec_check now p h).1 ∧ tracks now (spec_check now p h).2 (check now p s).2.
Proof.
  intros [Hk Hl]. unfold check, spec_check. destruct (is_empty (trim (memo p))); [by split|]. cbn [fst snd].
  set (m := trim (memo p)). split; [by rewrite Hl|]. split; [by apply map_set_NoDup|]. intros m'.
  rewrite map_get_set. unfold with_memo. rewrite filter_app. destruct (decide (m = m')) as [<-|Hne].
  - cbn [from_option id]. rewrite filter_cons_True, filter_nil by done. rewrite !fresh_app, fresh_later by lia. by rewrite Hl.
  - rewrite filter_cons_False, filter_nil, app_nil_r by done. apply Hl.
Qed.

Lemma cleanup_tracks now h s : tracks now h s → tracks now h (cleanup now s).
Proof.
  intros [Hk Hl]. split; [by apply map_entries_NoDup|]. intros m. rewrite <- Hl. unfold cleanup.
  rewrite map_get_entries by done. destruct (map_get s m) as [l|]; [|done]. cbn.
  destruct (fresh now l) as [|e l'] eqn:Hf; [done|]. cbn [from_option id]. rewrite <- Hf. by apply fresh_later.
Qed.

(** ** Runs *)

Inductive op := OpCheck (p : payment) | OpCleanup.

Fixpoint run (ops : list (Z * op)) (s : store) : list report :=
  match ops with
  | [] => []
  | (now, OpCheck p) :: ops => let '(r, s) := check now p s in r :: run ops s
  | (now, OpCleanup) :: ops => run ops (cleanup now s)
  end.
Fixpoint spec_run (ops : list (Z * op)) (h : list entry) : list report :=
  match ops with
  | [] => []
  | (now, OpCheck p) :: ops => let '(r, h) := spec_check now p h in r :: spec_run ops h
  | (_, OpCleanup) :: ops => spec_run ops h
  end.

(** The clock does not go back. *)
Fixpoint in_order (t : Z) (ops : list (Z * op)) : Prop :=
  match ops with [] => True | (now, _) :: ops => t <= now ∧ in_order now ops end.

Lemma run_tracks t ops h s : in_order t ops → tracks t h s → run ops s = spec_run ops h.
Proof.
  revert t h s. induction ops as [|[now [p|]] ops IH]; intros t h s; [done| |]; intros [Ht Ho] Htr; cbn [run spec_run];
    apply (tracks_later t now) in Htr; try done.
  - destruct (check_spec now p h s Htr) as [Hr Hn]. destruct (check now p s) as [r s'], (spec_check now p h) as [r' h'].
    cbn [fst snd] in *. subst r'. f_equal. by eapply IH.
  - eapply IH; [done|]. by apply cleanup_tracks.
Qed.

(** Whatever it forgot, the detector answers every check as if it looked through
    all payments so far for those with the same memo within the window. *)
Theorem detector_refines t ops : in_order t ops → run ops [] = spec_run ops [].
Proof. intros Ho. apply (run_tracks t ops [] []); [done|]. split; [constructor|done]. Qed.

(** A payment collides exactly when a payment with its memo is in the window,
    and is suspicious exactly when one of those has another donor, another
    amount or another session. *)
Theorem check_exact now p h :
  is_empty (trim (memo p)) = false →
  let r := (spec_check now p h).1 in
  let same := λ e, e ∈ h ∧ trim (memo (e_payment e)) = trim (memo p) ∧ now - windowMs <= timestamp e in
  (collision r = true ↔ ∃ e, same e) ∧
  (suspicious r = true ↔ ∃ e, same e ∧ is_Some (objection p (e_payment e))).
Proof.
  intros Hm. unfold spec_check. rewrite Hm. cbn [fst]. cbv zeta.
  assert (Hin : ∀ e, e ∈ fresh now (with_memo (trim (memo p)) h) ↔
    e ∈ h ∧ trim (memo (e_payment e)) = trim (memo p) ∧ now - windowMs <= timestamp e).
  { intros e. unfold fresh, with_memo. rewrite !list_elem_of_filter. tauto. }
  setoid_rewrite <- Hin. clear Hin. set (l := fresh now _). clearbody l. unfold _evaluate. split.
  - destruct l as [|e l]; cbn; split; try done; [intros (e & He); by apply elem_of_nil in He|].
    intros _. exists e. apply list_elem_of_here.
  - assert (Hf : is_Some (first_objection p l) ↔ ∃ e, e ∈ l ∧ is_Some (objection p (e_payment e))).
    { induction l as [|e l IH]; cbn; [split; [by intros [? ?]|intros (? & He & _); by apply elem_of_nil in He]|].
      destruct (objection p (e_payment e)) as [x|] eqn:Ho.
      - split; [|by eauto]. intros _. exists e. rewrite Ho. split; [apply list_elem_of_here|by eauto].
      - rewrite IH. split; intros (e' & He & Hx); exists e'; (split; [|done]); [by apply list_elem_of_further|].
        apply elem_of_cons in He as [->|]; [|done]. rewrite Ho in Hx. by destruct Hx. }
    destruct l as [|e l]; [|cbn [suspicious]; by rewrite bool_decide_eq_true].
    rewrite <- Hf. cbn. split; [done|by intros [? ?]].
Qed.

End window.

Definition ex_payment (who : string) (a : Z) : payment :=
  mk_payment " student-7 " (Some who) (Some "R"%string) (num_of_Z a) None None.
Definition ex_ops : list (Z * op) :=
  [(0, OpCheck (ex_payment "A" 5)); (1000, OpCheck (ex_payment "A" 5)); (2000, OpCheck (ex_payment "B" 5));
   (302500, OpCleanup); (302500, OpCheck (ex_payment "A" 5))].

Example detector_samples :
  (λ r, (collision r, reason r)) <$> run 300000 ex_ops [] =
    [(false, None); (true, None); (true, Some "DIFFERENT_DONOR_SAME_MEMO"); (false, None)].
Proof. by vm_compute. Qed.

Lemma detector_refines_witness : in_order 0 ex_ops ∧ run 300000 ex_ops [] = spec_run 300000 ex_ops [].
Proof.
  assert (Ho : in_order 0 ex_ops) by (cbn; lia). split; [exact Ho|]. exact (detector_refines 300000 0 ex_ops Ho).
Defined.

Lemma check_exact_witness :
  suspicious (spec_check 300000 2000 (ex_payment "B" 5) [mk_entry (ex_payment "A" 5) 0]).1 = true.
Proof.
  refine (proj2 (proj2 (check_exact 300000 2000 (ex_payment "B" 5) [mk_entry (ex_payment "A" 5) 0] ltac:(by vm_compute))) _).
  exists (mk_entry (ex_payment "A" 5) 0). split; [split; [apply list_elem_of_here|split; [done|cbn; lia]]|by eexists].
Defined.

End Detector.

End Memos.
