(* ===== verification/Donations.v ===== *)
(** * Donation flows ([src/src/services/DonationService.js])

    Refunds, approvals of large donations and their expiry, confirmation by
    ledger depth ([utils/confirmationChecker.js]) and the status update, over
    the transaction model.  One call is one step; answers of the network, of
    the SDK and of the users table are arguments, and so is which statements
    of a refund fail.  Audit entries, webhooks and the campaign and matching
    follow-ups are left out. *)

From S2P Require Import Prelude JsString JsNumber JsMap Errors TransactionState Transaction Memos.
Local Open Scope Z_scope.

Module Donations.
Import Transaction.

(** Fields that [create] spreads into a transaction beside the modelled ones;
    no operation changes them. *)
Record extra := mk_extra {
  x_senderId : option Z;
  x_sourceAmount : option string;
  x_confirmationThreshold : option Z;
  x_confirmations : option Z;
}.
Definition no_extra : extra := mk_extra None None None None.

(** A row of [refunds] (migrations/015_refunds_table_enhancements.js). *)
Record refund := mk_refund {
  rf_id : Z;
  rf_donation : string;
  rf_reverse : string;             (* UNIQUE *)
  rf_amount : num;
  rf_key : option string;
  rf_status : string;
}.

(** A payment the network is asked for.  One that was not answered may have
    been made. *)
Record payment := mk_payment { p_secret : string; p_dest : option string; p_amount : string; p_memo : string }.

(** [known] holds the identifiers in the [transactions] table, the target of
    the foreign key of [refunds]. *)
Record st := mk_st {
  model : Transaction.st;
  refunds : list refund;
  next_refund : Z;
  known : list string;
  payments : list payment;
}.

Definition M := stx jserror st.

(** A call of the transaction model. *)
Definition on_model {A} (m : Transaction.M A) : M A := λ s,
  let '(x, t) := m (model s) in (x, mk_st t (refunds s) (next_refund s) (known s) (payments s)).

Definition set_refunds (l : list refund) (s : st) : st :=
  mk_st (model s) l (next_refund s) (known s) (payments s).
Definition log_payment (p : payment) (s : st) : st :=
  mk_st (model s) (refunds s) (next_refund s) (known s) (payments s ++ [p]).

(** [stellarService.sendDonation] without a memo type: the service takes the
    memo for a text and refuses one of more than 28 bytes; its handler of
    errors rephrases the error. *)
Definition sendable (memo : string) : bool :=
  match Memos.validateFinalMemo (Some memo) "text" with None => true | Some _ => false end.
Definition sendDonation (p : payment) (answer : outcome jserror (string * Z)) : M (string * Z) :=
  if sendable (p_memo p) then modify_st (log_payment p);; lift_out answer
  else throw (EPlain "MEMO_TOO_LONG").

Definition getDonationById (i : string) : M transaction :=
  s ← get_st;
  match getById (model s) i with
  | Some o => mret (tx o)
  | None => throw (NotFoundError_with (code_ref "DONATION_NOT_FOUND"))
  end.

Section service.

(** [fromSecret] is the public key of a secret, [secretFor] the wallet of a
    donor known to the Stellar service. *)
Context (extras : string → extra) (fromSecret : string → option string)
  (users : Z → option (option string)) (decrypt : string → outcome jserror string)
  (secretFor : string → option string) (serviceSecretKey : string)
  (CONFIRMATION_THRESHOLD multisigRequiredApprovals refundWindowHours : Z).

(** ** Refunds *)

Inductive refund_answer := AlreadyProcessed (r : refund) | Refunded (id : Z).

Definition key_row (k : string) (s : st) : option refund :=
  find_first (λ r, bool_decide (rf_key r = Some k)) (refunds s).

(** The INSERT INTO refunds, with its constraints; the answer is the id. *)
Definition insert_refund (donation reverse : string) (amount : num) (key : option string) : M Z := λ s,
  if existsb (λ r, bool_decide (rf_reverse r = reverse)) (refunds s) then (Throw EUnique, s)
  else if negb (bool_decide (donation ∈ known s)) then (Throw (EDb "FOREIGN KEY constraint failed"), s)
  else (Ret (next_refund s),
        mk_st (model s)
          (refunds s ++ [mk_refund (next_refund s) donation reverse amount key "pending"])
          (next_refund s + 1) (known s) (payments s)).

(** UPDATE refunds SET status = x WHERE id = i *)
Definition refund_status (i : Z) (x : string) : M unit :=
  modify_st (λ s, set_refunds ((λ r, if rf_id r =? i
    then mk_refund (rf_id r) (rf_donation r) (rf_reverse r) (rf_amount r) (rf_key r) x else r) <$> refunds s) s).

(** The same, with the transaction of the network, which is UNIQUE. *)
Definition refund_completed (i : Z) (reverse : string) : M unit := λ s,
  if existsb (λ r, negb (rf_id r =? i) && bool_decide (rf_reverse r = reverse)) (refunds s) then (Throw EUnique, s)
  else (Ret (), set_refunds ((λ r, if rf_id r =? i
    then mk_refund (rf_id r) (rf_donation r) reverse (rf_amount r) (rf_key r) "completed" else r) <$> refunds s) s).

(** The secret that signs the refund. *)
Definition refund_secret (donation : transaction) (recipientSecret : option string) : outcome jserror string :=
  match truthy_str recipientSecret with
  | Some k => Ret k
  | None =>
      match truthy_Z (x_senderId (extras (id donation))) with
      | None => Throw ValidationError
      | Some u =>
          match users u with
          | None => Throw (NotFoundError_with (code_ref "USER_NOT_FOUND"))
          | Some sec =>
              match truthy_str sec with
              | None => Throw (ValidationError_with (code_ref "MISSING_SECRET_KEY"))
              | Some e => decrypt e
              end
          end
      end
  end.

(** The checks before anything is written. *)
Definition refund_eligible (now : Z) (donation : transaction) (recipientSecret : option string) : outcome jserror unit :=
  if bool_decide (status donation = "refunded") then Throw (DuplicateError (code_ref "DUPLICATE_DONATION"))
  else if bool_decide (status donation ≠ CONFIRMED ∧ status donation ≠ "completed")
  then Throw (BusinessLogicError (code_ref "TRANSACTION_FAILED"))
  else
    match (match truthy_str recipientSecret with
           | Some k => match fromSecret k with
                       | Some p => if bool_decide (Some p = recipient donation) then Ret () else Throw ValidationError
                       | None => Throw ValidationError
                       end
           | None => Ret ()
           end) with
    | Throw e => Throw e
    | Ret _ =>
        if refundWindowHours * 3600000 <? now - timestamp donation
        then Throw (BusinessLogicError (CStr "REFUND_WINDOW_EXPIRED"))
        else Ret ()
    end.

(** Which statements of a refund the database carries out: the lookup of the
    key, the INSERT, and the three updates of the status. *)
Record refund_db := mk_refund_db { d_lookup : bool; d_insert : bool; d_processing : bool; d_failed : bool; d_completed : bool }.
Definition db_up : refund_db := mk_refund_db true true true true true.
Definition stmt {A} (ok : bool) (m : M A) : M A := if ok then m else throw (EDb "SQLITE_ERROR").

(** A lookup that fails counts as a key that is not used. *)
Definition find_refund (ok : bool) (idempotencyKey : option string) (s : st) : option refund :=
  match truthy_str idempotencyKey with Some k => if ok then key_row k s else None | None => None end.

(** The part of a refund that writes and pays. *)
Definition refund_payment (now : Z) (i : string) (donation : transaction) (secret : string) (key : option string) (db : refund_db)
    (answer : outcome jserror (string * Z)) : M refund_answer :=
  pending ← stmt (d_insert db) (insert_refund i ("pending_" +:+ Z_to_string now) (amount donation) key);
  stmt (d_processing db) (refund_status pending "processing");;
  reverse ← try_catch
    (sendDonation (mk_payment secret (donor donation) (num_to_string (amount donation)) ("REFUND:" +:+ i)) answer)
    (λ e, stmt (d_failed db) (refund_status pending "failed");; throw e);
  stmt (d_completed db) (refund_completed pending reverse.1);;
  on_model (updateStatus now i (Some "refunded")
    {| sd_transactionId := None; sd_ledger := None; sd_confirmedAt := None; sd_notes := None; sd_tags := None |});;
  mret (Refunded pending).

Definition refundDonation (now : Z) (i : string) (idempotencyKey recipientSecret : option string) (db : refund_db)
    (answer : outcome jserror (string * Z)) : M refund_answer :=
  donation ← getDonationById i;
  s ← get_st;
  match find_refund (d_lookup db) idempotencyKey s with
  | Some existing => mret (AlreadyProcessed existing)
  | None =>
      lift_out (refund_eligible now donation recipientSecret);;
      secret ← lift_out (refund_secret donation recipientSecret);
      refund_payment now i donation secret (truthy_str idempotencyKey) db answer
  end.

(** ** Approvals *)

(** [TRANSACTION_STATES.AWAITING_APPROVAL] is not defined. *)
Definition AWAITING_APPROVAL : option string := None.

Definition resolvePaymentSourceSecret (donor : option string) : string :=
  match truthy_str donor with
  | Some d => default serviceSecretKey (truthy_str (secretFor d))
  | None => serviceSecretKey
  end.

(** The answer: the transaction, the number of approvals, the number
    required, and whether it was submitted. *)
Definition approveDonation (now : Z) (i : string) (signer : option string)
    (answer : outcome jserror (string * Z)) : M (transaction * Z * Z * bool) :=
  match truthy_str signer with
  | None => throw (ValidationError_with (code_ref "MISSING_REQUIRED_FIELD"))
  | Some signerKey =>
      transaction ← getDonationById i;
      if bool_decide (Some (status transaction) ≠ AWAITING_APPROVAL) then
        throw (BusinessLogicError (code_ref "INVALID_STATE_TRANSITION"))
      else if (match approvalExpiresAt transaction with Some x => x <=? now | None => false end) then
        on_model (updateStatus now i (Some EXPIRED) no_stellar_data);;
        throw (BusinessLogicError (code_ref "DONATION_APPROVAL_EXPIRED"))
      else if existsb (λ a, bool_decide (signerKeyId a = signerKey)) (approvals transaction) then
        throw (ValidationError_with (code_ref "DONATION_ALREADY_APPROVED_BY_SIGNER"))
      else
        let approvals := approvals transaction ++ [{| signerKeyId := signerKey; approvedAt := now |}] in
        updated ← on_model (updateApprovals i approvals);
        let count := Z.of_nat (length approvals) in
        let required := default multisigRequiredApprovals (truthy_Z (requiredApprovals transaction)) in
        if required <=? count then
          r ← try_catch
            (sendDonation (mk_payment (resolvePaymentSourceSecret (donor (tx updated))) (recipient (tx updated))
               (default (num_to_string (amount (tx updated))) (truthy_str (x_sourceAmount (extras i))))
               (memo (tx updated))) answer)
            (λ _, on_model (updateStatus now i (Some FAILED) no_stellar_data);;
                  throw (BusinessLogicError (code_ref "TRANSACTION_FAILED")));
          updated ← on_model (updateStatus now i (Some CONFIRMED)
            {| sd_transactionId := Some r.1; sd_ledger := Some r.2; sd_confirmedAt := Some now;
               sd_notes := None; sd_tags := None |});
          mret (tx updated, count, required, true)
        else mret (tx updated, count, required, false)
  end.

(** The loop of [expireOverdueApprovals]: the number of expired donations. *)
Fixpoint expire_loop (now : Z) (l : list obj) (expired : Z) : M Z :=
  match l with
  | [] => mret expired
  | o :: l =>
      match approvalExpiresAt (tx o) with
      | Some x =>
          if x <=? now then
            on_model (updateStatus now (id (tx o)) (Some EXPIRED) no_stellar_data);;
            expire_loop now l (expired + 1)
          else expire_loop now l expired
      | None => expire_loop now l expired
      end
  end.

Definition expireOverdueApprovals (now : Z) : M Z :=
  s ← get_st; expire_loop now (getByStatus (model s) AWAITING_APPROVAL) 0.

(** ** Confirmation *)

Record depth := mk_depth { confirmed : bool; confirmations : Z; required : Z }.

Definition checkConfirmations (transactionLedger currentLedger : Z) (threshold : option Z) : outcome jserror depth :=
  if transactionLedger <? 1 then Throw (EPlain "transactionLedger must be a positive finite number")
  else if currentLedger <? 1 then Throw (EPlain "currentLedger must be a positive finite number")
  else
    let required := match threshold with
                    | Some t => if 1 <=? t then t else CONFIRMATION_THRESHOLD
                    | None => CONFIRMATION_THRESHOLD
                    end in
    let confirmations := Z.max 0 (currentLedger - transactionLedger) in
    Ret (mk_depth (required <=? confirmations) confirmations required).

(** [threshold || transaction.confirmationThreshold || CONFIRMATION_THRESHOLD] *)
Definition effectiveThreshold (i : string) (threshold : option Z) : Z :=
  default CONFIRMATION_THRESHOLD (or_else (truthy_Z threshold) (truthy_Z (x_confirmationThreshold (extras i)))).

Definition confirmTransaction (now : Z) (i : string) (currentLedger : Z) (threshold : option Z) : M depth :=
  transaction ← getDonationById i;
  if bool_decide (status transaction = CONFIRMED) then
    mret (mk_depth true (default 0 (x_confirmations (extras i))) (effectiveThreshold i threshold))
  else
    match truthy_Z (stellarLedger transaction) with
    | None => throw (ValidationError_with (code_ref "INVALID_REQUEST"))
    | Some ledger =>
        result ← lift_out (checkConfirmations ledger currentLedger (Some (effectiveThreshold i threshold)));
        when (confirmed result) (
          on_model (updateStatus now i (Some CONFIRMED)
            {| sd_transactionId := None; sd_ledger := None; sd_confirmedAt := Some now;
               sd_notes := None; sd_tags := None |});;
          mret ());;
        mret result
    end.

(** [updateDonationStatus]: the event is the one of the model again. *)
Definition updateDonationStatus (now : Z) (i : string) (status_ : option string) (d : stellar_data) : M obj :=
  let normalizedStatus := normalizeState status_ in
  lift_out (assertValidState normalizedStatus);;
  currentDonation ← getDonationById i;
  lift_out (assertValidTransition (normalizeState (Some (status currentDonation))) normalizedStatus);;
  on_model (updateStatus now i (Some normalizedStatus)
    (if bool_decide (normalizedStatus = CONFIRMED)
     then {| sd_transactionId := sd_transactionId d; sd_ledger := sd_ledger d; sd_confirmedAt := Some now;
             sd_notes := sd_notes d; sd_tags := sd_tags d |}
     else d)).

(** ** Lemmas *)

(** [refunded] is no state of the transaction model. *)
Lemma update_refunded now i d t : ∃ e, updateStatus now i (Some "refunded"%string) d t = (Throw e, t).
Proof.
  rewrite updateStatus_run. destruct (map_get (_store t) i) as [o|]; [|by eexists]. cbv zeta.
  change (isValidState (normalizeState (Some "refunded"%string))) with false. rewrite andb_false_r. by eexists.
Qed.

(** What a refund keeps: the model, and the keys of the table, to which it
    may add one. *)
Definition keeps (s s' : st) : Prop := model s' = model s ∧ (rf_key <$> refunds s) ⊆ (rf_key <$> refunds s').
Lemma keeps_refl s : keeps s s. Proof. done. Qed.
Lemma keeps_trans s s' s'' : keeps s s' → keeps s' s'' → keeps s s''.
Proof. intros [Hm H] [Hm' H']. split; [congruence|by etrans]. Qed.

Lemma key_row_keys k s : is_Some (key_row k s) ↔ Some k ∈ rf_key <$> refunds s.
Proof.
  unfold key_row. split.
  - intros [r Hr]. apply find_first_Some in Hr. destruct Hr as [Hin Hk]. apply bool_decide_eq_true in Hk.
    rewrite <- Hk. by apply list_elem_of_fmap_2.
  - intros (r & Hr & Hin)%list_elem_of_fmap. destruct (find_first _ _) eqn:Hf; [by eexists|].
    pose proof (find_first_None _ _ r Hf Hin) as Hn. cbn in Hn.
    by rewrite bool_decide_true in Hn.
Qed.
Lemma keeps_row k s s' : keeps s s' → is_Some (key_row k s) → is_Some (key_row k s').
Proof. intros [_ H]. rewrite !key_row_keys. apply H. Qed.

(** The statements after the INSERT change neither keys nor payments. *)
Definition quiet {A} (m : M A) : Prop := ∀ s, keeps s (m s).2 ∧ payments (m s).2 = payments s.
Lemma same_keys_keeps (f : refund → refund) s : (∀ r, rf_key (f r) = rf_key r) → keeps s (set_refunds (f <$> refunds s) s).
Proof. intros Hf. split; [done|]. cbn. rewrite <- list_fmap_compose, (list_fmap_ext (rf_key ∘ f) rf_key); [done|]. intros. apply Hf. Qed.
Lemma quiet_stmt {A} ok (m : M A) : quiet m → quiet (stmt ok m).
Proof. intros Hm s. unfold stmt. destruct ok; [apply Hm|]. split; [apply keeps_refl|done]. Qed.
Lemma quiet_status i x : quiet (refund_status i x).
Proof. intros s. split; [|done]. apply same_keys_keeps. intros r. by destruct (rf_id r =? i). Qed.
Lemma quiet_completed i x : quiet (refund_completed i x).
Proof.
  intros s. unfold refund_completed. destruct (existsb _ _); [split; [apply keeps_refl|done]|]. split; [|done].
  apply same_keys_keeps. intros r. by destruct (rf_id r =? i).
Qed.

(** The INSERT: it adds the key, when the donation is known. *)
Lemma insert_spec i reverse n key s : let r := insert_refund i reverse n key s in
  keeps s r.2 ∧ payments r.2 = payments s ∧ (is_ret r.1 = true → i ∈ known s ∧ key ∈ rf_key <$> refunds r.2).
Proof.
  cbv zeta. unfold insert_refund. destruct (existsb _ _); [by split_and!|].
  destruct (bool_decide (i ∈ known s)) eqn:Hk; cbn [negb]; [|by split_and!]. apply bool_decide_eq_true in Hk. cbn. split_and!.
  - split; [done|]. cbn. rewrite fmap_app. apply list_subseteq_app_l. done.
  - done.
  - intros _. split; [done|]. rewrite fmap_app. apply elem_of_app. right. by apply list_elem_of_singleton.
Qed.

(** The part of a refund after its checks. *)
Lemma refund_payment_spec now i donation secret key db answer s :
  let '(x, s') := refund_payment now i donation secret key db answer s in
  (∃ e, x = Throw e) ∧ keeps s s' ∧
  (payments s' = payments s ∨
   i ∈ known s ∧ sendable ("REFUND:" +:+ i) = true ∧ key ∈ rf_key <$> refunds s' ∧
   payments s' = payments s ++
     [mk_payment secret (donor donation) (num_to_string (amount donation)) ("REFUND:" +:+ i)]).
Proof.
  unfold refund_payment. stx_unfold.
  assert (Hi : let r := stmt (d_insert db) (insert_refund i ("pending_" +:+ Z_to_string now) (amount donation) key) s in
    keeps s r.2 ∧ payments r.2 = payments s ∧ (is_ret r.1 = true → i ∈ known s ∧ key ∈ rf_key <$> refunds r.2)).
  { unfold stmt. destruct (d_insert db); [apply insert_spec|by split_and!]. }
  destruct (stmt (d_insert db) _ s) as [[n|e] s1]; cbn in Hi; destruct Hi as (Hk1 & Hp1 & Hin); [|split_and!; [by eexists|done|by left]].
  destruct (Hin eq_refl) as [Hkn Hkey]. clear Hin.
  destruct (quiet_stmt (d_processing db) _ (quiet_status n "processing") s1) as [Hk2 Hp2].
  destruct (stmt (d_processing db) _ s1) as [[[]|e] s2]; cbn [fst snd] in *; pose proof (keeps_trans _ _ _ Hk1 Hk2) as Hk12;
    [|split_and!; [by eexists|done|left; congruence]].
  unfold try_catch, sendDonation. cbn [p_memo]. destruct (sendable _) eqn:Hmemo.
  2:{ cbn. destruct (quiet_stmt (d_failed db) _ (quiet_status n "failed") s2) as [Hk3 Hp3].
      destruct (stmt (d_failed db) _ s2) as [[[]|e] s3]; cbn [fst snd] in *;
        (split_and!; [by eexists|by eapply keeps_trans|left; congruence]). }
  stx_unfold. set (p := mk_payment _ _ _ _). set (s2' := log_payment p s2).
  assert (Hkey2 : key ∈ rf_key <$> refunds s2') by by apply Hk2.
  assert (Hpay2 : payments s2' = payments s ++ [p]) by (cbn; congruence). assert (Hk2' : keeps s s2') by done.
  assert (Hdone : ∀ s3, keeps s2' s3 → payments s3 = payments s2' →
    keeps s s3 ∧ (payments s3 = payments s ∨ i ∈ known s ∧ true = true ∧ key ∈ rf_key <$> refunds s3 ∧ payments s3 = payments s ++ [p])).
  { intros s3 Hk3 Hp3. split; [by eapply keeps_trans|]. right. split_and!; [done|done|by apply Hk3|congruence]. }
  clearbody s2'. destruct answer as [r|e].
  2:{ cbn. destruct (quiet_stmt (d_failed db) _ (quiet_status n "failed") s2') as [Hk3 Hp3].
      destruct (stmt (d_failed db) _ s2') as [[[]|e'] s3]; cbn [fst snd] in *; (split; [by eexists|by apply Hdone]). }
  cbn. destruct (quiet_stmt (d_completed db) _ (quiet_completed n r.1) s2') as [Hk3 Hp3].
  destruct (stmt (d_completed db) _ s2') as [[[]|e] s3]; cbn [fst snd] in *; [|split; [by eexists|by apply Hdone]].
  unfold on_model. destruct (update_refunded now i {| sd_transactionId := None; sd_ledger := None; sd_confirmedAt := None;
    sd_notes := None; sd_tags := None |} (model s3)) as [e ->]. split; [by eexists|]. apply Hdone; [|done]. exact Hk3.
Qed.

(** ** Properties *)

(** What a payment of a refund requires. *)
Record refundable (now : Z) (i : string) (key sk : option string) (lookup : bool) (s : st) (o : obj) (secret : string) : Prop := {
  rb_stored : getById (model s) i = Some o;
  rb_status : status (tx o) = CONFIRMED ∨ status (tx o) = "completed"%string;
  rb_window : now - timestamp (tx o) <= refundWindowHours * 3600000;
  rb_secret : refund_secret (tx o) sk = Ret secret;
  rb_recipient : ∀ k, truthy_str sk = Some k → secret = k ∧ is_Some (recipient (tx o)) ∧ fromSecret k = recipient (tx o);
  rb_known : i ∈ known s;
  rb_memo : sendable ("REFUND:" +:+ i) = true;
  rb_key : ∀ k, truthy_str key = Some k → lookup = true → key_row k s = None;
}.

Lemma refund_spec now i key sk db answer s :
  let '(x, s') := refundDonation now i key sk db answer s in
  keeps s s' ∧ (∀ n, x ≠ Ret (Refunded n)) ∧
  (payments s' = payments s ∨
   truthy_str key ∈ rf_key <$> refunds s' ∧
   ∃ o secret, refundable now i key sk (d_lookup db) s o secret ∧
     payments s' = payments s ++ [mk_payment secret (donor (tx o)) (num_to_string (amount (tx o))) ("REFUND:" +:+ i)]).
Proof.
  unfold refundDonation, getDonationById. stx_unfold. destruct (getById (model s) i) as [o|] eqn:Ho; [|by split_and!; [|intros n|left]].
  destruct (find_refund _ _ s) as [ex|] eqn:Hex; [by split_and!; [|intros n|left]|].
  destruct (refund_eligible now (tx o) sk) as [[]|e] eqn:Hel; [|by split_and!; [|intros n|left]].
  destruct (refund_secret (tx o) sk) as [secret|e] eqn:Hse; [|by split_and!; [|intros n|left]].
  pose proof (refund_payment_spec now i (tx o) secret (truthy_str key) db answer s) as Hb.
  destruct (refund_payment _ _ _ _ _ _ _ s) as [x s']. destruct Hb as ((e & ->) & Hm & Hpay). split_and!; [done|done|].
  destruct Hpay as [Hpay|(Hkn & Hmemo & Hkey & Hpay)]; [by left|right]. split; [done|]. exists o, secret. split; [|done].
  unfold refund_eligible in Hel. case_bool_decide; [done|]. case_bool_decide as Hst; [done|].
  assert (Hstatus : status (tx o) = CONFIRMED ∨ status (tx o) = "completed"%string).
  { destruct (decide (status (tx o) = CONFIRMED)); [by left|].
    destruct (decide (status (tx o) = "completed"%string)); [by right|]. by destruct Hst. }
  assert (Hsk : ∀ k, truthy_str sk = Some k → secret = k ∧ is_Some (recipient (tx o)) ∧ fromSecret k = recipient (tx o)).
  { intros k Hk. rewrite Hk in Hel. unfold refund_secret in Hse. rewrite Hk in Hse. injection Hse as <-.
    destruct (fromSecret k) as [p|]; [|done]. case_bool_decide as Hp; [|done]. rewrite <- Hp. split_and!; [done|by eexists|done]. }
  split; try done.
  - destruct (match truthy_str sk with Some _ => _ | None => _ end); [|done].
    destruct (Z.ltb_spec (refundWindowHours * 3600000) (now - timestamp (tx o))); [done|lia].
  - intros k Hk Hl. unfold find_refund in Hex. by rewrite Hk, Hl in Hex.
Qed.

(** C21: A refund asks for one payment at most per call, and only for a stored donation that is confirmed, within
    the refund window, signed by the secret of its recipient or by its custodial sender, known to the
    foreign key of the refunds, with an identifier short enough for the memo, under a key that no refund has
    when the lookup of the key works; the key is then in the table.  Whatever happens, failing statements
    included, the transaction model is left as it was, no key leaves the table, and the call never answers
    that it refunded: the status [refunded] it asks for at the end is no state of the model. *)
Theorem refund_gate now i key sk db answer s :
  let '(x, s') := refundDonation now i key sk db answer s in
  model s' = model s ∧ (rf_key <$> refunds s) ⊆ (rf_key <$> refunds s') ∧ (∀ n, x ≠ Ret (Refunded n)) ∧
  (payments s' = payments s ∨
   truthy_str key ∈ rf_key <$> refunds s' ∧
   ∃ o secret, refundable now i key sk (d_lookup db) s o secret ∧
     payments s' = payments s ++ [mk_payment secret (donor (tx o)) (num_to_string (amount (tx o))) ("REFUND:" +:+ i)]).
Proof.
  pose proof (refund_spec now i key sk db answer s) as H. destruct (refundDonation _ _ _ _ _ _ s) as [x s'].
  destruct H as ([Hm Hk] & Hx & Hp). done.
Qed.

(** A refund request. *)
Record call := mk_call { c_now : Z; c_id : string; c_secret : option string; c_db : refund_db; c_answer : outcome jserror (string * Z) }.
Definition request (k : string) (s : st) (c : call) : st :=
  (refundDonation (c_now c) (c_id c) (Some k) (c_secret c) (c_db c) (c_answer c) s).2.
(** The requests whose lookup of the key failed. *)
Definition lookups_failed (cs : list call) : nat := length (List.filter (λ c, negb (d_lookup (c_db c))) cs).

Lemma truthy_ne k : k ≠ ""%string → truthy_str (Some k) = Some k.
Proof. by destruct k. Qed.

(** A used key stays used, and stops payments when its lookup works. *)
Lemma request_used k s c : k ≠ ""%string → is_Some (key_row k s) →
  is_Some (key_row k (request k s c)) ∧
  (length (payments (request k s c)) <= length (payments s) + (if d_lookup (c_db c) then 0 else 1))%nat.
Proof.
  intros Hne Hu. unfold request. pose proof (refund_spec (c_now c) (c_id c) (Some k) (c_secret c) (c_db c) (c_answer c) s) as H.
  destruct (refundDonation _ _ _ _ _ _ s) as [x s']. destruct H as (Hk & _ & Hp). cbn. split; [by eapply keeps_row|].
  destruct Hp as [->|(_ & o & secret & Hr & ->)]; [destruct (d_lookup _); lia|]. rewrite length_app. cbn.
  destruct (d_lookup (c_db c)) eqn:Hl; [|lia]. pose proof (rb_key _ _ _ _ _ _ _ _ Hr k (truthy_ne k Hne) eq_refl) as Hn.
  rewrite Hn in Hu. by destruct Hu.
Qed.
Lemma request_unused k s c : k ≠ ""%string →
  payments (request k s c) = payments s ∨
  is_Some (key_row k (request k s c)) ∧ length (payments (request k s c)) = S (length (payments s)).
Proof.
  intros Hne. unfold request. pose proof (refund_spec (c_now c) (c_id c) (Some k) (c_secret c) (c_db c) (c_answer c) s) as H.
  destruct (refundDonation _ _ _ _ _ _ s) as [x s']. cbn [snd]. destruct H as (_ & _ & [->|(Hk & o & secret & _ & ->)]); [by left|right].
  rewrite truthy_ne in Hk by done. split; [by apply key_row_keys|]. rewrite length_app. cbn. lia.
Qed.

(** C23: However often requests with one idempotency key are sent, one after the other, with whatever answers of
    the network and failing statements, the network is asked for one payment and for at most one more for
    every request whose lookup of the key failed. *)
Theorem refund_once_per_key k cs s :
  k ≠ ""%string → (length (payments (foldl (request k) s cs)) <= length (payments s) + 1 + lookups_failed cs)%nat.
Proof.
  intros Hne.
  assert (Hused : ∀ cs s, is_Some (key_row k s) → (length (payments (foldl (request k) s cs)) <= length (payments s) + lookups_failed cs)%nat).
  { intros l. induction l as [|c l IH]; intros s0 Hs; [cbn; lia|]. cbn [foldl].
    destruct (request_used k s0 c Hne Hs) as [Hs' Hp]. specialize (IH _ Hs'). unfold lookups_failed in *. cbn.
    destruct (d_lookup (c_db c)); cbn in *; lia. }
  revert s. induction cs as [|c cs IH]; intros s; [cbn; lia|]. cbn [foldl].
  assert (Hf : (lookups_failed cs <= lookups_failed (c :: cs))%nat) by (unfold lookups_failed; cbn; destruct (d_lookup _); cbn; lia).
  destruct (request_unused k s c Hne) as [Hp|[Hk Hl]].
  - specialize (IH (request k s c)). rewrite Hp in IH. lia.
  - specialize (Hused cs _ Hk). lia.
Qed.

(** No donation ever completes the approval flow: the state it waits in is not defined, so
    every approval is rejected without any change, and the expiry sweep expires nothing. *)
Theorem approvals_never_complete now i signer answer s :
  (∃ e, approveDonation now i signer answer s = (Throw e, s)) ∧ expireOverdueApprovals now s = (Ret 0, s).
Proof.
  split.
  - unfold approveDonation, getDonationById, mbind, stx_bind. cbn [get_st].
    destruct (truthy_str signer); [|by eexists]. destruct (getById (model s) i) as [o|]; [|by eexists].
    cbn. by eexists.
  - unfold expireOverdueApprovals, mbind, stx_bind. cbn [get_st].
    assert (Hnil : getByStatus (model s) AWAITING_APPROVAL = []).
    { unfold getByStatus. induction (loadTransactions (model s)) as [|o l IH]; [done|].
      rewrite filter_cons. by rewrite decide_False by done. }
    by rewrite Hnil.
Qed.

(** C34: [confirmTransaction] answers that a donation is confirmed exactly when it was already, or
    when its ledger is at least the required number of ledgers deep; in the second case the
    donation is then stored as confirmed.  In all other cases, errors included, nothing changes. *)
Theorem confirm_spec now i currentLedger threshold s :
  match confirmTransaction now i currentLedger threshold s with
  | (Throw e, s') => s' = s
  | (Ret d, s') =>
      ∃ o, getById (model s) i = Some o ∧
        if bool_decide (status (tx o) = CONFIRMED) then s' = s ∧ confirmed d = true
        else
          ∃ ledger, stellarLedger (tx o) = Some ledger ∧ 1 <= ledger ∧ 1 <= currentLedger ∧
            confirmations d = Z.max 0 (currentLedger - ledger) ∧
            (confirmed d = true ↔ required d <= confirmations d) ∧
            (1 <= effectiveThreshold i threshold → required d = effectiveThreshold i threshold) ∧
            if confirmed d
            then canTransition (normalizeState (Some (status (tx o)))) CONFIRMED = true ∧
                 ∃ n, getById (model s') i = Some n ∧ status (tx n) = CONFIRMED
            else s' = s
  end.
Proof.
  unfold confirmTransaction, getDonationById, mbind, stx_bind. cbn [get_st].
  destruct (getById (model s) i) as [o|] eqn:Ho; [|done]. unfold mret at 1, stx_ret at 1.
  case_bool_decide as Hc.
  { cbn. exists o. rewrite bool_decide_true by done. by split. }
  destruct (stellarLedger (tx o)) as [ledger|] eqn:Hl; cbn [truthy_Z]; [|done].
  destruct (Z.eqb_spec ledger 0); [done|]. unfold lift_out, checkConfirmations.
  destruct (Z.ltb_spec ledger 1); [done|]. destruct (Z.ltb_spec currentLedger 1); [done|].
  set (req := if 1 <=? _ then _ else _). cbn [confirmed].
  set (d := mk_depth _ _ _).
  assert (Hd : confirmed d = true ↔ required d <= confirmations d) by (cbn; apply Z.leb_le).
  assert (Hreq : 1 <= effectiveThreshold i threshold → required d = effectiveThreshold i threshold).
  { intros He. cbn. unfold req. by destruct (Z.leb_spec 1 (effectiveThreshold i threshold)); [|lia]. }
  unfold when. destruct (req <=? Z.max 0 (currentLedger - ledger)) eqn:Hdone.
  2:{ exists o. rewrite bool_decide_false by done. split; [done|]. exists ledger.
      by split_and!. }
  unfold on_model. rewrite updateStatus_run. unfold getById in Ho.
  destruct (map_get (_store (model s)) i) as [o'|]; [|done].
  destruct (deleted_at (tx o')) eqn:Hdel; [done|]. injection Ho as ->. cbv zeta.
  destruct (isValidState (normalizeState (Some (status (tx o))))); [|by destruct s].
  change (isValidState (normalizeState (Some CONFIRMED))) with true. cbn [negb andb].
  change (normalizeState (Some CONFIRMED)) with CONFIRMED.
  destruct (canTransition _ CONFIRMED) eqn:Hcan; cbn [negb]; [|by destruct s].
  exists o. rewrite bool_decide_false by done. split; [done|]. exists ledger.
  split_and!; [done..|]. split; [done|]. eexists. unfold getById. cbn. rewrite map_get_set_eq. cbn. by rewrite Hdel.
Qed.

End service.

(** ** A concrete donation *)

Definition toy_fromSecret (k : string) : option string := if bool_decide (k = "SR"%string) then Some "GR"%string else None.
Definition toy_refund (now : Z) (key : option string) (answer : outcome jserror (string * Z)) : st → outcome jserror refund_answer * st :=
  refundDonation (λ _, no_extra) toy_fromSecret (λ _, None) Ret 24 now "7" key (Some "SR"%string) db_up answer.

(** Donation 7, confirmed at time 1000. *)
Definition donated : st :=
  mk_st (create 1000 "7" (data (num_of_Z 5) (Some "GD"%string) (Some "GR"%string) None (Some CONFIRMED)) Transaction.init).2
    [] 1 ["7"%string] [].

(** Without a key the donation stays confirmed and is refunded again. *)
Example refunded_twice :
  let s1 := (toy_refund 2000 None (Ret ("h1"%string, 5%Z)) donated).2 in
  let s2 := (toy_refund 3000 None (Ret ("h2"%string, 6%Z)) s1).2 in
  length (payments s2) = 2%nat ∧ rf_status <$> refunds s2 = ["completed"; "completed"]%string.
Proof. vm_compute. split; reflexivity. Qed.

Definition toy_request : string → st → call → st := request (λ _, no_extra) toy_fromSecret (λ _, None) Ret 24.
Definition lookup_down : refund_db := mk_refund_db false true true true true.

Lemma refund_once_per_key_witness :
  let cs := [mk_call 2000 "7" (Some "SR"%string) db_up (Ret ("h1"%string, 5%Z));
             mk_call 3000 "7" (Some "SR"%string) db_up (Ret ("h2"%string, 6%Z))] in
  (length (payments (foldl (toy_request "k") donated cs)) <= 1)%nat ∧
  length (payments (foldl (toy_request "k") donated cs)) = 1%nat.
Proof.
  intros cs. split; [|vm_compute; reflexivity].
  exact (refund_once_per_key (λ _, no_extra) toy_fromSecret (λ _, None) Ret 24 "k" cs donated ltac:(discriminate)).
Defined.

(** A lookup of the key that fails refunds again under the same key. *)
Example lookup_failed_twice :
  length (payments (foldl (toy_request "k") donated
    [mk_call 2000 "7" (Some "SR"%string) db_up (Ret ("h1"%string, 5%Z));
     mk_call 3000 "7" (Some "SR"%string) lookup_down (Ret ("h2"%string, 6%Z))])) = 2%nat.
Proof. vm_compute. reflexivity. Qed.

(** The memo of a refund has 43 bytes for a UUID: such a refund is never
    paid. *)
Example uuid_not_refundable : sendable "REFUND:123e4567-e89b-12d3-a456-426614174000" = false.
Proof. vm_compute. reflexivity. Qed.

End Donations.
