(* ===== verification/Webhooks.v ===== *)
(** * Webhooks ([src/src/services/WebhookService.js])

    Registration, deliveries with their attempts, the queue of retries, the
    dead letters and the flush.  The tables are lists of rows; a call is run to
    its end, deliveries of one event one after the other.  The answers of the
    endpoints and of the name lookup before each request, the clock, the random
    secrets, the encryption and the digest are parameters or arguments.  Mail is a list
    of the webhooks whose owners were written to. *)

From Stdlib Require Import Ascii.
From S2P Require Import Prelude JsString JsNumber JsMap JsJson Errors Ssrf.
From S2P Require Import Transaction.
Local Open Scope Z_scope.

Module Webhooks.

(** ** State *)

Record webhook := mk_webhook {
  w_id : Z;
  url : string;
  events : option string;                 (* the JSON text of a list *)
  secret : option string;                 (* encrypted *)
  api_key_id : option Z;
  is_active : bool;
  consecutive_failures : Z;
  owner_email : option string;
  tls_skip_verify : bool;
}.
Record retry := mk_retry {
  rt_id : Z;
  rt_webhook : Z;
  rt_event : string;
  rt_payload : json;
  rt_attempt : Z;
  next_retry_at : Z;
  rt_error : option jserror;
}.
Record dead_letter := mk_dead { d_id : Z; d_webhook : Z; d_event : string; d_payload : json; attempts : Z; d_error : option jserror }.
Record history := mk_history {
  h_webhook : Z;
  h_event : string;
  h_payload : json;
  h_attempt : Z;
  h_status : string;
  h_code : option Z;
  h_error : option jserror;
}.
(** The addresses of a host with their families, or the error of the lookup. *)
Definition resolver := string → outcome jserror (list (string * Z)).
(** A request to an endpoint, and what the name lookup answered just before it. *)
Record post := mk_post { p_webhook : Z; p_url : string; p_body : string; p_signature : string; p_timestamp : Z;
  rejectUnauthorized : bool; p_lookup : resolver }.

Record st := mk_st {
  hooks : list webhook;
  retries : list retry;
  dead_letters : list dead_letter;
  deliveries : list history;
  posts : list post;
  mailed : list Z;
  dlqEntriesTotal : Z;
  next_hook : Z;
  next_retry : Z;
  next_dead : Z;
}.
Definition set_hooks (x : list webhook) (s : st) : st :=
  mk_st x (retries s) (dead_letters s) (deliveries s) (posts s) (mailed s) (dlqEntriesTotal s) (next_hook s) (next_retry s) (next_dead s).
Definition set_retries (x : list retry) (s : st) : st :=
  mk_st (hooks s) x (dead_letters s) (deliveries s) (posts s) (mailed s) (dlqEntriesTotal s) (next_hook s) (next_retry s) (next_dead s).
Definition set_dead (x : list dead_letter) (s : st) : st :=
  mk_st (hooks s) (retries s) x (deliveries s) (posts s) (mailed s) (dlqEntriesTotal s) (next_hook s) (next_retry s) (next_dead s).
Definition record_delivery (h : history) (s : st) : st :=
  mk_st (hooks s) (retries s) (dead_letters s) (deliveries s ++ [h]) (posts s) (mailed s) (dlqEntriesTotal s) (next_hook s) (next_retry s) (next_dead s).
Definition record_post (p : post) (s : st) : st :=
  mk_st (hooks s) (retries s) (dead_letters s) (deliveries s) (posts s ++ [p]) (mailed s) (dlqEntriesTotal s) (next_hook s) (next_retry s) (next_dead s).

Definition M := stx jserror st.

Definition MAX_RETRIES : Z := 3.
Definition MAX_CONSECUTIVE_FAILURES : Z := 5.
Definition RETRY_DELAYS_MS : list Z := [60 * 1000; 5 * 60 * 1000; 30 * 60 * 1000; 2 * 60 * 60 * 1000; 24 * 60 * 60 * 1000].
Definition RETRY_MAX_ATTEMPTS : Z := 5.

Definition find_hook (i : Z) (s : st) : option webhook := find_first (λ w, w_id w =? i) (hooks s).
Definition update_hook (i : Z) (f : webhook → webhook) (s : st) : st :=
  set_hooks ((λ w, if w_id w =? i then f w else w) <$> hooks s) s.

Definition with_failures (active : option bool) (n : Z) (w : webhook) : webhook :=
  mk_webhook (w_id w) (url w) (events w) (secret w) (api_key_id w) (default (is_active w) active) n (owner_email w) (tls_skip_verify w).
Definition with_secret (x : string) (w : webhook) : webhook :=
  mk_webhook (w_id w) (url w) (events w) (Some x) (api_key_id w) (is_active w) (consecutive_failures w) (owner_email w) (tls_skip_verify w).

(** ** [LIKE] *)

(** ASCII letters compare without case; a percent sign stands for any text, an underscore for any character. *)
Definition same_char (a b : ascii) : bool := Ascii.eqb (lower_char a) (lower_char b).
Fixpoint like (pattern s : string) : bool :=
  match pattern with
  | EmptyString => is_empty s
  | String "%" p =>
      (fix any (s : string) := like p s || match s with String _ t => any t | EmptyString => false end) s
  | String c p => match s with String d t => (Ascii.eqb c "_" || same_char c d) && like p t | EmptyString => false end
  end.

(** [is_active = 1 AND (events IS NULL OR events LIKE ?)] *)
Definition interested (event : string) (w : webhook) : bool :=
  is_active w && match events w with None => true | Some l => like (String "%" (event +:+ "%")) l end.

Inductive answer := Status (code : Z) | NoAnswer (e : jserror).
Definition delivered (a : answer) : bool := match a with Status c => (200 <=? c) && (c <? 300) | NoAnswer _ => false end.

Section service.
Context (encryptField : string → string) (decryptField : string → outcome jserror string)
  (hmac : string → string → string) (iso : Z → string) (production breakGlass : bool)
  (parse_url : string → option (string * string)).

(** ** Registration *)

Definition bad_request (message : string) : jserror := EPlain message.

Definition register (url_ : string) (events_ : list string) (apiKeyId : option Z) (ownerEmail : option string) (tlsSkipVerify : bool)
    (random : string) (lookup_host : resolver) : M (Z * string) :=
  if is_empty url_ then throw (bad_request "url is required")
  else match events_ with
  | [] => throw (bad_request "events must be a non-empty array")
  | _ =>
      match parse_url url_ with
      | None => throw (bad_request "Invalid webhook URL")
      | Some (protocol, hostname) =>
          if negb (Ssrf.allowed_protocol production protocol hostname) then throw (bad_request "Webhook URL must use HTTPS")
          else if tlsSkipVerify && production && negb breakGlass then throw (bad_request "tlsSkipVerify is not allowed in production")
          else
            lift_out (Ssrf.assertSafeOutboundUrl parse_url lookup_host production url_);;
            s ← get_st;
            let i := next_hook s in
            modify_st (λ s, mk_st (hooks s ++ [mk_webhook i url_ (Some (stringify None (JArr (JStr <$> events_)))) (Some (encryptField random))
                apiKeyId true 0 ownerEmail tlsSkipVerify])
              (retries s) (dead_letters s) (deliveries s) (posts s) (mailed s) (dlqEntriesTotal s) (i + 1) (next_retry s) (next_dead s));;
            mret (i, random)
      end
  end.

Definition not_found : jserror := EPlain "not found".

Definition rotateSecret (i : Z) (random : string) : M string :=
  s ← get_st;
  match find_hook i s with
  | None => throw not_found
  | Some _ => modify_st (update_hook i (with_secret (encryptField random)));; mret random
  end.

Definition remove (i : Z) : M () :=
  s ← get_st;
  match find_hook i s with
  | None => throw not_found
  | Some _ => modify_st (λ s, set_hooks (filter (λ w, w_id w ≠ i) (hooks s)) s)
  end.

(** [PATCH /admin/webhooks/:id] *)
Definition setStatus (i : Z) (active : bool) : M () :=
  s ← get_st;
  match find_hook i s with
  | None => throw not_found
  | Some _ => modify_st (update_hook i (λ w, with_failures (Some active) (consecutive_failures w) w))
  end.

(** ** Retries *)

Definition scheduleRetry (now : Z) (webhookId : Z) (event : string) (payload : json) (attempt : Z) (lastError : option jserror) : M () :=
  modify_st (record_delivery (mk_history webhookId event payload (attempt + 1) "failed" None lastError));;
  if RETRY_MAX_ATTEMPTS <=? attempt then
    modify_st (λ s, mk_st (hooks s) (retries s) (dead_letters s ++ [mk_dead (next_dead s) webhookId event payload attempt lastError])
      (deliveries s) (posts s)
      (match find_hook webhookId s with
       | Some w => if Transaction.truthy_str (owner_email w) is Some _ then mailed s ++ [webhookId] else mailed s
       | None => mailed s
       end)
      (dlqEntriesTotal s + 1) (next_hook s) (next_retry s) (next_dead s + 1))
  else
    match (if attempt <? 0 then None else RETRY_DELAYS_MS !! Z.to_nat attempt) with
    | None => throw ERange
    | Some delayMs =>
        modify_st (λ s, mk_st (hooks s) (retries s ++ [mk_retry (next_retry s) webhookId event payload attempt (now + delayMs) lastError])
          (dead_letters s) (deliveries s) (posts s) (mailed s) (dlqEntriesTotal s) (next_hook s) (next_retry s + 1) (next_dead s))
    end.

(** ** Deliveries *)

Definition _sign (body secret : string) (timestamp : string) : string :=
  hmac secret (if is_empty timestamp then body else timestamp +:+ "." +:+ body).

Definition body_of (event : string) (payload : json) (timestamp : string) (correlation : json) : string :=
  stringify None (JObj [("event", JStr event); ("data", payload); ("timestamp", JStr timestamp); ("correlationContext", correlation)]).

(** In production certificates are always verified, unless the glass is broken. *)
Definition skips_verification (w : webhook) : bool := tls_skip_verify w && (negb production || breakGlass).

(** The attempts of one delivery: their times, what the name lookup before each
    and the endpoint answer. *)
Record attempt_env := mk_env { at_ : Z → Z; lookup_host : Z → resolver; reply : Z → answer; correlation : json }.

(** What an answer that is not a delivery throws. *)
Definition failure (a : answer) : jserror :=
  match a with Status _ => EPlain "Webhook endpoint responded with an HTTP error" | NoAnswer e => e end.

(** The secret as it signs. *)
Definition plaintext (w : webhook) : outcome jserror string :=
  match Transaction.truthy_str (secret w) with Some x => decryptField x | None => Ret "" end.

(** The URL is checked again before each request. *)
Definition _httpPost (e : attempt_env) (w : webhook) (body signature : string) (attempt : Z) : M answer :=
  match Ssrf.assertSafeOutboundUrl parse_url (lookup_host e attempt) production (url w) with
  | Throw x => mret (NoAnswer x)
  | Ret _ =>
      modify_st (record_post (mk_post (w_id w) (url w) body signature (at_ e attempt) (negb (skips_verification w)) (lookup_host e attempt)));;
      mret (reply e attempt)
  end.

(** [fuel] bounds the attempts that are left. *)
Fixpoint _deliverWithRetry (fuel : nat) (e : attempt_env) (w : webhook) (event : string) (payload : json) (attempt : Z) : M () :=
  let timestamp := iso (at_ e attempt) in
  let body := body_of event payload timestamp (correlation e) in
  plaintextSecret ← lift_out (plaintext w);
  a ← _httpPost e w body (_sign body plaintextSecret timestamp) attempt;
  if delivered a then
    modify_st (record_delivery (mk_history (w_id w) event payload (attempt + 1) "success" (match a with Status c => Some c | _ => None end) None));;
    modify_st (update_hook (w_id w) (with_failures None 0))
  else
    let failures := consecutive_failures w + 1 in
    if MAX_CONSECUTIVE_FAILURES <=? failures then
      modify_st (update_hook (w_id w) (with_failures (Some false) failures))
    else
      modify_st (update_hook (w_id w) (with_failures None failures));;
      if attempt <? MAX_RETRIES - 1 then
        match fuel with
        | O => throw (failure a)
        | S fuel => _deliverWithRetry fuel e (with_failures None failures w) event payload (attempt + 1)
        end
      else throw (failure a).
Definition attempts_left : nat := Z.to_nat (MAX_RETRIES - 1).
Definition deliver_first := _deliverWithRetry attempts_left.

(** One webhook of [deliver]: what fails goes to the queue. *)
Definition deliver_one (now : Z) (e : attempt_env) (event : string) (payload : json) (w : webhook) : M () :=
  try_catch (deliver_first e w event payload 0)
    (λ x, try_catch (scheduleRetry now (w_id w) event payload 0 (Some x)) (λ _, mret ())).

Fixpoint deliver_each (now : Z) (e : nat → Z → attempt_env) (event : string) (payload : json) (k : nat) (l : list webhook) : M () :=
  match l with
  | [] => mret ()
  | w :: l => deliver_one now (e k (w_id w)) event payload w;; deliver_each now e event payload (S k) l
  end.
(** [e k i] are the attempts of the k-th delivery, to the webhook [i]. *)
Definition deliver (now : Z) (e : nat → Z → attempt_env) (event : string) (payload : json) : M () :=
  s ← get_st; deliver_each now e event payload 0 (filter (λ w, interested event w = true) (hooks s)).

(** ** The queue *)

Definition earlier (a b : retry) : Z := next_retry_at a - next_retry_at b.
Definition due (now : Z) (s : st) : list retry := js_sort earlier (filter (λ r, next_retry_at r <= now) (retries s)).

Record tally := mk_tally { processed : Z; succeeded : Z; failed : Z }.

Definition process_entry (now : Z) (e : attempt_env) (r : retry) (t : tally) : M tally :=
  modify_st (λ s, set_retries (filter (λ x, rt_id x ≠ rt_id r) (retries s)) s);;
  s ← get_st;
  match find_hook (rt_webhook r) s with
  | Some w =>
      if is_active w then
        try_catch (deliver_first e w (rt_event r) (rt_payload r) 0;; mret (mk_tally (processed t) (succeeded t + 1) (failed t)))
          (λ x, scheduleRetry now (rt_webhook r) (rt_event r) (rt_payload r) (rt_attempt r + 1) (Some x);;
                mret (mk_tally (processed t) (succeeded t) (failed t + 1)))
      else mret t
  | None => mret t
  end.
Fixpoint process_each (now : Z) (e : nat → Z → attempt_env) (k : nat) (l : list retry) (t : tally) : M tally :=
  match l with
  | [] => mret t
  | r :: l => t ← process_entry now (e k (rt_webhook r)) r t; process_each now e (S k) l t
  end.
Definition processRetryQueue (now : Z) (e : nat → Z → attempt_env) : M tally :=
  s ← get_st; let l := due now s in process_each now e 0 l (mk_tally (Z.of_nat (length l)) 0 0).

Definition replayDeadLetter (now : Z) (i : Z) : M () :=
  s ← get_st;
  match find_first (λ d, d_id d =? i) (dead_letters s) with
  | None => throw not_found
  | Some d =>
      scheduleRetry now (d_webhook d) (d_event d) (d_payload d) 0 None;;
      modify_st (λ s, set_dead (filter (λ d, d_id d ≠ i) (dead_letters s)) s)
  end.

Fixpoint flush_each (e : nat → Z → attempt_env) (k : nat) (l : list webhook) : M () :=
  match l with
  | [] => mret ()
  | w :: l => try_catch (deliver_first (e k (w_id w)) w "flush" (JObj [("flushed", JBool true)]) 0) (λ _, mret ());; flush_each e (S k) l
  end.
Definition flushPending (e : nat → Z → attempt_env) : M () :=
  s ← get_st; flush_each e 0 (filter (λ w, is_active w = true ∧ 0 < consecutive_failures w) (hooks s)).

(** ** The worker ([src/src/workers/webhookRetryWorker.js]) *)

(** The module exports an instance: the static methods are not its own. *)
Definition static_method (name : string) : jserror := EType ("WebhookService." +:+ name +:+ " is not a function").
(** One tick; the error is logged. *)
Definition worker_tick (isLeader : bool) : M () :=
  if isLeader then try_catch (throw (static_method "processRetryQueue")) (λ _, mret ()) else mret ().

(** ** Calls *)

Inductive op :=
| Register (url_ : string) (events_ : list string) (apiKeyId : option Z) (ownerEmail : option string) (tlsSkipVerify : bool) (random : string)
    (lookup : resolver)
| Rotate (i : Z) (random : string)
| Remove (i : Z)
| SetStatus (i : Z) (active : bool)
| Deliver (e : nat → Z → attempt_env) (event : string) (payload : json)
| Process (e : nat → Z → attempt_env)
| Replay (i : Z)
| Flush (e : nat → Z → attempt_env).

Definition run (now : Z) (o : op) (s : st) : st :=
  match o with
  | Register u l k m b r lookup => (register u l k m b r lookup s).2
  | Rotate i r => (rotateSecret i r s).2
  | Remove i => (remove i s).2
  | SetStatus i b => (setStatus i b s).2
  | Deliver e v p => (deliver now e v p s).2
  | Process e => (processRetryQueue now e s).2
  | Replay i => (replayDeadLetter now i s).2
  | Flush e => (flushPending e s).2
  end.

Fixpoint run_all (l : list (Z * op)) (s : st) : st :=
  match l with [] => s | (now, o) :: l => run_all l (run now o s) end.

(** ** One delivery *)

Lemma update_hooks i f s : hooks (update_hook i f s) = (λ w, if w_id w =? i then f w else w) <$> hooks s.
Proof. done. Qed.

(** The URL passes the check, with the answers of the lookup at an attempt. *)
Definition safe_url (lookup : resolver) (u : string) : bool := is_ret (Ssrf.assertSafeOutboundUrl parse_url lookup production u).
Definition safe (e : attempt_env) (w : webhook) (j : Z) : bool := safe_url (lookup_host e j) (url w).
(** A request that may be made: the URL passed the check just before it, and in production
    the certificate is verified (unless the glass is broken). *)
Definition good_post (p : post) : Prop :=
  safe_url (p_lookup p) (p_url p) = true ∧ (production = true → breakGlass = false → rejectUnauthorized p = true).

(** What a delivery to the webhook [i] may change: its row but not its
    identifier, and what was sent to it. *)
Record touches (i : Z) (s s' : st) : Prop := {
  to_hooks : ∃ g, (∀ w, w_id (g w) = w_id w) ∧ hooks s' = hooks (update_hook i g s);
  to_posts : ∃ l, posts s' = posts s ++ l ∧ ∀ p, p ∈ l → p_webhook p = i ∧ good_post p;
  to_retries : retries s' = retries s;
  to_dead : dead_letters s' = dead_letters s;
  to_next : next_hook s' = next_hook s;
  to_mailed : mailed s' = mailed s;
}.

Lemma touches_refl i s : touches i s s.
Proof.
  split; try done.
  - exists id. split; [done|]. rewrite update_hooks. symmetry. rewrite <- (list_fmap_id (hooks s)) at 2.
    apply list_fmap_ext. intros ???. by case_match.
  - exists []. rewrite app_nil_r. split; [done|]. intros p Hp. by apply elem_of_nil in Hp.
Qed.

Lemma hook_update_twice i f g s : (∀ w, w_id (f w) = w_id w) →
  hooks (update_hook i g (update_hook i f s)) = hooks (update_hook i (λ w, g (f w)) s).
Proof.
  intros Hf. rewrite !update_hooks, <- list_fmap_compose. apply list_fmap_ext. intros k w _. cbn.
  destruct (w_id w =? i) eqn:Hw; [|by rewrite Hw]. by rewrite Hf, Hw.
Qed.

Lemma touches_trans i s1 s2 s3 : touches i s1 s2 → touches i s2 s3 → touches i s1 s3.
Proof.
  intros [(f & Hf & Hh) (l & Hp & Hl) Hr Hd Hn Hm] [(g & Hg & Hh') (l' & Hp' & Hl') Hr' Hd' Hn' Hm']. split; try congruence.
  - exists (λ w, g (f w)). split; [intros; by rewrite Hg|]. rewrite Hh', update_hooks, Hh. by apply (hook_update_twice i f g s1).
  - exists (l ++ l'). rewrite Hp', Hp, app_assoc. split; [done|]. intros p [?|?]%elem_of_app; auto.
Qed.

Lemma touches_update i g s : (∀ w, w_id (g w) = w_id w) → touches i s (update_hook i g s).
Proof.
  intros Hg. split; try done; [by exists g|]. exists []. rewrite app_nil_r. split; [done|]. intros p Hp. by apply elem_of_nil in Hp.
Qed.
Lemma touches_log i h s : touches i s (record_delivery h s).
Proof. destruct (touches_refl i s). by split. Qed.
Lemma touches_post i p s : p_webhook p = i → good_post p → touches i s (record_post p s).
Proof.
  intros Hp Hg. destruct (touches_refl i s). split; try done. exists [p]. split; [done|]. by intros p' ->%list_elem_of_singleton.
Qed.
Hint Resolve touches_refl touches_update touches_log touches_post : core.

(** The secret can be read. *)
Definition readable (w : webhook) : Prop := is_ret (plaintext w) = true.
(** The attempt [j] is delivered. *)
Definition meets (e : attempt_env) (w : webhook) (j : Z) : bool := safe e w j && delivered (reply e j).
(** The requests made among [k] attempts from [a] on. *)
Definition requests (e : attempt_env) (w : webhook) (a k : Z) : Z :=
  Z.of_nat (length (filter (λ j, safe e w j = true) (seqZ a k))).

Lemma requests_one e w a : requests e w a 1 = if safe e w a then 1 else 0.
Proof.
  unfold requests. rewrite seqZ_cons by lia. change (Z.pred 1) with 0. rewrite (seqZ_nil _ 0) by lia.
  rewrite filter_cons, filter_nil. by destruct (safe e w a).
Qed.
Lemma requests_cons e w a k : 0 <= k → requests e w a (k + 1) = (if safe e w a then 1 else 0) + requests e w (a + 1) k.
Proof.
  intros Hk. unfold requests. rewrite (seqZ_cons a (k + 1)) by lia. rewrite filter_cons.
  replace (Z.pred (k + 1)) with k by lia. replace (Z.succ a) with (a + 1) by lia.
  destruct (safe e w a); [rewrite decide_True by done|rewrite decide_False by done]; cbn [length]; lia.
Qed.
Lemma requests_bound e w a k : 0 <= k → 0 <= requests e w a k <= k.
Proof.
  intros Hk. unfold requests. pose proof (length_filter (λ j, safe e w j = true) (seqZ a k)) as H. rewrite length_seqZ in H. lia.
Qed.
Definition sent_to (i : Z) (s : st) : Z := Z.of_nat (length (filter (λ p, p_webhook p = i) (posts s))).

Lemma sent_post i p s : sent_to i (record_post p s) = sent_to i s + if p_webhook p =? i then 1 else 0.
Proof.
  unfold sent_to. cbn. rewrite filter_app, length_app, filter_cons, filter_nil.
  destruct (Z.eqb_spec (p_webhook p) i); [rewrite decide_True by done|rewrite decide_False by done]; cbn; lia.
Qed.

Lemma httpPost_spec e w b g j s :
  ∃ a s', _httpPost e w b g j s = (Ret a, s') ∧ delivered a = meets e w j ∧ touches (w_id w) s s' ∧ hooks s' = hooks s ∧
    sent_to (w_id w) s' = sent_to (w_id w) s + if safe e w j then 1 else 0.
Proof.
  unfold _httpPost, meets, safe, safe_url. destruct (Ssrf.assertSafeOutboundUrl _ _ _ _) as [x|x] eqn:Hx; stx_unfold; eexists _, _; split_and!; try done.
  - apply touches_post; [done|]. split; [cbn; unfold safe_url; by rewrite Hx|]. cbn. unfold skips_verification. intros -> ->. by rewrite andb_comm.
  - rewrite sent_post. cbn. by rewrite Z.eqb_refl.
  - cbn. lia.
Qed.

Lemma attempts_touch n e w ev p a s : touches (w_id w) s (_deliverWithRetry n e w ev p a s).2.
Proof.
  revert w a s. induction n as [|n IH]; intros w a s; cbn [_deliverWithRetry]; stx_unfold;
    destruct (plaintext w) as [x|x]; try apply touches_refl; cbn -[update_hook _httpPost];
    match goal with |- context [_httpPost ?e ?w ?b ?g ?j ?s] => destruct (httpPost_spec e w b g j s) as (r & s1 & -> & _ & Hs1 & _) end;
    apply (touches_trans _ _ s1 _ Hs1); clear Hs1; destruct (delivered r); cbn -[update_hook].
  1,3: eapply touches_trans; [apply touches_log|by apply touches_update].
  all: destruct (_ <=? _); cbn -[update_hook]; [by apply touches_update|].
  all: set (s2 := update_hook _ _ s1); assert (Hs2 : touches (w_id w) s1 s2) by (by apply touches_update); clearbody s2;
    apply (touches_trans _ _ s2 _ Hs2); destruct (_ <? _); cbn; try apply touches_refl.
  apply (IH (with_failures None (consecutive_failures w + 1) w)).
Qed.

(** From attempt [a] on: delivered at some attempt; disabled at the fifth
    failure in a row; or refused at each of the attempts that are left. *)
Definition outcome_of (n : nat) (e : attempt_env) (w : webhook) (a : Z) (s : st) (r : outcome jserror ()) (s' : st) (k : Z) : Prop :=
  1 <= k <= Z.of_nat n + 1 ∧ (k = 1 ∨ consecutive_failures w + k <= 5) ∧
  sent_to (w_id w) s' = sent_to (w_id w) s + requests e w a k ∧
  (∀ j, 0 <= j < k - 1 → meets e w (a + j) = false) ∧
  if meets e w (a + (k - 1))
  then r = Ret () ∧ hooks s' = hooks (update_hook (w_id w) (with_failures None 0) s)
  else if 5 <=? consecutive_failures w + k
  then r = Ret () ∧ hooks s' = hooks (update_hook (w_id w) (with_failures (Some false) (consecutive_failures w + k)) s)
  else k = Z.of_nat n + 1 ∧ is_ret r = false ∧
       hooks s' = hooks (update_hook (w_id w) (with_failures None (consecutive_failures w + k)) s).

Lemma attempts_spec n e w ev p a s :
  a + Z.of_nat n = 2 → readable w →
  let '(r, s') := _deliverWithRetry n e w ev p a s in ∃ k, outcome_of n e w a s r s' k.
Proof.
  revert w a s. induction n as [|n IH]; intros w a s Ha Hrd; cbn [_deliverWithRetry]; stx_unfold.
  all: unfold MAX_CONSECUTIVE_FAILURES; change (MAX_RETRIES - 1) with 2.
  all: assert (Hsec : ∃ x, plaintext w = Ret x) by (unfold readable in Hrd; destruct (plaintext w); [by eexists|done]).
  all: destruct Hsec as [x ->]; cbn -[update_hook Z.add _httpPost].
  all: match goal with |- context [_httpPost ?e ?w ?b ?g ?j ?s] =>
    destruct (httpPost_spec e w b g j s) as (q & s1 & -> & Hq & _ & Hh1 & Hs1) end.
  all: rewrite <- requests_one in Hs1.
  all: assert (Hone : ∀ f, hooks (update_hook (w_id w) f s1) = hooks (update_hook (w_id w) f s)) by (intros f; by rewrite !update_hooks, Hh1).
  all: cbn -[update_hook Z.add]; destruct (delivered q) eqn:Hd; cbn -[update_hook Z.add]; symmetry in Hq.
  1,3: exists 1; unfold outcome_of; replace (a + (1 - 1)) with a by lia; rewrite Hq;
    split_and!; [lia|lia|by left|exact Hs1|intros; lia|done|apply Hone].
  all: destruct (Z.leb_spec 5 (consecutive_failures w + 1)) as [H5|H5]; cbn -[update_hook Z.add].
  1,3: exists 1; unfold outcome_of; replace (a + (1 - 1)) with a by lia; rewrite Hq, (proj2 (Z.leb_le _ _) H5);
    split_and!; [lia|lia|by left|exact Hs1|intros; lia|done|apply Hone].
  - destruct (Z.ltb_spec a 2); [lia|]. cbn -[update_hook Z.add]. exists 1. unfold outcome_of. replace (a + (1 - 1)) with a by lia.
    rewrite Hq, (proj2 (Z.leb_gt _ _) H5). split_and!; [lia|lia|by left|exact Hs1|intros; lia|lia|done|apply Hone].
  - destruct (Z.ltb_spec a 2); [|lia]. set (s2 := update_hook _ _ s1).
    pose proof (IH (with_failures None (consecutive_failures w + 1) w) (a + 1) s2 ltac:(lia) Hrd) as Hn.
    destruct (_deliverWithRetry n e _ ev p (a + 1) s2) as [r s']. destruct Hn as (k & Hk & Hk5 & Hsent & Hbefore & Hlast).
    change (requests e (with_failures None (consecutive_failures w + 1) w) (a + 1) k) with (requests e w (a + 1) k) in Hsent.
    unfold meets, safe in Hbefore, Hlast. cbn [w_id with_failures consecutive_failures url] in Hk5, Hsent, Hbefore, Hlast.
    change (sent_to (w_id w) s2) with (sent_to (w_id w) s1) in Hsent.
    exists (k + 1). unfold outcome_of. replace (a + (k + 1 - 1)) with (a + 1 + (k - 1)) by lia.
    replace (consecutive_failures w + (k + 1)) with (consecutive_failures w + 1 + k) by lia.
    assert (Hup : ∀ b m, hooks (update_hook (w_id w) (with_failures b m) s2) = hooks (update_hook (w_id w) (with_failures b m) s)).
    { intros b m. subst s2. rewrite hook_update_twice by done. rewrite !update_hooks, Hh1. apply list_fmap_ext. intros i w' _. case_match; [|done]. by destruct b. }
    split_and!; [lia|lia|right; lia|rewrite requests_cons by lia; rewrite requests_one in Hs1; lia| |].
    + intros j Hj. destruct (Z.eq_dec j 0) as [->|]; [by rewrite Z.add_0_r|].
      replace (a + j) with (a + 1 + (j - 1)) by lia. apply Hbefore. lia.
    + unfold meets at 1. unfold safe at 1. destruct (_ && _); [by rewrite Hup in Hlast|].
      destruct (_ <=? _); rewrite Hup in Hlast; [exact Hlast|]. destruct Hlast as (-> & ? & ?). split_and!; [lia|done..].
Qed.

(** C38: A delivery whose secret cannot be read fails before anything is sent or recorded.
    Any other makes at most three attempts, each a request if the URL passes the check with what the
    name lookup answers then, and stops at the first success, which clears the failures.  A failure
    that is the fifth in a row or a later one disables the webhook with that count, and the delivery
    then returns as if it had succeeded, whatever attempts were left; otherwise it fails after three
    attempts.  A webhook with four failures or more, such as one enabled again, so has one attempt. *)
Theorem delivery_outcome e w ev p s :
  match plaintext w with
  | Throw x => deliver_first e w ev p 0 s = (Throw x, s)
  | Ret _ =>
      let '(r, s') := deliver_first e w ev p 0 s in
      ∃ k, 1 <= k <= 3 ∧ (k = 1 ∨ consecutive_failures w + k <= 5) ∧
        sent_to (w_id w) s' = sent_to (w_id w) s + requests e w 0 k ∧
        (∀ j, 0 <= j < k - 1 → meets e w j = false) ∧
        if meets e w (k - 1)
        then r = Ret () ∧ hooks s' = hooks (update_hook (w_id w) (with_failures None 0) s)
        else if 5 <=? consecutive_failures w + k
        then r = Ret () ∧ hooks s' = hooks (update_hook (w_id w) (with_failures (Some false) (consecutive_failures w + k)) s)
        else k = 3 ∧ is_ret r = false ∧
             hooks s' = hooks (update_hook (w_id w) (with_failures None (consecutive_failures w + 3)) s)
  end.
Proof.
  unfold deliver_first. destruct (plaintext w) as [x|x] eqn:Hp.
  - pose proof (attempts_spec attempts_left e w ev p 0 s eq_refl ltac:(by unfold readable; rewrite Hp)) as H.
    destruct (_deliverWithRetry _ _ _ _ _ _ _) as [r s']. destruct H as (k & Hk & Hk5 & Hs & Hb & Hl).
    exists k. change (Z.of_nat attempts_left) with 2 in Hk, Hl. replace (0 + (k - 1)) with (k - 1) in Hl by lia.
    split_and!; [lia|lia|done|done|exact Hb|].
    destruct (meets _ _ _); [done|]. destruct (_ <=? _); [done|]. by destruct Hl as (-> & ? & ?).
  - change attempts_left with 2%nat. cbn [_deliverWithRetry]. stx_unfold. by rewrite Hp.
Qed.

(** ** The queue and the dead letters *)

Record queue_ok (s : st) : Prop := {
  qo_retries : ∀ r, r ∈ retries s → 0 <= rt_attempt r < RETRY_MAX_ATTEMPTS;
  qo_dead : ∀ d, d ∈ dead_letters s → attempts d = RETRY_MAX_ATTEMPTS;
  qo_posts : ∀ p, p ∈ posts s → good_post p;
}.

Lemma touches_ok i s s' : touches i s s' → queue_ok s → queue_ok s'.
Proof.
  intros [_ (l & Hp & Hl) Hr Hd _ _] [Hr0 Hd0 Hp0]. split; [by rewrite Hr|by rewrite Hd|].
  intros p. rewrite Hp. intros [?|?]%elem_of_app; [by apply Hp0|by apply Hl].
Qed.

(** What scheduling leaves alone, and what it adds. *)
Record schedules (i a : Z) (s s' : st) : Prop := {
  sc_hooks : hooks s' = hooks s;
  sc_posts : posts s' = posts s;
  sc_next : next_hook s' = next_hook s;
  sc_added : (a < RETRY_MAX_ATTEMPTS ∧ dead_letters s' = dead_letters s ∧ mailed s' = mailed s ∧
      ∃ r, retries s' = retries s ++ [r] ∧ rt_webhook r = i ∧ rt_attempt r = a) ∨
    (RETRY_MAX_ATTEMPTS <= a ∧ retries s' = retries s ∧ (mailed s' = mailed s ∨ mailed s' = mailed s ++ [i]) ∧
      ∃ d, dead_letters s' = dead_letters s ++ [d] ∧ d_webhook d = i ∧ attempts d = a);
}.

Lemma scheduleRetry_spec now i ev p a x s : 0 <= a → ∃ s', scheduleRetry now i ev p a x s = (Ret (), s') ∧ schedules i a s s'.
Proof.
  intros Ha. unfold scheduleRetry. stx_unfold. unfold RETRY_MAX_ATTEMPTS. destruct (Z.leb_spec 5 a); cbn -[find_hook].
  - eexists. split; [reflexivity|]. split; try done. right. cbn -[find_hook]. split_and!; [done|done| |by eexists].
    destruct (find_hook i _) as [w|]; [|by left]. destruct (Transaction.truthy_str (owner_email w)); [by right|by left].
  - destruct (Z.ltb_spec a 0); [lia|]. destruct (RETRY_DELAYS_MS !! Z.to_nat a) eqn:Hl.
    + eexists. split; [reflexivity|]. split; try done. left. split_and!; [done..|by eexists].
    + exfalso. apply lookup_ge_None in Hl. cbn in Hl. lia.
Qed.

Lemma schedules_ok i a s s' : schedules i a s s' → 0 <= a <= RETRY_MAX_ATTEMPTS → queue_ok s → queue_ok s'.
Proof.
  intros [Hh Hp _ Ha] Hb [Hr Hd Hps]. destruct Ha as [(Ha & Hd' & _ & r & Hr' & _ & Hra)|(Ha & Hr' & _ & d & Hd' & _ & Hda)]; split;
    rewrite ?Hr', ?Hd', ?Hp; auto.
  - intros r' [?| ->%list_elem_of_singleton]%elem_of_app; [by apply Hr|lia].
  - intros d' [?| ->%list_elem_of_singleton]%elem_of_app; [by apply Hd|lia].
Qed.

Lemma deliver_one_ok now e ev p w s : queue_ok s → ∃ s', deliver_one now e ev p w s = (Ret (), s') ∧ queue_ok s'.
Proof.
  intros Hq. unfold deliver_one, try_catch. pose proof (attempts_touch attempts_left e w ev p 0 s) as Ht.
  fold deliver_first in Ht. destruct (deliver_first e w ev p 0 s) as [[[]|x] s1]; cbn in Ht; apply touches_ok in Ht; try done; [by eexists|].
  destruct (scheduleRetry_spec now (w_id w) ev p 0 (Some x) s1 ltac:(lia)) as (s2 & -> & Hs). eexists. split; [done|].
  eapply schedules_ok; [exact Hs| |done]. unfold RETRY_MAX_ATTEMPTS. lia.
Qed.

Lemma deliver_each_ok now e ev p l : ∀ k s, queue_ok s → ∃ s', deliver_each now e ev p k l s = (Ret (), s') ∧ queue_ok s'.
Proof.
  induction l as [|w l IH]; intros k s Hq; cbn [deliver_each]; stx_unfold; [by eexists|].
  destruct (deliver_one_ok now (e k (w_id w)) ev p w s Hq) as (s1 & -> & H1). cbn. by apply IH.
Qed.

Lemma drop_retry_ok i s : queue_ok s → queue_ok (set_retries (filter (λ x, rt_id x ≠ i) (retries s)) s).
Proof. intros [Hr Hd Hp]. split; try done. intros r [_ ?]%list_elem_of_filter. by apply Hr. Qed.

Lemma process_entry_ok now e r t s : 0 <= rt_attempt r < RETRY_MAX_ATTEMPTS → queue_ok s →
  ∃ t' s', process_entry now e r t s = (Ret t', s') ∧ queue_ok s' ∧ processed t' = processed t.
Proof.
  intros Hr Hq. unfold process_entry, try_catch. stx_unfold. set (s1 := set_retries _ s).
  assert (H1 : queue_ok s1) by (by apply drop_retry_ok). clearbody s1.
  destruct (find_hook (rt_webhook r) s1) as [w|]; [|by eexists _, _]. destruct (is_active w); [|by eexists _, _]. cbn.
  pose proof (attempts_touch attempts_left e w (rt_event r) (rt_payload r) 0 s1) as Ht. fold deliver_first in Ht.
  destruct (deliver_first e w _ _ 0 s1) as [[[]|x] s2]; cbn in Ht |- *; apply touches_ok in Ht; try done; [by eexists _, _|].
  destruct (scheduleRetry_spec now (rt_webhook r) (rt_event r) (rt_payload r) (rt_attempt r + 1) (Some x) s2 ltac:(lia)) as (s3 & -> & Hs).
  eexists _, _. split; [done|]. split; [|done]. eapply schedules_ok; [exact Hs|lia|done].
Qed.

Lemma process_each_ok now e l : ∀ k t s, (∀ r, r ∈ l → 0 <= rt_attempt r < RETRY_MAX_ATTEMPTS) → queue_ok s →
  ∃ t' s', process_each now e k l t s = (Ret t', s') ∧ queue_ok s' ∧ processed t' = processed t.
Proof.
  induction l as [|r l IH]; intros k t s Hl Hq; cbn [process_each]; stx_unfold; [by eexists _, _|].
  destruct (process_entry_ok now (e k (rt_webhook r)) r t s (Hl r (list_elem_of_here _ _)) Hq) as (t1 & s1 & -> & H1 & <-). cbn.
  apply IH; [|done]. intros ??. apply Hl. by right.
Qed.

Lemma due_entries now s r : r ∈ due now s → r ∈ retries s.
Proof. unfold due. rewrite js_sort_perm. by intros [_ ?]%list_elem_of_filter. Qed.

(** On a queue in order the processing always returns. *)
Lemma processRetryQueue_ok now e s : queue_ok s →
  ∃ t s', processRetryQueue now e s = (Ret t, s') ∧ queue_ok s' ∧ processed t = Z.of_nat (length (due now s)).
Proof.
  intros Hq. unfold processRetryQueue. stx_unfold. apply (process_each_ok now e _ 0 (mk_tally _ 0 0)); [|done].
  intros r Hr%due_entries. by apply (qo_retries s Hq).
Qed.

Lemma flush_each_ok e l : ∀ k s, queue_ok s → ∃ s', flush_each e k l s = (Ret (), s') ∧ queue_ok s'.
Proof.
  induction l as [|w l IH]; intros k s Hq; cbn [flush_each]; unfold try_catch; stx_unfold; [by eexists|].
  pose proof (attempts_touch attempts_left (e k (w_id w)) w "flush" (JObj [("flushed", JBool true)]) 0 s) as Ht. fold deliver_first in Ht.
  destruct (deliver_first (e k (w_id w)) w "flush" _ 0 s) as [[[]|x] s1]; cbn in Ht |- *; apply IH; by apply (touches_ok _ _ _ Ht).
Qed.

Lemma run_ok now o s : queue_ok s → queue_ok (run now o s).
Proof.
  intros Hq. destruct o; cbn [run].
  - unfold register. destruct (is_empty _); [done|]. destruct events_; [done|]. destruct (parse_url _) as [[pr h]|]; [|done].
    destruct (negb (Ssrf.allowed_protocol _ _ _)); [done|]. destruct (_ && _); [done|]. stx_unfold. destruct (Ssrf.assertSafeOutboundUrl _ _ _ _); [|done].
    destruct Hq. by split.
  - unfold rotateSecret. stx_unfold. destruct (find_hook i s); [|done]. cbn. destruct Hq. by split.
  - unfold remove. stx_unfold. destruct (find_hook i s); [|done]. cbn. destruct Hq. by split.
  - unfold setStatus. stx_unfold. destruct (find_hook i s); [|done]. cbn. destruct Hq. by split.
  - unfold deliver. stx_unfold. destruct (deliver_each_ok now e event payload (filter (λ w, interested event w = true) (hooks s)) 0 s Hq) as (s' & -> & ?). done.
  - destruct (processRetryQueue_ok now e s Hq) as (t & s' & -> & ? & _). done.
  - unfold replayDeadLetter. stx_unfold. destruct (find_first _ (dead_letters s)) as [d|] eqn:Hf; [|done].
    destruct (scheduleRetry_spec now (d_webhook d) (d_event d) (d_payload d) 0 None s ltac:(lia)) as (s1 & -> & Hs). cbn.
    apply schedules_ok in Hs; [|unfold RETRY_MAX_ATTEMPTS; lia|done]. destruct Hs as [Hr Hd Hp]. split; try done.
    intros d' [_ ?]%list_elem_of_filter. by apply Hd.
  - unfold flushPending. stx_unfold. destruct (flush_each_ok e (filter (λ w, is_active w = true ∧ 0 < consecutive_failures w) (hooks s)) 0 s Hq) as (s' & -> & ?). done.
Qed.

Definition empty : st := mk_st [] [] [] [] [] [] 0 1 1 1.

Lemma run_all_ok l : ∀ s, queue_ok s → queue_ok (run_all l s).
Proof. induction l as [|[now o] l IH]; intros s Hq; [done|]. apply IH. by apply run_ok. Qed.

Lemma empty_ok : queue_ok empty.
Proof. split; cbn; intros ? []%elem_of_nil. Qed.

(** C31: After any calls from empty tables, an entry of the queue has 0 to 4 failed rounds behind it, a
    dead letter has five, a pass over the queue returns and counts what was due,
    and every request went to a URL that passed the check with what the name
    lookup answered just before that request, whatever it answered at the
    registration and at other requests; its certificate is verified in
    production unless the break-glass setting is on. *)
Theorem queue_bounds l now e :
  let s := run_all l empty in
  (∀ r, r ∈ retries s → 0 <= rt_attempt r < 5) ∧ (∀ d, d ∈ dead_letters s → attempts d = 5) ∧
  (∀ p, p ∈ posts s → good_post p) ∧
  ∃ t s', processRetryQueue now e s = (Ret t, s') ∧ processed t = Z.of_nat (length (due now s)).
Proof.
  intros s. assert (Hq : queue_ok s) by apply run_all_ok, empty_ok. split_and!; try apply Hq.
  destruct (processRetryQueue_ok now e s Hq) as (t & s' & ? & _ & ?). by eexists _, _.
Qed.

(** ** An endpoint that never answers *)

Section dead.
Context (i : Z).

(** Its row, its entries in the queue and what happened to it. *)
Definition row (s : st) : list webhook := filter (λ w, w_id w = i) (hooks s).
Definition queued (l : list retry) : list retry := filter (λ r, rt_webhook r = i) l.

Record nothing_lost (s : st) : Prop := {
  nl_next : i < next_hook s;
  nl_dead : filter (λ d, d_webhook d = i) (dead_letters s) = [];
  nl_mailed : i ∉ mailed s;
  nl_sent : sent_to i s <= 5;
}.
(** The webhook at rest: untried; refused three times; or disabled. The entries
    in [pending] are about to be processed. *)
Definition at_rest (w : webhook) (pending : list retry) (s : st) : Prop :=
  readable w ∧ sent_to i s <= consecutive_failures w ∧
  ((consecutive_failures w = 0 ∧ queued (retries s) = [] ∧ queued pending = []) ∨
   (consecutive_failures w = 3) ∨ (consecutive_failures w = 5 ∧ is_active w = false)).
Definition silent (pending : list retry) (s : st) : Prop :=
  nothing_lost s ∧ (row s = [] ∨ ∃ w, row s = [w] ∧ at_rest w pending s).

(** Nothing of the webhook [i] changed. *)
Record same (s s' : st) : Prop := {
  sm_row : row s' = row s;
  sm_next : next_hook s <= next_hook s';
  sm_dead : filter (λ d, d_webhook d = i) (dead_letters s') = filter (λ d, d_webhook d = i) (dead_letters s);
  sm_mailed : i ∈ mailed s' → i ∈ mailed s;
  sm_sent : sent_to i s' = sent_to i s;
  sm_queued : queued (retries s') = queued (retries s);
}.

Lemma same_silent pending s s' : same s s' → silent pending s → silent pending s'.
Proof.
  intros [Hr Hn Hd Hm Hs Hq] [[H1 H2 H3 H4] Hrow]. split.
  - split; [lia|by rewrite Hd|auto|lia].
  - rewrite Hr. destruct Hrow as [?|(w & ? & ? & ? & ?)]; [by left|]. right. exists w. split; [done|]. unfold at_rest. by rewrite Hs, Hq.
Qed.

Lemma filter_update j f (l : list webhook) : (∀ w, w_id (f w) = w_id w) →
  filter (λ w, w_id w = i) ((λ w, if w_id w =? j then f w else w) <$> l) =
  (λ w, if w_id w =? j then f w else w) <$> filter (λ w, w_id w = i) l.
Proof.
  intros Hf. induction l as [|w l IH]; [done|]. rewrite fmap_cons, !filter_cons, IH.
  assert (w_id (if w_id w =? j then f w else w) = w_id w) as -> by (case_match; auto). by case_decide.
Qed.
Lemma row_update j f s : (∀ w, w_id (f w) = w_id w) →
  row (update_hook j f s) = if decide (j = i) then f <$> row s else row s.
Proof.
  intros Hf. unfold row. rewrite update_hooks, filter_update by done.
  assert (Hall : Forall (λ w, w_id w = i) (filter (λ w, w_id w = i) (hooks s))) by (apply Forall_forall; by intros w [? _]%list_elem_of_filter).
  revert Hall. generalize (filter (λ w, w_id w = i) (hooks s)). induction l as [|w l IH]; intros Hall; [by case_decide|].
  apply Forall_cons in Hall as [Hw Hall]. rewrite fmap_cons, (IH Hall). case_decide as Hj.
  - rewrite Hj, Hw, Z.eqb_refl. done.
  - destruct (Z.eqb_spec (w_id w) j); [congruence|done].
Qed.

Lemma row_hooks s s' : hooks s' = hooks s → row s' = row s.
Proof. unfold row. by intros ->. Qed.

Lemma touches_same j s s' : touches j s s' → j ≠ i → same s s'.
Proof.
  intros [(g & Hg & Hh) (l & Hp & Hl) Hr Hd Hn Hm] Hj. split; [|lia|by rewrite Hd|by rewrite Hm| |by rewrite Hr].
  - rewrite (row_hooks _ _ Hh), row_update by done. by rewrite decide_False.
  - unfold sent_to. rewrite Hp, filter_app, (filter_none _ l); [by rewrite app_nil_r|]. apply Forall_forall. intros p Hin ?.
    destruct (Hl p Hin). congruence.
Qed.

Lemma schedules_same j a s s' : schedules j a s s' → j ≠ i → same s s'.
Proof.
  intros [Hh Hp Hn Ha] Hj. unfold row, sent_to. destruct Ha as [(_ & Hd & Hm & r & Hr & Hw & _)|(_ & Hr & Hm & d & Hd & Hw & _)].
  - split; unfold row, sent_to; rewrite ?Hh, ?Hp, ?Hn, ?Hd, ?Hm, ?Hr; try done; try lia. unfold queued.
    rewrite filter_app, filter_cons, decide_False by congruence. by rewrite filter_nil, app_nil_r.
  - split; unfold row, sent_to; rewrite ?Hh, ?Hp, ?Hn, ?Hd, ?Hr; try done; try lia.
    + rewrite filter_app, filter_cons, decide_False by congruence. by rewrite filter_nil, app_nil_r.
    + destruct Hm as [->| ->]; [done|]. intros [?|?%list_elem_of_singleton]%elem_of_app; congruence.
Qed.

Lemma same_trans s1 s2 s3 : same s1 s2 → same s2 s3 → same s1 s3.
Proof. intros [] []. split; try congruence; try lia; auto. Qed.

Definition never_answers (e : attempt_env) : Prop := ∀ j, delivered (reply e j) = false.

(** A round: three refusals, or two that disable. *)
Lemma dead_round e ev p pending w s : never_answers e → row s = [w] → at_rest w pending s → is_active w = true → nothing_lost s →
  let '(r, s') := deliver_first e w ev p 0 s in
  nothing_lost s' ∧ retries s' = retries s ∧
  ((consecutive_failures w = 0 ∧ is_ret r = false ∧ row s' = [with_failures None 3 w] ∧ sent_to i s' <= 3) ∨
   (consecutive_failures w = 3 ∧ r = Ret () ∧ row s' = [with_failures (Some false) 5 w] ∧ sent_to i s' <= 5)).
Proof.
  intros He Hrow (Hrd & Hsent & Hph) Hact [N1 N2 N3 N4]. assert (Hw : w_id w = i).
  { assert (Hin : w ∈ row s) by (rewrite Hrow; apply list_elem_of_here). unfold row in Hin. by apply list_elem_of_filter in Hin as [? _]. }
  assert (Hc : consecutive_failures w = 0 ∨ consecutive_failures w = 3) by (destruct Hph as [(? & _)|[?|(_ & ?)]]; [tauto|tauto|congruence]).
  pose proof (attempts_touch attempts_left e w ev p 0 s) as Ht.
  pose proof (attempts_spec attempts_left e w ev p 0 s eq_refl Hrd) as Hs.
  unfold deliver_first. destruct (_deliverWithRetry _ _ _ _ _ _ _) as [r s']. cbn [snd] in Ht. destruct Ht as [_ _ Tr Td Tn Tm].
  destruct Hs as (k & Hk & Hk5 & Hsent' & _ & Hl). change (Z.of_nat attempts_left) with 2 in Hk, Hl.
  pose proof (requests_bound e w 0 k ltac:(lia)) as Hrq.
  unfold meets in Hl. rewrite (He _), andb_false_r in Hl. rewrite Hw in Hsent', Hl.
  assert (Hnl : sent_to i s' <= 5 → nothing_lost s') by (split; [lia|by rewrite Td|by rewrite Tm|done]).
  destruct (Z.leb_spec 5 (consecutive_failures w + k)) as [H5|H5].
  - destruct Hl as [-> Hh]. assert (k = 2 ∧ consecutive_failures w = 3) as [-> H3] by lia. rewrite H3 in Hh. change (3 + 2) with 5 in Hh.
    assert (sent_to i s' <= 5) by lia. split_and!; [auto|done|]. right. split_and!; try done.
    rewrite (row_hooks _ _ Hh), row_update by done. by rewrite decide_True, Hrow by done.
  - destruct Hl as (-> & Hr & Hh). assert (consecutive_failures w = 0) as H0 by lia.
    assert (sent_to i s' <= 3) by lia. split_and!; [apply Hnl; lia|done|]. left. split_and!; try done.
    rewrite (row_hooks _ _ Hh), row_update, H0 by done. by rewrite decide_True, Hrow by done.
Qed.

Lemma settled w0 n b pending s : nothing_lost s → row s = [with_failures b n w0] → readable w0 → sent_to i s <= n →
  (n = 3 ∨ n = 5 ∧ b = Some false) → silent pending s.
Proof.
  intros Hn Hr Hrd Hs Hc. split; [done|]. right. eexists. split; [done|]. split; [done|]. cbn. split; [done|]. right.
  destruct Hc as [?|[? ->]]; [by left|by right].
Qed.

(** The rounds of [deliver] and of the flush: the rows were read before. *)
Definition fresh_rows (l : list webhook) (s : st) : Prop :=
  filter (λ w, w_id w = i) l = [] ∨ (filter (λ w, w_id w = i) l = row s ∧ ∀ w, w ∈ row s → is_active w = true).

Lemma fresh_next w l s s' : fresh_rows (w :: l) s → (w_id w ≠ i → row s' = row s) → silent [] s → fresh_rows l s'.
Proof.
  unfold fresh_rows. rewrite filter_cons. intros Hf Hs [_ Hr]. case_decide as Hw.
  - left. destruct Hf as [?|[Hf _]]; [done|]. destruct Hr as [Hr|(w' & Hr & _)]; rewrite Hr in Hf; [done|]. by injection Hf.
  - rewrite Hs by done. exact Hf.
Qed.

Lemma fresh_head w l s : fresh_rows (w :: l) s → w_id w = i → silent [] s → row s = [w] ∧ at_rest w [] s ∧ is_active w = true.
Proof.
  unfold fresh_rows. rewrite filter_cons. intros Hf Hw [_ Hr]. rewrite decide_True in Hf by done. destruct Hf as [?|[Hf Ha]]; [done|].
  destruct Hr as [Hr|(w' & Hr & Hrest)]; rewrite Hr in Hf; [done|]. injection Hf as <- _. rewrite Hr in Ha.
  split_and!; [done|done|]. apply Ha, list_elem_of_here.
Qed.

Lemma deliver_one_silent now e ev p w l s : (w_id w = i → never_answers e) → fresh_rows (w :: l) s → silent [] s →
  let s' := (deliver_one now e ev p w s).2 in silent [] s' ∧ fresh_rows l s'.
Proof.
  intros He Hf Hs. cut (silent [] (deliver_one now e ev p w s).2 ∧ (w_id w ≠ i → row (deliver_one now e ev p w s).2 = row s)).
  { intros [? ?]. split; [done|]. by eapply fresh_next. }
  unfold deliver_one, try_catch. destruct (decide (w_id w = i)) as [Hw|Hw].
  - split; [|done]. destruct (fresh_head w l s Hf Hw Hs) as (Hrow & Hrest & Hact).
    pose proof (dead_round e ev p [] w s (He Hw) Hrow Hrest Hact (proj1 Hs)) as Hd. pose proof Hrest as (Hrd & _ & Hph).
    destruct (deliver_first e w ev p 0 s) as [r s1]. destruct Hd as (Hn & Hr & [(H0 & Hx & Hrow1 & H3)|(H0 & -> & Hrow1 & H5)]).
    + destruct r as [|x]; [done|]. destruct (scheduleRetry_spec now (w_id w) ev p 0 (Some x) s1 ltac:(lia)) as (s2 & -> & [Sh Sp Sn Sa]).
      cbn [snd]. destruct Sa as [(_ & Sd & Sm & _)|(? & _)]; [|unfold RETRY_MAX_ATTEMPTS in *; lia].
      apply (settled w 3 None); unfold row, sent_to in *; rewrite ?Sh, ?Sp; auto.
      destruct Hn as [N1 N2 N3 N4]. split; [lia|by rewrite Sd|by rewrite Sm|unfold sent_to in *; by rewrite Sp].
    + cbn [snd]. apply (settled w 5 (Some false)); auto.
  - assert (Hsame : same s (try_catch (deliver_first e w ev p 0) (λ x, try_catch (scheduleRetry now (w_id w) ev p 0 (Some x)) (λ _, mret ())) s).2).
    { unfold try_catch. pose proof (attempts_touch attempts_left e w ev p 0 s) as Ht. fold deliver_first in Ht.
      destruct (deliver_first e w ev p 0 s) as [[[]|x] s1]; cbn [snd] in Ht; apply touches_same in Ht; try done.
      destruct (scheduleRetry_spec now (w_id w) ev p 0 (Some x) s1 ltac:(lia)) as (s2 & -> & Hs2). cbn [snd].
      eapply same_trans; [exact Ht|]. by apply (schedules_same (w_id w) 0). }
    unfold try_catch in Hsame. split; [by eapply same_silent|]. intros _. apply Hsame.
Qed.

Lemma deliver_each_silent now e ev p l : ∀ k s, (∀ k, never_answers (e k i)) → fresh_rows l s → silent [] s →
  silent [] (deliver_each now e ev p k l s).2.
Proof.
  induction l as [|w l IH]; intros k s He Hf Hs; cbn [deliver_each]; stx_unfold; [done|].
  destruct (deliver_one_silent now (e k (w_id w)) ev p w l s) as [Hs1 Hf1]; [intros ->; apply He|done|done|].
  assert (Hret : ∃ s1, deliver_one now (e k (w_id w)) ev p w s = (Ret (), s1)).
  { unfold deliver_one, try_catch. destruct (deliver_first (e k (w_id w)) w ev p 0 s) as [[[]|x] s1]; [by eexists|].
    destruct (scheduleRetry_spec now (w_id w) ev p 0 (Some x) s1 ltac:(lia)) as (s2 & -> & _). by eexists. }
  destruct Hret as [s1 Hr]. rewrite Hr in Hs1, Hf1 |- *. by apply IH.
Qed.

Lemma flush_each_silent e l : ∀ k s, (∀ k, never_answers (e k i)) → fresh_rows l s → silent [] s →
  silent [] (flush_each e k l s).2.
Proof.
  induction l as [|w l IH]; intros k s He Hf Hs; cbn [flush_each]; unfold try_catch; stx_unfold; [done|].
  set (p := JObj _). pose proof (attempts_touch attempts_left (e k (w_id w)) w "flush" p 0 s) as Ht. fold deliver_first in Ht.
  assert (Hk : silent [] (deliver_first (e k (w_id w)) w "flush" p 0 s).2 ∧
    (w_id w ≠ i → row (deliver_first (e k (w_id w)) w "flush" p 0 s).2 = row s)).
  { destruct (decide (w_id w = i)) as [Hw|Hw].
    - split; [|done]. destruct (fresh_head w l s Hf Hw Hs) as (Hrow & Hrest & Hact).
      pose proof (dead_round (e k (w_id w)) "flush" p [] w s ltac:(rewrite Hw; apply He) Hrow Hrest Hact (proj1 Hs)) as Hd.
      pose proof Hrest as (Hrd & _ & _). destruct (deliver_first _ _ _ _ _ _) as [r s1].
      destruct Hd as (Hn & _ & [(_ & _ & Hrow1 & H3)|(_ & _ & Hrow1 & H5)]); [apply (settled w 3 None)|apply (settled w 5 (Some false))]; auto.
    - apply touches_same in Ht; [|done]. split; [by eapply same_silent|]. intros _. apply Ht. }
  destruct Hk as [Hs1 Hrow]. pose proof (fresh_next w l s _ Hf Hrow Hs) as Hf1.
  destruct (deliver_first (e k (w_id w)) w "flush" p 0 s) as [[[]|x] s1]; cbn; by apply IH.
Qed.

(** The queue. *)
Lemma process_entry_silent now e r l t s : (rt_webhook r = i → never_answers e) → 0 <= rt_attempt r →
  silent (r :: l) s → silent l (process_entry now e r t s).2.
Proof.
  intros He Ha Hs. unfold process_entry. stx_unfold. set (s1 := set_retries _ s).
  assert (Hs1 : silent (r :: l) s1).
  { destruct Hs as [[N1 N2 N3 N4] Hr]. split; [by split|]. destruct Hr as [?|(w & Hr & Hrd & Hsent & Hph)]; [by left|]. right. exists w.
    split; [done|]. split; [done|]. split; [done|]. destruct Hph as [(H0 & Hq & Hl)|?]; [left|by right]. split_and!; [done| |done].
    unfold s1, set_retries, queued. cbn. unfold queued in Hq. apply filter_none, Forall_forall. intros x [_ Hx]%list_elem_of_filter Hi.
    by apply (filter_nil_not_elem_of _ _ _ Hq Hi). }
  clearbody s1. clear Hs. assert (Hdrop : silent l s1).
  { destruct Hs1 as [Hn Hr]. split; [done|]. destruct Hr as [?|(w & Hr & Hrd & Hsent & Hph)]; [by left|]. right. exists w.
    split; [done|]. split; [done|]. split; [done|]. destruct Hph as [(H0 & Hq & Hl)|?]; [left|by right]. split_and!; [done|done|].
    unfold queued in *. rewrite filter_cons in Hl. by case_decide. }
  destruct (find_hook (rt_webhook r) s1) as [w|] eqn:Hf; [|done]. destruct (is_active w) eqn:Hact; [|done].
  unfold find_hook in Hf. apply find_first_Some in Hf as [Hin Hid%Z.eqb_eq]. unfold try_catch. cbn.
  destruct (decide (rt_webhook r = i)) as [Hi|Hi].
  - destruct Hs1 as [Hn Hr]. assert (Hrow : w ∈ row s1) by (apply list_elem_of_filter; split; [congruence|done]).
    destruct Hr as [Hr|(w' & Hr & Hrest)]; rewrite Hr in Hrow; [by apply elem_of_nil in Hrow|].
    apply list_elem_of_singleton in Hrow as <-. pose proof (dead_round e (rt_event r) (rt_payload r) (r :: l) w s1 (He Hi) Hr Hrest Hact Hn) as Hd.
    destruct Hrest as (Hrd & _ & Hph). assert (H0 : consecutive_failures w ≠ 0).
    { intros H0. destruct Hph as [(_ & _ & Hq)|[?|[? _]]]; [|lia|lia]. unfold queued in Hq. rewrite filter_cons, decide_True in Hq by done. done. }
    destruct (deliver_first e w _ _ 0 s1) as [q s2]. destruct Hd as (Hn2 & _ & [(? & _)|(_ & -> & Hrow2 & H5)]); [done|]. cbn.
    apply (settled w 5 (Some false)); auto.
  - pose proof (attempts_touch attempts_left e w (rt_event r) (rt_payload r) 0 s1) as Ht. fold deliver_first in Ht. rewrite Hid in Ht.
    destruct (deliver_first e w _ _ 0 s1) as [[[]|x] s2]; cbn in Ht |- *; apply touches_same in Ht; try done; [by eapply same_silent|].
    destruct (scheduleRetry_spec now (rt_webhook r) (rt_event r) (rt_payload r) (rt_attempt r + 1) (Some x) s2 ltac:(lia)) as (s3 & -> & Hs3). cbn.
    eapply same_silent; [|exact Hdrop]. eapply same_trans; [exact Ht|]. by eapply schedules_same.
Qed.

Lemma process_each_silent now e l : ∀ k t s, (∀ k, never_answers (e k i)) → (∀ r, r ∈ l → 0 <= rt_attempt r < RETRY_MAX_ATTEMPTS) →
  queue_ok s → silent l s → silent [] (process_each now e k l t s).2.
Proof.
  induction l as [|r l IH]; intros k t s He Hl Hq Hs; cbn [process_each]; stx_unfold; [done|].
  pose proof (process_entry_silent now (e k (rt_webhook r)) r l t s) as Hp.
  destruct (process_entry_ok now (e k (rt_webhook r)) r t s (Hl r (list_elem_of_here _ _)) Hq) as (t1 & s1 & Hr & Hq1 & _).
  rewrite Hr in Hp |- *. cbn in Hp |- *. apply IH; [done| |done|].
  - intros ??. apply Hl. by right.
  - apply Hp; [intros ->; apply He|by apply Hl; left|done].
Qed.

Lemma fresh_filter (P : webhook → Prop) `{∀ w, Decision (P w)} s : (∀ w, P w → is_active w = true) → silent [] s →
  fresh_rows (filter P (hooks s)) s.
Proof.
  intros HP [_ Hr]. unfold fresh_rows.
  assert (Hsub : ∀ w, w ∈ filter (λ w, w_id w = i) (filter P (hooks s)) → w ∈ row s ∧ P w).
  { intros w [Hi [Hp Hin]%list_elem_of_filter]%list_elem_of_filter. split; [by apply list_elem_of_filter|done]. }
  assert (Hcomm : filter (λ w, w_id w = i) (filter P (hooks s)) = filter P (row s)).
  { unfold row. generalize (hooks s). intros l. induction l as [|w l IH]; [done|]. rewrite !filter_cons.
    repeat case_decide; rewrite ?filter_cons; repeat case_decide; try done; by rewrite IH. }
  rewrite Hcomm. destruct Hr as [Hr|(w & Hr & _)]; rewrite Hr; [by left|]. rewrite filter_cons, filter_nil. case_decide as Hp; [right|by left].
  split; [done|]. intros w' ->%list_elem_of_singleton. by apply HP.
Qed.

(** The calls that leave the webhook alone, but for what sends to it. *)
Definition quiet (o : op) : Prop :=
  match o with
  | Deliver e _ _ | Process e | Flush e => ∀ k, never_answers (e k i)
  | SetStatus j true => j ≠ i
  | _ => True
  end.

(** A change of the row that keeps the failures and never enables. *)
Lemma update_silent j f s : (∀ w, w_id (f w) = w_id w) →
  (∀ w, consecutive_failures (f w) = consecutive_failures w) → (∀ w, j = i → readable w → readable (f w)) →
  (∀ w, j = i → is_active w = false → is_active (f w) = false) → silent [] s → silent [] (update_hook j f s).
Proof.
  intros Hid Hc Hrd Ha [[N1 N2 N3 N4] Hr]. split; [by split|]. rewrite row_update by done.
  destruct Hr as [->|(w & -> & Hw & Hs & Hph)]; [left; by case_decide|]. right. case_decide as Hj; [|by exists w].
  exists (f w). split; [done|]. split; [by apply Hrd|]. rewrite Hc. split; [done|].
  destruct Hph as [?|[?|[? ?]]]; [by left|by right; left|right; right]. split; [done|]. by apply Ha.
Qed.

Lemma run_silent now o s : (∀ x, decryptField (encryptField x) = Ret x) → quiet o → queue_ok s → silent [] s → silent [] (run now o s).
Proof.
  intros Henc Ho Hq Hs. destruct o; cbn [run].
  - unfold register. destruct (is_empty _); [done|]. destruct events_; [done|]. destruct (parse_url _) as [[pr h]|]; [|done].
    destruct (negb (Ssrf.allowed_protocol _ _ _)); [done|]. destruct (_ && _); [done|]. stx_unfold. destruct (Ssrf.assertSafeOutboundUrl _ _ _ _); [|done].
    apply (same_silent [] s); [|done]. split; try done; [|cbn; lia]. unfold row. cbn.
    rewrite filter_app, filter_cons, decide_False by (destruct Hs as [[? _ _ _] _]; cbn; lia). by rewrite filter_nil, app_nil_r.
  - unfold rotateSecret. stx_unfold. destruct (find_hook _ s); [|done]. cbn -[update_hook]. apply update_silent; try done.
    intros w' _ _. unfold readable, plaintext. cbn. destruct (encryptField random) as [|a b] eqn:He; [done|]. cbn. by rewrite <- He, Henc.
  - unfold remove. stx_unfold. destruct (find_hook _ s) as [w0|]; [|done]. cbn. destruct Hs as [[N1 N2 N3 N4] Hr]. split; [by split|].
    unfold row, at_rest in *. cbn. destruct (decide (i0 = i)) as [->|Hj].
    + left. apply filter_none, Forall_forall. by intros w1 [? _]%list_elem_of_filter.
    + assert (Hrow : filter (λ w, w_id w = i) (filter (λ w, w_id w ≠ i0) (hooks s)) = filter (λ w, w_id w = i) (hooks s)).
      { generalize (hooks s). intros l. induction l as [|w1 l IH]; [done|]. rewrite !filter_cons.
        repeat case_decide; rewrite ?filter_cons; repeat case_decide; subst; try done; by rewrite IH. }
      by rewrite Hrow.
  - unfold setStatus. stx_unfold. destruct (find_hook _ s); [|done]. cbn -[update_hook]. apply update_silent; try done.
    intros w' -> _. cbn. by destruct active.
  - unfold deliver. stx_unfold. apply deliver_each_silent; [done| |done]. apply fresh_filter; [|done].
    intros w. unfold interested. by intros [? _]%andb_prop.
  - unfold processRetryQueue. stx_unfold. apply process_each_silent; [done| |done|].
    + intros r Hr%due_entries. by apply (qo_retries s Hq).
    + destruct Hs as [Hn Hr]. split; [done|]. destruct Hr as [?|(w & Hr & Hrd & Hse & Hph)]; [by left|]. right. exists w.
      split; [done|]. split; [done|]. split; [done|]. destruct Hph as [(H0 & Hqe & _)|?]; [left|by right]. split_and!; [done|done|].
      unfold queued in *. apply filter_none, Forall_forall. intros r Hr' Hi. apply due_entries in Hr'. by apply (filter_nil_not_elem_of _ _ _ Hqe Hi).
  - unfold replayDeadLetter. stx_unfold. destruct (find_first _ (dead_letters s)) as [d|] eqn:Hf; [|done].
    apply find_first_Some in Hf as [Hin _]. assert (Hd : d_webhook d ≠ i).
    { intros Hd. destruct Hs as [[_ N2 _ _] _]. by apply (filter_nil_not_elem_of _ _ _ N2 Hd). }
    destruct (scheduleRetry_spec now (d_webhook d) (d_event d) (d_payload d) 0 None s ltac:(lia)) as (s1 & -> & Hs1). cbn.
    apply schedules_same in Hs1; [|done]. apply (same_silent [] s); [|done]. eapply same_trans; [exact Hs1|]. split; try done.
    destruct (same_silent [] _ _ Hs1 Hs) as [[_ N2 _ _] _]. rewrite N2.
    apply filter_none, Forall_forall. cbn. intros d' [_ Hd']%list_elem_of_filter Hi. by apply (filter_nil_not_elem_of _ _ _ N2 Hi).
  - unfold flushPending. stx_unfold. apply flush_each_silent; [done| |done]. apply fresh_filter; [|done]. by intros w [? _].
Qed.

Lemma run_all_silent l : (∀ x, decryptField (encryptField x) = Ret x) → (∀ c, c ∈ l → quiet c.2) →
  ∀ s, queue_ok s → silent [] s → silent [] (run_all l s).
Proof.
  intros Henc. induction l as [|[now o] l IH]; intros Hl s Hq Hs; [done|]. cbn [run_all]. apply IH.
  - intros c ?. apply Hl. by right.
  - by apply run_ok.
  - apply run_silent; try done. apply (Hl (now, o)), list_elem_of_here.
Qed.

(** A webhook that was just registered. *)
Definition untried (w : webhook) (s : st) : Prop :=
  row s = [w] ∧ readable w ∧ consecutive_failures w = 0 ∧ sent_to i s = 0 ∧ queued (retries s) = [] ∧
  (filter (λ d, d_webhook d = i) (dead_letters s)) = [] ∧ i ∉ mailed s ∧ i < next_hook s.

(** An endpoint that never answers gets at most five requests, whatever is
    delivered, processed and flushed, until somebody enables it again; its
    events never become dead letters and its owner is not told; once five
    rounds were refused it is disabled. *)
Theorem dead_endpoint w l s :
  (∀ x, decryptField (encryptField x) = Ret x) → queue_ok s → untried w s → (∀ c, c ∈ l → quiet c.2) →
  let s' := run_all l s in
  sent_to i s' <= 5 ∧ (filter (λ d, d_webhook d = i) (dead_letters s')) = [] ∧ i ∉ mailed s' ∧
  (∀ w', w' ∈ hooks s' → w_id w' = i → consecutive_failures w' ∈ [0; 3; 5] ∧ (consecutive_failures w' = 5 → is_active w' = false)).
Proof.
  intros Henc Hq (Hr & Hrd & H0 & Hs & Hqu & Hd & Hm & Hn) Hl s'.
  assert (Hsil : silent [] s').
  { apply run_all_silent; try done. split; [split; try done; lia|]. right. exists w. split; [done|]. split; [done|]. split; [lia|by left]. }
  destruct Hsil as [[N1 N2 N3 N4] Hrow]. split_and!; [done|done|done|]. intros w' Hin Hi.
  assert (Hw' : w' ∈ row s') by (by apply list_elem_of_filter). destruct Hrow as [Hrow|(w1 & Hrow & _ & _ & Hph)]; rewrite Hrow in Hw'.
  - by apply elem_of_nil in Hw'.
  - apply list_elem_of_singleton in Hw' as ->. rewrite !elem_of_cons. destruct Hph as [(? & _)|[?|[? ?]]]; split; try tauto; lia.
Qed.

End dead.
End service.
(** ** Subscriptions *)

Definition plain_char (c : ascii) : bool := negb (Ascii.eqb c "%" || Ascii.eqb c "_").

Lemma like_percent p s : like (String "%" p) s = true ↔ ∃ a b, s = (a +:+ b)%stdpp ∧ like p b = true.
Proof.
  split.
  - induction s as [|c s IH]; intros H; cbn in H.
    + rewrite orb_false_r in H. by exists "", "".
    + apply orb_prop in H as [H|H]; [by exists "", (String c s)|]. destruct (IH H) as (a & b & -> & Hb). by exists (String c a), b.
  - intros (a & b & -> & Hb). induction a as [|c a IH]; cbn.
    + destruct b; cbn; by rewrite Hb.
    + change (like p (String c (a +:+ b)%stdpp) || like (String "%" p) (a +:+ b)%stdpp = true). by rewrite IH, orb_true_r.
Qed.

Lemma like_char c p s : plain_char c = true →
  like (String c p) s = match s with String d t => same_char c d && like p t | EmptyString => false end.
Proof.
  unfold plain_char. intros [H1 H2]%negb_true_iff%orb_false_elim. destruct s as [|d t]; destruct c as [[] [] [] [] [] [] [] []]; try done.
Qed.

Lemma like_plain e p s : str_forall plain_char e = true →
  like (e +:+ p)%stdpp s = true ↔ ∃ b c, s = (b +:+ c)%stdpp ∧ to_lower b = to_lower e ∧ like p c = true.
Proof.
  revert s. induction e as [|x e IH]; intros s He; cbn [String.append].
  - split; [intros; by exists "", s|]. intros (b & c & -> & Hb & Hc). by destruct b.
  - cbn [str_forall] in He. apply andb_prop in He as [Hx He]. rewrite like_char by done. split.
    + destruct s as [|d t]; [done|]. intros [Hd Ht]%andb_prop. apply IH in Ht as (b & c & -> & Hb & Hc); [|done].
      exists (String d b), c. split_and!; [done| |done]. unfold to_lower in *. cbn [str_map]. rewrite Hb. f_equal. symmetry. by apply Ascii.eqb_eq.
    + intros (b & c & -> & Hb & Hc). destruct b as [|d b]; [done|]. unfold to_lower in *. cbn [str_map] in Hb. injection Hb as Hd Hb.
      cbn [String.append]. unfold same_char. rewrite Hd, Ascii.eqb_refl. apply IH; [done|]. by exists b, c.
Qed.

(** An active webhook is asked about an event when the text of its list
    contains the event anywhere, whatever the case. *)
Theorem subscription_match ev w l :
  str_forall plain_char ev = true → events w = Some l →
  interested ev w = true ↔ is_active w = true ∧ ∃ a b c, l = (a +:+ b +:+ c)%stdpp ∧ to_lower b = to_lower ev.
Proof.
  intros He Hl. unfold interested. rewrite Hl, andb_true_iff.
  assert (Hiff : like (String "%" (ev +:+ "%")%stdpp) l = true ↔ ∃ a b c, l = (a +:+ b +:+ c)%stdpp ∧ to_lower b = to_lower ev); [|by rewrite Hiff].
  rewrite like_percent. split.
  - intros (a & r & -> & Hr). apply like_plain in Hr as (b & c & -> & Hb & _); [|done]. by exists a, b, c.
  - intros (a & b & c & -> & Hb). exists a, (b +:+ c)%stdpp. split; [done|]. apply like_plain; [done|]. exists b, c. split_and!; [done|done|].
    apply like_percent. exists c, "". split; [|done]. clear. induction c as [|x c IH]; [done|]. cbn. by rewrite <- IH.
Qed.

Definition hook (i c : Z) (l : option string) : webhook := mk_webhook i "https://example.org/hook" l (Some "secret") None true c (Some "owner@example.org") false.

Lemma subscription_match_witness : interested "send" (hook 1 0 (Some (stringify None (JArr [JStr "resend"])))) = true.
Proof.
  apply (subscription_match "send" (hook 1 0 (Some (stringify None (JArr [JStr "resend"])))) (stringify None (JArr [JStr "resend"])) eq_refl eq_refl).
  split; [reflexivity|]. exists (String "[" (String "034" "re")), "send", (String "034" "]"). split; reflexivity.
Defined.

(** A subscription to one event receives another whose name it contains. *)
Example other_event : interested "pledge.paid" (hook 1 0 (Some (stringify None (JArr [JStr "pledge.paid_late"])))) = true.
Proof. by vm_compute. Qed.

(** The worker calls a static method of the class on its instance. *)
Lemma worker_never_processes b s : worker_tick b s = (Ret (), s).
Proof. by destruct b. Qed.

(** ** Concrete calls *)

Definition plain_env (a : answer) : attempt_env := mk_env (λ _, 0) (λ _ _, Ret []) (λ _, a) JNull.
Definition parse_any (u : string) : option (string * string) := Some ("https:", "93.184.216.34").
Definition lookup_any : resolver := λ _, Ret [].
Definition down : attempt_env := plain_env (Status 500).

Definition run_c := run (λ x, x) (λ x, Ret x) (λ k x, "signature") (λ _, "2026-01-01T00:00:00.000Z") true false parse_any.
Definition run_all_c := run_all (λ x, x) (λ x, Ret x) (λ k x, "signature") (λ _, "2026-01-01T00:00:00.000Z") true false parse_any.
Definition started : st := run_c 0 (Register "https://example.org/hook" ["send"] None (Some "owner@example.org") false "secret" lookup_any) empty.

(** The host moves to a local address after the registration: the second attempt makes no request. *)
Definition parse_name (u : string) : option (string * string) := Some ("https:", "example.org").
Definition moving : attempt_env :=
  mk_env (λ _, 0) (λ j _, if j =? 0 then Ret [("93.184.216.34", 4)] else Ret [("127.0.0.1", 4)]) (λ _, Status 500) JNull.
Example checked_before_each_request :
  sent_to 1 (deliver_first (λ x, Ret x) (λ k x, "signature") (λ _, "") true false parse_name moving (hook 1 0 None) "send" JNull 0 empty).2 = 1.
Proof. by vm_compute. Qed.

Lemma dead_endpoint_witness :
  sent_to 1 (run_all_c [(0, Deliver (λ _ _, down) "send" JNull); (60000, Process (λ _ _, down)); (10 ^ 9, Process (λ _ _, down))] started) = 5 ∧
  sent_to 1 (run_all_c [(0, Deliver (λ _ _, down) "send" JNull); (60000, Process (λ _ _, down)); (10 ^ 9, Process (λ _ _, down))] started) <= 5.
Proof.
  split; [vm_compute; reflexivity|].
  refine (proj1 (dead_endpoint (λ x, x) (λ x, Ret x) (λ k x, "signature") (λ _, "2026-01-01T00:00:00.000Z") true false parse_any 1
    (mk_webhook 1 "https://example.org/hook" (Some (stringify None (JArr [JStr "send"]))) (Some "secret") None true 0 (Some "owner@example.org") false)
    [(0, Deliver (λ _ _, down) "send" JNull); (60000, Process (λ _ _, down)); (10 ^ 9, Process (λ _ _, down))] started _ _ _ _)).
  - reflexivity.
  - apply (run_ok (λ x, x) (λ x, Ret x) (λ k x, "signature") (λ _, "2026-01-01T00:00:00.000Z") true false parse_any), empty_ok.
  - unfold untried. split_and!; try (vm_compute; reflexivity). vm_compute. intros H. inversion H.
  - intros c Hc. repeat (apply elem_of_cons in Hc as [->|Hc]; [cbn; intros ??; reflexivity|]). by apply elem_of_nil in Hc.
Defined.

(** A disabled webhook: what is due for it leaves the queue without a trace. *)
Example disabled_entry_lost :
  let s := run_all_c [(0, Deliver (λ _ _, down) "send" JNull); (0, SetStatus 1 false); (60000, Process (λ _ _, down))] started in
  retries s = [] ∧ dead_letters s = [] ∧ sent_to 1 s = 3 ∧ mailed s = [].
Proof. by vm_compute. Qed.

(** Enabled again, it is disabled by its first failure. *)
Example enabled_again :
  let s := run_all_c [(0, Deliver (λ _ _, down) "send" JNull); (60000, Process (λ _ _, down)); (60001, SetStatus 1 true);
    (60002, Deliver (λ _ _, down) "send" JNull)] started in
  (is_active <$> hooks s, consecutive_failures <$> hooks s, retries s) = ([false], [6], []).
Proof. by vm_compute. Qed.

End Webhooks.
