(* ===== verification/Sync.v ===== *)
(** * Synchronisation ([src/src/services/TransactionSyncService.js],
      [src/src/services/TransactionSyncScheduler.js],
      the statements of [src/src/models/wallet.js])

    The history of an account is read from Horizon page by page and recorded by
    the transaction model.  What Horizon answers is an argument.  The methods
    of the wallet model are asynchronous and are called without [await]: their
    result is a promise, which has none of the properties that are read.  The
    amount of a record, a text in the code, is the Number it denotes. *)

From Stdlib Require Import Ascii.
From S2P Require Import Prelude JsString JsNumber JsMap Errors TransactionState Transaction.
From stdpp Require Import gmap.
Local Open Scope Z_scope.

Module Sync.

(** ** Wallets *)

Record wallet := mk_wallet {
  w_id : string;
  address : string;
  last_cursor : option string;
  last_synced_at : option Z;
  updatedAt : option Z;
  deletedAt : option Z;
}.

Definition getAll (t : list wallet) : list wallet := filter (λ w, deletedAt w = None) t.
Definition getById (i : string) (t : list wallet) : option wallet :=
  find_first (λ w, bool_decide (w_id w = i ∧ deletedAt w = None)) t.
Definition getByAddress (a : string) (t : list wallet) : option wallet :=
  find_first (λ w, bool_decide (address w = a ∧ deletedAt w = None)) t.

(** The part of [update] on the columns of the synchronisation: a field that is
    not given keeps its value. *)
Definition update (now : Z) (i : string) (cursor : option string) (synced_at : option Z) (t : list wallet) : list wallet :=
  (λ w, if bool_decide (w_id w = i ∧ deletedAt w = None)
        then mk_wallet (w_id w) (address w) (Transaction.or_else cursor (last_cursor w))
               (Transaction.or_else synced_at (last_synced_at w)) (Some now) None
        else w) <$> t.

Definition softDelete (now : Z) (i : string) (t : list wallet) : bool * list wallet :=
  (bool_decide (is_Some (getById i t)),
   (λ w, if bool_decide (w_id w = i ∧ deletedAt w = None)
         then mk_wallet (w_id w) (address w) (last_cursor w) (last_synced_at w) (updatedAt w) (Some now)
         else w) <$> t).

(** A property read from a promise, and [String(undefined)]. *)
Definition of_promise {A} : option A := None.
Definition undefined_text : string := "undefined".

(** ** Pages of Horizon *)

Record record := mk_record {
  r_id : string;
  paging_token : string;
  r_memo : option string;
  created_at : option Z;
  op_amount : option string;              (* of the first operation *)
  op_destination : option string;
  op_to : option string;
  source_account : option string;
}.

Definition _extractAmount (r : record) : string := default "0" (Transaction.truthy_str (op_amount r)).
Definition _extractSource (r : record) : option string := Transaction.truthy_str (source_account r).
Definition _extractDestination (r : record) : option string :=
  Transaction.or_else (Transaction.truthy_str (op_destination r)) (Transaction.truthy_str (source_account r)).

(** What is asked for, and an answer; [NotFound] has the status 404. *)
Record query := mk_query { q_cursor : option string; q_ascending : bool; q_limit : Z }.
Inductive reply := Page (l : list record) | NotFound | Failed (e : jserror).

(** [resolvedMaxPages] from the variable of the environment. *)
Definition resolvedMaxPages (env : option Z) : Z :=
  Z.min (match env with Some n => if 0 <? n then n else 100 | None => 100 end) 1000.

(** The loop over the pages: [pages_left] are those it may still read. *)
Fixpoint read_pages (pages_left : nat) (maxTransactions : Z) (page : nat → reply) (i : nat) (acc : list record) : reply :=
  match page i with
  | Page [] => Page acc
  | Page records =>
      if Z.of_nat (length acc) <? maxTransactions then
        match pages_left with
        | O => Page acc
        | S pages_left =>
            let acc := acc ++ take (Z.to_nat maxTransactions - length acc) records in
            if maxTransactions <=? Z.of_nat (length acc) then Page acc
            else match pages_left with O => Page acc | S _ => read_pages pages_left maxTransactions page (S i) acc end
        end
      else Page acc
  | r => r
  end.

Definition horizon_query (cursor : option string) (maxTransactions : Z) : query :=
  mk_query cursor (bool_decide (is_Some cursor)) (Z.min 200 maxTransactions).

Section service.
(** The pages of an account for a query; the setting of the environment. *)
Context (horizon : string → query → nat → reply) (env_max_pages : option Z).

Definition _fetchHorizonTransactions (publicKey : string) (maxTransactions : Z) (cursor : option string) (maxPages : option Z)
  : outcome jserror (list record) :=
  let cursor := Transaction.truthy_str cursor in
  let effectiveMaxPages := default (resolvedMaxPages env_max_pages) maxPages in
  match read_pages (Z.to_nat effectiveMaxPages) maxTransactions
          (horizon publicKey (horizon_query cursor maxTransactions)) 0 [] with
  | Page l => Ret (match cursor with Some _ => l | None => reverse l end)
  | NotFound => Ret []
  | Failed e => Throw e
  end.

(** ** Recording *)

Record st := mk_st { txs : Transaction.st; wallets : list wallet }.
Definition M := stx jserror st.
Definition on_txs {A} (m : Transaction.M A) : M A := λ s, let '(r, t) := m (txs s) in (r, mk_st t (wallets s)).
Definition on_wallets (f : list wallet → list wallet) : M () := modify_st (λ s, mk_st (txs s) (f (wallets s))).

Definition record_data (r : record) : Transaction.tx_data :=
  Transaction.mk_data None (num_of_string (_extractAmount r)) None None (r_memo r) None [] None (created_at r)
    (Some "confirmed") (Some (r_id r)) None None None None 0 None None None None None None None.

(** The loop over the records; [uuid] gives the identifiers of the creations. *)
Fixpoint record_all (now : Z) (uuid : nat → string) (l : list record) : Transaction.M (list Transaction.obj) :=
  match l with
  | [] => mret []
  | r :: l =>
      s ← get_st;
      match Transaction.getByStellarTxId s (Some (r_id r)) with
      | Some _ => record_all now uuid l
      | None => o ← Transaction.create now (uuid O) (record_data r);
                os ← record_all now (λ i, uuid (S i)) l; mret (o :: os)
      end
  end.

Record result := mk_result { synced : Z; transactions : list Transaction.obj; lastCursor : option string }.

Definition syncWalletTransactions (now : Z) (uuid : nat → string) (publicKey : string) (maxTransactions : Z)
    (maxPages : option Z) (cursorOverride : option string) : M result :=
  let cursor := Transaction.or_else cursorOverride of_promise in
  l ← lift_out (_fetchHorizonTransactions publicKey maxTransactions cursor maxPages);
  os ← on_txs (record_all now uuid l);
  let newLastCursor := paging_token <$> last l in
  on_wallets (update now (default undefined_text of_promise) newLastCursor (Some now));;
  mret (mk_result (Z.of_nat (length os)) os newLastCursor).

(** ** The scheduler *)

Record pass := mk_pass { p_wallets : Z; p_synced : Z; p_errors : Z }.
Inductive tick := Skipped | Complete (p : pass).

(** The loop over the wallets: a failure is counted and the next one follows.
    [uuid] gives the identifiers for each wallet. *)
Fixpoint sync_loop (now : Z) (uuid : nat → nat → string) (l : list wallet) (totalSynced errorCount : Z) : M (Z * Z) :=
  match l with
  | [] => mret (totalSynced, errorCount)
  | w :: l =>
      '(n, e) ← try_catch (r ← syncWalletTransactions now (uuid O) (address w) 500 None None; mret (synced r, 0))
                          (λ _, mret (0, 1));
      sync_loop now (λ i, uuid (S i)) l (totalSynced + n) (errorCount + e)
  end.

(** [for (const wallet of wallets)]: a promise is not iterable. *)
Definition iterate_promise : outcome jserror (list wallet) := Throw (EType "wallets is not iterable").

Definition _runSync (now : Z) (uuid : nat → nat → string) (isLeader : bool) : M tick :=
  if isLeader then
    l ← lift_out iterate_promise;
    '(n, e) ← sync_loop now uuid l 0 0;
    mret (Complete (mk_pass (Z.of_nat (length l)) n e))
  else mret Skipped.

(** ** Pages *)

(** What Horizon documents: the pages of a query are the successive parts of its list. *)
Definition pages_of (p : nat) (l : list record) (page : nat → reply) : Prop :=
  ∀ i, page i = Page (take p (drop (i * p) l)).

Lemma take_full m a b (l : list record) :
  (m <= length (take m (take a l)))%nat → (a <= b)%nat → take m (take b l) = take m (take a l).
Proof. rewrite !length_take, !take_take. intros ??. f_equal. lia. Qed.

Lemma read_pages_spec p l page n max i :
  (0 < p)%nat → pages_of p l page →
  read_pages n max page i (take (Z.to_nat max) (take (i * p) l)) = Page (take (Z.to_nat max) (take ((i + n) * p) l)).
Proof.
  intros Hp Hl. set (m := Z.to_nat max). revert i. induction n as [|n IH]; intros i; cbn [read_pages]; rewrite Hl.
  { rewrite Nat.add_0_r. case_match; [done|]. by case_match. }
  set (acc := take m (take (i * p) l)).
  assert (Hnext : take (S i * p) l = take (i * p) l ++ take p (drop (i * p) l)).
  { replace (S i * p)%nat with (i * p + p)%nat by lia. symmetry. apply take_take_drop. }
  destruct (take p (drop (i * p) l)) as [|r rs] eqn:Hd.
  { apply (f_equal length) in Hd. rewrite length_take, length_drop in Hd. cbn in Hd. subst acc. f_equal. f_equal.
    rewrite !take_ge by lia. done. }
  destruct (Z.ltb_spec (Z.of_nat (length acc)) max) as [Hlt|Hge].
  2:{ f_equal. symmetry. apply take_full; [fold acc; lia|nia]. }
  assert (Hacc : acc = take (i * p) l).
  { subst acc. apply take_ge. rewrite !length_take in *. lia. }
  assert (Hnew : acc ++ take (m - length acc) (r :: rs) = take m (take (S i * p) l)).
  { rewrite Hnext, <- Hacc, take_app. f_equal. symmetry. apply take_ge. lia. }
  fold m. rewrite Hnew. destruct (Z.leb_spec max (Z.of_nat (length (take m (take (S i * p) l))))) as [Hfull|_].
  - f_equal. symmetry. apply take_full; [lia|nia].
  - destruct n as [|n]; [by replace (i + 1)%nat with (S i) by lia|]. rewrite IH. do 3 f_equal. lia.
Qed.

(** ** What is recorded *)

(** The records that are recorded, when [known] are the hashes in the store. *)
Fixpoint fresh_records (known : list string) (l : list record) : list record :=
  match l with
  | [] => []
  | r :: l => if decide (r_id r ∈ known) then fresh_records known l else r :: fresh_records (known ++ [r_id r]) l
  end.

Definition hashes (t : Transaction.st) : list string := omap (λ o, Transaction.stellarTxId (Transaction.tx o)) (Transaction.loadTransactions t).

Lemma fresh_records_spec known l :
  NoDup (r_id <$> fresh_records known l) ∧
  ∀ h, h ∈ r_id <$> fresh_records known l ↔ h ∈ r_id <$> l ∧ h ∉ known.
Proof.
  revert known. induction l as [|r l IH]; intros known; cbn [fresh_records].
  - split; [constructor|]. intros h. set_solver.
  - destruct (decide (r_id r ∈ known)) as [Hin|Hin].
    + destruct (IH known) as [Hn Hm]. split; [done|]. intros h. rewrite Hm. set_solver.
    + destruct (IH (known ++ [r_id r])) as [Hn Hm]. split.
      * cbn. constructor; [|done]. rewrite Hm. set_solver.
      * intros h. cbn. rewrite elem_of_cons, Hm. destruct (decide (h = r_id r)); set_solver.
Qed.

Lemma getByStellarTxId_known t h : is_Some (Transaction.getByStellarTxId t (Some h)) ↔ h ∈ hashes t.
Proof.
  unfold Transaction.getByStellarTxId, hashes. rewrite list_elem_of_omap. split.
  - intros [o Ho]. apply find_first_Some in Ho as [Hin Hb]. exists o. split; [done|]. by apply bool_decide_eq_true in Hb.
  - intros (o & Hin & Ho). destruct (find_first _ _) eqn:Hf; [by eexists|].
    eapply find_first_None in Hf; [|exact Hin]. by apply bool_decide_eq_false in Hf.
Qed.

(** The object that a record becomes. *)
Definition recorded_as (now : Z) (r : record) (p : string * Transaction.obj) : Prop :=
  Transaction.tx p.2 = Transaction.new_transaction now p.1 (record_data r) TransactionState.CONFIRMED.

Lemma create_record now u r t :
  map_get (Transaction._store t) u = None →
  ∃ o t', Transaction.create now u (record_data r) t = (Ret o, t') ∧
    Transaction._store t' = Transaction._store t ++ [(u, o)] ∧ recorded_as now r (u, o).
Proof.
  intros Hu. destruct (Transaction.create_fresh now u (record_data r) t eq_refl eq_refl) as (t' & -> & Hst & _).
  eexists _, t'. split; [done|]. cbn [Transaction.d_id record_data Transaction.truthy_str from_option] in Hst.
  rewrite map_set_fresh in Hst by done. split; [exact Hst|done].
Qed.

Lemma record_all_spec now uuid l t :
  (∀ r, r ∈ l → r_id r ≠ "") → (∀ i j, uuid i = uuid j → i = j) → (∀ i, map_get (Transaction._store t) (uuid i) = None) →
  ∃ os t' added, record_all now uuid l t = (Ret os, t') ∧ os = added.*2 ∧
    Transaction._store t' = Transaction._store t ++ added ∧
    Forall2 (recorded_as now) (fresh_records (hashes t) l) added ∧ (∀ p, p ∈ added → ∃ i, p.1 = uuid i).
Proof.
  revert uuid t. induction l as [|r l IH]; intros uuid t Hids Hinj Hfresh.
  { exists [], t, []. rewrite app_nil_r. split_and!; try done. intros p Hp. by apply elem_of_nil in Hp. }
  cbn [record_all fresh_records]. stx_unfold.
  assert (Hl : ∀ r, r ∈ l → r_id r ≠ "") by (intros; apply Hids; set_solver).
  pose proof (getByStellarTxId_known t (r_id r)) as Hk.
  destruct (Transaction.getByStellarTxId t (Some (r_id r))) as [o|]; destruct (decide (r_id r ∈ hashes t)) as [Hin|Hin].
  - by apply IH.
  - destruct Hin. apply Hk. by eexists.
  - apply Hk in Hin as [? ?]. done.
  - destruct (create_record now (uuid O) r t (Hfresh O)) as (o & t1 & -> & Hst & Ho).
    destruct (IH (λ i, uuid (S i)) t1) as (os & t' & added & -> & -> & Hst' & Hf & Hu); [done| | |].
    + intros i j Hij. apply Hinj in Hij. lia.
    + intros i. rewrite Hst, map_get_app, Hfresh. cbn. rewrite decide_False; [done|]. intros He. by apply Hinj in He.
    + exists (o :: added.*2), t', ((uuid O, o) :: added). split_and!; [done|done| | |].
      * rewrite Hst', Hst, <- app_assoc. done.
      * constructor; [done|]. replace (hashes t ++ [r_id r]) with (hashes t1); [done|].
        unfold hashes, Transaction.loadTransactions. rewrite Hst, fmap_app, omap_app. f_equal. cbn. unfold recorded_as in Ho.
        cbn in Ho. rewrite Ho. cbn. by destruct (r_id r) eqn:Hr; [destruct (Hids r); [apply list_elem_of_here|]|].
      * intros p [->|Hp]%elem_of_cons; [by exists O|]. destruct (Hu p Hp) as [k ?]. by exists (S k).
Qed.

(** ** Theorems *)

(** Horizon lists the history of an account from the newest record on. *)
Definition lists_newest_first (publicKey : string) (history : list record) : Prop :=
  ∀ q, q_cursor q = None → q_ascending q = false → 0 < q_limit q →
    pages_of (Z.to_nat (q_limit q)) (reverse history) (horizon publicKey q).

Lemma fetch_newest publicKey history max maxPages :
  lists_newest_first publicKey history → 0 < max → 0 <= maxPages →
  _fetchHorizonTransactions publicKey max None (Some maxPages) =
    Ret (drop (length history - Z.to_nat (Z.min max (maxPages * Z.min 200 max))) history).
Proof.
  intros Hl Hm Hp. unfold _fetchHorizonTransactions. cbv zeta. cbn [Transaction.truthy_str from_option id].
  set (q := horizon_query None max).
  pose proof (read_pages_spec (Z.to_nat (q_limit q)) (reverse history) (horizon publicKey q) (Z.to_nat maxPages) max 0) as Hr.
  change (take (Z.to_nat max) (take (0 * Z.to_nat (q_limit q)) (reverse history))) with (take (Z.to_nat max) (@nil record)) in Hr.
  rewrite take_nil in Hr. rewrite Hr.
  - f_equal. rewrite take_take, reverse_take, reverse_involutive, length_reverse. f_equal. f_equal. cbn. lia.
  - cbn. lia.
  - apply Hl; [done..|]. cbn. lia.
Qed.

Definition ids_ok (l : list record) : Prop := ∀ r, r ∈ l → r_id r ≠ "".

(** A synchronisation records the newest records of the account that the store
    does not have, one donation each, in their order, and touches no other
    donation and no wallet: the cursor of the wallet is neither read nor
    written, so that older records are out of reach of every later one. *)
Theorem sync_newest now uuid publicKey max maxPages history s :
  lists_newest_first publicKey history → ids_ok history → 0 < max → 0 <= maxPages →
  (∀ i j, uuid i = uuid j → i = j) → (∀ i, map_get (Transaction._store (txs s)) (uuid i) = None) →
  (∀ w, w ∈ wallets s → w_id w ≠ undefined_text) →
  let newest := drop (length history - Z.to_nat (Z.min max (maxPages * Z.min 200 max))) history in
  ∃ added s', syncWalletTransactions now uuid publicKey max (Some maxPages) None s =
      (Ret (mk_result (Z.of_nat (length added)) added.*2 (paging_token <$> last newest)), s') ∧
    Transaction._store (txs s') = Transaction._store (txs s) ++ added ∧
    Forall2 (recorded_as now) (fresh_records (hashes (txs s)) newest) added ∧ wallets s' = wallets s.
Proof.
  intros Hl Hids Hm Hp Hinj Hfresh Hw. cbv zeta. unfold syncWalletTransactions. cbn [Transaction.or_else of_promise].
  rewrite (fetch_newest _ history) by done. set (newest := drop _ history). stx_unfold. unfold on_txs.
  destruct (record_all_spec now uuid newest (txs s)) as (os & t' & added & -> & -> & Hst & Hf & _); [|done..|].
  { intros r Hr. apply Hids. subst newest. exact (subseteq_drop _ _ _ Hr). }
  exists added. eexists. rewrite length_fmap. split; [done|]. cbn. split_and!; [done|done|].
  unfold update. rewrite <- (list_fmap_id (wallets s)) at 2. apply list_fmap_ext. intros i w Hi.
  rewrite bool_decide_false; [done|]. intros [He _]. apply list_elem_of_lookup_2 in Hi. by apply (Hw w).
Qed.

Lemma recorded_hash now r p : r_id r ≠ "" → recorded_as now r p → Transaction.stellarTxId (Transaction.tx p.2) = Some (r_id r).
Proof. intros Hr ->. cbn. by destruct (r_id r). Qed.

Lemma hashes_app t t' added : Transaction._store t' = Transaction._store t ++ added →
  hashes t' = hashes t ++ omap (λ o, Transaction.stellarTxId (Transaction.tx o)) added.*2.
Proof. intros Hst. unfold hashes, Transaction.loadTransactions. by rewrite Hst, fmap_app, omap_app. Qed.

(** Afterwards the store has the hashes it had and those of the records. *)
Lemma recorded_hashes now l t t' added :
  ids_ok l → Transaction._store t' = Transaction._store t ++ added →
  Forall2 (recorded_as now) (fresh_records (hashes t) l) added →
  ∀ h, h ∈ hashes t' ↔ h ∈ hashes t ∨ h ∈ r_id <$> l.
Proof.
  intros Hids Hst Hf h. rewrite (hashes_app _ _ _ Hst), elem_of_app.
  destruct (fresh_records_spec (hashes t) l) as [_ Hm].
  assert (Hsub : ∀ r, r ∈ fresh_records (hashes t) l → r_id r ≠ "").
  { intros r Hr. apply (list_elem_of_fmap_2 r_id), Hm in Hr as [Hr _]. apply list_elem_of_fmap in Hr as (r' & -> & Hr). by apply Hids. }
  assert (Ho : omap (λ o, Transaction.stellarTxId (Transaction.tx o)) added.*2 = r_id <$> fresh_records (hashes t) l).
  { clear Hst Hm. revert Hsub Hf. generalize (fresh_records (hashes t) l) as fr. intros fr Hsub Hf. induction Hf as [|r p fr ps Hrp _ IH]; [done|].
    cbn. rewrite (recorded_hash now r p), IH; [done|..]; [|by apply Hsub, list_elem_of_here|done].
    intros r' Hr'. by apply Hsub, list_elem_of_further. }
  rewrite Ho, Hm. destruct (decide (h ∈ hashes t)); tauto.
Qed.

Lemma fresh_records_known known l : (∀ r, r ∈ l → r_id r ∈ known) → fresh_records known l = [].
Proof.
  induction l as [|r l IH]; [done|]. intros Hl. cbn. rewrite decide_True by apply Hl, list_elem_of_here.
  apply IH. intros r' Hr'. by apply Hl, list_elem_of_further.
Qed.

(** A second synchronisation of the same history records nothing. *)
Theorem sync_idempotent now later uuid uuid' publicKey max maxPages history s :
  lists_newest_first publicKey history → ids_ok history → 0 < max → 0 <= maxPages →
  (∀ i j, uuid i = uuid j → i = j) → (∀ i, map_get (Transaction._store (txs s)) (uuid i) = None) →
  let s1 := (syncWalletTransactions now uuid publicKey max (Some maxPages) None s).2 in
  let '(r, s2) := syncWalletTransactions later uuid' publicKey max (Some maxPages) None s1 in
  (∃ c, r = Ret (mk_result 0 [] c)) ∧ txs s2 = txs s1.
Proof.
  intros Hl Hids Hm Hp Hinj Hfresh. cbv zeta. unfold syncWalletTransactions. cbn [Transaction.or_else of_promise].
  rewrite (fetch_newest _ history) by done. set (newest := drop _ history). stx_unfold. unfold on_txs.
  assert (Hn : ids_ok newest) by (intros r Hr; apply Hids; exact (subseteq_drop _ _ _ Hr)).
  destruct (record_all_spec now uuid newest (txs s)) as (os & t' & added & -> & -> & Hst & Hf & _); [done..|]. cbn.
  assert (Hnone : ∀ l u, (∀ r, r ∈ l → r_id r ∈ hashes t') → record_all later u l t' = (Ret [], t')).
  { clear. induction l as [|r l IH]; intros u Hl; [done|]. cbn [record_all]. stx_unfold.
    destruct (proj2 (getByStellarTxId_known t' (r_id r)) (Hl r ltac:(apply list_elem_of_here))) as [o ->].
    apply IH. intros r' Hr'. by apply Hl, list_elem_of_further. }
  rewrite Hnone; [by split; [eexists|]|]. intros r Hr. apply (recorded_hashes now newest (txs s) t' added); [done..|].
  right. by apply list_elem_of_fmap_2.
Qed.

(** What a wallet of the scheduler asks for. *)
Definition fetch_wallet (w : wallet) : outcome jserror (list record) := _fetchHorizonTransactions (address w) 500 None None.

Lemma sync_wallet_cases now uuid w s :
  (∀ l, fetch_wallet w = Ret l → ids_ok l) → (∀ i j, uuid i = uuid j → i = j) →
  (∀ i, map_get (Transaction._store (txs s)) (uuid i) = None) →
  ∃ s', (syncWalletTransactions now uuid (address w) 500 None None s).2 = s' ∧
    (∀ k, map_get (Transaction._store (txs s)) k = None → (∀ i, k ≠ uuid i) → map_get (Transaction._store (txs s')) k = None) ∧
    (∀ h, h ∈ hashes (txs s) → h ∈ hashes (txs s')) ∧
    match fetch_wallet w with
    | Ret l => is_ret (syncWalletTransactions now uuid (address w) 500 None None s).1 = true ∧
               ∀ r, r ∈ l → r_id r ∈ hashes (txs s')
    | Throw e => (syncWalletTransactions now uuid (address w) 500 None None s).1 = Throw e
    end.
Proof.
  intros Hids Hinj Hfresh. eexists. split; [reflexivity|]. unfold fetch_wallet in *. unfold syncWalletTransactions.
  cbn [Transaction.or_else of_promise]. stx_unfold. destruct (_fetchHorizonTransactions _ _ _ _) as [l|e]; [|done].
  specialize (Hids l eq_refl). unfold on_txs.
  destruct (record_all_spec now uuid l (txs s)) as (os & t' & added & -> & -> & Hst & Hf & Hu); [done..|]. cbn.
  pose proof (recorded_hashes now l (txs s) t' added Hids Hst Hf) as Hh. split_and!.
  - intros k Hk Hne. rewrite Hst, map_get_app, Hk. apply map_get_None. intros (p & -> & Hp)%list_elem_of_fmap.
    destruct (Hu p Hp) as [i Hi]. by apply (Hne i).
  - intros h Hin. apply Hh. by left.
  - done.
  - intros r Hr. apply Hh. right. by apply list_elem_of_fmap_2.
Qed.

(** The loop of the scheduler does not stop at a wallet that fails: it counts
    the failures, and every record of the wallets that could be read is in the
    store, whichever others failed. *)
Theorem loop_skips_failures now uuid l n e s :
  (∀ w r, w ∈ l → fetch_wallet w = Ret r → ids_ok r) →
  (∀ i j i' j', uuid i j = uuid i' j' → i = i' ∧ j = j') →
  (∀ i j, map_get (Transaction._store (txs s)) (uuid i j) = None) →
  let '(res, s') := sync_loop now uuid l n e s in
  (∃ total, res = Ret (total, e + Z.of_nat (length (filter (λ w, is_ret (fetch_wallet w) = false) l)))) ∧
  (∀ h, h ∈ hashes (txs s) → h ∈ hashes (txs s')) ∧
  ∀ w records r, w ∈ l → fetch_wallet w = Ret records → r ∈ records → r_id r ∈ hashes (txs s').
Proof.
  revert uuid n e s. induction l as [|w l IH]; intros uuid n e s Hids Hinj Hfresh; cbn [sync_loop].
  { stx_unfold. split_and!; [eexists; f_equal; f_equal; cbn; lia|done|]. intros w ?? Hw. by apply elem_of_nil in Hw. }
  destruct (sync_wallet_cases now (uuid O) w s) as (s1 & Hs1 & Hk & Hmono & Hcase).
  { intros r Hr. by eapply Hids; [apply list_elem_of_here|]. }
  { intros i j Hij. by apply Hinj in Hij as [_ ?]. }
  { apply Hfresh. }
  stx_unfold. unfold try_catch.
  assert (Hnext : ∀ n e, let '(res, s') := sync_loop now (λ i, uuid (S i)) l n e s1 in
    (∃ total, res = Ret (total, e + Z.of_nat (length (filter (λ w, is_ret (fetch_wallet w) = false) l)))) ∧
    (∀ h, h ∈ hashes (txs s1) → h ∈ hashes (txs s')) ∧
    ∀ w records r, w ∈ l → fetch_wallet w = Ret records → r ∈ records → r_id r ∈ hashes (txs s')).
  { intros n' e'. apply IH.
    - intros w' r Hw. by eapply Hids, list_elem_of_further.
    - intros i j i' j' Hij. apply Hinj in Hij as [??]. split; [lia|done].
    - intros i j. apply Hk; [apply Hfresh|]. intros k Hij. by apply Hinj in Hij as [? _]. }
  clear IH Hk. destruct (syncWalletTransactions now (uuid O) (address w) 500 None None s) as [res1 s1'].
  cbn [fst snd] in *. subst s1'. destruct (fetch_wallet w) as [recs|x] eqn:Hw.
  - destruct Hcase as [Hr Hrec]. destruct res1 as [r1|]; [|done]. specialize (Hnext (n + synced r1) (e + 0)).
    destruct (sync_loop _ _ _ _ _ _) as [res s']. destruct Hnext as ((total & ->) & Hm & Hin). split_and!.
    + exists total. rewrite filter_cons_False by by rewrite Hw. do 2 f_equal. lia.
    + intros h Hh. by apply Hm, Hmono.
    + intros w' records r [->|Hw']%elem_of_cons Hf Hr'; [|by eapply Hin]. rewrite Hw in Hf. injection Hf as <-. by apply Hm, Hrec.
  - subst res1. specialize (Hnext (n + 0) (e + 1)).
    destruct (sync_loop _ _ _ _ _ _) as [res s']. destruct Hnext as ((total & ->) & Hm & Hin). split_and!.
    + exists total. rewrite filter_cons_True by by rewrite Hw. cbn [length]. do 2 f_equal. lia.
    + intros h Hh. by apply Hm, Hmono.
    + intros w' records r [->|Hw']%elem_of_cons Hf Hr'; [|by eapply Hin]. by rewrite Hw in Hf.
Qed.

End service.
(** ** Examples *)

Definition ex_record (i memo : string) (at_ : Z) : record := mk_record i ("t" +:+ i) (Some memo) (Some at_) None None None (Some "GA"%string).
Definition ex_history : list record := [ex_record "h1" "a" 10; ex_record "h2" "b" 20; ex_record "h3" "c" 30].
(** An account with a history, for queries without a cursor. *)
Definition ex_horizon (history : list record) (_ : string) (q : query) (i : nat) : reply :=
  let p := Z.to_nat (q_limit q) in Page (take p (drop (i * p) (reverse history))).
Definition ex_uuid (n i : nat) : string := str_repeat (S n) "u"%char +:+ str_repeat (S i) "x"%char.
Definition ex_wallet : wallet := mk_wallet "w1" "GA" (Some "th1"%string) (Some 15) None None.
Definition ex_s0 : st := mk_st Transaction.init [ex_wallet].

Lemma ex_lists history : lists_newest_first (ex_horizon history) "GA" history.
Proof. intros q _ _ _ i. done. Qed.
Lemma str_repeat_inj c d m m' n n' : c ≠ d → str_repeat m c +:+ str_repeat n d = str_repeat m' c +:+ str_repeat n' d → m = m' ∧ n = n'.
Proof.
  intros Hne. revert m'. induction m as [|m IH]; intros [|m']; cbn.
  - intros H. split; [done|]. apply (f_equal String.length) in H. by rewrite !str_length_repeat in H.
  - destruct n; cbn; [done|]. intros [= -> _]. done.
  - destruct n'; cbn; [done|]. intros [= -> _]. done.
  - intros [= H]. apply IH in H as [-> ->]. done.
Qed.
Lemma ex_uuid_inj i j i' j' : ex_uuid i j = ex_uuid i' j' → i = i' ∧ j = j'.
Proof. intros H. apply str_repeat_inj in H as [??]; [|done]. lia. Qed.

Lemma ex_history_ids : ids_ok ex_history.
Proof. intros r. unfold ex_history. rewrite !elem_of_cons, elem_of_nil. intros [->|[->|[->|[]]]]; done. Qed.
Lemma ex_no_undefined w : w ∈ wallets ex_s0 → w_id w ≠ undefined_text.
Proof. cbn. rewrite elem_of_cons, elem_of_nil. intros [->|[]]; done. Qed.

(** The wallet was synchronised up to the first record; what is missing is not
    fetched from there: with a limit of one, the second record is never seen. *)
Example middle_record_missed :
  let s1 := (syncWalletTransactions (ex_horizon ex_history) None 100 (ex_uuid 0) "GA" 1 None None ex_s0).2 in
  let s2 := (syncWalletTransactions (ex_horizon ex_history) None 200 (ex_uuid 1) "GA" 1 None None s1).2 in
  hashes (txs s2) = ["h3"%string] ∧ wallets s2 = [ex_wallet].
Proof. by vm_compute. Qed.

(** Every tick of the leader throws before the first wallet. *)
Example scheduled_sync_throws :
  _runSync (ex_horizon ex_history) None 100 ex_uuid true ex_s0 = (Throw (EType "wallets is not iterable"), ex_s0).
Proof. by vm_compute. Qed.

Lemma sync_newest_witness :
  ∃ added s', syncWalletTransactions (ex_horizon ex_history) None 100 (ex_uuid 0) "GA" 2 (Some 5) None ex_s0 =
      (Ret (mk_result (Z.of_nat (length added)) added.*2 (Some "th3"%string)), s') ∧
    Forall2 (recorded_as 100) [ex_record "h2" "b" 20; ex_record "h3" "c" 30] added ∧ wallets s' = [ex_wallet].
Proof.
  destruct (sync_newest (ex_horizon ex_history) None 100 (ex_uuid 0) "GA" 2 5 ex_history ex_s0 (ex_lists _) ex_history_ids ltac:(done) ltac:(done)
    (λ i j H, proj2 (ex_uuid_inj 0 i 0 j H)) (λ i, eq_refl) ex_no_undefined) as (added & s' & Hr & _ & Hf & Hws).
  exists added, s'. split; [exact Hr|]. split; [exact Hf|exact Hws].
Defined.

Lemma sync_idempotent_witness :
  ∃ c, (syncWalletTransactions (ex_horizon ex_history) None 200 (ex_uuid 1) "GA" 2 (Some 5) None
     (syncWalletTransactions (ex_horizon ex_history) None 100 (ex_uuid 0) "GA" 2 (Some 5) None ex_s0).2).1 =
    Ret (mk_result 0 [] c).
Proof.
  pose proof (sync_idempotent (ex_horizon ex_history) None 100 200 (ex_uuid 0) (ex_uuid 1) "GA" 2 5 ex_history ex_s0 (ex_lists _) ex_history_ids
    ltac:(done) ltac:(done) (λ i j H, proj2 (ex_uuid_inj 0 i 0 j H)) (λ i, eq_refl)) as H.
  cbv zeta in H. revert H. generalize (syncWalletTransactions (ex_horizon ex_history) None 100 (ex_uuid 0) "GA" 2 (Some 5) None ex_s0).2 as s1.
  intros s1. generalize (syncWalletTransactions (ex_horizon ex_history) None 200 (ex_uuid 1) "GA" 2 (Some 5) None s1) as r.
  intros [r s2] [Hc _]. exact Hc.
Defined.

(** The first of two wallets cannot be read. *)
Definition ex_half (a : string) (q : query) (i : nat) : reply :=
  if bool_decide (a = "GB"%string) then Failed (EPlain "timeout") else ex_horizon ex_history a q i.
Definition ex_two : list wallet := [mk_wallet "w0" "GB" None None None None; ex_wallet].

Lemma loop_skips_failures_witness :
  let '(res, s') := sync_loop ex_half None 100 ex_uuid ex_two 0 0 ex_s0 in
  (∃ total, res = Ret (total, 1)) ∧ "h1"%string ∈ hashes (txs s').
Proof.
  assert (Hb : fetch_wallet ex_half None (mk_wallet "w0" "GB" None None None None) = Throw (EPlain "timeout")) by (vm_compute; reflexivity).
  assert (Ha : fetch_wallet ex_half None ex_wallet = Ret ex_history) by (vm_compute; reflexivity).
  assert (Hids : ∀ w r, w ∈ ex_two → fetch_wallet ex_half None w = Ret r → ids_ok r).
  { intros w r. unfold ex_two. rewrite !elem_of_cons, elem_of_nil. intros [->|[->|[]]].
    - rewrite Hb. discriminate.
    - rewrite Ha. intros [= <-]. exact ex_history_ids. }
  pose proof (loop_skips_failures ex_half None 100 ex_uuid ex_two 0 0 ex_s0 Hids ex_uuid_inj (λ i j, eq_refl)) as H.
  destruct (sync_loop _ _ _ _ _ _ _ _) as [res s']. destruct H as ((total & ->) & _ & Hin). split.
  - exists total. unfold ex_two. rewrite filter_cons_True by by rewrite Hb. rewrite filter_cons_False by by rewrite Ha. done.
  - refine (Hin ex_wallet ex_history (ex_record "h1" "a" 10) _ Ha _); [apply list_elem_of_further|]; apply list_elem_of_here.
Defined.

End Sync.
