(* ===== verification/Reconciliation.v ===== *)
(** * Reconciliation ([src/src/services/TransactionReconciliationService.js],
      [src/src/utils/confirmationChecker.js])

    The cycle that compares the donations in memory with the network, records
    transactions of the network that the table [transactions] does not have,
    and bumps the fees of stuck ones; the flags it leaves and their resolution;
    and the pass over donations that wait for confirmations.  A cycle is run to
    its end; the order in which the answers of the network arrive is an
    argument, as are the answers, the clock and the failures of the database.
    Logs and the cache of balances are left out. *)

From Stdlib Require Import Ascii SpecFloat.
From S2P Require Import Prelude JsString JsNumber JsMap JsJson Errors TransactionState Transaction FeeBump Donations Sync.
Local Open Scope Z_scope.

Module Reconciliation.
Import Transaction.

(** ** State *)

(** Why a donation is flagged. *)
Inductive reason :=
| AmountDrift (local onChain : num)
| MemoDrift (local onChain : string)
| StateRejected (stellarTxId status : string) (e : jserror).

Record flag := mk_flag { reconciliation_needed : bool; reconciliation_reason : option reason;
                         flagged_at : option Z; resolved_at : option Z }.
Definition no_flag : flag := mk_flag false None None None.

(** A row of the table [transactions], and what is to become one. *)
Record sql_row := mk_row {
  senderId : Z;
  receiverId : Z;
  r_amount : num;
  r_memo : option string;
  r_timestamp : Z;
  stellar_tx_id : option string;
  is_orphan : bool;
}.
Record orphan := mk_orphan {
  transactionId : string;
  source : option string;
  destination : option string;
  o_amount : string;
  o_memo : option string;
  o_timestamp : option Z;
}.

Record st := mk_st {
  bumps : FeeBump.st;                      (* with the transaction model *)
  flags : list (string * flag);            (* the flags on the objects of the store, by identifier *)
  users : list (Z * option string);        (* id, publicKey *)
  sql : list sql_row;
  reconciliationInProgress : bool;
  orphanedTransactionCount : Z;
  delivered : list string;                 (* transaction.confirmed *)
}.
Definition model (s : st) : Transaction.st := FeeBump.txs (bumps s).
Definition set_bumps (b : FeeBump.st) (s : st) : st :=
  mk_st b (flags s) (users s) (sql s) (reconciliationInProgress s) (orphanedTransactionCount s) (delivered s).
Definition set_flags (f : list (string * flag)) (s : st) : st :=
  mk_st (bumps s) f (users s) (sql s) (reconciliationInProgress s) (orphanedTransactionCount s) (delivered s).
Definition set_sql (l : list sql_row) (s : st) : st :=
  mk_st (bumps s) (flags s) (users s) l (reconciliationInProgress s) (orphanedTransactionCount s) (delivered s).
Definition set_progress (b : bool) (s : st) : st :=
  mk_st (bumps s) (flags s) (users s) (sql s) b (orphanedTransactionCount s) (delivered s).
Definition count_orphans (n : Z) (s : st) : st :=
  mk_st (bumps s) (flags s) (users s) (sql s) (reconciliationInProgress s) (orphanedTransactionCount s + n) (delivered s).
Definition deliver (i : string) (s : st) : st :=
  mk_st (bumps s) (flags s) (users s) (sql s) (reconciliationInProgress s) (orphanedTransactionCount s) (delivered s ++ [i]).

Definition M := stx jserror st.
Definition on_model {A} (m : Transaction.M A) : M A := λ s,
  let '(r, t) := m (model s) in (r, set_bumps (FeeBump.mk_st t (FeeBump.submissions (bumps s))) s).

(** ** Flags *)

Definition find_id (i : string) (t : Transaction.st) : option obj :=
  find_first (λ o, bool_decide (id (tx o) = i)) (loadTransactions t).
Definition flag_of (i : string) (s : st) : flag := default no_flag (map_get (flags s) i).

Definition flagDiscrepancy (now : Z) (txId : string) (r : reason) : M obj :=
  s ← get_st;
  match find_id txId (model s) with
  | None => throw (EPlain ("Transaction not found: " +:+ txId))
  | Some o =>
      modify_st (set_flags (map_set (flags s) txId (mk_flag true (Some r) (Some now) (resolved_at (flag_of txId s)))));;
      mret o
  end.

(** The status is set on the object itself, wherever it is referred to. *)
Definition raw_status (x : string) (t : transaction) : transaction := with_status t x (statusUpdatedAt t).
Definition set_in_place (o : obj) (x : string) (t : Transaction.st) : Transaction.st :=
  let f := λ p : string * obj, if Nat.eqb (oid p.2) (oid o) then (p.1, mk_obj (oid p.2) (raw_status x (tx p.2))) else p in
  set_index (set_store t (f <$> _store t)) (f <$> _idempotencyIndex t).

Definition resolveDiscrepancy (now : Z) (txId newStatus : string) : M obj :=
  s ← get_st;
  match find_id txId (model s) with
  | None => throw (EPlain ("Transaction not found: " +:+ txId))
  | Some o =>
      let f := flag_of txId s in
      modify_st (set_flags (map_set (flags s) txId (mk_flag false (reconciliation_reason f) (flagged_at f) (Some now))));;
      on_model (modify_st (set_in_place o newStatus));;
      mret (mk_obj (oid o) (raw_status newStatus (tx o)))
  end.

Definition getDiscrepancies (s : st) : list obj :=
  filter (λ o, reconciliation_needed (flag_of (id (tx o)) s) = true) (loadTransactions (model s)).

(** ** Known transactions *)

Record chain_tx := mk_chain { c_ledger : option Z; c_amount : option string; c_memo : option string }.
Inductive verification := Verified (t : option chain_tx) | NotVerified | VerifyFailed (status404 : bool) (e : jserror).

(** [parseFloat(x || '0')] on the text of the network and on the stored number. *)
Definition chain_amount (c : chain_tx) : num := parse_float (default "0" (truthy_str (c_amount c))).
Definition local_amount (t : transaction) : num := if num_truthy (amount t) then parse_float (num_to_string (amount t)) else num_zero.

Definition _checkFieldDrift (now : Z) (t : transaction) (result : option chain_tx) : M () :=
  match result with
  | None => mret ()
  | Some c =>
      let on := chain_amount c in
      let here := local_amount t in
      when (num_gtb on num_zero && num_gtb here num_zero && num_gtb (SFabs (num_sub on here)) (num_of_dec false 1 (-7)))
        (flagDiscrepancy now (id t) (AmountDrift here on);; mret ());;
      match truthy_str (Some (memo t)), truthy_str (c_memo c) with
      | Some m, Some m' => when (negb (bool_decide (m = m'))) (flagDiscrepancy now (id t) (MemoDrift m m');; mret ())
      | _, _ => mret ()
      end
  end.

Definition confirmation (now : Z) (h : string) (c : option chain_tx) : stellar_data :=
  {| sd_transactionId := Some h; sd_ledger := c ≫= c_ledger; sd_confirmedAt := Some now; sd_notes := None; sd_tags := None |}.

(** [t] is the transaction as it was when the cycle began. *)
Definition reconcileTransaction (now : Z) (verify : string → verification) (t : transaction) : M bool :=
  match truthy_str (stellarTxId t) with
  | None => mret false
  | Some h =>
      match verify h with
      | NotVerified => mret false
      | VerifyFailed status404 e => if status404 then mret false else throw e
      | Verified c =>
          _checkFieldDrift now t c;;
          if bool_decide (status t = CONFIRMED) then mret false
          else
            try_catch (on_model (updateStatus now (id t) (Some CONFIRMED) (confirmation now h c));; modify_st (deliver (id t)))
                      (λ e, flagDiscrepancy now (id t) (StateRejected h (status t) e);; mret ());;
            mret true
      end
  end.

(** [Promise.allSettled]: corrected and failed ones, in the order of arrival. *)
Fixpoint settle_all (now : Z) (verify : string → verification) (l : list obj) (corrected errors : Z) : M (Z * Z) :=
  match l with
  | [] => mret (corrected, errors)
  | o :: l =>
      '(c, e) ← try_catch (b ← reconcileTransaction now verify (tx o); mret (if (b : bool) then 1 else 0, 0)) (λ _, mret (0, 1));
      settle_all now verify l (corrected + c) (errors + e)
  end.

Definition txsToCheck (t : Transaction.st) : list obj := getByStatus t (Some PENDING) ++ getByStatus t (Some SUBMITTED).

(** ** Orphans *)

(** The first of each identifier. *)
Fixpoint distinct (seen : list string) (l : list orphan) : list orphan :=
  match l with
  | [] => []
  | o :: l => if bool_decide (transactionId o ∈ seen) then distinct seen l else o :: distinct (seen ++ [transactionId o]) l
  end.

(** A record of the mock service: [transactionId], or else [hash]. *)
Record mock_tx := mk_mock { m_transactionId : option string; m_hash : option string; m_rest : orphan }.
Definition mock_orphan (m : mock_tx) : option orphan :=
  (λ i, mk_orphan i (source (m_rest m)) (destination (m_rest m)) (o_amount (m_rest m)) (o_memo (m_rest m)) (o_timestamp (m_rest m)))
  <$> or_else (truthy_str (m_transactionId m)) (truthy_str (m_hash m)).
(** [None] for a service that is not the mock. *)
Definition _getAllStellarTransactions (transactions : option (list (list mock_tx))) : list orphan :=
  match transactions with Some ls => distinct [] (omap mock_orphan (concat ls)) | None => [] end.

Definition horizon_orphan (r : Sync.record) : orphan :=
  mk_orphan (Sync.r_id r) (Sync.source_account r) (or_else (truthy_str (Sync.op_to r)) (Sync.source_account r))
    (default "0" (truthy_str (Sync.op_amount r))) (truthy_str (Sync.r_memo r)) (Sync.created_at r).
(** Whatever fails gives no records; [None] when the service has no server. *)
Definition _fetchHorizonTransactions (answer : option (outcome jserror (list Sync.record))) : list orphan :=
  match answer with Some (Ret l) => horizon_orphan <$> l | _ => [] end.

Definition user_of (key : option string) (s : st) : option Z :=
  k ← key; fst <$> find_first (λ u, bool_decide (u.2 = Some k)) (users s).

(** [INSERT OR IGNORE]: a row that violates NOT NULL or UNIQUE is not inserted;
    NaN is stored as NULL. *)
Definition insert_or_ignore (sender receiver : option Z) (amount_ : num) (m : option string) (at_ : Z) (h : string) (t : list sql_row) : list sql_row :=
  match sender, receiver with
  | Some a, Some b =>
      if num_is_nan amount_ || bool_decide (Some h ∈ stellar_tx_id <$> t) then t
      else t ++ [mk_row a b amount_ m at_ (Some h) true]
  | _, _ => t
  end.

Definition compensateOrphan (now : Z) (db_ok : bool) (o : orphan) : M bool :=
  if db_ok then
    modify_st (λ s, set_sql (insert_or_ignore (user_of (source o) s) (user_of (destination o) s) (parse_float (o_amount o))
      (truthy_str (o_memo o)) (default now (o_timestamp o)) (transactionId o) (sql s)) s);;
    mret true
  else mret false.

Fixpoint compensate_all (now : Z) (db_ok : string → bool) (l : list orphan) (compensated : Z) : M Z :=
  match l with
  | [] => mret compensated
  | o :: l => b ← compensateOrphan now (db_ok (transactionId o)) o;
              compensate_all now db_ok l (compensated + if (b : bool) then 1 else 0)
  end.

(** What a cycle meets. *)
Record env := mk_env {
  now : Z;
  verify : string → verification;
  arrival : list obj → list obj;
  known_ok : bool;                                        (* SELECT stellar_tx_id *)
  mock : option (list (list mock_tx));
  wallets_ok : bool;                                      (* SELECT DISTINCT publicKey *)
  horizon : string → option (outcome jserror (list Sync.record));
  orphan_ok : string → bool;                              (* the statements of compensateOrphan *)
  estimate : string → outcome jserror Z;
  bump_answer : string → outcome jserror FeeBump.answer;
}.

Definition walletKeys (s : st) : list string := remove_dups (omap (λ u, truthy_str u.2) (users s)).
Definition chain_txs (e : env) (s : st) : list orphan :=
  _getAllStellarTransactions (mock e) ++
  (if wallets_ok e then distinct [] (concat ((λ k, _fetchHorizonTransactions (horizon e k)) <$> walletKeys s)) else []).
Definition orphans_of (e : env) (s : st) : list orphan :=
  filter (λ o, Some (transactionId o) ∉ stellar_tx_id <$> sql s) (chain_txs e s).

(** Detected and compensated. *)
Definition detectAndCompensateOrphans (e : env) : M (Z * Z) :=
  s ← get_st;
  if known_ok e then
    let orphans := orphans_of e s in
    let n := Z.of_nat (length orphans) in
    match orphans with
    | [] => mret (0, 0)
    | _ => modify_st (count_orphans n);; c ← compensate_all (now e) (orphan_ok e) orphans 0; mret (n, c)
    end
  else mret (0, 0).

(** ** The cycle *)

Record report := mk_report { corrected : Z; errors : Z; orphansDetected : Z; orphansCompensated : Z; feeBumpsApplied : Z; feeBumpErrors : Z }.
Definition idle : report := mk_report 0 0 0 0 0 0.

Section service.
Context (maxAttempts stuckThresholdMs maxFeeCapStroops : Z).

Definition processStuckTransactions (e : env) : M FeeBump.tally := λ s,
  let '(t, b) := FeeBump.processStuckTransactions maxAttempts stuckThresholdMs maxFeeCapStroops (now e) (estimate e) (bump_answer e) (bumps s) in
  (Ret t, set_bumps b s).

Definition reconcile (e : env) : M report :=
  s ← get_st;
  if reconciliationInProgress s then mret idle
  else
    modify_st (set_progress true);;
    r ← try_catch
      ('(c, x) ← settle_all (now e) (verify e) (arrival e (txsToCheck (model s))) 0 0;
       '(d, k) ← detectAndCompensateOrphans e;
       t ← processStuckTransactions e;
       mret (mk_report c x d k (FeeBump.succeeded t) (FeeBump.failures t)))
      (λ _, mret (mk_report 0 1 0 0 0 0));
    modify_st (set_progress false);;
    mret r.
End service.

(** ** Known transactions *)

Definition checked (o : obj) : bool := bool_decide (status (tx o) ∈ [PENDING; SUBMITTED]).
Definition answer_for (v : string → verification) (o : obj) : verification :=
  match truthy_str (stellarTxId (tx o)) with Some h => v h | None => NotVerified end.
Definition verified (v : string → verification) (o : obj) : bool := match answer_for v o with Verified _ => true | _ => false end.
Definition unreachable (v : string → verification) (o : obj) : bool := match answer_for v o with VerifyFailed false _ => true | _ => false end.

Lemma find_id_stored t i o : inv t → map_get (_store t) i = Some o → find_id i t = Some o.
Proof.
  intros Hi Ho. unfold find_id. pose proof (inv_id _ Hi _ _ Ho) as Hid.
  assert (Hin : o ∈ loadTransactions t) by exact (list_elem_of_fmap_2 snd _ _ (map_get_Some_elem _ _ _ Ho)).
  destruct (find_first _ _) as [p|] eqn:Hf.
  - apply find_first_Some in Hf as [Hp Hb]. apply bool_decide_eq_true in Hb.
    apply list_elem_of_fmap in Hp as ([k p'] & -> & Hp). apply map_get_elem in Hp; [|apply Hi].
    pose proof (inv_id _ Hi _ _ Hp) as Hk. cbn in *. congruence.
  - eapply find_first_None in Hf; [|exact Hin]. by apply bool_decide_eq_false in Hf.
Qed.

Lemma flag_run now i r s o : find_id i (model s) = Some o →
  flagDiscrepancy now i r s =
    (Ret o, set_flags (map_set (flags s) i (mk_flag true (Some r) (Some now) (resolved_at (flag_of i s)))) s).
Proof. intros Ho. unfold flagDiscrepancy. stx_unfold. by rewrite Ho. Qed.

(** The two comparisons with the network. *)
Definition amount_differs (t : transaction) (c : chain_tx) : bool :=
  num_gtb (chain_amount c) num_zero && num_gtb (local_amount t) num_zero &&
  num_gtb (SFabs (num_sub (chain_amount c) (local_amount t))) (num_of_dec false 1 (-7)).
Definition memo_differs (t : transaction) (c : chain_tx) : bool :=
  match truthy_str (Some (memo t)), truthy_str (c_memo c) with
  | Some m, Some m' => negb (bool_decide (m = m'))
  | _, _ => false
  end.

Lemma drift_run now t c s o : find_id (id t) (model s) = Some o →
  ∃ f, _checkFieldDrift now t c s = (Ret (), set_flags f s) ∧
       reconciliation_needed (flag_of (id t) (set_flags f s)) =
         reconciliation_needed (flag_of (id t) s) || (match c with Some c => amount_differs t c || memo_differs t c | None => false end).
Proof.
  intros Ho. unfold _checkFieldDrift. destruct c as [c|].
  2:{ exists (flags s). destruct s. rewrite orb_false_r. done. }
  cbv zeta. fold (amount_differs t c). set (ms := match truthy_str (Some (memo t)) with Some _ => _ | None => _ end).
  assert (Hms : ∀ s, find_id (id t) (model s) = Some o → ∃ f, ms s = (Ret (), set_flags f s) ∧
    reconciliation_needed (flag_of (id t) (set_flags f s)) = reconciliation_needed (flag_of (id t) s) || memo_differs t c).
  { clear s Ho. intros s Ho. subst ms. unfold memo_differs. destruct (truthy_str (Some (memo t))) as [m|];
      [destruct (truthy_str (c_memo c)) as [m'|]|]; try (exists (flags s); destruct s; rewrite orb_false_r; done).
    destruct (negb (bool_decide (m = m'))); cbn [when].
    - stx_unfold. rewrite (flag_run _ _ _ _ _ Ho). eexists. split; [reflexivity|].
      unfold flag_of. cbn [flags set_flags]. rewrite map_get_set_eq. cbn. by rewrite orb_true_r.
    - exists (flags s). destruct s. rewrite orb_false_r. done. }
  destruct (amount_differs t c); cbn [when orb].
  - stx_unfold. rewrite (flag_run _ _ _ _ _ Ho). cbn.
    destruct (Hms (set_flags (map_set (flags s) (id t) (mk_flag true (Some (AmountDrift (local_amount t) (chain_amount c))) (Some now)
      (resolved_at (flag_of (id t) s)))) s) Ho) as (f & Hf & Hn). exists f. split; [exact Hf|]. etrans; [exact Hn|].
    unfold flag_of at 1. cbn [flags set_flags]. rewrite map_get_set_eq. cbn. by rewrite orb_true_r.
  - stx_unfold. by apply Hms.
Qed.

Lemma reconcile_known now v o s :
  inv (model s) → map_get (_store (model s)) (id (tx o)) = Some o → checked o = true →
  let '(r, s') := reconcileTransaction now v (tx o) s in
  r = (match answer_for v o with Verified _ => Ret true | VerifyFailed false e => Throw e | _ => Ret false end) ∧
  if verified v o
  then inv (model s') ∧ (∀ i, i ≠ id (tx o) → map_get (_store (model s')) i = map_get (_store (model s)) i) ∧
       ∃ p, map_get (_store (model s')) (id (tx o)) = Some p ∧ status (tx p) = CONFIRMED ∧ stellarTxId (tx p) = stellarTxId (tx o)
  else s' = s.
Proof.
  intros Hi Ho Hc. unfold reconcileTransaction, verified, answer_for. destruct (truthy_str (stellarTxId (tx o))) as [h|] eqn:Hh; [|done].
  destruct (v h) as [c| |b e]; [|done|by destruct b]. stx_unfold.
  destruct (drift_run now (tx o) c s o) as (f & -> & _); [by apply find_id_stored|].
  apply bool_decide_eq_true in Hc. rewrite bool_decide_false by (rewrite !elem_of_cons, elem_of_nil in Hc; destruct Hc as [->|[->|[]]]; done).
  unfold try_catch. stx_unfold. unfold on_model. change (model (set_flags f s)) with (model s).
  assert (Hr : ∃ p t', updateStatus now (id (tx o)) (Some CONFIRMED) (confirmation now h c) (model s) = (Ret p, t') ∧
    _store t' = map_set (_store (model s)) (id (tx o)) p ∧ status (tx p) = CONFIRMED ∧ stellarTxId (tx p) = stellarTxId (tx o)).
  { rewrite updateStatus_run, Ho. cbv zeta.
    rewrite !elem_of_cons, elem_of_nil in Hc. destruct Hc as [Hs|[Hs|[]]]; rewrite Hs.
    all: cbn -[canTransition CONFIRMED status_event map_set]; eexists _, _; split; [reflexivity|]; split; [reflexivity|];
      split; [reflexivity|]; cbn -[map_set]; revert Hh; unfold truthy_str; destruct (stellarTxId (tx o)) as [[|a z]|]; cbn; try done;
      by intros [= <-]. }
  destruct Hr as (p & t' & Hu & Hst & Hsp & Hhp). pose proof (updateStatus_inv now (id (tx o)) (Some CONFIRMED) (confirmation now h c) (model s) Hi) as Hinv.
  rewrite Hu in Hinv |- *. cbn. split; [done|]. change (model (deliver _ _)) with t'. split_and!; [exact Hinv| |].
  - intros i Hne. rewrite Hst. by apply map_get_set_ne.
  - exists p. rewrite Hst, map_get_set_eq. done.
Qed.

(** What becomes of the object [o] when it is among those of the cycle. *)
Definition outcome_of (v : string → verification) (o p : obj) : Prop :=
  if verified v o then status (tx p) = CONFIRMED ∧ stellarTxId (tx p) = stellarTxId (tx o) else p = o.

Definition tally_by (f : obj → bool) (l : list obj) : Z := Z.of_nat (length (filter (λ o, f o = true) l)).

Lemma tally_cons f o l : tally_by f (o :: l) = (if f o then 1 else 0) + tally_by f l.
Proof. unfold tally_by. rewrite filter_cons. case_decide as H; [rewrite H; cbn [length]; lia|]. by destruct (f o). Qed.

Lemma settle_all_spec now v l c e s :
  inv (model s) → NoDup ((λ o, id (tx o)) <$> l) →
  (∀ o, o ∈ l → map_get (_store (model s)) (id (tx o)) = Some o ∧ checked o = true) →
  ∃ s', settle_all now v l c e s = (Ret (c + tally_by (verified v) l, e + tally_by (unreachable v) l), s') ∧ inv (model s') ∧
    (∀ i, i ∉ (λ o, id (tx o)) <$> l → map_get (_store (model s')) i = map_get (_store (model s)) i) ∧
    (∀ o, o ∈ l → ∃ p, map_get (_store (model s')) (id (tx o)) = Some p ∧ outcome_of v o p).
Proof.
  revert c e s. induction l as [|o l IH]; intros c e s Hi Hnd Hl; cbn [settle_all].
  { exists s. change (tally_by _ []) with 0. rewrite !Z.add_0_r. split_and!; [done|done|done|]. intros o Ho. by apply elem_of_nil in Ho. }
  apply NoDup_cons in Hnd as [Hnotin Hnd]. destruct (Hl o ltac:(apply list_elem_of_here)) as [Ho Hc].
  pose proof (reconcile_known now v o s Hi Ho Hc) as Hk. unfold try_catch. stx_unfold.
  destruct (reconcileTransaction now v (tx o) s) as [r s1]. destruct Hk as [-> Hk].
  assert (Hs1 : inv (model s1) ∧ (∀ i, i ≠ id (tx o) → map_get (_store (model s1)) i = map_get (_store (model s)) i) ∧
    ∃ p, map_get (_store (model s1)) (id (tx o)) = Some p ∧ outcome_of v o p).
  { unfold outcome_of. destruct (verified v o); [exact Hk|subst s1]. split_and!; [done|done|]. by exists o. }
  destruct Hs1 as (Hi1 & Hother & p & Hp & Hout).
  assert (Hl1 : ∀ o', o' ∈ l → map_get (_store (model s1)) (id (tx o')) = Some o' ∧ checked o' = true).
  { intros o' Ho'. rewrite Hother; [by apply Hl, list_elem_of_further|]. intros He. apply Hnotin. rewrite <- He.
    exact (list_elem_of_fmap_2 (λ o, id (tx o)) l o' Ho'). }
  assert (Hgo : ∀ c' e', c' = c + (if verified v o then 1 else 0) → e' = e + (if unreachable v o then 1 else 0) →
    ∃ s', settle_all now v l c' e' s1 = (Ret (c + tally_by (verified v) (o :: l), e + tally_by (unreachable v) (o :: l)), s') ∧ inv (model s') ∧
    (∀ i, i ∉ (λ o, id (tx o)) <$> o :: l → map_get (_store (model s')) i = map_get (_store (model s)) i) ∧
    (∀ o', o' ∈ o :: l → ∃ p, map_get (_store (model s')) (id (tx o')) = Some p ∧ outcome_of v o' p)).
  { intros c' e' -> ->. destruct (IH (c + (if verified v o then 1 else 0)) (e + (if unreachable v o then 1 else 0)) s1 Hi1 Hnd Hl1)
      as (s' & -> & Hi' & Hother' & Hin'). exists s'. rewrite !tally_cons. split_and!; [do 3 f_equal; lia|done| |].
    - intros i Hn. cbn in Hn. apply not_elem_of_cons in Hn as [Hne Hn]. rewrite Hother' by done. by apply Hother.
    - intros o' [->|Ho']%elem_of_cons; [|by apply Hin']. exists p. split; [|done]. by rewrite Hother'. }
  revert Hgo. unfold verified, unreachable. destruct (answer_for v o) as [?| |[|] ?]; intros Hgo; apply Hgo; lia.
Qed.

Lemma stored_ids t : inv t →
  (∀ o, o ∈ loadTransactions t ↔ map_get (_store t) (id (tx o)) = Some o) ∧ NoDup ((λ o, id (tx o)) <$> loadTransactions t).
Proof.
  intros Hi. split.
  - intros o. split.
    + intros ([k p] & -> & Hp)%list_elem_of_fmap. apply map_get_elem in Hp; [|apply Hi]. cbn. by rewrite (inv_id _ Hi _ _ Hp).
    + intros Ho. exact (list_elem_of_fmap_2 snd _ _ (map_get_Some_elem _ _ _ Ho)).
  - replace ((λ o, id (tx o)) <$> loadTransactions t) with ((_store t).*1); [apply Hi|].
    unfold loadTransactions. rewrite <- list_fmap_compose. symmetry. apply list_fmap_ext. intros n [k o] Hk. cbn.
    apply (inv_id _ Hi). apply map_get_elem; [apply Hi|]. by eapply list_elem_of_lookup_2.
Qed.

Lemma by_status_ids t x : inv t → NoDup ((λ o, id (tx o)) <$> getByStatus t (Some x)) ∧
  ∀ o, o ∈ getByStatus t (Some x) ↔ status (tx o) = x ∧ map_get (_store t) (id (tx o)) = Some o.
Proof.
  intros Hi. destruct (stored_ids t Hi) as [Hin Hnd]. unfold getByStatus. split.
  - eapply sublist_NoDup; [exact Hnd|]. by apply fmap_sublist, sublist_filter.
  - intros o. rewrite list_elem_of_filter, Hin. split; intros [Hs ?]; split; congruence.
Qed.

Lemma checked_ids t : inv t → NoDup ((λ o, id (tx o)) <$> txsToCheck t) ∧
  ∀ o, o ∈ txsToCheck t ↔ map_get (_store t) (id (tx o)) = Some o ∧ checked o = true.
Proof.
  intros Hi. destruct (by_status_ids t PENDING Hi) as [Hn1 H1], (by_status_ids t SUBMITTED Hi) as [Hn2 H2]. split.
  - unfold txsToCheck. rewrite fmap_app. apply NoDup_app. split_and!; [done| |done].
    intros i (o & -> & Ho)%list_elem_of_fmap (p & Hp & Hp')%list_elem_of_fmap. apply H1 in Ho as [Hs Ho]. apply H2 in Hp' as [Hs' Hp'].
    rewrite <- Hp in Hp'. rewrite Ho in Hp'. injection Hp' as ->. by rewrite Hs in Hs'.
  - intros o. unfold txsToCheck, checked. rewrite elem_of_app, H1, H2, bool_decide_eq_true, !elem_of_cons, elem_of_nil. tauto.
Qed.

(** C30: In whatever order the answers arrive, a cycle confirms exactly the pending
    and submitted donations whose transaction the network has, keeps their
    transaction, and leaves every other donation as it is; it counts them, and
    those it could not ask about. *)
Theorem known_reconciled now v arrived s :
  inv (model s) → arrived ≡ₚ txsToCheck (model s) →
  ∃ s', settle_all now v arrived 0 0 s =
    (Ret (tally_by (verified v) (txsToCheck (model s)), tally_by (unreachable v) (txsToCheck (model s))), s') ∧
    ∀ i o, map_get (_store (model s)) i = Some o →
      ∃ p, map_get (_store (model s')) i = Some p ∧
           if checked o && verified v o then status (tx p) = CONFIRMED ∧ stellarTxId (tx p) = stellarTxId (tx o) else p = o.
Proof.
  intros Hi Hp. destruct (checked_ids _ Hi) as [Hnd Hin].
  assert (Ht : ∀ f, tally_by f arrived = tally_by f (txsToCheck (model s))) by (intros f; unfold tally_by; by rewrite Hp).
  destruct (settle_all_spec now v arrived 0 0 s Hi) as (s' & Hrun & _ & Hother & Hdone).
  { by rewrite Hp. }
  { intros o Ho. apply Hin. by rewrite <- Hp. }
  exists s'. rewrite Hrun, !Ht, !Z.add_0_l. split; [done|]. intros i o Ho. pose proof (inv_id _ Hi _ _ Ho) as Hid. subst i.
  destruct (checked o) eqn:Hc; cbn [andb].
  - destruct (Hdone o) as (p & Hpp & Hout); [rewrite Hp; by apply Hin|]. by exists p.
  - exists o. split; [|done]. rewrite Hother; [done|]. intros (o' & He & Ho')%list_elem_of_fmap. rewrite Hp in Ho'.
    apply Hin in Ho' as [Ho' Hc']. rewrite <- He, Ho in Ho'. injection Ho' as ->. by rewrite Hc in Hc'.
Qed.

(** A second cycle with the same answers finds nothing to confirm. *)
Theorem cycle_settles now later v arrived arrived' s :
  inv (model s) → arrived ≡ₚ txsToCheck (model s) →
  let s1 := (settle_all now v arrived 0 0 s).2 in
  arrived' ≡ₚ txsToCheck (model s1) →
  ∃ e, (settle_all later v arrived' 0 0 s1).1 = Ret (0, e).
Proof.
  intros Hi Hp. cbv zeta. destruct (checked_ids _ Hi) as [Hnd Hin].
  destruct (settle_all_spec now v arrived 0 0 s Hi) as (s1 & Hrun & Hi1 & Hother & Hdone).
  { by rewrite Hp. }
  { intros o Ho. apply Hin. by rewrite <- Hp. }
  rewrite Hrun. cbn [snd]. intros Hp'. destruct (checked_ids _ Hi1) as [Hnd1 Hin1].
  destruct (settle_all_spec later v arrived' 0 0 s1 Hi1) as (s2 & -> & _).
  { by rewrite Hp'. }
  { intros o Ho. apply Hin1. by rewrite <- Hp'. }
  eexists. cbn. f_equal. f_equal. unfold tally_by. rewrite Hp'. enough (filter (λ o, verified v o = true) (txsToCheck (model s1)) = []) as -> by done.
  apply filter_none, Forall_forall. intros o Ho Hv. apply Hin1 in Ho as [Ho Hc].
  destruct (decide (id (tx o) ∈ (λ o, id (tx o)) <$> arrived)) as [Hm|Hm].
  - apply list_elem_of_fmap in Hm as (o' & He & Ho'). destruct (Hdone o' Ho') as (p & Hpp & Hout).
    rewrite <- He, Ho in Hpp. injection Hpp as <-. unfold outcome_of in Hout.
    destruct (verified v o') eqn:Hv'; [|subst o'; congruence]. destruct Hout as [Hs _].
    unfold checked in Hc. by rewrite Hs in Hc.
  - rewrite Hother in Ho by done. apply Hm. apply (list_elem_of_fmap_2 (λ o, id (tx o))). rewrite Hp. by apply Hin.
Qed.

(** ** Drift *)

(** A confirmed transaction whose amount or memo differs from what is stored
    is flagged, and no other one is. *)
Theorem drift_flagged now t c s o : find_id (id t) (model s) = Some o →
  reconciliation_needed (flag_of (id t) (_checkFieldDrift now t (Some c) s).2) =
    reconciliation_needed (flag_of (id t) s) || amount_differs t c || memo_differs t c.
Proof.
  intros Ho. destruct (drift_run now t (Some c) s o Ho) as (f & -> & Hn). cbn [snd]. rewrite Hn. by rewrite orb_assoc.
Qed.

(** ** Orphans *)

(** A row can be made of it: both parties are users and the amount is a number. *)
Definition recordable (o : orphan) (s : st) : Prop :=
  is_Some (user_of (source o) s) ∧ is_Some (user_of (destination o) s) ∧ num_is_nan (parse_float (o_amount o)) = false.

Definition hashes (l : list sql_row) : list string := omap stellar_tx_id l.
Lemma hashes_elem h l : h ∈ hashes l ↔ Some h ∈ stellar_tx_id <$> l.
Proof. unfold hashes. rewrite list_elem_of_omap, list_elem_of_fmap. split; intros (r & ? & ?); exists r; auto. Qed.

Lemma insert_orphan_spec a b x m n h t :
  ∃ extra, insert_or_ignore a b x m n h t = t ++ extra ∧ (∀ r, r ∈ extra → is_orphan r = true ∧ stellar_tx_id r = Some h) ∧
    (NoDup (hashes t) → NoDup (hashes (t ++ extra))) ∧
    (is_Some a → is_Some b → num_is_nan x = false → h ∈ hashes (t ++ extra)) ∧
    (a = None ∨ b = None → extra = []).
Proof.
  assert (Hnone : ∃ extra : list sql_row, t = t ++ extra ∧ (∀ r, r ∈ extra → is_orphan r = true ∧ stellar_tx_id r = Some h) ∧
    (NoDup (hashes t) → NoDup (hashes (t ++ extra))) ∧ extra = []).
  { exists []. rewrite app_nil_r. split_and!; try done. intros r Hr. by apply elem_of_nil in Hr. }
  destruct Hnone as (ex & Hex & Hr & Hn & ->). rewrite app_nil_r in *. unfold insert_or_ignore.
  destruct a as [a|], b as [b|].
  2-4: exists []; rewrite app_nil_r; split_and!; auto; intros [? ?] [? ?]; done.
  destruct (num_is_nan x) eqn:Hx; cbn [orb].
  { exists []. rewrite app_nil_r. split_and!; naive_solver. }
  case_bool_decide as Hin; cbn [orb].
  { apply hashes_elem in Hin. exists []. rewrite app_nil_r. split_and!; naive_solver. }
  eexists. split; [reflexivity|]. split_and!.
  - by intros r ->%list_elem_of_singleton.
  - intros Ht. unfold hashes in *. rewrite omap_app. cbn. apply NoDup_app. split_and!; [done| |apply NoDup_singleton].
    intros h' Hh' ->%list_elem_of_singleton. apply Hin. by apply hashes_elem.
  - intros. unfold hashes. rewrite omap_app, elem_of_app. right. cbn. apply list_elem_of_here.
  - intros [?|?]; done.
Qed.

Lemma compensate_all_spec now ok l n s :
  ∃ extra s', compensate_all now ok l n s = (Ret (n + Z.of_nat (length (filter (λ o, ok (transactionId o) = true) l))), s') ∧
    s' = set_sql (sql s ++ extra) s ∧
    (∀ r, r ∈ extra → is_orphan r = true ∧ ∃ o, o ∈ l ∧ stellar_tx_id r = Some (transactionId o)) ∧
    (NoDup (hashes (sql s)) → NoDup (hashes (sql s ++ extra))) ∧
    (∀ o, o ∈ l → ok (transactionId o) = true → recordable o s → transactionId o ∈ hashes (sql s ++ extra)) ∧
    ((∀ o, o ∈ l → user_of (source o) s = None ∨ user_of (destination o) s = None) → extra = []).
Proof.
  revert n s. induction l as [|o l IH]; intros n s; cbn [compensate_all].
  { exists [], s. rewrite app_nil_r. stx_unfold. split_and!; [f_equal; f_equal; cbn; lia|by destruct s| |done| |done].
    all: intros ? H; try by apply elem_of_nil in H. }
  unfold compensateOrphan. rewrite filter_cons. stx_unfold. destruct (ok (transactionId o)) eqn:Hok.
  - destruct (insert_orphan_spec (user_of (source o) s) (user_of (destination o) s) (parse_float (o_amount o)) (truthy_str (o_memo o))
      (default now (o_timestamp o)) (transactionId o) (sql s)) as (ex1 & He1 & Ho1 & Hn1 & Hin1 & Hz1). rewrite He1. cbn -[Z.add].
    destruct (IH (n + 1) (set_sql (sql s ++ ex1) s)) as (ex2 & s' & -> & -> & Ho2 & Hn2 & Hin2 & Hz2).
    exists (ex1 ++ ex2). eexists. rewrite decide_True by done. split_and!.
    + f_equal. f_equal. cbn [length]. lia.
    + cbn [sql set_sql]. by rewrite app_assoc.
    + intros r [Hr|Hr]%elem_of_app; [split; [by apply Ho1|]; exists o; split; [apply list_elem_of_here|by apply Ho1]|].
      destruct (Ho2 r Hr) as [? (o' & ? & ?)]. split; [done|]. exists o'. split; [by apply list_elem_of_further|done].
    + intros Hd. rewrite app_assoc. by apply Hn2, Hn1.
    + intros o' [->|Hin]%elem_of_cons Hk Hr.
      * destruct Hr as (Ha & Hb & Hx). rewrite app_assoc. unfold hashes. rewrite omap_app, elem_of_app. left. by apply Hin1.
      * rewrite app_assoc. by apply Hin2.
    + intros Hl. rewrite Hz1 by by apply Hl, list_elem_of_here. apply Hz2. intros o' Ho'. by apply Hl, list_elem_of_further.
  - destruct (IH (n + 0) s) as (ex & s' & -> & -> & Ho & Hn & Hin & Hz). exists ex. eexists. rewrite decide_False by done.
    split_and!; [by rewrite Z.add_0_r|done| |done| |].
    + intros r Hr. destruct (Ho r Hr) as [? (o' & ? & ?)]. split; [done|]. exists o'. split; [by apply list_elem_of_further|done].
    + intros o' [->|Ho']%elem_of_cons Hk; [congruence|]. by apply Hin.
    + intros Hl. apply Hz. intros o' Ho'. by apply Hl, list_elem_of_further.
Qed.

(** Compensation changes no row and no donation: it adds rows that are marked
    as orphans, at most one for a transaction of the network, and one for each
    that was missing, has two users as its parties and could be written. *)
Theorem orphans_recorded e s :
  ∃ extra r n, detectAndCompensateOrphans e s = (Ret r, count_orphans n (set_sql (sql s ++ extra) s)) ∧
    (∀ x, x ∈ extra → is_orphan x = true ∧ ∃ o, o ∈ orphans_of e s ∧ stellar_tx_id x = Some (transactionId o)) ∧
    (NoDup (hashes (sql s)) → NoDup (hashes (sql s ++ extra))) ∧
    (known_ok e = true → ∀ o, o ∈ orphans_of e s → orphan_ok e (transactionId o) = true → recordable o s →
       transactionId o ∈ hashes (sql s ++ extra)).
Proof.
  unfold detectAndCompensateOrphans. stx_unfold.
  assert (Hid : s = count_orphans 0 (set_sql (sql s ++ []) s)).
  { rewrite app_nil_r. destruct s. unfold count_orphans. cbn. by rewrite Z.add_0_r. }
  destruct (known_ok e).
  2:{ exists [], (0, 0), 0. rewrite <- Hid. rewrite app_nil_r. split_and!; try done. intros x Hx. by apply elem_of_nil in Hx. }
  destruct (orphans_of e s) as [|o l] eqn:Hl.
  { exists [], (0, 0), 0. rewrite <- Hid. rewrite app_nil_r. split_and!; try done; [intros x Hx|intros _ x Hx]; by apply elem_of_nil in Hx. }
  set (n := Z.of_nat _).
  destruct (compensate_all_spec (now e) (orphan_ok e) (o :: l) 0 (count_orphans n s)) as (ex & s' & -> & -> & Ho & Hn & Hin & _).
  exists ex. eexists _, n. split; [reflexivity|]. split_and!; [exact Ho|exact Hn|]. intros _. exact Hin.
Qed.

(** Orphans whose sender or recipient is no user are not recorded, are counted
    as compensated all the same, and are found again by every later cycle. *)
Theorem unknown_parties_again e s :
  known_ok e = true → (∀ h, orphan_ok e h = true) →
  (∀ o, o ∈ orphans_of e s → user_of (source o) s = None ∨ user_of (destination o) s = None) →
  let n := Z.of_nat (length (orphans_of e s)) in
  ∃ s', detectAndCompensateOrphans e s = (Ret (n, n), s') ∧ sql s' = sql s ∧ orphans_of e s' = orphans_of e s ∧
    orphanedTransactionCount s' = orphanedTransactionCount s + n.
Proof.
  intros Hk Hok Hl. cbv zeta. unfold detectAndCompensateOrphans. stx_unfold. rewrite Hk.
  destruct (orphans_of e s) as [|o l] eqn:Ho.
  { exists s. cbn. split_and!; try done. lia. }
  set (n := Z.of_nat _).
  destruct (compensate_all_spec (now e) (orphan_ok e) (o :: l) 0 (count_orphans n s)) as (ex & s' & -> & -> & _ & _ & _ & Hz).
  rewrite Hz by exact Hl. eexists. split; [|split_and!].
  - rewrite filter_all by (apply Forall_forall; auto). reflexivity.
  - cbn. apply app_nil_r.
  - rewrite <- Ho. unfold orphans_of. cbn. by rewrite app_nil_r.
  - done.
Qed.

(** ** Examples *)

Definition ex_addr (c : ascii) : string := String "G" (str_repeat 55 c).
(** A donation that was submitted under the hash [h]. *)
Definition ex_submitted (h : string) : Transaction.st :=
  (updateStatus 20 "d1" (Some SUBMITTED)
     {| sd_transactionId := Some h; sd_ledger := None; sd_confirmedAt := None; sd_notes := None; sd_tags := None |}
     (create 10 "d1" (data (num_of_Z 10) (Some (ex_addr "A")) (Some (ex_addr "B")) None None) Transaction.init).2).2.
Definition ex_s (rows : list sql_row) : st :=
  mk_st (FeeBump.mk_st (ex_submitted "h1") []) [] [(1, Some (ex_addr "A")); (2, Some (ex_addr "B"))] rows false 0 [].
Definition ex_chain (h : string) : verification :=
  if bool_decide (h = "h1"%string) then Verified (Some (mk_chain (Some 7) (Some "10"%string) None)) else NotVerified.
Definition ex_orphan (h dest : string) : mock_tx :=
  mk_mock (Some h) None (mk_orphan "" (Some (ex_addr "A")) (Some dest) "10" None (Some 15)).
Definition ex_env (l : list mock_tx) (records : list Sync.record) : env :=
  mk_env 100 ex_chain (λ l, l) true (Some [l]) true (λ k, Some (Ret (if bool_decide (k = ex_addr "A") then records else []))) (λ _, true)
    (λ _, Ret 100) (λ _, Throw (EPlain "none")).
Definition ex_reconcile (e : env) (s : st) : report * st :=
  match reconcile 3 300000 1000000 e s with (Ret r, s) => (r, s) | (Throw _, s) => (idle, s) end.

Lemma ex_inv : inv (ex_submitted "h1").
Proof. apply updateStatus_inv, create_inv, inv_init. Qed.

(** One cycle confirms the submitted donation; its payment, which the table
    does not have, becomes an orphan and a second record. *)
Example donation_recorded_twice :
  let '(r, s) := ex_reconcile (ex_env [ex_orphan "h1" (ex_addr "B")] []) (ex_s []) in
  r = mk_report 1 0 1 1 0 0 ∧ (λ o, status (tx o)) <$> loadTransactions (model s) = [CONFIRMED] ∧
  (λ x, (senderId x, receiverId x, stellar_tx_id x)) <$> sql s = [(1, 2, Some "h1"%string)] ∧ delivered s = ["d1"%string].
Proof. by vm_compute. Qed.

(** A record of Horizon has no operations in it: the payment is recorded as one
    of nothing from the source to itself. *)
Example horizon_record_is_empty :
  let r := Sync.mk_record "h9" "t9" None (Some 5) None None None (Some (ex_addr "A")) in
  (λ x, (senderId x, receiverId x, num_eqb (r_amount x) num_zero)) <$> sql (ex_reconcile (ex_env [] [r]) (ex_s [])).2 = [(1, 1, true)].
Proof. by vm_compute. Qed.

(** A resolution takes any status, from any other one, and is lost when the
    store is read from the table again. *)
Example resolution_unchecked_and_lost :
  let s := settle 0 (settle 0 (ex_submitted "h1")) in
  let s := mk_st (FeeBump.mk_st s []) [] [] [] false 0 [] in
  let s := (resolveDiscrepancy 50 "d1" "no such state" s).2 in
  (λ o, status (tx o)) <$> loadTransactions (model s) = ["no such state"%string] ∧
  (updateStatus 60 "d1" (Some CONFIRMED) no_stellar_data (model s)).1 = Throw (ValidationError_with (code_ref "INVALID_REQUEST")) ∧
  (λ o, status (tx o)) <$> loadTransactions (_reloadFromDb (model s)) = [SUBMITTED].
Proof. by vm_compute. Qed.

Lemma known_reconciled_witness :
  ∃ s', settle_all 100 ex_chain (txsToCheck (ex_submitted "h1")) 0 0 (ex_s []) = (Ret (1, 0), s') ∧
    ∀ i o, map_get (_store (ex_submitted "h1")) i = Some o →
      ∃ p, map_get (_store (model s')) i = Some p ∧
           if checked o && verified ex_chain o then status (tx p) = CONFIRMED ∧ stellarTxId (tx p) = stellarTxId (tx o) else p = o.
Proof.
  assert (Hv : tally_by (verified ex_chain) (txsToCheck (ex_submitted "h1")) = 1) by (vm_compute; reflexivity).
  assert (Hu : tally_by (unreachable ex_chain) (txsToCheck (ex_submitted "h1")) = 0) by (vm_compute; reflexivity).
  destruct (known_reconciled 100 ex_chain (txsToCheck (ex_submitted "h1")) (ex_s []) ex_inv (reflexivity _)) as (s' & Hr & H).
  change (model (ex_s [])) with (ex_submitted "h1") in Hr. rewrite Hv, Hu in Hr. exists s'. split; [exact Hr|exact H].
Defined.

Lemma cycle_settles_witness :
  let s1 := (settle_all 100 ex_chain (txsToCheck (ex_submitted "h1")) 0 0 (ex_s [])).2 in
  ∃ e, (settle_all 200 ex_chain (txsToCheck (model s1)) 0 0 s1).1 = Ret (0, e).
Proof.
  exact (cycle_settles 100 200 ex_chain (txsToCheck (ex_submitted "h1"))
    (txsToCheck (model (settle_all 100 ex_chain (txsToCheck (ex_submitted "h1")) 0 0 (ex_s [])).2)) (ex_s []) ex_inv (reflexivity _) (reflexivity _)).
Defined.

Definition ex_tx : transaction := new_transaction 10 "d1" (data (num_of_Z 10) None None None None) SUBMITTED.
Lemma drift_flagged_witness :
  ∃ o, find_id (id ex_tx) (model (ex_s [])) = Some o ∧
    reconciliation_needed (flag_of "d1" (_checkFieldDrift 30 ex_tx (Some (mk_chain None (Some "11"%string) None)) (ex_s [])).2) = true.
Proof.
  assert (Ho : ∃ o, find_id (id ex_tx) (model (ex_s [])) = Some o) by (vm_compute; eexists; reflexivity).
  assert (Hd : amount_differs ex_tx (mk_chain None (Some "11"%string) None) = true) by (vm_compute; reflexivity).
  destruct Ho as [o Ho]. exists o. split; [exact Ho|].
  refine (eq_trans (drift_flagged 30 ex_tx (mk_chain None (Some "11"%string) None) (ex_s []) o Ho) _). rewrite Hd. reflexivity.
Defined.

Lemma unknown_parties_again_witness :
  ∃ s', detectAndCompensateOrphans (ex_env [ex_orphan "h5" "GX"] []) (ex_s []) = (Ret (1, 1), s') ∧ sql s' = [] ∧
    orphans_of (ex_env [ex_orphan "h5" "GX"] []) s' = orphans_of (ex_env [ex_orphan "h5" "GX"] []) (ex_s []).
Proof.
  assert (Ho : ∀ o, o ∈ orphans_of (ex_env [ex_orphan "h5" "GX"] []) (ex_s []) →
    user_of (source o) (ex_s []) = None ∨ user_of (destination o) (ex_s []) = None).
  { assert (Hb : forallb (λ o, match user_of (source o) (ex_s []), user_of (destination o) (ex_s []) with Some _, Some _ => false | _, _ => true end)
      (orphans_of (ex_env [ex_orphan "h5" "GX"] []) (ex_s [])) = true) by (vm_compute; reflexivity).
    intros o Ho. rewrite forallb_forall in Hb. apply list_elem_of_In, Hb in Ho. revert Ho.
    destruct (user_of (source o) (ex_s [])), (user_of (destination o) (ex_s [])); auto; discriminate. }
  assert (Hn : Z.of_nat (length (orphans_of (ex_env [ex_orphan "h5" "GX"] []) (ex_s []))) = 1) by (vm_compute; reflexivity).
  destruct (unknown_parties_again (ex_env [ex_orphan "h5" "GX"] []) (ex_s []) eq_refl (λ _, eq_refl) Ho) as (s' & Hr & Hs & Hor & _).
  rewrite Hn in Hr. by exists s'.
Defined.

End Reconciliation.

(** ** Confirmations ([src/src/utils/confirmationChecker.js]) *)

Module Confirmations.
Import Transaction Donations.

(** [getCurrentLedger]: the sequence numbers Horizon answers with. *)
Definition getCurrentLedger (answer : outcome jserror (list Z)) : outcome jserror Z :=
  l ← answer;
  match l with
  | [] => Throw (EPlain "No ledger records returned from Horizon")
  | n :: _ => if n <? 1 then Throw (EPlain "Invalid ledger sequence") else Ret n
  end.

Record checked_tx := mk_checked { transactionId : string; updated : bool; c_depth : option depth; c_error : option jserror }.

Section service.
Context (extras : string → extra) (CONFIRMATION_THRESHOLD : Z).

(** [c_depth] holds what [confirmTransaction] answered. *)
Definition checkAndUpdateTransaction (now : Z) (answer : outcome jserror (list Z)) (t : transaction) : M checked_tx :=
  try_catch
    (n ← lift_out (getCurrentLedger answer);
     d ← confirmTransaction extras CONFIRMATION_THRESHOLD now (id t) n (x_confirmationThreshold (extras (id t)));
     mret (mk_checked (id t) (confirmed d && negb (bool_decide (status t = CONFIRMED))) (Some d) None))
    (λ e, mret (mk_checked (id t) false None (Some e))).

Record summary := mk_summary { n_checked : Z; n_updated : Z; n_errors : Z; details : list checked_tx }.

Fixpoint check_each (now : Z) (answer : string → outcome jserror (list Z)) (l : list obj) (r : summary) : M summary :=
  match l with
  | [] => mret r
  | o :: l =>
      c ← checkAndUpdateTransaction now (answer (id (tx o))) (tx o);
      check_each now answer l
        (mk_summary (n_checked r) (n_updated r + if updated c then 1 else 0) (n_errors r + if c_error c then 1 else 0) (details r ++ [c]))
  end.

Definition checkAllPendingConfirmations (now : Z) (answer : string → outcome jserror (list Z)) : M summary :=
  s ← get_st;
  let pendingTransactions := getByStatus (model s) (Some PENDING_CONFIRMATION) in
  check_each now answer pendingTransactions (mk_summary (Z.of_nat (length pendingTransactions)) 0 0 []).

(** A donation whose ledger is deep enough by what Horizon answers about the
    present one. *)
Definition deep (answer : string → outcome jserror (list Z)) (o : obj) : bool :=
  match getCurrentLedger (answer (id (tx o))), truthy_Z (stellarLedger (tx o)), deleted_at (tx o) with
  | Ret n, Some l, None =>
      let t := effectiveThreshold extras CONFIRMATION_THRESHOLD (id (tx o)) (x_confirmationThreshold (extras (id (tx o)))) in
      (1 <=? l) && ((if 1 <=? t then t else CONFIRMATION_THRESHOLD) <=? Z.max 0 (n - l))
  | _, _, _ => false
  end.

Lemma check_one now answer o s :
  Transaction.inv (model s) → map_get (_store (model s)) (id (tx o)) = Some o → status (tx o) = PENDING_CONFIRMATION →
  let '(r, s') := checkAndUpdateTransaction now (answer (id (tx o))) (tx o) s in
  (∃ c, r = Ret c ∧ updated c = deep answer o) ∧
  if deep answer o
  then Transaction.inv (model s') ∧ (∀ i, i ≠ id (tx o) → map_get (_store (model s')) i = map_get (_store (model s)) i) ∧
       ∃ p, map_get (_store (model s')) (id (tx o)) = Some p ∧ status (tx p) = CONFIRMED
  else s' = s.
Proof.
  intros Hi Ho Hs. unfold checkAndUpdateTransaction, deep, try_catch. stx_unfold.
  destruct (getCurrentLedger _) as [n|e] eqn:Hn; [|split; [by eexists|done]].
  unfold confirmTransaction, getDonationById, getById. stx_unfold. rewrite Ho.
  destruct (deleted_at (tx o)) as [d|] eqn:Hd.
  { destruct (truthy_Z _); (split; [by eexists|done]). }
  cbn -[effectiveThreshold]. rewrite Hs. rewrite bool_decide_false by done.
  destruct (truthy_Z (stellarLedger (tx o))) as [l|] eqn:Hl; cbn -[effectiveThreshold]; [|split; [by eexists|done]].
  set (t := effectiveThreshold _ _ _ _). unfold checkConfirmations.
  assert (H1 : n <? 1 = false).
  { revert Hn. unfold getCurrentLedger. destruct (answer _) as [[|m ms]|]; cbn; try done. destruct (m <? 1) eqn:Hm; [done|]. by intros [= <-]. }
  rewrite H1. destruct (Z.ltb_spec l 1) as [Hlt|Hge]; [rewrite (proj2 (Z.leb_gt 1 l)) by lia; split; [by eexists|done]|].
  rewrite (proj2 (Z.leb_le 1 l)) by lia. cbn [andb]. set (req := if 1 <=? t then t else CONFIRMATION_THRESHOLD).
  destruct (req <=? Z.max 0 (n - l)) eqn:Hdeep; cbn -[updateStatus]; [|split; [by eexists|done]].
  unfold on_model. stx_unfold.
  pose proof (updateStatus_inv now (id (tx o)) (Some CONFIRMED)
    {| sd_transactionId := None; sd_ledger := None; sd_confirmedAt := Some now; sd_notes := None; sd_tags := None |} (model s) Hi) as Hinv.
  revert Hinv. rewrite updateStatus_run, Ho, Hs. cbn -[map_set status_event CONFIRMED]. intros Hinv. split; [by eexists|].
  split_and!; [exact Hinv| |].
  - intros i Hne. by apply map_get_set_ne.
  - eexists. split; [apply map_get_set_eq|done].
Qed.

Lemma check_each_spec now answer l r s :
  Transaction.inv (model s) → NoDup ((λ o, id (tx o)) <$> l) →
  (∀ o, o ∈ l → status (tx o) = PENDING_CONFIRMATION ∧ map_get (_store (model s)) (id (tx o)) = Some o) →
  ∃ r' s', check_each now answer l r s = (Ret r', s') ∧
    n_updated r' = n_updated r + Z.of_nat (length (filter (λ o, deep answer o = true) l)) ∧ n_checked r' = n_checked r ∧
    (∀ i, i ∉ (λ o, id (tx o)) <$> l → map_get (_store (model s')) i = map_get (_store (model s)) i) ∧
    (∀ o, o ∈ l → ∃ p, map_get (_store (model s')) (id (tx o)) = Some p ∧
                       if deep answer o then status (tx p) = CONFIRMED else p = o).
Proof.
  revert r s. induction l as [|o l IH]; intros r s Hi Hnd Hl; cbn [check_each].
  { exists r, s. split_and!; try done; [cbn; lia|]. intros o Ho. by apply elem_of_nil in Ho. }
  apply NoDup_cons in Hnd as [Hnotin Hnd]. destruct (Hl o ltac:(apply list_elem_of_here)) as [Hs Ho].
  pose proof (check_one now answer o s Hi Ho Hs) as Hone. stx_unfold.
  destruct (checkAndUpdateTransaction _ _ _ s) as [res s1]. destruct Hone as [(c & -> & Hc) Hk].
  assert (Hs1 : Transaction.inv (model s1) ∧ (∀ i, i ≠ id (tx o) → map_get (_store (model s1)) i = map_get (_store (model s)) i) ∧
    ∃ p, map_get (_store (model s1)) (id (tx o)) = Some p ∧ if deep answer o then status (tx p) = CONFIRMED else p = o).
  { destruct (deep answer o); [exact Hk|subst s1]. split_and!; [done|done|]. by exists o. }
  destruct Hs1 as (Hi1 & Hother & p & Hp & Hout). set (r1 := mk_summary _ _ _ _).
  destruct (IH r1 s1 Hi1 Hnd) as (r' & s' & -> & Hu & Hn & Hother' & Hin).
  { intros o' Ho'. destruct (Hl o') as [Hs' Hst]; [by apply list_elem_of_further|]. split; [done|]. rewrite Hother; [done|].
    intros He. apply Hnotin. rewrite <- He. exact (list_elem_of_fmap_2 (λ o, id (tx o)) l o' Ho'). }
  exists r', s'. split_and!; [done| |done| |].
  - rewrite Hu, filter_cons. subst r1. cbn [n_updated]. rewrite Hc. destruct (deep answer o); [rewrite decide_True by done|rewrite decide_False by done]; cbn [length]; lia.
  - intros i Hni. cbn in Hni. apply not_elem_of_cons in Hni as [Hne Hni]. rewrite Hother' by done. by apply Hother.
  - intros o' [->|Ho']%elem_of_cons; [|by apply Hin]. exists p. split; [|done]. by rewrite Hother'.
Qed.

(** A pass confirms exactly the donations that wait for confirmation and are
    deep enough, whatever fails for others, and counts them. *)
Theorem pass_confirms now answer s :
  Transaction.inv (model s) →
  let waiting := getByStatus (model s) (Some PENDING_CONFIRMATION) in
  ∃ r s', checkAllPendingConfirmations now answer s = (Ret r, s') ∧
    n_checked r = Z.of_nat (length waiting) ∧ n_updated r = Z.of_nat (length (filter (λ o, deep answer o = true) waiting)) ∧
    ∀ i o, map_get (_store (model s)) i = Some o →
      ∃ p, map_get (_store (model s')) i = Some p ∧
           if bool_decide (status (tx o) = PENDING_CONFIRMATION) && deep answer o then status (tx p) = CONFIRMED else p = o.
Proof.
  intros Hi. cbv zeta. destruct (Reconciliation.by_status_ids (model s) PENDING_CONFIRMATION Hi) as [Hnd Hin].
  unfold checkAllPendingConfirmations. stx_unfold. set (r0 := mk_summary _ _ _ _).
  destruct (check_each_spec now answer _ r0 s Hi Hnd) as (r & s' & -> & Hu & Hn & Hother & Hdone); [by intros o Ho; apply Hin|].
  exists r, s'. split_and!; [done|done|rewrite Hu; subst r0; cbn; lia|]. intros i o Ho. pose proof (Transaction.inv_id _ Hi _ _ Ho). subst i.
  case_bool_decide as Hs; cbn [andb].
  - apply Hdone. by apply Hin.
  - exists o. split; [|done]. rewrite Hother; [done|]. intros (o' & He & Ho')%list_elem_of_fmap. apply Hin in Ho' as [Hs' Ho'].
    rewrite <- He, Ho in Ho'. injection Ho' as ->. done.
Qed.
End service.

Definition ex_waiting : Donations.st :=
  mk_st (updateStatus 20 "d1" (Some PENDING_CONFIRMATION)
    {| sd_transactionId := Some "h1"%string; sd_ledger := Some 7; sd_confirmedAt := None; sd_notes := None; sd_tags := None |}
    (create 10 "d1" (data (num_of_Z 10) None None None None) Transaction.init).2).2 [] 1 [] [].

Lemma pass_confirms_witness :
  ∃ r s', checkAllPendingConfirmations (λ _, no_extra) 3 50 (λ _, Ret [10; 9]) ex_waiting = (Ret r, s') ∧ n_updated r = 1.
Proof.
  assert (Hi : Transaction.inv (model ex_waiting)) by apply updateStatus_inv, create_inv, inv_init.
  assert (Hn : Z.of_nat (length (filter (λ o, deep (λ _, no_extra) 3 (λ _, Ret [10; 9]) o = true)
    (getByStatus (model ex_waiting) (Some PENDING_CONFIRMATION)))) = 1) by (vm_compute; reflexivity).
  destruct (pass_confirms (λ _, no_extra) 3 50 (λ _, Ret [10; 9]) ex_waiting Hi) as (r & s' & Hr & _ & Hu & _).
  rewrite Hn in Hu. exists r, s'. split; [exact Hr|exact Hu].
Defined.

End Confirmations.
