(* ===== verification/CircuitBreaker.v ===== *)
(** * Circuit breaker ([src/src/utils/circuitBreaker.js])

    [execute] is split at its [await]: [begin_] is the code before the
    operation is started, [settle] the code after it resolves or rejects.
    Between the two any other call may run.  Times are [Date.now()] values,
    database writes are recorded as the [db_write]s the code issues. *)

From Stdlib Require Import Sorted.
From S2P Require Import Prelude Errors.
Local Open Scope Z_scope.

Module CircuitBreaker.

Inductive STATES := CLOSED | OPEN | HALF_OPEN.
#[export] Instance STATES_eq_dec : EqDecision STATES.
Proof. solve_decision. Defined.

Record config := { failureThreshold : Z; windowMs : Z; cooldownMs : Z; instanceId : string }.

(** The constructor's defaults. *)
Definition default_config (inst : string) : config :=
  {| failureThreshold := 5; windowMs := 60000; cooldownMs := 30000; instanceId := inst |}.

Record cb := mk_cb {
  _state : STATES;
  _failures : list Z;
  _openedAt : option Z;
  _probeInFlight : bool;
}.

Definition initial : cb := mk_cb CLOSED [] None false.

(** The row of [circuit_breaker_state]. *)
Record db_row := mk_row {
  row_state : STATES;
  row_failureCount : Z;
  row_lastFailureAt : Z;
  row_openedAt : option Z;
  row_probeHolder : option string;
}.

Inductive db_write :=
| WPersist (clearProbeHolder : bool) (s : STATES) (failureCount now : Z) (openedAt : option Z)
| WProbeHolder (holder : string).

(** The effect of a write on the row. *)
Definition apply_write (w : db_write) (r : option db_row) : option db_row :=
  match w with
  | WPersist clear s n now o =>
      Some (mk_row s n now o
        (if clear then None else match r with Some r => row_probeHolder r | None => None end))
  | WProbeHolder h =>
      match r with
      | None => None
      | Some r =>
          if bool_decide (row_state r ≠ CLOSED) &&
             (bool_decide (row_probeHolder r = None) || bool_decide (row_probeHolder r = Some h))
          then Some (mk_row HALF_OPEN (row_failureCount r) (row_lastFailureAt r) (row_openedAt r) (Some h))
          else Some r
      end
  end.

Inductive op_kind := KProbe | KNormal.
#[export] Instance op_kind_eq_dec : EqDecision op_kind.
Proof. solve_decision. Defined.

(** What [execute] does before its first await. *)
Inductive decision :=
| FastFailOpen        (* 503, circuitOpen *)
| FastFailProbe       (* 503, probe in progress *)
| Run (k : op_kind).

Section breaker.
Context (cfg : config).

Definition _pruneWindow (now : Z) (c : cb) : cb :=
  mk_cb (_state c) (filter (λ t, now - windowMs cfg < t) (_failures c)) (_openedAt c) (_probeInFlight c).

Definition getStatus (now : Z) (c : cb) : (STATES * Z * option Z) * cb :=
  let c := _pruneWindow now c in
  ((_state c, Z.of_nat (length (_failures c)), _openedAt c), c).

Definition _maybeTransitionToHalfOpen (now : Z) (c : cb) : cb :=
  match _state c, _openedAt c with
  | OPEN, Some t => if cooldownMs cfg <=? now - t
                    then mk_cb HALF_OPEN (_failures c) (_openedAt c) false else c
  | _, _ => c
  end.

Definition _persistState (clear : bool) (now : Z) (c : cb) : db_write :=
  WPersist clear (_state c) (Z.of_nat (length (_failures c))) now (_openedAt c).

Definition begin_ (now : Z) (c : cb) : decision * cb * list db_write :=
  let c := _maybeTransitionToHalfOpen now c in
  match _state c with
  | OPEN => (FastFailOpen, c, [])
  | HALF_OPEN =>
      if _probeInFlight c then (FastFailProbe, c, [])
      else (Run KProbe, mk_cb HALF_OPEN (_failures c) (_openedAt c) true,
            [WProbeHolder (instanceId cfg)])
  | CLOSED => (Run KNormal, c, [])
  end.

Definition _open (now : Z) (c : cb) : cb * list db_write :=
  let c := mk_cb OPEN (_failures c) (Some now) false in
  (c, [_persistState false now c]).

Definition _recordFailure (now : Z) (c : cb) : cb * list db_write :=
  let c := _pruneWindow now (mk_cb (_state c) (_failures c ++ [now]) (_openedAt c) (_probeInFlight c)) in
  if failureThreshold cfg <=? Z.of_nat (length (_failures c)) then _open now c else (c, []).

Definition _onSuccess (now : Z) (c : cb) : cb * list db_write :=
  let c := mk_cb CLOSED [] None false in
  (c, [_persistState true now c]).

Definition reset (now : Z) (c : cb) : cb * list db_write := _onSuccess now c.

(** The operation of kind [k] resolved ([ok]) or rejected. *)
Definition settle (k : op_kind) (ok : bool) (now : Z) (c : cb) : cb * list db_write :=
  match k, ok with
  | KProbe, true => _onSuccess now c
  | KProbe, false => _open now c
  | KNormal, true => (c, [])
  | KNormal, false => _recordFailure now c
  end.

Definition loadState (now : Z) (row : option db_row) (c : cb) : cb :=
  match row with
  | None => c
  | Some r =>
      let c := mk_cb (_state c) (_failures c) (row_openedAt r) (_probeInFlight c) in
      match row_state r, row_openedAt r with
      | OPEN, Some t => if now - t <? cooldownMs cfg
                        then mk_cb OPEN (_failures c) (_openedAt c) (_probeInFlight c) else c
      | _, _ => c
      end
  end.

Definition _syncFromDb (row : option db_row) (c : cb) : cb :=
  match row with
  | None => c
  | Some r =>
      match row_state r, _state c with
      | OPEN, CLOSED | OPEN, HALF_OPEN => mk_cb OPEN (_failures c) (row_openedAt r) false
      | HALF_OPEN, OPEN =>
          mk_cb HALF_OPEN (_failures c) (row_openedAt r)
            (match row_probeHolder r with
             | Some h => if bool_decide (h ≠ instanceId cfg) then true else _probeInFlight c
             | None => _probeInFlight c
             end)
      | CLOSED, OPEN | CLOSED, HALF_OPEN => mk_cb CLOSED [] None false
      | _, _ => c
      end
  end.

(** ** One process: calls and operations in flight *)

Record proc := mk_proc { brk : cb; inflight : list op_kind }.

Definition proc_init : proc := mk_proc initial [].

Definition do_begin (now : Z) (p : proc) : proc :=
  let '(d, c, _) := begin_ now (brk p) in
  mk_proc c (match d with Run k => k :: inflight p | _ => inflight p end).

Definition do_settle (i : nat) (ok : bool) (now : Z) (p : proc) : proc :=
  match inflight p !! i with
  | None => p
  | Some k => mk_proc (settle k ok now (brk p)).1 (delete i (inflight p))
  end.

Inductive proc_step (p : proc) : proc → Prop :=
| ps_begin now : proc_step p (do_begin now p)
| ps_settle i ok now : proc_step p (do_settle i ok now p)
| ps_reset now : proc_step p (mk_proc (reset now (brk p)).1 (inflight p))
| ps_sync row : proc_step p (mk_proc (_syncFromDb row (brk p)) (inflight p)).

(** The steps of a single process on its own, in which an operation started
    while the circuit was closed does not fail after it opened. *)
Inductive orderly_step (p : proc) : proc → Prop :=
| os_begin now : orderly_step p (do_begin now p)
| os_settle i ok now :
    (inflight p !! i = Some KNormal → ok = false → _state (brk p) = CLOSED) →
    orderly_step p (do_settle i ok now p).

Fixpoint count_probes (l : list op_kind) : nat :=
  match l with
  | [] => 0
  | KProbe :: l => S (count_probes l)
  | KNormal :: l => count_probes l
  end.
Definition probes (p : proc) : nat := count_probes (inflight p).

Lemma probes_delete l i k :
  l !! i = Some k →
  count_probes l = ((if k is KProbe then 1 else 0) + count_probes (delete i l))%nat.
Proof.
  revert i. induction l as [|x l IH]; intros [|i]; cbn; try done.
  - by intros [= ->]; destruct k.
  - intros H. rewrite (IH i H). by destruct x, k.
Qed.

(** At most one probe, which runs in the half-open state under the flag. *)
Definition one_probe (p : proc) : Prop :=
  (probes p = 0%nat ∧ (_state (brk p) = HALF_OPEN → _probeInFlight (brk p) = false)) ∨
  (probes p = 1%nat ∧ _state (brk p) = HALF_OPEN ∧ _probeInFlight (brk p) = true).

Lemma one_probe_begin now p : one_probe p → one_probe (do_begin now p).
Proof.
  unfold one_probe, do_begin, begin_, _maybeTransitionToHalfOpen, probes.
  destruct p as [[[] fs o f] l]; cbn.
  - intros [[H1 H2]|(?&?&?)]; [left|done]. done.
  - intros [[H1 H2]|(?&?&?)]; [|done]. destruct o as [t|]; cbn; [|by left].
    destruct (cooldownMs cfg <=? now - t); cbn; [|by left].
    right. by rewrite H1.
  - intros [[H1 H2]|(H1&?&->)]; [|by right]. rewrite (H2 eq_refl). cbn.
    right. by rewrite H1.
Qed.

Lemma one_probe_settle i ok now p :
  (inflight p !! i = Some KNormal → ok = false → _state (brk p) = CLOSED) →
  one_probe p → one_probe (do_settle i ok now p).
Proof.
  intros Hord Hp. unfold do_settle. destruct (inflight p !! i) as [k|] eqn:Hi; [|done].
  pose proof (probes_delete _ _ _ Hi) as Hd. unfold one_probe, probes in *. cbn [brk inflight].
  destruct k; cbn in Hd.
  - left. split; [destruct Hp as [[??]|(?&?)]; lia|].
    destruct ok; cbn; done.
  - destruct ok; cbn; [rewrite <- Hd; exact Hp|].
    specialize (Hord eq_refl eq_refl). destruct Hp as [[H1 _]|(_&H2&_)]; [|congruence].
    left. split; [lia|]. unfold _recordFailure. case_match; cbn; [done|congruence].
Qed.

Lemma one_probe_preserved : preserves orderly_step one_probe.
Proof. intros p p' Hp []; [by apply one_probe_begin|by apply one_probe_settle]. Qed.

(** Failures recorded at the times [ts], oldest first. *)
Definition record_all (ts : list Z) (c : cb) : cb := foldl (λ c t, (_recordFailure t c).1) c ts.

Lemma filter_filter_window (l : list Z) a b :
  a <= b → filter (λ t, b < t) (filter (λ t, a < t) l) = filter (λ t, b < t) l.
Proof.
  intros Hab. induction l as [|x l IH]; [done|]. rewrite !filter_cons.
  repeat case_decide; rewrite ?filter_cons; repeat case_decide; try lia; congruence.
Qed.

Lemma record_failures now c :
  _failures (_recordFailure now c).1 = filter (λ t, now - windowMs cfg < t) (_failures c ++ [now]).
Proof. unfold _recordFailure. by case_match. Qed.

Lemma record_all_window ts now c :
  Sorted Z.le (ts ++ [now]) → 0 <= windowMs cfg → _failures c = [] →
  _failures (record_all (ts ++ [now]) c) = filter (λ t, now - windowMs cfg < t) (ts ++ [now]).
Proof.
  intros Hs Hw Hc. revert now Hs. induction ts as [|t ts IH] using rev_ind; intros now Hs.
  - cbn. by rewrite record_failures, Hc.
  - unfold record_all. rewrite foldl_app. cbn [foldl]. rewrite record_failures.
    fold (record_all (ts ++ [t]) c). 
    assert (Hs' : Sorted Z.le (ts ++ [t]) ∧ t <= now).
    { clear -Hs. rewrite <- app_assoc in Hs. induction ts as [|x ts IH]; cbn in *.
      - inversion Hs as [|?? ? Hh]; subst. inversion Hh; subst. split; [by repeat constructor|done].
      - inversion Hs as [|?? Hs2 Hh]; subst. destruct (IH Hs2) as [IH1 IH2]. split; [|done].
        constructor; [done|]. destruct ts; cbn in *; inversion Hh; by constructor. }
    destruct Hs' as [Hs1 Hle]. rewrite (IH _ Hs1), !filter_app. f_equal.
    rewrite <- !filter_app. apply filter_filter_window. lia.
Qed.

End breaker.

(** In a process whose closed-state operations settle before the circuit
    opens, at most one probe runs at a time, and while it runs every other
    caller fails fast with the probe error, whatever the clock says. *)
Theorem probe_exclusive (cfg : config) (p : proc) (Hr : rtc (orderly_step cfg) proc_init p) :
  (probes p <= 1)%nat ∧
  (probes p = 1%nat → ∀ now, begin_ cfg now (brk p) = (FastFailProbe, brk p, [])).
Proof.
  assert (H : one_probe p).
  { eapply preserves_rtc; [apply one_probe_preserved|exact Hr|]. by left. }
  destruct H as [[H1 _]|(H1 & Hs & Hf)]; (split; [lia|]); [lia|].
  intros _ now. unfold begin_, _maybeTransitionToHalfOpen. rewrite Hs. cbn. by rewrite ?Hs, ?Hf.
Qed.

(** A circuit of threshold one that fails, cools down and probes. *)
Definition cfg1 : config :=
  {| failureThreshold := 1; windowMs := 60000; cooldownMs := 30000; instanceId := "host-1" |}.

Lemma probe_exclusive_witness :
  ∃ p, probes p = 1%nat ∧ (probes p <= 1)%nat.
Proof.
  set (p1 := do_begin cfg1 0 proc_init). set (p2 := do_settle cfg1 0 false 10 p1).
  set (p3 := do_begin cfg1 40000 p2). exists p3. split; [vm_compute; reflexivity|].
  refine (proj1 (probe_exclusive cfg1 p3 _)).
  eapply rtc_l; [apply (os_begin cfg1 _ 0)|].
  eapply rtc_l; [apply (os_settle cfg1 _ 0 false 10); by vm_compute|].
  eapply rtc_l; [apply (os_begin cfg1 _ 40000)|]. constructor.
Defined.

(** Without that assumption two probes run at once: with the default
    configuration, an operation started while the circuit was closed that fails
    during the probe re-opens the circuit and clears the probe's flag. *)
Theorem two_probes_reachable :
  ∃ p, rtc (proc_step (default_config "host-1")) proc_init p ∧ probes p = 2%nat.
Proof.
  set (cfg := default_config "host-1").
  set (b := do_begin cfg). set (f := do_settle cfg 0 false).
  set (p := b 61000 (do_settle cfg 1 false 30900 (b 30500
    (f 5 (f 4 (f 3 (f 2 (f 1 (b 0 (b 0 (b 0 (b 0 (b 0 (b 0 proc_init)))))))))))))).
  exists p. split; [|vm_compute; reflexivity].
  unfold p, b, f. repeat (eapply rtc_r; [|first [apply ps_begin | apply ps_settle]]). constructor.
Qed.

(** The failure window is exact.  From a state without failures, after
    failures at the ordered times [ts] and [now], the circuit holds precisely the
    failures later than [now - windowMs], and it opens at [now] when they reach
    the threshold; otherwise it is as it was before the last one. *)
Theorem failure_window_exact (cfg : config) (ts : list Z) (now : Z) (c : cb)
    (Hs : Sorted Z.le (ts ++ [now])) (Hw : 0 <= windowMs cfg) (Hc : _failures c = []) :
  let before := record_all cfg ts c in
  let after := record_all cfg (ts ++ [now]) c in
  let recent := filter (λ t, now - windowMs cfg < t) (ts ++ [now]) in
  _failures after = recent ∧
  if failureThreshold cfg <=? Z.of_nat (length recent)
  then _state after = OPEN ∧ _openedAt after = Some now ∧ _probeInFlight after = false
  else _state after = _state before ∧ _openedAt after = _openedAt before.
Proof.
  cbv zeta. pose proof (record_all_window cfg ts now c Hs Hw Hc) as Hf. split; [exact Hf|].
  rewrite <- Hf. unfold record_all. rewrite foldl_app. cbn [foldl].
  rewrite record_failures. unfold _recordFailure, _pruneWindow. cbn [_failures _state _openedAt _probeInFlight].
  by destruct (failureThreshold cfg <=? _).
Qed.

Lemma failure_window_exact_witness :
  _state (record_all (default_config "host-1") ([0; 50000; 60001; 60002; 60003] ++ [60004]) initial) = OPEN ∧
  _failures (record_all (default_config "host-1") ([0; 50000; 60001; 60002; 60003] ++ [60004]) initial)
    = filter (λ t, 60004 - 60000 < t) ([0; 50000; 60001; 60002; 60003] ++ [60004]).
Proof.
  split; [vm_compute; reflexivity|].
  refine (proj1 (failure_window_exact (default_config "host-1") [0; 50000; 60001; 60002; 60003]
    60004 initial _ _ eq_refl)).
  - cbn. repeat constructor; lia.
  - cbn. lia.
Defined.

(** An open circuit rejects every call without starting it until the
    cooldown has passed; the first call after it is the probe; its success
    closes the circuit with a clean window, its failure opens it for another
    full cooldown. *)
Theorem open_then_probe (cfg : config) (now opened : Z) (c : cb)
    (Hs : _state c = OPEN) (Ho : _openedAt c = Some opened) :
  (now - opened < cooldownMs cfg → begin_ cfg now c = (FastFailOpen, c, [])) ∧
  (cooldownMs cfg <= now - opened →
     ∃ c', begin_ cfg now c = (Run KProbe, c', [WProbeHolder (instanceId cfg)]) ∧
       (∀ later, (settle cfg KProbe true later c').1 = initial) ∧
       (∀ failed t, 0 <= t < cooldownMs cfg →
          let c'' := (settle cfg KProbe false failed c').1 in
          begin_ cfg (failed + t) c'' = (FastFailOpen, c'', []))).
Proof.
  unfold begin_, _maybeTransitionToHalfOpen. rewrite Hs, Ho. split.
  - intros Hlt. rewrite (proj2 (Z.leb_gt _ _)) by done. by rewrite Hs.
  - intros Hge. rewrite (proj2 (Z.leb_le _ _)) by done. cbn. eexists. split; [reflexivity|].
    split; [done|]. intros failed t Ht. cbn.
    by rewrite (proj2 (Z.leb_gt _ _)) by lia.
Qed.

Lemma open_then_probe_witness :
  begin_ cfg1 100 (mk_cb OPEN [10] (Some 10) false) = (FastFailOpen, mk_cb OPEN [10] (Some 10) false, []).
Proof.
  refine (proj1 (open_then_probe cfg1 100 10 (mk_cb OPEN [10] (Some 10) false) eq_refl eq_refl) _).
  cbn. lia.
Defined.

(** A follower that learns of another instance's probe never probes
    itself: as long as the row stays half-open (the holder crashed), no sequence
    of its own calls and syncs lets any call through, at any time. *)
Theorem follower_never_recovers (cfg : config) (c : cb) (r : db_row) (h : string)
    (Hs : _state c = OPEN) (Hr : row_state r = HALF_OPEN)
    (Hh : row_probeHolder r = Some h) (Hne : h ≠ instanceId cfg)
    (events : list (option Z)) (now : Z) :
  let run c (e : option Z) := match e with
                | Some t => (begin_ cfg t c).1.2
                | None => _syncFromDb cfg (Some r) c
                end in
  let c' := foldl run (_syncFromDb cfg (Some r) c) events in
  begin_ cfg now c' = (FastFailProbe, c', []).
Proof.
  cbv zeta.
  set (c0 := _syncFromDb cfg (Some r) c).
  assert (H0 : _state c0 = HALF_OPEN ∧ _probeInFlight c0 = true).
  { unfold c0, _syncFromDb. rewrite Hr, Hs, Hh. cbn. by rewrite bool_decide_true. }
  clearbody c0. revert c0 H0. induction events as [|[t|] es IH]; intros c0 [H1 H2]; cbn [foldl].
  - unfold begin_, _maybeTransitionToHalfOpen. rewrite H1. cbn. by rewrite ?H1, ?H2.
  - apply IH. unfold begin_, _maybeTransitionToHalfOpen. rewrite H1. cbn. by rewrite ?H1, ?H2.
  - apply IH. unfold _syncFromDb. rewrite Hr, H1. done.
Qed.

Lemma follower_never_recovers_witness :
  let c := mk_cb OPEN [] (Some 0) false in
  let r := mk_row HALF_OPEN 5 0 (Some 0) (Some "host-2") in
  let c' := _syncFromDb cfg1 (Some r) c in
  begin_ cfg1 1000000000 c' = (FastFailProbe, c', []).
Proof.
  refine (follower_never_recovers cfg1 (mk_cb OPEN [] (Some 0) false)
    (mk_row HALF_OPEN 5 0 (Some 0) (Some "host-2")) "host-2" eq_refl eq_refl eq_refl _ [] 1000000000).
  vm_compute. discriminate.
Defined.

End CircuitBreaker.
