(* ===== verification/MultiSig.v ===== *)
(** * Multi-signature transactions ([src/src/services/MultiSigService.js])

    Calls of [addSignature] interleave at their awaits: the read of the row,
    the write of the new signature list and the submission are separate steps
    of a call, over the shared table.  The Stellar SDK (envelope parsing, keys,
    signature checks) and the submission service are parameters. *)

From Stdlib Require Import Ascii.
From S2P Require Import Prelude JsString Errors.
Local Open Scope Z_scope.

Module MultiSig.

Inductive status := Pending | Complete | Submitted | Failed.
#[export] Instance status_eq_dec : EqDecision status.
Proof. solve_decision. Defined.

Record signature := { signer : string; signed_xdr : string }.
#[export] Instance signature_eq_dec : EqDecision signature.
Proof. solve_decision. Defined.

Record tx := mk_tx {
  transaction_xdr : string;
  network_passphrase : string;
  required_signers : Z;
  signer_keys : list string;
  collected_signatures : list signature;
  tx_status : status;
  stellar_tx_hash : option string;
  stellar_ledger : option Z;
}.

Definition with_signatures (t : tx) (l : list signature) (s : status) : tx :=
  mk_tx (transaction_xdr t) (network_passphrase t) (required_signers t) (signer_keys t) l s
    (stellar_tx_hash t) (stellar_ledger t).
Definition with_result (t : tx) (s : status) (h : option string) (l : option Z) : tx :=
  mk_tx (transaction_xdr t) (network_passphrase t) (required_signers t) (signer_keys t)
    (collected_signatures t) s h l.

Section service.
(** The SDK: a parsed envelope, a key, their hash, hints and signatures. *)
Context {envelope keypair : Type}.
Context (fromXDR : string → string → option envelope).
Context (fromPublicKey : string → option keypair).
Context (env_hash : envelope → string).
Context (env_signatures : envelope → list (string * string)).   (* hint, signature *)
Context (signatureHint : keypair → string).
Context (verify : keypair → string → string → bool).            (* a throw is [false] *)

Definition _verifySignerXdr (signerPublicKey xdr passphrase : string) : outcome jserror unit :=
  match fromXDR xdr passphrase with
  | None => Throw ValidationError
  | Some transaction =>
      match fromPublicKey signerPublicKey with
      | None => Throw ValidationError
      | Some signerKeypair =>
          let txHash := env_hash transaction in
          if existsb (λ d, bool_decide (d.1 = signatureHint signerKeypair) &&
                           verify signerKeypair txHash d.2) (env_signatures transaction)
          then Ret () else Throw ValidationError
      end
  end.

(** [createMultiSigTransaction]: the checks, then the inserted row.
    [required] is [None] when it is not an integer. *)
Definition createMultiSigTransaction (xdr passphrase : string) (required : option Z)
    (keys : list string) : outcome jserror tx :=
  if is_empty xdr then Throw ValidationError
  else if is_empty passphrase then Throw ValidationError
  else match required with
       | None => Throw ValidationError
       | Some n =>
           if n <? 2 then Throw ValidationError
           else if Z.of_nat (length keys) <? n then Throw ValidationError
           else if negb (length (remove_dups keys) =? length keys)%nat then Throw ValidationError
           else Ret (mk_tx xdr passphrase n keys [] Pending None None)
       end.

(** [addSignature] up to its second await: the checks on the row read. *)
Definition check_signature (row : option tx) (who xdr : string) : outcome jserror (tx * list signature) :=
  if is_empty who then Throw ValidationError
  else if is_empty xdr then Throw ValidationError
  else match row with
       | None => Throw NotFoundError
       | Some t =>
           if bool_decide (tx_status t ≠ Pending) then
             Throw (BusinessLogicError (code_ref "TRANSACTION_FAILED"))
           else if negb (bool_decide (who ∈ signer_keys t)) then Throw ValidationError
           else if bool_decide (who ∈ (signer <$> collected_signatures t)) then Throw ValidationError
           else _verifySignerXdr who xdr (network_passphrase t);;
                Ret (t, collected_signatures t ++ [{| signer := who; signed_xdr := xdr |}])
       end.

Definition thresholdMet (t : tx) (l : list signature) : bool :=
  required_signers t <=? Z.of_nat (length l).

(** [getSignatures] *)
Definition getSignatures (row : option tx) : outcome jserror (status * list signature * Z * Z) :=
  match row with
  | None => Throw NotFoundError
  | Some t => Ret (tx_status t, collected_signatures t, required_signers t,
                   Z.max 0 (required_signers t - Z.of_nat (length (collected_signatures t))))
  end.

(** ** Interleaved calls *)

(** Where a call of [addSignature] stands. *)
Inductive call :=
| Checked (id : Z) (t : tx) (l : list signature)     (* read and checked, about to write *)
| Submitting (id : Z) (t : tx) (l : list signature). (* written, about to submit *)

(** A submission handed to the network: the row read and the signatures sent. *)
Record submission := { sub_id : Z; sub_tx : tx; sub_signatures : list signature }.

Record st := mk_st {
  rows : gmap Z tx;
  calls : list call;
  submissions : list submission;
}.

Definition init : st := mk_st ∅ [] [].

(** Read and check; a failed check ends the call. *)
Definition do_read (i : Z) (who xdr : string) (s : st) : st :=
  match check_signature (rows s !! i) who xdr with
  | Throw _ => s
  | Ret (t, l) => mk_st (rows s) (calls s ++ [Checked i t l]) (submissions s)
  end.

(** The UPDATE: it replaces the whole list and the status by the call's own. *)
Definition do_write (k : nat) (s : st) : st :=
  match calls s !! k with
  | Some (Checked i t l) =>
      let met := thresholdMet t l in
      mk_st (alter (λ r, with_signatures r l (if met then Complete else Pending)) i (rows s))
        (if met then <[k := Submitting i t l]> (calls s) else delete k (calls s)) (submissions s)
  | _ => s
  end.

(** The submission and the final UPDATE; [None] is a rejected submission. *)
Definition do_submit (k : nat) (result : option (string * option Z)) (s : st) : st :=
  match calls s !! k with
  | Some (Submitting i t l) =>
      mk_st (alter (λ r, match result with
                         | Some (h, ledger) => with_result r Submitted (Some h) ledger
                         | None => with_result r Failed (stellar_tx_hash r) (stellar_ledger r)
                         end) i (rows s))
        (delete k (calls s))
        (submissions s ++ [{| sub_id := i; sub_tx := t; sub_signatures := l |}])
  | _ => s
  end.

Inductive step (s : st) : st → Prop :=
| step_create i xdr passphrase required keys t :
    rows s !! i = None → createMultiSigTransaction xdr passphrase required keys = Ret t →
    step s (mk_st (<[i := t]> (rows s)) (calls s) (submissions s))
| step_read i who xdr : step s (do_read i who xdr s)
| step_write k : step s (do_write k s)
| step_submit k result : step s (do_submit k result s).

(** ** Lemmas *)

(** A signature list in order: distinct authorised signers, each with an
    envelope that the SDK verified under the signer's key. *)
Definition good_list (t : tx) (l : list signature) : Prop :=
  NoDup (signer <$> l) ∧
  Forall (λ x, signer x ∈ signer_keys t ∧
               _verifySignerXdr (signer x) (signed_xdr x) (network_passphrase t) = Ret ()) l.

(** Two versions of one row: the immutable columns. *)
Definition same_tx (t u : tx) : Prop :=
  transaction_xdr t = transaction_xdr u ∧ network_passphrase t = network_passphrase u ∧
  required_signers t = required_signers u ∧ signer_keys t = signer_keys u.

Definition good_tx (t : tx) : Prop :=
  2 <= required_signers t <= Z.of_nat (length (signer_keys t)) ∧ NoDup (signer_keys t) ∧
  good_list t (collected_signatures t).

Definition call_id (c : call) : Z := match c with Checked i _ _ | Submitting i _ _ => i end.

Record inv (s : st) : Prop := {
  inv_rows : ∀ i t, rows s !! i = Some t → good_tx t;
  inv_calls : ∀ c, c ∈ calls s →
    match c with
    | Checked i t l => good_list t l ∧ good_tx t ∧ ∃ r, rows s !! i = Some r ∧ same_tx t r
    | Submitting i t l => good_list t l ∧ good_tx t ∧ thresholdMet t l = true ∧
                          ∃ r, rows s !! i = Some r ∧ same_tx t r
    end;
  inv_subs : ∀ b, b ∈ submissions s →
    good_list (sub_tx b) (sub_signatures b) ∧ thresholdMet (sub_tx b) (sub_signatures b) = true ∧
    ∃ r, rows s !! sub_id b = Some r ∧ same_tx (sub_tx b) r;
}.

Lemma same_tx_refl t : same_tx t t.
Proof. by split_and!. Qed.

Lemma same_tx_trans t u v : same_tx t u → same_tx u v → same_tx t v.
Proof. unfold same_tx. intros (?&?&?&?) (?&?&?&?). split_and!; congruence. Qed.

Lemma good_list_same t u l : same_tx t u → good_list t l → good_list u l.
Proof. intros (_&Hp&_&Hk) [H1 H2]. unfold good_list. rewrite <- Hp, <- Hk. done. Qed.

Lemma check_signature_Ret row who xdr t l :
  check_signature row who xdr = Ret (t, l) → row = Some t ∧ tx_status t = Pending ∧
  l = collected_signatures t ++ [{| signer := who; signed_xdr := xdr |}] ∧
  who ∈ signer_keys t ∧ (who ∉ (signer <$> collected_signatures t)) ∧
  _verifySignerXdr who xdr (network_passphrase t) = Ret ().
Proof.
  unfold check_signature. destruct (is_empty who); [done|]. destruct (is_empty xdr); [done|].
  destruct row as [r|]; [|done]. case_bool_decide as Hs; [done|].
  case_bool_decide as Hk; [|done]. cbn [negb]. case_bool_decide as Hd; [done|].
  destruct (_verifySignerXdr who xdr (network_passphrase r)) as [[]|] eqn:Hv; [|done].
  intros [= <- <-]. split_and!; done.
Qed.

Lemma check_signature_good row who xdr t l :
  good_tx t → check_signature row who xdr = Ret (t, l) → good_list t l.
Proof.
  intros (_ & _ & Hn & Hf) (_ & _ & -> & Hk & Hnew & Hv)%check_signature_Ret. split.
  - rewrite fmap_app. apply NoDup_app. split_and!; [done| |apply NoDup_singleton].
    intros x Hx ->%list_elem_of_singleton. done.
  - apply Forall_app. split; [done|]. by constructor.
Qed.

Lemma remove_dups_length (l : list string) :
  length (remove_dups l) = length l → NoDup l.
Proof.
  assert (Hle : ∀ k : list string, (length (remove_dups k) <= length k)%nat).
  { induction k as [|x k IH]; cbn; [done|]. case_match; cbn; lia. }
  induction l as [|x l IH]; cbn; [constructor|]. case_decide as Hx.
  - specialize (Hle l). lia.
  - intros [= H]. constructor; [exact Hx|by apply IH].
Qed.

Lemma create_good xdr passphrase required keys t :
  createMultiSigTransaction xdr passphrase required keys = Ret t → good_tx t.
Proof.
  unfold createMultiSigTransaction. destruct (is_empty xdr), (is_empty passphrase); try done.
  destruct required as [n|]; [|done].
  destruct (Z.ltb_spec n 2); [done|]. destruct (Z.ltb_spec (Z.of_nat (length keys)) n); [done|].
  destruct (Nat.eqb_spec (length (remove_dups keys)) (length keys)); [|done].
  cbn. intros [= <-]. unfold good_tx. cbn.
  split_and!; [lia|lia|by apply remove_dups_length|]. split; constructor.
Qed.

(** Rows change only in their mutable columns. *)
Lemma inv_update s i f cs subs :
  inv s → (∀ t, rows s !! i = Some t → same_tx t (f t) ∧ good_tx (f t)) →
  (∀ c, c ∈ cs → c ∈ calls s ∨ ∃ t l, c = Submitting i t l ∧ Checked i t l ∈ calls s ∧
     thresholdMet t l = true) →
  (∀ b, b ∈ subs → b ∈ submissions s ∨ Submitting (sub_id b) (sub_tx b) (sub_signatures b) ∈ calls s) →
  inv (mk_st (alter f i (rows s)) cs subs).
Proof.
  intros Hi Hf Hcs Hsubs.
  assert (Hrow : ∀ j t r, rows s !! j = Some r → same_tx t r →
    ∃ r', alter f i (rows s) !! j = Some r' ∧ same_tx t r').
  { intros j t r Hr Ht. destruct (decide (i = j)) as [->|Hne].
    - exists (f r). rewrite lookup_alter_eq, Hr. split; [done|].
      eapply same_tx_trans; [exact Ht|]. by apply Hf.
    - exists r. by rewrite lookup_alter_ne. }
  split; cbn.
  - intros j t. destruct (decide (i = j)) as [->|Hne].
    + rewrite lookup_alter_eq. destruct (rows s !! j) as [r|] eqn:Hr; [|done].
      intros [= <-]. by apply Hf.
    + rewrite lookup_alter_ne by done. apply (inv_rows s Hi).
  - intros c Hc. destruct (Hcs c Hc) as [Hold|(t & l & -> & Hold & Hm)];
      pose proof (inv_calls s Hi _ Hold) as Hg.
    + destruct c; [destruct Hg as (?&?&r&?&?)|destruct Hg as (?&?&?&r&?&?)];
        split_and!; eauto.
    + destruct Hg as (?&?&r&?&?). split_and!; eauto.
  - intros b Hb. destruct (Hsubs b Hb) as [Hold|Hold].
    + destruct (inv_subs s Hi b Hold) as (?&?&r&?&?). split_and!; eauto.
    + destruct (inv_calls s Hi _ Hold) as (?&?&?&r&?&?). split_and!; eauto.
Qed.

Lemma ms_step_inv : preserves step inv.
Proof.
  intros s s' Hi Hs. destruct Hs.
  - split; cbn.
    + intros j u [[-> <-]|[_ Hu]]%lookup_insert_Some; [by eapply create_good|by apply (inv_rows s Hi j)].
    + intros c Hc. pose proof (inv_calls s Hi c Hc) as Hg.
      destruct c; [destruct Hg as (?&?&r&?&?)|destruct Hg as (?&?&?&r&?&?)];
        split_and!; eauto; exists r; (split; [rewrite lookup_insert_ne; congruence|done]).
    + intros b Hb. destruct (inv_subs s Hi b Hb) as (?&?&r&?&?). split_and!; eauto.
      exists r; (split; [rewrite lookup_insert_ne; congruence|done]).
  - unfold do_read. destruct (check_signature _ _ _) as [[t l]|] eqn:Hc; [|done].
    pose proof (check_signature_Ret _ _ _ _ _ Hc) as (Hr & _).
    pose proof (inv_rows s Hi i t Hr) as Hg.
    split; cbn; [apply (inv_rows s Hi)| |apply (inv_subs s Hi)].
    intros c [Hold| ->%list_elem_of_singleton]%elem_of_app; [by apply (inv_calls s Hi)|].
    split_and!; [by eapply check_signature_good|done|]. exists t. split; [done|apply same_tx_refl].
  - unfold do_write. destruct (calls s !! k) as [[i t l|]|] eqn:Hk; try done.
    pose proof (list_elem_of_lookup_2 _ _ _ Hk) as Hin.
    destruct (inv_calls s Hi _ Hin) as (Hl & Ht & r & Hr & Hs).
    apply inv_update; [done| | |by left].
    + intros u Hu. assert (u = r) as -> by congruence. split; [by split_and!|].
      destruct (inv_rows s Hi i r Hr) as (?&?&_). split; [done|]. split; [done|].
      exact (good_list_same t r l Hs Hl).
    + intros c. destruct (thresholdMet t l) eqn:Hm.
      * intros [j Hj]%list_elem_of_lookup. apply list_lookup_insert_Some in Hj
          as [(_ & <- & _)|[_ Hj]]; [right; by eauto|left; by eapply list_elem_of_lookup_2].
      * intros Hc. left. exact (elem_of_sublist _ _ c Hc (sublist_delete _ _)).
  - unfold do_submit. destruct (calls s !! k) as [[|i t l]|] eqn:Hk; try done.
    pose proof (list_elem_of_lookup_2 _ _ _ Hk) as Hin.
    apply inv_update; [done| | |].
    + intros u Hu. destruct (inv_rows s Hi i u Hu) as (?&?&?).
      destruct result as [[]|]; (split; [by split_and!|by split]).
    + intros c Hc. left. exact (elem_of_sublist _ _ c Hc (sublist_delete _ _)).
    + intros b [Hb| ->%list_elem_of_singleton]%elem_of_app; [by left|by right].
Qed.

(** ** Calls one after the other *)

(** [addSignature] run to its end before any other call starts. *)
Definition addSignature (i : Z) (who xdr : string) (result : option (string * option Z)) (s : st) : st :=
  do_submit 0 result (do_write 0 (do_read i who xdr s)).

Inductive serial_step (s : st) : st → Prop :=
| serial_create i xdr passphrase required keys t :
    rows s !! i = None → createMultiSigTransaction xdr passphrase required keys = Ret t →
    serial_step s (mk_st (<[i := t]> (rows s)) (calls s) (submissions s))
| serial_add i who xdr result : serial_step s (addSignature i who xdr result s).

(** Nothing in flight; a submitted row is no longer pending. *)
Definition serial_inv (s : st) : Prop :=
  calls s = [] ∧ NoDup (sub_id <$> submissions s) ∧
  ∀ b, b ∈ submissions s → ∃ r, rows s !! sub_id b = Some r ∧ tx_status r ≠ Pending.

Lemma addSignature_run i who xdr result s :
  calls s = [] →
  addSignature i who xdr result s =
    match check_signature (rows s !! i) who xdr with
    | Throw _ => s
    | Ret (t, l) =>
        if thresholdMet t l then
          mk_st (alter (λ r, match result with
                             | Some (h, ledger) => with_result r Submitted (Some h) ledger
                             | None => with_result r Failed (stellar_tx_hash r) (stellar_ledger r)
                             end) i (alter (λ r, with_signatures r l Complete) i (rows s)))
            [] (submissions s ++ [{| sub_id := i; sub_tx := t; sub_signatures := l |}])
        else mk_st (alter (λ r, with_signatures r l Pending) i (rows s)) [] (submissions s)
    end.
Proof.
  intros Hc. unfold addSignature, do_read.
  destruct (check_signature _ _ _) as [[t l]|e].
  - unfold do_write. rewrite Hc. cbn. destruct (thresholdMet t l); by cbn.
  - unfold do_write, do_submit. rewrite Hc. cbn. by rewrite Hc.
Qed.

Lemma serial_step_inv : preserves serial_step serial_inv.
Proof.
  intros s s' (Hc & Hnd & Hp) Hs. destruct Hs.
  - split; [done|]. split; [done|]. cbn. intros b Hb. destruct (Hp b Hb) as (r & Hr & ?).
    exists r. split; [rewrite lookup_insert_ne; congruence|done].
  - rewrite (addSignature_run _ _ _ _ _ Hc).
    destruct (check_signature _ _ _) as [[t l]|] eqn:Hk; [|done].
    apply check_signature_Ret in Hk as (Hr & Hst & _).
    assert (Hne : ∀ b, b ∈ submissions s → sub_id b ≠ i).
    { intros b Hb <-. destruct (Hp b Hb) as (r & ? & ?). congruence. }
    destruct (thresholdMet t l); (split; [done|]); cbn.
    + rewrite fmap_app. split.
      * apply NoDup_app. split_and!; [done| |apply NoDup_singleton].
        intros x (b & -> & Hb)%list_elem_of_fmap Hx. apply list_elem_of_singleton in Hx.
        exact (Hne b Hb Hx).
      * intros b [Hb| ->%list_elem_of_singleton]%elem_of_app.
        -- rewrite !lookup_alter_ne by (intros Heq; exact (Hne b Hb (eq_sym Heq))). by apply Hp.
        -- cbn. rewrite !lookup_alter_eq, Hr. cbn. eexists. split; [done|]. by destruct result as [[]|].
    + split; [done|]. intros b Hb. rewrite lookup_alter_ne by (intros Heq; exact (Hne b Hb (eq_sym Heq))).
      by apply Hp.
Qed.

(** ** Properties *)

(** Whatever the interleaving of concurrent calls, a transaction reaches
    the network only with at least the required number of signatures, by
    pairwise distinct signers of the transaction's own list, each verified by the
    SDK under the claimed signer's key, and under the stored envelope, passphrase
    and threshold of the row. *)
Theorem submission_authorised (s : st) (b : submission)
    (Hr : rtc step init s) (Hb : b ∈ submissions s) :
  required_signers (sub_tx b) <= Z.of_nat (length (sub_signatures b)) ∧
  NoDup (signer <$> sub_signatures b) ∧
  Forall (λ x, signer x ∈ signer_keys (sub_tx b) ∧
    _verifySignerXdr (signer x) (signed_xdr x) (network_passphrase (sub_tx b)) = Ret ())
    (sub_signatures b) ∧
  ∃ r, rows s !! sub_id b = Some r ∧ same_tx (sub_tx b) r.
Proof.
  assert (Hi : inv s).
  { eapply preserves_rtc; [apply ms_step_inv|exact Hr|]. by split; cbn; intros; set_solver. }
  destruct (inv_subs s Hi b Hb) as ([Hn Hf] & Hm & Hrow).
  unfold thresholdMet in Hm. apply Z.leb_le in Hm. done.
Qed.

(** When calls do not overlap, a transaction is submitted at most once,
    whatever the results of the submissions. *)
Theorem serial_submission_once (s : st) (Hr : rtc serial_step init s) :
  NoDup (sub_id <$> submissions s).
Proof.
  assert (Hi : serial_inv s); [|apply Hi].
  eapply preserves_rtc; [apply serial_step_inv|exact Hr|].
  split; [done|]. split; [constructor|]. cbn. intros b Hb. by apply elem_of_nil in Hb.
Qed.

End service.

(** ** A concrete SDK *)

(** Envelopes are comma-separated signer names; a key is its name. *)
Definition toy_sigs (e : string) : list (string * string) :=
  map (λ k, (k, k)) (split_on "," e).

Definition toy_step := step (λ x _, Some x) Some (λ e, e) toy_sigs (λ k, k) (λ k _ sg, bool_decide (k = sg)).
Definition toy_serial :=
  serial_step (λ x _, Some x) Some (λ e, e) toy_sigs (λ k, k) (λ k _ sg, bool_decide (k = sg)).
Definition toy_read := do_read (λ x _, Some x) Some (λ e, e) toy_sigs (λ k, k)
  (λ k _ sg, bool_decide (k = sg)).
Definition toy_tx : tx := mk_tx "XDR" "net" 2 ["A"; "B"; "C"] [] Pending None None.
Definition toy0 : st := mk_st {[1 := toy_tx]} [] [].

Lemma toy0_step : toy_step init toy0.
Proof. by apply (step_create _ _ _ _ _ _ init 1 "XDR" "net" (Some 2) ["A"; "B"; "C"]). Qed.

(** B and C sign while A's signature is already stored. *)
Definition toy_race : st :=
  do_submit 0 (Some ("h2", None)) (do_submit 0 (Some ("h1", None))
    (do_write 1 (do_write 0 (toy_read 1 "C" "C" (toy_read 1 "B" "B"
      (do_write 0 (toy_read 1 "A" "A" toy0))))))).

Lemma toy_race_reachable : rtc toy_step init toy_race.
Proof.
  unfold toy_race.
  repeat (eapply rtc_r; [|first [apply step_submit | apply step_write | apply step_read]]).
  eapply rtc_r; [constructor|apply toy0_step].
Qed.

Lemma submission_authorised_witness :
  ∃ b, head (submissions toy_race) = Some b ∧
       required_signers (sub_tx b) <= Z.of_nat (length (sub_signatures b)).
Proof.
  eexists. split; [vm_compute; reflexivity|].
  refine (proj1 (submission_authorised _ _ _ _ _ _ toy_race _ toy_race_reachable _)).
  vm_compute. left.
Defined.

Lemma serial_submission_once_witness :
  NoDup (sub_id <$> submissions toy0).
Proof.
  refine (serial_submission_once (λ x _, Some x) Some (λ e, e) toy_sigs (λ k, k)
    (λ k _ sg, bool_decide (k = sg)) toy0 _).
  eapply rtc_l; [|constructor].
  by apply (serial_create _ _ _ _ _ _ init 1 "XDR" "net" (Some 2) ["A"; "B"; "C"]).
Defined.

(** Two signers whose calls overlap both see the threshold met, and the
    transaction is submitted twice. *)
Theorem concurrent_double_submission :
  ∃ s, rtc toy_step init s ∧ (sub_id <$> submissions s) = [1; 1] ∧
       (λ b, signer <$> sub_signatures b) <$> submissions s = [["A"; "B"]; ["A"; "C"]].
Proof.
  exists toy_race. split; [apply toy_race_reachable|]. split; vm_compute; reflexivity.
Qed.

End MultiSig.
