(* ===== verification/Routing.v ===== *)
(** * Donation routing ([src/src/services/DonationRouter.js],
      [src/src/services/routing/], [RoundRobinStateRepository.js],
      [RecipientPoolRepository.js])

    The strategies share one loop shape: keep the best key seen and the
    smallest identifier among equals.  [select_best] is that loop over any
    comparison; the strategies instantiate it. *)

From Stdlib Require Import SpecFloat.
From S2P Require Import Prelude JsString JsNumber Errors.
Local Open Scope Z_scope.

Module Routing.

(** ** The selection loop *)

Section select.
Context {A K : Type} (id : A → string) (key : A → K) (cmp : K → K → option comparison).

Definition klt (a b : K) : bool := if cmp a b is Some Lt then true else false.
Definition keq (a b : K) : bool := if cmp a b is Some Eq then true else false.

(** [recipient.id < selectedId]; a comparison with [null] is false. *)
Definition id_below (i : string) (sel : option string) : bool :=
  match sel with Some s => str_ltb i s | None => false end.

(** The loop body; [eligible] is false where the strategy excludes. *)
Fixpoint select_go (eligible : A → bool) (best : K) (sel : option string) (excluded : list string)
    (pool : list A) : option string * list string :=
  match pool with
  | [] => (sel, excluded)
  | r :: pool =>
      if negb (eligible r) then select_go eligible best sel (excluded ++ [id r]) pool
      else if klt (key r) best || (keq (key r) best && id_below (id r) sel)
      then select_go eligible (key r) (Some (id r)) excluded pool
      else select_go eligible best sel excluded pool
  end.

(** Comparison through a rank; keys without a rank (NaN) compare false. *)
Context (rk : K → option (Z * Z * Z)).
Context (cmp_rk : ∀ a b, cmp a b = match rk a, rk b with
                                   | Some k, Some l => Some (key_compare k l)
                                   | _, _ => None
                                   end).

Lemma key_compare_eq k l : key_compare k l = Eq → k = l.
Proof.
  destruct k as [[a b] c], l as [[a' b'] c']. cbn.
  destruct (Z.compare_spec a a'), (Z.compare_spec b b'), (Z.compare_spec c c'); try done.
  intros _. by subst.
Qed.

Lemma key_compare_refl k : key_compare k k = Eq.
Proof. destruct k as [[a b] c]. cbn. by rewrite !Z.compare_refl. Qed.

Lemma klt_rk a b : klt a b = true ↔ ∃ k l, rk a = Some k ∧ rk b = Some l ∧ key_lt k l.
Proof.
  unfold klt. rewrite cmp_rk. destruct (rk a) as [k|], (rk b) as [l|]; try naive_solver.
  pose proof (key_compare_lt k l). destruct (key_compare k l); naive_solver.
Qed.

Lemma keq_rk a b : keq a b = true ↔ ∃ k, rk a = Some k ∧ rk b = Some k.
Proof.
  unfold keq. rewrite cmp_rk. destruct (rk a) as [k|], (rk b) as [l|]; try naive_solver.
  split.
  - intros H. exists k. split; [done|]. f_equal. symmetry. apply key_compare_eq.
    by destruct (key_compare k l).
  - intros (n & [= ->] & [= ->]). by rewrite key_compare_refl.
Qed.

(** [a] is at least as good a choice as [b]: a smaller key, or the same key
    and an identifier that is not larger. *)
Definition better (a b : A) : Prop :=
  ∃ k l, rk (key a) = Some k ∧ rk (key b) = Some l ∧
         (key_lt k l ∨ (k = l ∧ str_ltb (id b) (id a) = false)).

Lemma better_refl a : is_Some (rk (key a)) → better a a.
Proof. intros [k Hk]. exists k, k. split_and!; [done..|]. right. split; [done|apply str_ltb_irrefl]. Qed.

Lemma better_trans a b c : better a b → better b c → better a c.
Proof.
  intros (k & l & Hk & Hl & H1) (l' & m & Hl' & Hm & H2). assert (l' = l) as -> by congruence.
  exists k, m. split_and!; [done..|].
  destruct H1 as [H1|[-> H1]], H2 as [H2|[-> H2]]; eauto using key_lt_trans, str_geb_trans.
Qed.

(** The test of the loop decides between the two. *)
Lemma loop_test a r :
  is_Some (rk (key a)) → is_Some (rk (key r)) →
  if klt (key r) (key a) || (keq (key r) (key a) && id_below (id r) (Some (id a)))
  then better r a else better a r.
Proof.
  intros [k Hk] [l Hl]. unfold klt, keq. rewrite cmp_rk, Hk, Hl. cbn.
  pose proof (key_compare_lt l k) as Hlt. pose proof (key_compare_gt l k) as Hgt.
  pose proof (key_compare_eq l k) as Heq.
  destruct (key_compare l k); cbn.
  - destruct (str_ltb (id r) (id a)) eqn:Hid.
    + exists l, k. split_and!; [done..|]. right. split; [auto|by apply str_ltb_asym].
    + exists k, l. split_and!; [done..|]. right. split; [symmetry; auto|done].
  - exists l, k. split_and!; [done..|]. left. by apply Hlt.
  - exists k, l. split_and!; [done..|]. left. by apply Hgt.
Qed.

(** The loop from a current choice [a]. *)
Lemma select_go_from eligible a excluded pool :
  is_Some (rk (key a)) → (∀ x, x ∈ pool → eligible x = true → is_Some (rk (key x))) →
  ∃ r, select_go eligible (key a) (Some (id a)) excluded pool =
         (Some (id r), excluded ++ (id <$> filter (λ x, eligible x = false) pool)) ∧
       (r = a ∨ (r ∈ pool ∧ eligible r = true)) ∧
       better r a ∧ ∀ x, x ∈ pool → eligible x = true → better r x.
Proof.
  revert a excluded. induction pool as [|y pool IH]; intros a excluded Ha Hpool.
  { exists a. cbn. rewrite app_nil_r. split_and!; [done|by left|by apply better_refl|].
    intros x Hx. by apply elem_of_nil in Hx. }
  assert (Hrest : ∀ x, x ∈ pool → eligible x = true → is_Some (rk (key x))).
  { intros x Hx. apply Hpool. by right. }
  cbn [select_go]. rewrite filter_cons. destruct (eligible y) eqn:Hy; cbn [negb].
  2:{ rewrite decide_True by done. destruct (IH a (excluded ++ [id y]) Ha Hrest) as (r & Hr & Hin & Hb & Hall).
      exists r. rewrite Hr, <- app_assoc. split_and!; [done| |done|].
      - destruct Hin as [->|[? ?]]; [by left|right; split; [by right|done]].
      - intros x [->|Hx]%elem_of_cons Hex; [congruence|by apply Hall]. }
  rewrite decide_False by congruence.
  assert (Hry : is_Some (rk (key y))) by (apply Hpool; [left|done]).
  pose proof (loop_test a y Ha Hry) as Ht.
  destruct (_ || _).
  - destruct (IH y excluded Hry Hrest) as (r & Hr & Hin & Hb & Hall).
    exists r. split_and!; [done| |by eapply better_trans|].
    + right. destruct Hin as [->|[? ?]]; split; [left|done|by right|done].
    + intros x [->|Hx]%elem_of_cons Hex; [done|by apply Hall].
  - destruct (IH a excluded Ha Hrest) as (r & Hr & Hin & Hb & Hall).
    exists r. split_and!; [done| |done|].
    + destruct Hin as [->|[? ?]]; [by left|right; split; [by right|done]].
    + intros x [->|Hx]%elem_of_cons Hex; [by eapply better_trans|by apply Hall].
Qed.

(** The whole loop, from the neutral key: nothing eligible gives [null], else
    the best eligible element; the excluded ones in order. *)
Lemma select_go_spec eligible best pool :
  (∀ x, x ∈ pool → eligible x = true → is_Some (rk (key x)) ∧ klt (key x) best = true) →
  let '(sel, excluded) := select_go eligible best None [] pool in
  excluded = id <$> filter (λ x, eligible x = false) pool ∧
  match sel with
  | None => ∀ x, x ∈ pool → eligible x = false
  | Some i => ∃ r, r ∈ pool ∧ eligible r = true ∧ i = id r ∧
                   ∀ x, x ∈ pool → eligible x = true → better r x
  end.
Proof.
  intros Hpool.
  assert (Hgen : ∀ excluded,
    select_go eligible best None excluded pool =
      match filter (λ x, eligible x = true) pool with
      | [] => (None, excluded ++ (id <$> filter (λ x, eligible x = false) pool))
      | _ => select_go eligible best None excluded pool
      end ∧ (filter (λ x, eligible x = true) pool ≠ [] → ∃ r,
        select_go eligible best None excluded pool =
          (Some (id r), excluded ++ (id <$> filter (λ x, eligible x = false) pool)) ∧
        r ∈ pool ∧ eligible r = true ∧ ∀ x, x ∈ pool → eligible x = true → better r x)).
  { induction pool as [|y pool IH]; intros excluded.
    { split; [|done]. cbn. by rewrite app_nil_r. }
    assert (Hrest : ∀ x, x ∈ pool → eligible x = true → is_Some (rk (key x)) ∧ klt (key x) best = true).
    { intros x Hx. apply Hpool. by right. }
    cbn [select_go]. rewrite !filter_cons. destruct (eligible y) eqn:Hy; cbn [negb].
    - rewrite decide_True, decide_False by congruence. split; [done|]. intros _.
      destruct (Hpool y ltac:(left) Hy) as [Hry Hlt]. rewrite Hlt. cbn [orb].
      destruct (select_go_from eligible y excluded pool Hry) as (r & Hr & Hin & Hb & Hall).
      { intros x Hx Hex. by apply Hrest. }
      exists r. split_and!; [done| | |].
      + destruct Hin as [->|[? _]]; [left|by right].
      + by destruct Hin as [->|[_ ?]].
      + intros x [->|Hx]%elem_of_cons Hex; [done|by apply Hall].
    - rewrite decide_False, decide_True by congruence.
      destruct (IH Hrest (excluded ++ [id y])) as [H1 H2]. rewrite <- app_assoc in H1, H2. split.
      + rewrite H1 at 1. destruct (filter _ pool) eqn:Hf; [done|]. symmetry. reflexivity.
      + intros Hne. destruct (H2 Hne) as (r & Hr & Hin & Hb & Hall). exists r.
        split_and!; [done|by right|done|].
        intros x [->|Hx]%elem_of_cons Hex; [congruence|by apply Hall]. }
  destruct (Hgen []) as [H1 H2].
  destruct (filter (λ x, eligible x = true) pool) as [|y l] eqn:Hf.
  - rewrite H1. cbn. split; [done|]. intros x Hx. apply not_true_is_false. intros Hex.
    assert (Hin : x ∈ filter (λ x, eligible x = true) pool) by by apply list_elem_of_filter.
    rewrite Hf in Hin. by apply elem_of_nil in Hin.
  - destruct (H2 ltac:(done)) as (r & -> & ? & ? & ?). cbn. split; [done|]. by exists r.
Qed.

End select.
(** ** Strategies *)

Record recipient := mk_recipient {
  rid : string;
  displayName : option string;
  latitude : option num;
  longitude : option num;
  campaignDeadline : option Z;
  weight : num;
  priority : num;
}.

(** The result of [select]: [selectedId] may be [null]. *)
Definition selection : Type := option string * list string.

(** Numbers with [Infinity] above them: the running minimum. *)
Definition ext_compare (a b : option Z) : option comparison :=
  Some (match a, b with
        | Some x, Some y => Z.compare x y
        | Some _, None => Lt
        | None, Some _ => Gt
        | None, None => Eq
        end).
Definition ext_rank (a : option Z) : option (Z * Z * Z) :=
  Some (match a with Some x => (0, x, 0) | None => (1, 0, 0) end).

Lemma ext_compare_rank a b :
  ext_compare a b = match ext_rank a, ext_rank b with
                    | Some k, Some l => Some (key_compare k l)
                    | _, _ => None
                    end.
Proof.
  destruct a as [x|], b as [y|]; try done. unfold ext_compare. cbn. by destruct (Z.compare x y).
Qed.

(** [donationTotals.get(id) ?? 0] *)
Definition total_of (totals : gmap string Z) (r : recipient) : Z := default 0 (totals !! rid r).

Definition select_highest_need (pool : list recipient) (totals : gmap string Z) : selection :=
  select_go rid (λ r, Some (total_of totals r)) ext_compare (λ _, true) None None [] pool.

Definition select_campaign_urgency (pool : list recipient) (now : Z) : outcome jserror selection :=
  match select_go rid (λ r, (λ d, d - now) <$> campaignDeadline r) ext_compare
          (λ r, match campaignDeadline r with Some d => negb (d <? now) | None => false end)
          None None [] pool with
  | (None, _) => Throw (BusinessLogicError (code_ref "NO_ACTIVE_CAMPAIGNS"))
  | s => Ret s
  end.

(** [haversine]: trigonometry is the host's; the distance is a parameter. *)
Definition select_geographic (haversine : num → num → num → num → num) (pool : list recipient)
    (donor : option (num * num)) : outcome jserror selection :=
  match donor with
  | None => Throw (ValidationError_with (code_ref "DONOR_COORDINATES_REQUIRED"))
  | Some (dlat, dlon) =>
      match select_go rid
              (λ r, match latitude r, longitude r with
                    | Some la, Some lo => haversine dlat dlon la lo
                    | _, _ => S754_nan
                    end) SFcompare
              (λ r, bool_decide (latitude r ≠ None) && bool_decide (longitude r ≠ None))
              num_inf None [] pool with
      | (None, _) => Throw (BusinessLogicError (code_ref "NO_ELIGIBLE_RECIPIENTS"))
      | s => Ret s
      end
  end.

(** The greatest priority: comparison the other way round. *)
Definition select_priority (pool : list recipient) : selection :=
  select_go rid priority (λ a b, SFcompare b a) (λ _, true) (S754_infinity true) None [] pool.

(** [get(id) || 0]: a zero BigInt is falsy and becomes the Number 0, so the
    comparator subtracts Numbers only when both totals are zero; otherwise the
    subtraction or the result's conversion to a Number is a TypeError.  With two
    elements or more every element is compared at least once. *)
Definition select_lowest_total (pool : list recipient) (totals : gmap string Z) : outcome jserror selection :=
  match pool with
  | [] => Throw (EPlain "Pool is empty")
  | r :: rest =>
      if negb (bool_decide (rest = [])) && existsb (λ r, negb (total_of totals r =? 0)) pool
      then Throw (EType "Cannot convert a BigInt value to a number")
      else Ret (Some (rid r), [])
  end.

(** [random] is the value of [Math.random()]. *)
Definition select_random (pool : list recipient) (random : num) : outcome jserror selection :=
  match pool with
  | [] => Throw (EPlain "Pool is empty")
  | _ =>
      match num_floor_Z (num_mul random (num_of_Z (Z.of_nat (length pool)))) with
      | Some i => match pool !! Z.to_nat i with
                  | Some r => Ret (Some (rid r), [])
                  | None => Throw (EType "recipient is undefined")
                  end
      | None => Throw (EType "recipient is undefined")
      end
  end.

Fixpoint weighted_go (rand : num) (l : list (recipient * num)) : option string :=
  match l with
  | [] => None
  | (r, w) :: l => let rand := num_sub rand w in
                   if num_leb rand num_zero then Some (rid r) else weighted_go rand l
  end.

Definition select_weighted (pool : list recipient) (random : num) : outcome jserror selection :=
  let weights := map (λ r, if num_gtb (weight r) num_zero then weight r else num_of_Z 1) pool in
  let total := foldl num_add num_zero weights in
  match weighted_go (num_mul random total) (zip pool weights) with
  | Some i => Ret (Some i, [])
  | None => match last pool with
            | Some r => Ret (Some (rid r), [])
            | None => Throw (EType "pool[-1] is undefined")
            end
  end.

Definition select_round_robin (pool : list recipient) (currentIndex : Z) : outcome jserror selection :=
  let safeIndex := if Z.of_nat (length pool) <=? currentIndex then 0 else currentIndex in
  match pool !! Z.to_nat safeIndex with
  | Some r => Ret (Some (rid r), [])
  | None => Throw (EType "recipient is undefined")
  end.

(** ** Repositories *)

Record decision := {
  donationId : string;
  poolName : string;
  strategy : string;
  selectedId : option string;
  candidates : list string;
  excluded : list (string * string);
  decidedAt : Z;
}.

Record st := mk_st {
  pools : gmap string (list recipient);   (* recipient_pools with their members *)
  round_robin_state : gmap string Z;
  routing_decisions : list decision;
}.

Definition M := stx jserror st.

(** [RecipientPoolRepository] *)
Definition insert_member (members : list recipient) (r : recipient) : list recipient :=
  filter (λ m, rid m ≠ rid r) members ++ [r].
Definition pool_create (name : string) (recipients : list recipient) : M unit := λ s,
  match pools s !! name with
  | Some _ => (Throw (DuplicateError (code_ref "POOL_ALREADY_EXISTS")), s)
  | None => (Ret (), mk_st (<[name := foldl insert_member [] recipients]> (pools s))
                       (round_robin_state s) (routing_decisions s))
  end.
Definition getByName (name : string) : M (list recipient) := λ s,
  match pools s !! name with
  | Some l => (Ret l, s)
  | None => (Throw (NotFoundError_with (code_ref "POOL_NOT_FOUND")), s)
  end.
Definition listMembers : string → M (list recipient) := getByName.

(** [RoundRobinStateRepository] *)
Definition getIndex (s : st) (name : string) : Z := default 0 (round_robin_state s !! name).
Definition set_index (name : string) (i : Z) : M unit :=
  modify_st (λ s, mk_st (pools s) (<[name := i]> (round_robin_state s)) (routing_decisions s)).
Definition rr_reset (name : string) : M unit := set_index name 0.
Definition incrementAndWrap (name : string) (poolSize : Z) : M Z :=
  s ← get_st;
  let current := getIndex s name in
  let used := Z.rem current poolSize in
  let next := Z.rem (used + 1) poolSize in
  set_index name next;;
  mret used.

Definition put_pool (name : string) (l : list recipient) : M unit :=
  modify_st (λ s, mk_st (<[name := l]> (pools s)) (round_robin_state s) (routing_decisions s)).
Definition addMembers (name : string) (recipients : list recipient) (reset : bool) : M unit :=
  l ← getByName name;
  put_pool name (foldl insert_member l recipients);;
  when reset (rr_reset name).
Definition removeMembers (name : string) (ids : list string) (reset : bool) : M unit :=
  l ← getByName name;
  if forallb (λ i, bool_decide (i ∈ rid <$> l)) ids then
    put_pool name (filter (λ r, rid r ∉ ids) l);;
    when reset (rr_reset name)
  else throw (ValidationError_with (code_ref "RECIPIENT_NOT_IN_POOL")).
Definition pool_delete (name : string) : M unit :=
  getByName name;;
  modify_st (λ s, mk_st (delete name (pools s)) (round_robin_state s) (routing_decisions s)).

(** ** The router *)

Definition VALID_STRATEGIES : list string :=
  ["highest-need"; "geographic"; "campaign-urgency"; "round-robin"; "weighted"; "priority";
   "lowest_total"; "random"].

Definition _exclusionReason (s : string) : string :=
  if bool_decide (s = "geographic") then "missing coordinates"
  else if bool_decide (s = "campaign-urgency") then "missing or expired campaign deadline"
  else "excluded".

Record request := {
  q_poolName : string;
  q_strategy : string;
  q_donor : option (num * num);
  q_donationId : string;
  q_now : Z;
}.

Section router.
(** The great-circle distance, [Math.random()], and the totals of the last
    thirty days. *)
Context (haversine : num → num → num → num → num) (random : num) (totals : gmap string Z).

Definition select (q : request) (pool : list recipient) : M selection :=
  if bool_decide (q_strategy q = "highest-need") then mret (select_highest_need pool totals)
  else if bool_decide (q_strategy q = "geographic") then
    lift_out (select_geographic haversine pool (q_donor q))
  else if bool_decide (q_strategy q = "campaign-urgency") then
    lift_out (select_campaign_urgency pool (q_now q))
  else if bool_decide (q_strategy q = "round-robin") then
    currentIndex ← incrementAndWrap (q_poolName q) (Z.of_nat (length pool));
    lift_out (select_round_robin pool currentIndex)
  else if bool_decide (q_strategy q = "weighted") then lift_out (select_weighted pool random)
  else if bool_decide (q_strategy q = "priority") then mret (select_priority pool)
  else if bool_decide (q_strategy q = "lowest_total") then lift_out (select_lowest_total pool totals)
  else lift_out (select_random pool random).

(** [(recipientId, recipientName)] *)
Definition route (q : request) : M (option string * option string) :=
  if negb (bool_decide (q_strategy q ∈ VALID_STRATEGIES)) then
    throw (ValidationError_with (code_ref "INVALID_ROUTING_STRATEGY"))
  else
    pool ← listMembers (q_poolName q);
    if bool_decide (pool = []) then throw (BusinessLogicError (code_ref "POOL_EMPTY"))
    else
      result ← select q pool;
      let '(selectedId, excludedIds) := result in
      let d := {| donationId := q_donationId q; poolName := q_poolName q; strategy := q_strategy q;
                  selectedId := selectedId; candidates := rid <$> pool;
                  excluded := map (λ i, (i, _exclusionReason (q_strategy q))) excludedIds;
                  decidedAt := q_now q |} in
      modify_st (λ s, mk_st (pools s) (round_robin_state s) (routing_decisions s ++ [d]));;
      let selectedMember := find_first (λ r, bool_decide (Some (rid r) = selectedId)) pool in
      mret (selectedId,
            match selectedMember with
            | Some m => match displayName m with
                        | Some n => if is_empty n then selectedId else Some n
                        | None => selectedId
                        end
            | None => selectedId
            end).
End router.

(** ** Lemmas *)

Lemma select_go_elem {A K} (id : A → string) (key : A → K) cmp eligible best sel excluded pool i :
  (select_go id key cmp eligible best sel excluded pool).1 = Some i →
  sel = Some i ∨ i ∈ id <$> pool.
Proof.
  revert best sel excluded. induction pool as [|r pool IH]; intros best sel excluded; cbn; [by left|].
  destruct (eligible r); cbn [negb]; [|intros [?|?]%IH; [by left|right; by right]].
  destruct (_ || _); intros [H|?]%IH; try (right; by right); [|by left].
  injection H as ->. right. left.
Qed.

Lemma weighted_go_elem rand l i : weighted_go rand l = Some i → i ∈ rid <$> l.*1.
Proof.
  revert rand. induction l as [|[r w] l IH]; intros rand; cbn; [done|].
  case_match; [intros [= <-]; left|intros ?%IH; by right].
Qed.

Lemma zip_fst_elem {A B} (l : list A) (k : list B) x : x ∈ (zip l k).*1 → x ∈ l.
Proof.
  revert k. induction l as [|y l IH]; intros [|z k]; cbn; try by intros ?%elem_of_nil.
  intros [->|?]%elem_of_cons; [left|right; eauto].
Qed.

Lemma total_ranked totals (r : recipient) :
  is_Some (ext_rank (Some (total_of totals r))) ∧
  klt ext_compare (Some (total_of totals r)) None = true.
Proof. split; [eexists|]; reflexivity. Qed.

(** [incrementAndWrap] on a pool of [n] members. *)
Lemma incrementAndWrap_run name n s :
  0 < n → 0 <= getIndex s name →
  incrementAndWrap name n s =
    (Ret (getIndex s name mod n),
     mk_st (pools s) (<[name := (getIndex s name + 1) mod n]> (round_robin_state s))
       (routing_decisions s)).
Proof.
  intros Hn Hi. unfold incrementAndWrap. run_st.
  pose proof (Z.mod_pos_bound (getIndex s name) n Hn).
  rewrite !Z.rem_mod_nonneg by lia. by rewrite Zplus_mod_idemp_l.
Qed.

(** The selection of every strategy is in the pool, and leaves the pools and
    the decisions alone. *)
Lemma select_frame haversine random totals q pool s :
  let '(r, s') := select haversine random totals q pool s in
  pools s' = pools s ∧ routing_decisions s' = routing_decisions s ∧
  match r with
  | Ret (Some i, _) => i ∈ rid <$> pool
  | Ret (None, _) => q_strategy q = "priority" ∨ pool = []
  | Throw _ => True
  end.
Proof.
  unfold select. run_st.
  destruct (decide (q_strategy q = "highest-need")) as [Hh|Hh].
  { rewrite bool_decide_true by done. split; [done|]. split; [done|].
    unfold select_highest_need.
    pose proof (select_go_elem rid (λ r, Some (total_of totals r)) ext_compare (λ _, true) None None [] pool) as He.
    pose proof (select_go_spec rid (λ r, Some (total_of totals r)) ext_compare ext_rank
      ext_compare_rank (λ _, true) None pool (λ x _ _, total_ranked totals x)) as Hs.
    destruct (select_go _ _ _ _ _ _ _ _) as [[i|] ex]; cbn in *.
    - destruct (He i eq_refl); done.
    - right. destruct Hs as [_ Hs]. destruct pool as [|y pool]; [done|].
      specialize (Hs y ltac:(left)). done. }
  rewrite bool_decide_false by done.
  destruct (decide (q_strategy q = "geographic")) as [Hg|Hg].
  { rewrite bool_decide_true by done. unfold select_geographic.
    destruct (q_donor q) as [[la lo]|]; [|done].
    match goal with |- context [select_go ?a ?b ?c ?d ?e ?f ?g ?h] =>
      pose proof (select_go_elem a b c d e f g h) as He; destruct (select_go a b c d e f g h) as [[i|] ex] end;
      [|done]. cbn in *. by destruct (He i eq_refl). }
  rewrite bool_decide_false by done.
  destruct (decide (q_strategy q = "campaign-urgency")) as [Hc|Hc].
  { rewrite bool_decide_true by done. unfold select_campaign_urgency.
    match goal with |- context [select_go ?a ?b ?c ?d ?e ?f ?g ?h] =>
      pose proof (select_go_elem a b c d e f g h) as He; destruct (select_go a b c d e f g h) as [[i|] ex] end;
      [|done]. cbn in *. by destruct (He i eq_refl). }
  rewrite bool_decide_false by done.
  destruct (decide (q_strategy q = "round-robin")) as [Hr|Hr].
  { rewrite bool_decide_true by done. cbn. unfold select_round_robin.
    destruct (pool !! _) as [r|] eqn:Hl; [|done]. split; [done|]. split; [done|].
    apply list_elem_of_fmap. exists r. split; [done|by eapply list_elem_of_lookup_2]. }
  rewrite bool_decide_false by done.
  destruct (decide (q_strategy q = "weighted")) as [Hw|Hw].
  { rewrite bool_decide_true by done. unfold select_weighted.
    destruct (weighted_go _ _) as [i|] eqn:Hi.
    - split; [done|]. split; [done|]. apply weighted_go_elem in Hi.
      apply list_elem_of_fmap in Hi as (r & -> & Hin). apply list_elem_of_fmap. exists r.
      split; [done|]. by eapply zip_fst_elem.
    - destruct (last pool) as [r|] eqn:Hl; [|done]. split; [done|]. split; [done|].
      apply list_elem_of_fmap. exists r. split; [done|]. by apply last_Some_elem_of. }
  rewrite bool_decide_false by done.
  destruct (decide (q_strategy q = "priority")) as [Hp|Hp].
  { rewrite bool_decide_true by done. split; [done|]. split; [done|]. unfold select_priority.
    match goal with |- context [select_go ?a ?b ?c ?d ?e ?f ?g ?h] =>
      pose proof (select_go_elem a b c d e f g h) as He; destruct (select_go a b c d e f g h) as [[i|] ex] end;
      [|by left]. cbn in *. by destruct (He i eq_refl). }
  rewrite bool_decide_false by done.
  destruct (bool_decide (q_strategy q = "lowest_total")).
  { unfold select_lowest_total. destruct pool as [|r pool]; [done|].
    destruct (_ && _); [done|]. split_and!; [done|done|left]. }
  unfold select_random. destruct pool as [|r0 pool]; [done|].
  destruct (num_floor_Z _) as [i|]; [|done]. destruct (_ !! _) as [r|] eqn:Hl; [|done].
  split_and!; [done|done|]. apply list_elem_of_fmap. exists r.
  split; [done|by eapply list_elem_of_lookup_2].
Qed.

(** [route] with the monad unfolded. *)
Lemma route_run haversine random totals q s :
  route haversine random totals q s =
    if negb (bool_decide (q_strategy q ∈ VALID_STRATEGIES)) then
      (Throw (ValidationError_with (code_ref "INVALID_ROUTING_STRATEGY")), s)
    else match pools s !! q_poolName q with
    | None => (Throw (NotFoundError_with (code_ref "POOL_NOT_FOUND")), s)
    | Some pool =>
        if bool_decide (pool = []) then (Throw (BusinessLogicError (code_ref "POOL_EMPTY")), s)
        else match select haversine random totals q pool s with
             | (Throw e, s') => (Throw e, s')
             | (Ret (sel, ex), s') =>
                 (Ret (sel, match find_first (λ r, bool_decide (Some (rid r) = sel)) pool with
                            | Some m => match displayName m with
                                        | Some n => if is_empty n then sel else Some n
                                        | None => sel
                                        end
                            | None => sel
                            end),
                  mk_st (pools s') (round_robin_state s') (routing_decisions s' ++
                    [{| donationId := q_donationId q; poolName := q_poolName q; strategy := q_strategy q;
                        selectedId := sel; candidates := rid <$> pool;
                        excluded := map (λ i, (i, _exclusionReason (q_strategy q))) ex;
                        decidedAt := q_now q |}]))
             end
    end.
Proof.
  unfold route. destruct (negb _); [done|].
  unfold mbind, stx_bind, listMembers, getByName. destruct (pools s !! q_poolName q) as [l|]; [|done].
  destruct (bool_decide (l = [])); [done|].
  by destruct (select haversine random totals q l s) as [[[sel ex]|e] s'].
Qed.

Lemma select_round_robin_run haversine random totals q l s :
  q_strategy q = "round-robin" → 0 < Z.of_nat (length l) → 0 <= getIndex s (q_poolName q) →
  select haversine random totals q l s =
    (select_round_robin l (getIndex s (q_poolName q) mod Z.of_nat (length l)),
     mk_st (pools s) (<[q_poolName q := (getIndex s (q_poolName q) + 1) mod Z.of_nat (length l)]>
       (round_robin_state s)) (routing_decisions s)).
Proof.
  intros Hq Hn Hi. unfold select. rewrite !Hq.
  do 3 rewrite bool_decide_false by done. rewrite bool_decide_true by done.
  unfold mbind, stx_bind. cbv beta. by rewrite incrementAndWrap_run.
Qed.

(** [k] routings one after the other; the identifiers selected. *)
Fixpoint route_many haversine random totals (k : nat) (q : request) (s : st) : list (option string) :=
  match k with
  | O => []
  | S k => let '(r, s') := route haversine random totals q s in
           (match r with Ret (sel, _) => sel | Throw _ => None end)
             :: route_many haversine random totals k q s'
  end.

Lemma route_round_robin haversine random totals q s l :
  q_strategy q = "round-robin" → pools s !! q_poolName q = Some l → l ≠ [] →
  0 <= getIndex s (q_poolName q) →
  let n := Z.of_nat (length l) in
  let i := getIndex s (q_poolName q) mod n in
  let '(r, s') := route haversine random totals q s in
  (∃ x name, l !! Z.to_nat i = Some x ∧ r = Ret (Some (rid x), name)) ∧
  pools s' = pools s ∧ getIndex s' (q_poolName q) = (getIndex s (q_poolName q) + 1) mod n.
Proof.
  intros Hq Hl Hne Hi. cbv zeta.
  assert (Hn : 0 < Z.of_nat (length l)) by (destruct l; cbn in *; [done|lia]).
  rewrite route_run.
  rewrite (bool_decide_true (_ ∈ _)) by (rewrite Hq; by apply (bool_decide_unpack _)).
  rewrite Hl, (bool_decide_false (l = [])) by done. cbn [negb].
  rewrite select_round_robin_run by done.
  pose proof (Z.mod_pos_bound (getIndex s (q_poolName q)) _ Hn) as Hb.
  unfold select_round_robin. rewrite (proj2 (Z.leb_gt _ _)) by lia.
  destruct (lookup_lt_is_Some_2 l (Z.to_nat (getIndex s (q_poolName q) mod Z.of_nat (length l)))) as [x Hx];
    [lia|].
  rewrite Hx. split; [eauto|]. split; [done|].
  unfold getIndex at 1. cbn. by rewrite lookup_insert_eq.
Qed.

Lemma route_many_lookup haversine random totals k q s l :
  q_strategy q = "round-robin" → pools s !! q_poolName q = Some l → l ≠ [] →
  0 <= getIndex s (q_poolName q) →
  route_many haversine random totals k q s =
    (λ j, rid <$> l !! Z.to_nat ((getIndex s (q_poolName q) + Z.of_nat j) mod Z.of_nat (length l)))
      <$> seq 0 k.
Proof.
  intros Hq Hl Hne. revert s Hl. induction k as [|k IH]; intros s Hl Hi; [done|].
  assert (Hn : 0 < Z.of_nat (length l)) by (destruct l; cbn in *; [done|lia]).
  pose proof (route_round_robin haversine random totals q s l Hq Hl Hne Hi) as Hr. cbv zeta in Hr.
  cbn [route_many]. destruct (route haversine random totals q s) as [r s'].
  destruct Hr as ((x & name & Hx & ->) & Hp & Hg).
  pose proof (Z.mod_pos_bound (getIndex s (q_poolName q) + 1) _ Hn) as Hb.
  rewrite IH; [|congruence|rewrite Hg; lia]. cbn [seq]. rewrite fmap_cons, Z.add_0_r, Hx. f_equal.
  rewrite <- fmap_S_seq, <- list_fmap_compose. apply list_fmap_ext. intros j j' _. cbv beta delta [compose].
  rewrite Hg, Zplus_mod_idemp_l.
  by replace (getIndex s (q_poolName q) + 1 + Z.of_nat j')
    with (getIndex s (q_poolName q) + Z.of_nat (S j')) by lia.
Qed.

(** ** Properties *)

(** Highest-need routing picks the recipient with the lowest recent total
    and, among equals, the smallest identifier; nobody is excluded. *)
Theorem highest_need_optimal (pool : list recipient) (totals : gmap string Z) (Hne : pool ≠ []) :
  ∃ r, r ∈ pool ∧ select_highest_need pool totals = (Some (rid r), []) ∧
    ∀ x, x ∈ pool → total_of totals r < total_of totals x ∨
      (total_of totals r = total_of totals x ∧ str_ltb (rid x) (rid r) = false).
Proof.
  pose proof (select_go_spec rid (λ r, Some (total_of totals r)) ext_compare ext_rank
    ext_compare_rank (λ _, true) None pool (λ x _ _, total_ranked totals x)) as Hs.
  unfold select_highest_need. destruct (select_go _ _ _ _ _ _ _ _) as [[i|] ex].
  - destruct Hs as [-> (r & Hr & _ & -> & Hall)]. exists r. split; [done|]. split.
    + f_equal. clear. induction pool as [|y pool IH]; [done|]. by rewrite filter_cons_False.
    + intros x Hx. destruct (Hall x Hx eq_refl) as (k & l & [= <-] & [= <-] & [H|[H ?]]).
      * left. cbn in H. lia.
      * right. split; [congruence|done].
  - destruct Hs as [_ Hs]. destruct pool as [|y pool]; [done|]. specialize (Hs y ltac:(left)). done.
Qed.

Definition demo_recipient (i : string) (d : option Z) : recipient :=
  mk_recipient i None None None d (num_of_Z 1) num_zero.

Lemma highest_need_optimal_witness :
  let pool := [demo_recipient "b" None; demo_recipient "a" None; demo_recipient "c" None] in
  let totals : gmap string Z := {["c" := 10]} in
  [demo_recipient "b" None; demo_recipient "a" None; demo_recipient "c" None] ≠ [] ∧
  select_highest_need pool totals = (Some "a", []) ∧
  ∃ r, r ∈ pool ∧ select_highest_need pool totals = (Some (rid r), []).
Proof.
  split; [done|]. split; [vm_compute; reflexivity|].
  destruct (highest_need_optimal [demo_recipient "b" None; demo_recipient "a" None;
    demo_recipient "c" None] {["c" := 10]} ltac:(done)) as (r & H1 & H2 & _).
  exists r. split; [exact H1|exact H2].
Defined.

(** The campaign has a deadline that has not passed. *)
Definition running (now : Z) (r : recipient) : bool :=
  match campaignDeadline r with Some d => now <=? d | None => false end.

(** Campaign-urgency routing picks the eligible recipient (a deadline
    not before now) whose deadline comes first, ties by the smallest identifier;
    exactly the others are reported as excluded, and it fails exactly when nobody
    is eligible. *)
Theorem campaign_urgency_spec (pool : list recipient) (now : Z) :
  let eligible r d := r ∈ pool ∧ campaignDeadline r = Some d ∧ now <= d in
  match select_campaign_urgency pool now with
  | Ret (sel, excluded) => ∃ r d, sel = Some (rid r) ∧ eligible r d ∧
      (∀ x e, eligible x e → d < e ∨ (d = e ∧ str_ltb (rid x) (rid r) = false)) ∧
      excluded = rid <$> filter (λ r, running now r = false) pool
  | Throw e => e = BusinessLogicError (code_ref "NO_ACTIVE_CAMPAIGNS") ∧ ∀ r d, ¬ eligible r d
  end.
Proof.
  cbv zeta. unfold select_campaign_urgency.
  set (el := λ r, match campaignDeadline r with Some d => negb (d <? now) | None => false end).
  set (key := λ r, (λ d, d - now) <$> campaignDeadline r).
  assert (Hel : ∀ r, el r = true ↔ ∃ d, campaignDeadline r = Some d ∧ now <= d).
  { intros r. unfold el. destruct (campaignDeadline r) as [d|]; [|naive_solver].
    destruct (Z.ltb_spec d now); split; [done| |eauto|done]. intros (? & [= <-] & ?). lia. }
  pose proof (select_go_spec rid key ext_compare ext_rank ext_compare_rank el None pool) as Hs.
  destruct (select_go rid key ext_compare el None None [] pool) as [[i|] ex].
  - destruct Hs as [-> (r & Hr & Her & -> & Hall)].
    { intros x _ (d & Hd & _)%Hel. unfold key. rewrite Hd. split; [by eexists|done]. }
    pose proof Her as (d & Hd & Hnow)%Hel. exists r, d. split; [done|]. split; [done|]. split.
    + intros x e (Hx & He & Hne).
      destruct (Hall x Hx) as (k & l & Hk & Hl & H); [apply Hel; eauto|].
      unfold key, ext_rank in Hk, Hl. rewrite Hd in Hk. rewrite He in Hl. cbn in Hk, Hl. simplify_eq.
      destruct H as [H|[H ?]]; [left; cbn in H; lia|right; split; [|done]]. injection H as H; lia.
    + f_equal. apply list_filter_iff. intros x. unfold el, running.
      destruct (campaignDeadline x) as [e|]; [|done].
      destruct (Z.ltb_spec e now), (Z.leb_spec now e); cbn; done || lia.
  - destruct Hs as [_ Hs].
    { intros x _ (d & Hd & _)%Hel. unfold key. rewrite Hd. split; [by eexists|done]. }
    split; [done|]. intros r d (Hr & Hd & Hn). specialize (Hs r Hr).
    assert (el r = true) by (apply Hel; eauto). congruence.
Qed.

(** Round-robin routing is fair: from any stored index, also one left by
    a larger pool, as many consecutive routings as the pool has members select
    every member exactly once, in pool order from the stored position. *)
Theorem round_robin_fair (haversine : num → num → num → num → num) (random : num)
    (totals : gmap string Z) (q : request) (s : st) (l : list recipient)
    (Hq : q_strategy q = "round-robin") (Hl : pools s !! q_poolName q = Some l) (Hne : l ≠ [])
    (Hi : 0 <= getIndex s (q_poolName q)) :
  let c := Z.to_nat (getIndex s (q_poolName q) mod Z.of_nat (length l)) in
  let selected := route_many haversine random totals (length l) q s in
  selected = Some <$> (drop c (rid <$> l) ++ take c (rid <$> l)) ∧ selected ≡ₚ (Some ∘ rid) <$> l.
Proof.
  cbv zeta. assert (Hn : 0 < Z.of_nat (length l)) by (destruct l; cbn in *; [done|lia]).
  rewrite (route_many_lookup _ _ _ _ _ _ l) by done.
  set (g := getIndex s (q_poolName q)). set (n := Z.of_nat (length l)) in *.
  pose proof (Z.mod_pos_bound g n Hn) as Hb. set (c := Z.to_nat (g mod n)).
  assert (Heq : ((λ j, rid <$> l !! Z.to_nat ((g + Z.of_nat j) mod n)) <$> seq 0 (length l)) =
    Some <$> (drop c (rid <$> l) ++ take c (rid <$> l))).
  { apply list_eq. intros j. rewrite !list_lookup_fmap.
    destruct (decide (j < length l)%nat) as [Hj|Hj].
    2:{ rewrite !lookup_ge_None_2; [done|..]; rewrite ?length_app, ?length_take, ?length_drop,
          ?length_fmap, ?length_seq; lia. }
    rewrite lookup_seq_lt by done. cbn.
    assert (Hidx : Z.to_nat ((g + Z.of_nat j) mod n) =
      if decide (c + j < length l)%nat then (c + j)%nat else (c + j - length l)%nat).
    { rewrite <- Zplus_mod_idemp_l. case_decide.
      - rewrite Z.mod_small by lia. lia.
      - replace (g mod n + Z.of_nat j) with (g mod n + Z.of_nat j - n + 1 * n) by lia.
        rewrite Z_mod_plus_full, Z.mod_small by lia. lia. }
    rewrite Hidx. case_decide as Hc.
    - rewrite lookup_app_l by (rewrite length_drop, length_fmap; lia).
      rewrite lookup_drop, list_lookup_fmap.
      destruct (lookup_lt_is_Some_2 l (c + j)) as [x ->]; [lia|done].
    - rewrite lookup_app_r by (rewrite length_drop, length_fmap; lia).
      rewrite length_drop, length_fmap, lookup_take_lt, list_lookup_fmap by lia.
      replace (j - (length l - c))%nat with (c + j - length l)%nat by lia.
      destruct (lookup_lt_is_Some_2 l (c + j - length l)) as [x ->]; [lia|done]. }
  split; [exact Heq|]. rewrite Heq, list_fmap_compose.
  apply fmap_Permutation. rewrite Permutation_app_comm. by rewrite take_drop.
Qed.

Definition demo_st : st :=
  mk_st {["p" := [demo_recipient "a" None; demo_recipient "b" None; demo_recipient "c" None]]}
    {["p" := 7]} [].
Definition demo_request (strategy : string) : request := Build_request "p" strategy None "d1" 0.

Lemma round_robin_fair_witness :
  route_many (λ _ _ _ _, num_zero) num_zero ∅ 3 (demo_request "round-robin") demo_st
    ≡ₚ [Some "a"; Some "b"; Some "c"].
Proof.
  refine (proj2 (round_robin_fair (λ _ _ _ _, num_zero) num_zero ∅ (demo_request "round-robin") demo_st
    [demo_recipient "a" None; demo_recipient "b" None; demo_recipient "c" None] eq_refl _ _ _));
    [reflexivity|done|vm_compute; discriminate].
Defined.

(** C34: [route] on every outcome.  A success names a member of the pool
    (only the priority strategy can answer with none, when every priority is
    NaN or minus infinity) and records exactly one decision, with the pool's
    members as candidates; a failure records none.  The pools never change. *)
Theorem route_spec (haversine : num → num → num → num → num) (random : num)
    (totals : gmap string Z) (q : request) (s : st) :
  let '(r, s') := route haversine random totals q s in
  pools s' = pools s ∧
  match r with
  | Ret (sel, name) => ∃ l d, pools s !! q_poolName q = Some l ∧
      routing_decisions s' = routing_decisions s ++ [d] ∧
      selectedId d = sel ∧ candidates d = rid <$> l ∧ donationId d = q_donationId q ∧
      strategy d = q_strategy q ∧ q_strategy q ∈ VALID_STRATEGIES ∧
      (match sel with Some i => i ∈ rid <$> l | None => q_strategy q = "priority" end)
  | Throw _ => routing_decisions s' = routing_decisions s
  end.
Proof.
  rewrite route_run. case_bool_decide as Hv; cbn [negb]; [|done].
  destruct (pools s !! q_poolName q) as [l|] eqn:Hl; [|done].
  case_bool_decide as Hne; [done|].
  pose proof (select_frame haversine random totals q l s) as Hf.
  destruct (select haversine random totals q l s) as [[[sel ex]|e] s1];
    destruct Hf as (Hp & Hd & Hsel); [|done]. cbn. split; [done|].
  do 2 eexists. split; [done|]. rewrite Hd. split; [reflexivity|]. cbn.
  split_and!; try done. destruct sel as [i|]; [done|]. by destruct Hsel.
Qed.

(** Lowest-total routing fails with a TypeError as soon as the pool has
    two members and one of the totals, which the repository returns as BigInts,
    is not zero: the comparator's result is not a Number. *)
Theorem lowest_total_type_error (haversine : num → num → num → num → num) (random : num)
    (totals : gmap string Z) (q : request) (s : st) (a b : recipient) (l : list recipient)
    (Hq : q_strategy q = "lowest_total") (Hl : pools s !! q_poolName q = Some (a :: b :: l))
    (Ht : ∃ x, x ∈ a :: b :: l ∧ total_of totals x ≠ 0) :
  ∃ m, route haversine random totals q s = (Throw (EType m), s).
Proof.
  eexists. rewrite route_run, Hl.
  rewrite (bool_decide_true (_ ∈ _)) by (rewrite Hq; by apply (bool_decide_unpack _)).
  rewrite (bool_decide_false (a :: b :: l = [])) by done. cbn [negb].
  unfold select. rewrite !Hq.
  do 6 rewrite bool_decide_false by done. rewrite bool_decide_true by done.
  unfold select_lowest_total, lift_out.
  rewrite bool_decide_false by done. cbn [negb andb].
  assert (existsb (λ r, negb (total_of totals r =? 0)) (a :: b :: l) = true) as ->; [|reflexivity].
  destruct Ht as (x & Hx & Hn). apply existsb_exists. exists x. split; [by apply list_elem_of_In|].
  apply negb_true_iff, Z.eqb_neq, Hn.
Qed.

Lemma lowest_total_type_error_witness :
  ∃ m, route (λ _ _ _ _, num_zero) num_zero {["b" := 5]} (demo_request "lowest_total") demo_st
       = (Throw (EType m), demo_st).
Proof.
  apply (lowest_total_type_error (λ _ _ _ _, num_zero) num_zero {["b" := 5]}
    (demo_request "lowest_total") demo_st (demo_recipient "a" None) (demo_recipient "b" None)
    [demo_recipient "c" None] eq_refl eq_refl).
  exists (demo_recipient "b" None). split; [right; left|by vm_compute].
Defined.

End Routing.
