(* ===== verification/LeaderElection.v ===== *)
(** * Leader election ([src/src/utils/leaderElection.js])

    The lease table and its statements.  [acquireLease] is an atomic upsert
    followed by a read; other instances may run between the two.  Components
    that schedule work use the class [Lease] and its law only. *)

From S2P Require Import Prelude.
Local Open Scope Z_scope.

Module LeaderElection.

Record lock := mk_lock { holder_id : string; acquired_at : Z; expires_at : Z }.

(** [scheduler_locks], by name. *)
Abbreviation table := (gmap string lock).

(** The upsert of [acquireLease]: each CASE reads the old row. *)
Definition acquire_upsert (instanceId name : string) (now ttlMs : Z) (t : table) : table :=
  let new := mk_lock instanceId now (now + ttlMs) in
  match t !! name with
  | None => <[name := new]> t
  | Some old =>
      let free := (expires_at old <? now) || bool_decide (holder_id old = instanceId) in
      <[name := mk_lock (if free then holder_id new else holder_id old)
                        (if free then acquired_at new else acquired_at old)
                        (if free then expires_at new else expires_at old)]> t
  end.

(** The read of [acquireLease]: is this instance the holder? *)
Definition is_leader (instanceId name : string) (t : table) : bool :=
  match t !! name with Some l => bool_decide (holder_id l = instanceId) | None => false end.

(** The whole call.  [None] is a database that is missing or throws: the code
    fails open. *)
Definition acquireLease (instanceId name : string) (now ttlMs : Z) (db : option table)
  : bool * option table :=
  match db with
  | None => (true, None)
  | Some t => let t' := acquire_upsert instanceId name now ttlMs t in
              (is_leader instanceId name t', Some t')
  end.

Definition releaseLease (instanceId name : string) (t : table) : table :=
  match t !! name with
  | Some l => if bool_decide (holder_id l = instanceId) then delete name t else t
  | None => t
  end.

(** ** Statements of several instances, in the order the database runs them *)

Inductive event :=
| Upsert (instanceId name : string) (now ttlMs : Z)
| Release (instanceId name : string).

Definition apply_event (t : table) (e : event) : table :=
  match e with
  | Upsert i n now ttl => acquire_upsert i n now ttl t
  | Release i n => releaseLease i n t
  end.

(** What another instance may do before [until] without harming [who]'s lease
    on [name]; the holder may renew, not release or shorten. *)
Definition harmless (who name : string) (until : Z) (e : event) : Prop :=
  match e with
  | Upsert i n now ttl =>
      n ≠ name ∨ (if decide (i = who) then until <= now + ttl else now <= until)
  | Release i n => n ≠ name ∨ i ≠ who
  end.

(** [who] holds the lease at least until [until]. *)
Definition holds (who name : string) (until : Z) (t : table) : Prop :=
  ∃ l, t !! name = Some l ∧ holder_id l = who ∧ until <= expires_at l.

Lemma upsert_other i n name now ttl t : n ≠ name → acquire_upsert i n now ttl t !! name = t !! name.
Proof. intros. unfold acquire_upsert. cbv zeta. destruct (t !! n); by rewrite lookup_insert_ne. Qed.

Lemma holds_event who name until t e :
  harmless who name until e → holds who name until t → holds who name until (apply_event t e).
Proof.
  unfold holds. intros He (l & Hl & Hw & Hu). destruct e as [i n now ttl|i n]; cbn in *.
  - destruct (decide (n = name)) as [->|Hn]; [|rewrite upsert_other by done; eauto].
    destruct He as [?|He]; [done|]. unfold acquire_upsert. cbv zeta. rewrite Hl, lookup_insert_eq.
    eexists. split; [done|]. cbn. case_decide as Hi.
    + subst i. rewrite (bool_decide_true _ Hw), orb_true_r. done.
    + rewrite (bool_decide_false (holder_id l = i)) by congruence.
      rewrite (proj2 (Z.ltb_ge _ _)) by lia. done.
  - unfold releaseLease. destruct (decide (n = name)) as [->|Hn].
    + rewrite Hl. destruct He as [?|He]; [done|].
      rewrite bool_decide_false by congruence. eauto.
    + destruct (t !! n) as [l'|]; [|eauto]. case_bool_decide; [|eauto].
      rewrite lookup_delete_ne by done. eauto.
Qed.

Lemma holds_events who name until t es :
  Forall (harmless who name until) es → holds who name until t →
  holds who name until (foldl apply_event t es).
Proof. intros H. revert t. induction H; intros t Ht; cbn; eauto using holds_event. Qed.

(** After the upsert, whoever reads as leader holds until its expiry. *)
Lemma acquired_holds who name now ttl t :
  is_leader who name (acquire_upsert who name now ttl t) = true →
  holds who name (now + ttl) (acquire_upsert who name now ttl t).
Proof.
  unfold is_leader, holds, acquire_upsert. cbv zeta. destruct (t !! name) as [l|]; rewrite lookup_insert_eq.
  - intros H%bool_decide_eq_true. cbn in H. eexists. split; [done|]. cbn.
    destruct (bool_decide (holder_id l = who)) eqn:Hb.
    + rewrite orb_true_r in *. cbn. split; [done|lia].
    + rewrite orb_false_r in *. destruct (expires_at l <? now); [split; [done|lia]|].
      apply bool_decide_eq_false in Hb. done.
  - intros _. eexists. split; [done|]. cbn. split; [done|lia].
Qed.

(** ** The promise to schedulers *)

(** A lease service: [try_lease] answers whether the instance may run; within
    the time to live of an answer no other instance gets a positive one. *)
Class Lease (S : Type) := {
  try_lease : string → string → Z → Z → S → bool * S;
  lease_exclusive : ∀ a b name now ttl later ttl' s,
    a ≠ b → now <= later <= now + ttl → (try_lease a name now ttl s).1 = true →
    (try_lease b name later ttl' (try_lease a name now ttl s).2).1 = false;
}.

Definition try_table (i name : string) (now ttl : Z) (t : table) : bool * table :=
  let t' := acquire_upsert i name now ttl t in (is_leader i name t', t').

Lemma not_leader b name until t who : b ≠ who → holds who name until t → is_leader b name t = false.
Proof.
  intros Hb (l & Hl & Hw & _). unfold is_leader. rewrite Hl. by apply bool_decide_eq_false_2; congruence.
Qed.

#[export] Instance table_lease : Lease table.
Proof.
  refine {| try_lease := try_table |}. intros a b name now ttl later ttl' s Hne Ht Ha. cbn in *.
  apply acquired_holds in Ha.
  eapply (not_leader _ _ (now + ttl) _ a); [done|].
  refine (holds_event a name (now + ttl) _ (Upsert b name later ttl') _ Ha).
  cbn. right. rewrite decide_False by done. lia.
Defined.

(** ** Properties *)

(** Mutual exclusion of the lease.  Once an instance's [acquireLease]
    answered true, then until its lease expires, whatever upserts and releases
    the instances issue in whatever order (the holder only renewing), the
    holder reads true and every other instance's [acquireLease] answers false. *)
Theorem lease_mutual_exclusion (who other name : string) (now ttl later ttl' : Z) (t : table)
    (es : list event)
    (Hok : (acquireLease who name now ttl (Some t)).1 = true) (Hne : other ≠ who)
    (Hes : Forall (harmless who name (now + ttl)) es) (Hl : later <= now + ttl) :
  let t' := foldl apply_event (acquire_upsert who name now ttl t) es in
  is_leader who name t' = true ∧ (acquireLease other name later ttl' (Some t')).1 = false.
Proof.
  cbv zeta. cbn in Hok. apply acquired_holds in Hok.
  pose proof (holds_events _ _ _ _ _ Hes Hok) as Hh. split.
  - destruct Hh as (l & Hl' & Hw & _). unfold is_leader. rewrite Hl'. by apply bool_decide_eq_true_2.
  - cbn. eapply not_leader; [exact Hne|].
    apply (holds_event _ _ _ _ (Upsert other name later ttl')); [|exact Hh].
    cbn. right. by rewrite decide_False.
Qed.

Lemma lease_mutual_exclusion_witness :
  (acquireLease "b" "job" 90 100 (Some (foldl apply_event (acquire_upsert "a" "job" 0 100 ∅)
     [Upsert "b" "job" 50 100; Release "b" "job"; Upsert "a" "job" 60 100]))).1 = false.
Proof.
  refine (proj2 (lease_mutual_exclusion "a" "b" "job" 0 100 90 100 ∅
    [Upsert "b" "job" 50 100; Release "b" "job"; Upsert "a" "job" 60 100] _ _ _ _)).
  - vm_compute. reflexivity.
  - discriminate.
  - repeat apply Forall_cons_2; [..|constructor]; right; vm_compute; discriminate.
  - vm_compute. discriminate.
Defined.

(** A crashed holder is superseded: the first [acquireLease] of any
    instance after the expiry answers true. *)
Theorem lease_takeover (other name : string) (now ttl : Z) (t : table) (l : lock)
    (Hl : t !! name = Some l) (Hexp : expires_at l < now) :
  let '(r, t') := acquireLease other name now ttl (Some t) in
  r = true ∧ t' = Some (<[name := mk_lock other now (now + ttl)]> t).
Proof.
  cbn. unfold is_leader, acquire_upsert. cbv zeta. rewrite Hl, lookup_insert_eq.
  rewrite (proj2 (Z.ltb_lt _ _)) by done. cbn. split; [by apply bool_decide_eq_true_2|done].
Qed.

Lemma lease_takeover_witness :
  (acquireLease "b" "job" 101 100 (Some {["job" := mk_lock "a" 0 100]})).1 = true.
Proof.
  pose proof (lease_takeover "b" "job" 101 100 {["job" := mk_lock "a" 0 100]}
    (mk_lock "a" 0 100) eq_refl ltac:(done)) as H.
  destruct (acquireLease _ _ _ _ _). exact (proj1 H).
Defined.

End LeaderElection.
