(* ===== verification/PaymentChannel.v ===== *)
(** * Payment channels ([src/src/services/PaymentChannelService.js])

    The channel table, the off-chain updates with both signatures, and the
    payments sent on-chain.  A method is cut at what it waits for: the read of
    the row with the checks, the call of the Stellar service, the UPDATE; the
    answers of the service and of the database are arguments, and a payment is
    recorded when the service is asked for it.  HMAC-SHA256 is a parameter: a
    function of the key and the message to the hexadecimal digest. *)

From S2P Require Import Prelude JsString JsNumber Errors.
Local Open Scope Z_scope.

Module PaymentChannel.

Definition DISPUTE_WINDOW_MS : Z := 24 * 60 * 60 * 1000.
Definition CHANNEL_TIMEOUT_MS : Z := 7 * 24 * 60 * 60 * 1000.

Inductive status := Open | Settled | Disputed | Closed.
#[export] Instance status_eq_dec : EqDecision status.
Proof. solve_decision. Defined.

Record sig_entry := { s_sequence : Z; s_senderSig : string; s_receiverSig : string; s_timestamp : Z }.

Record channel := mk_channel {
  senderKey : string;
  receiverKey : string;
  capacity : num;
  balance : num;
  sequence : Z;
  ch_status : status;
  signatures : list sig_entry;
  disputedAt : option Z;
  disputeSeq : option Z;
  settledAt : option Z;
  closedAt : option Z;
  escrowSecret : option string;   (* metadata.channelEscrow.escrowSecret *)
  stellarTxId : option string;    (* metadata.stellarTxId *)
  updatedAt : Z;
}.

(** A payment the service was asked for, and whether it answered without an
    error (after one the payment may have been carried out or not). *)
Record payment := mk_payment { p_channel : string; p_amount : num; p_answered : bool }.

(** The table, the payments, and the channels whose UPDATE failed at the end of
    a close. *)
Record st := mk_st { channels : gmap string channel; payments : list payment; unmarked : list string }.
Definition M := stx jserror st.

Definition missing : jserror := ValidationError_with (code_ref "MISSING_REQUIRED_FIELD").
Definition invalid : jserror := ValidationError_with (code_ref "INVALID_REQUEST").
Definition unauthorized : jserror := ValidationError_with (code_ref "UNAUTHORIZED").
Definition tx_failed : jserror := BusinessLogicError (code_ref "TRANSACTION_FAILED").
(** A NaN is bound as NULL, which the NOT NULL columns refuse. *)
Definition not_null : jserror := EDb "NOT NULL constraint failed".

Definition getChannel (i : string) : M channel := λ s,
  match channels s !! i with Some c => (Ret c, s) | None => (Throw NotFoundError, s) end.

Definition put_channel (i : string) (c : channel) : M unit :=
  modify_st (λ s, mk_st (<[i := c]> (channels s)) (payments s) (unmarked s)).
(** An UPDATE of the row as it is now. *)
Definition update_row (i : string) (f : channel → channel) (s : st) : st :=
  mk_st (alter f i (channels s)) (payments s) (unmarked s).
Definition log_payment (p : payment) (s : st) : st := mk_st (channels s) (payments s ++ [p]) (unmarked s).
Definition log_unmarked (i : string) (s : st) : st := mk_st (channels s) (payments s) (unmarked s ++ [i]).

Definition answered {A} (o : outcome jserror A) : bool := match o with Ret _ => true | Throw _ => false end.

(** A payment of the whole balance; [result] is the service's answer. *)
Definition pay (i : string) (amount : num) (result : outcome jserror (option string)) : M (option string) :=
  modify_st (log_payment (mk_payment i amount (answered result)));;
  lift_out result.

Section service.
Context (hmac : string → string → string).

Definition buildStateMessage (channelId : string) (sequence : Z) (balance : num) : string :=
  "channel:" +:+ channelId +:+ ":seq:" +:+ Z_to_string sequence +:+ ":balance:" +:+ num_to_string balance.

Definition signState (message secretKey : string) : string := hmac secretKey message.

(** [timingSafeEqual] throws on buffers of different lengths. *)
Definition verifyStateSignature (message signature secretKey : string) : bool :=
  bool_decide (hex_decode (signState message secretKey) = hex_decode signature).

(** [uuid] is the new id; [escrow] the answer of the on-chain opening when a
    source secret is given: the escrow secret. *)
Definition openChannel (now : Z) (uuid sender receiver : string) (cap : num)
    (escrow : option (outcome jserror string)) : M channel :=
  if is_empty sender then throw missing
  else if is_empty receiver then throw missing
  else if bool_decide (sender = receiver) then throw invalid
  else if num_leb cap num_zero then throw invalid
  else
    secret ← match escrow with
             | None => mret None
             | Some r => x ← lift_out r; mret (Some x)
             end;
    if num_is_nan cap then throw not_null
    else
      put_channel uuid (mk_channel sender receiver cap num_zero 0 Open [] None None None None secret None now);;
      getChannel uuid.

(** [updateChannel] up to the service hook: what its UPDATE will write. *)
Record update := mk_update { u_balance : num; u_sequence : Z; u_signatures : list sig_entry }.

Definition update_start (now : Z) (i : string) (amount : num)
    (senderSecret receiverSecret senderSig receiverSig : string) (s : st) : outcome jserror update :=
  if is_empty i then Throw missing
  else if num_leb amount num_zero then Throw invalid
  else
    match channels s !! i with
    | None => Throw NotFoundError
    | Some c =>
        if bool_decide (ch_status c ≠ Open) then Throw tx_failed
        else
          let newSequence := sequence c + 1 in
          let newBalance := num_add (balance c) amount in
          if num_gtb newBalance (capacity c) then Throw tx_failed
          else
            let message := buildStateMessage i newSequence newBalance in
            if negb (verifyStateSignature message senderSig senderSecret) then Throw unauthorized
            else if negb (verifyStateSignature message receiverSig receiverSecret) then Throw unauthorized
            else Ret (mk_update newBalance newSequence
                        (signatures c ++ [Build_sig_entry newSequence senderSig receiverSig now]))
    end.

(** The UPDATE has no condition on the row it meets. *)
Definition updated (now : Z) (u : update) (c : channel) : channel :=
  mk_channel (senderKey c) (receiverKey c) (capacity c) (u_balance u) (u_sequence u)
    (ch_status c) (u_signatures u) (disputedAt c) (disputeSeq c) (settledAt c) (closedAt c) (escrowSecret c)
    (stellarTxId c) now.

(** [accepted] is the answer of the optional service hook, [db] that of the database. *)
Definition update_end (now : Z) (i : string) (u : update) (accepted : outcome jserror bool)
    (db : outcome jserror unit) : M unit :=
  ok ← lift_out accepted;
  if negb ok then throw tx_failed
  else if num_is_nan (u_balance u) then throw not_null
  else lift_out db;; modify_st (update_row i (updated now u)).

Definition updateChannel (now : Z) (i : string) (amount : num)
    (senderSecret receiverSecret senderSig receiverSig : string)
    (accepted : outcome jserror bool) (db : outcome jserror unit) : M channel :=
  s ← get_st;
  u ← lift_out (update_start now i amount senderSecret receiverSecret senderSig receiverSig s);
  update_end now i u accepted db;;
  getChannel i.

(** [closeChannel]: the row as it was read, the payment of its balance, the
    UPDATE, which does not look at the status again. *)
Definition close_start (i senderSecret : string) (s : st) : outcome jserror channel :=
  if is_empty i then Throw missing
  else if is_empty senderSecret then Throw missing
  else
    match channels s !! i with
    | None => Throw NotFoundError
    | Some c => if bool_decide (ch_status c = Closed ∨ ch_status c = Settled) then Throw ConflictError else Ret c
    end.

Definition close_pay (i : string) (c : channel) (result : outcome jserror (option string)) : M (option string) :=
  if num_gtb (balance c) num_zero then pay i (balance c) result else mret None.

Definition settled (now : Z) (txId : option string) (c : channel) : channel :=
  mk_channel (senderKey c) (receiverKey c) (capacity c) (balance c) (sequence c)
    Settled (signatures c) (disputedAt c) (disputeSeq c) (Some now) (closedAt c)
    (escrowSecret c) txId now.

Definition close_end (now : Z) (i : string) (txId : option string) (db : outcome jserror unit) : M unit :=
  match db with
  | Ret _ => modify_st (update_row i (settled now txId))
  | Throw e => modify_st (log_unmarked i);; throw e
  end.

Definition closeChannel (now : Z) (i senderSecret : string)
    (result : outcome jserror (option string)) (db : outcome jserror unit) : M channel :=
  s ← get_st;
  c ← lift_out (close_start i senderSecret s);
  txId ← close_pay i c result;
  close_end now i txId db;;
  getChannel i.

Definition disputeChannel (now : Z) (i : string) (seq : Z) (bal : num)
    (senderSig receiverSig senderSecret receiverSecret : string) : M channel :=
  if is_empty i then throw missing
  else
    c ← getChannel i;
    if negb (bool_decide (ch_status c = Open ∨ ch_status c = Settled)) then throw tx_failed
    else if seq <=? sequence c then throw tx_failed
    else if now - updatedAt c >? DISPUTE_WINDOW_MS then throw tx_failed
    else
      let message := buildStateMessage i seq bal in
      if negb (verifyStateSignature message senderSig senderSecret) then throw unauthorized
      else if negb (verifyStateSignature message receiverSig receiverSecret) then throw unauthorized
      else if num_is_nan bal then throw not_null
      else
        put_channel i (mk_channel (senderKey c) (receiverKey c) (capacity c) bal seq
          Disputed (signatures c) (Some now) (Some seq) (settledAt c) (closedAt c)
          (escrowSecret c) (stellarTxId c) now);;
        getChannel i.

Definition forceCloseChannel (now : Z) (i senderSecret : string)
    (result : outcome jserror (option string)) : M channel :=
  if is_empty i then throw missing
  else if is_empty senderSecret then throw missing
  else
    c ← getChannel i;
    if bool_decide (ch_status c = Closed) then throw tx_failed
    else
      let timedOut := now - updatedAt c >? CHANNEL_TIMEOUT_MS in
      if bool_decide (ch_status c = Open) && negb timedOut then throw tx_failed
      else
        (if num_gtb (balance c) num_zero then pay i (balance c) result else mret None);;
        put_channel i (mk_channel (senderKey c) (receiverKey c) (capacity c) (balance c) (sequence c)
          Closed (signatures c) (disputedAt c) (disputeSeq c) (settledAt c) (Some now)
          (escrowSecret c) (stellarTxId c) now);;
        getChannel i.

(** ** Calls that overlap *)

(** A call that waits: an update for the service or the database, a close for
    its payment, a close for the database. *)
Inductive call :=
| Updating (i : string) (u : update)
| Closing (i : string) (c : channel)
| Paid (i : string) (txId : option string).

Definition channel_of (k : call) : string := match k with Updating i _ | Closing i _ | Paid i _ => i end.

(** The calls under way, and for every call that began while another of its
    channel was under way, that channel. *)
Record cfg := mk_cfg { store : st; running : list call; overlaps : list string }.

Definition begin_call (k : call) (g : cfg) : cfg :=
  mk_cfg (store g) (k :: running g)
    (if existsb (λ x, bool_decide (channel_of x = channel_of k)) (running g)
     then channel_of k :: overlaps g else overlaps g).

(** The cooperative life of channels (no dispute, no forced close), with any
    overlap of its calls and any answers. *)
Inductive step (g : cfg) : cfg → Prop :=
| step_open now uuid a b cap e :
    channels (store g) !! uuid = None →
    step g (mk_cfg (openChannel now uuid a b cap e (store g)).2 (running g) (overlaps g))
| step_update_start now i amount s1 s2 g1 g2 u :
    update_start now i amount s1 s2 g1 g2 (store g) = Ret u → step g (begin_call (Updating i u) g)
| step_update_end now i u accepted db l1 l2 :
    running g = l1 ++ Updating i u :: l2 →
    step g (mk_cfg (update_end now i u accepted db (store g)).2 (l1 ++ l2) (overlaps g))
| step_close_start i secret c :
    close_start i secret (store g) = Ret c → step g (begin_call (Closing i c) g)
| step_close_pay i c result l1 l2 :
    running g = l1 ++ Closing i c :: l2 →
    step g (mk_cfg (close_pay i c result (store g)).2
              (match (close_pay i c result (store g)).1 with
               | Ret txId => l1 ++ Paid i txId :: l2
               | Throw _ => l1 ++ l2
               end) (overlaps g))
| step_close_end now i txId db l1 l2 :
    running g = l1 ++ Paid i txId :: l2 →
    step g (mk_cfg (close_end now i txId db (store g)).2 (l1 ++ l2) (overlaps g)).

(** Every method, calls that do not overlap. *)
Inductive any_step (s : st) : st → Prop :=
| any_open now uuid a b cap e :
    channels s !! uuid = None → any_step s (openChannel now uuid a b cap e s).2
| any_update now i amount s1 s2 g1 g2 ok db : any_step s (updateChannel now i amount s1 s2 g1 g2 ok db s).2
| any_close now i secret r db : any_step s (closeChannel now i secret r db s).2
| any_dispute now i seq bal g1 g2 s1 s2 : any_step s (disputeChannel now i seq bal g1 g2 s1 s2 s).2
| any_force now i secret r : any_step s (forceCloseChannel now i secret r s).2.

(** *** Counting *)

Definition cnt {A} (P : A → Prop) `{∀ x, Decision (P x)} (l : list A) : nat := length (filter P l).

Lemma cnt_app {A} (P : A → Prop) `{∀ x, Decision (P x)} l l' : cnt P (l ++ l') = (cnt P l + cnt P l')%nat.
Proof. unfold cnt. by rewrite filter_app, length_app. Qed.
Lemma cnt_cons {A} (P : A → Prop) `{∀ x, Decision (P x)} x l :
  cnt P (x :: l) = ((if decide (P x) then 1 else 0) + cnt P l)%nat.
Proof. unfold cnt. rewrite filter_cons. by case_decide. Qed.
Lemma cnt_mid {A} (P : A → Prop) `{∀ x, Decision (P x)} x l l' :
  cnt P (l ++ x :: l') = ((if decide (P x) then 1 else 0) + cnt P (l ++ l'))%nat.
Proof. rewrite !cnt_app, cnt_cons. lia. Qed.
Lemma cnt_nil {A} (P : A → Prop) `{∀ x, Decision (P x)} : cnt P ([] : list A) = 0%nat.
Proof. done. Qed.
Lemma cnt_pos {A} (P : A → Prop) `{∀ x, Decision (P x)} l : (∃ x, x ∈ l ∧ P x) ↔ cnt P l ≠ 0%nat.
Proof.
  split.
  - intros (x & Hx & HP). unfold cnt. assert (Hf : x ∈ filter P l) by by apply list_elem_of_filter.
    destruct (filter P l); [by apply elem_of_nil in Hf|done].
  - unfold cnt. destruct (filter P l) as [|x r] eqn:Hf; [done|]. intros _. exists x.
    assert (Hx : x ∈ filter P l) by (rewrite Hf; left). by apply list_elem_of_filter in Hx as [??].
Qed.

Definition closing (i : string) (k : call) : Prop := match k with Closing j _ => j = i | _ => False end.
Definition paying (i : string) (k : call) : Prop := match k with Paid j _ => j = i | _ => False end.
#[export] Instance closing_dec i k : Decision (closing i k).
Proof. destruct k; cbn; apply _. Defined.
#[export] Instance paying_dec i k : Decision (paying i k).
Proof. destruct k; cbn; apply _. Defined.

(** Payments asked for, closes that failed after they were checked, calls that
    overlapped another, of a channel. *)
Definition asked (i : string) (s : st) : nat := cnt (λ p, p_channel p = i) (payments s).
Definition failed (i : string) (s : st) : nat :=
  cnt (λ p, p_channel p = i ∧ p_answered p = false) (payments s) + cnt (λ j, j = i) (unmarked s).
Definition overlapping (i : string) (g : cfg) : nat := cnt (λ j, j = i) (overlaps g).
Definition n_closing (i : string) (g : cfg) : nat := cnt (closing i) (running g).
Definition n_paying (i : string) (g : cfg) : nat := cnt (paying i) (running g).
Definition n_calls (i : string) (g : cfg) : nat := cnt (λ k, channel_of k = i) (running g).

(** *** The invariant *)

(** The balance fits the capacity and every update left its signatures. *)
Definition good (c : channel) : Prop :=
  num_ltb num_zero (capacity c) = true ∧ num_leb (balance c) (capacity c) = true ∧
  sequence c = Z.of_nat (length (signatures c)).

(** What a call knows fits the row it will meet. *)
Definition fits (k : call) (c : channel) : Prop :=
  match k with
  | Updating _ u => num_gtb (u_balance u) (capacity c) = false ∧ u_sequence u = Z.of_nat (length (u_signatures u))
  | Closing _ d => capacity d = capacity c ∧ good d
  | Paid _ _ => True
  end.

(** Without overlaps at most one call of the channel is under way, none once it
    is settled, and without failures each of its payments is of its balance. *)
Definition quiet (i : string) (g : cfg) : Prop :=
  (n_calls i g <= 1)%nat ∧
  ∀ c, channels (store g) !! i = Some c →
    (ch_status c = Settled → n_calls i g = 0%nat) ∧
    (∀ d, Closing i d ∈ running g → balance d = balance c) ∧
    (failed i (store g) = 0%nat → ∀ p, p ∈ payments (store g) → p_channel p = i →
       p_amount p = balance c ∧ (ch_status c = Settled ∨ n_paying i g ≠ 0%nat)).

Record chan_ok (i : string) (g : cfg) : Prop := mk_chan_ok {
  ok_count : (asked i (store g) + n_closing i g <= 1 + failed i (store g) + overlapping i g)%nat;
  ok_open : ∀ c, channels (store g) !! i = Some c → ch_status c ≠ Settled →
    (asked i (store g) <= failed i (store g) + n_paying i g)%nat ∧
    (n_closing i g + n_paying i g <= 1 + overlapping i g)%nat;
  ok_quiet : overlapping i g = 0%nat → quiet i g
}.

Record inv (g : cfg) : Prop := mk_inv {
  inv_rows : ∀ i c, channels (store g) !! i = Some c → good c;
  inv_calls : ∀ k, k ∈ running g → ∃ c, channels (store g) !! channel_of k = Some c ∧ fits k c;
  inv_pays : ∀ p, p ∈ payments (store g) → ∃ c, channels (store g) !! p_channel p = Some c ∧
    num_ltb num_zero (p_amount p) = true ∧ num_leb (p_amount p) (capacity c) = true;
  inv_chan : ∀ i, chan_ok i g
}.

(** What a channel is checked against. *)
Lemma chan_frame i g g' :
  channels (store g') !! i = channels (store g) !! i →
  asked i (store g') = asked i (store g) → failed i (store g') = failed i (store g) →
  overlapping i g' = overlapping i g → n_closing i g' = n_closing i g → n_paying i g' = n_paying i g →
  n_calls i g' = n_calls i g →
  (∀ d, Closing i d ∈ running g' → Closing i d ∈ running g) →
  (∀ p, p ∈ payments (store g') → p_channel p = i → p ∈ payments (store g)) →
  chan_ok i g → chan_ok i g'.
Proof.
  intros Hc Ha Hf Ho Hcl Hp Hn Hcd Hps [H1 H2 H3]. split; rewrite ?Hc, ?Ha, ?Hf, ?Ho, ?Hcl, ?Hp; [done|done|].
  intros Hz%H3. destruct Hz as [Hq1 Hq2]. split; rewrite ?Hn; [done|]. rewrite Hc. intros c Hcc.
  destruct (Hq2 c Hcc) as (Hs & Hd & Hpay). rewrite Hp, Hf. split_and!; [done|auto|]. intros Hff p Hpin Hpc. apply Hpay; auto.
Qed.

Lemma no_row_no_calls i g : inv g → channels (store g) !! i = None →
  n_calls i g = 0%nat ∧ n_closing i g = 0%nat ∧ n_paying i g = 0%nat ∧ asked i (store g) = 0%nat.
Proof.
  intros Hi Hn.
  assert (Hk : ∀ k, k ∈ running g → channel_of k = i → False).
  { intros k Hk He. destruct (inv_calls g Hi k Hk) as (c & Hc & _). congruence. }
  split_and!; apply dec_stable; intros Hz%cnt_pos.
  - destruct Hz as (k & Hkin & He). by apply (Hk k).
  - destruct Hz as (k & Hkin & He). apply (Hk k); [done|]. by destruct k.
  - destruct Hz as (k & Hkin & He). apply (Hk k); [done|]. by destruct k.
  - destruct Hz as (q & Hq & He). destruct (inv_pays g Hi q Hq) as (c & Hc & _). congruence.
Qed.

Lemma calls_split i g : (n_closing i g + n_paying i g <= n_calls i g)%nat.
Proof.
  unfold n_closing, n_paying, n_calls. induction (running g) as [|k l IH]; [done|]. rewrite !cnt_cons.
  destruct k; cbn [closing paying channel_of]; repeat case_decide; (lia || done).
Qed.

Lemma no_closing i g d : n_calls i g = 0%nat → Closing i d ∉ running g.
Proof. intros Hz Hin. revert Hz. apply (proj1 (cnt_pos (λ k, channel_of k = i) (running g))). by exists (Closing i d). Qed.

(** A call that begins. *)
Lemma overlapping_begin i k g :
  overlapping i (begin_call k g) =
    ((if decide (channel_of k = i ∧ n_calls i g ≠ 0%nat) then 1 else 0) + overlapping i g)%nat.
Proof.
  unfold overlapping, begin_call. cbn [overlaps].
  destruct (existsb _ _) eqn:He.
  - rewrite cnt_cons. f_equal. apply existsb_exists in He as (x & Hx & Hb). apply bool_decide_eq_true in Hb.
    apply list_elem_of_In in Hx.
    assert (n_calls (channel_of k) g ≠ 0%nat) by (apply cnt_pos; eauto). repeat case_decide; naive_solver.
  - rewrite decide_False; [done|]. intros [<- Hn]. apply cnt_pos in Hn as (x & Hx & Hxc).
    apply not_true_iff_false in He. apply He, existsb_exists. exists x. split; [by apply list_elem_of_In|by apply bool_decide_eq_true].
Qed.

Lemma begin_ok k g c :
  inv g → channels (store g) !! channel_of k = Some c → ch_status c ≠ Settled → fits k c →
  match k with Closing _ d => balance d = balance c | Updating _ _ => True | Paid _ _ => False end →
  inv (begin_call k g).
Proof.
  intros Hi Hc Hst Hfit Hk. split; cbn [store running begin_call]; [apply Hi| |apply Hi|].
  - intros k' [->|Hk']%elem_of_cons; [by exists c|by apply Hi].
  - intros i. destruct (inv_chan g Hi i) as [H1 H2 H3]. pose proof (calls_split i g) as Hsp.
    assert (Hcl : n_closing i (begin_call k g) = ((if decide (closing i k) then 1 else 0) + n_closing i g)%nat) by apply cnt_cons.
    assert (Hpa : n_paying i (begin_call k g) = n_paying i g).
    { unfold n_paying. cbn [running begin_call]. rewrite cnt_cons, decide_False; [done|]. intros ?. destruct k; by cbn in *. }
    assert (Hca : n_calls i (begin_call k g) = ((if decide (channel_of k = i) then 1 else 0) + n_calls i g)%nat) by (unfold n_calls; cbn [running begin_call]; by rewrite cnt_cons).
    pose proof (overlapping_begin i k g) as Hov.
    destruct (decide (channel_of k = i)) as [He|Hne]; cycle 1.
    { rewrite decide_False in Hov by naive_solver. assert (¬ closing i k) by (intros ?; destruct k; cbn in *; congruence).
      rewrite decide_False in Hcl by done.
      apply (chan_frame i g); try done. cbn [running begin_call]. intros d [<-|Hd]%elem_of_cons; [by destruct Hne|done]. }
    rewrite He in Hc. destruct (H2 c Hc Hst) as [Ha Hb].
    assert (Hle : (n_closing i (begin_call k g) <= 1 + n_closing i g)%nat) by (rewrite Hcl; destruct (decide (closing i k)); lia).
    assert (Hov' : overlapping i (begin_call k g) = ((if decide (n_calls i g = 0%nat) then 0 else 1) + overlapping i g)%nat).
    { rewrite Hov. repeat case_decide; naive_solver. }
    split; cbn [store begin_call]; rewrite ?Hpa, ?Hov'.
    + case_decide; lia.
    + intros c' Hc' Hst'. split; [done|]. case_decide; lia.
    + intros Hz. assert (Hno : n_calls i g = 0%nat) by (case_decide; lia).
      destruct H3 as [Hq1 Hq2]; [lia|]. unfold quiet. rewrite Hca. split; [lia|]. cbn [store running begin_call]. intros c' Hc'.
      assert (c' = c) as -> by congruence. destruct (Hq2 c Hc) as (_ & _ & Hq). split_and!; [done| |by rewrite Hpa].
      intros d [<-|Hd]%elem_of_cons; [done|]. by apply no_closing in Hd.
Qed.

(** The row of one channel is replaced by one of the same capacity. *)
Lemma rows_alter i f g c :
  (∀ j d, channels (store g) !! j = Some d → good d) → channels (store g) !! i = Some c → good (f c) →
  ∀ j d, alter f i (channels (store g)) !! j = Some d → good d.
Proof.
  intros Hr Hc Hg j d. destruct (decide (j = i)) as [->|Hne].
  - rewrite lookup_alter_eq, Hc. intros [= <-]. done.
  - rewrite lookup_alter_ne by done. apply Hr.
Qed.

Lemma row_alter (i j : string) (f : channel → channel) (cs : gmap string channel) (c : channel) :
  cs !! j = Some c → ∃ d, alter f i cs !! j = Some d ∧ (d = c ∨ i = j ∧ d = f c).
Proof.
  intros Hc. destruct (decide (j = i)) as [->|Hne].
  - rewrite lookup_alter_eq, Hc. cbn. eauto.
  - rewrite lookup_alter_ne by done. eauto.
Qed.

Lemma fits_same k c d : capacity d = capacity c → fits k c → fits k d.
Proof. intros Hd. destruct k; cbn [fits]; by rewrite ?Hd. Qed.

(** *** Every step keeps it *)

Lemma open_shape now uuid a b cap e s :
  channels s !! uuid = None →
  (openChannel now uuid a b cap e s).2 = s ∨
  ∃ c, (openChannel now uuid a b cap e s).2 = mk_st (<[uuid := c]> (channels s)) (payments s) (unmarked s) ∧
       good c ∧ ch_status c = Open.
Proof.
  intros Hf. unfold openChannel. destruct (is_empty a); [by left|]. destruct (is_empty b); [by left|].
  case_bool_decide; [by left|]. destruct (num_leb cap num_zero) eqn:Hc; [by left|].
  assert (Hgood : ∀ sec, num_is_nan cap = false → good (mk_channel a b cap num_zero 0 Open [] None None None None sec None now)).
  { intros sec Hn. split_and!; cbn; [|..|done].
    - destruct (num_total num_zero cap) as [?|?]; [done|done|done|congruence].
    - apply num_ltb_leb. destruct (num_total num_zero cap) as [?|?]; [done|done|done|congruence]. }
  unfold mbind, stx_bind. destruct e as [[x|err]|]; cbn -[num_is_nan]; [|by left|];
    (destruct (num_is_nan cap) eqn:Hn; [by left|]); cbn; unfold getChannel; cbn; rewrite lookup_insert_eq;
    right; eexists; split; [reflexivity|split; [by apply Hgood|done]|reflexivity|split; [by apply Hgood|done]].
Qed.

Lemma open_ok now uuid a b cap e g :
  channels (store g) !! uuid = None → inv g →
  inv (mk_cfg (openChannel now uuid a b cap e (store g)).2 (running g) (overlaps g)).
Proof.
  intros Hf Hi. destruct (open_shape now uuid a b cap e (store g) Hf) as [->|(c & -> & Hg & Ho)]; [by destruct g|].
  assert (Hrow : ∀ j d, channels (store g) !! j = Some d → <[uuid:=c]> (channels (store g)) !! j = Some d).
  { intros j d Hd. rewrite lookup_insert_ne; [done|congruence]. }
  split; cbn [store running channels payments].
  - intros j d [[-> <-]|[_ Hd]]%lookup_insert_Some; [done|by eapply inv_rows].
  - intros k (d & Hd & Hk)%(inv_calls g Hi). exists d. split; [by apply Hrow|done].
  - intros p (d & Hd & Hp)%(inv_pays g Hi). exists d. split; [by apply Hrow|done].
  - intros i. destruct (decide (i = uuid)) as [->|Hne].
    + destruct (no_row_no_calls uuid g Hi Hf) as (Hn & Hc1 & Hc2 & Ha). destruct (inv_chan g Hi uuid) as [H1 _ _].
      split; [done| |].
      * intros _ _ _. change (asked uuid (store g) <= failed uuid (store g) + n_paying uuid g ∧ n_closing uuid g + n_paying uuid g <= 1 + overlapping uuid g)%nat. lia.
      * intros _. split; [change (n_calls uuid g <= 1)%nat; lia|]. intros c' _. split_and!; [done| |].
        -- intros d Hd. by apply (no_closing uuid g d) in Hn.
        -- intros _ p Hp Hpc. exfalso. destruct (inv_pays g Hi p Hp) as (d & Hd & _). congruence.
    + apply (chan_frame i g); try done; [|by apply Hi]. cbn. by rewrite lookup_insert_ne.
Qed.

Lemma update_start_ok now i amount s1 s2 g1 g2 u g :
  update_start now i amount s1 s2 g1 g2 (store g) = Ret u → inv g → inv (begin_call (Updating i u) g).
Proof.
  unfold update_start. destruct (is_empty i); [done|]. destruct (num_leb amount num_zero); [done|].
  destruct (channels (store g) !! i) as [c|] eqn:Hc; [|done]. case_bool_decide as Hst; [done|].
  destruct (num_gtb _ _) eqn:Hg; [done|]. destruct (negb _); [done|]. destruct (negb _); [done|]. intros [= <-] Hi.
  apply (begin_ok _ _ c); [done|done| | |done].
  - congruence.
  - split; [done|]. cbn. rewrite length_app. destruct (inv_rows g Hi i c Hc) as (_ & _ & ->). cbn. lia.
Qed.

Lemma close_start_ok i secret c g :
  close_start i secret (store g) = Ret c → inv g → inv (begin_call (Closing i c) g).
Proof.
  unfold close_start. destruct (is_empty i); [done|]. destruct (is_empty secret); [done|].
  destruct (channels (store g) !! i) as [d|] eqn:Hc; [|done]. case_bool_decide as Hst; [done|]. intros [= <-] Hi.
  apply (begin_ok _ _ d); [done|done| | |done].
  - intros Hs. apply Hst. by right.
  - split; [done|]. by apply (inv_rows g Hi i).
Qed.

(** A call leaves, and the row of its channel keeps capacity and, unless the
    call was an UPDATE of it, status and balance. *)
Lemma elem_mid {A} (x y : A) l1 l2 : x ∈ l1 ++ l2 → x ∈ l1 ++ y :: l2.
Proof. rewrite !elem_of_app, elem_of_cons. tauto. Qed.

Lemma leave_counts i k l1 l2 g st' o :
  running g = l1 ++ k :: l2 →
  let g' := mk_cfg st' (l1 ++ l2) o in
  n_calls i g = ((if decide (channel_of k = i) then 1 else 0) + n_calls i g')%nat ∧
  n_closing i g = ((if decide (closing i k) then 1 else 0) + n_closing i g')%nat ∧
  n_paying i g = ((if decide (paying i k) then 1 else 0) + n_paying i g')%nat.
Proof. intros Hr. unfold n_calls, n_closing, n_paying. cbn [running]. rewrite Hr, !cnt_mid. done. Qed.

Lemma leave_other i k l1 l2 g st' :
  running g = l1 ++ k :: l2 → channel_of k ≠ i →
  channels st' !! i = channels (store g) !! i →
  asked i st' = asked i (store g) → failed i st' = failed i (store g) →
  (∀ p, p ∈ payments st' → p_channel p = i → p ∈ payments (store g)) →
  chan_ok i g → chan_ok i (mk_cfg st' (l1 ++ l2) (overlaps g)).
Proof.
  intros Hr Hne Hc Ha Hf Hp Hok. destruct (leave_counts i k l1 l2 g st' (overlaps g) Hr) as (H1 & H2 & H3).
  rewrite decide_False in H1 by done.
  rewrite decide_False in H2 by (intros ?; destruct k; by cbn in *).
  rewrite decide_False in H3 by (intros ?; destruct k; by cbn in *).
  apply (chan_frame i g); try done. cbn. intros d Hd. rewrite Hr. by apply elem_mid.
Qed.

(** The row of a channel with a changed row elsewhere or at it. *)
Lemma leave_ok i k f l1 l2 g c st' :
  inv g → running g = l1 ++ k :: l2 → channel_of k = i → channels (store g) !! i = Some c →
  channels st' = alter f i (channels (store g)) → capacity (f c) = capacity c → good (f c) →
  (∀ p, p ∈ payments st' → p ∈ payments (store g) ∨
     p_channel p = i ∧ num_ltb num_zero (p_amount p) = true ∧ num_leb (p_amount p) (capacity c) = true) →
  (∀ j, j ≠ i → asked j st' = asked j (store g) ∧ failed j st' = failed j (store g)) →
  chan_ok i (mk_cfg st' (l1 ++ l2) (overlaps g)) →
  inv (mk_cfg st' (l1 ++ l2) (overlaps g)).
Proof.
  intros Hi Hr Hk Hc Hch Hcap Hgood Hps Hother Hok.
  assert (Hrow : ∀ j d, channels (store g) !! j = Some d → ∃ d', channels st' !! j = Some d' ∧ capacity d' = capacity d).
  { intros j d Hd. rewrite Hch. destruct (row_alter i j f _ d Hd) as (d' & Hd' & [->|[<- ->]]); [eauto|].
    exists (f d). split; [done|]. by assert (d = c) as -> by congruence. }
  split; cbn [store running].
  - rewrite Hch. apply (rows_alter i f g c); [apply Hi|done|done].
  - intros x Hx. destruct (inv_calls g Hi x) as (d & Hd & Hfit); [rewrite Hr; by apply elem_mid|].
    destruct (Hrow _ _ Hd) as (d' & Hd' & Hcd). exists d'. split; [done|]. by apply (fits_same x d).
  - intros p [Hp|(<- & H0 & Hle)]%Hps.
    + destruct (inv_pays g Hi p Hp) as (d & Hd & H0 & Hle). destruct (Hrow _ _ Hd) as (d' & Hd' & Hcd).
      exists d'. by rewrite Hcd.
    + destruct (Hrow _ _ Hc) as (d' & Hd' & Hcd). exists d'. by rewrite Hcd.
  - intros j. destruct (decide (j = i)) as [->|Hne]; [done|]. destruct (Hother j Hne).
    apply (leave_other j k l1 l2); [done|congruence| |done|done| |by apply Hi].
    + rewrite Hch. by apply lookup_alter_ne.
    + intros p Hp Hpj. destruct (Hps p Hp) as [?|[? _]]; [done|congruence].
Qed.

Lemma update_end_ok now i u accepted db l1 l2 g :
  running g = l1 ++ Updating i u :: l2 → inv g →
  inv (mk_cfg (update_end now i u accepted db (store g)).2 (l1 ++ l2) (overlaps g)).
Proof.
  intros Hr Hi.
  destruct (inv_calls g Hi (Updating i u)) as (c & Hc & Hcap & Hseq); [rewrite Hr; apply elem_of_app; right; left|].
  destruct (inv_rows g Hi i c Hc) as (Hg1 & Hg2 & Hg3). cbn [channel_of] in Hc.
  assert (Hrun : ∃ f, channels (update_end now i u accepted db (store g)).2 = alter f i (channels (store g)) ∧
    payments (update_end now i u accepted db (store g)).2 = payments (store g) ∧
    unmarked (update_end now i u accepted db (store g)).2 = unmarked (store g) ∧
    ch_status (f c) = ch_status c ∧ capacity (f c) = capacity c ∧ good (f c)).
  { assert (Hsame : ∃ f, channels (store g) = alter f i (channels (store g)) ∧ payments (store g) = payments (store g) ∧
      unmarked (store g) = unmarked (store g) ∧ ch_status (f c) = ch_status c ∧ capacity (f c) = capacity c ∧ good (f c)).
    { exists id. rewrite alter_id by done. done. }
    unfold update_end. stx_unfold. destruct accepted as [[]|]; [|exact Hsame..]. cbn [negb].
    destruct (num_is_nan (u_balance u)) eqn:Hn; [exact Hsame|]. stx_unfold. destruct db; [|exact Hsame].
    exists (updated now u). assert (num_is_nan (capacity c) = false) by by destruct (num_ltb_not_nan _ _ Hg1).
    split_and!; try done. split; [done|]. split; [by apply num_gtb_false|done]. }
  destruct Hrun as (f & Hch & Hps & Hun & Hst & Hcp & Hgf). set (st' := (update_end _ _ _ _ _ _).2) in *.
  assert (Ha : ∀ j, asked j st' = asked j (store g)) by (intros; unfold asked; by rewrite Hps).
  assert (Hf : ∀ j, failed j st' = failed j (store g)) by (intros; unfold failed; by rewrite Hps, Hun).
  apply (leave_ok i (Updating i u) f l1 l2 g c); try done.
  { intros p. rewrite Hps. by left. }
  destruct (leave_counts i (Updating i u) l1 l2 g st' (overlaps g) Hr) as (N1 & N2 & N3).
  cbn [channel_of closing paying] in N1, N2, N3. rewrite decide_True in N1 by done. rewrite decide_False in N2, N3 by tauto.
  destruct (inv_chan g Hi i) as [H1 H2 H3]. set (g' := mk_cfg st' (l1 ++ l2) (overlaps g)) in *.
  change (overlapping i g) with (overlapping i g') in *.
  split; cbn [store g']; rewrite ?Ha, ?Hf.
  - lia.
  - intros d. rewrite Hch, lookup_alter_eq, Hc. intros [= <-] Hd. rewrite Hst in Hd. destruct (H2 c Hc Hd). lia.
  - intros [Hq1 Hq2]%H3. destruct (Hq2 c Hc) as (Hs & _ & Hp). pose proof (calls_split i g').
    assert (ch_status c ≠ Settled) by (intros Hx%Hs; lia).
    split; [lia|]. cbn [store running g']. intros d. rewrite Hch, lookup_alter_eq, Hc. intros [= <-]. split_and!.
    + rewrite Hst. intros Hx. by destruct H.
    + intros d Hd. by apply (no_closing i g' d) in Hd; [|lia].
    + intros Hf0 p. rewrite Hps. intros Hpin Hpc. rewrite Hf in Hf0. destruct (Hp Hf0 p Hpin Hpc) as [_ [?|?]]; [done|lia].
Qed.

Lemma close_end_ok now i txId db l1 l2 g :
  running g = l1 ++ Paid i txId :: l2 → inv g →
  inv (mk_cfg (close_end now i txId db (store g)).2 (l1 ++ l2) (overlaps g)).
Proof.
  intros Hr Hi. set (st' := (close_end now i txId db (store g)).2). set (g' := mk_cfg st' (l1 ++ l2) (overlaps g)).
  destruct (inv_calls g Hi (Paid i txId)) as (c & Hc & _); [rewrite Hr; apply elem_of_app; right; left|]. cbn [channel_of] in Hc.
  destruct (leave_counts i (Paid i txId) l1 l2 g st' (overlaps g) Hr) as (N1 & N2 & N3). fold g' in N1, N2, N3.
  cbn [channel_of closing paying] in N1, N2, N3. rewrite decide_True in N1, N3 by done. rewrite decide_False in N2 by tauto.
  destruct (inv_chan g Hi i) as [H1 H2 H3]. change (overlapping i g) with (overlapping i g') in *. pose proof (calls_split i g').
  assert (Hps : payments st' = payments (store g)) by (unfold st', close_end; destruct db as [[]|]; reflexivity).
  assert (Ha : ∀ j, asked j st' = asked j (store g)) by (intros; unfold asked; by rewrite Hps).
  destruct db as [[]|e] eqn:Hdb.
  - apply (leave_ok i (Paid i txId) (settled now txId) l1 l2 g c); try done; [exact (inv_rows g Hi i c Hc)| |].
    { intros p. rewrite Hps. by left. }
    assert (Hf : ∀ j, failed j st' = failed j (store g)) by done.
    assert (Hch : channels st' !! i = Some (settled now txId c)).
    { change (alter (settled now txId) i (channels (store g)) !! i = Some (settled now txId c)). by rewrite lookup_alter_eq, Hc. }
    fold g'. split; cbn [store g']; rewrite ?Ha, ?Hf; [lia| |].
    + intros d. rewrite Hch. by intros [= <-].
    + intros [Hq1 Hq2]%H3. destruct (Hq2 c Hc) as (Hs & _ & Hp). split; [lia|]. cbn [store running g']. intros d.
      rewrite Hch. intros [= <-]. split_and!; [lia|intros d Hd; by apply (no_closing i g' d) in Hd; [|lia]|].
      intros Hf0 p. rewrite Hps. intros Hpin Hpc. destruct (Hp Hf0 p Hpin Hpc) as [Hb _]. split; [exact Hb|by left].
  - apply (leave_ok i (Paid i txId) id l1 l2 g c); try done; [by rewrite alter_id|by eapply (inv_rows g Hi i)| | |].
    { intros p. rewrite Hps. by left. }
    { intros j Hne. split; [done|]. change (failed j (log_unmarked i (store g)) = failed j (store g)). unfold failed. cbn [payments unmarked log_unmarked].
      rewrite cnt_app, cnt_cons, cnt_nil, decide_False by done. lia. }
    assert (Hf : failed i st' = (failed i (store g) + 1)%nat).
    { change (failed i (log_unmarked i (store g)) = (failed i (store g) + 1)%nat). unfold failed. cbn [payments unmarked log_unmarked].
      rewrite cnt_app, cnt_cons, cnt_nil, decide_True by done. lia. }
    fold g'. split; cbn [store g']; rewrite ?Ha, ?Hf; [lia| |].
    + intros d Hd Hns. destruct (H2 d Hd Hns). lia.
    + intros [Hq1 Hq2]%H3. destruct (Hq2 c Hc) as (Hs & _ & Hp). split; [lia|]. cbn [store running g']. intros d.
      change (channels st') with (channels (store g)). rewrite Hc. intros [= <-]. rewrite Hf.
      split_and!; [lia|intros d Hd; by apply (no_closing i g' d) in Hd; [|lia]|lia].
Qed.

(** Asking for the payment: it goes on to the UPDATE or leaves. *)
Lemma channel_asked_log i p s : asked i (log_payment p s) = (asked i s + if decide (p_channel p = i) then 1 else 0)%nat.
Proof. unfold asked. cbn [payments log_payment]. rewrite cnt_app, cnt_cons, cnt_nil. lia. Qed.
Lemma channel_failed_log i p s : failed i (log_payment p s) =
  (failed i s + if decide (p_channel p = i ∧ p_answered p = false) then 1 else 0)%nat.
Proof. unfold failed. cbn [payments unmarked log_payment]. rewrite cnt_app, cnt_cons, cnt_nil. lia. Qed.

Lemma close_pay_run i c result s :
  close_pay i c result s =
    if num_gtb (balance c) num_zero then (result, log_payment (mk_payment i (balance c) (answered result)) s)
    else (Ret None, s).
Proof. unfold close_pay, pay. stx_unfold. destruct (num_gtb _ _); [|done]. stx_unfold. by destruct result. Qed.

(** A call that was waiting for its payment waits for the database. *)
Lemma close_pay_next i c txId l1 l2 st' g :
  inv g → running g = l1 ++ Closing i c :: l2 → channels st' = channels (store g) →
  (∀ p, p ∈ payments st' → p ∈ payments (store g) ∨ p_channel p = i ∧ p_amount p = balance c ∧ num_gtb (balance c) num_zero = true) →
  (∀ j, j ≠ i → asked j st' = asked j (store g)) → (∀ j, failed j st' = failed j (store g)) →
  (asked i (store g) <= asked i st' <= 1 + asked i (store g))%nat →
  inv (mk_cfg st' (l1 ++ Paid i txId :: l2) (overlaps g)).
Proof.
  intros Hi Hr Hch Hps Ha Hf Hai. set (g' := mk_cfg st' (l1 ++ Paid i txId :: l2) (overlaps g)).
  destruct (inv_calls g Hi (Closing i c)) as (c0 & Hc & Hcap & Hgood); [rewrite Hr; apply elem_of_app; right; left|].
  cbn [channel_of] in Hc.
  assert (N : ∀ j, n_calls j g' = n_calls j g ∧
    (n_closing j g = (if decide (i = j) then 1 else 0) + n_closing j g' ∧
     n_paying j g' = (if decide (i = j) then 1 else 0) + n_paying j g)%nat).
  { intros j. unfold n_calls, n_closing, n_paying, g'. cbn [running]. rewrite Hr, !cnt_mid. cbn [channel_of closing paying].
    rewrite !(decide_False (P := False)) by tauto. done. }
  split; cbn [store running g']; rewrite ?Hch.
  - apply Hi.
  - intros k [Hk|[->|Hk]%elem_of_cons]%elem_of_app; [| |].
    + apply (inv_calls g Hi). rewrite Hr. apply elem_of_app. by left.
    + by exists c0.
    + apply (inv_calls g Hi). rewrite Hr. apply elem_of_app. right. by right.
  - intros p [Hp|(<- & Hb & Hpos)]%Hps; [by apply (inv_pays g Hi)|]. exists c0. rewrite Hb, <- Hcap.
    split; [done|]. split; [done|]. apply Hgood.
  - intros j. destruct (N j) as (N1 & N2 & N3). destruct (inv_chan g Hi j) as [H1 H2 H3].
    change (overlapping j g) with (overlapping j g') in *. destruct (decide (i = j)) as [<-|Hne].
    + split; cbn [store g']; rewrite ?Hf; [lia| |].
      * rewrite Hch. intros d Hd Hns. destruct (H2 d Hd Hns). lia.
      * intros [Hq1 Hq2]%H3. split; [lia|]. cbn [store running g']. rewrite Hch, Hf. intros d Hd.
        destruct (Hq2 d Hd) as (Hs & Hbal & Hp). split_and!; [rewrite N1; exact Hs| |].
        -- intros x Hx. apply Hbal. rewrite Hr. apply elem_of_app in Hx as [Hx|[Hx|Hx]%elem_of_cons]; [|done|];
             apply elem_of_app; [by left|right; by right].
        -- intros Hf0 p [Hpin|(_ & Hpb & _)]%Hps Hpc; (split; [|right; lia]).
           ++ by destruct (Hp Hf0 p Hpin Hpc).
           ++ rewrite Hpb. apply Hbal. rewrite Hr. apply elem_of_app. right. left.
    + apply (chan_frame j g); try done; [by cbn [store g']; rewrite Hch|by apply Ha| |].
      * intros d Hd. rewrite Hr. apply elem_of_app in Hd as [Hd|[Hd|Hd]%elem_of_cons]; [|done|];
          apply elem_of_app; [by left|right; by right].
      * intros p [Hpin|(<- & _)]%Hps Hpc; done.
Qed.

Lemma close_pay_ok i c result l1 l2 g :
  running g = l1 ++ Closing i c :: l2 → inv g →
  inv (mk_cfg (close_pay i c result (store g)).2
         (match (close_pay i c result (store g)).1 with Ret txId => l1 ++ Paid i txId :: l2 | Throw _ => l1 ++ l2 end)
         (overlaps g)).
Proof.
  intros Hr Hi. rewrite close_pay_run. destruct (num_gtb (balance c) num_zero) eqn:Hpos; cbn [fst snd]; cycle 1.
  { apply (close_pay_next i c); try done; [auto|lia]. }
  set (x := mk_payment i (balance c) (answered result)). set (st' := log_payment x (store g)).
  assert (Hps : ∀ p, p ∈ payments st' → p ∈ payments (store g) ∨ p_channel p = i ∧ p_amount p = balance c ∧ num_gtb (balance c) num_zero = true).
  { intros p [Hp| ->%list_elem_of_singleton]%elem_of_app; [by left|by right]. }
  assert (Ha : ∀ j, j ≠ i → asked j st' = asked j (store g)).
  { intros j Hne. unfold st'. rewrite channel_asked_log, decide_False by (cbn; congruence). lia. }
  assert (Hai : asked i st' = (asked i (store g) + 1)%nat) by (unfold st'; by rewrite channel_asked_log, decide_True).
  assert (Hfj : ∀ j, failed j st' = (failed j (store g) + if decide (i = j ∧ answered result = false) then 1 else 0)%nat).
  { intros j. unfold st'. by rewrite channel_failed_log. }
  destruct result as [txId|e].
  - apply (close_pay_next i c); try done; [|lia]. intros j. rewrite Hfj, decide_False by (intros [_ ?]; done). lia.
  - destruct (inv_calls g Hi (Closing i c)) as (c0 & Hc & Hcap & Hgood); [rewrite Hr; apply elem_of_app; right; left|].
    cbn [channel_of] in Hc. apply (leave_ok i (Closing i c) id l1 l2 g c0); try done; [by rewrite alter_id|by eapply (inv_rows g Hi i)| | |].
    + intros p [Hp|(Hp & Hb & _)]%Hps; [by left|right]. rewrite Hb, <- Hcap. split; [done|]. split; [done|]. apply Hgood.
    + intros j Hne. split; [by apply Ha|]. rewrite Hfj, decide_False by (intros [? _]; congruence). lia.
    + set (g' := mk_cfg st' (l1 ++ l2) (overlaps g)).
      destruct (leave_counts i (Closing i c) l1 l2 g st' (overlaps g) Hr) as (N1 & N2 & N3). fold g' in N1, N2, N3.
      cbn [channel_of closing paying] in N1, N2, N3. rewrite decide_True in N1, N2 by done. rewrite decide_False in N3 by tauto.
      specialize (Hfj i). rewrite decide_True in Hfj by done.
      destruct (inv_chan g Hi i) as [H1 H2 H3]. change (overlapping i g) with (overlapping i g') in *. pose proof (calls_split i g').
      split; cbn [store g']; rewrite ?Hai, ?Hfj; [lia| |].
      * intros d Hd Hns. destruct (H2 d Hd Hns). lia.
      * intros [Hq1 Hq2]%H3. destruct (Hq2 c0 Hc) as (Hs & _ & _). split; [lia|]. cbn [store running g']. intros d.
        change (channels st') with (channels (store g)). rewrite Hc, Hfj. intros [= <-].
        split_and!; [lia|intros d Hd; by apply (no_closing i g' d) in Hd; [|lia]|lia].
Qed.

Lemma coop_inv : preserves step inv.
Proof.
  intros g g' Hi Hs. destruct Hs; [by apply open_ok|by eapply update_start_ok|by apply update_end_ok|by eapply close_start_ok|
    by apply close_pay_ok|by apply close_end_ok].
Qed.

(** ** Calls that do not overlap *)

(** The sequence number of a channel never goes back, its parties and
    capacity never change. *)
Definition advances (c d : channel) : Prop :=
  sequence c <= sequence d ∧ capacity c = capacity d ∧ senderKey c = senderKey d ∧
  receiverKey c = receiverKey d.

Definition tracks (i : string) (c : channel) (s : st) : Prop :=
  ∃ d, channels s !! i = Some d ∧ advances c d.

Lemma advances_trans c d e : advances c d → advances d e → advances c e.
Proof. intros (?&?&?&?) (?&?&?&?). unfold advances. split_and!; [lia|congruence..]. Qed.

Lemma tracks_same i c s s' : channels s' = channels s → tracks i c s → tracks i c s'.
Proof. unfold tracks. by intros ->. Qed.

Lemma tracks_row i c s s' j f : channels s' = alter f j (channels s) →
  (∀ d, channels s !! j = Some d → advances d (f d)) → tracks i c s → tracks i c s'.
Proof.
  intros Hs Hf (d & Hd & Ha). unfold tracks. rewrite Hs. destruct (row_alter j i f _ d Hd) as (e & He & [->|[-> ->]]); [eauto|].
  exists (f d). split; [done|]. by eapply advances_trans; [|apply Hf].
Qed.

Lemma tracks_put i c s s1 j d e ps us :
  channels s1 = channels s → channels s !! j = Some d → advances d e → tracks i c s →
  tracks i c (mk_st (<[j := e]> (channels s1)) ps us).
Proof.
  intros -> Hd He (x & Hx & Ha). unfold tracks. cbn. destruct (decide (i = j)) as [->|Hne].
  - exists e. rewrite lookup_insert_eq. split; [done|]. assert (x = d) as -> by congruence. by eapply advances_trans.
  - exists x. by rewrite lookup_insert_ne.
Qed.

Lemma get_channel_state i s : (getChannel i s).2 = s.
Proof. unfold getChannel. by destruct (channels s !! i). Qed.

Lemma any_update_tracks now j amount s1 s2 g1 g2 ok db i c s :
  tracks i c s → tracks i c (updateChannel now j amount s1 s2 g1 g2 ok db s).2.
Proof.
  intros Ht. unfold updateChannel. stx_unfold. destruct (update_start now j amount s1 s2 g1 g2 s) as [u|e] eqn:Hu; [|done].
  assert (Hseq : ∀ d, channels s !! j = Some d → u_sequence u = sequence d + 1).
  { revert Hu. unfold update_start. destruct (is_empty j); [done|]. destruct (num_leb amount num_zero); [done|].
    destruct (channels s !! j); [|done]. case_bool_decide; [done|]. destruct (num_gtb _ _); [done|]. destruct (negb _); [done|].
    destruct (negb _); [done|]. intros [= <-] d [= <-]. done. }
  stx_unfold. unfold update_end. stx_unfold. destruct ok as [[]|]; try done. cbn [negb].
  destruct (num_is_nan (u_balance u)); [done|]. stx_unfold. destruct db; [|done]. stx_unfold. rewrite get_channel_state.
  apply (tracks_row i c s _ j (updated now u)); [done| |done]. intros d Hd. specialize (Hseq d Hd). split_and!; cbn; (done || lia).
Qed.

Lemma any_close_tracks now j secret r db i c s : tracks i c s → tracks i c (closeChannel now j secret r db s).2.
Proof.
  intros Ht. unfold closeChannel. stx_unfold. destruct (close_start j secret s) as [d|e]; [|done]. stx_unfold.
  rewrite close_pay_run. set (x := mk_payment j (balance d) (answered r)).
  assert (Hend : ∀ t s', channels s' = channels s →
    tracks i c (match close_end now j t db s' with (Ret _, s2) => getChannel j s2 | (Throw e, s2) => (Throw e, s2) end).2).
  { intros t s' Hs. unfold close_end. destruct db as [[]|]; stx_unfold; [rewrite get_channel_state|by apply (tracks_same i c s)].
    apply (tracks_row i c s _ j (settled now t)); [cbn; by rewrite Hs| |done]. intros y _. split_and!; cbn; (done || lia). }
  destruct (num_gtb _ _); [destruct r as [t|e]; [|by apply (tracks_same i c s)]|]; apply Hend; done.
Qed.

Lemma any_step_tracks i c : preserves any_step (tracks i c).
Proof.
  intros s s' Ht Hs. destruct Hs as [now uuid a b cap e Hf|now j amount s1 s2 g1 g2 ok db|now j secret r db|now j seq bal g1 g2 s1 s2|now j secret r].
  - destruct (open_shape now uuid a b cap e s Hf) as [->|(d & -> & _)]; [done|]. destruct Ht as (x & Hx & ?). exists x. cbn.
    rewrite lookup_insert_ne; [done|congruence].
  - by apply any_update_tracks.
  - by apply any_close_tracks.
  - unfold disputeChannel. destruct (is_empty j); [done|]. stx_unfold. unfold getChannel at 1.
    destruct (channels s !! j) as [d|] eqn:Hd; [|done].
    destruct (negb _); [done|]. destruct (Z.leb_spec seq (sequence d)); [done|].
    destruct (_ >? _); [done|].
    destruct (negb _); [done|]. destruct (negb _); [done|]. destruct (num_is_nan bal); [done|]. stx_unfold.
    unfold put_channel. stx_unfold. rewrite get_channel_state. eapply (tracks_put i c s s j); [done|exact Hd| |done].
    split_and!; cbn; (done || lia).
  - unfold forceCloseChannel. destruct (is_empty j); [done|]. destruct (is_empty secret); [done|]. stx_unfold. unfold getChannel at 1.
    destruct (channels s !! j) as [d|] eqn:Hd; [|done]. case_bool_decide; [done|]. cbv zeta.
    destruct (_ && _); [done|]. unfold pay.
    destruct (num_gtb _ _); [destruct r as [t|]|]; unfold put_channel; stx_unfold; rewrite ?get_channel_state;
      [|by apply (tracks_same i c s)|]; (eapply (tracks_put i c s _ j); [done|exact Hd| |done]); split_and!; cbn; (done || lia).
Qed.

(** ** Properties *)

(** C27: In the cooperative life of channels (open, update, close, with any signatures and any answers
    of the service and the database), whatever calls overlap: no balance ever exceeds its
    channel's capacity, every sequence number counts the stored signature pairs, every payment is
    positive and within the capacity, and the payment of a channel is asked for at most once more
    often than a close failed (an error of the service, or of the UPDATE after the payment) or a
    call of the channel began while another was under way.  Without failures and overlaps a
    channel is paid out at most once, with its final balance. *)
Theorem channel_solvent (g : cfg) (Hr : rtc step (mk_cfg (mk_st ∅ [] []) [] []) g) :
  (∀ i c, channels (store g) !! i = Some c →
     num_leb (balance c) (capacity c) = true ∧ sequence c = Z.of_nat (length (signatures c))) ∧
  (∀ p, p ∈ payments (store g) → ∃ c, channels (store g) !! p_channel p = Some c ∧
     num_ltb num_zero (p_amount p) = true ∧ num_leb (p_amount p) (capacity c) = true ∧
     (failed (p_channel p) (store g) = 0%nat → overlapping (p_channel p) g = 0%nat → p_amount p = balance c)) ∧
  (∀ i, (asked i (store g) <= 1 + failed i (store g) + overlapping i g)%nat).
Proof.
  assert (Hi : inv g).
  { eapply preserves_rtc; [apply coop_inv|exact Hr|]. split; cbn; [done|by intros ? ?%elem_of_nil..|].
    intros i. split; cbn; [lia|done|]. intros _. split; [cbn; lia|done]. }
  split_and!.
  - intros i c Hc. by destruct (inv_rows g Hi i c Hc) as (_ & ? & ?).
  - intros p Hp. destruct (inv_pays g Hi p Hp) as (c & Hc & H0 & Hle). exists c. split_and!; [done..|].
    intros Hf Ho. destruct (ok_quiet _ _ (inv_chan g Hi _) Ho) as [_ Hq]. destruct (Hq c Hc) as (_ & _ & Hpay).
    by destruct (Hpay Hf p Hp eq_refl).
  - intros i. pose proof (ok_count _ _ (inv_chan g Hi i)). lia.
Qed.

(** When calls do not overlap, disputes and forced closes included, a channel never disappears,
    its parties and capacity never change and its sequence number never goes back. *)
Theorem channel_sequence_monotone (s s' : st) (i : string) (c : channel)
    (Hr : rtc any_step s s') (Hc : channels s !! i = Some c) :
  ∃ d, channels s' !! i = Some d ∧ sequence c <= sequence d ∧ capacity c = capacity d ∧
       senderKey c = senderKey d ∧ receiverKey c = receiverKey d.
Proof.
  apply (preserves_rtc _ _ _ _ (any_step_tracks i c) Hr). exists c. split; [done|]. split_and!; done || lia.
Qed.

(** The signatures bind nobody: for every pair of secrets that the caller
    makes up, the digests under those secrets are accepted on any open channel,
    and the balance moves. *)
Theorem update_forgeable (now : Z) (i : string) (amount : num) (s1 s2 : string) (s : st) (c : channel)
    (Hi : is_empty i = false) (Hc : channels s !! i = Some c) (Ho : ch_status c = Open)
    (Ha : num_leb amount num_zero = false)
    (Hcap : num_leb (num_add (balance c) amount) (capacity c) = true) :
  let m := buildStateMessage i (sequence c + 1) (num_add (balance c) amount) in
  ∃ d s', updateChannel now i amount s1 s2 (signState m s1) (signState m s2) (Ret true) (Ret ()) s = (Ret d, s') ∧
          balance d = num_add (balance c) amount.
Proof.
  cbv zeta. set (m := buildStateMessage _ _ _).
  assert (Hv : ∀ k, verifyStateSignature m (signState m k) k = true).
  { intros k. unfold verifyStateSignature. by rewrite bool_decide_true. }
  assert (Hn : num_is_nan (num_add (balance c) amount) = false) by by apply num_leb_not_nan in Hcap as [??].
  assert (Hg : num_gtb (num_add (balance c) amount) (capacity c) = false).
  { apply not_true_is_false. intros Hgt. pose proof (num_leb_ltb_trans _ _ _ Hcap Hgt) as H.
    by rewrite num_ltb_irrefl in H. }
  assert (Hu : update_start now i amount s1 s2 (signState m s1) (signState m s2) s =
    Ret (mk_update (num_add (balance c) amount) (sequence c + 1)
           (signatures c ++ [Build_sig_entry (sequence c + 1) (signState m s1) (signState m s2) now]))).
  { unfold update_start. rewrite Hi, Ha, Hc, bool_decide_false by (intros HH; by apply HH). rewrite Hg. fold m. by rewrite !Hv. }
  unfold updateChannel. stx_unfold. rewrite Hu. unfold update_end. stx_unfold. cbn [negb u_balance]. rewrite Hn.
  unfold getChannel. cbn [channels update_row]. rewrite lookup_alter_eq, Hc. do 2 eexists. split; [reflexivity|done].
Qed.

End service.

(** A digest for the witnesses: the key's hexadecimal characters. *)
Definition toy_hmac (k m : string) : string := k.

Definition five : num := num_of_Z 5.

Definition ok : outcome jserror unit := Ret ().
Definition empty : st := mk_st ∅ [] [].
Definition opened : st := (openChannel 0 "ch" "A" "B" (num_of_Z 10) None empty).2.

(** Open, pay five into the channel, close. *)
Definition used : st := (updateChannel toy_hmac 1 "ch" five "aa" "bb" "aa" "bb" (Ret true) ok opened).2.
Definition life : st := (closeChannel 2 "ch" "secret" (Ret (Some "tx")) ok used).2.

Definition ex_row : channel :=
  mk_channel "A" "B" (num_of_Z 10) five 1 Open [Build_sig_entry 1 "aa" "bb" 1] None None None None None None 1.
Definition ex_update : update := mk_update five 1 [Build_sig_entry 1 "aa" "bb" 1].

(** The same as calls of which each ends before the next begins. *)
Definition ex_paid : st := (close_pay "ch" ex_row (Ret (Some "tx")) used).2.

Lemma life_reachable : rtc (step toy_hmac) (mk_cfg empty [] []) (mk_cfg life [] []).
Proof.
  eapply rtc_l; [by apply (step_open toy_hmac (mk_cfg empty [] []) 0 "ch" "A" "B" (num_of_Z 10) None)|].
  eapply rtc_l; [apply (step_update_start toy_hmac (mk_cfg opened [] []) 1 "ch" five "aa" "bb" "aa" "bb" ex_update);
    vm_compute; reflexivity|].
  eapply rtc_l; [exact (step_update_end toy_hmac (mk_cfg opened [Updating "ch" ex_update] []) 1 "ch" ex_update (Ret true) ok [] [] eq_refl)|].
  eapply rtc_l; [apply (step_close_start toy_hmac (mk_cfg used [] []) "ch" "secret" ex_row); vm_compute; reflexivity|].
  eapply rtc_l; [exact (step_close_pay toy_hmac (mk_cfg used [Closing "ch" ex_row] []) "ch" ex_row (Ret (Some "tx")) [] [] eq_refl)|].
  eapply rtc_l; [exact (step_close_end toy_hmac (mk_cfg ex_paid [Paid "ch" (Some "tx")] []) 2 "ch" (Some "tx") ok [] [] eq_refl)|].
  assert (H : (close_end 2 "ch" (Some "tx") ok ex_paid).2 = life) by (vm_compute; reflexivity).
  cbn [store app overlaps]. rewrite H. constructor.
Qed.

Lemma channel_solvent_witness :
  p_amount <$> payments life = [five] ∧ (asked "ch" life <= 1 + failed "ch" life + 0)%nat.
Proof.
  split; [vm_compute; reflexivity|].
  exact (proj2 (proj2 (channel_solvent toy_hmac (mk_cfg life [] []) life_reachable)) "ch").
Defined.

Lemma channel_sequence_monotone_witness :
  ∃ c, channels life !! "ch" = Some c ∧
  ∃ d, channels (disputeChannel toy_hmac 3 "ch" 2 five "aa" "bb" "aa" "bb" life).2 !! "ch" = Some d ∧
       sequence c <= sequence d.
Proof.
  eexists. split; [vm_compute; reflexivity|].
  edestruct (channel_sequence_monotone toy_hmac life
    (disputeChannel toy_hmac 3 "ch" 2 five "aa" "bb" "aa" "bb" life).2 "ch") as (d & Hd & Hs & _).
  - eapply rtc_l; [apply any_dispute|constructor].
  - vm_compute. reflexivity.
  - exists d. split; [exact Hd|exact Hs].
Defined.

Lemma update_forgeable_witness :
  ∃ d s', updateChannel toy_hmac 1 "ch" five "aa" "bb" "aa" "bb" (Ret true) ok opened = (Ret d, s') ∧
          balance d = five.
Proof.
  edestruct (update_forgeable toy_hmac 1 "ch" five "aa" "bb" opened) as (d & s' & H & Hb);
    [reflexivity|vm_compute; reflexivity|reflexivity|vm_compute; reflexivity|vm_compute; reflexivity|].
  exists d, s'. split; [exact H|]. rewrite Hb. vm_compute. reflexivity.
Defined.

(** Outside the cooperative life a channel pays twice: a settled channel
    can be force-closed at once and is paid again, and a settled channel can be
    disputed, with a balance above its capacity, and closed again. *)
Theorem double_payout :
  p_amount <$> payments (forceCloseChannel 3 "ch" "secret" (Ret None) life).2 = [five; five] ∧
  p_amount <$> payments (closeChannel 4 "ch" "secret" (Ret None) ok
    (disputeChannel toy_hmac 3 "ch" 2 (num_of_Z 1000) "aa" "bb" "aa" "bb" life).2).2
    = [five; num_of_Z 1000].
Proof. split; vm_compute; reflexivity. Qed.

(** Within it too: when the UPDATE after the payment fails the next close pays again, and two
    closes that both read the open channel both pay. *)
Example lost_update_pays_twice :
  p_amount <$> payments (closeChannel 4 "ch" "secret" (Ret None) ok
    (closeChannel 3 "ch" "secret" (Ret None) (Throw (EPlain "SQLITE_BUSY")) used).2).2 = [five; five].
Proof. vm_compute. reflexivity. Qed.
Example overlapping_closes_pay_twice :
  close_start "ch" "secret" used = Ret ex_row ∧
  p_amount <$> payments (close_pay "ch" ex_row (Ret None) (close_end 3 "ch" None ok (close_pay "ch" ex_row (Ret None) used).2).2).2 =
    [five; five].
Proof. split; vm_compute; reflexivity. Qed.

(** An update that waited while another was written takes the channel back to its own sequence number. *)
Example late_update_goes_back :
  sequence <$> channels (update_end 3 "ch" ex_update (Ret true) ok
    (updateChannel toy_hmac 2 "ch" five "aa" "bb" "aa" "bb" (Ret true) ok used).2).2 !! "ch" = Some 1.
Proof. vm_compute. reflexivity. Qed.

End PaymentChannel.
