(* ===== verification/Permissions.v ===== *)
(** * Permissions ([src/src/utils/scopeValidator.js],
      [src/src/utils/permissions.js], [src/src/config/permissionMatrix.js],
      [src/src/models/permissions.js], [src/src/middleware/rbac.js])

    Role permissions, API key scopes, the permission matrix of the routes and
    the guards of the middleware.  The roles file is an argument. *)

From Stdlib Require Import Ascii.
From S2P Require Import Prelude JsString Errors.
Local Open Scope Z_scope.

Module Permissions.

Definition ALL_SCOPES : list string :=
  ["donations:create"; "donations:read"; "donations:update"; "donations:delete";
   "donations:verify"; "wallets:create"; "wallets:read"; "wallets:update"; "wallets:delete";
   "wallets:export"; "stream:create"; "stream:read"; "stream:update"; "stream:delete";
   "stats:read"; "stats:export"; "transactions:read"; "transactions:sync";
   "transactions:simulate"; "transactions:export"; "apikeys:create"; "apikeys:read";
   "apikeys:update"; "apikeys:rotate"; "apikeys:revoke"; "webhooks:create"; "webhooks:read";
   "webhooks:update"; "webhooks:delete"; "admin:*"].

(** [Object.values(PERMISSIONS)], by key. *)
Definition PERMISSIONS : list (string * string) :=
  [("DONATIONS_CREATE", "donations:create"); ("DONATIONS_READ", "donations:read");
   ("DONATIONS_UPDATE", "donations:update"); ("DONATIONS_DELETE", "donations:delete");
   ("DONATIONS_VERIFY", "donations:verify"); ("DONATIONS_APPROVE", "donations:approve");
   ("WALLETS_CREATE", "wallets:create"); ("WALLETS_READ", "wallets:read");
   ("WALLETS_UPDATE", "wallets:update"); ("WALLETS_DELETE", "wallets:delete");
   ("STREAM_CREATE", "stream:create"); ("STREAM_READ", "stream:read");
   ("STREAM_UPDATE", "stream:update"); ("STREAM_DELETE", "stream:delete");
   ("STATS_READ", "stats:read"); ("STATS_ADMIN", "stats:admin");
   ("TRANSACTIONS_READ", "transactions:read"); ("TRANSACTIONS_SYNC", "transactions:sync");
   ("TRANSACTIONS_SIMULATE", "transactions:simulate"); ("AUDIT_LOG_EXPORT", "audit:export");
   ("ADMIN_ALL", "*")].

Definition PERMISSION_MATRIX : list (string * list string) :=
  [("admin", ["*"]);
   ("user", ["donations:create"; "donations:read"; "donations:verify"; "donations:update";
     "wallets:create"; "wallets:read"; "wallets:update"; "stream:create"; "stream:read";
     "stream:update"; "stream:delete"; "stats:read"; "transactions:read"; "transactions:sync"]);
   ("signer", ["donations:read"; "donations:approve"]);
   ("guest", ["donations:read"; "stats:read"])].

Record route := mk_route { method : string; path : string; route_permission : string }.

Definition ROUTE_PERMISSIONS : list route :=
  [mk_route "POST" "/donations/verify" "donations:verify";
   mk_route "POST" "/donations/send" "donations:create";
   mk_route "GET" "/donations" "donations:read";
   mk_route "GET" "/donations/limits" "donations:read";
   mk_route "GET" "/donations/recent" "donations:read";
   mk_route "GET" "/donations/:id" "donations:read";
   mk_route "PATCH" "/donations/:id/status" "donations:update";
   mk_route "POST" "/donations/:id/approve" "donations:approve";
   mk_route "GET" "/donations/stats/by-tag" "stats:read";
   mk_route "POST" "/wallets" "wallets:create";
   mk_route "GET" "/wallets" "wallets:read";
   mk_route "GET" "/wallets/:id" "wallets:read";
   mk_route "GET" "/wallets/:publicKey/transactions" "wallets:read";
   mk_route "PATCH" "/wallets/:id" "wallets:update";
   mk_route "POST" "/stream/create" "stream:create";
   mk_route "GET" "/stream/schedules" "stream:read";
   mk_route "GET" "/stream/schedules/:id" "stream:read";
   mk_route "DELETE" "/stream/schedules/:id" "stream:delete";
   mk_route "GET" "/stats/daily" "stats:read";
   mk_route "GET" "/stats/weekly" "stats:read";
   mk_route "GET" "/stats/summary" "stats:read";
   mk_route "GET" "/stats/donors" "stats:read";
   mk_route "GET" "/stats/recipients" "stats:read";
   mk_route "GET" "/stats/analytics-fees" "stats:read";
   mk_route "GET" "/stats/wallet/:walletAddress/analytics" "stats:read";
   mk_route "GET" "/transactions" "transactions:read";
   mk_route "POST" "/transactions/sync" "transactions:sync";
   mk_route "POST" "/api-keys" "*";
   mk_route "GET" "/api-keys" "*";
   mk_route "POST" "/api-keys/:id/deprecate" "*";
   mk_route "DELETE" "/api-keys/:id" "*";
   mk_route "POST" "/api-keys/cleanup" "*";
   mk_route "GET" "/abuse-signals" "*";
   mk_route "POST" "/reconcile" "*";
   mk_route "GET" "/geo-blocking" "*";
   mk_route "PUT" "/geo-blocking" "*";
   mk_route "POST" "/geo-blocking/reload-db" "*";
   mk_route "GET" "/geo/rules" "*";
   mk_route "POST" "/geo/block" "*";
   mk_route "DELETE" "/geo/block/:countryCode" "*";
   mk_route "POST" "/geo/allow" "*";
   mk_route "DELETE" "/geo/allow/:countryCode" "*"].

(** ** Scopes *)

Definition isValidScope (scope : string) : bool :=
  if is_empty (trim scope) then false else bool_decide (scope ∈ ALL_SCOPES).

(** The loop of [validateScopes]: the scopes kept and how many errors. *)
Fixpoint validate_go (scopes valid : list string) (errors : nat) : list string * nat :=
  match scopes with
  | [] => (valid, errors)
  | s :: scopes =>
      let trimmed := trim s in
      if is_empty trimmed then validate_go scopes valid (S errors)
      else if negb (isValidScope trimmed) then validate_go scopes valid (S errors)
      else if bool_decide (trimmed ∈ valid) then validate_go scopes valid (S errors)
      else validate_go scopes (valid ++ [trimmed]) errors
  end.
(** [(valid, scopes)] *)
Definition validateScopes (scopes : list string) : bool * list string :=
  let '(l, n) := validate_go scopes [] O in ((n =? 0)%nat, l).

(** [s.split(':')[0]] *)
Definition resource_of (s : string) : string := default "" (head (split_on ":" s)).

Definition hasScope (keyScopes : list string) (requiredScope : string) : bool :=
  if is_empty requiredScope then false
  else if bool_decide ("admin:*" ∈ keyScopes) then true
  else if bool_decide (requiredScope ∈ keyScopes) then true
  else let resource := resource_of requiredScope in
       negb (is_empty resource) && bool_decide (resource +:+ ":*" ∈ keyScopes).

Definition hasAllScopes (keyScopes requiredScopes : list string) : bool :=
  forallb (hasScope keyScopes) requiredScopes.
Definition hasAnyScope (keyScopes requiredScopes : list string) : bool :=
  match requiredScopes with [] => true | _ => existsb (hasScope keyScopes) requiredScopes end.
Definition getScopesByResource (resource : string) : list string :=
  if is_empty resource then []
  else List.filter (starts_with (trim resource +:+ ":")) ALL_SCOPES.

(** ** Permission strings *)

Definition isValidPermission (permission : string) : bool :=
  if is_empty permission then false
  else if bool_decide (permission = "*") then true
  else match split_on ":" permission with
       | [resource; action] => negb (is_empty resource) && negb (is_empty action)
       | _ => false
       end.

(** [(resource, action)]; a missing action is [undefined]. *)
Definition parsePermission (permission : string) : string * option string :=
  if bool_decide (permission = "*") then ("*", Some "*")
  else (resource_of permission, nth_error (split_on ":" permission) 1).

Definition permissionsMatch (required granted : string) : bool :=
  if bool_decide (granted = "*") then true
  else if bool_decide (required = granted) then true
  else bool_decide ((parsePermission required).1 = (parsePermission granted).1) &&
       bool_decide ((parsePermission granted).2 = Some "*").

(** ** Roles *)

(** The parsed roles file: names with their permissions, in order. *)
Definition roles_config := list (string * list string).

Definition find_role (config : roles_config) (roleName : string) : option (list string) :=
  snd <$> find_first (λ r, bool_decide (r.1 = roleName)) config.
Definition getPermissionsByRole (config : roles_config) (roleName : string) : list string :=
  default [] (find_role config roleName).
Definition roleExists (config : roles_config) (roleName : string) : bool :=
  existsb (λ r, bool_decide (r.1 = roleName)) config.

Definition hasPermission (config : roles_config) (roleName permission : string) : bool :=
  let permissions := getPermissionsByRole config roleName in
  if bool_decide ("*" ∈ permissions) then true
  else if bool_decide (permission ∈ permissions) then true
  else bool_decide (resource_of permission +:+ ":*" ∈ permissions).

(** ** Middleware *)

Record api_key := { k_role : option string; k_scopes : option (list string); k_tier : option string }.
Record user := { u_role : option string; u_tier : option string }.
Record req := { r_user : option user; r_apiKey : option api_key }.

(** [x || y] on optional strings *)
Definition or_str (x : option string) (y : option string) : option string :=
  match x with Some s => if is_empty s then y else x | None => y end.

Definition userRole (r : req) (u : user) : string :=
  default "guest" (or_str (match r_apiKey r with Some k => k_role k | None => None end)
                          (or_str (u_role u) (Some "guest"))).

(** The scopes that restrict the key, when there are any. *)
Definition key_scopes (r : req) : option (list string) :=
  match r_apiKey r with
  | Some k => match k_scopes k with Some [] => None | x => x end
  | None => None
  end.

(** A guard either calls [next()] or [next(error)]. *)
Definition checkPermission (config : roles_config) (permission : string) (r : req) : outcome jserror unit :=
  match r_user r with
  | None => Throw (UnauthorizedError (code_ref "UNAUTHORIZED"))
  | Some u =>
      let roleHasPermission := hasPermission config (userRole r u) permission in
      let scopeHasPermission := match key_scopes r with
                                | Some l => hasScope l permission
                                | None => true
                                end in
      if roleHasPermission && scopeHasPermission then Ret ()
      else Throw (ForbiddenError (code_ref "ACCESS_DENIED"))
  end.

Definition checkAnyPermission (config : roles_config) (permissions : list string) (r : req)
  : outcome jserror unit :=
  match r_user r with
  | None => Throw (UnauthorizedError (code_ref "UNAUTHORIZED"))
  | Some u =>
      if negb (existsb (hasPermission config (userRole r u)) permissions) ||
         negb (match key_scopes r with Some l => hasAnyScope l permissions | None => true end)
      then Throw (ForbiddenError (code_ref "ACCESS_DENIED"))
      else Ret ()
  end.

Definition checkAllPermissions (config : roles_config) (permissions : list string) (r : req)
  : outcome jserror unit :=
  match r_user r with
  | None => Throw (UnauthorizedError (code_ref "UNAUTHORIZED"))
  | Some u =>
      if negb (forallb (hasPermission config (userRole r u)) permissions) ||
         negb (match key_scopes r with Some l => hasAllScopes l permissions | None => true end)
      then Throw (ForbiddenError (code_ref "ACCESS_DENIED"))
      else Ret ()
  end.

(** ** Tiers *)

Definition TIER_ORDER : list string := ["free"; "basic"; "pro"; "enterprise"].

Fixpoint index_of (x : string) (l : list string) : option nat :=
  match l with
  | [] => None
  | y :: l => if bool_decide (y = x) then Some O else S <$> index_of x l
  end.

Definition tierMeetsMinimum (keyTier minTier : option string) : bool :=
  let keyIdx := index_of (default "free" (or_str keyTier (Some "free"))) TIER_ORDER in
  let minIdx := index_of (default "free" (or_str minTier (Some "free"))) TIER_ORDER in
  match keyIdx, minIdx with
  | Some k, Some m => (m <=? k)%nat
  | _, _ => false
  end.

(** [Ret true] is [next()], [Ret false] the 402 answer. *)
Definition requireTier (minTier : option string) (r : req) : outcome jserror bool :=
  match r_user r with
  | None => Throw (UnauthorizedError (code_ref "UNAUTHORIZED"))
  | Some u =>
      if bool_decide (u_role u = Some "admin") then Ret true
      else Ret (tierMeetsMinimum
                  (or_str (match r_apiKey r with Some k => k_tier k | None => None end)
                          (or_str (u_tier u) (Some "free"))) minTier)
  end.

(** ** Role validation *)

(** The roles that may use a route, by the matrix. *)
Definition rolesWithPermission (permission : string) : list string :=
  fst <$> List.filter (λ e, bool_decide ("*" ∈ e.2) || bool_decide (permission ∈ e.2)) PERMISSION_MATRIX.

(** [validateRoutePermissions]: the routes with an unknown permission and
    those that no role may use. *)
Definition unknown_routes : list route :=
  List.filter (λ r, negb (bool_decide (route_permission r ∈ PERMISSIONS.*2))) ROUTE_PERMISSIONS.
Definition orphan_routes : list route :=
  List.filter (λ r, bool_decide (rolesWithPermission (route_permission r) = [])) ROUTE_PERMISSIONS.

(** [validateRolePermissions] of one role: what is missing and what is extra. *)
Definition missing_permissions (matrixPerms actualPerms : list string) : list string :=
  List.filter (λ perm, negb (existsb (permissionsMatch perm) actualPerms)) matrixPerms.
Definition extra_permissions (matrixPerms actualPerms : list string) : list string :=
  List.filter (λ perm, negb (bool_decide (perm = "*")) &&
                       negb (existsb (permissionsMatch perm) matrixPerms)) actualPerms.

(** ** Lemmas *)

Lemma split_head_no_sep c s w ws :
  split_on c s = w :: ws → str_forall (λ a, negb (Ascii.eqb a c)) w = true.
Proof.
  revert w ws. induction s as [|a s IH]; intros w ws; cbn -[Ascii.eqb]; [by intros [= <- _]|].
  destruct (Ascii.eqb a c) eqn:Ha; [by intros [= <- _]|].
  destruct (split_on c s) as [|w' ws'] eqn:Hs; intros [= <- _]; cbn -[Ascii.eqb]; rewrite Ha; [done|].
  by apply (IH w' ws').
Qed.

Lemma resource_no_colon p : str_forall (λ a, negb (Ascii.eqb a ":")) (resource_of p) = true.
Proof.
  unfold resource_of. destruct (split_on ":" p) as [|w ws] eqn:Hs; [done|].
  by eapply split_head_no_sep.
Qed.

(** The resource wildcard splits back. *)
Lemma split_wildcard r :
  str_forall (λ a, negb (Ascii.eqb a ":")) r = true → split_on ":" (r +:+ ":*") = [r; "*"].
Proof. intros Hr. change ":*" with (String ":" "*"). by rewrite split_on_app. Qed.

Lemma wildcard_not_star r : r +:+ ":*" ≠ "*".
Proof. destruct r as [|c [|d r]]; discriminate. Qed.

Lemma parse_resource p : (parsePermission p).1 = resource_of p.
Proof. unfold parsePermission. case_bool_decide; by subst. Qed.

Lemma parse_wildcard r :
  str_forall (λ a, negb (Ascii.eqb a ":")) r = true → parsePermission (r +:+ ":*") = (r, Some "*").
Proof.
  intros Hr. unfold parsePermission.
  rewrite (bool_decide_eq_false_2 _ (wildcard_not_star r)).
  unfold resource_of. by rewrite (split_wildcard r Hr).
Qed.

(** A valid granted permission with action [*] is the wildcard of its resource. *)
Lemma valid_wildcard g :
  isValidPermission g = true → g ≠ "*" → (parsePermission g).2 = Some "*" → g = resource_of g +:+ ":*".
Proof.
  unfold isValidPermission, parsePermission. intros Hv Hg Ha.
  destruct (is_empty g); [done|]. rewrite bool_decide_false in Hv, Ha by done. cbn in Ha.
  pose proof (str_join_split ":" g) as Hj. unfold resource_of.
  destruct (split_on ":" g) as [|r [|a [|]]]; try done. cbn in Ha. injection Ha as ->. exact (eq_sym Hj).
Qed.

Lemma validate_go_sub scopes valid errors :
  (∀ x, x ∈ valid → x ∈ ALL_SCOPES) → ∀ x, x ∈ (validate_go scopes valid errors).1 → x ∈ ALL_SCOPES.
Proof.
  revert valid errors. induction scopes as [|s scopes IH]; intros valid errors Hv; cbn [validate_go]; [done|].
  destruct (is_empty (trim s)); [by apply IH|].
  destruct (isValidScope (trim s)) eqn:Hs; cbn [negb]; [|by apply IH].
  case_bool_decide; [by apply IH|]. apply IH. intros x [Hx|Hx]%elem_of_app; [by apply Hv|].
  apply list_elem_of_singleton in Hx as ->. unfold isValidScope in Hs.
  destruct (is_empty (trim (trim s))); [done|]. by apply bool_decide_eq_true in Hs.
Qed.

Fixpoint last_char (s : string) : option ascii :=
  match s with
  | EmptyString => None
  | String c EmptyString => Some c
  | String _ s => last_char s
  end.

Lemma last_char_app s t : t ≠ "" → last_char (s +:+ t) = last_char t.
Proof.
  intros Ht. induction s as [|c s IH]; [done|]. cbn [String.append last_char].
  destruct (s +:+ t) eqn:He; [|done]. destruct s; cbn in He; congruence.
Qed.

Lemma all_scopes_wildcard x : x ∈ ALL_SCOPES → last_char x = Some "*"%char → x = "admin:*".
Proof.
  intros Hx. unfold ALL_SCOPES in Hx.
  repeat (apply elem_of_cons in Hx as [->|Hx]; [vm_compute; done || (intros [=])|]).
  by apply elem_of_nil in Hx.
Qed.

(** ** Properties *)

(** The two permission checks of the program agree: the role check of the
    middleware grants a permission exactly when [permissionsMatch] of the role
    validator matches it with one of the role's permissions, for well-formed
    permissions. *)
Theorem hasPermission_match (config : roles_config) (roleName permission : string)
    (Hp : isValidPermission permission = true)
    (Hc : Forall (λ g, isValidPermission g = true) (getPermissionsByRole config roleName)) :
  hasPermission config roleName permission =
    existsb (permissionsMatch permission) (getPermissionsByRole config roleName).
Proof.
  unfold hasPermission. set (perms := getPermissionsByRole config roleName) in *.
  apply eq_true_iff_eq. rewrite existsb_exists. split.
  - case_bool_decide as H1.
    { intros _. exists "*". split; [by apply list_elem_of_In|done]. }
    case_bool_decide as H2.
    { intros _. exists permission. split; [by apply list_elem_of_In|].
      unfold permissionsMatch. case_bool_decide; [done|]. by rewrite bool_decide_true. }
    intros H3%bool_decide_eq_true. eexists. split; [by apply list_elem_of_In|].
    unfold permissionsMatch. case_bool_decide; [done|]. case_bool_decide; [done|].
    rewrite (parse_wildcard _ (resource_no_colon permission)), parse_resource. cbn [fst snd].
    by rewrite !bool_decide_true.
  - intros (g & Hg%list_elem_of_In & Hm). case_bool_decide as H1; [done|]. case_bool_decide as H2; [done|].
    unfold permissionsMatch in Hm. case_bool_decide as Hs; [by subst|].
    case_bool_decide as He; [by subst|].
    apply andb_prop in Hm as [Hr Ha]. apply bool_decide_eq_true in Hr, Ha.
    rewrite Forall_forall in Hc. rewrite !parse_resource in Hr. rewrite Hr.
    rewrite <- (valid_wildcard g (Hc g Hg) Hs Ha). by apply bool_decide_eq_true_2.
Qed.

Definition demo_roles : roles_config :=
  [("admin", ["*"]); ("user", ["donations:*"; "stats:read"]); ("guest", ["donations:read"])].

Lemma hasPermission_match_witness :
  hasPermission demo_roles "user" "donations:create" = true ∧
  hasPermission demo_roles "user" "donations:create" =
    existsb (permissionsMatch "donations:create") (getPermissionsByRole demo_roles "user").
Proof.
  split; [vm_compute; reflexivity|].
  apply (hasPermission_match demo_roles "user" "donations:create"); [vm_compute; reflexivity|].
  vm_compute. repeat constructor.
Defined.

(** Least privilege.  A request with a key whose scopes passed
    [validateScopes] gets through [checkPermission] only if its role grants the
    permission and the permission is literally one of the scopes, or the key
    holds the administrator's wildcard; in every other case the answer is 403,
    or 401 without a user. *)
Theorem scoped_key_least_privilege (config : roles_config) (permission : string) (r : req)
    (given l : list string)
    (Hl : key_scopes r = Some l) (Hv : validateScopes given = (true, l)) :
  match checkPermission config permission r with
  | Ret _ => ∃ u, r_user r = Some u ∧ hasPermission config (userRole r u) permission = true ∧
             (permission ∈ l ∨ "admin:*" ∈ l)
  | Throw e => (r_user r = None ∧ e = UnauthorizedError (code_ref "UNAUTHORIZED")) ∨
               (r_user r ≠ None ∧ e = ForbiddenError (code_ref "ACCESS_DENIED"))
  end.
Proof.
  unfold checkPermission. destruct (r_user r) as [u|]; [|by left].
  destruct (hasPermission config (userRole r u) permission) eqn:Hp; cbn [andb]; [|by right].
  rewrite Hl. destruct (hasScope l permission) eqn:Hs; [|by right].
  exists u. split; [done|]. split; [done|].
  assert (Hsub : ∀ x, x ∈ l → x ∈ ALL_SCOPES).
  { unfold validateScopes in Hv. pose proof (validate_go_sub given [] O) as H.
    destruct (validate_go given [] 0) as [l' n]. injection Hv as _ ->. apply H.
    by intros x ?%elem_of_nil. }
  unfold hasScope in Hs. destruct (is_empty permission); [done|].
  case_bool_decide; [by right|]. case_bool_decide; [by left|].
  apply andb_prop in Hs as [_ Hw]. apply bool_decide_eq_true in Hw. right.
  assert (resource_of permission +:+ ":*" = "admin:*") as <-; [|done].
  apply all_scopes_wildcard; [by apply Hsub|]. by rewrite last_char_app.
Qed.

Definition demo_req (scopes : list string) : req :=
  {| r_user := Some {| u_role := Some "guest"; u_tier := None |};
     r_apiKey := Some {| k_role := Some "user"; k_scopes := Some scopes; k_tier := None |} |}.

Lemma scoped_key_least_privilege_witness :
  checkPermission demo_roles "stats:read" (demo_req ["stats:read"]) = Ret () ∧
  ∃ u, r_user (demo_req ["stats:read"]) = Some u ∧
       hasPermission demo_roles (userRole (demo_req ["stats:read"]) u) "stats:read" = true ∧
       ("stats:read" ∈ ["stats:read"] ∨ "admin:*" ∈ ["stats:read"]).
Proof.
  split; [vm_compute; reflexivity|].
  exact (scoped_key_least_privilege demo_roles "stats:read" (demo_req ["stats:read"])
    [" stats:read "] ["stats:read"] eq_refl eq_refl).
Defined.

(** The route table is closed under the matrix: every route's permission
    is a known one and some role holds it; a guest reaches only GET routes, and
    every route under the full-access permission is the administrator's alone. *)
Theorem route_matrix_sound :
  unknown_routes = [] ∧ orphan_routes = [] ∧
  Forall (λ r, "guest" ∈ rolesWithPermission (route_permission r) → method r = "GET") ROUTE_PERMISSIONS ∧
  Forall (λ r, route_permission r = "*" → rolesWithPermission (route_permission r) = ["admin"])
    ROUTE_PERMISSIONS.
Proof.
  split; [vm_compute; reflexivity|]. split; [vm_compute; reflexivity|].
  split; apply (bool_decide_unpack _); vm_compute; exact I.
Qed.

End Permissions.
