(* ===== verification/SocialRecovery.v ===== *)
(** * Social recovery ([src/src/services/SocialRecoveryService.js])

    Guardians, recovery requests, approvals and the on-chain signer swap.  A
    method runs as one step over the tables of migrations 006 and 045; the
    answer of the Stellar service is an argument.  Notifications are left out. *)

From S2P Require Import Prelude JsString Errors.
Local Open Scope Z_scope.

Module SocialRecovery.

Definition EXPIRATION_HOURS : Z := 72.
Definition EXPIRATION_MS : Z := EXPIRATION_HOURS * 60 * 60 * 1000.

Inductive status := Pending | Executed | Expired | Cancelled.
#[export] Instance status_eq_dec : EqDecision status.
Proof. solve_decision. Defined.

(** A row of [recovery_guardians]: UNIQUE (walletId, guardianPublicKey). *)
Record guardian := { g_wallet : Z; g_key : string; g_email : option string; g_threshold : option Z }.

Record request := mk_request {
  r_wallet : Z;
  r_newPublicKey : string;
  r_threshold : Z;
  r_expiresAt : Z;
  r_status : status;
  r_executedAt : option Z;
}.

Record wallet := { w_publicKey : string; w_encryptedSecret : option string }.

(** [added] and [removed] record, by request, the signer operations the
    network carried out. *)
Record st := mk_st {
  wallets : gmap Z wallet;
  guardians : list guardian;
  requests : gmap Z request;
  approvals : list (Z * string);   (* UNIQUE (recoveryRequestId, guardianPublicKey) *)
  next_id : Z;
  added : list Z;
  removed : list Z;
}.

Definition M := stx jserror st.

Definition set_guardian_rows (s : st) l := mk_st (wallets s) l (requests s) (approvals s) (next_id s) (added s) (removed s).
Definition set_requests (s : st) x := mk_st (wallets s) (guardians s) x (approvals s) (next_id s) (added s) (removed s).

Definition _assertWalletExists (w : Z) : M unit := λ s,
  match wallets s !! w with Some _ => (Ret (), s) | None => (Throw NotFoundError, s) end.

Definition guardian_keys (s : st) (w : Z) : list string :=
  g_key <$> filter (λ g, g_wallet g = w) (guardians s).

Definition getGuardians (w : Z) : M (list string) :=
  _assertWalletExists w;; s ← get_st; mret (guardian_keys s w).

(** The INSERT of one guardian. *)
Definition insert_guardian (g : guardian) : M unit := λ s,
  if bool_decide (g_key g ∈ guardian_keys s (g_wallet g)) then (Throw EUnique, s)
  else (Ret (), set_guardian_rows s (guardians s ++ [g])).

Fixpoint insert_guardians (w : Z) (threshold : option Z) (l : list (string * option string)) : M unit :=
  match l with
  | [] => mret ()
  | (k, e) :: l =>
      insert_guardian {| g_wallet := w; g_key := k; g_email := e; g_threshold := threshold |};;
      insert_guardians w None l
  end.

(** [threshold] is [None] when it is not an integer. *)
Definition setGuardians (w : Z) (l : list (string * option string)) (threshold : option Z)
  : M (list string * Z) :=
  _assertWalletExists w;;
  if bool_decide (l = []) then throw ValidationError
  else if existsb (λ g, is_empty g.1) l then throw ValidationError
  else match threshold with
       | None => throw ValidationError
       | Some t =>
           if (t <? 1) || (t >? Z.of_nat (length l)) then throw ValidationError
           else
             modify_st (λ s, set_guardian_rows s (filter (λ g, g_wallet g ≠ w) (guardians s)));;
             insert_guardians w (Some t) l;;
             mret (l.*1, t)
       end.

(** The stored threshold, or the majority. *)
Definition _getThreshold (s : st) (w guardianCount : Z) : Z :=
  match find_first (λ g, bool_decide (g_wallet g = w) && bool_decide (g_threshold g ≠ None)) (guardians s) with
  | Some {| g_threshold := Some t |} => if t =? 0 then (guardianCount + 1) / 2 else t
  | _ => (guardianCount + 1) / 2
  end.

Definition cancel_pending (w : Z) (r : request) : request :=
  if bool_decide (r_wallet r = w ∧ r_status r = Pending)
  then mk_request (r_wallet r) (r_newPublicKey r) (r_threshold r) (r_expiresAt r) Cancelled (r_executedAt r)
  else r.

(** The answer is the id of the new request. *)
Definition initiateRecovery (now : Z) (w : Z) (newPublicKey : string) : M Z :=
  _assertWalletExists w;;
  if is_empty newPublicKey then throw ValidationError
  else
    gs ← getGuardians w;
    if bool_decide (gs = []) then throw ValidationError
    else
      modify_st (λ s, set_requests s (cancel_pending w <$> requests s));;
      s ← get_st;
      let r := mk_request w newPublicKey (_getThreshold s w (Z.of_nat (length gs)))
                 (now + EXPIRATION_MS) Pending None in
      put_st (mk_st (wallets s) (guardians s) (<[next_id s := r]> (requests s)) (approvals s)
                (next_id s + 1) (added s) (removed s));;
      mret (next_id s).

Definition find_request (w i : Z) : M request := λ s,
  match requests s !! i with
  | Some r => if bool_decide (r_wallet r = w) then (Ret r, s) else (Throw NotFoundError, s)
  | None => (Throw NotFoundError, s)
  end.

Definition with_status (r : request) (x : status) : request :=
  mk_request (r_wallet r) (r_newPublicKey r) (r_threshold r) (r_expiresAt r) x (r_executedAt r).

Definition _expireIfNeeded (now i : Z) (r : request) : M request :=
  if bool_decide (r_status r ≠ Pending) then mret r
  else if now <? r_expiresAt r then mret r
  else
    modify_st (λ s, set_requests s (<[i := with_status r Expired]> (requests s)));;
    mret (with_status r Expired).

Definition _getApprovalCount (s : st) (i : Z) : Z :=
  Z.of_nat (length (filter (λ a, a.1 = i) (approvals s))).

Definition log_added (i : Z) (s : st) : st :=
  mk_st (wallets s) (guardians s) (requests s) (approvals s) (next_id s) (added s ++ [i]) (removed s).
Definition log_removed (i : Z) (s : st) : st :=
  mk_st (wallets s) (guardians s) (requests s) (approvals s) (next_id s) (added s) (removed s ++ [i]).

(** [add] and [rem] are the outcomes of [addSigner] and [removeSigner]. *)
Definition _executeRecovery (now i : Z) (r : request) (add rem : outcome jserror unit) : M unit :=
  s ← get_st;
  match wallets s !! r_wallet r with
  | Some {| w_publicKey := pk; w_encryptedSecret := Some _ |} =>
      lift_out add;;
      modify_st (log_added i);;
      if negb (is_empty pk) && negb (bool_decide (pk = r_newPublicKey r)) then
        lift_out rem;;
        modify_st (log_removed i)
      else mret ()
  | _ => mret ()
  end;;
  modify_st (λ s, set_requests s (<[i := mk_request (r_wallet r) (r_newPublicKey r) (r_threshold r)
                                          (r_expiresAt r) Executed (Some now)]> (requests s))).

(** The INSERT of an approval. *)
Definition insert_approval (i : Z) (k : string) : M unit := λ s,
  if bool_decide ((i, k) ∈ approvals s) then (Throw ValidationError, s)
  else (Ret (), mk_st (wallets s) (guardians s) (requests s) (approvals s ++ [(i, k)]) (next_id s) (added s) (removed s)).

(** The answer: the status and the number of approvals. *)
Definition approveRecovery (now w i : Z) (guardianPublicKey : string) (add rem : outcome jserror unit)
  : M (status * Z) :=
  r0 ← find_request w i;
  r ← _expireIfNeeded now i r0;
  if bool_decide (r_status r ≠ Pending) then throw ValidationError
  else
    gs ← getGuardians w;
    if negb (bool_decide (guardianPublicKey ∈ gs)) then throw ValidationError
    else
      insert_approval i guardianPublicKey;;
      s ← get_st;
      let approvalCount := _getApprovalCount s i in
      if r_threshold r <=? approvalCount then
        _executeRecovery now i r add rem;;
        mret (Executed, approvalCount)
      else mret (r_status r, approvalCount).

Definition getRecoveryRequest (now w i : Z) : M (request * Z) :=
  r0 ← find_request w i;
  r ← _expireIfNeeded now i r0;
  s ← get_st;
  mret (r, _getApprovalCount s i).

(** ** Steps and invariant *)

Inductive step (s : st) : st → Prop :=
| step_set w l t : step s (setGuardians w l t s).2
| step_initiate now w k : step s (initiateRecovery now w k s).2
| step_approve now w i k add rem : step s (approveRecovery now w i k add rem s).2
| step_get now w i : step s (getRecoveryRequest now w i s).2.

(** The approvals of one request. *)
Definition approvers (s : st) (i : Z) : list string := snd <$> filter (λ a, a.1 = i) (approvals s).

Record inv (s : st) : Prop := {
  inv_approvals : NoDup (approvals s);
  inv_ids : ∀ i r, requests s !! i = Some r → i < next_id s;
  inv_added : ∀ i, i ∈ added s → ∃ r, requests s !! i = Some r ∧
    r_threshold r <= Z.of_nat (length (approvers s i));
  inv_removed : ∀ i, i ∈ removed s → i ∈ added s ∧
    ∃ r, requests s !! i = Some r ∧ r_status r = Executed;
  inv_once : NoDup (removed s);
}.

Lemma approvers_count s i : Z.of_nat (length (approvers s i)) = _getApprovalCount s i.
Proof. unfold approvers, _getApprovalCount. by rewrite length_fmap. Qed.

Lemma approvers_NoDup s i : NoDup (approvals s) → NoDup (approvers s i).
Proof.
  intros Hnd. unfold approvers. apply NoDup_fmap_2_strong; [|by apply NoDup_filter].
  intros [a k] [b l] [Ha _]%list_elem_of_filter [Hb _]%list_elem_of_filter. cbn in *. intros ->. congruence.
Qed.

(** Only the guardians change. *)
Lemma inv_guardians s l : inv s → inv (set_guardian_rows s l).
Proof. intros [H1 H2 H3 H4 H5]. by split. Qed.

Lemma insert_guardians_inv w t l s : inv s → inv (insert_guardians w t l s).2.
Proof.
  revert t s. induction l as [|[k e] l IH]; intros t s Hi; [done|].
  cbn [insert_guardians]. unfold mbind, stx_bind, insert_guardian. cbn.
  case_bool_decide; [done|]. apply IH. by apply inv_guardians.
Qed.

Lemma setGuardians_inv w l t s : inv s → inv (setGuardians w l t s).2.
Proof.
  intros Hi. unfold setGuardians, _assertWalletExists, mbind, stx_bind.
  destruct (wallets s !! w); [|done]. case_bool_decide; [done|].
  destruct (existsb _ l); [done|]. destruct t as [t|]; [|done].
  destruct (_ || _); [done|]. cbn.
  pose proof (insert_guardians_inv w (Some t) l (set_guardian_rows s
    (filter (λ g, g_wallet g ≠ w) (guardians s))) (inv_guardians _ _ Hi)) as Hg.
  destruct (insert_guardians _ _ _ _) as [[]]; exact Hg.
Qed.

(** A pending request keeps its threshold; nothing else changes. *)
Lemma inv_set_request s i r r' :
  inv s → requests s !! i = Some r → r_status r = Pending → r_threshold r' = r_threshold r →
  inv (set_requests s (<[i := r']> (requests s))).
Proof.
  intros [H1 H2 H3 H4 H5] Hr Hp Ht. split; cbn; [done| | | |done].
  - intros j x [[<- _]|[_ Hx]]%lookup_insert_Some; by eapply H2.
  - intros j Hj. destruct (H3 j Hj) as (x & Hx & Hs). cbn. destruct (decide (i = j)) as [<-|].
    + exists r'. rewrite lookup_insert_eq. split; [done|]. replace r with x in Ht by congruence.
      rewrite Ht. exact Hs.
    + exists x. by rewrite lookup_insert_ne.
  - intros j Hj. destruct (H4 j Hj) as (Ha & x & Hx & Hs). split; [done|]. exists x. split; [|done].
    cbn. rewrite lookup_insert_ne; [done|]. intros ->. congruence.
Qed.

Lemma cancel_pending_threshold w r : r_threshold (cancel_pending w r) = r_threshold r.
Proof. unfold cancel_pending. by case_bool_decide. Qed.

Lemma cancel_pending_done w r : r_status r ≠ Pending → cancel_pending w r = r.
Proof. intros Hn. unfold cancel_pending. rewrite bool_decide_false; [done|]. by intros [_ ?]. Qed.

Lemma initiate_inv now w k s : inv s → inv (initiateRecovery now w k s).2.
Proof.
  intros Hi. unfold initiateRecovery, getGuardians, _assertWalletExists, mbind, stx_bind.
  destruct (wallets s !! w) eqn:Hw; [|done]. destruct (is_empty k); [done|]. rewrite Hw. cbn.
  case_bool_decide; [done|]. cbn. destruct Hi as [H1 H2 H3 H4 H5]. split; cbn; [done| | | |done].
  - intros i r [[<- _]|[_ Hr]]%lookup_insert_Some; [lia|].
    rewrite lookup_fmap in Hr. destruct (requests s !! i) as [r0|] eqn:Hr0; [|done].
    specialize (H2 i r0 Hr0). lia.
  - intros i Hin. destruct (H3 i Hin) as (r & Hr & Ht). pose proof (H2 i r Hr). eexists.
    rewrite lookup_insert_ne by lia. rewrite lookup_fmap, Hr. split; [done|].
    rewrite cancel_pending_threshold. exact Ht.
  - intros i Hin. destruct (H4 i Hin) as (Ha & r & Hr & Hs). split; [done|]. pose proof (H2 i r Hr).
    exists r. rewrite lookup_insert_ne by lia. rewrite lookup_fmap, Hr. cbn.
    rewrite cancel_pending_done; [done|congruence].
Qed.

(** [_expireIfNeeded] on a stored request. *)
Lemma expire_inv now i r s :
  inv s → requests s !! i = Some r →
  let '(x, s') := _expireIfNeeded now i r s in
  inv s' ∧ ∃ r', x = Ret r' ∧ (r_status r' = Pending → r' = r ∧ s' = s ∧ now < r_expiresAt r).
Proof.
  intros Hi Hr. unfold _expireIfNeeded. case_bool_decide as Hp.
  - split; [done|]. by exists r.
  - destruct (Z.ltb_spec now (r_expiresAt r)).
    + split; [done|]. by exists r.
    + cbn. split; [|by eexists]. eapply inv_set_request; [done..| |done]. by destruct (r_status r).
Qed.

(** The state after a new approval, and after the new signer was added. *)
Definition approved (s : st) (i : Z) (k : string) : st :=
  mk_st (wallets s) (guardians s) (requests s) (approvals s ++ [(i, k)]) (next_id s) (added s) (removed s).

Lemma approved_inv s i k : inv s → (i, k) ∉ approvals s → inv (approved s i k).
Proof.
  intros [H1 H2 H3 H4 H5] Hn. split; cbn; [|done| |done|done].
  - apply NoDup_app. split_and!; [done| |apply NoDup_singleton].
    intros y Hy Hy'. apply list_elem_of_singleton in Hy'. congruence.
  - intros j Hj. destruct (H3 j Hj) as (y & Hy & Ht). exists y. split; [done|].
    etransitivity; [exact Ht|]. unfold approvers. cbn. rewrite filter_app, fmap_app, length_app. lia.
Qed.

Lemma log_added_inv s i r :
  inv s → requests s !! i = Some r → r_threshold r <= Z.of_nat (length (approvers s i)) →
  inv (log_added i s).
Proof.
  intros [H1 H2 H3 H4 H5] Hr Ht. split; cbn; [done|done| | |done].
  - intros j [Hj|Hj]%elem_of_app; [by apply H3|]. apply list_elem_of_singleton in Hj as ->. by exists r.
  - intros j Hj. destruct (H4 j Hj). split; [|done]. apply elem_of_app. by left.
Qed.

Lemma log_removed_inv s i r :
  inv s → requests s !! i = Some r → r_status r = Executed → i ∈ added s → i ∉ removed s →
  inv (log_removed i s).
Proof.
  intros [H1 H2 H3 H4 H5] Hr Hs Ha Hn. split; cbn; [done|done|done| |].
  - intros j [Hj|Hj]%elem_of_app; [by apply H4|]. apply list_elem_of_singleton in Hj as ->.
    split; [done|]. by exists r.
  - apply NoDup_app. split_and!; [done| |apply NoDup_singleton].
    intros y Hy Hy'. apply list_elem_of_singleton in Hy' as ->. done.
Qed.

Lemma execute_inv now i r add rem s :
  inv s → requests s !! i = Some r → r_status r = Pending →
  r_threshold r <= Z.of_nat (length (approvers s i)) →
  inv (_executeRecovery now i r add rem s).2.
Proof.
  intros Hi Hr Hp Ht. unfold _executeRecovery, mbind, stx_bind. cbn.
  set (r' := mk_request _ _ _ _ Executed _).
  assert (Hdone : ∀ s', inv s' → requests s' = requests s →
    inv (set_requests s' (<[i := r']> (requests s')))).
  { intros s' Hi' He. eapply inv_set_request; [done| |done|done]. by rewrite He. }
  destruct (wallets s !! r_wallet r) as [[pk [sec|]]|]; [|by apply Hdone|by apply Hdone].
  destruct add as [[]|e]; [|done]. cbn. pose proof (log_added_inv s i r Hi Hr Ht) as Ha.
  destruct (negb (is_empty pk) && _); [|by apply (Hdone _ Ha)].
  destruct rem as [[]|e]; [|done]. cbn.
  change (inv (log_removed i (set_requests (log_added i s) (<[i := r']> (requests s))))).
  eapply (log_removed_inv _ _ r').
  - by apply (Hdone _ Ha).
  - cbn. by rewrite lookup_insert_eq.
  - done.
  - apply elem_of_app. right. by apply list_elem_of_singleton.
  - cbn. intros Hin. destruct (inv_removed s Hi i Hin) as (_ & y & Hy & Hs). congruence.
Qed.

(** What an approval that is not rejected has passed. *)
Lemma approve_cases now w i k add rem s :
  inv s →
  (∃ e s', (approveRecovery now w i k add rem s = (Throw e, s')) ∧ inv s' ∧
     added s' = added s ∧ removed s' = removed s) ∨
  ∃ r, requests s !! i = Some r ∧ r_wallet r = w ∧ r_status r = Pending ∧ now < r_expiresAt r ∧
    k ∈ guardian_keys s w ∧ ((i, k) ∉ approvals s) ∧
    let n := _getApprovalCount (approved s i k) i in
    approveRecovery now w i k add rem s =
      if r_threshold r <=? n
      then (_executeRecovery now i r add rem;; mret (Executed, n)) (approved s i k)
      else (Ret (Pending, n), approved s i k).
Proof.
  intros Hi. unfold approveRecovery, find_request, mbind, stx_bind.
  destruct (requests s !! i) as [r0|] eqn:Hr; [|by left; eexists _, _].
  case_bool_decide as Hw; [|by left; eexists _, _].
  pose proof (expire_inv now i r0 s Hi Hr) as He.
  assert (Hlog : ∀ x s1, _expireIfNeeded now i r0 s = (x, s1) → added s1 = added s ∧ removed s1 = removed s).
  { intros x s1. unfold _expireIfNeeded. case_bool_decide; [by intros [= _ <-]|].
    destruct (now <? _); by intros [= _ <-]. }
  destruct (_expireIfNeeded now i r0 s) as [x s1]. destruct (Hlog _ _ eq_refl) as [Hl1 Hl2].
  destruct He as (Hi1 & r & -> & Hpend).
  case_bool_decide as Hp; [left; by eexists _, _|].
  assert (Hpe : r_status r = Pending) by by destruct (r_status r).
  destruct (Hpend Hpe) as (-> & -> & Hnow).
  unfold getGuardians, _assertWalletExists, mbind, stx_bind.
  destruct (wallets s !! w); [|by left; eexists _, _]. cbn.
  case_bool_decide as Hg; [|by left; eexists _, _]. cbn. unfold insert_approval.
  case_bool_decide as Ha; [by left; eexists _, _|]. right. exists r0.
  split_and!; [done..|]. cbn. fold (approved s i k). rewrite Hpe. by destruct (_ <=? _).
Qed.

Lemma approve_inv now w i k add rem s : inv s → inv (approveRecovery now w i k add rem s).2.
Proof.
  intros Hi. destruct (approve_cases now w i k add rem s Hi)
    as [(e & s' & -> & Hs & _)|(r & Hr & Hw & Hp & Hnow & Hg & Hn & ->)]; [done|].
  pose proof (approved_inv s i k Hi Hn) as Hi2.
  destruct (Z.leb_spec (r_threshold r) (_getApprovalCount (approved s i k) i)) as [Ht|Ht]; [|done].
  rewrite <- approvers_count in Ht.
  pose proof (execute_inv now i r add rem (approved s i k) Hi2 Hr Hp Ht) as He.
  unfold mbind, stx_bind. destruct (_executeRecovery _ _ _ _ _ _) as [[]]; exact He.
Qed.

Lemma get_inv now w i s : inv s → inv (getRecoveryRequest now w i s).2.
Proof.
  intros Hi. unfold getRecoveryRequest, find_request, mbind, stx_bind.
  destruct (requests s !! i) as [r0|] eqn:Hr; [|done]. case_bool_decide as Hw; [|done].
  pose proof (expire_inv now i r0 s Hi Hr) as He.
  destruct (_expireIfNeeded now i r0 s) as [x s1]. by destruct He as (Hi1 & r & -> & _).
Qed.

Lemma recovery_step_inv : preserves step inv.
Proof.
  intros s s' Hi []; [by apply setGuardians_inv|by apply initiate_inv|by apply approve_inv|by apply get_inv].
Qed.

(** ** Properties *)

(** The tables with wallets [ws] and no guardian yet. *)
Definition start (ws : gmap Z wallet) : st := mk_st ws [] ∅ [] 1 [] [].

Lemma start_inv ws : inv (start ws).
Proof.
  split; cbn; [constructor| | | |constructor].
  - intros i r. by rewrite lookup_empty.
  - intros i Hi. by apply not_elem_of_nil in Hi.
  - intros i Hi. by apply not_elem_of_nil in Hi.
Qed.

(** In every reachable state, a request whose new key was added as a signer has at least as
    many approvals of different keys as the threshold it was created with; the old key is removed
    at most once per request, after the new one was added, and the request is then executed. *)
Theorem recovery_needs_threshold ws s :
  rtc step (start ws) s →
  (∀ i, i ∈ added s → ∃ r, requests s !! i = Some r ∧ NoDup (approvers s i) ∧
     r_threshold r <= Z.of_nat (length (approvers s i))) ∧
  NoDup (removed s) ∧
  (∀ i, i ∈ removed s → i ∈ added s ∧ ∃ r, requests s !! i = Some r ∧ r_status r = Executed).
Proof.
  intros Hr. pose proof (preserves_rtc _ _ _ _ recovery_step_inv Hr (start_inv ws)) as Hi.
  split_and!; [|by apply inv_once|by apply inv_removed].
  intros i Ha. destruct (inv_added s Hi i Ha) as (r & Hl & Ht). exists r. split_and!; [done| |done].
  apply approvers_NoDup, Hi.
Qed.

Definition wallets0 : gmap Z wallet := {[ 1 := {| w_publicKey := "OLD"; w_encryptedSecret := Some "sec" |} ]}.
Definition s1 : st := (setGuardians 1 [("A", None); ("B", None)] (Some 2) (start wallets0)).2.
Definition s2 : st := (initiateRecovery 0 1 "NEW" s1).2.
Definition s3 : st := (approveRecovery 5 1 1 "A" (Ret ()) (Ret ()) s2).2.
Definition s4 : st := (approveRecovery 6 1 1 "B" (Ret ()) (Ret ()) s3).2.

Lemma recovery_needs_threshold_witness : added s4 = [1] ∧ removed s4 = [1] ∧ NoDup (removed s4).
Proof.
  split; [vm_compute; reflexivity|]. split; [vm_compute; reflexivity|].
  refine (proj1 (proj2 (recovery_needs_threshold wallets0 s4 _))).
  eapply rtc_l; [exact (step_set (start wallets0) 1 [("A", None); ("B", None)] (Some 2))|].
  eapply rtc_l; [exact (step_initiate s1 0 1 "NEW")|].
  eapply rtc_l; [exact (step_approve s2 5 1 1 "A" (Ret ()) (Ret ()))|].
  eapply rtc_l; [exact (step_approve s3 6 1 1 "B" (Ret ()) (Ret ()))|].
  apply rtc_refl.
Defined.

(** Operations on the network come from [_executeRecovery] only. *)
Lemma execute_added now i r add rem s :
  added (_executeRecovery now i r add rem s).2 = added s ∨
  added (_executeRecovery now i r add rem s).2 = added s ++ [i].
Proof.
  unfold _executeRecovery, mbind, stx_bind. cbn.
  destruct (wallets s !! _) as [[pk [sec|]]|]; [|by left|by left].
  destruct add; [|by left]. right. cbn. destruct (negb _ && _); [|done]. by destruct rem.
Qed.

(** An approval makes the network add a signer only for a pending request of that wallet
    before its expiry, by a current guardian that had not approved it, when it brings the number
    of approvals to the threshold; an approval at or after the expiry is rejected and leaves the
    request expired, everything else unchanged. *)
Theorem approve_gate now w i k add rem s :
  inv s →
  (added (approveRecovery now w i k add rem s).2 ≠ added s →
     ∃ r, requests s !! i = Some r ∧ r_wallet r = w ∧ r_status r = Pending ∧ now < r_expiresAt r ∧
       k ∈ guardian_keys s w ∧ ((i, k) ∉ approvals s) ∧ r_threshold r <= _getApprovalCount s i + 1) ∧
  (∀ r, requests s !! i = Some r → r_wallet r = w → r_status r = Pending → r_expiresAt r <= now →
     approveRecovery now w i k add rem s =
       (Throw ValidationError, set_requests s (<[i := with_status r Expired]> (requests s)))).
Proof.
  intros Hi. split.
  - destruct (approve_cases now w i k add rem s Hi)
      as [(e & s' & -> & Hs & Ha & _)|(r & Hr & Hw & Hp & Hnow & Hg & Hn & ->)]; [done|].
    destruct (Z.leb_spec (r_threshold r) (_getApprovalCount (approved s i k) i)) as [Ht|Ht]; [|done].
    intros _. exists r. split_and!; try done. revert Ht. unfold _getApprovalCount. cbn.
    rewrite filter_app, length_app. cbn. case_decide; cbn; lia.
  - intros r Hr Hw Hp He. unfold approveRecovery, find_request, mbind, stx_bind. rewrite Hr.
    rewrite bool_decide_true by done. unfold _expireIfNeeded.
    rewrite (bool_decide_false (r_status r ≠ Pending)) by (intros Hx; by apply Hx).
    destruct (Z.ltb_spec now (r_expiresAt r)); [lia|]. reflexivity.
Qed.

Lemma approve_gate_witness : (approveRecovery EXPIRATION_MS 1 1 "B" (Ret ()) (Ret ()) s3).1 = Throw ValidationError.
Proof.
  rewrite (proj2 (approve_gate EXPIRATION_MS 1 1 "B" (Ret ()) (Ret ()) s3 (approve_inv 5 1 1 "A" (Ret ()) (Ret ()) s2
    (initiate_inv 0 1 "NEW" s1 (setGuardians_inv 1 _ (Some 2) _ (start_inv wallets0)))))
    (mk_request 1 "NEW" 2 EXPIRATION_MS Pending None)); [reflexivity|..]; vm_compute; first [reflexivity|discriminate].
Defined.

(** Once every guardian of a pending request has approved it and the swap did not go through,
    no further call executes it: whoever approves gets an error and no signer is touched. *)
Theorem failed_swap_is_stuck now w i k add rem s :
  inv s → (∀ g, g ∈ guardian_keys s w → (i, g) ∈ approvals s) →
  ∃ e s', approveRecovery now w i k add rem s = (Throw e, s') ∧
    added s' = added s ∧ removed s' = removed s.
Proof.
  intros Hi Hall. destruct (approve_cases now w i k add rem s Hi)
    as [(e & s' & He & Hs & Hl)|(r & Hr & Hw & Hp & Hnow & Hg & Hn & _)]; [by exists e, s'|].
  by destruct Hn; apply Hall.
Qed.

Definition s4' : st := (approveRecovery 6 1 1 "B" (Throw (EPlain "op_no_trust")) (Ret ()) s3).2.

Lemma failed_swap_is_stuck_witness :
  added s4' = [] ∧ ∃ e s', approveRecovery 7 1 1 "B" (Ret ()) (Ret ()) s4' = (Throw e, s') ∧
    added s' = added s4' ∧ removed s' = removed s4'.
Proof.
  split; [vm_compute; reflexivity|].
  refine (failed_swap_is_stuck 7 1 1 "B" (Ret ()) (Ret ()) s4' _ _).
  - exact (approve_inv 6 1 1 "B" (Throw (EPlain "op_no_trust")) (Ret ()) s3 (approve_inv 5 1 1 "A" (Ret ()) (Ret ()) s2
      (initiate_inv 0 1 "NEW" s1 (setGuardians_inv 1 _ (Some 2) _ (start_inv wallets0))))).
  - assert (Hk : guardian_keys s4' 1 = ["A"; "B"]) by (vm_compute; reflexivity).
    assert (Ha : approvals s4' = [(1, "A"); (1, "B")]) by (vm_compute; reflexivity).
    rewrite Hk, Ha. intros g Hg. set_solver.
Defined.

(** [setGuardians] is a delete followed by inserts: with a repeated key it fails half-way, the old
    guardians are gone and the threshold can exceed the number of guardians left. *)
Lemma setGuardians_not_atomic w k e1 e2 s x :
  wallets s !! w = Some x → is_empty k = false →
  setGuardians w [(k, e1); (k, e2)] (Some 2) s =
    (Throw EUnique, set_guardian_rows s (filter (λ g, g_wallet g ≠ w) (guardians s) ++
       [{| g_wallet := w; g_key := k; g_email := e1; g_threshold := Some 2 |}])).
Proof.
  intros Hw Hk. unfold setGuardians, _assertWalletExists, mbind, stx_bind. rewrite Hw.
  rewrite bool_decide_false by done. cbn. rewrite Hk. cbn.
  unfold insert_guardian, mbind, stx_bind. cbn.
  change (2 >? Z.of_nat 2) with false. cbv iota beta.
  rewrite bool_decide_false; [cbn|].
  - rewrite bool_decide_true; [done|]. unfold guardian_keys. cbn.
    rewrite filter_app, fmap_app. apply elem_of_app. right. cbn. rewrite decide_True by done. cbn.
    by apply list_elem_of_singleton.
  - unfold guardian_keys. cbn. intros (g & _ & Hg)%list_elem_of_fmap.
    apply list_elem_of_filter in Hg as [Hg1 Hg2]. by apply list_elem_of_filter in Hg2 as [? _].
Qed.

End SocialRecovery.
