(* ===== verification/JsDate.v ===== *)
(** * UTC dates of the language

    A time value is a number of milliseconds since the epoch.  The file holds
    the calendar of the language specification ([Day], [YearFromTime],
    [MakeDay], [Date.UTC], the UTC getters), with the round trip between days
    and calendar fields. *)

From Stdlib Require Import Ascii.
From S2P Require Import Prelude JsString.
Local Open Scope Z_scope.

Definition msPerDay : Z := 86400000.
Definition Day (t : Z) : Z := t / msPerDay.
Definition TimeWithinDay (t : Z) : Z := t mod msPerDay.

Definition DayFromYear (y : Z) : Z :=
  365 * (y - 1970) + (y - 1969) / 4 - (y - 1901) / 100 + (y - 1601) / 400.

(** 1 in a leap year. *)
Definition InLeapYear (y : Z) : Z :=
  if negb (y mod 4 =? 0) then 0
  else if negb (y mod 100 =? 0) then 1
  else if negb (y mod 400 =? 0) then 0 else 1.

(** The largest year that starts on or before day [d]. *)
Definition YearFromDay (d : Z) : Z :=
  let y := 1970 + 400 * d / 146097 in
  if d <? DayFromYear y then y - 1
  else if DayFromYear (y + 1) <=? d then y + 1 else y.

(** The day of the year on which month [m] (0 to 12) starts. *)
Definition MonthStart (leap m : Z) : Z :=
  if m =? 0 then 0 else if m =? 1 then 31 else
  leap + (if m =? 2 then 59 else if m =? 3 then 90 else if m =? 4 then 120 else
          if m =? 5 then 151 else if m =? 6 then 181 else if m =? 7 then 212 else
          if m =? 8 then 243 else if m =? 9 then 273 else if m =? 10 then 304 else
          if m =? 11 then 334 else 365).

Fixpoint month_search (leap doy : Z) (fuel : nat) (m : Z) : Z :=
  match fuel with
  | O => m
  | S fuel => if doy <? MonthStart leap (m + 1) then m else month_search leap doy fuel (m + 1)
  end.

Definition day_in_year (d : Z) : Z := d - DayFromYear (YearFromDay d).
Definition MonthFromDay (d : Z) : Z := month_search (InLeapYear (YearFromDay d)) (day_in_year d) 11 0.
Definition DateFromDay (d : Z) : Z :=
  day_in_year d - MonthStart (InLeapYear (YearFromDay d)) (MonthFromDay d) + 1.

Definition getUTCFullYear (t : Z) : Z := YearFromDay (Day t).
Definition getUTCMonth (t : Z) : Z := MonthFromDay (Day t).
Definition getUTCDate (t : Z) : Z := DateFromDay (Day t).
Definition getUTCHours (t : Z) : Z := (t / 3600000) mod 24.
Definition getUTCMinutes (t : Z) : Z := (t / 60000) mod 60.
Definition getUTCSeconds (t : Z) : Z := (t / 1000) mod 60.
Definition getUTCMilliseconds (t : Z) : Z := t mod 1000.

Definition MakeDay (y m dt : Z) : Z :=
  let ym := y + m / 12 in
  DayFromYear ym + MonthStart (InLeapYear ym) (m mod 12) + dt - 1.
Definition MakeTime (h mi s ms : Z) : Z := h * 3600000 + mi * 60000 + s * 1000 + ms.

(** Time values reach 100,000,000 days on each side of the epoch. *)
Definition max_time : Z := 8640000000000000.
Definition TimeClip (t : Z) : option Z := if Z.abs t <=? max_time then Some t else None.

(** [Date.UTC] on integers: years 0 to 99 are of the twentieth century. *)
Definition Date_UTC (y m dt h mi s ms : Z) : option Z :=
  let y := if (0 <=? y) && (y <=? 99) then 1900 + y else y in
  TimeClip (MakeDay y m dt * msPerDay + MakeTime h mi s ms).

Definition days_in_month (y m : Z) : Z :=
  MonthStart (InLeapYear y) (m + 1) - MonthStart (InLeapYear y) m.

(** [toISOString().split('T')[0]] for the years 0 to 9999. *)
Definition iso_date (t : Z) : string :=
  (pad_start 4 "0"%char (Z_to_string (getUTCFullYear t)) +:+ "-" +:+
   pad_start 2 "0"%char (Z_to_string (getUTCMonth t + 1)) +:+ "-" +:+
   pad_start 2 "0"%char (Z_to_string (getUTCDate t)))%string.

(** ** Lemmas *)

Lemma InLeapYear_cases y : InLeapYear y = 0 ∨ InLeapYear y = 1.
Proof. unfold InLeapYear. repeat case_match; auto. Qed.

Lemma DayFromYear_succ y : DayFromYear (y + 1) = DayFromYear y + 365 + InLeapYear y.
Proof.
  unfold DayFromYear, InLeapYear.
  destruct (Z.eqb_spec (y mod 4) 0); cbn [negb];
    [destruct (Z.eqb_spec (y mod 100) 0); cbn [negb];
      [destruct (Z.eqb_spec (y mod 400) 0); cbn [negb]|]|];
    Z.div_mod_to_equations; lia.
Qed.

Lemma DayFromYear_mono y n : (0 <= n) → DayFromYear y <= DayFromYear (y + n).
Proof.
  intros Hn. revert n Hn. apply natlike_ind; [by rewrite Z.add_0_r|].
  intros n Hn IH. rewrite <- Z.add_1_r, Z.add_assoc, DayFromYear_succ.
  destruct (InLeapYear_cases (y + n)); lia.
Qed.

Lemma YearFromDay_spec d : DayFromYear (YearFromDay d) <= d < DayFromYear (YearFromDay d + 1).
Proof.
  unfold YearFromDay. set (y := 1970 + 400 * d / 146097).
  assert (DayFromYear (y - 1) <= d < DayFromYear (y + 1 + 1)).
  { unfold y, DayFromYear. Z.div_mod_to_equations; lia. }
  destruct (Z.ltb_spec d (DayFromYear y)); [by replace (y - 1 + 1) with y by lia; lia|].
  destruct (Z.leb_spec (DayFromYear (y + 1)) d); lia.
Qed.

Lemma YearFromDay_unique d y : DayFromYear y <= d < DayFromYear (y + 1) → YearFromDay d = y.
Proof.
  intros Hy. pose proof (YearFromDay_spec d) as Hs. set (x := YearFromDay d) in *.
  destruct (Z.lt_trichotomy x y) as [Hl|[Hl|Hl]]; [|done|].
  - pose proof (DayFromYear_mono (x + 1) (y - (x + 1)) ltac:(lia)) as Hm.
    replace (x + 1 + (y - (x + 1))) with y in Hm by lia. lia.
  - pose proof (DayFromYear_mono (y + 1) (x - (y + 1)) ltac:(lia)) as Hm.
    replace (y + 1 + (x - (y + 1))) with x in Hm by lia. lia.
Qed.

Lemma day_in_year_range d : 0 <= day_in_year d < 365 + InLeapYear (YearFromDay d).
Proof. unfold day_in_year. pose proof (YearFromDay_spec d) as Hs. rewrite DayFromYear_succ in Hs. lia. Qed.

(** Case analysis on a month. *)
Ltac month_cases m :=
  let H := fresh in
  assert (H : m = 0 ∨ m = 1 ∨ m = 2 ∨ m = 3 ∨ m = 4 ∨ m = 5 ∨ m = 6 ∨ m = 7 ∨ m = 8 ∨ m = 9 ∨ m = 10 ∨ m = 11)
    by lia;
  destruct_or! H; subst m.

(** Evaluates the month table on literals. *)
Ltac month_eval :=
  repeat match goal with
  | |- context [MonthStart ?a ?b] =>
      let v := eval vm_compute in (MonthStart a b) in change (MonthStart a b) with v
  | H : context [MonthStart ?a ?b] |- _ =>
      let v := eval vm_compute in (MonthStart a b) in change (MonthStart a b) with v in H
  end.

Lemma days_in_month_range y m : 0 <= m <= 11 → 28 <= days_in_month y m <= 31.
Proof. intros Hm. unfold days_in_month. destruct (InLeapYear_cases y) as [-> | ->]; month_cases m; month_eval; lia. Qed.

Lemma month_search_spec leap doy fuel m :
  0 <= m → m + Z.of_nat fuel = 11 → MonthStart leap m <= doy < MonthStart leap 12 →
  0 <= month_search leap doy fuel m <= 11 ∧
  MonthStart leap (month_search leap doy fuel m) <= doy < MonthStart leap (month_search leap doy fuel m + 1).
Proof.
  revert m. induction fuel as [|fuel IH]; intros m Hm Hf Hd; cbn [month_search].
  - assert (m = 11) as -> by lia. done.
  - destruct (Z.ltb_spec doy (MonthStart leap (m + 1))); [lia|]. apply IH; lia.
Qed.

Lemma MonthFromDay_spec d :
  0 <= MonthFromDay d <= 11 ∧
  MonthStart (InLeapYear (YearFromDay d)) (MonthFromDay d) <= day_in_year d <
    MonthStart (InLeapYear (YearFromDay d)) (MonthFromDay d + 1).
Proof.
  pose proof (day_in_year_range d). apply month_search_spec; [done|done|].
  change (MonthStart ?l 0) with 0. change (MonthStart ?l 12) with (l + 365). lia.
Qed.

Lemma DateFromDay_range d : 1 <= DateFromDay d <= days_in_month (YearFromDay d) (MonthFromDay d).
Proof. unfold DateFromDay, days_in_month. pose proof (MonthFromDay_spec d). lia. Qed.

Lemma MonthStart_mono y m n :
  0 <= m → m <= n <= 12 → MonthStart (InLeapYear y) m <= MonthStart (InLeapYear y) n.
Proof.
  intros Hm Hn. replace n with (m + Z.of_nat (Z.to_nat (n - m))) by lia.
  assert (Hk : m + Z.of_nat (Z.to_nat (n - m)) <= 12) by lia. revert Hk.
  induction (Z.to_nat (n - m)) as [|k IH]; intros Hk; [by rewrite Z.add_0_r|].
  pose proof (days_in_month_range y (m + Z.of_nat k) ltac:(lia)) as Hd. unfold days_in_month in Hd.
  replace (m + Z.of_nat (S k)) with (m + Z.of_nat k + 1) by lia. specialize (IH ltac:(lia)). lia.
Qed.

Lemma month_unique y doy m k :
  0 <= m <= 11 → 0 <= k <= 11 →
  MonthStart (InLeapYear y) m <= doy < MonthStart (InLeapYear y) (m + 1) →
  MonthStart (InLeapYear y) k <= doy < MonthStart (InLeapYear y) (k + 1) → k = m.
Proof.
  intros Hm Hk H1 H2. destruct (Z.lt_trichotomy k m) as [Hl|[Hl|Hl]]; [|done|].
  - pose proof (MonthStart_mono y (k + 1) m). lia.
  - pose proof (MonthStart_mono y (m + 1) k). lia.
Qed.

(** Fields to day to fields. *)
Lemma MakeDay_fields y m dt :
  0 <= m <= 11 → 1 <= dt <= days_in_month y m →
  YearFromDay (MakeDay y m dt) = y ∧ MonthFromDay (MakeDay y m dt) = m ∧ DateFromDay (MakeDay y m dt) = dt.
Proof.
  intros Hm Hdt. unfold MakeDay. rewrite Z.div_small, Z.mod_small, Z.add_0_r by lia.
  set (d := DayFromYear y + _ + dt - 1). unfold days_in_month in Hdt.
  assert (Hy : YearFromDay d = y).
  { apply YearFromDay_unique. rewrite DayFromYear_succ. unfold d.
    pose proof (MonthStart_mono y 0 m ltac:(lia) ltac:(lia)).
    pose proof (MonthStart_mono y (m + 1) 12 ltac:(lia) ltac:(lia)).
    change (MonthStart ?l 0) with 0 in *. change (MonthStart ?l 12) with (l + 365) in *. lia. }
  pose proof (MonthFromDay_spec d) as Hs. unfold DateFromDay, day_in_year in *. rewrite Hy in *.
  assert (Hmm : MonthFromDay d = m).
  { destruct Hs as [Hk Hs]. eapply (month_unique y (d - DayFromYear y)); [done|done|unfold d; lia|exact Hs]. }
  split_and!; [done|done|]. rewrite Hmm. unfold d. lia.
Qed.

(** Day to fields to day. *)
Lemma MakeDay_of_day d k :
  MakeDay (YearFromDay d) (MonthFromDay d) (DateFromDay d + k) = d + k.
Proof.
  pose proof (MonthFromDay_spec d). unfold MakeDay, DateFromDay, day_in_year.
  rewrite Z.div_small, Z.mod_small, Z.add_0_r by lia. lia.
Qed.

(** The day before the first of the next month is the last of the month. *)
Lemma MakeDay_last y m : 0 <= m <= 11 → MakeDay y (m + 1) 0 = MakeDay y m (days_in_month y m).
Proof.
  intros Hm. unfold MakeDay, days_in_month. rewrite (Z.div_small m), (Z.mod_small m), Z.add_0_r by lia.
  destruct (decide (m = 11)) as [->|].
  - change ((11 + 1) / 12) with 1. change ((11 + 1) mod 12) with 0. rewrite DayFromYear_succ.
    change (11 + 1) with 12. change (MonthStart ?l 0) with 0. change (MonthStart ?l 12) with (l + 365).
    rewrite (Z.add_0_r y). lia.
  - rewrite Z.div_small, Z.mod_small, Z.add_0_r by lia. lia.
Qed.

Lemma MakeTime_fields t :
  MakeTime (getUTCHours t) (getUTCMinutes t) (getUTCSeconds t) (getUTCMilliseconds t) = TimeWithinDay t.
Proof.
  unfold MakeTime, getUTCHours, getUTCMinutes, getUTCSeconds, getUTCMilliseconds, TimeWithinDay, msPerDay.
  Z.div_mod_to_equations; lia.
Qed.

Lemma TimeWithinDay_range t : 0 <= TimeWithinDay t < msPerDay.
Proof. apply Z.mod_pos_bound. done. Qed.

Lemma Day_split t : t = Day t * msPerDay + TimeWithinDay t.
Proof. unfold Day, TimeWithinDay, msPerDay. Z.div_mod_to_equations; lia. Qed.

Lemma Day_of d w : 0 <= w < msPerDay → Day (d * msPerDay + w) = d ∧ TimeWithinDay (d * msPerDay + w) = w.
Proof. unfold Day, TimeWithinDay, msPerDay. intros. split; Z.div_mod_to_equations; lia. Qed.

Lemma getUTCFullYear_epoch t : 0 <= t → 1970 <= getUTCFullYear t.
Proof.
  intros Ht. unfold getUTCFullYear. assert (Hd : 0 <= Day t) by (by apply Z.div_pos).
  pose proof (YearFromDay_spec (Day t)) as Hs. set (y := YearFromDay (Day t)) in *.
  destruct (Z.le_gt_cases 1970 y); [done|].
  pose proof (DayFromYear_mono (y + 1) (1970 - (y + 1)) ltac:(lia)) as Hm.
  replace (y + 1 + (1970 - (y + 1))) with 1970 in Hm by lia. change (DayFromYear 1970) with 0 in Hm. lia.
Qed.

Example date_fields : (getUTCFullYear 1709208000123, getUTCMonth 1709208000123, getUTCDate 1709208000123) = (2024, 1, 29).
Proof. reflexivity. Qed.
Example date_utc : Date_UTC 2024 1 29 12 0 0 123 = Some 1709208000123.
Proof. reflexivity. Qed.
Example date_iso : iso_date 1709208000123 = "2024-02-29".
Proof. reflexivity. Qed.
