(* ===== verification/Scheduler.v ===== *)
(** * Recurring donations ([src/src/services/RecurringDonationScheduler.js])

    The tick, the retry loop, one execution, and the requests of
    [routes/stream.js] and [routes/recurringDonation.js] that cancel or pause
    a schedule, also while its payment is in flight.  Answers of the database,
    of the network and of the notifier are fields of an environment, so that
    every combination of failures is covered.  A payment is logged when the
    network is asked: a submission that ends in an error may have been carried
    out.  The executions of one tick, which the code starts together, run here
    one after the other: they touch different schedules. *)

From S2P Require Import Prelude JsString JsNumber JsDate Errors Money LeaderElection.
Local Open Scope Z_scope.

Module Scheduler.

(** A row of [recurring_donations]. *)
Record row := mk_row {
  donorId : Z;
  recipientId : Z;
  amount : num;
  frequency : string;
  nextExecutionDate : Z;
  status : string;
  executionCount : option Z;
  maxExecutions : option Z;
  customIntervalDays : option Z;
  webhookUrl : option string;
  failureCount : option Z;
  lastExecutionDate : option Z;
  lastFailureReason : option jserror;
  cancelledAt : option Z;
  pausedAt : option Z;
}.

(** A row of [transactions]. *)
Record tx := mk_tx { senderId : Z; receiverId : Z; t_amount : num; t_memo : string; t_timestamp : Z }.

(** [asked] records the payments the network was asked for, by schedule and
    cycle, and whether it answered; one that ended in an error may have been
    carried out all the same.  [executing] is [executingSchedules] of the
    scheduler that runs, [default_executing] that of the instance the module
    exports, which nothing starts. *)
Record st := mk_st {
  isRunning : bool;
  executing : gset Z;
  default_executing : gset Z;
  users : gmap Z string;
  rows : gmap Z row;
  txs : list tx;
  asked : list (Z * string * bool);
}.

Definition M := stx jserror st.

Definition set_executing (x : gset Z) (s : st) : st :=
  mk_st (isRunning s) x (default_executing s) (users s) (rows s) (txs s) (asked s).
Definition set_rows (x : gmap Z row) (s : st) : st :=
  mk_st (isRunning s) (executing s) (default_executing s) (users s) x (txs s) (asked s).
Definition add_tx (t : tx) (s : st) : st :=
  mk_st (isRunning s) (executing s) (default_executing s) (users s) (rows s) (txs s ++ [t]) (asked s).
Definition log_asked (p : Z * string * bool) (s : st) : st :=
  mk_st (isRunning s) (executing s) (default_executing s) (users s) (rows s) (txs s) (asked s ++ [p]).

(** UPDATE ... WHERE id = i *)
Definition update_row (i : Z) (f : row → row) (s : st) : st := set_rows (alter f i (rows s)) s.

(** A row of the due query. *)
Record schedule := mk_schedule {
  sid : Z;
  srow : row;
  donorPublicKey : string;
  recipientPublicKey : string;
}.

Definition SCHEDULE_STATUS_ACTIVE : string := "active".
Definition SCHEDULE_STATUS_COMPLETED : string := "completed".
Definition SCHEDULE_STATUS_CANCELLED : string := "cancelled".
Definition SCHEDULE_STATUS_PAUSED : string := "paused".

Definition maxRetries : nat := 3.

(** [parseInt] of the interval column: NULL is not a number. *)
Definition calculateNextExecutionDate (currentDate : Z) (freq : string) (customIntervalDays : option Z)
  : outcome jserror (option Z) :=
  let year := getUTCFullYear currentDate in
  let month := getUTCMonth currentDate in
  let day := getUTCDate currentDate in
  let mk y m d := Date_UTC y m d (getUTCHours currentDate) (getUTCMinutes currentDate)
                    (getUTCSeconds currentDate) (getUTCMilliseconds currentDate) in
  let f := to_lower freq in
  if bool_decide (f = "daily") then Ret (mk year month (day + 1))
  else if bool_decide (f = "weekly") then Ret (mk year month (day + 7))
  else if bool_decide (f = "monthly") then
    let '(nextYear, nextMonth) := if 11 <? month + 1 then (year + 1, 0) else (year, month + 1) in
    match Date_UTC nextYear (nextMonth + 1) 0 0 0 0 0 with
    | Some lastDay => Ret (mk nextYear nextMonth (Z.min day (getUTCDate lastDay)))
    | None => Ret None
    end
  else if bool_decide (f = "custom") then
    match customIntervalDays with
    | Some days =>
        if days <? 1 then Throw (EPlain "customIntervalDays must be a positive integer for custom frequency")
        else Ret (mk year month (day + days))
    | None => Throw (EPlain "customIntervalDays must be a positive integer for custom frequency")
    end
  else Throw (EPlain ("Invalid frequency: " +:+ freq)%string).

Definition idempotencyKey (sch : schedule) : string :=
  ("recurring-" +:+ Z_to_string (sid sch) +:+ "-" +:+ iso_date (nextExecutionDate (srow sch)))%string.

(** ** Requests on a schedule *)

Definition with_status (x : string) (r : row) : row :=
  mk_row (donorId r) (recipientId r) (amount r) (frequency r) (nextExecutionDate r) x
    (executionCount r) (maxExecutions r) (customIntervalDays r) (webhookUrl r) (failureCount r)
    (lastExecutionDate r) (lastFailureReason r) (cancelledAt r) (pausedAt r).
Definition with_cancelledAt (t : Z) (r : row) : row :=
  mk_row (donorId r) (recipientId r) (amount r) (frequency r) (nextExecutionDate r) (status r)
    (executionCount r) (maxExecutions r) (customIntervalDays r) (webhookUrl r) (failureCount r)
    (lastExecutionDate r) (lastFailureReason r) (Some t) (pausedAt r).
Definition with_pausedAt (t : Z) (r : row) : row :=
  mk_row (donorId r) (recipientId r) (amount r) (frequency r) (nextExecutionDate r) (status r)
    (executionCount r) (maxExecutions r) (customIntervalDays r) (webhookUrl r) (failureCount r)
    (lastExecutionDate r) (lastFailureReason r) (cancelledAt r) (Some t).

(** DELETE /stream/schedules/:id, past its authorization.  The set it reads is
    that of the instance the module exports, not of the scheduler that runs. *)
Definition cancelSchedule (now i : Z) (s : st) : st :=
  let x := if bool_decide (i ∈ default_executing s) then "pending_cancellation"%string
           else SCHEDULE_STATUS_CANCELLED in
  update_row i (λ r, with_cancelledAt now (with_status x r)) s.

(** DELETE /recurring-donations/:id *)
Definition cancelRecurring (i : Z) (s : st) : st :=
  match rows s !! i with
  | Some r => if bool_decide (status r = SCHEDULE_STATUS_CANCELLED) then s
              else update_row i (with_status SCHEDULE_STATUS_CANCELLED) s
  | None => s
  end.

(** POST /stream/schedules/:id/pause, past its authorization. *)
Definition pauseSchedule (now i : Z) (s : st) : st :=
  match rows s !! i with
  | Some r => if bool_decide (status r = SCHEDULE_STATUS_ACTIVE)
              then update_row i (λ r, with_pausedAt now (with_status SCHEDULE_STATUS_PAUSED r)) s else s
  | None => s
  end.

Inductive request := CancelStream (now : Z) | CancelRecurring | Pause (now : Z).

Definition handle (i : Z) (q : request) (s : st) : st :=
  match q with
  | CancelStream now => cancelSchedule now i s
  | CancelRecurring => cancelRecurring i s
  | Pause now => pauseSchedule now i s
  end.

Definition handle_all (i : Z) (qs : list request) (s : st) : st := foldl (λ s q, handle i q s) s qs.

(** ** One execution *)

(** The answers one attempt meets, and the requests on the schedule handled
    while it waits: [e_during] before the UPDATE of its row, [e_after] while
    its outcome is logged and before the next attempt. *)
Record env := mk_env {
  e_now : Z;
  e_lookup : outcome jserror unit;
  e_during : list request;
  e_pay : outcome jserror string;
  e_insert : outcome jserror unit;
  e_update : outcome jserror unit;
  e_publish : outcome jserror unit;
  e_after : list request;
}.

Definition STROOPS : num := num_of_Z 10000000.

(** Whether the cycle of [sch] has a transaction. *)
Definition recorded (sch : schedule) (s : st) : bool :=
  existsb (λ t, bool_decide (t_memo t = idempotencyKey sch) &&
                bool_decide (senderId t = donorId (srow sch)) &&
                bool_decide (receiverId t = recipientId (srow sch))) (txs s).

Definition new_tx (now : Z) (sch : schedule) : tx :=
  mk_tx (donorId (srow sch)) (recipientId (srow sch))
    (num_round (num_mul (parse_float (num_to_string (amount (srow sch)))) STROOPS))
    (idempotencyKey sch) now.

Definition newCount (sch : schedule) : Z := default 0 (executionCount (srow sch)) + 1.
Definition maxReached (sch : schedule) : bool :=
  match maxExecutions (srow sch) with Some m => negb (m =? 0) && (m <=? newCount sch) | None => false end.

(** The UPDATE of a successful execution. *)
Definition advance (now next : Z) (sch : schedule) (r : row) : row :=
  mk_row (donorId r) (recipientId r) (amount r) (frequency r) next
    (if maxReached sch then SCHEDULE_STATUS_COMPLETED else SCHEDULE_STATUS_ACTIVE)
    (Some (newCount sch)) (maxExecutions r) (customIntervalDays r) (webhookUrl r) (Some 0)
    (Some now) None (cancelledAt r) (pausedAt r).

(** Payment and its record, unless the cycle has one. *)
Definition pay_once (e : env) (sch : schedule) : M unit :=
  lift_out (e_lookup e);;
  s ← get_st;
  if recorded sch s then modify_st (handle_all (sid sch) (e_during e))
  else
    modify_st (log_asked (sid sch, idempotencyKey sch, is_ret (e_pay e)));;
    modify_st (handle_all (sid sch) (e_during e));;
    lift_out (e_pay e);;
    lift_out (e_insert e);;
    modify_st (add_tx (new_tx (e_now e) sch)).

(** [logExecution] names four columns for eight values: the database refuses
    the statement and the error is only logged. *)
Definition executeSchedule (e : env) (sch : schedule) : M unit :=
  try_finally
    (pay_once e sch;;
     next ← lift_out (calculateNextExecutionDate (e_now e) (frequency (srow sch)) (customIntervalDays (srow sch)));
     match next with
     | None => throw ERange
     | Some next =>
         lift_out (e_update e);;
         modify_st (update_row (sid sch) (advance (e_now e) next sch));;
         lift_out (e_publish e)
     end)
    (modify_st (handle_all (sid sch) (e_after e))).

(** What one run of the retry loop meets: the attempts' answers, whether the
    failure update and the final cancellation check succeed, the notifier. *)
Record run_env := mk_run_env {
  attempt_env : nat → env;
  fail_ok : bool;
  hook : outcome jserror unit;
  final_ok : bool;
}.

Definition failed_row (sch : schedule) (error : option jserror) (r : row) : row :=
  mk_row (donorId r) (recipientId r) (amount r) (frequency r) (nextExecutionDate r) (status r)
    (executionCount r) (maxExecutions r) (customIntervalDays r) (webhookUrl r)
    (Some (default 0 (failureCount (srow sch)) + 1)) (lastExecutionDate r) error (cancelledAt r) (pausedAt r).

Definition handlePersistentFailure (re : run_env) (sch : schedule) (error : option jserror) : M unit :=
  when (fail_ok re) (modify_st (update_row (sid sch) (failed_row sch error)));;
  match webhookUrl (srow sch) with
  | Some u => if is_empty u then mret () else lift_out (hook re)
  | None => mret ()
  end.

(** [n] attempts are left, [k] were made. *)
Fixpoint attempts (re : run_env) (sch : schedule) (n k : nat) (lastError : option jserror) : M unit :=
  match n with
  | O => handlePersistentFailure re sch lastError
  | S n => try_catch (executeSchedule (attempt_env re k) sch) (λ e, attempts re sch n (S k) (Some e))
  end.

(** The deferred cancellation of the [finally] block. *)
Definition finalize (i : Z) (ok : bool) : M unit :=
  modify_st (λ s, set_executing (executing s ∖ {[i]}) s);;
  s ← get_st;
  match rows s !! i with
  | Some r =>
      when (ok && bool_decide (status r = "pending_cancellation"))
        (modify_st (update_row i (with_status SCHEDULE_STATUS_CANCELLED)))
  | None => mret ()
  end.

Definition executeScheduleWithRetry (re : run_env) (sch : schedule) : M unit :=
  s ← get_st;
  if bool_decide (sid sch ∈ executing s) then mret ()
  else
    modify_st (λ s, set_executing (executing s ∪ {[sid sch]}) s);;
    try_finally (attempts re sch maxRetries 0 None) (finalize (sid sch) (final_ok re)).

(** ** The tick *)

(** The due query: active rows whose date has come, with both users. *)
Definition due (now : Z) (s : st) : list schedule :=
  omap (λ p, let '(i, r) := p in
    if bool_decide (status r = SCHEDULE_STATUS_ACTIVE) && (nextExecutionDate r <=? now) then
      match users s !! donorId r, users s !! recipientId r with
      | Some d, Some c => Some (mk_schedule i r d c)
      | _, _ => None
      end
    else None) (map_to_list (rows s)).

(** [Promise.allSettled]: no failure stops the others. *)
Fixpoint run_all (envs : Z → run_env) (l : list schedule) (s : st) : st :=
  match l with
  | [] => s
  | sch :: l => run_all envs l (executeScheduleWithRetry (envs (sid sch)) sch s).2
  end.

Definition checkInterval : Z := 60000.

Section tick.
Context {L : Type} `{LeaderElection.Lease L}.

(** [healthy] is the answer of the network status service. *)
Definition processSchedules (instance : string) (now : Z) (healthy : bool) (envs : Z → run_env)
    (l : L) (s : st) : L * st :=
  if negb (isRunning s) then (l, s)
  else
    let '(isLeader, l) := LeaderElection.try_lease instance "recurring_donation_scheduler" now (checkInterval * 2) l in
    if negb isLeader then (l, s)
    else if negb healthy then (l, s)
    else
      let toExecute := filter (λ sch, sid sch ∉ executing s) (due now s) in
      (l, run_all envs toExecute s).

End tick.

(** ** The next date *)

Lemma Date_UTC_of_day y m dt t :
  100 <= y → 0 <= MakeDay y m dt → MakeDay y m dt * msPerDay + TimeWithinDay t <= max_time →
  Date_UTC y m dt (getUTCHours t) (getUTCMinutes t) (getUTCSeconds t) (getUTCMilliseconds t) =
    Some (MakeDay y m dt * msPerDay + TimeWithinDay t).
Proof.
  intros Hy Hd Hm. unfold Date_UTC, TimeClip. rewrite MakeTime_fields.
  destruct (Z.leb_spec y 99); [lia|]. rewrite andb_false_r.
  pose proof (TimeWithinDay_range t). unfold msPerDay in *.
  destruct (Z.leb_spec (Z.abs (MakeDay y m dt * 86400000 + TimeWithinDay t)) max_time); [done|lia].
Qed.

(** A number of days later, at the same time of day. *)
Lemma Date_UTC_plus t k :
  0 <= t → 0 <= k → t + k * msPerDay <= max_time →
  Date_UTC (getUTCFullYear t) (getUTCMonth t) (getUTCDate t + k)
    (getUTCHours t) (getUTCMinutes t) (getUTCSeconds t) (getUTCMilliseconds t) = Some (t + k * msPerDay).
Proof.
  intros Ht Hk Hm. pose proof (getUTCFullYear_epoch t Ht). pose proof (Day_split t).
  assert (0 <= Day t) by (by apply Z.div_pos).
  unfold getUTCFullYear, getUTCMonth, getUTCDate in *.
  rewrite Date_UTC_of_day; rewrite ?MakeDay_of_day; [f_equal| | |]; lia.
Qed.

(** The year and month after those of [t]. *)
Definition next_month (t : Z) : Z * Z :=
  if 11 <? getUTCMonth t + 1 then (getUTCFullYear t + 1, 0) else (getUTCFullYear t, getUTCMonth t + 1).

Lemma next_month_day t :
  let '(y, m) := next_month t in
  let dt := Z.min (getUTCDate t) (days_in_month y m) in
  0 <= m <= 11 ∧ 1 <= dt <= days_in_month y m ∧ Day t + 28 <= MakeDay y m dt <= Day t + 31.
Proof.
  unfold next_month, getUTCFullYear, getUTCMonth, getUTCDate. set (d := Day t).
  pose proof (MonthFromDay_spec d) as [Hm _]. pose proof (DateFromDay_range d) as Hd.
  pose proof (days_in_month_range (YearFromDay d) (MonthFromDay d) Hm) as Hr.
  pose proof (MakeDay_of_day d 0) as Hd0. rewrite !Z.add_0_r in Hd0.
  destruct (Z.ltb_spec 11 (MonthFromDay d + 1)).
  - assert (Hm11 : MonthFromDay d = 11) by lia. rewrite Hm11 in *.
    pose proof (days_in_month_range (YearFromDay d + 1) 0 ltac:(lia)).
    split_and!; try lia; revert Hd0; unfold MakeDay, days_in_month in *;
      change (0 / 12) with 0; change (0 mod 12) with 0; change (11 / 12) with 0; change (11 mod 12) with 11;
      rewrite !Z.add_0_r, DayFromYear_succ in *; change (11 + 1) with 12 in *;
      change (MonthStart ?l 0) with 0 in *; change (MonthStart ?l 12) with (l + 365) in *; lia.
  - pose proof (days_in_month_range (YearFromDay d) (MonthFromDay d + 1) ltac:(lia)).
    split_and!; try lia; revert Hd0; unfold MakeDay, days_in_month in *;
      rewrite !(Z.div_small _ 12), !(Z.mod_small _ 12), !Z.add_0_r by lia; lia.
Qed.

(** The last day of the month, as the code computes it. *)
Lemma last_day y m :
  1970 <= y → 0 <= m <= 11 → 0 <= MakeDay y m (days_in_month y m) → MakeDay y m (days_in_month y m) * msPerDay <= max_time →
  ∃ x, Date_UTC y (m + 1) 0 0 0 0 0 = Some x ∧ getUTCDate x = days_in_month y m.
Proof.
  intros Hy Hm Hd Ht. exists (MakeDay y m (days_in_month y m) * msPerDay + 0).
  pose proof (Date_UTC_of_day y (m + 1) 0 0) as Hu. rewrite MakeDay_last in Hu by done.
  split; [apply Hu; [lia|done|]|].
  - change (TimeWithinDay 0) with 0. lia.
  - unfold getUTCDate. rewrite (proj1 (Day_of _ 0 ltac:(done))). apply MakeDay_fields; [done|].
    pose proof (days_in_month_range y m Hm). lia.
Qed.

Lemma monthly_date t :
  0 <= t → t + 62 * msPerDay <= max_time →
  ∃ t', calculateNextExecutionDate t "monthly" None = Ret (Some t') ∧
    (getUTCFullYear t', getUTCMonth t') = next_month t ∧
    getUTCDate t' = Z.min (getUTCDate t) (days_in_month (getUTCFullYear t') (getUTCMonth t')) ∧
    TimeWithinDay t' = TimeWithinDay t ∧ t + 28 * msPerDay <= t' <= t + 31 * msPerDay.
Proof.
  intros Ht Hmax. pose proof (next_month_day t) as Hn. pose proof (getUTCFullYear_epoch t Ht) as Hy.
  pose proof (Day_split t) as Hs. pose proof (TimeWithinDay_range t) as Hw.
  assert (Hd0 : 0 <= Day t) by (by apply Z.div_pos).
  assert (Hny : 1970 <= (next_month t).1) by (unfold next_month; destruct (11 <? _); cbn [fst]; lia).
  unfold calculateNextExecutionDate. cbv zeta.
  replace (if 11 <? getUTCMonth t + 1 then _ else _) with (next_month t) by done.
  destruct (next_month t) as [y m]. cbn [fst] in Hny. destruct Hn as (Hm & Hdt & Hday).
  set (dt := Z.min _ _) in *. pose proof (days_in_month_range y m Hm).
  assert (Hlast : MakeDay y m (days_in_month y m) - MakeDay y m dt = days_in_month y m - dt)
    by (unfold MakeDay; lia).
  destruct (last_day y m) as (x & Hx & Hxd); [lia|done|lia|unfold msPerDay in *; lia|].
  exists (MakeDay y m dt * msPerDay + TimeWithinDay t).
  destruct (MakeDay_fields y m dt Hm Hdt) as (F1 & F2 & F3).
  destruct (Day_of (MakeDay y m dt) (TimeWithinDay t) Hw) as [D1 D2].
  change (to_lower "monthly") with "monthly"%string.
  rewrite !bool_decide_false by done. rewrite bool_decide_true by done.
  rewrite Hx, Hxd. fold dt. split_and!.
  - f_equal. apply Date_UTC_of_day; unfold msPerDay in *; lia.
  - unfold getUTCFullYear, getUTCMonth. by rewrite D1, F1, F2.
  - unfold getUTCFullYear, getUTCMonth, getUTCDate. rewrite D1, F1, F2, F3. done.
  - exact D2.
  - unfold msPerDay in *. lia.
  - unfold msPerDay in *. lia.
Qed.

(** The next date is one day, seven days or the custom number of days later, to the
    millisecond; for monthly schedules it is in the next calendar month, on the same day or on
    the month's last day if it is shorter, at the same time of day, 28 to 31 days later.  A
    custom interval below 1 or missing is an error, and so is any other frequency. *)
Theorem next_execution_date t freq c :
  0 <= t → t + 62 * msPerDay <= max_time →
  (to_lower freq = "daily" → calculateNextExecutionDate t freq c = Ret (Some (t + 1 * msPerDay))) ∧
  (to_lower freq = "weekly" → calculateNextExecutionDate t freq c = Ret (Some (t + 7 * msPerDay))) ∧
  (to_lower freq = "monthly" → ∃ t', calculateNextExecutionDate t freq c = Ret (Some t') ∧
     (getUTCFullYear t', getUTCMonth t') = next_month t ∧
     getUTCDate t' = Z.min (getUTCDate t) (days_in_month (getUTCFullYear t') (getUTCMonth t')) ∧
     TimeWithinDay t' = TimeWithinDay t ∧ t + 28 * msPerDay <= t' <= t + 31 * msPerDay) ∧
  (to_lower freq = "custom" → ∀ n, c = Some n → 1 <= n → t + n * msPerDay <= max_time →
     calculateNextExecutionDate t freq c = Ret (Some (t + n * msPerDay))) ∧
  (to_lower freq = "custom" → (∀ n, c = Some n → n < 1) →
     is_ret (calculateNextExecutionDate t freq c) = false) ∧
  (to_lower freq ∉ ["daily"; "weekly"; "monthly"; "custom"] →
     is_ret (calculateNextExecutionDate t freq c) = false).
Proof.
  intros Ht Hmax. assert (0 < msPerDay) by done.
  unfold calculateNextExecutionDate. cbv zeta. split_and!.
  - intros ->. rewrite bool_decide_true by done. f_equal. apply Date_UTC_plus; lia.
  - intros ->. rewrite bool_decide_false, bool_decide_true by done. f_equal. apply Date_UTC_plus; lia.
  - intros ->. exact (monthly_date t Ht Hmax).
  - intros -> n -> Hn Hb. rewrite !bool_decide_false, bool_decide_true by done.
    destruct (Z.ltb_spec n 1); [lia|]. f_equal. apply Date_UTC_plus; lia.
  - intros -> Hc. rewrite !bool_decide_false, bool_decide_true by done.
    destruct c as [n|]; [|done]. specialize (Hc n eq_refl). by destruct (Z.ltb_spec n 1); [|lia].
  - rewrite !not_elem_of_cons. intros (H1 & H2 & H3 & H4 & _). by rewrite !bool_decide_false.
Qed.

Lemma next_execution_date_witness :
  (* 2024-01-31T12:00 monthly: 2024-02-29 *)
  ∃ t', calculateNextExecutionDate 1706702400000 "Monthly" None = Ret (Some t') ∧ getUTCDate t' = 29.
Proof.
  destruct (proj1 (proj2 (proj2 (next_execution_date 1706702400000 "Monthly" None ltac:(lia) ltac:(done))))
    ltac:(reflexivity)) as (t' & Ht & H1 & H2 & _).
  exists t'. split; [exact Ht|]. rewrite H2. revert H1.
  change (next_month 1706702400000) with (2024, 1). intros [= -> ->]. reflexivity.
Defined.

(** ** Payments of one cycle *)

Definition cycle (sch : schedule) : Z * string := (sid sch, idempotencyKey sch).

(** The payments asked for that ended in an error, and the attempts from [k] to
    [k + n] whose payment is answered and not recorded. *)
Definition lost (e : env) : bool := is_ret (e_pay e) && negb (is_ret (e_insert e)).
Definition unanswered (l : list (Z * string * bool)) : nat := length (filter (λ p, p.2 = false) l).
Definition unrecorded (re : run_env) (k n : nat) : nat :=
  length (filter (λ j, lost (attempt_env re j) = true) (seq k n)).

Lemma unrecorded_S re k n :
  unrecorded re k (S n) = ((if lost (attempt_env re k) then 1 else 0) + unrecorded re (S k) n)%nat.
Proof.
  unfold unrecorded. cbn [seq]. rewrite filter_cons. destruct (lost _) eqn:He.
  - by rewrite decide_True.
  - by rewrite decide_False.
Qed.

(** The requests on a schedule change its row only. *)
Lemma handle_frame i q s :
  executing (handle i q s) = executing s ∧ default_executing (handle i q s) = default_executing s ∧
  txs (handle i q s) = txs s ∧ asked (handle i q s) = asked s ∧
  (∀ j, j ≠ i → rows (handle i q s) !! j = rows s !! j).
Proof.
  assert (Hu : ∀ f, executing (update_row i f s) = executing s ∧
      default_executing (update_row i f s) = default_executing s ∧ txs (update_row i f s) = txs s ∧
      asked (update_row i f s) = asked s ∧ (∀ j, j ≠ i → rows (update_row i f s) !! j = rows s !! j)).
  { intros f. split_and!; try done. intros j Hj. cbn. by rewrite lookup_alter_ne. }
  destruct q; cbn [handle]; unfold cancelSchedule, cancelRecurring, pauseSchedule; [apply Hu| |];
    (destruct (rows s !! i) as [r|]; [|done]); case_bool_decide; done || apply Hu.
Qed.

Lemma handle_all_frame i qs s :
  executing (handle_all i qs s) = executing s ∧ default_executing (handle_all i qs s) = default_executing s ∧
  txs (handle_all i qs s) = txs s ∧ asked (handle_all i qs s) = asked s ∧
  (∀ j, j ≠ i → rows (handle_all i qs s) !! j = rows s !! j).
Proof.
  unfold handle_all. revert s. induction qs as [|q qs IH]; intros s; [done|]. cbn [foldl].
  destruct (handle_frame i q s) as (H1 & H2 & H3 & H4 & H5).
  destruct (IH (handle i q s)) as (J1 & J2 & J3 & J4 & J5).
  split_and!; [congruence..|]. intros j Hj. by rewrite J5, H5.
Qed.

Lemma recorded_txs sch s s' : txs s' = txs s → recorded sch s' = recorded sch s.
Proof. unfold recorded. by intros ->. Qed.

(** What a piece of an execution did: nothing to the payments, or it asked for
    one of an unrecorded cycle, which is recorded when the network answers and
    the INSERT succeeds. *)
Definition pays (e : env) (sch : schedule) (s s' : st) : Prop :=
  (asked s' = asked s ∧ (recorded sch s = true → recorded sch s' = true)) ∨
  (asked s' = asked s ++ [(cycle sch, is_ret (e_pay e))] ∧ recorded sch s = false ∧
    (is_ret (e_pay e) = true → is_ret (e_insert e) = true → recorded sch s' = true)).

Lemma recorded_new sch now s : recorded sch (add_tx (new_tx now sch) s) = true.
Proof.
  unfold recorded. cbn. rewrite existsb_app. cbn. rewrite !bool_decide_true by done. cbn. apply orb_true_r.
Qed.

Lemma pay_once_pays e sch s :
  pays e sch s (pay_once e sch s).2 ∧
  ((pay_once e sch s).1 = Ret () → recorded sch (pay_once e sch s).2 = true).
Proof.
  unfold pay_once, mbind, stx_bind, lift_out. destruct (e_lookup e) as [[]|x]; [|by split; [left|]].
  cbn. destruct (recorded sch s) eqn:Hrec; cbn.
  - destruct (handle_all_frame (sid sch) (e_during e) s) as (_ & _ & Ht & Ha & _).
    unfold pays. rewrite (recorded_txs sch _ _ Ht). split; [by left|done].
  - set (s1 := log_asked _ s). unfold pays.
    destruct (handle_all_frame (sid sch) (e_during e) s1) as (_ & _ & _ & Ha & _).
    destruct (e_pay e) as [h|x]; cbn; [|split; [right; by split_and!|done]].
    destruct (e_insert e) as [[]|x]; cbn; [|split; [right; by split_and!|done]].
    pose proof (recorded_new sch (e_now e) (handle_all (sid sch) (e_during e) s1)) as Hn.
    split; [right; by split_and!|by intros _].
Qed.

(** What follows the payment changes the row only. *)
Lemma execute_pays e sch s : pays e sch s (executeSchedule e sch s).2.
Proof.
  pose proof (proj1 (pay_once_pays e sch s)) as Hp. unfold executeSchedule, try_finally, mbind, stx_bind, lift_out.
  assert (Hh : ∀ s1, pays e sch s s1 → pays e sch s (handle_all (sid sch) (e_after e) s1)).
  { intros s1. destruct (handle_all_frame (sid sch) (e_after e) s1) as (_ & _ & Ht & Ha & _).
    unfold pays. by rewrite Ha, (recorded_txs _ _ _ Ht). }
  destruct (pay_once e sch s) as [[[]|x] s1]; cbn in *; [|by apply Hh].
  destruct (calculateNextExecutionDate _ _ _) as [[next|]|x]; cbn; [|by apply Hh..].
  destruct (e_update e); cbn; [|by apply Hh].
  destruct (e_publish e); cbn; by apply Hh.
Qed.

Lemma failure_frame re sch x s :
  asked (handlePersistentFailure re sch x s).2 = asked s ∧
  txs (handlePersistentFailure re sch x s).2 = txs s.
Proof.
  unfold handlePersistentFailure, when, mbind, stx_bind, lift_out.
  destruct (fail_ok re); cbn; destruct (webhookUrl (srow sch)) as [u|]; try done; by destruct (is_empty u).
Qed.

Lemma finalize_frame i ok s :
  asked (finalize i ok s).2 = asked s ∧ txs (finalize i ok s).2 = txs s.
Proof. unfold finalize, when, mbind, stx_bind. cbn. destruct (rows s !! i); [|done]. by destruct (_ && _). Qed.

(** What a run of [n] attempts from the [k]-th asks the network for. *)
Definition asks (re : run_env) (sch : schedule) (k n : nat) (s s' : st) : Prop :=
  ∃ new, asked s' = asked s ++ new ∧ Forall (λ p, p.1 = cycle sch) new ∧ (length new <= n)%nat ∧
    (length new <= 1 + unanswered new + unrecorded re k n)%nat ∧ (recorded sch s = true → new = []).

Lemma asks_refl re sch k n s s' : asked s' = asked s → asks re sch k n s s'.
Proof. intros Ha. exists []. rewrite app_nil_r. split_and!; [done|done|cbn; lia|cbn; lia|done]. Qed.

(** One attempt, and the rest of the loop. *)
Lemma asks_attempt re sch k n s s1 s' :
  pays (attempt_env re k) sch s s1 → asks re sch (S k) n s1 s' → asks re sch k (S n) s s'.
Proof.
  intros Hp (new & Ha & Hc & Hl & Hb & Hr). unfold asks. rewrite unrecorded_S.
  destruct Hp as [[Hp Hrec]|(Hp & Hrec & Hi)].
  - exists new. rewrite Ha, Hp. split_and!; [done|done|lia|lia|auto].
  - exists ((cycle sch, is_ret (e_pay (attempt_env re k))) :: new).
    rewrite Ha, Hp, <- app_assoc. split_and!; [done|by constructor|cbn; lia| |congruence].
    unfold unanswered, lost in *. rewrite filter_cons. cbn [snd length].
    destruct (is_ret (e_pay _)); [rewrite decide_False by done|rewrite decide_True by done; cbn [length andb]; lia].
    destruct (is_ret (e_insert _)); cbn [andb negb]; [|lia]. rewrite Hr by auto. cbn. lia.
Qed.

Lemma attempts_ask re sch n k x s : asks re sch k n s (attempts re sch n k x s).2.
Proof.
  revert k x s. induction n as [|n IH]; intros k x s; cbn [attempts]; [apply asks_refl, failure_frame|].
  unfold try_catch. pose proof (execute_pays (attempt_env re k) sch s) as Hp.
  destruct (executeSchedule (attempt_env re k) sch s) as [[[]|e] s1]; cbn in Hp.
  - eapply asks_attempt; [exact Hp|]. by apply asks_refl.
  - eapply asks_attempt; [exact Hp|]. apply IH.
Qed.

(** C36: The retry loop asks the network for at most three payments, all of the schedule's
    cycle.  They are at most one, and one more for each payment the network answered with an
    error, which it may have carried out, and for each answered payment whose INSERT fails: so
    at most one when every payment is answered and recorded.  It asks for none when the cycle
    is recorded, and does nothing when the schedule is already executing. *)
Theorem retry_payments re sch s :
  let s' := (executeScheduleWithRetry re sch s).2 in
  (∃ new, asked s' = asked s ++ new ∧ Forall (λ p, p.1 = cycle sch) new ∧
     (length new <= maxRetries)%nat ∧
     (length new <= 1 + unanswered new + unrecorded re 0 maxRetries)%nat ∧
     (recorded sch s = true → new = [])) ∧
  (sid sch ∈ executing s → s' = s).
Proof.
  cbv zeta. unfold executeScheduleWithRetry, mbind, stx_bind. cbn [get_st].
  case_bool_decide as Hex; [split; [by apply (asks_refl re)|done]|].
  unfold modify_st, try_finally. set (s0 := set_executing _ s).
  pose proof (attempts_ask re sch maxRetries 0 None s0) as Ha.
  destruct (attempts re sch maxRetries 0 None s0) as [x s1].
  pose proof (finalize_frame (sid sch) (final_ok re) s1) as [Hf _].
  destruct (finalize (sid sch) (final_ok re) s1) as [[[]|y] s2]; cbn in *; rewrite Hf;
    (split; [exact Ha|done]).
Qed.

(** ** Outcomes of one run *)

(** The status the requests [qs] lead to. *)
Definition status_after (q : request) (x : string) : string :=
  match q with
  | Pause _ => if bool_decide (x = SCHEDULE_STATUS_ACTIVE) then SCHEDULE_STATUS_PAUSED else x
  | _ => SCHEDULE_STATUS_CANCELLED
  end.
Definition requested (qs : list request) (x : string) : string := foldl (λ x q, status_after q x) x qs.

(** [r'] is [r] but for the status and the times of the requests. *)
Definition same_cycle (r r' : row) : Prop :=
  nextExecutionDate r' = nextExecutionDate r ∧ executionCount r' = executionCount r ∧
  maxExecutions r' = maxExecutions r ∧ failureCount r' = failureCount r.

#[local] Instance same_cycle_preorder : PreOrder same_cycle.
Proof. split; [by intros r|]. intros r1 r2 r3 (H1 & H2 & H3 & H4) (J1 & J2 & J3 & J4). split_and!; congruence. Qed.

Lemma handle_row i q s r :
  i ∉ default_executing s → rows s !! i = Some r →
  ∃ r', rows (handle i q s) !! i = Some r' ∧ status r' = status_after q (status r) ∧ same_cycle r r'.
Proof.
  intros Hd Hr. destruct q; cbn [handle status_after]; unfold cancelSchedule, cancelRecurring, pauseSchedule;
    rewrite ?Hr.
  - cbn. rewrite lookup_alter_eq, Hr, bool_decide_false by done. by eexists.
  - case_bool_decide; [by exists r|]. cbn. rewrite lookup_alter_eq, Hr. by eexists.
  - case_bool_decide; [|by exists r]. cbn. rewrite lookup_alter_eq, Hr. by eexists.
Qed.

Lemma handle_all_row i qs s r :
  i ∉ default_executing s → rows s !! i = Some r →
  ∃ r', rows (handle_all i qs s) !! i = Some r' ∧ status r' = requested qs (status r) ∧ same_cycle r r'.
Proof.
  unfold handle_all, requested. revert s r. induction qs as [|q qs IH]; intros s r Hd Hr; [by exists r|].
  cbn [foldl]. destruct (handle_row i q s r Hd Hr) as (r1 & H1 & H2 & H3).
  destruct (IH (handle i q s) r1) as (r2 & J1 & J2 & J3); [|done|].
  - by rewrite (proj1 (proj2 (handle_frame i q s))).
  - exists r2. rewrite J2, H2. split_and!; [done|done|by etransitivity].
Qed.

Lemma status_after_pending q x : x ≠ "pending_cancellation"%string → status_after q x ≠ "pending_cancellation"%string.
Proof. destruct q; cbn; try done. by case_bool_decide. Qed.

Lemma requested_pending qs x :
  x ≠ "pending_cancellation"%string → requested qs x ≠ "pending_cancellation"%string.
Proof. unfold requested. revert x. induction qs as [|q qs IH]; intros x Hx; [done|]. by apply IH, status_after_pending. Qed.

(** The attempt's payment goes through and everything after it. *)
Record succeeds (e : env) : Prop := {
  ok_lookup : e_lookup e = Ret ();
  ok_pay : is_ret (e_pay e) = true;
  ok_insert : e_insert e = Ret ();
  ok_update : e_update e = Ret ();
  ok_publish : e_publish e = Ret ();
}.

(** [pay_once] touches no row but by the requests. *)
Lemma pay_once_rows e sch s :
  rows (pay_once e sch s).2 =
    (if e_lookup e is Ret _ then
       if recorded sch s then rows (handle_all (sid sch) (e_during e) s)
       else rows (handle_all (sid sch) (e_during e) (log_asked (cycle sch, is_ret (e_pay e)) s))
     else rows s).
Proof.
  unfold pay_once, mbind, stx_bind, lift_out. destruct (e_lookup e); [|done]. cbn.
  destruct (recorded sch s); [done|]. cbn.
  destruct (e_pay e); cbn; [|done]. by destruct (e_insert e).
Qed.

(** The rows are those of a state with the same schedules before the requests. *)
Lemma pay_once_handled e sch s :
  e_lookup e = Ret () → ∃ s1, rows (pay_once e sch s).2 = rows (handle_all (sid sch) (e_during e) s1) ∧
    rows s1 = rows s ∧ default_executing s1 = default_executing s.
Proof. intros Hl. rewrite pay_once_rows, Hl. destruct (recorded sch s); eauto. Qed.

Lemma pay_once_sets e sch s :
  executing (pay_once e sch s).2 = executing s ∧ default_executing (pay_once e sch s).2 = default_executing s.
Proof.
  unfold pay_once, mbind, stx_bind, lift_out. destruct (e_lookup e); [|done]. cbn.
  destruct (recorded sch s); cbn; [split; apply handle_all_frame|].
  set (s1 := log_asked _ s). destruct (handle_all_frame (sid sch) (e_during e) s1) as (H1 & H2 & _).
  destruct (e_pay e); cbn; [|done]. by destruct (e_insert e).
Qed.

Lemma pay_once_ok e sch s : succeeds e → (pay_once e sch s).1 = Ret ().
Proof.
  intros [H1 H2 H3 _ _]. unfold pay_once, mbind, stx_bind, lift_out. rewrite H1. cbn.
  destruct (recorded sch s); [done|]. cbn. destruct (e_pay e); [|done]. by rewrite H3.
Qed.

(** An execution all of whose answers are good. *)
Lemma execute_succeeds e sch s r next :
  rows s !! sid sch = Some r → sid sch ∉ default_executing s → succeeds e →
  calculateNextExecutionDate (e_now e) (frequency (srow sch)) (customIntervalDays (srow sch)) = Ret (Some next) →
  let '(x, s') := executeSchedule e sch s in
  x = Ret () ∧ recorded sch s' = true ∧ executing s' = executing s ∧
  (∀ j, j ≠ sid sch → rows s' !! j = rows s !! j) ∧
  ∃ r1 r', rows s' !! sid sch = Some r' ∧ same_cycle (advance (e_now e) next sch r1) r' ∧
    status r' = requested (e_after e) (if maxReached sch then SCHEDULE_STATUS_COMPLETED else SCHEDULE_STATUS_ACTIVE).
Proof.
  intros Hr Hd Hok Hnext. pose proof (pay_once_ok e sch s Hok) as Hp.
  pose proof (proj2 (pay_once_pays e sch s) Hp) as Hrec. pose proof (pay_once_sets e sch s) as [Hx Hdx].
  destruct (pay_once_handled e sch s (ok_lookup e Hok)) as (s0 & Hrows & Hs0 & Hd0).
  unfold executeSchedule, try_finally, mbind, stx_bind, lift_out.
  destruct (pay_once e sch s) as [o s1]. cbn in Hp, Hrec, Hx, Hdx, Hrows. subst o.
  rewrite Hnext, (ok_update e Hok). cbn [modify_st]. rewrite (ok_publish e Hok).
  set (s2 := update_row _ _ s1).
  destruct (handle_all_row (sid sch) (e_during e) s0 r) as (r1 & Hr1 & _); [by rewrite Hd0|by rewrite Hs0|].
  assert (Hs2 : rows s2 !! sid sch = Some (advance (e_now e) next sch r1)).
  { unfold s2, update_row. cbn. by rewrite lookup_alter_eq, Hrows, Hr1. }
  destruct (handle_all_row (sid sch) (e_after e) s2 (advance (e_now e) next sch r1)) as (r2 & J1 & J2 & J3); [|exact Hs2|].
  { change (default_executing s2) with (default_executing s1). by rewrite Hdx. }
  destruct (handle_all_frame (sid sch) (e_after e) s2) as (F1 & _ & F2 & _ & F3).
  rewrite (recorded_txs _ _ _ F2), F1. split_and!; [done|exact Hrec|exact Hx| |by exists r1, r2].
  intros j Hj. rewrite F3 by done. unfold s2, update_row. cbn. rewrite lookup_alter_ne, Hrows by done.
  by rewrite (proj2 (proj2 (proj2 (proj2 (handle_all_frame _ _ _)))) j Hj), Hs0.
Qed.

(** C40: When the first attempt succeeds, the cycle is recorded, the row is moved to the next
    date, counted and the failure count reset, the schedule is no longer executing and no other
    row changes.  Its status is active again (completed when the maximum is reached), whatever
    cancellations and pauses arrived before the update of the row, which overwrites them; those
    that arrive after it are kept. *)
Theorem execution_advances re sch s r next :
  sid sch ∉ executing s → sid sch ∉ default_executing s → rows s !! sid sch = Some r →
  succeeds (attempt_env re 0) →
  calculateNextExecutionDate (e_now (attempt_env re 0)) (frequency (srow sch)) (customIntervalDays (srow sch))
    = Ret (Some next) →
  let '(x, s') := executeScheduleWithRetry re sch s in
  x = Ret () ∧ recorded sch s' = true ∧ (sid sch ∉ executing s') ∧
  (∀ j, j ≠ sid sch → rows s' !! j = rows s !! j) ∧
  ∃ r', rows s' !! sid sch = Some r' ∧
    status r' = requested (e_after (attempt_env re 0))
      (if maxReached sch then SCHEDULE_STATUS_COMPLETED else SCHEDULE_STATUS_ACTIVE) ∧
    nextExecutionDate r' = next ∧ executionCount r' = Some (newCount sch) ∧ failureCount r' = Some 0.
Proof.
  intros Hex Hd Hr Hok Hnext. unfold executeScheduleWithRetry, mbind, stx_bind. cbn [get_st].
  rewrite bool_decide_false by done. unfold modify_st, try_finally, maxRetries. cbn [attempts].
  set (s0 := set_executing _ s). unfold try_catch.
  pose proof (execute_succeeds (attempt_env re 0) sch s0 r next Hr Hd Hok Hnext) as He.
  destruct (executeSchedule _ sch s0) as [o s1]. destruct He as (-> & Hrec & Hx & Hoth & r1 & r' & Hr' & Hc & Hst).
  unfold finalize, mbind, stx_bind, modify_st. cbn [get_st]. change (rows (set_executing ?x ?y)) with (rows y).
  rewrite Hr'. rewrite (bool_decide_false (status _ = _));
    [|rewrite Hst; apply requested_pending; by destruct (maxReached sch)].
  rewrite andb_false_r. cbn. split_and!; [done|exact Hrec|set_solver|exact Hoth|].
  destruct Hc as (H1 & H2 & _ & H4). exists r'. by split_and!.
Qed.

(** ** Failing runs *)

(** The requests handled during attempts [k] to [k + n]. *)
Definition meanwhile (re : run_env) (k n : nat) : list request :=
  mjoin ((λ j, e_during (attempt_env re j) ++ e_after (attempt_env re j)) <$> seq k n).

(** An attempt whose payment, or whose recording, fails. *)
Lemma execute_fails e sch s :
  e_lookup e = Ret () → recorded sch s = false → is_ret (e_pay e) && is_ret (e_insert e) = false →
  ∃ x, executeSchedule e sch s =
    (Throw x, handle_all (sid sch) (e_during e ++ e_after e) (log_asked (cycle sch, is_ret (e_pay e)) s)).
Proof.
  intros H1 Hr H2. unfold executeSchedule, try_finally, pay_once, mbind, stx_bind, lift_out. rewrite H1. cbn.
  rewrite Hr. cbn. unfold handle_all. rewrite foldl_app.
  destruct (e_pay e); cbn; [|by eexists]. destruct (e_insert e); [done|by eexists].
Qed.

(** The state of a failing run: the answers [l] were got, the requests [qs]
    were handled. *)
Definition failing (sch : schedule) (r : row) (s : st) (l : list bool) (qs : list request) (s' : st) : Prop :=
  sid sch ∈ executing s' ∧ (sid sch ∉ default_executing s') ∧ recorded sch s' = false ∧
  asked s' = asked s ++ ((λ b, (cycle sch, b)) <$> l) ∧
  ∃ r', rows s' !! sid sch = Some r' ∧ same_cycle r r' ∧ status r' = requested qs (status r).

Lemma failing_step sch r s l qs b qs' s' :
  failing sch r s l qs s' →
  failing sch r s (l ++ [b]) (qs ++ qs') (handle_all (sid sch) qs' (log_asked (cycle sch, b) s')).
Proof.
  intros (Hx & Hd & Hrec & Ha & r1 & Hr & Hc & Hs). set (s1 := log_asked _ s').
  destruct (handle_all_frame (sid sch) qs' s1) as (F1 & F2 & F3 & F4 & _).
  destruct (handle_all_row (sid sch) qs' s1 r1 Hd Hr) as (r2 & J1 & J2 & J3).
  unfold failing. rewrite F1, F2, F4, (recorded_txs _ _ _ F3). split_and!; [done|done|exact Hrec| |].
  - cbn. by rewrite Ha, fmap_app, app_assoc.
  - exists r2. rewrite J2, Hs. split_and!; [done|by etransitivity|]. unfold requested. by rewrite foldl_app.
Qed.

(** Attempts that all fail end in the failure handler. *)
Lemma attempts_fail re sch r s n k x l qs s' :
  (∀ j, e_lookup (attempt_env re j) = Ret () ∧
        is_ret (e_pay (attempt_env re j)) && is_ret (e_insert (attempt_env re j)) = false) →
  failing sch r s l qs s' →
  ∃ y s'', attempts re sch n k x s' = handlePersistentFailure re sch y s'' ∧
    failing sch r s (l ++ ((λ j, is_ret (e_pay (attempt_env re j))) <$> seq k n)) (qs ++ meanwhile re k n) s''.
Proof.
  intros Henv. unfold meanwhile. revert k x l qs s'. induction n as [|n IH]; intros k x l qs s' Hf; cbn [attempts].
  - exists x, s'. cbn. by rewrite !app_nil_r.
  - destruct (Henv k) as [H1 H2]. destruct (execute_fails _ sch s' H1 (proj1 (proj2 (proj2 Hf))) H2) as [y He].
    unfold try_catch. rewrite He. cbn [seq fmap list_fmap mjoin list_join].
    apply (failing_step _ _ _ _ _ (is_ret (e_pay (attempt_env re k)))
             (e_during (attempt_env re k) ++ e_after (attempt_env re k))) in Hf.
    destruct (IH (S k) (Some y) _ _ _ Hf) as (z & s'' & E & Hf'). exists z, s''. split; [exact E|].
    rewrite <- !app_assoc in Hf'. rewrite <- ?app_assoc. exact Hf'.
Qed.

(** A run all of whose attempts fail: what it asked for, and the schedule
    afterwards. *)
Lemma failing_run re sch s r :
  sid sch ∉ executing s → sid sch ∉ default_executing s → rows s !! sid sch = Some r →
  status r ≠ "pending_cancellation"%string → recorded sch s = false → webhookUrl (srow sch) = None →
  fail_ok re = true →
  (∀ j, e_lookup (attempt_env re j) = Ret () ∧
        is_ret (e_pay (attempt_env re j)) && is_ret (e_insert (attempt_env re j)) = false) →
  let '(x, s') := executeScheduleWithRetry re sch s in
  x = Ret () ∧ (sid sch ∉ executing s') ∧
  asked s' = asked s ++ ((λ j, (cycle sch, is_ret (e_pay (attempt_env re j)))) <$> seq 0 maxRetries) ∧
  ∃ r', rows s' !! sid sch = Some r' ∧ nextExecutionDate r' = nextExecutionDate r ∧
    executionCount r' = executionCount r ∧ failureCount r' = Some (default 0 (failureCount (srow sch)) + 1) ∧
    status r' = requested (meanwhile re 0 maxRetries) (status r).
Proof.
  intros Hex Hd Hr Hst Hrec Hw Hf Henv. unfold executeScheduleWithRetry, mbind, stx_bind. cbn [get_st].
  rewrite bool_decide_false by done. unfold modify_st. set (s0 := set_executing _ s).
  assert (H0 : failing sch r s [] [] s0).
  { split_and!; [set_solver|done|exact Hrec|cbn; by rewrite app_nil_r|]. by exists r. }
  destruct (attempts_fail re sch r s maxRetries 0 None _ _ s0 Henv H0) as (y & s1 & E & Hx & Hd1 & _ & Ha & r1 & H1 & Hc & Hs).
  unfold try_finally. rewrite E. unfold handlePersistentFailure, finalize, when, mbind, stx_bind. rewrite Hf, Hw. cbn.
  rewrite lookup_alter_eq, H1. cbn.
  pose proof (requested_pending (meanwhile re 0 maxRetries) _ Hst) as Hpend. rewrite app_nil_l in Hs.
  rewrite bool_decide_false by (by rewrite Hs). rewrite andb_false_r. cbn.
  split_and!; [done|set_solver|exact Ha|]. rewrite lookup_alter_eq, H1. destruct Hc as (C1 & C2 & _).
  eexists. split; [reflexivity|]. by split_and!.
Qed.

(** When the network answers none of the payments it is asked for, the schedule stays due with
    its failure counted, three payments were asked for, and the cancellations and pauses that
    arrived during the run are kept. *)
Theorem rejected_payments re sch s r :
  sid sch ∉ executing s → sid sch ∉ default_executing s → rows s !! sid sch = Some r →
  status r ≠ "pending_cancellation"%string → recorded sch s = false → webhookUrl (srow sch) = None →
  fail_ok re = true →
  (∀ k, e_lookup (attempt_env re k) = Ret () ∧ is_ret (e_pay (attempt_env re k)) = false) →
  let '(x, s') := executeScheduleWithRetry re sch s in
  x = Ret () ∧ asked s' = asked s ++ replicate maxRetries (cycle sch, false) ∧ (sid sch ∉ executing s') ∧
  ∃ r', rows s' !! sid sch = Some r' ∧ nextExecutionDate r' = nextExecutionDate r ∧
    executionCount r' = executionCount r ∧ failureCount r' = Some (default 0 (failureCount (srow sch)) + 1) ∧
    status r' = requested (meanwhile re 0 maxRetries) (status r).
Proof.
  intros Hex Hd Hr Hst Hrec Hw Hf Henv.
  pose proof (failing_run re sch s r Hex Hd Hr Hst Hrec Hw Hf) as Hrun.
  destruct (executeScheduleWithRetry re sch s) as [x s']. destruct Hrun as (H1 & H2 & H3 & H4).
  { intros j. destruct (Henv j) as [-> ->]. done. }
  split_and!; [done| |done|done]. rewrite H3. unfold maxRetries. cbn.
  by rewrite (proj2 (Henv 0%nat)), (proj2 (Henv 1%nat)), (proj2 (Henv 2%nat)).
Qed.

(** When the payments are answered but recording them fails, one run pays the same cycle three
    times, and the schedule is still due for the next tick. *)
Theorem unrecorded_payments_repeat re sch s r :
  sid sch ∉ executing s → sid sch ∉ default_executing s → rows s !! sid sch = Some r →
  status r ≠ "pending_cancellation"%string → recorded sch s = false → webhookUrl (srow sch) = None →
  fail_ok re = true → meanwhile re 0 maxRetries = [] →
  (∀ k, e_lookup (attempt_env re k) = Ret () ∧ is_ret (e_pay (attempt_env re k)) = true ∧
        is_ret (e_insert (attempt_env re k)) = false) →
  let '(x, s') := executeScheduleWithRetry re sch s in
  x = Ret () ∧ asked s' = asked s ++ replicate maxRetries (cycle sch, true) ∧
  ∃ r', rows s' !! sid sch = Some r' ∧ nextExecutionDate r' = nextExecutionDate r ∧ status r' = status r.
Proof.
  intros Hex Hd Hr Hst Hrec Hw Hf Hq Henv.
  pose proof (failing_run re sch s r Hex Hd Hr Hst Hrec Hw Hf) as Hrun.
  destruct (executeScheduleWithRetry re sch s) as [x s'].
  destruct Hrun as (H1 & _ & H3 & r' & H4 & H5 & _ & _ & H8).
  { intros j. destruct (Henv j) as (-> & -> & ->). done. }
  split_and!; [done| |].
  - rewrite H3. unfold maxRetries. cbn.
    by rewrite (proj1 (proj2 (Henv 0%nat))), (proj1 (proj2 (Henv 1%nat))), (proj1 (proj2 (Henv 2%nat))).
  - exists r'. rewrite Hq in H8. by split_and!.
Qed.

(** ** The number of executions *)

(** A positive maximum bounds the count, strictly while the schedule is active. *)
Definition row_ok (r : row) : Prop :=
  ∀ m, maxExecutions r = Some m → 0 < m →
    default 0 (executionCount r) <= m ∧
    (status r = SCHEDULE_STATUS_ACTIVE → default 0 (executionCount r) < m).

Definition rows_ok (s : st) : Prop := ∀ i r, rows s !! i = Some r → row_ok r.

(** [s'] keeps the maxima of [s] and its good rows. *)
Definition keeps_max (s s' : st) : Prop :=
  (maxExecutions <$> rows s') = (maxExecutions <$> rows s) ∧ (rows_ok s → rows_ok s').

#[local] Instance keeps_max_preorder : PreOrder keeps_max.
Proof. split; [by split|]. intros s1 s2 s3 [H1 H2] [H3 H4]. split; [congruence|auto]. Qed.

Lemma update_keeps_max i f s :
  (∀ r, rows s !! i = Some r → maxExecutions (f r) = maxExecutions r ∧ (row_ok r → row_ok (f r))) →
  keeps_max s (update_row i f s).
Proof.
  intros Hf. split.
  - apply map_eq. intros j. rewrite !lookup_fmap. cbn. destruct (decide (i = j)) as [<-|].
    + rewrite lookup_alter_eq. destruct (rows s !! i) as [r|] eqn:Hr; [|done]. cbn. f_equal. by apply Hf.
    + by rewrite lookup_alter_ne.
  - intros Hok j r. cbn. destruct (decide (i = j)) as [<-|].
    + rewrite lookup_alter_eq. destruct (rows s !! i) as [r0|] eqn:Hr; [|done]. intros [= <-].
      by eapply Hf, Hok.
    + rewrite lookup_alter_ne by done. apply Hok.
Qed.

Lemma rows_keep_max s s' : rows s' = rows s → keeps_max s s'.
Proof. intros He. split; [by rewrite He|]. intros Hok i r. rewrite He. apply Hok. Qed.

(** A row that is no longer active. *)
Lemma inactive_row r r' :
  maxExecutions r' = maxExecutions r → executionCount r' = executionCount r →
  (status r' = SCHEDULE_STATUS_ACTIVE → status r = SCHEDULE_STATUS_ACTIVE) → row_ok r → row_ok r'.
Proof. unfold row_ok. intros -> -> Hs H m Hm Hp. specialize (H m Hm Hp). naive_solver. Qed.

Lemma handle_keeps_max i q s : keeps_max s (handle i q s).
Proof.
  destruct q; cbn [handle]; unfold cancelSchedule, cancelRecurring, pauseSchedule.
  - apply update_keeps_max. intros r _. split; [done|]. apply inactive_row; [done..|]. cbn. by case_bool_decide.
  - destruct (rows s !! i); [|done]. case_bool_decide; [done|].
    apply update_keeps_max. intros r' _. split; [done|]. by apply inactive_row.
  - destruct (rows s !! i); [|done]. case_bool_decide; [|done].
    apply update_keeps_max. intros r' _. split; [done|]. by apply inactive_row.
Qed.

Lemma handle_all_keeps_max i qs s : keeps_max s (handle_all i qs s).
Proof.
  unfold handle_all. revert s. induction qs as [|q qs IH]; intros s; [done|]. cbn [foldl].
  etransitivity; [apply handle_keeps_max|apply IH].
Qed.

Lemma advance_ok now next sch r :
  maxExecutions r = maxExecutions (srow sch) → row_ok (srow sch) → status (srow sch) = SCHEDULE_STATUS_ACTIVE →
  row_ok (advance now next sch r).
Proof.
  intros Hm Hok Hact m. cbn. rewrite Hm. intros He Hp. destruct (Hok m He Hp) as [_ Hlt]. specialize (Hlt Hact).
  unfold maxReached, newCount. rewrite He. destruct (Z.eqb_spec m 0); [lia|].
  destruct (Z.leb_spec m (default 0 (executionCount (srow sch)) + 1)); cbn; split; [lia|done|lia|lia].
Qed.

(** A schedule read from the table. *)
Definition current (sch : schedule) (s : st) : Prop :=
  row_ok (srow sch) ∧ status (srow sch) = SCHEDULE_STATUS_ACTIVE ∧
  (maxExecutions <$> rows s) !! sid sch = Some (maxExecutions (srow sch)).

Lemma current_keeps sch s s' : keeps_max s s' → current sch s → current sch s'.
Proof. intros [He _] (H1 & H2 & H3). split_and!; [done|done|]. by rewrite He. Qed.

Lemma pay_once_keeps_max e sch s : keeps_max s (pay_once e sch s).2.
Proof.
  pose proof (pay_once_rows e sch s) as Hr. destruct (e_lookup e) as [u|] eqn:Hl; [|by apply rows_keep_max].
  destruct (pay_once_handled e sch s) as (s1 & H1 & H2 & _); [by destruct u|].
  transitivity s1; [by apply rows_keep_max|]. transitivity (handle_all (sid sch) (e_during e) s1);
    [apply handle_all_keeps_max|by apply rows_keep_max].
Qed.

Lemma execute_keeps_max e sch s : current sch s → keeps_max s (executeSchedule e sch s).2.
Proof.
  intros Hc. pose proof (pay_once_keeps_max e sch s) as Hp.
  assert (Hh : ∀ s1, keeps_max s s1 → keeps_max s (handle_all (sid sch) (e_after e) s1))
    by (intros s1 H1; etransitivity; [exact H1|apply handle_all_keeps_max]).
  unfold executeSchedule, try_finally, mbind, stx_bind, lift_out.
  destruct (pay_once e sch s) as [[[]|x] s1]; cbn in *; [|by apply Hh].
  destruct (calculateNextExecutionDate _ _ _) as [[next|]|x]; cbn; [|by apply Hh..].
  destruct (e_update e); cbn; [|by apply Hh].
  assert (Hu : keeps_max s (update_row (sid sch) (advance (e_now e) next sch) s1)).
  { etransitivity; [exact Hp|]. pose proof (current_keeps _ _ _ Hp Hc) as (H1 & H2 & H3).
    apply update_keeps_max. intros r Hr. split; [done|]. intros _. apply advance_ok; [|done|done].
    rewrite lookup_fmap, Hr in H3. by injection H3. }
  destruct (e_publish e); cbn; by apply Hh.
Qed.

Lemma failure_keeps_max re sch x s : keeps_max s (handlePersistentFailure re sch x s).2.
Proof.
  assert (Hu : ∀ f, (∀ r, maxExecutions (f r) = maxExecutions r ∧ executionCount (f r) = executionCount r ∧
      status (f r) = status r) → keeps_max s (update_row (sid sch) f s)).
  { intros f Hf. apply update_keeps_max. intros r _. destruct (Hf r) as (H1 & H2 & H3). split; [done|].
    apply inactive_row; [done..|]. by rewrite H3. }
  unfold handlePersistentFailure, when, mbind, stx_bind, lift_out.
  destruct (fail_ok re); cbn; (destruct (webhookUrl (srow sch)) as [u|]; [destruct (is_empty u)|]); cbn;
    first [done|by apply Hu].
Qed.

Lemma attempts_keep_max re sch n k x s : current sch s → keeps_max s (attempts re sch n k x s).2.
Proof.
  revert k x s. induction n as [|n IH]; intros k x s Hc; cbn [attempts]; [apply failure_keeps_max|].
  unfold try_catch. pose proof (execute_keeps_max (attempt_env re k) sch s Hc) as He.
  destruct (executeSchedule (attempt_env re k) sch s) as [[[]|e] s1]; [exact He|].
  cbn in He. etransitivity; [exact He|]. apply IH. by eapply current_keeps.
Qed.

Lemma finalize_keeps_max i ok s : keeps_max s (finalize i ok s).2.
Proof.
  unfold finalize, when, mbind, stx_bind. cbn. destruct (rows s !! i) as [r|]; [|by apply rows_keep_max].
  destruct (_ && _); [|by apply rows_keep_max]. cbn.
  transitivity (set_executing (executing s ∖ {[i]}) s); [by apply rows_keep_max|].
  apply update_keeps_max. intros r' _. split; [done|]. by apply inactive_row.
Qed.

Lemma retry_keeps_max re sch s : current sch s → keeps_max s (executeScheduleWithRetry re sch s).2.
Proof.
  intros Hc. unfold executeScheduleWithRetry, mbind, stx_bind. cbn [get_st]. case_bool_decide; [done|].
  unfold modify_st, try_finally. set (s0 := set_executing _ s).
  pose proof (attempts_keep_max re sch maxRetries 0 None s0 Hc) as Ha.
  destruct (attempts re sch maxRetries 0 None s0) as [x s1]. cbn in Ha.
  pose proof (finalize_keeps_max (sid sch) (final_ok re) s1) as Hf.
  destruct (finalize _ _ s1) as [[[]|y] s2]; cbn in Hf; cbn; (etransitivity; [exact Ha|exact Hf]).
Qed.

Lemma run_all_keeps_max envs l s : Forall (λ sch, current sch s) l → keeps_max s (run_all envs l s).
Proof.
  revert s. induction l as [|sch l IH]; intros s Hc; [done|]. apply Forall_cons in Hc as [Hh Ht]. cbn [run_all].
  pose proof (retry_keeps_max (envs (sid sch)) sch s Hh) as Hk. etransitivity; [exact Hk|]. apply IH.
  eapply Forall_impl; [exact Ht|]. intros x. by apply current_keeps.
Qed.

Lemma due_current now s : rows_ok s → Forall (λ sch, current sch s) (due now s).
Proof.
  intros Hok. apply Forall_forall. intros sch ([i r] & Hin & Hs)%list_elem_of_omap.
  apply elem_of_map_to_list in Hin. case_bool_decide as Hact; [|done]. cbn in Hs.
  destruct (_ <=? _); [|done]. destruct (users s !! donorId r), (users s !! recipientId r); try done.
  injection Hs as <-. split_and!; cbn; [by eapply Hok|done|]. by rewrite lookup_fmap, Hin.
Qed.

(** ** Ticks and cancellations *)

Section steps.
Context {L : Type} `{!LeaderElection.Lease L}.

Inductive sched_step : L * st → L * st → Prop :=
| step_tick i now healthy envs l s :
    sched_step (l, s) (processSchedules i now healthy envs l s)
| step_request i q l s : sched_step (l, s) (l, handle i q s).

Lemma tick_keeps_max i now healthy envs (l : L) s :
  rows_ok s → keeps_max s (processSchedules i now healthy envs l s).2.
Proof.
  intros Hok. unfold processSchedules. destruct (isRunning s); [|done]. cbn.
  destruct (LeaderElection.try_lease _ _ _ _ _) as [[] l']; [|done]. destruct healthy; [|done]. cbn.
  apply run_all_keeps_max, Forall_forall. intros sch [_ Hin]%list_elem_of_filter.
  by apply (proj1 (Forall_forall _ _) (due_current now s Hok)).
Qed.

(** Whatever ticks run, on whatever answers of the network and the database, and whatever
    cancellations and pauses arrive, a schedule with a positive maximum is never executed more often, and
    stops being active when it is reached. *)
Theorem executions_bounded (c c' : L * st) : rtc sched_step c c' → rows_ok c.2 → rows_ok c'.2.
Proof.
  intros Hr. refine (preserves_rtc sched_step (λ c, rows_ok c.2) c c' _ Hr).
  intros c1 c2 Hok Hs. revert Hok. destruct Hs; cbn; intros Hok; [by apply (proj2 (tick_keeps_max i now healthy envs l s Hok))|].
  by apply (proj2 (handle_keeps_max i q s)).
Qed.

(** A tick does nothing unless the instance runs, gets the lease and the network is healthy;
    after one instance got the lease no other instance processes a tick for two intervals. *)
Theorem one_instance_processes a b now later healthy healthy' envs envs' (l : L) s s' :
  a ≠ b → now <= later <= now + checkInterval * 2 →
  (processSchedules a now healthy envs l s).2 ≠ s →
  (processSchedules b later healthy' envs' (processSchedules a now healthy envs l s).1 s').2 = s' ∧
  healthy = true ∧ isRunning s = true.
Proof.
  intros Hab Ht. unfold processSchedules at 1 3. destruct (isRunning s); cbn; [|done].
  pose proof (LeaderElection.lease_exclusive (S := L) a b "recurring_donation_scheduler" now (checkInterval * 2)
    later (checkInterval * 2) l Hab Ht) as Hex.
  destruct (LeaderElection.try_lease a _ _ _ l) as [[] l1]; cbn in *; [|done].
  destruct healthy; cbn; [|done]. intros _. split; [|done].
  unfold processSchedules. destruct (isRunning s'); [|done]. cbn.
  specialize (Hex eq_refl). by destruct (LeaderElection.try_lease b _ _ _ l1) as [[] l2].
Qed.

End steps.

(** ** Concrete runs *)

#[local] Existing Instance LeaderElection.table_lease.
Definition no_lease : LeaderElection.table := ∅.

Definition row0 : row :=
  mk_row 1 2 (num_of_Z 5) "daily" 1706702400000 "active" (Some 1) (Some 3) None None (Some 0) None None None None.
Definition s0 : st := mk_st true ∅ ∅ {[ 1 := "GA"%string; 2 := "GB"%string ]} {[ 7 := row0 ]} [] [].
Definition sch0 : schedule := mk_schedule 7 row0 "GA" "GB".
Definition ex_env (during : list request) (pay : outcome jserror string) (insert : outcome jserror unit)
    (after : list request) : env :=
  mk_env 1706702460000 (Ret ()) during pay insert (Ret ()) (Ret ()) after.
Definition good : env := ex_env [] (Ret "h"%string) (Ret ()) [].
Definition cancelled : env := ex_env [CancelStream 1706702460500] (Ret "h"%string) (Ret ()) [].
Definition paused_after : env := ex_env [] (Ret "h"%string) (Ret ()) [Pause 1706702460500].
Definition rejected : env := ex_env [CancelStream 1706702460500] (Throw (EPlain "timed out")) (Ret ()) [].
Definition unrecordable : env := ex_env [] (Ret "h"%string) (Throw (EDb "SQLITE_BUSY")) [].
Definition run_of (e : env) : run_env := mk_run_env (λ _, e) true (Ret ()) true.

Lemma due0 : due 1706702460000 s0 = [sch0].
Proof. vm_compute. reflexivity. Qed.

(** The first submission times out and was carried out all the same: the
    second attempt asks for the payment again, and is recorded. *)
Example unknown_payment_asked_again :
  asked (executeScheduleWithRetry (mk_run_env (λ k, if (k =? 0)%nat then ex_env [] (Throw (EPlain "timed out")) (Ret ()) []
                                                   else good) true (Ret ()) true) sch0 s0).2 =
    [(cycle sch0, false); (cycle sch0, true)].
Proof. vm_compute. reflexivity. Qed.

(** A pause that comes after the update of the row is kept. *)
Example late_pause_kept :
  status <$> rows (executeScheduleWithRetry (run_of paused_after) sch0 s0).2 !! 7 = Some "paused"%string.
Proof. vm_compute. reflexivity. Qed.

(** Executed two minutes ago and due again: it pays again. *)
Example recent_execution_pays :
  asked (executeScheduleWithRetry (run_of good)
    (mk_schedule 7 (advance (1706702460000 - 120000) 1706702400000 sch0 row0) "GA" "GB") s0).2 = [(cycle sch0, true)].
Proof. vm_compute. reflexivity. Qed.

(** The cancellation asked during a successful payment is lost. *)
Lemma execution_advances_witness :
  ∃ r', rows (executeScheduleWithRetry (run_of cancelled) sch0 s0).2 !! 7 = Some r' ∧ status r' = "active"%string ∧
    nextExecutionDate r' = 1706788860000.
Proof.
  pose proof (execution_advances (run_of cancelled) sch0 s0 row0 1706788860000 ltac:(set_solver) ltac:(set_solver)
    eq_refl ltac:(by split) ltac:(vm_compute; reflexivity)) as Hrun.
  destruct (executeScheduleWithRetry _ _ _) as [x s']. destruct Hrun as (_ & _ & _ & _ & r' & H1 & H2 & H3 & _).
  exists r'. split; [exact H1|]. split; [rewrite H2; vm_compute; reflexivity|exact H3].
Defined.

Lemma rejected_payments_witness :
  ∃ r', rows (executeScheduleWithRetry (run_of rejected) sch0 s0).2 !! 7 = Some r' ∧ status r' = "cancelled"%string.
Proof.
  pose proof (rejected_payments (run_of rejected) sch0 s0 row0 ltac:(set_solver) ltac:(set_solver) eq_refl
    ltac:(discriminate) eq_refl eq_refl eq_refl (λ _, conj eq_refl eq_refl)) as Hrun.
  destruct (executeScheduleWithRetry _ _ _) as [x s']. destruct Hrun as (_ & _ & _ & r' & H1 & _ & _ & _ & H5).
  exists r'. split; [exact H1|exact H5].
Defined.

Lemma unrecorded_payments_repeat_witness :
  length (asked (executeScheduleWithRetry (run_of unrecordable) sch0 s0).2) = 3%nat.
Proof.
  pose proof (unrecorded_payments_repeat (run_of unrecordable) sch0 s0 row0 ltac:(set_solver) ltac:(set_solver)
    eq_refl ltac:(discriminate) eq_refl eq_refl eq_refl eq_refl
    (λ _, conj eq_refl (conj eq_refl eq_refl))) as Hrun.
  destruct (executeScheduleWithRetry _ _ _) as [x s']. destruct Hrun as (_ & Hp & _).
  cbn in *. by rewrite Hp.
Defined.

Lemma executions_bounded_witness :
  rows_ok (processSchedules "i1" 1706702460000 true (λ _, run_of good) no_lease s0).2.
Proof.
  refine (executions_bounded (no_lease, s0) _ (rtc_once _ _ (step_tick _ _ _ _ _ _)) _).
  intros i r. cbn. intros [<- <-]%lookup_singleton_Some m [= <-] _. cbn. split; [lia|lia].
Defined.

Lemma one_instance_processes_witness :
  let first := processSchedules "i1" 1706702460000 true (λ _, run_of good) no_lease s0 in
  asked first.2 ≠ [] ∧ (processSchedules "i2" 1706702460500 true (λ _, run_of good) first.1 s0).2 = s0.
Proof.
  cbv zeta. split; [vm_compute; discriminate|].
  refine (proj1 (one_instance_processes "i1" "i2" 1706702460000 1706702460500 true true (λ _, run_of good)
    (λ _, run_of good) no_lease s0 s0 _ _ _)); [discriminate|done|].
  intros He. apply (f_equal asked) in He. vm_compute in He. discriminate.
Defined.

End Scheduler.
