(* ===== verification/SequenceManager.v ===== *)
(** * Sequence numbers ([src/src/utils/sequenceManager.js])

    The per-account lock as a transition system over its calls, the cache of
    sequence numbers, and the retry loop.  Answers of the network, times and
    transaction functions are arguments; the retry delays are left out. *)

From S2P Require Import Prelude JsString.
Local Open Scope Z_scope.

Module SequenceManager.

(** [DEFAULT_CONFIG], less the delays. *)
Definition maxRetries : nat := 5.
Definition cacheTtlMs : Z := 30000.

(** The shapes an error of the SDK may have, and its message. *)
Record err := mk_err {
  response_code : option string;
  extras_code : option string;
  result_code : option string;
  message : option string;
}.

#[export] Instance err_eq_dec : EqDecision err.
Proof. solve_decision. Defined.

Definition or_str (a b : option string) : option string :=
  match a with Some x => if is_empty x then b else a | None => b end.

(** Defined errors only. *)
Definition isSequenceConflict (error : err) : bool :=
  let txCode := default "" (or_str (response_code error) (or_str (extras_code error) (result_code error))) in
  if bool_decide (txCode = "tx_bad_seq") then true
  else
    let msg := to_lower (default "" (message error)) in
    str_includes "tx_bad_seq" msg || str_includes "sequence" msg.

Definition syntax_error : err := mk_err None None None (Some "Cannot convert to a BigInt").

(** ** Cache and retries *)

Record entry := mk_entry { sequenceNumber : string; cachedAt : Z }.
Record st := mk_st {
  sequenceCache : gmap string entry;
  conflicts : Z;
  retries : Z;
  cacheHits : Z;
  cacheMisses : Z;
}.
Definition init : st := mk_st ∅ 0 0 0 0.

Definition M := stx err st.

Definition set_cache (c : gmap string entry) (s : st) : st :=
  mk_st c (conflicts s) (retries s) (cacheHits s) (cacheMisses s).
Definition count_hit (s : st) : st :=
  mk_st (sequenceCache s) (conflicts s) (retries s) (cacheHits s + 1) (cacheMisses s).
Definition count_miss (s : st) : st :=
  mk_st (sequenceCache s) (conflicts s) (retries s) (cacheHits s) (cacheMisses s + 1).
Definition count_conflict (s : st) : st :=
  mk_st (sequenceCache s) (conflicts s + 1) (retries s) (cacheHits s) (cacheMisses s).
Definition count_retry (s : st) : st :=
  mk_st (sequenceCache s) (conflicts s) (retries s + 1) (cacheHits s) (cacheMisses s).

Definition isCacheValid (now : Z) (e : entry) : bool := now - cachedAt e <? cacheTtlMs.

(** [(BigInt(n) + 1n).toString()] *)
Definition next_number (n : string) : outcome err string :=
  match BigInt_of_string n with Some z => Ret (Z_to_string (z + 1)) | None => Throw syntax_error end.

(** An account loaded from Horizon, and the time it arrived. *)
Record account := mk_account { a_sequenceNumber : option string; a_sequence_number : option string; a_at : Z }.

Definition getSequenceNumber (now : Z) (accountId : string) (load : outcome err account) : M string :=
  s ← get_st;
  let fetch : M string :=
    modify_st count_miss;;
    account ← lift_out load;
    let n := default "0" (or_str (a_sequenceNumber account) (or_str (a_sequence_number account) None)) in
    next ← lift_out (next_number n);
    modify_st (λ s, set_cache (<[accountId := mk_entry next (a_at account)]> (sequenceCache s)) s);;
    mret n in
  match sequenceCache s !! accountId with
  | Some cached =>
      if isCacheValid now cached then
        modify_st count_hit;;
        next ← lift_out (next_number (sequenceNumber cached));
        modify_st (λ s, set_cache (<[accountId := mk_entry next now]> (sequenceCache s)) s);;
        mret (sequenceNumber cached)
      else fetch
  | None => fetch
  end.

Definition invalidateCache (accountId : string) (s : st) : st :=
  set_cache (delete accountId (sequenceCache s)) s.
Definition clearCache (accountId : option string) (s : st) : st :=
  match or_str accountId None with
  | Some a => set_cache (delete a (sequenceCache s)) s
  | None => set_cache ∅ s
  end.
Definition resetMetrics (s : st) : st := mk_st (sequenceCache s) 0 0 0 0.

(** The loop of [executeWithRetry]: [remaining] retries are left. *)
Fixpoint retry_loop {A} (accountId : string) (fn : nat → M A) (remaining attempt : nat) : M A := λ s,
  match fn attempt s with
  | (Ret a, s) => (Ret a, s)
  | (Throw e, s) =>
      if negb (isSequenceConflict e) then (Throw e, s)
      else
        match remaining with
        | O => (Throw e, count_conflict s)
        | S remaining =>
            retry_loop accountId fn remaining (S attempt)
              (invalidateCache accountId (count_retry (count_conflict s)))
        end
  end.

Definition executeWithRetry {A} (accountId : string) (fn : nat → M A) : M A :=
  retry_loop accountId fn maxRetries 0.

(** ** The account lock *)

Inductive task_state := Waiting | Running | Settled.
#[export] Instance task_state_eq_dec : EqDecision task_state.
Proof. solve_decision. Defined.

(** A call of [withAccountLock]: the gate it waits for, and whether the
    clean-up behind its own gate has run.  Its gate is its position. *)
Record task := mk_task { t_acc : string; t_prev : option nat; t_state : task_state; t_cleaned : bool }.

Record locks := mk_locks { lockMap : gmap string nat; tasks : list task; lockWaits : Z }.
Definition no_locks : locks := mk_locks ∅ [] 0.

Definition withAccountLock (a : string) (s : locks) : locks :=
  mk_locks (<[a := length (tasks s)]> (lockMap s))
    (tasks s ++ [mk_task a (lockMap s !! a) Waiting false]) (lockWaits s).

Definition settled (s : locks) (g : nat) : bool :=
  match tasks s !! g with Some t => bool_decide (t_state t = Settled) | None => false end.

(** Whether the promise a waiting task queues behind has resolved. *)
Definition can_start (s : locks) (i : nat) : bool :=
  match tasks s !! i with
  | Some t => bool_decide (t_state t = Waiting) &&
              match t_prev t with Some p => settled s p | None => true end
  | None => false
  end.

Definition set_task (i : nat) (t : task) (x : task_state) (c : bool) (s : locks) : list task :=
  <[i := mk_task (t_acc t) (t_prev t) x c]> (tasks s).

(** The function of call [i] starts. *)
Definition start (i : nat) (s : locks) : locks :=
  match tasks s !! i with
  | Some t => if can_start s i
              then mk_locks (lockMap s) (set_task i t Running (t_cleaned t) s)
                     (if bool_decide (lockMap s !! t_acc t ≠ Some i) then lockWaits s + 1 else lockWaits s)
              else s
  | None => s
  end.

(** It resolves or rejects: the gate opens in both cases. *)
Definition settle (i : nat) (s : locks) : locks :=
  match tasks s !! i with
  | Some t => if bool_decide (t_state t = Running)
              then mk_locks (lockMap s) (set_task i t Settled (t_cleaned t) s) (lockWaits s) else s
  | None => s
  end.

(** The [finally] handler of the gate. *)
Definition cleanup (i : nat) (s : locks) : locks :=
  match tasks s !! i with
  | Some t => if bool_decide (t_state t = Settled)
              then mk_locks (if bool_decide (lockMap s !! t_acc t = Some i) then delete (t_acc t) (lockMap s) else lockMap s)
                     (set_task i t Settled true s) (lockWaits s) else s
  | None => s
  end.

Definition activeLockCount (s : locks) : nat := size (lockMap s).

Inductive lock_step (s : locks) : locks → Prop :=
| lk_call a : lock_step s (withAccountLock a s)
| lk_start i : lock_step s (start i s)
| lk_settle i : lock_step s (settle i s)
| lk_cleanup i : lock_step s (cleanup i s).

(** [j] is an earlier call for the account of [t]. *)
Definition earlier_done (s : locks) (a : string) (i : nat) : Prop :=
  ∀ j u, (j < i)%nat → tasks s !! j = Some u → t_acc u = a → t_state u = Settled.
Definition latest_below (s : locks) (a : string) (p i : nat) : Prop :=
  ∀ j u, (j < i)%nat → tasks s !! j = Some u → t_acc u = a → (j <= p)%nat.

Record task_ok (s : locks) (i : nat) (t : task) : Prop := {
  ok_order : t_state t ≠ Waiting → earlier_done s (t_acc t) i;
  ok_prev : match t_prev t with
            | Some p => (p < i)%nat ∧ (∃ u, tasks s !! p = Some u ∧ t_acc u = t_acc t) ∧ latest_below s (t_acc t) p i
            | None => earlier_done s (t_acc t) i
            end;
  ok_clean : t_cleaned t = true → t_state t = Settled;
}.

Record lock_inv (s : locks) : Prop := {
  inv_tasks : ∀ i t, tasks s !! i = Some t → task_ok s i t;
  inv_map : ∀ a, match lockMap s !! a with
                 | Some g => (∃ t, tasks s !! g = Some t ∧ t_acc t = a ∧ t_cleaned t = false) ∧
                             latest_below s a g (length (tasks s))
                 | None => earlier_done s a (length (tasks s))
                 end;
}.

(** The calls only progress: each keeps its account and its predecessor. *)
Definition progresses (s s' : locks) : Prop :=
  length (tasks s') = length (tasks s) ∧
  ∀ j u', tasks s' !! j = Some u' → ∃ u, tasks s !! j = Some u ∧ t_acc u = t_acc u' ∧ t_prev u = t_prev u' ∧
    (t_state u = Settled → t_state u' = Settled).

Lemma progress_earlier s s' a i : progresses s s' → earlier_done s a i → earlier_done s' a i.
Proof.
  intros [_ Hp] He j u' Hj Hu' Ha. destruct (Hp j u' Hu') as (u & Hu & Hacc & _ & Hst).
  apply Hst, (He j u); [done|done|congruence].
Qed.

Lemma progress_latest s s' a p i : progresses s s' → latest_below s a p i → latest_below s' a p i.
Proof.
  intros [_ Hp] Hl j u' Hj Hu' Ha. destruct (Hp j u' Hu') as (u & Hu & Hacc & _).
  apply (Hl j u); [done|done|congruence].
Qed.

Lemma progress_sym_elem s s' j u : progresses s s' → tasks s !! j = Some u →
  ∃ u', tasks s' !! j = Some u' ∧ t_acc u' = t_acc u.
Proof.
  intros [Hlen Hp] Hu. destruct (lookup_lt_is_Some_2 (tasks s') j) as [u' Hu'].
  { rewrite Hlen. by eapply lookup_lt_Some. }
  exists u'. split; [done|]. destruct (Hp j u' Hu') as (u0 & Hu0 & Hacc & _). congruence.
Qed.

(** The [set_task] of a call that progresses. *)
Lemma set_task_progresses s i t x c m w :
  tasks s !! i = Some t → (t_state t = Settled → x = Settled) → progresses s (mk_locks m (set_task i t x c s) w).
Proof.
  intros Ht Hx. split; [by apply length_insert|]. intros j u'. cbn. unfold set_task.
  intros [(-> & <- & _)|[Hne Hu]]%list_lookup_insert_Some; [|by exists u'].
  by exists t.
Qed.

(** One task moves; the map keeps its promises. *)
Lemma lock_inv_set s i t x c m w :
  lock_inv s → tasks s !! i = Some t →
  (t_state t = Settled → x = Settled) →
  (x ≠ Waiting → earlier_done s (t_acc t) i) → (c = true → x = Settled) →
  (∀ a, match m !! a with
        | Some g => lockMap s !! a = Some g ∧ (g = i → c = false)
        | None => lockMap s !! a = None ∨ (lockMap s !! a = Some i ∧ a = t_acc t ∧ x = Settled)
        end) →
  lock_inv (mk_locks m (set_task i t x c s) w).
Proof.
  intros [Htasks Hmap] Ht Hx Horder Hclean Hm. set (s' := mk_locks _ _ _).
  assert (Hp : progresses s s') by (by apply set_task_progresses). destruct (Htasks i t Ht) as [Ho Hpr Hc].
  split.
  - intros j u Hu. assert (Hold : ∃ u0, tasks s !! j = Some u0 ∧ t_acc u0 = t_acc u ∧ t_prev u0 = t_prev u)
      by (destruct (proj2 Hp j u Hu) as (u0 & ? & ? & ? & _); by exists u0).
    destruct Hold as (u0 & Hu0 & Ha & Hv). destruct (Htasks j u0 Hu0) as [Ho0 Hpr0 Hc0].
    rewrite Ha, Hv in *. split.
    + intros Hst. apply (progress_earlier s s'); [done|]. cbn in Hu. unfold set_task in Hu.
      apply list_lookup_insert_Some in Hu as [(-> & <- & _)|[Hne Hu]]; [by apply Horder|].
      rewrite Hu0 in Hu. injection Hu as ->. by apply Ho0.
    + destruct (t_prev u) as [p|]; [|by apply (progress_earlier s s')].
      destruct Hpr0 as (Hlt & (v & Hv' & Hva) & Hlat). split_and!; [done| |by apply (progress_latest s s')].
      destruct (progress_sym_elem s s' p v Hp Hv') as (v' & ? & ?). exists v'. split; [done|congruence].
    + cbn in Hu. unfold set_task in Hu.
      apply list_lookup_insert_Some in Hu as [(-> & <- & _)|[Hne Hu]]; [done|].
      rewrite Hu0 in Hu. injection Hu as ->. done.
  - intros a. specialize (Hm a). specialize (Hmap a). cbn [lockMap s'] in *. rewrite (proj1 Hp).
    destruct (m !! a) as [g|].
    + destruct Hm as [Hm Hg]. rewrite Hm in Hmap. destruct Hmap as [(v & Hv & Hva & Hvc) Hlat].
      split; [|by apply (progress_latest s s')].
      cbn. unfold set_task. destruct (decide (i = g)) as [<-|].
      * rewrite list_lookup_insert_eq by (by eapply lookup_lt_Some). eexists. split; [done|].
        split; [cbn; congruence|by apply Hg].
      * rewrite list_lookup_insert_ne by done. by exists v.
    + destruct Hm as [Hm|(Hm & -> & ->)]; rewrite Hm in Hmap; [by apply (progress_earlier s s')|].
      destruct Hmap as [(v & Hv & Hva & Hvc) Hlat]. intros j u Hj Hu Ha.
      cbn in Hu. unfold set_task in Hu.
      apply list_lookup_insert_Some in Hu as [(-> & <- & _)|[Hne Hu]]; [done|].
      pose proof (Hlat j u Hj Hu Ha). apply (Horder ltac:(done) j u); [lia|done|done].
Qed.

Lemma inv_call a s : lock_inv s → lock_inv (withAccountLock a s).
Proof.
  intros [Htasks Hmap].
  assert (Hold : ∀ j u, tasks (withAccountLock a s) !! j = Some u →
    tasks s !! j = Some u ∨ j = length (tasks s) ∧ u = mk_task a (lockMap s !! a) Waiting false).
  { intros j u. cbn. intros [Hu|[-> <-]]%lookup_snoc_Some; [left|right]; naive_solver. }
  assert (He : ∀ b i, (i <= length (tasks s))%nat → earlier_done s b i → earlier_done (withAccountLock a s) b i).
  { intros b i Hi H j u Hj Hu Hb. destruct (Hold j u Hu) as [Hu'|[-> _]]; [by eapply H|lia]. }
  assert (Hl : ∀ b p i, (i <= length (tasks s))%nat → latest_below s b p i → latest_below (withAccountLock a s) b p i).
  { intros b p i Hi H j u Hj Hu Hb. destruct (Hold j u Hu) as [Hu'|[-> _]]; [by eapply H|lia]. }
  assert (Hin : ∀ j u, tasks s !! j = Some u → tasks (withAccountLock a s) !! j = Some u).
  { intros j u Hu. cbn. by apply lookup_app_l_Some. }
  split.
  - intros i t Ht. destruct (Hold i t Ht) as [Ht'|[-> ->]].
    + pose proof (lookup_lt_Some _ _ _ Ht'). destruct (Htasks i t Ht') as [Ho Hp Hc]. split; [|destruct (t_prev t) as [p|]|done].
      * intros Hst. apply He; [lia|]. by apply Ho.
      * destruct Hp as (Hlt & (v & Hv & Hva) & Hlat). split_and!; [done|exists v; auto|]. apply Hl; [lia|done].
      * apply He; [lia|done].
    + cbn. specialize (Hmap a). split; cbn; [done| |done]. destruct (lockMap s !! a) as [g|]; [|by apply He].
      destruct Hmap as [(v & Hv & Hva & _) Hlat]. split_and!; [by eapply lookup_lt_Some|exists v; split; [by apply lookup_app_l_Some|done]|by apply Hl].
  - intros b. cbn [lockMap withAccountLock]. destruct (decide (a = b)) as [<-|Hne].
    + rewrite lookup_insert_eq. split; [|intros j u Hj _ _; cbn in Hj; rewrite length_app in Hj; cbn in Hj; lia].
      exists (mk_task a (lockMap s !! a) Waiting false). cbn. split; [|done]. by apply list_lookup_middle.
    + rewrite lookup_insert_ne by done. specialize (Hmap b).
      assert (Hlast : ∀ j u, (j < length (tasks (withAccountLock a s)))%nat →
        tasks (withAccountLock a s) !! j = Some u → t_acc u = b → tasks s !! j = Some u ∧ (j < length (tasks s))%nat).
      { intros j u _ Hu Hb. destruct (Hold j u Hu) as [Hu'|[_ ->]]; [|done].
        split; [done|]. by eapply lookup_lt_Some. }
      destruct (lockMap s !! b) as [g|].
      * destruct Hmap as [(v & Hv & Hva & Hvc) Hlat]. split; [exists v; auto|].
        intros j u Hj Hu Hb. destruct (Hlast j u Hj Hu Hb). by eapply Hlat.
      * intros j u Hj Hu Hb. destruct (Hlast j u Hj Hu Hb). by eapply Hmap.
Qed.

Lemma can_start_spec s i t :
  lock_inv s → tasks s !! i = Some t → can_start s i = true →
  t_state t = Waiting ∧ earlier_done s (t_acc t) i.
Proof.
  intros Hi Ht. unfold can_start. rewrite Ht. intros [Hw%bool_decide_eq_true Hp]%andb_true_iff.
  split; [done|]. pose proof (ok_prev _ _ _ (inv_tasks s Hi i t Ht)) as Hprev.
  destruct (t_prev t) as [p|]; [|done]. destruct Hprev as (Hlt & (v & Hv & Hva) & Hlat).
  unfold settled in Hp. rewrite Hv in Hp. apply bool_decide_eq_true in Hp.
  pose proof (ok_order _ _ _ (inv_tasks s Hi p v Hv)) as Ho. rewrite Hp, Hva in Ho. specialize (Ho ltac:(done)).
  intros j u Hj Hu Ha. pose proof (Hlat j u Hj Hu Ha).
  destruct (decide (j = p)) as [->|]; [congruence|]. apply (Ho j u); [lia|done|done].
Qed.

Lemma map_unchanged s i t c :
  lock_inv s → tasks s !! i = Some t → (t_cleaned t = false → c = false) →
  ∀ a x, match lockMap s !! a with
       | Some g => lockMap s !! a = Some g ∧ (g = i → c = false)
       | None => lockMap s !! a = None ∨ (lockMap s !! a = Some i ∧ a = t_acc t ∧ x = Settled)
       end.
Proof.
  intros Hi Ht Hc a x. pose proof (inv_map s Hi a) as Hm. destruct (lockMap s !! a) as [g|] eqn:Hg; [|by left].
  split; [done|]. intros ->. destruct Hm as [(v & Hv & _ & Hvc) _]. apply Hc. congruence.
Qed.

Lemma lock_step_inv : preserves lock_step lock_inv.
Proof.
  intros s s' Hi [a|i|i|i]; [by apply inv_call|..].
  - unfold start. destruct (tasks s !! i) as [t|] eqn:Ht; [|done]. destruct (can_start s i) eqn:Hs; [|done].
    destruct (can_start_spec s i t Hi Ht Hs) as [Hw He].
    pose proof (ok_clean _ _ _ (inv_tasks s Hi i t Ht)) as Hc.
    apply lock_inv_set; [done|done|congruence|done|intros Hx; specialize (Hc Hx); congruence|].
    intros a. by apply map_unchanged.
  - unfold settle. destruct (tasks s !! i) as [t|] eqn:Ht; [|done]. case_bool_decide as Hs; [|done].
    destruct (inv_tasks s Hi i t Ht) as [Ho _ _].
    apply lock_inv_set; [done|done|done|intros _; apply Ho; congruence|done|].
    intros a. by apply map_unchanged.
  - unfold cleanup. destruct (tasks s !! i) as [t|] eqn:Ht; [|done]. case_bool_decide as Hs; [|done].
    destruct (inv_tasks s Hi i t Ht) as [Ho _ _].
    apply lock_inv_set; [done|done|done|intros _; apply Ho; congruence|done|].
    intros a. pose proof (inv_map s Hi) as Hm. case_bool_decide as Hb.
    + destruct (decide (t_acc t = a)) as [<-|Hne].
      * rewrite lookup_delete_eq. right. by split_and!.
      * rewrite lookup_delete_ne by done. specialize (Hm a). destruct (lockMap s !! a) as [g|] eqn:Hg; [|by left].
        split; [done|]. intros ->. destruct Hm as [(v & Hv & Hva & _) _]. congruence.
    + specialize (Hm a). destruct (lockMap s !! a) as [g|] eqn:Hg; [|by left].
      split; [done|]. intros ->. destruct Hm as [(v & Hv & Hva & _) _]. replace v with t in Hva by congruence. congruence.
Qed.

Lemma no_locks_inv : lock_inv no_locks.
Proof. split; [done|]. intros a. cbn. rewrite lookup_empty. by intros j u _ Hu. Qed.

(** ** Properties *)

(** Whatever calls arrive and however their start, end and clean-up interleave, at most one
    function per account runs at a time, functions run in the order of the calls, no call that
    waits is stuck behind nothing (a call for its account is running or can start), and once all
    calls are cleaned up no lock is left. *)
Theorem account_lock_correct s :
  rtc lock_step no_locks s →
  (∀ i j t u, tasks s !! i = Some t → tasks s !! j = Some u → t_acc t = t_acc u →
     t_state t = Running → t_state u = Running → i = j) ∧
  (∀ i j t u, tasks s !! i = Some t → tasks s !! j = Some u → t_acc t = t_acc u → (j < i)%nat →
     t_state t ≠ Waiting → t_state u = Settled) ∧
  (∀ i t, tasks s !! i = Some t → t_state t = Waiting →
     ∃ j u, (j <= i)%nat ∧ tasks s !! j = Some u ∧ t_acc u = t_acc t ∧
       (t_state u = Running ∨ can_start s j = true)) ∧
  (Forall (λ t, t_cleaned t = true) (tasks s) → activeLockCount s = O).
Proof.
  intros Hr. pose proof (preserves_rtc _ _ _ _ lock_step_inv Hr no_locks_inv) as Hi.
  assert (Hfifo : ∀ i j t u, tasks s !! i = Some t → tasks s !! j = Some u → t_acc t = t_acc u → (j < i)%nat →
     t_state t ≠ Waiting → t_state u = Settled).
  { intros i j t u Ht Hu Ha Hj Hw. by apply (ok_order _ _ _ (inv_tasks s Hi i t Ht) Hw j u). }
  split_and!; [|exact Hfifo| |].
  - intros i j t u Ht Hu Ha Hti Htj. destruct (Nat.lt_trichotomy i j) as [Hl|[Hl|Hl]]; [|done|].
    + pose proof (Hfifo j i u t Hu Ht ltac:(done) Hl). rewrite Hti, Htj in *. naive_solver.
    + pose proof (Hfifo i j t u Ht Hu Ha Hl). rewrite Hti, Htj in *. naive_solver.
  - intros i. induction (lt_wf i) as [i _ IH]. intros t Ht Hw.
    pose proof (ok_prev _ _ _ (inv_tasks s Hi i t Ht)) as Hp.
    destruct (t_prev t) as [p|] eqn:Hpr.
    + destruct Hp as (Hlt & (u & Hu & Hua) & _). destruct (t_state u) eqn:Hs.
      * destruct (IH p Hlt u Hu Hs) as (j & v & Hj & Hv & Hva & Hor). exists j, v.
        split_and!; [lia|done|congruence|done].
      * exists p, u. split_and!; [lia|done|done|by left].
      * exists i, t. split_and!; [lia|done|done|right]. unfold can_start, settled. rewrite Ht, Hpr, Hu, Hw, Hs. done.
    + exists i, t. split_and!; [lia|done|done|right]. unfold can_start. rewrite Ht, Hpr, Hw. done.
  - intros Hall. unfold activeLockCount. apply map_size_empty_iff, map_eq. intros a. rewrite lookup_empty.
    pose proof (inv_map s Hi a) as Hm. destruct (lockMap s !! a) as [g|]; [|done].
    destruct Hm as [(t & Ht & _ & Hc) _]. rewrite Forall_lookup in Hall. specialize (Hall g t Ht). congruence.
Qed.

(** Two calls for one account and one for another; the second waits. *)
Definition busy : locks := start 2 (withAccountLock "B" (withAccountLock "A" (start 0 (withAccountLock "A" no_locks)))).

Lemma account_lock_correct_witness :
  can_start busy 1 = false ∧ ∃ j u, (j <= 1)%nat ∧ tasks busy !! j = Some u ∧ t_acc u = "A"%string ∧
    (t_state u = Running ∨ can_start busy j = true).
Proof.
  split; [vm_compute; reflexivity|].
  refine (proj1 (proj2 (proj2 (account_lock_correct busy _))) 1%nat (mk_task "A" (Some 0%nat) Waiting false) _ _);
    [|vm_compute; reflexivity|reflexivity].
  eapply rtc_l; [exact (lk_call _ "A")|]. eapply rtc_l; [exact (lk_start _ 0)|].
  eapply rtc_l; [exact (lk_call _ "A")|]. eapply rtc_l; [exact (lk_call _ "B")|].
  eapply rtc_l; [exact (lk_start _ 2)|]. apply rtc_refl.
Defined.

(** [lockWaits] counts the calls that find another one behind them when they
    start, not those that waited: here the second call waited and is not
    counted. *)
Example lock_waits_miss :
  let s := start 0 (withAccountLock "A" no_locks) in
  lockWaits (start 1 (settle 0 (withAccountLock "A" s))) = 0.
Proof. vm_compute. reflexivity. Qed.

(** ** Numbers *)

(** Calls at the given times, each with Horizon's answer. *)
Fixpoint get_all (a : string) (calls : list (Z * outcome err account)) : M (list string) :=
  match calls with
  | [] => mret []
  | (now, load) :: calls =>
      n ← getSequenceNumber now a load;
      ns ← get_all a calls;
      mret (n :: ns)
  end.

(** Each time is less than the time to live after the one before. *)
Fixpoint frequent (last : Z) (calls : list (Z * outcome err account)) : Prop :=
  match calls with
  | [] => True
  | (now, _) :: calls => now - last < cacheTtlMs ∧ frequent now calls
  end.

(** [k] numbers from [n] on. *)
Fixpoint numbers (n : Z) (k : nat) : list string :=
  match k with O => [] | S k => Z_to_string n :: numbers (n + 1) k end.

Lemma next_number_Z z : 0 <= z → next_number (Z_to_string z) = Ret (Z_to_string (z + 1)).
Proof.
  intros Hz. unfold next_number, Z_to_string. destruct (Z.ltb_spec z 0); [lia|].
  by rewrite BigInt_of_nat_to_string.
Qed.

Lemma cached_number now a load s n t :
  sequenceCache s !! a = Some (mk_entry (Z_to_string n) t) → 0 <= n → now - t < cacheTtlMs →
  ∃ s', getSequenceNumber now a load s = (Ret (Z_to_string n), s') ∧
    sequenceCache s' = <[a := mk_entry (Z_to_string (n + 1)) now]> (sequenceCache s) ∧
    cacheMisses s' = cacheMisses s.
Proof.
  intros Hc Hn Ht. unfold getSequenceNumber, mbind, stx_bind. cbn [get_st]. rewrite Hc.
  unfold isCacheValid. cbn [cachedAt sequenceNumber]. destruct (Z.ltb_spec (now - t) cacheTtlMs); [|lia].
  unfold lift_out, modify_st. rewrite next_number_Z by done. by eexists.
Qed.

(** Calls that each come less than the time to live after the one before are served from the
    cache, without asking Horizon, with consecutive numbers, all different; the cache then holds
    the number after the last. *)
Theorem consecutive_numbers a calls n t s :
  sequenceCache s !! a = Some (mk_entry (Z_to_string n) t) → 0 <= n → frequent t calls →
  let '(x, s') := get_all a calls s in
  x = Ret (numbers n (length calls)) ∧ NoDup (numbers n (length calls)) ∧
  cacheMisses s' = cacheMisses s ∧
  ∃ t', sequenceCache s' !! a = Some (mk_entry (Z_to_string (n + Z.of_nat (length calls))) t').
Proof.
  assert (Hin : ∀ k n x, 0 <= n → x ∈ numbers n k → ∃ m, n <= m ∧ x = Z_to_string m).
  { induction k as [|k IH]; cbn; intros m x Hm Hx; [by apply elem_of_nil in Hx|].
    apply elem_of_cons in Hx as [->|Hx]; [by exists m|]. destruct (IH (m + 1) x ltac:(lia) Hx) as (p & ? & ?).
    exists p. split; [lia|done]. }
  revert n t s. induction calls as [|[now load] calls IH]; intros n t s Hc Hn Hf.
  - cbn. split_and!; [done|constructor|done|]. exists t. by rewrite Z.add_0_r.
  - destruct Hf as [Ht Hf]. cbn [get_all]. unfold mbind, stx_bind.
    destruct (cached_number now a load s n t Hc Hn Ht) as (s1 & -> & Hc1 & Hm1).
    specialize (IH (n + 1) now s1). rewrite Hc1, lookup_insert_eq in IH. specialize (IH eq_refl ltac:(lia) Hf).
    destruct (get_all a calls s1) as [x s2]. destruct IH as (-> & Hnd & Hm2 & t' & Ht').
    cbn [length numbers]. split_and!; [done| |congruence|].
    + constructor; [|done]. intros Hx. destruct (Hin _ (n + 1) _ ltac:(lia) Hx) as (m & Hle & He).
      unfold Z_to_string in He. destruct (Z.ltb_spec n 0), (Z.ltb_spec m 0); try lia.
      apply nat_to_string_inj in He; lia.
    + exists t'. rewrite Ht'. do 2 f_equal. f_equal. lia.
Qed.

Definition cached7 : st := set_cache {[ "A" := mk_entry "7" 1000 ]} init.
Definition down : outcome err account := Throw (mk_err None None None (Some "horizon down")).

Lemma consecutive_numbers_witness :
  (get_all "A" [(2000, down); (31000, down); (60000, down)] cached7).1 = Ret ["7"; "8"; "9"]%string.
Proof.
  pose proof (consecutive_numbers "A" [(2000, down); (31000, down); (60000, down)] 7 1000 cached7
    ltac:(vm_compute; reflexivity) ltac:(lia) ltac:(repeat split)) as H.
  destruct (get_all _ _ _) as [x s']. exact (proj1 H).
Defined.

(** ** Retries *)

Section retries.
Context {A : Type} (accountId : string) (o : nat → outcome err A).

(** A transaction function that only answers. *)
Definition answers (k : nat) : M A := lift_out (o k).
Definition conflicting (k : nat) : Prop := ∃ e, o k = Throw e ∧ isSequenceConflict e = true.

Lemma retry_conflicts n : ∀ remaining attempt s,
  (n <= remaining)%nat → (∀ j, (attempt <= j < attempt + n)%nat → conflicting j) →
  ∃ s', retry_loop accountId answers remaining attempt s =
        retry_loop accountId answers (remaining - n) (attempt + n) s' ∧
    conflicts s' = conflicts s + Z.of_nat n ∧ retries s' = retries s + Z.of_nat n.
Proof.
  induction n as [|n IH]; intros remaining attempt s Hn Hc.
  { exists s. rewrite Nat.sub_0_r, Nat.add_0_r, !Z.add_0_r. done. }
  destruct remaining as [|remaining]; [lia|]. destruct (Hc attempt ltac:(lia)) as (e & He & Hce).
  cbn [retry_loop]. unfold answers at 1, lift_out. rewrite He, Hce. cbn [negb].
  set (s1 := invalidateCache _ _).
  destruct (IH remaining (S attempt) s1 ltac:(lia)) as (s' & -> & H1 & H2); [intros j Hj; apply Hc; lia|].
  exists s'. rewrite Nat.sub_succ, Nat.add_succ_r. split; [done|]. cbn in H1, H2. lia.
Qed.

(** The transaction function is tried until it answers with anything but a sequence conflict,
    and at most six times: after k conflicts its success is returned and its other errors are
    passed on, with k conflicts and k retries counted; six conflicts in a row pass on the last. *)
Theorem retry_outcome s :
  (∀ k, (k <= maxRetries)%nat → (∀ j, (j < k)%nat → conflicting j) → ¬ conflicting k →
     let '(x, s') := executeWithRetry accountId answers s in
     x = o k ∧ conflicts s' = conflicts s + Z.of_nat k ∧ retries s' = retries s + Z.of_nat k) ∧
  ((∀ j, (j <= maxRetries)%nat → conflicting j) →
     let '(x, s') := executeWithRetry accountId answers s in
     x = o maxRetries ∧ conflicts s' = conflicts s + Z.of_nat (S maxRetries) ∧
     retries s' = retries s + Z.of_nat maxRetries).
Proof.
  unfold executeWithRetry. split.
  - intros k Hk Hc Hn. destruct (retry_conflicts k maxRetries 0 s Hk) as (s' & -> & H1 & H2).
    { intros j Hj. apply Hc. lia. }
    rewrite Nat.add_0_l. destruct (maxRetries - k)%nat; cbn [retry_loop]; unfold answers at 1, lift_out;
      (destruct (o k) as [a|e] eqn:He; [done|]);
      (destruct (isSequenceConflict e) eqn:Hce; [destruct Hn; by exists e|done]).
  - intros Hc. destruct (retry_conflicts maxRetries maxRetries 0 s (le_n _)) as (s' & -> & H1 & H2).
    { intros j Hj. apply Hc. lia. }
    rewrite Nat.sub_diag, Nat.add_0_l. cbn [retry_loop]. unfold answers, lift_out.
    destruct (Hc maxRetries (le_n _)) as (e & He & Hce). rewrite He, Hce. cbn [negb].
    split_and!; [done|cbn; lia|cbn; lia].
Qed.

End retries.

(** A transaction that asks for a number and is accepted by a network that
    expects [v]. *)
Definition submit (a : string) (v now : Z) (_ : nat) : M string :=
  n ← getSequenceNumber now a (Ret (mk_account (Some (Z_to_string v)) None now));
  if bool_decide (n = Z_to_string v) then mret n
  else throw (mk_err (Some "tx_bad_seq") None None None).

(** A wrong number in the cache costs one conflict at most: the cache is invalidated, the
    next attempt fetches the number the network expects and is accepted. *)
Theorem stale_cache_heals a v now s :
  0 <= v → (∀ e, sequenceCache s !! a = Some e → is_Some (BigInt_of_string (sequenceNumber e))) →
  let '(x, s') := executeWithRetry a (submit a v now) s in
  x = Ret (Z_to_string v) ∧ sequenceCache s' !! a = Some (mk_entry (Z_to_string (v + 1)) now) ∧
  conflicts s <= conflicts s' <= conflicts s + 1.
Proof.
  intros Hv Hok.
  assert (Hne : is_empty (Z_to_string v) = false).
  { unfold Z_to_string. destruct (Z.ltb_spec v 0); [lia|].
    destruct (nat_to_string v) eqn:He; [by apply nat_to_string_nonempty in He|done]. }
  (* Without a cached number the first attempt is accepted. *)
  assert (Hfetch : ∀ k s, sequenceCache s !! a = None → ∃ s', submit a v now k s = (Ret (Z_to_string v), s') ∧
    sequenceCache s' !! a = Some (mk_entry (Z_to_string (v + 1)) now) ∧ conflicts s' = conflicts s).
  { intros k s0 Hs0. unfold submit, getSequenceNumber, mbind, stx_bind. cbn [get_st]. rewrite Hs0.
    unfold modify_st, lift_out. cbn [a_sequenceNumber a_sequence_number or_str]. rewrite Hne. cbn [default from_option id].
    rewrite next_number_Z by done. unfold mret, stx_ret. rewrite bool_decide_true by done. eexists. split; [done|]. cbn.
    by rewrite lookup_insert_eq. }
  unfold executeWithRetry, maxRetries. cbn [retry_loop].
  destruct (sequenceCache s !! a) as [e|] eqn:Hc.
  2:{ destruct (Hfetch 0%nat s Hc) as (s' & -> & H1 & H2). split_and!; [done|done|lia|lia]. }
  destruct (Hok e eq_refl) as [z Hz].
  assert (Hcase : ∃ s1, conflicts s1 = conflicts s ∧
    (submit a v now 0 s = (Throw (mk_err (Some "tx_bad_seq") None None None), s1) ∨
     submit a v now 0 s = (Ret (Z_to_string v), s1) ∧
     sequenceCache s1 !! a = Some (mk_entry (Z_to_string (v + 1)) now))).
  { unfold submit, getSequenceNumber, mbind, stx_bind. cbn [get_st]. rewrite Hc.
    unfold modify_st, lift_out. destruct (isCacheValid now e).
    - unfold next_number. rewrite Hz. cbn. case_bool_decide as He; [|eexists; split; [|by left]; done].
      eexists. split; [|right; split; [by rewrite He|]]; [done|]. cbn. rewrite lookup_insert_eq.
      assert (Hb : next_number (sequenceNumber e) = Ret (Z_to_string (v + 1))) by (rewrite He; by apply next_number_Z).
      unfold next_number in Hb. rewrite Hz in Hb. congruence.
    - cbn [a_sequenceNumber a_sequence_number or_str]. rewrite Hne. cbn [default from_option id].
      rewrite next_number_Z by done. unfold mret, stx_ret. rewrite bool_decide_true by done.
      eexists. split; [|right; split; [done|]]; [done|]. cbn. by rewrite lookup_insert_eq. }
  destruct Hcase as (s1 & Hcs & [->|[-> Hs1]]); [|split_and!; [done|done|lia|lia]].
  rewrite (eq_refl : isSequenceConflict (mk_err (Some "tx_bad_seq") None None None) = true). cbn [negb].
  destruct (Hfetch 1%nat (invalidateCache a (count_retry (count_conflict s1)))) as (s' & -> & H1 & H2).
  { cbn. by rewrite lookup_delete_eq. }
  cbn in H2. split_and!; [done|done|lia|lia].
Qed.

Lemma stale_cache_heals_witness : (executeWithRetry "A" (submit "A" 12 2000) cached7).1 = Ret "12"%string.
Proof.
  pose proof (stale_cache_heals "A" 12 2000 cached7 ltac:(lia)) as H.
  destruct (executeWithRetry _ _ _) as [x s']. refine (proj1 (H _)).
  intros e He. assert (He' : Some e = Some (mk_entry "7" 1000)) by (rewrite <- He; vm_compute; reflexivity).
  injection He' as ->. vm_compute. by eexists.
Defined.

End SequenceManager.
