(* ===== verification/SequenceAllocation.v ===== *)
(** * Sequence numbers of several instances
      ([src/src/services/SequenceManager.js])

    The tables [sequence_allocations] and [sequence_locks], shared by the
    instances of the service, and the methods of the manager.  [reserve] runs
    over several turns of the event loop, one statement in each, and the
    statements of other calls and of other instances come between them; every
    other method changes the tables in one statement.  The time of a turn and
    the answers of Horizon are arguments; a statement fails only by its
    UNIQUE constraint. *)

From S2P Require Import Prelude JsString JsNumber Errors.
Local Open Scope Z_scope.

Module SequenceAllocation.
Import Errors.

(** ** Tables and instances *)

Inductive alloc_state := Reserved | Committed | Released.
#[export] Instance alloc_state_eq_dec : EqDecision alloc_state.
Proof. solve_decision. Defined.

Record row := mk_row {
  account_address : string;
  sequence_number : string;
  state : alloc_state;
  instance_id : string;
  reserved_at : Z;
  committed_at : option Z;
  released_at : option Z;
  transaction_hash : option string;
  error_reason : option string;
}.

Record lock := mk_lock { locked_by : string; locked_at : Z; expires_at : Z }.

(** [account_address] is UNIQUE in [sequence_locks]. *)
Record db := mk_db { allocations : list row; locks : gmap string lock }.
Definition empty_db : db := mk_db [] ∅.

Definition set_allocations (l : list row) (d : db) : db := mk_db l (locks d).
Definition set_locks (l : gmap string lock) (d : db) : db := mk_db (allocations d) l.

Record inst := mk_inst {
  instanceId : string;
  cache : gmap string string;
  m_reserved : Z;
  m_committed : Z;
  m_released : Z;
  gaps_detected : Z;
}.

Definition lockTimeoutMs : Z := 30000.
Definition reservationExpiryMs : Z := 300000.

(** The UNIQUE(account_address, sequence_number) key of a row. *)
Definition pair_of (r : row) : string * string := (account_address r, sequence_number r).
Definition pairs (d : db) : list (string * string) := pair_of <$> allocations d.

(** An UPDATE with its WHERE: the number of changes, and the table. *)
Definition update_where (p : row → bool) (f : row → row) (l : list row) : nat * list row :=
  (length (filter (λ r, p r = true) l), (λ r, if p r then f r else r) <$> l).

(** ** reserve *)

Inductive phase :=
| PLock                                  (* before INSERT INTO sequence_locks *)
| PRead (now : Z)                        (* before SELECT expires_at *)
| PSteal (now : Z)                       (* before UPDATE sequence_locks *)
| PFetch                                 (* before the current number is read *)
| PInsert (next : string)                (* before INSERT INTO sequence_allocations *)
| PFree (r : outcome jserror string)     (* finally: before DELETE FROM sequence_locks *)
| PDone (r : outcome jserror string).

(** ORDER BY sequence_number DESC on a TEXT column. *)
Definition text_larger (m : option string) (s : string) : option string :=
  match m with
  | None => Some s
  | Some x => if str_ltb x s then Some s else Some x
  end.
Definition text_max (l : list string) : option string := foldl text_larger None l.

Definition committed_of (a : string) (r : row) : bool :=
  bool_decide (account_address r = a) && bool_decide (state r = Committed).

Definition _getLastCommittedSequence (a : string) (d : db) : string :=
  default "0" (text_max (sequence_number <$> filter (λ r, committed_of a r = true) (allocations d))).

(** [this.cache.get(accountAddress) || '0'] *)
Definition cached (a : string) (i : inst) : string :=
  match cache i !! a with Some s => if is_empty s then "0" else s | None => "0" end.

(** [horizon] is the answer when the call was given a client: [None] a failure. *)
Definition current_sequence (a : string) (client : bool) (horizon : option string) (i : inst) (d : db) : string :=
  if client then default (cached a i) horizon else _getLastCommittedSequence a d.

Definition taken (a n : string) (d : db) : bool := bool_decide ((a, n) ∈ pairs d).

Definition could_not (a : string) : jserror := EPlain ("Could not acquire lock for account " +:+ a).

Definition reserve_step (now : Z) (horizon : option string) (a : string) (client : bool)
  (p : phase) (i : inst) (d : db) : phase * inst * db :=
  match p with
  | PLock =>
      match locks d !! a with
      | None => (PFetch, i, set_locks (<[a := mk_lock (instanceId i) now (now + lockTimeoutMs)]> (locks d)) d)
      | Some _ => (PRead now, i, d)
      end
  | PRead now0 =>
      match locks d !! a with
      | Some l => if expires_at l >? now0 then (PDone (Throw (could_not a)), i, d) else (PSteal now0, i, d)
      | None => (PSteal now0, i, d)
      end
  | PSteal now0 =>
      (PFetch, i, set_locks (alter (λ _, mk_lock (instanceId i) now0 (now0 + lockTimeoutMs)) a (locks d)) d)
  | PFetch =>
      match BigInt_of_string (current_sequence a client horizon i d) with
      | Some z => (PInsert (Z_to_string (z + 1)), i, d)
      | None => (PFree (Throw ESyntax), i, d)
      end
  | PInsert next =>
      if taken a next d then (PFree (Throw EUnique), i, d)
      else (PFree (Ret next),
            mk_inst (instanceId i) (cache i) (m_reserved i + 1) (m_committed i) (m_released i) (gaps_detected i),
            set_allocations (allocations d ++ [mk_row a next Reserved (instanceId i) now None None None None]) d)
  | PFree r => (PDone r, i, set_locks (delete a (locks d)) d)
  | PDone r => (PDone r, i, d)
  end.

(** A call nothing comes between, at one instant: six statements at most. *)
Fixpoint reserve_run (fuel : nat) (now : Z) (horizon : option string) (a : string) (client : bool)
  (p : phase) (i : inst) (d : db) : phase * inst * db :=
  match fuel with
  | O => (p, i, d)
  | S fuel => let '(p, i, d) := reserve_step now horizon a client p i d in
              reserve_run fuel now horizon a client p i d
  end.
Definition reserve (now : Z) (horizon : option string) (a : string) (client : bool) (i : inst) (d : db)
  : phase * inst * db := reserve_run 6 now horizon a client PLock i d.

Definition reservationId (a n inst_id : string) : string := a +:+ ":" +:+ n +:+ ":" +:+ inst_id.

(** ** commit, release, reconcile, cleanupExpiredReservations *)

(** [const [accountAddress, sequence] = reservationId.split(':')]: without a
    second part the parameter is NULL, and no row matches. *)
Definition parse_id (rid : string) : string * option string :=
  let parts := split_on (char_of_code 58) rid in (default "" (parts !! 0%nat), parts !! 1%nat).

Definition reserved_row (a : string) (n : option string) (r : row) : bool :=
  bool_decide (account_address r = a) && bool_decide (Some (sequence_number r) = n) &&
  bool_decide (state r = Reserved).

Definition set_committed (now : Z) (hash : option string) (r : row) : row :=
  mk_row (account_address r) (sequence_number r) Committed (instance_id r) (reserved_at r)
         (Some now) (released_at r) hash (error_reason r).
Definition set_released (now : Z) (reason : option string) (r : row) : row :=
  mk_row (account_address r) (sequence_number r) Released (instance_id r) (reserved_at r)
         (committed_at r) (Some now) (transaction_hash r) reason.

Definition not_found (rid : string) : jserror :=
  EPlain ("Reservation not found or already processed: " +:+ rid).

Definition commit (now : Z) (rid : string) (hash : option string) (i : inst) (d : db)
  : outcome jserror unit * inst * db :=
  let '(a, n) := parse_id rid in
  let '(changes, l) := update_where (reserved_row a n) (set_committed now hash) (allocations d) in
  if (changes =? 0)%nat then (Throw (not_found rid), i, d)
  else (Ret (),
        mk_inst (instanceId i) (<[a := default "" n]> (cache i)) (m_reserved i) (m_committed i + 1)
                (m_released i) (gaps_detected i),
        set_allocations l d).

Definition release (now : Z) (rid : string) (reason : option string) (i : inst) (d : db) : inst * db :=
  let '(a, n) := parse_id rid in
  let '(_, l) := update_where (reserved_row a n) (set_released now reason) (allocations d) in
  (mk_inst (instanceId i) (cache i) (m_reserved i) (m_committed i) (m_released i + 1) (gaps_detected i),
   set_allocations l d).

Definition abandoned (before : Z) (a : string) (r : row) : bool :=
  bool_decide (account_address r = a) && bool_decide (state r = Released) &&
  match released_at r with Some t => t <? before | None => false end.

(** The result of [reconcile]: a gap, and how many numbers were recovered. *)
Record reconciled := mk_reconciled { gap_detected : bool; recovered : num }.

Definition fetch_error : jserror := EPlain "Failed to fetch from Horizon".

Definition reconcile (now : Z) (a : string) (horizon : option string) (i : inst) (d : db)
  : outcome jserror reconciled * inst * db :=
  match horizon with
  | None => (Throw fetch_error, i, d)
  | Some onChain =>
      match BigInt_of_string onChain, BigInt_of_string (cached a i) with
      | Some onChainBig, Some committedBig =>
          if onChainBig >? committedBig + 1 then
            (Ret (mk_reconciled true (num_of_Z (onChainBig - committedBig - 1))),
             mk_inst (instanceId i) (<[a := onChain]> (cache i)) (m_reserved i) (m_committed i)
                     (m_released i) (gaps_detected i + 1), d)
          else
            let gone := filter (λ r, abandoned (now - reservationExpiryMs) a r = true) (allocations d) in
            (Ret (mk_reconciled false (num_of_Z (Z.of_nat (length gone)))), i,
             set_allocations (filter (λ r, abandoned (now - reservationExpiryMs) a r = false) (allocations d)) d)
      | _, _ => (Throw ESyntax, i, d)
      end
  end.

Definition expired_reservation (before : Z) (r : row) : bool :=
  bool_decide (state r = Reserved) && (reserved_at r <? before).

Definition cleanupExpiredReservations (now : Z) (d : db) : nat * db :=
  let '(n, l) := update_where (expired_reservation (now - reservationExpiryMs))
                   (λ r, set_released now (error_reason r) r) (allocations d) in
  (n, set_allocations l d).

Definition getMetrics (i : inst) : Z * Z * Z * Z := (m_reserved i, m_committed i, m_released i, gaps_detected i).

(** ** Several instances *)

Record call := mk_call { c_inst : nat; c_account : string; c_client : bool; c_phase : phase }.

(** Next to the tables, the instances and the calls of [reserve], what
    happened: the numbers granted by an INSERT, the numbers whose row a
    reconciliation deleted, the commits that succeeded, and the accounts whose
    lock a call took over. *)
Record sys := mk_sys {
  s_db : db;
  insts : list inst;
  calls : list call;
  grants : list (string * string);
  freed : list (string * string);
  commits : list (string * string);
  takeovers : list string;
}.
Definition init (is_ : list inst) : sys := mk_sys empty_db is_ [] [] [] [] [].

Definition granted_by (c : call) (p : phase) : list (string * string) :=
  match c_phase c, p with PInsert n, PFree (Ret _) => [(c_account c, n)] | _, _ => [] end.
Definition taken_over_by (c : call) : list string :=
  match c_phase c with PSteal _ => [c_account c] | _ => [] end.
Definition with_phase (p : phase) (c : call) : call := mk_call (c_inst c) (c_account c) (c_client c) p.

Inductive step : sys → sys → Prop :=
| step_start k i a client d is_ cs g f m t :
    is_ !! k = Some i →
    step (mk_sys d is_ cs g f m t) (mk_sys d is_ (cs ++ [mk_call k a client PLock]) g f m t)
| step_call j c now horizon i p i' d' d is_ cs g f m t :
    cs !! j = Some c → is_ !! c_inst c = Some i →
    reserve_step now horizon (c_account c) (c_client c) (c_phase c) i d = (p, i', d') →
    step (mk_sys d is_ cs g f m t)
         (mk_sys d' (<[c_inst c := i']> is_) (<[j := with_phase p c]> cs)
                 (g ++ granted_by c p) f m (t ++ taken_over_by c))
| step_commit k now rid hash i i' d' d is_ cs g f m t :
    is_ !! k = Some i → commit now rid hash i d = (Ret (), i', d') →
    step (mk_sys d is_ cs g f m t)
         (mk_sys d' (<[k := i']> is_) cs g f (m ++ [((parse_id rid).1, default "" (parse_id rid).2)]) t)
| step_release k now rid reason i i' d' d is_ cs g f m t :
    is_ !! k = Some i → release now rid reason i d = (i', d') →
    step (mk_sys d is_ cs g f m t) (mk_sys d' (<[k := i']> is_) cs g f m t)
| step_reconcile k now a horizon r i i' d' d is_ cs g f m t :
    is_ !! k = Some i → reconcile now a horizon i d = (r, i', d') →
    step (mk_sys d is_ cs g f m t)
         (mk_sys d' (<[k := i']> is_) cs g (f ++ filter (λ p, p ∉ pairs d') (pairs d)) m t)
| step_cleanup now n d' d is_ cs g f m t :
    cleanupExpiredReservations now d = (n, d') →
    step (mk_sys d is_ cs g f m t) (mk_sys d' is_ cs g f m t).

(** *** The rows *)

Lemma update_where_pairs p f l : (∀ r, pair_of (f r) = pair_of r) → pair_of <$> (update_where p f l).2 = pair_of <$> l.
Proof.
  intros Hf. cbn. rewrite <- list_fmap_compose. apply list_fmap_ext. intros _ r _. cbn. by destruct (p r).
Qed.

Lemma taken_spec a n d : taken a n d = true ↔ (a, n) ∈ pairs d.
Proof. apply bool_decide_eq_true. Qed.

Lemma reserved_row_spec a n r :
  reserved_row a n r = true ↔ account_address r = a ∧ n = Some (sequence_number r) ∧ state r = Reserved.
Proof. unfold reserved_row. rewrite !andb_true_iff, !bool_decide_eq_true. intuition congruence. Qed.

(** How a statement changes the table: it keeps the rows with their keys, and
    a committed row stays as it is. *)
Definition grows (d d' : db) : Prop :=
  ∀ r, r ∈ allocations d → state r = Committed → r ∈ allocations d'.

Lemma update_keeps p f l r : p r = false → r ∈ l → r ∈ (update_where p f l).2.
Proof. intros Hp Hin. apply list_elem_of_fmap. exists r. by rewrite Hp. Qed.

Lemma commit_grows now rid hash i d : grows d (commit now rid hash i d).2.
Proof.
  intros r Hin Hc. unfold commit. destruct (parse_id rid) as [a n]. cbn [update_where].
  case_match; [done|]. apply (update_keeps (reserved_row a n)); [|done].
  apply not_true_iff_false. rewrite reserved_row_spec. intros (_ & _ & ?). congruence.
Qed.

Lemma release_grows now rid reason i d : grows d (release now rid reason i d).2.
Proof.
  intros r Hin Hc. unfold release. destruct (parse_id rid) as [a n]. cbn [update_where].
  apply (update_keeps (reserved_row a n)); [|done].
  apply not_true_iff_false. rewrite reserved_row_spec. intros (_ & _ & ?). congruence.
Qed.

Lemma reconcile_grows now a horizon i d : grows d (reconcile now a horizon i d).2.
Proof.
  intros r Hin Hc. unfold reconcile. repeat case_match; subst; try done. cbn.
  apply list_elem_of_filter. split; [|done]. unfold abandoned. rewrite Hc. by rewrite andb_false_r.
Qed.

Lemma cleanup_grows now d : grows d (cleanupExpiredReservations now d).2.
Proof.
  intros r Hin Hc. apply (update_keeps (expired_reservation _)); [|done]. unfold expired_reservation. by rewrite Hc.
Qed.

Lemma reserve_step_grows now h a client p i d : grows d (reserve_step now h a client p i d).2.
Proof. intros r Hin _. destruct p; cbn; repeat case_match; cbn; try done. apply elem_of_app. by left. Qed.

Create HintDb seqdb.
#[local] Hint Resolve commit_grows release_grows reconcile_grows cleanup_grows reserve_step_grows : seqdb.

Lemma commit_pairs now rid hash i d : pairs (commit now rid hash i d).2 = pairs d.
Proof.
  unfold commit, pairs. destruct (parse_id rid) as [a n]. cbn [update_where]. case_match; [done|].
  apply (update_where_pairs (reserved_row a n)). done.
Qed.
Lemma release_pairs now rid reason i d : pairs (release now rid reason i d).2 = pairs d.
Proof. unfold release. destruct (parse_id rid) as [a n]. by apply (update_where_pairs (reserved_row a n)). Qed.
Lemma cleanup_pairs now d : pairs (cleanupExpiredReservations now d).2 = pairs d.
Proof. by apply (update_where_pairs (expired_reservation _)). Qed.
Lemma reconcile_pairs now a horizon i d : pairs (reconcile now a horizon i d).2 `sublist_of` pairs d.
Proof. unfold reconcile. repeat case_match; subst; try done. apply fmap_sublist, sublist_filter. Qed.

Lemma reserve_step_pairs now h c i d p i' d' :
  reserve_step now h (c_account c) (c_client c) (c_phase c) i d = (p, i', d') →
  pairs d' = pairs d ++ granted_by c p ∧ ∀ q, q ∈ granted_by c p → q ∉ pairs d.
Proof.
  intros Hs. destruct c as [k a client ph]. unfold granted_by. cbn in *.
  destruct ph; cbn in Hs; repeat case_match; simplify_eq; cbn; rewrite ?app_nil_r;
    try (split; [done|]; intros ? Hq; by apply elem_of_nil in Hq).
  split; [by unfold pairs; cbn; rewrite fmap_app|].
  intros q ->%list_elem_of_singleton Hq. apply taken_spec in Hq. congruence.
Qed.

Lemma commit_ok now rid hash i d i' d' :
  commit now rid hash i d = (Ret (), i', d') →
  ∃ r, r ∈ allocations d ∧ pair_of r = ((parse_id rid).1, default "" (parse_id rid).2) ∧
       state r = Reserved ∧ set_committed now hash r ∈ allocations d'.
Proof.
  unfold commit. destruct (parse_id rid) as [a n]. cbn [update_where]. case_match eqn:Hn; intros [= _ <-].
  destruct (filter _ _) as [|r l] eqn:Hf; [done|].
  assert (Hr : r ∈ filter (λ r, reserved_row a n r = true) (allocations d)) by (rewrite Hf; left).
  apply list_elem_of_filter in Hr as [Hr Hin]. pose proof Hr as (Ha & -> & Hs)%reserved_row_spec.
  exists r. split_and!; [done|by unfold pair_of; rewrite Ha|done|].
  apply list_elem_of_fmap. exists r. by rewrite Hr.
Qed.

Lemma sublist_complement (l l' : list (string * string)) :
  NoDup l → l' `sublist_of` l → l ≡ₚ filter (λ p, p ∉ l') l ++ l'.
Proof.
  intros Hnd Hs. rewrite <- (filter_app_complement (λ p, p ∈ l') l) at 1. rewrite Permutation_app_comm. f_equiv.
  apply NoDup_Permutation; [by apply NoDup_filter|by eapply sublist_NoDup|].
  intros p. rewrite list_elem_of_filter. split; [tauto|]. intros Hp. split; [done|]. by eapply elem_of_sublist.
Qed.

Lemma pair_unique d r r' : NoDup (pairs d) → r ∈ allocations d → r' ∈ allocations d → pair_of r = pair_of r' → r = r'.
Proof.
  intros Hnd (j & Hj)%list_elem_of_lookup (j' & Hj')%list_elem_of_lookup He.
  assert (j = j') as <-; [|congruence].
  apply (NoDup_lookup (pairs d) j j' (pair_of r) Hnd); unfold pairs; rewrite list_lookup_fmap.
  - by rewrite Hj.
  - rewrite Hj'. cbn. by rewrite He.
Qed.

(** The tables and what happened to them: every granted number is in the
    table or was deleted; every commit has its row. *)
Record accounted (s : sys) : Prop := mk_accounted {
  acc_nodup : NoDup (pairs (s_db s));
  acc_grants : grants s ≡ₚ freed s ++ pairs (s_db s);
  acc_commits : NoDup (commits s);
  acc_rows : ∀ p, p ∈ commits s → ∃ r, r ∈ allocations (s_db s) ∧ pair_of r = p ∧ state r = Committed
}.

(** A statement that keeps the keys and the committed rows. *)
Lemma accounted_same d d' is_ is' cs g f m t :
  accounted (mk_sys d is_ cs g f m t) → pairs d' = pairs d → grows d d' →
  ∀ cs' t', accounted (mk_sys d' is' cs' g f m t').
Proof.
  intros [Hnd Hg Hm Hr] Hp Hgr cs' t'. cbn in *. split; cbn; rewrite ?Hp; [done..|].
  intros p (r & ? & ? & ?)%Hr. eauto.
Qed.

Lemma accounted_step : preserves step accounted.
Proof.
  intros s s' Hacc Hs. destruct Hs as
    [k i a client d is_ cs g f m t Hk|j c now h i p i' d' d is_ cs g f m t Hj Hk Hs
    |k now rid hash i i' d' d is_ cs g f m t Hk Hs|k now rid reason i i' d' d is_ cs g f m t Hk Hs
    |k now a h r i i' d' d is_ cs g f m t Hk Hs|now n d' d is_ cs g f m t Hs].
  - eapply accounted_same; [exact Hacc|done|by intros ?].
  - apply reserve_step_pairs in Hs as Hp. destruct Hp as [Hp Hnew].
    assert (Hgr : grows d d') by (pose proof (reserve_step_grows now h (c_account c) (c_client c) (c_phase c) i d) as Hg; by rewrite Hs in Hg).
    destruct Hacc as [Hnd Hg Hm Hr]; cbn in *. split; cbn.
    + rewrite Hp. apply NoDup_app. split_and!; [done|intros q Hq Hq'; by eapply Hnew|].
      unfold granted_by. repeat case_match; (apply NoDup_nil_2 || apply NoDup_singleton).
    + rewrite Hp, Hg. by rewrite app_assoc.
    + done.
    + intros q (r & ? & ? & ?)%Hr. eauto.
  - pose proof (commit_ok _ _ _ _ _ _ _ Hs) as (r & Hin & Hpr & Hres & Hin').
    pose proof (commit_pairs now rid hash i d) as Hp. pose proof (commit_grows now rid hash i d) as Hgr.
    rewrite Hs in Hp, Hgr. cbn [snd] in *.
    destruct Hacc as [Hnd Hg Hm Hr]; cbn in *. split; cbn; rewrite ?Hp; [done..| |].
    + apply NoDup_app. split_and!; [done| |apply NoDup_singleton].
      intros q (r' & Hin2 & Hpr2 & Hc)%Hr ->%list_elem_of_singleton.
      rewrite <- Hpr in Hpr2. pose proof (pair_unique _ _ _ Hnd Hin2 Hin Hpr2) as ->. congruence.
    + intros q [(r' & ? & ? & ?)%Hr| ->%list_elem_of_singleton]%elem_of_app; [eauto|].
      exists (set_committed now hash r). done.
  - eapply accounted_same; [exact Hacc| |].
    + pose proof (release_pairs now rid reason i d) as Hp. by rewrite Hs in Hp.
    + pose proof (release_grows now rid reason i d) as Hp. by rewrite Hs in Hp.
  - pose proof (reconcile_pairs now a h i d) as Hp. pose proof (reconcile_grows now a h i d) as Hgr.
    rewrite Hs in Hp, Hgr. cbn [snd] in *. destruct Hacc as [Hnd Hg Hm Hr]; cbn in *. split; cbn.
    + exact (sublist_NoDup _ _ Hnd Hp).
    + rewrite Hg, <- app_assoc. f_equiv. by apply sublist_complement.
    + done.
    + intros q (r' & ? & ? & ?)%Hr. eauto.
  - eapply accounted_same; [exact Hacc| |].
    + pose proof (cleanup_pairs now d) as Hp. by rewrite Hs in Hp.
    + pose proof (cleanup_grows now d) as Hp. by rewrite Hs in Hp.
Qed.

(** How often a number was granted. *)
Definition times (p : string * string) (l : list (string * string)) : nat := length (filter (λ q, q = p) l).

(** C15: However the calls of several instances interleave, and whoever holds or loses the
    locks, a number of an account is committed at most once, and it is granted again only after a
    reconciliation deleted its row. *)
Theorem committed_once is_ s :
  rtc step (init is_) s →
  NoDup (commits s) ∧ ∀ p, (times p (grants s) <= 1 + times p (freed s))%nat.
Proof.
  intros Hr. assert (Hacc : accounted s).
  { eapply preserves_rtc; [exact accounted_step|exact Hr|]. split; cbn; [by constructor..|by intros ? ?%elem_of_nil]. }
  destruct Hacc as [Hnd Hg Hm _]. split; [done|]. intros p. unfold times.
  rewrite Hg, filter_app, length_app.
  assert (length (filter (λ q, q = p) (pairs (s_db s))) <= 1)%nat; [|lia].
  destruct (filter _ (pairs _)) as [|q [|q' l]] eqn:Hf; cbn; [lia..|].
  pose proof (NoDup_filter (λ q, q = p) _ Hnd) as Hn. rewrite Hf in Hn.
  assert (Hq : q = p ∧ q' = p).
  { assert (H : Forall (λ q, q = p) (filter (λ q, q = p) (pairs (s_db s)))) by (apply Forall_forall; intros x [? _]%list_elem_of_filter; done).
    rewrite Hf in H. inversion H as [|? ? ? H']. by inversion H'. }
  destruct Hq as [-> ->]. apply NoDup_cons in Hn as [Hn _]. destruct Hn. left.
Qed.

(** *** The lock *)

(** Between the statement that took the lock and the one that deletes it. *)
Definition holding (p : phase) : bool :=
  match p with PFetch | PInsert _ | PFree _ => true | _ => false end.
Definition holds (a : string) (c : call) : nat :=
  if bool_decide (c_account c = a) && holding (c_phase c) then 1 else 0.
Definition holders (a : string) (cs : list call) : nat := sum_list_with (holds a) cs.
Definition lock_rows (a : string) (d : db) : nat := match locks d !! a with Some _ => 1 | None => 0 end.

Lemma holders_update a j c c' cs :
  cs !! j = Some c → (holders a (<[j := c']> cs) + holds a c = holders a cs + holds a c')%nat.
Proof.
  unfold holders. revert j. induction cs as [|x cs IH]; intros [|j] Hj; try done; [cbn in *; simplify_eq; lia|].
  specialize (IH _ Hj). change (<[S j:=c']> (x :: cs)) with (x :: <[j:=c']> cs). cbn [sum_list_with]. lia.
Qed.

Definition exclusive (s : sys) : Prop :=
  ∀ a, a ∉ takeovers s → holders a (calls s) = lock_rows a (s_db s).

Lemma commit_locks now rid hash i d : locks (commit now rid hash i d).2 = locks d.
Proof. unfold commit. destruct (parse_id rid). cbn. by case_match. Qed.
Lemma release_locks now rid reason i d : locks (release now rid reason i d).2 = locks d.
Proof. unfold release. by destruct (parse_id rid). Qed.
Lemma reconcile_locks now a h i d : locks (reconcile now a h i d).2 = locks d.
Proof. unfold reconcile. by repeat case_match. Qed.

(** A step of a call moves its own lock only, and takes one that is free or
    gives back one it has, unless it takes the lock over. *)
Lemma reserve_step_lock now h c i d p i' d' :
  reserve_step now h (c_account c) (c_client c) (c_phase c) i d = (p, i', d') →
  ∀ a, a ∉ taken_over_by c →
    (c_account c = a → holding (c_phase c) = true → locks d !! c_account c ≠ None) →
    (holds a (with_phase p c) + lock_rows a d = holds a c + lock_rows a d')%nat.
Proof.
  intros Hs a Ha Hh. destruct c as [k b client ph]. unfold holds, lock_rows. cbn in *.
  destruct (decide (b = a)) as [<-|Hne].
  - rewrite !bool_decide_true by done. unfold taken_over_by in Ha; cbn in Ha.
    destruct ph; cbn in *; repeat case_match; simplify_eq; cbn in *; simplify_map_eq; try lia;
      try (by destruct Ha; left); naive_solver.
  - rewrite !bool_decide_false by done. cbn.
    destruct ph; cbn in Hs; repeat case_match; simplify_eq; cbn in *;
      rewrite ?lookup_insert_ne, ?lookup_delete_ne, ?lookup_alter_ne in * by done; congruence || lia.
Qed.

Lemma exclusive_step : preserves step exclusive.
Proof.
  intros s s' Hex Hs a Ha. destruct Hs as
    [k i b client d is_ cs g f m t Hk|j c now h i p i' d' d is_ cs g f m t Hj Hk Hs
    |k now rid hash i i' d' d is_ cs g f m t Hk Hs|k now rid reason i i' d' d is_ cs g f m t Hk Hs
    |k now b h r i i' d' d is_ cs g f m t Hk Hs|now n d' d is_ cs g f m t Hs];
    specialize (Hex a); unfold lock_rows in *; cbn [s_db calls takeovers] in *.
  - unfold holders in *. rewrite sum_list_with_app. cbn. unfold holds at 2. cbn. rewrite andb_false_r.
    rewrite Hex by done. lia.
  - rewrite not_elem_of_app in Ha. destruct Ha as [Ha Ha']. specialize (Hex Ha).
    pose proof (holders_update a j c (with_phase p c) cs Hj) as Hup.
    pose proof (reserve_step_lock _ _ _ _ _ _ _ _ Hs a Ha') as Hst. unfold lock_rows in Hst.
    rewrite <- Hex in Hst. enough (Hlk : c_account c = a → holding (c_phase c) = true → locks d !! c_account c ≠ None).
    { specialize (Hst Hlk). lia. }
    intros <- Hh Hl. rewrite Hl in Hex.
    assert (1 <= holders (c_account c) cs)%nat; [|lia].
    assert (H1 : holds (c_account c) c = 1%nat) by (unfold holds; by rewrite bool_decide_true, Hh).
    unfold holders. apply list_elem_of_lookup_2, list_elem_of_split in Hj as (l1 & l2 & ->).
    rewrite sum_list_with_app. cbn. lia.
  - pose proof (commit_locks now rid hash i d) as Hl. rewrite Hs in Hl. cbn in Hl. by rewrite Hl, Hex.
  - pose proof (release_locks now rid reason i d) as Hl. rewrite Hs in Hl. cbn in Hl. by rewrite Hl, Hex.
  - pose proof (reconcile_locks now b h i d) as Hl. rewrite Hs in Hl. cbn in Hl. by rewrite Hl, Hex.
  - unfold cleanupExpiredReservations in Hs. cbn in Hs. simplify_eq. cbn. by rewrite Hex.
Qed.

(** The lock of an account excludes: as long as no call took it over, at most one call, of
    all instances, is between taking the lock and giving it back, and the row is there exactly
    while one is. *)
Theorem lock_exclusive is_ s a :
  rtc step (init is_) s → a ∉ takeovers s →
  (holders a (calls s) <= 1)%nat ∧ (holders a (calls s) = 1%nat ↔ is_Some (locks (s_db s) !! a)).
Proof.
  intros Hr Ha. assert (Hex : exclusive s).
  { eapply preserves_rtc; [exact exclusive_step|exact Hr|]. intros b _. done. }
  rewrite (Hex a Ha). unfold lock_rows. destruct (locks (s_db s) !! a) eqn:Hl.
  - split; [lia|]. split; [by eexists|done].
  - split; [lia|]. split; [done|by intros [? ?]].
Qed.

(** *** Numbers without Horizon *)

Lemma text_larger_from l x : is_Some (foldl text_larger (Some x) l).
Proof. revert x. induction l as [|y l IH]; intros x; cbn; [eauto|]. destruct (str_ltb x y); apply IH. Qed.

Lemma text_max_spec l m : text_max l = Some m → m ∈ l ∧ ∀ x, x ∈ l → str_ltb m x = false.
Proof.
  unfold text_max. revert m. induction l as [|y l IH] using rev_ind; intros m; [done|]. rewrite foldl_app. cbn.
  destruct (foldl text_larger None l) as [x|] eqn:Hx; cbn [text_larger].
  - destruct (IH x eq_refl) as [Hin Hmax].
    destruct (str_ltb x y) eqn:Hxy; intros [= <-]; setoid_rewrite elem_of_app; setoid_rewrite list_elem_of_singleton.
    + split; [by right|]. intros z [Hz| ->]; [|apply str_ltb_irrefl].
      apply (str_geb_trans _ x); [by apply Hmax|by apply str_ltb_asym].
    + split; [by left|]. intros z [Hz| ->]; auto.
  - intros [= <-]. destruct l as [|z l].
    + split; [left|]. intros x ->%list_elem_of_singleton. apply str_ltb_irrefl.
    + exfalso. cbn in Hx. by destruct (text_larger_from l z) as [? He]; rewrite He in Hx.
Qed.

Section offline.
Context (a : string).

Definition first_ten : list string := nat_to_string <$> [1; 2; 3; 4; 5; 6; 7; 8; 9; 10].
Definition nine_committed (d : db) : Prop :=
  ∃ r, r ∈ allocations d ∧ pair_of r = (a, "9") ∧ state r = Committed.
Definition ten_ok (d : db) (n : string) : Prop := n ∈ first_ten ∧ (n = "10" → nine_committed d).

(** No call on the account was given a Horizon client. *)
Definition offline (cs : list call) : Prop := ∀ c, c ∈ cs → c_account c = a → c_client c = false.

Record in_ten (s : sys) : Prop := mk_in_ten {
  ten_pairs : ∀ n, (a, n) ∈ pairs (s_db s) → ten_ok (s_db s) n;
  ten_calls : ∀ c n, c ∈ calls s → c_account c = a → c_phase c = PInsert n → ten_ok (s_db s) n;
  ten_grants : ∀ n, (a, n) ∈ grants s → n ∈ first_ten
}.

Lemma ten_ok_grows d d' n : grows d d' → ten_ok d n → ten_ok d' n.
Proof. intros Hg [Hn H9]. split; [done|]. intros (r & ? & ? & ?)%H9. exists r. auto. Qed.

(** The number after the last committed one. *)
Lemma next_in_ten d z :
  (∀ n, (a, n) ∈ pairs d → ten_ok d n) →
  BigInt_of_string (_getLastCommittedSequence a d) = Some z → ten_ok d (Z_to_string (z + 1)).
Proof.
  intros Hp. unfold _getLastCommittedSequence. destruct (text_max _) as [m|] eqn:Hm; cbn [from_option id].
  2: { intros [= <-]. split; [apply (bool_decide_unpack _); by vm_compute|done]. }
  apply text_max_spec in Hm as [(r & -> & [Hc Hin]%list_elem_of_filter)%list_elem_of_fmap Hmax].
  unfold committed_of in Hc. apply andb_true_iff in Hc as [Ha Hs].
  apply bool_decide_eq_true in Ha, Hs.
  assert (Hpr : (a, sequence_number r) ∈ pairs d).
  { apply list_elem_of_fmap. exists r. split; [|done]. unfold pair_of. by rewrite Ha. }
  destruct (Hp _ Hpr) as [Hten H9]. revert Hmax.
  assert (Hnine : sequence_number r = "9" → nine_committed d).
  { intros He. exists r. unfold pair_of. by rewrite Ha, He. }
  revert H9 Hnine. apply list_elem_of_fmap in Hten as (n & -> & Hn). intros H9 Hnine Hmax.
  repeat (apply elem_of_cons in Hn as [->|Hn]); [..|by apply elem_of_nil in Hn].
  all: rewrite BigInt_of_nat_to_string by done; intros [= <-].
  1-8: split; [apply (bool_decide_unpack _); by vm_compute|done].
  - split; [apply (bool_decide_unpack _); by vm_compute|]. intros _. by apply Hnine.
  - exfalso. destruct (H9 eq_refl) as (r9 & Hin9 & Hp9 & Hs9). injection Hp9 as Ha9 Hn9.
    discriminate (Hmax "9"). apply list_elem_of_fmap. exists r9. split; [done|].
    apply list_elem_of_filter. split; [|done]. unfold committed_of. by rewrite !bool_decide_true.
Qed.

Lemma in_ten_step s s' : offline (calls s) → in_ten s → step s s' → in_ten s'.
Proof.
  intros Hoff [Hp Hc Hg] Hs. destruct Hs as
    [k i b client d is_ cs g f m t Hk|j c now h i p i' d' d is_ cs g f m t Hj Hk Hs
    |k now rid hash i i' d' d is_ cs g f m t Hk Hs|k now rid reason i i' d' d is_ cs g f m t Hk Hs
    |k now b h r i i' d' d is_ cs g f m t Hk Hs|now n d' d is_ cs g f m t Hs];
    cbn [s_db calls grants] in *.
  - split; cbn; [done| |done]. intros c n [Hin| ->%list_elem_of_singleton]%elem_of_app; [by eauto|done].
  - pose proof (reserve_step_grows now h (c_account c) (c_client c) (c_phase c) i d) as Hgr.
    pose proof (reserve_step_pairs _ _ _ _ _ _ _ _ Hs) as [Hpd _]. rewrite Hs in Hgr. cbn [snd] in Hgr.
    apply list_elem_of_lookup_2 in Hj as Hin.
    assert (Hnew : ∀ n, (a, n) ∈ granted_by c p → ten_ok d n).
    { intros n. unfold granted_by. repeat case_match; subst; try by intros ?%elem_of_nil.
      intros [= ? ?]%list_elem_of_singleton. subst. by eapply Hc. }
    split; cbn.
    + intros n. rewrite Hpd. intros [?|?]%elem_of_app; eapply ten_ok_grows; eauto.
    + intros c' n [->|Hin']%list_insert_elem Ha Hph; [|eapply ten_ok_grows; [done|by eapply Hc]].
      cbn [with_phase c_account c_phase] in Ha, Hph. eapply ten_ok_grows; [done|]. specialize (Hoff c Hin Ha).
      destruct c as [k b client ph]; cbn [c_inst c_account c_client c_phase with_phase] in *; subst.
      destruct ph; cbn [reserve_step] in Hs; repeat case_match; simplify_eq. by eapply next_in_ten.
    + intros n [?|?]%elem_of_app; [by auto|]. by apply Hnew.
  - pose proof (commit_pairs now rid hash i d) as Hpd. pose proof (commit_grows now rid hash i d) as Hgr.
    rewrite Hs in Hpd, Hgr. cbn [snd] in *. split; cbn; rewrite ?Hpd; eauto using ten_ok_grows.
  - pose proof (release_pairs now rid reason i d) as Hpd. pose proof (release_grows now rid reason i d) as Hgr.
    rewrite Hs in Hpd, Hgr. cbn [snd] in *. split; cbn; rewrite ?Hpd; eauto using ten_ok_grows.
  - pose proof (reconcile_pairs now b h i d) as Hpd. pose proof (reconcile_grows now b h i d) as Hgr.
    rewrite Hs in Hpd, Hgr. cbn [snd] in *. split; cbn; [|by eauto using ten_ok_grows|done].
    intros n Hn. eapply ten_ok_grows; [done|]. apply Hp. by eapply elem_of_sublist.
  - pose proof (cleanup_pairs now d) as Hpd. pose proof (cleanup_grows now d) as Hgr.
    rewrite Hs in Hpd, Hgr. cbn [snd] in *. split; cbn; rewrite ?Hpd; eauto using ten_ok_grows.
Qed.

Lemma offline_before s s' : step s s' → offline (calls s') → offline (calls s).
Proof.
  intros Hs Hoff c0 Hin Ha. destruct Hs as [|j c now h i p i' d' d is_ cs g f m t Hj Hk Hs| | | |]; cbn in *; try by eapply Hoff.
  - apply (Hoff c0); [|done]. apply elem_of_app. by left.
  - apply list_elem_of_lookup in Hin as [j' Hj'].
    destruct (decide (j = j')) as [<-|Hne]; simplify_eq.
    + apply (Hoff (with_phase p c)); [|done]. eapply list_elem_of_lookup_2. apply list_lookup_insert_eq. by eapply lookup_lt_Some.
    + apply (Hoff c0); [|done]. eapply list_elem_of_lookup_2. by rewrite list_lookup_insert_ne.
Qed.

(** Without a Horizon client the manager runs out of numbers: the last committed number is
    the largest in the order of texts, where 9 comes after 10, so whatever the instances do, no
    number of the account above 10 is ever granted. *)
Theorem offline_at_most_ten is_ s n :
  rtc step (init is_) s → offline (calls s) → (a, n) ∈ grants s → n ∈ first_ten.
Proof.
  intros Hr Hoff. enough (Hi : in_ten s) by apply (ten_grants _ Hi).
  assert (Hinv : offline (calls s) → in_ten s); [|by apply Hinv].
  eapply (preserves_rtc step (λ s, offline (calls s) → in_ten s)); [|exact Hr|].
  - intros s1 s2 IH Hs Ho. pose proof (offline_before _ _ Hs Ho) as Ho1. by eapply in_ten_step; [|apply IH|].
  - intros _. split; cbn; [by intros ? ?%elem_of_nil|by intros ? ? ?%elem_of_nil|by intros ? ?%elem_of_nil].
Qed.

End offline.

(** ** Runs *)

Inductive cmd :=
| CStart (k : nat) (a : string) (client : bool)
| CCall (j : nat) (now : Z) (horizon : option string)
| CCommit (k : nat) (now : Z) (rid : string)
| CRelease (k : nat) (now : Z) (rid : string)
| CReconcile (k : nat) (now : Z) (a : string) (horizon : option string)
| CCleanup (now : Z).

Definition exec1 (o : cmd) (s : sys) : option sys :=
  let '(mk_sys d is_ cs g f m t) := s in
  match o with
  | CStart k a client => _ ← is_ !! k; Some (mk_sys d is_ (cs ++ [mk_call k a client PLock]) g f m t)
  | CCall j now h =>
      c ← cs !! j; i ← is_ !! c_inst c;
      let '(p, i', d') := reserve_step now h (c_account c) (c_client c) (c_phase c) i d in
      Some (mk_sys d' (<[c_inst c := i']> is_) (<[j := with_phase p c]> cs)
              (g ++ granted_by c p) f m (t ++ taken_over_by c))
  | CCommit k now rid =>
      i ← is_ !! k;
      match commit now rid None i d with
      | (Ret (), i', d') => Some (mk_sys d' (<[k := i']> is_) cs g f
                                    (m ++ [((parse_id rid).1, default "" (parse_id rid).2)]) t)
      | _ => None
      end
  | CRelease k now rid =>
      i ← is_ !! k; let '(i', d') := release now rid None i d in Some (mk_sys d' (<[k := i']> is_) cs g f m t)
  | CReconcile k now a h =>
      i ← is_ !! k;
      let '(_, i', d') := reconcile now a h i d in
      Some (mk_sys d' (<[k := i']> is_) cs g (f ++ filter (λ p, p ∉ pairs d') (pairs d)) m t)
  | CCleanup now => Some (mk_sys (cleanupExpiredReservations now d).2 is_ cs g f m t)
  end.
Fixpoint exec (l : list cmd) (s : sys) : option sys :=
  match l with [] => Some s | o :: l => s ← exec1 o s; exec l s end.

Lemma seq_exec1_step o s s' : exec1 o s = Some s' → step s s'.
Proof.
  destruct s as [d is_ cs g f m t]. destruct o as [k a client|j now horizon|k now rid|k now rid|k now a horizon|now]; intros H; unfold exec1, mbind, option_bind in H.
  - destruct (is_ !! k) eqn:Hk; simplify_eq. by econstructor.
  - destruct (cs !! j) as [c|] eqn:Hj; [|done]. destruct (is_ !! c_inst c) as [i|] eqn:Hk; [|done].
    destruct (reserve_step _ _ _ _ _ _ _) as [[p i'] d'] eqn:Hs. simplify_eq. by econstructor.
  - destruct (is_ !! k) as [i|] eqn:Hk; [|done].
    destruct (commit now rid None i d) as [[[[]|] i'] d'] eqn:Hc; simplify_eq. by econstructor.
  - destruct (is_ !! k) as [i|] eqn:Hk; [|done].
    destruct (release now rid None i d) as [i' d'] eqn:Hc; simplify_eq. by econstructor.
  - destruct (is_ !! k) as [i|] eqn:Hk; [|done].
    destruct (reconcile now a horizon i d) as [[r i'] d'] eqn:Hc; simplify_eq. by econstructor.
  - simplify_eq. apply (step_cleanup now (cleanupExpiredReservations now d).1). by destruct (cleanupExpiredReservations now d).
Qed.
Lemma seq_exec_steps l s s' : exec l s = Some s' → rtc step s s'.
Proof.
  revert s. induction l as [|o l IH]; cbn; intros s H; simplify_option_eq; [done|].
  eapply rtc_l; [by eapply seq_exec1_step|eauto].
Qed.

(** ** One call at a time *)

(** The lock another call has and that did not expire. *)
Definition held (now : Z) (a : string) (d : db) : bool :=
  match locks d !! a with Some l => expires_at l >? now | None => false end.

Lemma delete_alter_lock (f : lock → lock) a (m : gmap string lock) : delete a (alter f a m) = delete a m.
Proof. apply map_eq. intros b. destruct (decide (a = b)) as [<-|]; simplify_map_eq; done. Qed.

(** What a call that has the lock does with the tables. *)
Definition fetch_and_insert (now : Z) (h : option string) (a : string) (client : bool) (i : inst) (d : db)
  : outcome jserror string * inst * list row :=
  match BigInt_of_string (current_sequence a client h i d) with
  | None => (Throw ESyntax, i, allocations d)
  | Some z =>
      let n := Z_to_string (z + 1) in
      if taken a n d then (Throw EUnique, i, allocations d)
      else (Ret n,
            mk_inst (instanceId i) (cache i) (m_reserved i + 1) (m_committed i) (m_released i) (gaps_detected i),
            allocations d ++ [mk_row a n Reserved (instanceId i) now None None None None])
  end.

Lemma run_done fuel now h a client r i d : reserve_run fuel now h a client (PDone r) i d = (PDone r, i, d).
Proof. induction fuel as [|fuel IH]; [done|]. cbn [reserve_run reserve_step]. apply IH. Qed.

Lemma run_fetch fuel now h a client i d :
  reserve_run (3 + fuel) now h a client PFetch i d =
    (let '(r, i', l) := fetch_and_insert now h a client i d in (PDone r, i', mk_db l (delete a (locks d)))).
Proof.
  unfold fetch_and_insert. cbn [reserve_run reserve_step Nat.add].
  destruct (BigInt_of_string _) as [z|]; cbn [reserve_run reserve_step]; [|by rewrite run_done].
  destruct (taken _ _ _); cbn [reserve_run reserve_step]; by rewrite run_done.
Qed.

(** A reservation nothing comes between ends: it is refused while another call holds the
    lock, and otherwise the lock is free afterwards, and the number after the current one is
    granted and recorded, or refused because the account has a row with it. *)
Theorem reserve_spec now h a client i d :
  reserve now h a client i d =
    if held now a d then (PDone (Throw (could_not a)), i, d)
    else let '(r, i', l) := fetch_and_insert now h a client i d in (PDone r, i', mk_db l (delete a (locks d))).
Proof.
  unfold reserve, held. change 6%nat with (S (S (3 + 1))). cbn [reserve_run reserve_step].
  destruct (locks d !! a) as [l|] eqn:Hl.
  - cbn [reserve_run reserve_step]. rewrite Hl. destruct (expires_at l >? now) eqn:He; [apply run_done|].
    etransitivity; [exact (run_fetch 0 now h a client i
      (set_locks (alter (λ _, mk_lock (instanceId i) now (now + lockTimeoutMs)) a (locks d)) d))|].
    cbn [locks set_locks]. by rewrite delete_alter_lock.
  - etransitivity; [exact (run_fetch 2 now h a client i
      (set_locks (<[a := mk_lock (instanceId i) now (now + lockTimeoutMs)]> (locks d)) d))|].
    cbn [locks set_locks]. by rewrite delete_insert_eq.
Qed.

Lemma not_held_free now a d l : held now a (mk_db l (delete a (locks d))) = false.
Proof. unfold held. cbn. by rewrite lookup_delete_eq. Qed.

(** A reservation that expired is lost to the call that made it: when the background job
    released it, the commit of its transaction throws, although the transaction may have been
    submitted. *)
Theorem late_commit_lost now now' rid hash i d r :
  NoDup (pairs d) → r ∈ allocations d → parse_id rid = (account_address r, Some (sequence_number r)) →
  state r = Reserved → reserved_at r < now - reservationExpiryMs →
  (commit now' rid hash i (cleanupExpiredReservations now d).2).1.1 = Throw (not_found rid).
Proof.
  intros Hnd Hin Hrid Hs Hold. unfold commit. rewrite Hrid. cbn [update_where].
  enough (He : filter (λ r0, reserved_row (account_address r) (Some (sequence_number r)) r0 = true)
                 (allocations (cleanupExpiredReservations now d).2) = []) by by rewrite He.
  apply filter_none, Forall_forall. intros x Hx (Ha & [= Hn] & Hxs)%reserved_row_spec.
  apply list_elem_of_fmap in Hx as (y & -> & Hy).
  assert (y = r) as ->.
  { apply (pair_unique d); [done..|]. unfold pair_of. destruct (expired_reservation _ y); cbn in *; congruence. }
  revert Hxs. unfold expired_reservation. rewrite bool_decide_true by done.
  by rewrite (proj2 (Z.ltb_lt _ _) Hold).
Qed.

Lemma update_release_elem now a n reason d r :
  r ∈ allocations d → reserved_row a n r = true →
  set_released now reason r ∈ (update_where (reserved_row a n) (set_released now reason) (allocations d)).2.
Proof. intros Hin Hr. apply list_elem_of_fmap. exists r. by rewrite Hr. Qed.

(** A released number comes back: until a reconciliation after the expiry window every
    reservation at the same ledger state is refused, and after it the number is granted. *)
Theorem released_number_recovers now h z i d r :
  let a := account_address r in
  BigInt_of_string h = Some z → sequence_number r = Z_to_string (z + 1) →
  cached a i = h → held now a d = false → NoDup (pairs d) →
  r ∈ allocations d → state r = Released →
  (reserve now (Some h) a true i d).1.1 = PDone (Throw EUnique) ∧
  ∀ t, released_at r = Some t → t < now - reservationExpiryMs →
    (reserve now (Some h) a true i (reconcile now a (Some h) i d).2).1.1 = PDone (Ret (sequence_number r)).
Proof.
  intros a Hz Hn Hc Hh Hnd Hin Hs.
  assert (Hin' : (a, sequence_number r) ∈ pairs d) by (apply list_elem_of_fmap; by exists r).
  split.
  - rewrite reserve_spec, Hh. unfold fetch_and_insert. cbn [current_sequence default from_option id].
    rewrite Hz, <- Hn. by rewrite (proj2 (taken_spec _ _ _) Hin').
  - intros t Ht Hold. rewrite reserve_spec. unfold reconcile. rewrite Hc, Hz.
    replace (z >? z + 1) with false by lia. cbn [snd].
    set (l := filter _ (allocations d)). unfold held in *. cbn [locks set_allocations]. rewrite Hh.
    unfold fetch_and_insert. cbn [current_sequence default from_option id]. rewrite Hz, <- Hn.
    replace (taken a (sequence_number r) (set_allocations l d)) with false; [done|].
    symmetry. apply not_true_iff_false. rewrite taken_spec. unfold pairs. cbn.
    intros (r' & Hp & [Hr' Hin2]%list_elem_of_filter)%list_elem_of_fmap.
    assert (r' = r) as ->; [by apply (pair_unique d)|].
    unfold abandoned in Hr'. rewrite !bool_decide_true, Ht in Hr' by done.
    by rewrite (proj2 (Z.ltb_lt _ _) Hold) in Hr'.
Qed.

(** ** Examples *)

Definition ex_inst (k : string) : inst := mk_inst k ∅ 0 0 0 0.
Definition ex_insts : list inst := [ex_inst "i1"; ex_inst "i2"].
(** The four statements of a call that finds the lock free. *)
Definition serve (j : nat) (now : Z) (h : option string) : list cmd := replicate 4 (CCall j now h).
Definition final (l : list cmd) : sys := default (init ex_insts) (exec l (init ex_insts)).

Lemma seq_final_reachable l : is_Some (exec l (init ex_insts)) → rtc step (init ex_insts) (final l).
Proof. intros [s Hs]. unfold final. rewrite Hs. by eapply seq_exec_steps. Qed.

(** 4 is committed; 5 is reserved, released, reconciled, reserved again and committed. *)
Definition regrant : list cmd :=
  CStart 0 "A" true :: serve 0 0 (Some "3") ++ CCommit 0 1 "A:4:i1" ::
  CStart 1 "A" true :: serve 1 10 (Some "4") ++ CRelease 1 20 "A:5:i2" ::
  CReconcile 0 400000 "A" (Some "4") ::
  CStart 0 "A" true :: serve 2 400001 (Some "4") ++ [CCommit 1 400002 "A:5:i2"].

Lemma committed_once_witness :
  commits (final regrant) = [("A", "4"); ("A", "5")] ∧ times ("A", "5") (grants (final regrant)) = 2%nat ∧
  (times ("A", "5") (grants (final regrant)) <= 1 + times ("A", "5") (freed (final regrant)))%nat.
Proof.
  split; [by vm_compute|]. split; [by vm_compute|].
  apply (committed_once ex_insts (final regrant)). apply seq_final_reachable. vm_compute. eauto.
Defined.

(** A second call waits for the lock when the first gives it back, and a third takes it. *)
Definition race : list cmd :=
  [CStart 0 "A" true; CStart 1 "A" true; CStart 0 "A" true] ++
  [CCall 0 0 None; CCall 1 0 None] ++ replicate 3 (CCall 0 0 (Some "4")).

Lemma lock_exclusive_witness :
  holders "A" (calls (final (take 6 race))) = 1%nat ∧ is_Some (locks (s_db (final (take 6 race))) !! "A").
Proof.
  assert (Hr : rtc step (init ex_insts) (final (take 6 race))) by (apply seq_final_reachable; vm_compute; eauto).
  assert (Ht : takeovers (final (take 6 race)) = []) by by vm_compute.
  destruct (lock_exclusive ex_insts (final (take 6 race)) "A" Hr) as [_ Hiff].
  - rewrite Ht. by intros ?%elem_of_nil.
  - split; [by vm_compute|]. apply Hiff. by vm_compute.
Defined.

(** The takeover also runs when the row is gone, not only when it expired: at one instant, two
    calls have the lock, and the second to insert is refused. *)
Definition race_on : list cmd := race ++ [CCall 1 0 None; CCall 2 0 None; CCall 1 0 None].
Example lock_taken_twice :
  holders "A" (calls (final race_on)) = 2%nat ∧
  (c_phase <$> calls (final (race_on ++ [CCall 1 0 (Some "5"); CCall 2 0 (Some "5"); CCall 1 0 None; CCall 2 0 None]))) =
    [PDone (Ret "5"); PFree (Ret "6"); PFree (Throw EUnique)].
Proof. vm_compute. auto. Qed.

Definition ten_runs : list cmd :=
  mjoin ((λ k, CStart 0 "A" false :: serve k 0 None ++ [CCommit 0 0 (reservationId "A" (nat_to_string (Z.of_nat k + 1)) "i1")])
         <$> seq 0 10).

Lemma offline_at_most_ten_witness :
  (grants (final ten_runs)).*2 = first_ten ∧
  calls (final (ten_runs ++ CStart 0 "A" false :: serve 10 0 None)) !! 10%nat =
    Some (mk_call 0 "A" false (PDone (Throw EUnique))) ∧
  "10" ∈ first_ten.
Proof.
  split; [by vm_compute|]. split; [by vm_compute|].
  apply (offline_at_most_ten "A" ex_insts (final ten_runs)).
  - apply seq_final_reachable. vm_compute. eauto.
  - assert (H : Forall (λ c, c_client c = false) (calls (final ten_runs))) by (vm_compute; repeat constructor).
    rewrite Forall_forall in H. by intros c Hc _; apply H.
  - vm_compute. do 9 right. left.
Defined.

Definition ex_row (st : alloc_state) (t : option Z) : row := mk_row "A" "5" st "i1" 0 None t None None.

Lemma late_commit_lost_witness :
  (commit 400001 "A:5:i1" None (ex_inst "i1")
     (cleanupExpiredReservations 400000 (mk_db [ex_row Reserved None] ∅)).2).1.1 = Throw (not_found "A:5:i1").
Proof.
  apply (late_commit_lost 400000 400001 "A:5:i1" None (ex_inst "i1") _ (ex_row Reserved None)); try done.
  - apply NoDup_singleton.
  - left.
Defined.

Lemma released_number_recovers_witness :
  let i := mk_inst "i1" {["A" := "4"]} 0 0 0 0 in let d := mk_db [ex_row Released (Some 100)] ∅ in
  (reserve 400000 (Some "4") "A" true i d).1.1 = PDone (Throw EUnique) ∧
  (reserve 400000 (Some "4") "A" true i (reconcile 400000 "A" (Some "4") i d).2).1.1 = PDone (Ret "5").
Proof.
  intros i d.
  destruct (released_number_recovers 400000 "4" 4 i d (ex_row Released (Some 100)))
    as [H1 H2]; [reflexivity..|apply NoDup_singleton|left|reflexivity|].
  split; [exact H1|]. exact (H2 100 eq_refl eq_refl).
Defined.

End SequenceAllocation.
