(* ===== verification/SequenceCache.v ===== *)
(** * The cache of sequence numbers ([src/src/services/SequenceCacheService.js])

    One entry per account: the number loaded, how often it was incremented
    since, and when it was loaded.  A call that loads from Horizon is given
    the answers of its attempts, each a number with its time of arrival or a
    failure; nothing else runs between its turns here. *)

From S2P Require Import Prelude JsString JsNumber JsMap Errors.
Local Open Scope Z_scope.

Module SequenceCache.
Import Errors.

Record entry := mk_entry { sequence : string; lastFamilyCount : Z; fetchedAt : Z }.

Record st := mk_st {
  cache : list (string * entry);
  fetchLocks : list (string * unit);
  totalHits : Z;
  totalMisses : Z;
  totalRefreshes : Z;
  totalErrors : Z;
  lastRefreshAt : option Z;
}.
Definition init : st := mk_st [] [] 0 0 0 0 None.
Definition M := stx jserror st.

Definition set_cache (c : list (string * entry)) (s : st) : st :=
  mk_st c (fetchLocks s) (totalHits s) (totalMisses s) (totalRefreshes s) (totalErrors s) (lastRefreshAt s).
Definition set_locks (l : list (string * unit)) (s : st) : st :=
  mk_st (cache s) l (totalHits s) (totalMisses s) (totalRefreshes s) (totalErrors s) (lastRefreshAt s).
Definition count_hit (s : st) : st :=
  mk_st (cache s) (fetchLocks s) (totalHits s + 1) (totalMisses s) (totalRefreshes s) (totalErrors s) (lastRefreshAt s).
Definition count_miss (s : st) : st :=
  mk_st (cache s) (fetchLocks s) (totalHits s) (totalMisses s + 1) (totalRefreshes s) (totalErrors s) (lastRefreshAt s).
Definition count_refresh (s : st) : st :=
  mk_st (cache s) (fetchLocks s) (totalHits s) (totalMisses s) (totalRefreshes s + 1) (totalErrors s) (lastRefreshAt s).
Definition count_error (s : st) : st :=
  mk_st (cache s) (fetchLocks s) (totalHits s) (totalMisses s) (totalRefreshes s) (totalErrors s + 1) (lastRefreshAt s).
Definition refreshed (t : Z) (s : st) : st :=
  mk_st (cache s) (fetchLocks s) (totalHits s) (totalMisses s) (totalRefreshes s) (totalErrors s) (Some t).

Section service.
(** The configuration; zero means the default. *)
Context (cacheStalenessThresholdMs : Z) (maxRetryCount : nat) (maxCacheSize : Z).

Definition fresh (now : Z) (e : entry) : bool := now - fetchedAt e <? cacheStalenessThresholdMs.

Definition _getOptimisticSequence (e : entry) : outcome jserror string :=
  match BigInt_of_string (sequence e) with
  | Some base => Ret (Z_to_string (base + lastFamilyCount e))
  | None => Throw ESyntax
  end.

(** The answers of [loadAccount], in the order of the attempts: a missing one
    is a failure. *)
Abbreviation answers := (list (outcome jserror (string * Z))).

(** The loop over the attempts: [last] is [lastError]. *)
Fixpoint attempts (n : nat) (a : string) (l : answers) (last : jserror) : M string :=
  match n with
  | O => throw last
  | S n =>
      match l with
      | Ret (seq, t) :: _ =>
          modify_st (λ s, refreshed t (set_cache (map_set (cache s) a (mk_entry seq 0 t)) s));; mret seq
      | Throw e :: l => attempts n a l e
      | [] => attempts n a [] (EPlain "request failed")
      end
  end.

(** The promise that [fetchLocks] keeps has resolved already: it delays, and
    excludes nothing. *)
Definition _fetchAndCacheSequence (now : Z) (a : string) (l : answers) : M string :=
  s ← get_st;
  when (negb (map_has (fetchLocks s) a)) (modify_st (set_locks (map_set (fetchLocks s) a ())));;
  match map_get (cache s) a with
  | Some e => if fresh now e then lift_out (_getOptimisticSequence e) else attempts maxRetryCount a l (EPlain "undefined")
  | None => attempts maxRetryCount a l (EPlain "undefined")
  end.

Definition getSequenceNumber (now : Z) (a : string) (forceRefresh : bool) (l : answers) : M string :=
  try_catch
    (s ← get_st;
     match map_get (cache s) a with
     | Some e =>
         if negb forceRefresh && fresh now e then modify_st count_hit;; lift_out (_getOptimisticSequence e)
         else modify_st count_miss;; _fetchAndCacheSequence now a l
     | None => modify_st count_miss;; _fetchAndCacheSequence now a l
     end)
    (λ e, modify_st count_error;; throw e).

(** The entry is changed in place; an error is logged only. *)
Definition incrementSequence (a : string) (s : st) : st :=
  match map_get (cache s) a with
  | None => s
  | Some e =>
      match BigInt_of_string (sequence e) with
      | Some z => set_cache (map_set (cache s) a (mk_entry (Z_to_string (z + 1)) (lastFamilyCount e + 1) (fetchedAt e))) s
      | None => s
      end
  end.

Definition refreshOnTxBadSeq (now : Z) (a : string) (l : answers) : M string :=
  try_catch
    (modify_st (λ s, set_cache (map_del (cache s) a) s);;
     seq ← _fetchAndCacheSequence now a l;
     modify_st count_refresh;;
     mret seq)
    (λ e, modify_st count_error;; throw e).

(** One account after the other; a failure is skipped. *)
Fixpoint prefetchSequences (now : Z) (force : bool) (load : string → answers) (addresses : list string)
  (results : list (string * string)) : M (list (string * string)) :=
  match addresses with
  | [] => mret results
  | a :: addresses => λ s,
      match getSequenceNumber now a force (load a) s with
      | (Ret seq, s) => prefetchSequences now force load addresses (map_set results a seq) s
      | (Throw _, s) => prefetchSequences now force load addresses results s
      end
  end.

Definition invalidateAccount (a : string) (s : st) : st :=
  set_locks (map_del (fetchLocks s) a) (set_cache (map_del (cache s) a) s).
Definition clearCache (s : st) : st := set_locks [] (set_cache [] s).

Definition hitRate (s : st) : string :=
  if totalHits s + totalMisses s >? 0 then
    num_to_fixed 2 (num_mul (num_div (num_of_Z (totalHits s)) (num_of_Z (totalHits s + totalMisses s))) (num_of_Z 100)) +:+ "%"
  else "0%".
Definition getHealthStatus (s : st) : bool * Z * string * Z :=
  ((totalErrors s <? 5) && (totalHits s + totalMisses s >? 0), map_size (cache s), hitRate s, totalErrors s).

Definition drop (a : string) (s : st) : st := invalidateAccount a s.

(** The first loop of [cleanupStaleEntries]: entries twice as old as the
    threshold. *)
Definition too_old (now : Z) (e : entry) : bool := now - fetchedAt e >? cacheStalenessThresholdMs * 2.
Fixpoint drop_all (keys : list string) (s : st) : st :=
  match keys with [] => s | a :: keys => drop_all keys (drop a s) end.
(** The second: the oldest entries while there are too many; an empty key ends
    it. *)
Fixpoint evict (fuel : nat) (s : st) : Z * st :=
  match fuel with
  | O => (0, s)
  | S fuel =>
      if map_size (cache s) >? maxCacheSize then
        match cache s with
        | (a, _) :: _ => if is_empty a then (0, s) else let '(n, s) := evict fuel (drop a s) in (n + 1, s)
        | [] => (0, s)
        end
      else (0, s)
  end.
Definition cleanupStaleEntries (now : Z) (s : st) : Z * st :=
  let stale := (filter (λ p, too_old now p.2 = true) (cache s)).*1 in
  let s := drop_all stale s in
  let '(n, s) := evict (length (cache s)) s in
  (Z.of_nat (length stale) + n, s).

(** ** What the cache answers *)

Lemma increments n a s e z :
  map_get (cache s) a = Some e → BigInt_of_string (sequence e) = Some z → 0 <= z →
  map_get (cache (Nat.iter n (incrementSequence a) s)) a =
    Some (mk_entry (if (n =? 0)%nat then sequence e else Z_to_string (z + Z.of_nat n))
                   (lastFamilyCount e + Z.of_nat n) (fetchedAt e)).
Proof.
  intros Hg Hz Hp. induction n as [|n IH]; [cbn; rewrite Hg, Z.add_0_r; by destruct e|].
  rewrite Nat.iter_succ. revert IH. generalize (Nat.iter n (incrementSequence a) s). intros s' IH.
  unfold incrementSequence. rewrite IH. cbn [sequence lastFamilyCount fetchedAt].
  assert (Hb : BigInt_of_string (if (n =? 0)%nat then sequence e else Z_to_string (z + Z.of_nat n)) = Some (z + Z.of_nat n)).
  { destruct (Nat.eqb_spec n 0) as [->|]; [by rewrite Z.add_0_r|]. unfold Z_to_string.
    rewrite (proj2 (Z.ltb_ge _ _)) by lia. apply BigInt_of_nat_to_string. lia. }
  rewrite Hb. cbn [cache set_cache]. rewrite map_get_set_eq. cbn [Nat.eqb]. do 2 f_equal; [f_equal; lia|lia].
Qed.

(** Every increment is counted twice: after a number was loaded and incremented [n] times,
    the cache answers with [2 * n] more, because an increment changes both the number and the
    count that is added to it. *)
Theorem increments_counted_twice n a s e z now l :
  map_get (cache s) a = Some e → BigInt_of_string (sequence e) = Some z → 0 <= z → lastFamilyCount e = 0 →
  fresh now e = true →
  (getSequenceNumber now a false l (Nat.iter n (incrementSequence a) s)).1 = Ret (Z_to_string (z + 2 * Z.of_nat n)).
Proof.
  intros Hg Hz Hp Hc Hf. pose proof (increments n a s e z Hg Hz Hp) as Hi. revert Hi.
  generalize (Nat.iter n (incrementSequence a) s). intros s' Hi.
  unfold getSequenceNumber, try_catch. stx_unfold. rewrite Hi. unfold fresh in *. cbn [fetchedAt negb andb]. rewrite Hf.
  unfold _getOptimisticSequence. cbn [sequence lastFamilyCount]. destruct (Nat.eqb_spec n 0) as [->|Hn].
  - rewrite Hz, Hc. cbn [fst]. do 2 f_equal.
  - unfold Z_to_string at 1. rewrite (proj2 (Z.ltb_ge _ _)) by lia. rewrite BigInt_of_nat_to_string, Hc by lia.
    cbn [fst]. do 2 f_equal. lia.
Qed.

(** A forced refresh does not refresh: while the entry is fresh, the call counts a miss, asks
    Horizon nothing, and answers from the cache. *)
Theorem force_refresh_ignored now a e l l' s :
  map_get (cache s) a = Some e → fresh now e = true →
  (getSequenceNumber now a true l s).1 = _getOptimisticSequence e ∧
  cache (getSequenceNumber now a true l s).2 = cache s ∧
  getSequenceNumber now a true l s = getSequenceNumber now a true l' s.
Proof.
  intros Hg Hf.
  assert (H : ∀ l, getSequenceNumber now a true l s =
    let s1 := count_miss s in
    let s2 := if map_has (fetchLocks s) a then s1 else set_locks (map_set (fetchLocks s) a ()) s1 in
    match _getOptimisticSequence e with Ret q => (Ret q, s2) | Throw x => (Throw x, count_error s2) end).
  { intros l0. unfold getSequenceNumber, _fetchAndCacheSequence, try_catch, when. stx_unfold. rewrite Hg. cbn.
    destruct (map_has (fetchLocks s) a); cbn; rewrite Hg, Hf; by destruct (_getOptimisticSequence e). }
  rewrite !H. cbn. destruct (_getOptimisticSequence e), (map_has (fetchLocks s) a); done.
Qed.

(** A bad sequence number heals: the refresh drops the entry whatever its age, and when one of
    the attempts succeeds the cache answers with the loaded number from then on. *)
Theorem refresh_heals now now' a pre seq z t rest l s :
  Forall (λ r, is_ret r = false) pre → (length pre < maxRetryCount)%nat →
  BigInt_of_string seq = Some z → fresh now' (mk_entry seq 0 t) = true →
  let '(r, s') := refreshOnTxBadSeq now a (pre ++ Ret (seq, t) :: rest) s in
  r = Ret seq ∧ map_get (cache s') a = Some (mk_entry seq 0 t) ∧
  (getSequenceNumber now' a false l s').1 = Ret (Z_to_string z).
Proof.
  intros Hpre Hlen Hb Hf.
  assert (Ha : ∀ n last s0, (length pre < n)%nat →
    attempts n a (pre ++ Ret (seq, t) :: rest) last s0 =
      (Ret seq, refreshed t (set_cache (map_set (cache s0) a (mk_entry seq 0 t)) s0))).
  { clear -Hpre. induction Hpre as [|x pre Hx _ IH]; intros n last s0 Hn; (destruct n as [|n]; [cbn in Hn; lia|]).
    - reflexivity.
    - destruct x as [?|e]; [done|]. cbn [attempts app]. apply IH. cbn in Hn. lia. }
  unfold refreshOnTxBadSeq, _fetchAndCacheSequence, try_catch, when. stx_unfold.
  assert (Hd : ∀ m, map_get (map_del m a) a = @None entry) by (intros; rewrite map_get_del; by case_decide).
  destruct (negb (map_has (fetchLocks (set_cache (map_del (cache s) a) s)) a)); stx_unfold; cbn [cache set_cache set_locks];
    rewrite Hd, Ha by done; cbn; (split; [done|]);
    rewrite map_get_set_eq; (split; [done|]);
    unfold getSequenceNumber, try_catch; stx_unfold; cbn; rewrite map_get_set_eq, Hf; cbn;
    unfold _getOptimisticSequence; cbn [sequence lastFamilyCount]; by rewrite Hb, Z.add_0_r.
Qed.

(** *** Clean-up *)

Lemma map_del_absent {V} (m : list (string * V)) k : k ∉ m.*1 → map_del m k = m.
Proof.
  induction m as [|[k' v] m IH]; cbn; [done|]. intros [Hk Hm]%not_elem_of_cons.
  rewrite decide_False by congruence. by rewrite IH.
Qed.

Lemma map_del_filter {V} (m : list (string * V)) k : map_del m k = filter (λ p, p.1 ≠ k) m.
Proof. induction m as [|[k' v] m IH]; [done|]. rewrite filter_cons. cbn. rewrite IH. by repeat case_decide. Qed.

Lemma drop_all_cache keys s : cache (drop_all keys s) = filter (λ p, p.1 ∉ keys) (cache s).
Proof.
  revert s. induction keys as [|k keys IH]; intros s; cbn.
  - symmetry. apply filter_all, Forall_forall. intros p _. apply not_elem_of_nil.
  - rewrite IH. cbn [drop invalidateAccount cache set_locks set_cache]. rewrite map_del_filter, list_filter_filter.
    apply list_filter_iff. intros p. rewrite not_elem_of_cons. tauto.
Qed.

Lemma evict_cache fuel s : NoDup (cache s).*1 → "" ∉ (cache s).*1 → (length (cache s) <= fuel)%nat →
  let k := Z.to_nat (map_size (cache s) - Z.max 0 maxCacheSize) in
  (evict fuel s).1 = Z.of_nat k ∧ cache (evict fuel s).2 = list.drop k (cache s).
Proof.
  revert s. induction fuel as [|fuel IH]; intros s Hnd He Hl.
  - cbn. destruct (cache s) as [|p c] eqn:Hc; [|cbn in Hl; lia]. unfold map_size. cbn.
    replace (Z.to_nat _) with 0%nat by lia. done.
  - cbn [evict]. unfold map_size. destruct (Z.gtb_spec (Z.of_nat (length (cache s))) maxCacheSize) as [Hgt|Hle].
    2: { replace (Z.to_nat _) with 0%nat by lia. done. }
    destruct (cache s) as [|[a e] c] eqn:Hc.
    { cbn. replace (Z.to_nat _) with 0%nat by lia. done. }
    cbn in Hnd, He, Hl. apply NoDup_cons in Hnd as [Ha Hnd]. apply not_elem_of_cons in He as [Hne He].
    destruct a as [|x a']; [done|]. cbn [is_empty].
    assert (Hd : cache (drop (String x a') s) = c).
    { cbn [drop invalidateAccount cache set_locks set_cache]. rewrite Hc. cbn. rewrite decide_True by done. by apply map_del_absent. }
    specialize (IH (drop (String x a') s)). rewrite Hd in IH. specialize (IH Hnd He ltac:(lia)). destruct IH as [IH1 IH2].
    destruct (evict fuel (drop (String x a') s)) as [n s']. cbv zeta in *. cbn [fst snd] in *. unfold map_size in *. cbn [length] in *.
    split; [lia|]. rewrite IH2.
    replace (Z.to_nat (Z.of_nat (S (length c)) - Z.max 0 maxCacheSize))
      with (S (Z.to_nat (Z.of_nat (length c) - Z.max 0 maxCacheSize))) by lia. done.
Qed.

(** The clean-up keeps the newest entries: it removes exactly those older than twice the
    threshold, then the oldest until the maximum is respected, and reports how many went. *)
Theorem cleanup_spec now s :
  NoDup (cache s).*1 → "" ∉ (cache s).*1 →
  let kept := filter (λ p, too_old now p.2 = false) (cache s) in
  let k := Z.to_nat (map_size kept - Z.max 0 maxCacheSize) in
  cache (cleanupStaleEntries now s).2 = list.drop k kept ∧
  map_size (cache (cleanupStaleEntries now s).2) <= Z.max 0 maxCacheSize ∧
  (cleanupStaleEntries now s).1 = map_size (cache s) - map_size (cache (cleanupStaleEntries now s).2).
Proof.
  intros Hnd He kept k. unfold cleanupStaleEntries.
  set (stale := (filter (λ p, too_old now p.2 = true) (cache s)).*1).
  assert (Hk : cache (drop_all stale s) = kept).
  { rewrite drop_all_cache. apply filter_elem_iff. intros [a e] Hin. cbn.
    unfold stale. rewrite list_elem_of_fmap. split.
    - intros Hn. apply not_true_iff_false. intros Ht. apply Hn. exists (a, e). split; [done|]. by apply list_elem_of_filter.
    - intros Ht ([a' e'] & Ha & [Ht' Hin']%list_elem_of_filter). cbn in *. subst a'.
      assert (e = e') as ->; [|congruence].
      apply (map_get_elem _ _ _ Hnd) in Hin, Hin'. congruence. }
  destruct (evict_cache (length (cache (drop_all stale s))) (drop_all stale s)) as [H1 H2].
  { rewrite Hk. unfold kept. eapply sublist_NoDup; [exact Hnd|]. apply fmap_sublist, sublist_filter. }
  { rewrite Hk. intros H. apply He. eapply elem_of_sublist; [exact H|]. apply fmap_sublist, sublist_filter. }
  { done. }
  rewrite Hk in *. destruct (evict _ _) as [n s']. cbn [fst snd] in *. subst n. rewrite H2.
  assert (Hs : Z.of_nat (length stale) + map_size kept = map_size (cache s)).
  { unfold stale, kept, map_size. rewrite length_fmap, <- Nat2Z.inj_add, <- length_app. f_equal.
    apply Permutation_length. etransitivity; [|apply (filter_app_complement (λ p, too_old now p.2 = true))].
    f_equiv. erewrite list_filter_iff; [done|]. intros p. cbn. by rewrite not_true_iff_false. }
  unfold map_size in *. rewrite length_drop. fold k. unfold k. split; [done|]. lia.
Qed.

End service.

(** ** Examples *)

Definition ex_st : st := mk_st [("A", mk_entry "100" 0 1000); ("B", mk_entry "7" 0 0)] [] 0 0 0 0 None.

Lemma increments_counted_twice_witness :
  (getSequenceNumber 300000 3 2000 "A" false [] (Nat.iter 3 (incrementSequence "A") ex_st)).1 = Ret "106".
Proof.
  etransitivity; [apply (increments_counted_twice 300000 3 3 "A" ex_st (mk_entry "100" 0 1000) 100); (reflexivity || lia)|reflexivity].
Defined.

Lemma force_refresh_ignored_witness :
  (getSequenceNumber 300000 3 2000 "A" true [Ret ("500", 2000)] ex_st).1 = Ret "100".
Proof.
  destruct (force_refresh_ignored 300000 3 2000 "A" (mk_entry "100" 0 1000) [Ret ("500", 2000)] [] ex_st) as [H _];
    [reflexivity..|]. rewrite H. reflexivity.
Defined.

Lemma refresh_heals_witness :
  (getSequenceNumber 300000 3 3000 "A" false []
     (refreshOnTxBadSeq 300000 3 2000 "A" [Throw (EPlain "timeout"); Ret ("500", 2100)] ex_st).2).1 = Ret "500".
Proof.
  pose proof (refresh_heals 300000 3 2000 3000 "A" [Throw (EPlain "timeout")] "500" 500 2100 [] [] ex_st) as H.
  destruct (refreshOnTxBadSeq _ _ _ _ _ _) as [r s'] eqn:Hr.
  destruct H as (_ & _ & H); [by repeat constructor|cbn; lia|reflexivity|reflexivity|]. exact H.
Defined.

Lemma cleanup_spec_witness :
  cache (cleanupStaleEntries 300000 1 600001 ex_st).2 = [("A", mk_entry "100" 0 1000)] ∧
  map_size (cache (cleanupStaleEntries 300000 1 600001 ex_st).2) <= 1.
Proof.
  destruct (cleanup_spec 300000 1 600001 ex_st) as (H1 & H2 & _).
  - apply (bool_decide_unpack _). by vm_compute.
  - apply (bool_decide_unpack _). by vm_compute.
  - split; [rewrite H1; reflexivity|exact H2].
Defined.

End SequenceCache.
