(* ===== verification/NonceStore.v ===== *)
(** * Nonces ([src/src/utils/nonceStore.js])

    The bounded in-memory store of used nonces: a map in insertion order from
    a nonce to the end of its window, with eviction of the oldest entries.
    Times are arguments; the clean-up timer is left out. *)

From S2P Require Import Prelude JsMap.
Local Open Scope Z_scope.

Module NonceStore.

Section store.
Context (_windowMs : Z) (_maxSize : nat).

Record st := mk_st { _store : list (string * Z); _hits : Z; _misses : Z; _evictions : Z }.
Definition init : st := mk_st [] 0 0 0.

(** [while (size > maxSize) delete(oldest)] *)
Fixpoint evict (m : list (string * Z)) (count : Z) : list (string * Z) * Z :=
  match m with
  | [] => ([], count)
  | p :: m' => if bool_decide (_maxSize < length m)%nat then evict m' (count + 1) else (m, count)
  end.

(** The answer: [seen]. *)
Definition check (now : Z) (nonce : string) (s : st) : bool * st :=
  let expiry := map_get (_store s) nonce in
  let fresh :=
    let m := map_set (map_del (_store s) nonce) nonce (now + _windowMs) in
    let '(m, e) := evict m (_evictions s) in
    (false, mk_st m (_hits s) (_misses s + 1) e) in
  match expiry with
  | Some x => if now <? x then (true, mk_st (_store s) (_hits s + 1) (_misses s) (_evictions s)) else fresh
  | None => fresh
  end.

Definition cleanup (now : Z) (s : st) : Z * st :=
  let kept := filter (λ p, now < p.2) (_store s) in
  (Z.of_nat (length (_store s)) - Z.of_nat (length kept), mk_st kept (_hits s) (_misses s) (_evictions s)).

Definition clear (s : st) : st := mk_st [] 0 0 0.

(** [getMetrics] but the rate, a quotient of the others. *)
Definition getMetrics (s : st) : Z * Z * nat * nat * Z := (_hits s, _misses s, length (_store s), _maxSize, _evictions s).

(** ** Invariant *)

Inductive event := Check (now : Z) (nonce : string) | Cleanup (now : Z).
Definition apply (s : st) (e : event) : st :=
  match e with Check now n => (check now n s).2 | Cleanup now => (cleanup now s).2 end.

Record inv (s : st) : Prop := {
  inv_keys : NoDup (_store s).*1;
  inv_size : (length (_store s) <= _maxSize)%nat;
}.

Lemma evict_spec m c : ∃ k, (evict m c).1 = drop k m ∧
  (length (evict m c).1 <= _maxSize)%nat ∧ (k = O ∨ (k + _maxSize = length m)%nat).
Proof.
  revert c. induction m as [|p m IH]; intros c; cbn [evict]; [by exists O; cbn; auto with lia|].
  case_bool_decide as Hs.
  - destruct (IH (c + 1)) as (k & Hk & Hl & Hor). exists (S k). split_and!; [exact Hk|exact Hl|].
    right. cbn in *. destruct Hor as [->|Hor]; [|lia].
    rewrite Hk, drop_0 in Hl. lia.
  - exists O. split_and!; [done|cbn in *; lia|by left].
Qed.

(** A key that is absent goes to the end. *)
Lemma map_set_new (m : list (string * Z)) k v : map_get m k = None → map_set m k v = m ++ [(k, v)].
Proof.
  induction m as [|[k' v'] m IH]; cbn; [done|]. case_decide as Hk; [done|]. intros Hm. by rewrite IH.
Qed.

Lemma fresh_store (m : list (string * Z)) k v :
  map_set (map_del m k) k v = map_del m k ++ [(k, v)].
Proof. apply map_set_new. rewrite map_get_del. by case_decide. Qed.

Lemma map_del_app (m1 m2 : list (string * Z)) k : map_del (m1 ++ m2) k = map_del m1 k ++ map_del m2 k.
Proof. induction m1 as [|[k' v'] m1 IH]; cbn; [done|]. case_decide; [done|]. cbn. by rewrite IH. Qed.

(** What a fresh check leaves: the other entries and the new one at the end,
    less some of the oldest. *)
Lemma fresh_spec now n s :
  (check now n s).1 = false →
  ∃ k, _store (check now n s).2 = drop k (map_del (_store s) n ++ [(n, now + _windowMs)]) ∧
    (length (_store (check now n s).2) <= _maxSize)%nat ∧
    (k = O ∨ (k + _maxSize = S (length (map_del (_store s) n)))%nat) ∧
    _misses (check now n s).2 = _misses s + 1 ∧ _hits (check now n s).2 = _hits s.
Proof.
  unfold check. cbv zeta. rewrite fresh_store.
  destruct (evict_spec (map_del (_store s) n ++ [(n, now + _windowMs)]) (_evictions s)) as (k & Hk & Hl & Hor).
  destruct (evict _ _) as [m e]. cbn in Hk, Hl. rewrite length_app in Hor. cbn in Hor.
  destruct (map_get (_store s) n) as [x|]; [destruct (now <? x); [done|]|];
    intros _; exists k; cbn; (split_and!; [done|done|lia|done|done]).
Qed.

Lemma seen_spec now n s : (check now n s).1 = true →
  (check now n s).2 = mk_st (_store s) (_hits s + 1) (_misses s) (_evictions s) ∧
  ∃ x, map_get (_store s) n = Some x ∧ now < x.
Proof.
  unfold check. cbv zeta. destruct (evict _ _) as [m e].
  destruct (map_get (_store s) n) as [x|]; [|done]. destruct (Z.ltb_spec now x); [|done].
  intros _. split; [done|]. by exists x.
Qed.

Lemma keys_step e s : NoDup (_store s).*1 → NoDup (_store (apply s e)).*1.
Proof.
  intros Hnd. destruct e as [now n'|now]; cbn [apply].
  - destruct (check now n' s).1 eqn:Hc; [by destruct (seen_spec now n' s Hc) as [-> _]|].
    destruct (fresh_spec now n' s Hc) as (k & -> & _). rewrite <- fresh_store, fmap_drop.
    eapply sublist_NoDup; [|apply sublist_drop]. apply map_set_NoDup, map_del_NoDup, Hnd.
  - cbn. eapply sublist_NoDup; [exact Hnd|]. apply fmap_sublist, sublist_filter.
Qed.

Lemma apply_inv s e : inv s → inv (apply s e).
Proof.
  intros [Hk Hl]. split; [by apply keys_step|]. destruct e as [now n|now]; cbn [apply].
  - destruct (check now n s).1 eqn:Hc; [by destruct (seen_spec now n s Hc) as [-> _]|].
    by destruct (fresh_spec now n s Hc) as (k & _ & Hlen & _).
  - etransitivity; [apply length_filter|exact Hl].
Qed.

(** The entry of [n] ends at [x], and at most [k] entries are newer. *)
Definition near_end (n : string) (x : Z) (k : nat) (s : st) : Prop :=
  ∃ pre post, _store s = pre ++ (n, x) :: post ∧ (length post <= k)%nat.

Definition event_time (e : event) : Z := match e with Check t _ | Cleanup t => t end.
Definition is_check (e : event) : bool := match e with Check _ _ => true | Cleanup _ => false end.

Lemma near_end_get n x k s : inv s → near_end n x k s → map_get (_store s) n = Some x.
Proof.
  intros [Hk _] (pre & post & Hs & _). apply map_get_elem; [done|]. rewrite Hs.
  apply elem_of_app. right. left.
Qed.

Lemma near_end_event n x k s e :
  inv s → near_end n x k s → event_time e < x → (is_check e = true → (S k < _maxSize)%nat) →
  near_end n x (if is_check e then S k else k) (apply s e).
Proof.
  intros Hi Hn Ht Hk. pose proof (near_end_get n x k s Hi Hn) as Hg.
  destruct Hn as (pre & post & Hs & Hp). destruct e as [now n'|now]; cbn [apply is_check event_time] in *.
  - destruct (check now n' s).1 eqn:Hc.
    + destruct (seen_spec now n' s Hc) as [-> _]. exists pre, post. split; [done|lia].
    + assert (Hne : n' ≠ n).
      { intros ->. unfold check in Hc. cbv zeta in Hc. rewrite Hg in Hc. destruct (evict _ _).
        destruct (Z.ltb_spec now x); [done|lia]. }
      destruct (fresh_spec now n' s Hc) as (d & Hst & _ & Hd & _).
      rewrite Hs, map_del_app in Hst, Hd. cbn [map_del] in Hst, Hd. rewrite decide_False in Hst, Hd by done.
      pose proof (map_del_length post n') as Hpl. rewrite length_app in Hd. cbn [length] in Hd.
      exists (drop d (map_del pre n')), (map_del post n' ++ [(n', now + _windowMs)]).
      rewrite Hst, <- app_assoc. cbn [app]. split; [|rewrite length_app; cbn; lia].
      specialize (Hk eq_refl). rewrite drop_app_le by lia. done.
  - exists (filter (λ p, now < p.2) pre), (filter (λ p, now < p.2) post). cbn. rewrite Hs, filter_app, filter_cons.
    cbn. rewrite decide_True by done. split; [done|]. etransitivity; [apply length_filter|exact Hp].
Qed.

(** An accepted nonce keeps its entry while its window lasts. *)
Lemma kept_in_window t n s es :
  inv s → (check t n s).1 = false →
  Forall (λ e, event_time e < t + _windowMs) es → (length (filter (λ e, is_check e = true) es) < _maxSize)%nat →
  map_get (_store (foldl apply (check t n s).2 es)) n = Some (t + _windowMs).
Proof.
  intros Hi Hc Hes Hmax. set (x := t + _windowMs) in *.
  assert (Hstep : ∀ es k s0, inv s0 → near_end n x k s0 → Forall (λ e, event_time e < x) es →
    (k + length (filter (λ e, is_check e = true) es) < _maxSize)%nat →
    inv (foldl apply s0 es) ∧ ∃ k', near_end n x k' (foldl apply s0 es)).
  { clear. induction es as [|e es IH]; intros k s0 Hi Hn Hes Hk; [split; [done|by exists k]|].
    apply Forall_cons in Hes as [He Hes]. cbn [foldl]. rewrite filter_cons in Hk.
    apply (IH (if is_check e then S k else k)); [by apply apply_inv| |done|].
    - apply near_end_event; [done..|]. intros Hce. rewrite decide_True in Hk by done. cbn in Hk. lia.
    - destruct e; [rewrite decide_True in Hk by done|rewrite decide_False in Hk by done]; cbn in *; lia. }
  assert (H0 : near_end n x 0 (check t n s).2).
  { destruct (fresh_spec t n s Hc) as (k & Hs & _ & Hk & _). fold x in Hs.
    exists (drop k (map_del (_store s) n)), []. split; [|done].
    rewrite Hs, drop_app_le by lia. done. }
  destruct (Hstep es 0%nat _ (apply_inv s (Check t n) Hi) H0 Hes Hmax) as [Hi' (k' & Hn')].
  by eapply near_end_get.
Qed.

Lemma seen_iff now n s : (check now n s).1 = true ↔ ∃ x, map_get (_store s) n = Some x ∧ now < x.
Proof.
  split; [intros H; by destruct (seen_spec now n s H)|]. intros (x & Hg & Hx).
  unfold check. cbv zeta. rewrite Hg. destruct (evict _ _). by destruct (Z.ltb_spec now x); [|lia].
Qed.

(** Replay protection.  Once a nonce was accepted, every check of it within its window
    reports it as seen, whatever checks and clean-ups run in between, as long as they are within
    the window too and the checks are fewer than the store's bound. *)
Theorem replay_rejected t n s es t' :
  inv s → (check t n s).1 = false →
  Forall (λ e, event_time e < t + _windowMs) es → (length (filter (λ e, is_check e = true) es) < _maxSize)%nat →
  t' < t + _windowMs →
  (check t' n (foldl apply (check t n s).2 es)).1 = true.
Proof. intros Hi Hc Hes Hmax Ht'. apply seen_iff. eauto using kept_in_window. Qed.

(** Without further checks of a nonce its entry stays or goes, but does not
    change. *)
Lemma entry_stays n es s x :
  Forall (λ e, match e with Check _ n' => n' ≠ n | Cleanup _ => True end) es →
  map_get (_store (foldl apply s es)) n = Some x → NoDup (_store s).*1 →
  map_get (_store s) n = Some x.
Proof.
  revert s. induction es as [|e es IH]; intros s Hes; [done|]. apply Forall_cons in Hes as [He Hes].
  cbn [foldl]. intros Hg Hnd.
  pose proof (keys_step e s Hnd) as Hnd'.
  specialize (IH _ Hes Hg Hnd'). apply map_get_Some_elem in IH. apply map_get_elem; [done|].
  destruct e as [now n'|now]; cbn [apply] in IH.
  - destruct (check now n' s).1 eqn:Hc; [by destruct (seen_spec now n' s Hc) as [Heq _]; rewrite Heq in IH|].
    destruct (fresh_spec now n' s Hc) as (k & Hst & _). rewrite Hst in IH.
    pose proof (elem_of_sublist _ _ _ IH (sublist_drop _ _)) as IH'.
    clear IH. rename IH' into IH.
    apply elem_of_app in IH as [IH|IH]; [by apply map_del_elem in IH as [_ ?]|].
    apply list_elem_of_singleton in IH. congruence.
  - cbn in IH. by apply list_elem_of_filter in IH as [_ ?].
Qed.

(** The store never holds more than its bound nor a nonce twice, and every check is counted
    once: as a hit when the nonce was in its window, as a miss otherwise, when it is recorded with
    a full window (unless the bound is 0). *)
Theorem nonce_store_bounded es now n s :
  inv s → let s := foldl apply s es in
  inv s ∧
  let '(seen, s') := check now n s in
  (seen = true ↔ ∃ x, map_get (_store s) n = Some x ∧ now < x) ∧
  _hits s' + _misses s' = _hits s + _misses s + 1 ∧
  (seen = true → _store s' = _store s) ∧
  (seen = false → (0 < _maxSize)%nat → map_get (_store s') n = Some (now + _windowMs)).
Proof.
  intros Hi. cbv zeta.
  assert (Hi' : inv (foldl apply s es)).
  { revert s Hi. induction es as [|e es IH]; intros s Hi; [done|]. apply IH, apply_inv, Hi. }
  split; [exact Hi'|]. set (s1 := foldl apply s es) in *. clearbody s1.
  pose proof (apply_inv s1 (Check now n) Hi') as Hi2. cbn [apply] in Hi2.
  destruct (check now n s1).1 eqn:Hc.
  - destruct (seen_spec now n s1 Hc) as [Hs Hx]. destruct (check now n s1) as [b s2]. cbn in *. subst.
    cbn. split_and!; [done|lia|done|done].
  - destruct (fresh_spec now n s1 Hc) as (k & Hst & Hl & Hk & Hm & Hh).
    assert (Hno : ¬ ∃ x, map_get (_store s1) n = Some x ∧ now < x).
    { intros (x & Hg & Hx). unfold check in Hc. cbv zeta in Hc. rewrite Hg in Hc. destruct (evict _ _).
      destruct (Z.ltb_spec now x); [done|lia]. }
    destruct (check now n s1) as [b s2]. cbn in Hc, Hst, Hl, Hm, Hh, Hi2. subst b. split_and!; [done|lia|done|].
    intros _ Hpos. apply map_get_elem; [apply Hi2|]. rewrite Hst, drop_app_le by lia.
    apply elem_of_app. right. by apply list_elem_of_singleton.
Qed.

End store.

Lemma replay_rejected_witness :
  (check 300000 2 4000 "a" (foldl (apply 300000 2) (check 300000 2 1000 "a" init).2 [Check 2000 "b"; Cleanup 3000])).1 = true.
Proof.
  apply (replay_rejected 300000 2 1000 "a" init [Check 2000 "b"; Cleanup 3000] 4000);
    [split; [constructor|vm_compute; lia]|reflexivity|repeat constructor|vm_compute; lia|lia].
Defined.

Lemma nonce_store_bounded_witness :
  inv 1 (foldl (apply 300000 1) init [Check 1000 "a"; Check 2000 "b"]).
Proof.
  refine (proj1 (nonce_store_bounded 300000 1 [Check 1000 "a"; Check 2000 "b"] 0 "c" init _)).
  split; [constructor|vm_compute; lia].
Defined.

End NonceStore.
