(* ===== verification/Signing.v ===== *)
(** * Signed requests ([src/src/utils/requestSigner.js],
      [src/src/middleware/requestSigning.js])

    The canonical strings, the signature, its check with the window of the
    time stamp, and the middleware that lets a signed request through once,
    on top of [NonceStore].  SHA-256 and HMAC-SHA256, with their hexadecimal
    output, are parameters. *)

From Stdlib Require Import Ascii.
From S2P Require Import Prelude JsString JsNumber JsInt JsMap Errors NonceStore.
Local Open Scope Z_scope.

Module Signing.
Import Errors.

(** [toUpperCase] below code 256; 181, 223 and 255, whose upper case is not
    one code below 256, do not occur in methods and stay. *)
Definition upper_char (c : ascii) : ascii :=
  let n := char_code c in
  if ((97 <=? n) && (n <=? 122)) || ((224 <=? n) && (n <=? 254) && negb (n =? 247))
  then char_of_code (n - 32) else c.
Definition to_upper : string → string := str_map upper_char.

Definition newline : string := String (char_of_code 10) "".
Definition SIGNATURE_MAX_AGE_MS : Z := 5 * 60 * 1000.

(** [Buffer.from(s)]: the bytes of the UTF-8 encoding. *)
Definition utf8_char (c : ascii) : list Z :=
  let n := char_code c in if n <? 128 then [n] else [192 + n / 64; 128 + n mod 64].
Fixpoint utf8 (s : string) : list Z :=
  match s with EmptyString => [] | String c s => utf8_char c ++ utf8 s end.

Section crypto.
Context (sha256 : string → string) (hmac : string → string → string).

(** ** requestSigner.js *)

Definition hashBody (body : string) : string := sha256 body.

Definition buildCanonicalString (method path timestamp bodyHash : string) : string :=
  str_join newline [to_upper method; path; timestamp; bodyHash].

Definition sign (secret method path timestamp body : string) : string * string :=
  (hmac secret (buildCanonicalString method path timestamp (hashBody body)), timestamp).

(** The loop over [expectedBuf]: [mismatch |= expectedBuf[i] ^ (actualBuf[i] || 0)]. *)
Fixpoint mismatch_from (mismatch : Z) (expectedBuf actualBuf : list Z) : Z :=
  match expectedBuf with
  | [] => mismatch
  | x :: es => mismatch_from (Z.lor mismatch (Z.lxor x (default 0 (head actualBuf)))) es (tail actualBuf)
  end.

Inductive verdict := Valid | MissingHeader | BadTimestamp | OutOfWindow | Mismatch.

(** A header that is absent is [None], and an empty one is falsy too. *)
Definition truthy (o : option string) : option string :=
  match o with Some s => if is_empty s then None else Some s | None => None end.

Definition num_within (age lo hi : SpecFloat.spec_float) : bool := negb (num_gtb age hi || num_ltb age lo).

Definition same_signature (signature expected : string) : bool :=
  let sameLength := (String.length signature =? String.length expected)%nat in
  let expectedBuf := hex_decode expected in
  let actualBuf := hex_decode (if sameLength then signature else expected) in
  let mismatch := mismatch_from 0 expectedBuf actualBuf in
  let mismatch := if sameLength then mismatch else 1 in
  mismatch =? 0.

(** A null secret makes [createHmac] throw. *)
Definition verify (secret : option string) (method path : string) (timestamp signature : option string)
    (body : string) (maxAgeMs nowMs : Z) : outcome jserror verdict :=
  match truthy timestamp, truthy signature with
  | Some timestamp, Some signature =>
      let tsMs := num_mul (num_of_string timestamp) (num_of_Z 1000) in
      if negb (num_is_finite tsMs) then Ret BadTimestamp
      else
        let age := num_sub (num_of_Z nowMs) tsMs in
        if negb (num_within age (num_of_Z (-30000)) (num_of_Z maxAgeMs)) then Ret OutOfWindow
        else
          match secret with
          | None => Throw (EType "createHmac")
          | Some secret =>
              let canonical := buildCanonicalString method path timestamp (hashBody body) in
              let expected := hmac secret canonical in
              Ret (if same_signature signature expected then Valid else Mismatch)
          end
  | _, _ => Ret MissingHeader
  end.

(** ** requestSigning.js *)

Definition STATE_CHANGING_METHODS : list string := ["POST"; "PUT"; "PATCH"; "DELETE"].

Definition computeSignature (secret method path timestamp nonce rawBody : string) : string :=
  let bodyHash := sha256 rawBody in
  let canonical := str_join newline [to_upper method; path; timestamp; nonce; bodyHash] in
  hmac secret canonical.

(** [timingSafeEqual] throws on buffers of different lengths. *)
Definition safeEqual (a b : string) : outcome jserror bool :=
  if negb (String.length a =? String.length b)%nat then Ret false
  else if negb (length (utf8 a) =? length (utf8 b))%nat then Throw ERange
  else Ret (bool_decide (utf8 a = utf8 b)).

Record request := mk_request {
  r_method : string;
  r_path : string;                  (* req.originalUrl || req.url *)
  r_timestamp : option string;      (* X-Timestamp *)
  r_signature : option string;      (* X-Signature *)
  r_nonce : option string;          (* X-Nonce *)
  r_rawBody : string;
  r_keySecret : option string;      (* req.apiKey.keySecret *)
}.

Section middleware.
(** [enabled], [windowSeconds], REQUEST_SIGNING_SECRET, and the store. *)
Context (enabled : bool) (windowSeconds : Z) (env_secret : option string).
Context (_windowMs : Z) (_maxSize : nat).

Definition getSecret (req : request) : option string :=
  match truthy (r_keySecret req) with
  | Some s => Some s
  | None => truthy env_secret
  end.

Inductive reply :=
| Next
| Refuse (code message : string).

Definition invalid (message : string) : reply := Refuse "INVALID_SIGNATURE" message.

(** The checks up to the nonce: the nonce to look up, or the reply. *)
Definition check_signature (now : Z) (req : request) : outcome jserror (string + reply) :=
  match truthy (r_timestamp req), truthy (r_signature req), truthy (r_nonce req) with
  | Some timestamp, Some signature, Some nonce =>
      let tsSeconds := num_of_string timestamp in
      if negb (num_is_finite tsSeconds) then Ret (inr (invalid "Invalid X-Timestamp value"))
      else
        let nowSeconds := now / 1000 in
        let age := num_sub (num_of_Z nowSeconds) tsSeconds in
        if negb (num_within age (num_of_Z (-30)) (num_of_Z windowSeconds)) then
          Ret (inr (invalid "Request timestamp expired or too far in the future"))
        else
          match getSecret req with
          | None => Ret (inr (invalid "No signing secret configured for this API key"))
          | Some secret =>
              let expected := computeSignature secret (r_method req) (r_path req) timestamp nonce (r_rawBody req) in
              equal ← safeEqual signature expected;
              Ret (if (equal : bool) then inl nonce else inr (invalid "Signature mismatch"))
          end
  | _, _, _ => Ret (inr (Refuse "SIGNATURE_REQUIRED" "X-Signature, X-Timestamp, and X-Nonce headers are required"))
  end.

(** [now] and [now'] are the two readings of the clock: for the window and in
    the nonce store, which does not throw. *)
Definition requestSigningMiddleware (now now' : Z) (req : request)
    : stx jserror NonceStore.st reply :=
  if negb enabled then mret Next
  else if negb (bool_decide (r_method req ∈ STATE_CHANGING_METHODS)) then mret Next
  else
    c ← lift_out (check_signature now req);
    match c with
    | inr answer => mret answer
    | inl nonce =>
        s ← get_st;
        let '(seen, s') := NonceStore.check _windowMs _maxSize now' nonce s in
        put_st s';;
        mret (if (seen : bool) then invalid "Nonce has already been used (replay detected)" else Next)
    end.

End middleware.
End crypto.

(** ** The comparison of signatures *)

Lemma mismatch_from_zero es : ∀ m bs,
  mismatch_from m es bs = 0 ↔ m = 0 ∧ ∀ i x, es !! i = Some x → x = default 0 (bs !! i).
Proof.
  induction es as [|e es IH]; intros m bs; cbn [mismatch_from]; [naive_solver|].
  rewrite IH, Z.lor_eq_0_iff. split.
  - intros [[-> Hx%Z.lxor_eq] Hes]. split; [done|]. intros [|i] x.
    + intros [= <-]. by destruct bs.
    + intros Hi. specialize (Hes i x Hi). by destruct bs.
  - intros [-> Hes]. split_and!; [done| |].
    + rewrite (Hes 0%nat e eq_refl). destruct bs; apply Z.lxor_nilpotent.
    + intros i x Hi. specialize (Hes (S i) x Hi). by destruct bs.
Qed.

(** Digests: pairs of lower-case hexadecimal digits. *)
Definition hex_lower (c : ascii) : bool :=
  is_digit c || ((97 <=? char_code c) && (char_code c <=? 102)).
Fixpoint hex_digest (s : string) : bool :=
  match s with
  | EmptyString => true
  | String a (String b s) => hex_lower a && hex_lower b && hex_digest s
  | _ => false
  end.

Lemma hex_lower_val c : hex_lower c = true →
  ∃ v, hex_val c = Some v ∧ 0 <= v < 16 ∧ char_code c = (if v <? 10 then v + 48 else v + 87).
Proof.
  intros Hc. unfold hex_lower, is_digit in Hc. unfold hex_val.
  apply orb_prop in Hc as [Hc|Hc]; apply andb_prop in Hc as [H1 H2]; rewrite ?H1, ?H2; cbn [andb];
    apply Z.leb_le in H1, H2.
  - exists (char_code c - 48). split_and!; [done|lia|lia|]. destruct (Z.ltb_spec (char_code c - 48) 10); lia.
  - destruct (Z.leb_spec (char_code c) 57); [lia|]. rewrite andb_false_r.
    exists (char_code c - 87). split_and!; [done|lia|lia|]. destruct (Z.ltb_spec (char_code c - 87) 10); lia.
Qed.

Lemma hex_lower_inj a b v : hex_lower a = true → hex_lower b = true →
  hex_val a = Some v → hex_val b = Some v → a = b.
Proof.
  intros (x & Hx & _ & Ha)%hex_lower_val (y & Hy & _ & Hb)%hex_lower_val ??. simplify_eq.
  apply Ascii.eqb_eq. rewrite char_eqb_code. apply Z.eqb_eq. lia.
Qed.

Lemma hex_digest_byte a b s : hex_digest (String a (String b s)) = true →
  ∃ x y, hex_val a = Some x ∧ hex_val b = Some y ∧ 0 <= x < 16 ∧ 0 <= y < 16 ∧
    hex_lower a = true ∧ hex_lower b = true ∧ hex_digest s = true.
Proof.
  cbn [hex_digest]. intros [[Ha Hb]%andb_prop Hs]%andb_prop.
  destruct (hex_lower_val a Ha) as (x & ? & ? & _), (hex_lower_val b Hb) as (y & ? & ? & _). naive_solver.
Qed.

Lemma digest_mismatch n : ∀ s e, (String.length e <= n)%nat → String.length s = String.length e →
  hex_digest s = true → hex_digest e = true → mismatch_from 0 (hex_decode e) (hex_decode s) = 0 → s = e.
Proof.
  induction n as [|n IH]; intros s e Hn Hl Hs He Hm.
  - destruct e; [by destruct s|cbn in Hn; lia].
  - destruct e as [|c [|d e]]; [by destruct s|done|]. destruct s as [|a [|b s]]; [done|done|].
    apply hex_digest_byte in Hs as (x & y & Hx & Hy & Rx & Ry & La & Lb & Hs).
    apply hex_digest_byte in He as (x' & y' & Hx' & Hy' & Rx' & Ry' & Lc & Ld & He).
    cbn [hex_decode] in Hm. rewrite Hx, Hy, Hx', Hy' in Hm. cbn [mismatch_from head tail default] in Hm.
    assert (Hz : x * 16 + y = x' * 16 + y' ∧ mismatch_from 0 (hex_decode e) (hex_decode s) = 0).
    { pose proof (proj1 (mismatch_from_zero _ _ _) Hm) as [Hh Ht]. apply Z.lxor_eq in Hh.
      split; [cbn in Hh; lia|]. apply mismatch_from_zero. split; [done|]. exact Ht. }
    destruct Hz as [Hxy Hrest]. assert (x = x') as <- by lia. assert (y = y') as <- by lia.
    rewrite (hex_lower_inj a c x), (hex_lower_inj b d y) by done. do 2 f_equal.
    apply IH; [cbn in Hn; lia|cbn in Hl; lia|done..].
Qed.

Lemma same_signature_digest s e : hex_digest s = true → hex_digest e = true →
  same_signature s e = bool_decide (s = e).
Proof.
  intros Hs He. unfold same_signature. cbv zeta.
  destruct (Nat.eqb_spec (String.length s) (String.length e)) as [Hl|Hl]; cycle 1.
  - rewrite bool_decide_false by congruence. done.
  - case_bool_decide as Heq.
    + subst. apply Z.eqb_eq, mismatch_from_zero. split; [done|]. intros i x Hx. by rewrite Hx.
    + apply Z.eqb_neq. intros Hm. apply Heq. eapply digest_mismatch; eauto.
Qed.

(** ** The window *)

Lemma num_within_Z age lo hi :
  Z.abs age < max_int → Z.abs lo < max_int → Z.abs hi < max_int →
  num_within (num_of_Z age) (num_of_Z lo) (num_of_Z hi) = bool_decide (lo <= age <= hi).
Proof.
  intros. unfold num_within. rewrite num_gtb_Z, num_ltb_Z by done.
  destruct (Z.ltb_spec hi age), (Z.ltb_spec age lo); case_bool_decide; (done || lia).
Qed.

(** What [Buffer.from(s, 'hex')] leaves of a text is read byte by byte, and a
    byte that is missing reads as 0. *)
Definition padded (bytes : list Z) (n : nat) : list Z :=
  take n bytes ++ replicate (n - length bytes) 0.

Lemma padded_lookup bytes n i : (i < n)%nat → padded bytes n !! i = Some (default 0 (bytes !! i)).
Proof.
  intros Hi. unfold padded. destruct (decide (i < length bytes)%nat) as [Hb|Hb].
  - destruct (lookup_lt_is_Some_2 bytes i Hb) as [x Hx]. rewrite Hx.
    apply lookup_app_l_Some. by rewrite lookup_take, decide_True.
  - rewrite (lookup_ge_None_2 bytes i) by lia.
    rewrite lookup_app_r by (rewrite length_take; lia). apply lookup_replicate_2. rewrite length_take. lia.
Qed.

Lemma padded_length bytes n : length (padded bytes n) = n.
Proof. unfold padded. rewrite length_app, length_take, length_replicate. lia. Qed.

Lemma same_signature_spec s e :
  same_signature s e =
  bool_decide (String.length s = String.length e ∧ padded (hex_decode s) (length (hex_decode e)) = hex_decode e).
Proof.
  unfold same_signature. cbv zeta.
  destruct (Nat.eqb_spec (String.length s) (String.length e)) as [Hl|Hl]; cycle 1.
  { rewrite bool_decide_false by naive_solver. done. }
  apply eq_bool_prop_intro. rewrite bool_decide_spec, Is_true_true, Z.eqb_eq, mismatch_from_zero.
  split.
  - intros [_ Hb]. split; [done|]. apply list_eq_same_length with (n := length (hex_decode e)); [done|apply padded_length|].
    intros i x y Hi Hx Hy. rewrite padded_lookup in Hx by done. rewrite (Hb _ _ Hy). congruence.
  - intros [_ Hp]. split; [done|]. intros i x Hx. pose proof (lookup_lt_Some _ _ _ Hx) as Hi.
    rewrite <- Hp, padded_lookup in Hx by (by rewrite ?Hp). congruence.
Qed.

(** Digits of either case. *)
Definition hex_any (c : ascii) : bool := match hex_val c with Some _ => true | None => false end.

Lemma hex_lower_char c : hex_any c = true → hex_lower (lower_char c) = true ∧ hex_val (lower_char c) = hex_val c.
Proof.
  destruct c as [[] [] [] [] [] [] [] []]; vm_compute; intuition congruence.
Qed.

Lemma hex_decode_lower n : ∀ s, (String.length s <= n)%nat → str_forall hex_any s = true →
  hex_decode (to_lower s) = hex_decode s.
Proof.
  induction n as [|n IH]; intros [|a [|b s]] Hn; try done; [cbn in Hn; lia..|].
  cbn [str_forall]. intros [Ha [Hb Hs]%andb_prop]%andb_prop.
  unfold to_lower in *. cbn [str_map hex_decode].
  rewrite (proj2 (hex_lower_char a Ha)), (proj2 (hex_lower_char b Hb)), IH; [done|cbn in Hn; lia|done].
Qed.

Lemma hex_digest_lower n : ∀ s, (String.length s <= n)%nat → Nat.Even (String.length s) →
  str_forall hex_any s = true → hex_digest (to_lower s) = true.
Proof.
  induction n as [|n IH]; intros [|a [|b s]] Hn He; try done; try (cbn in Hn; lia).
  { by apply Nat.even_spec in He. }
  cbn [str_forall]. intros [Ha [Hb Hs]%andb_prop]%andb_prop.
  unfold to_lower in *. cbn [str_map hex_digest].
  rewrite (proj1 (hex_lower_char a Ha)), (proj1 (hex_lower_char b Hb)). cbn [andb].
  apply IH; [cbn in Hn; lia| |done]. destruct He as [k Hk]. cbn in Hk. exists (pred k). lia.
Qed.

Lemma hex_digest_even n : ∀ s, (String.length s <= n)%nat → hex_digest s = true → Nat.Even (String.length s).
Proof.
  induction n as [|n IH]; intros [|a [|b s]] Hn; try done; try (cbn in Hn; lia); try (by exists 0%nat).
  cbn [hex_digest]. intros [_ Hs]%andb_prop. destruct (IH s ltac:(cbn in Hn; lia) Hs) as [k Hk].
  exists (S k). cbn. lia.
Qed.

Lemma str_map_length f s : String.length (str_map f s) = String.length s.
Proof. induction s as [|c s IH]; [done|]. cbn. by rewrite IH. Qed.

Lemma same_signature_any_case s e : hex_digest e = true → str_forall hex_any s = true →
  same_signature s e = bool_decide (to_lower s = e).
Proof.
  intros He Hs. destruct (decide (String.length s = String.length e)) as [Hl|Hl]; cycle 1.
  { rewrite same_signature_spec, bool_decide_false by naive_solver. symmetry. apply bool_decide_false.
    intros <-. apply Hl. symmetry. apply str_map_length. }
  assert (Hd : hex_digest (to_lower s) = true).
  { apply (hex_digest_lower (String.length s)); [done| |done]. rewrite Hl. by eapply hex_digest_even. }
  rewrite <- (same_signature_digest (to_lower s) e Hd He), !same_signature_spec.
  rewrite (hex_decode_lower (String.length s)) by done. unfold to_lower. by rewrite str_map_length.
Qed.

(** C22: A request with an integer stamp is accepted exactly when the time of its check lies in the
    window and its signature has the length of the one [sign] computes and, decoded from
    hexadecimal up to its first other character with every missing byte read as 0, the same
    bytes; otherwise the first failing check is reported.  A signature of hexadecimal digits is
    accepted exactly when it is that of [sign] in upper or lower case; one that is cut short by
    another character is accepted too when the digest ends in as many zero bytes. *)
Theorem verify_exact (sha256 : string → string) (hmac : string → string → string)
    secret method path T signature body maxAgeMs now :
  signature ≠ "" → 0 <= T < 2 ^ 42 → 0 <= maxAgeMs < 2 ^ 42 → 0 <= now < 2 ^ 52 →
  let expected := (sign sha256 hmac secret method path (nat_to_string T) body).1 in
  let answer := verify sha256 hmac (Some secret) method path (Some (nat_to_string T)) (Some signature) body maxAgeMs now in
  answer =
    Ret (if bool_decide (-30000 <= now - T * 1000 <= maxAgeMs) then
           if bool_decide (String.length signature = String.length expected ∧
                           padded (hex_decode signature) (length (hex_decode expected)) = hex_decode expected)
           then Valid else Mismatch
         else OutOfWindow) ∧
  (hex_digest expected = true → str_forall hex_any signature = true →
   answer = Ret Valid ↔ -30000 <= now - T * 1000 <= maxAgeMs ∧ to_lower signature = expected).
Proof.
  intros Hne HT Hmax Hnow expected answer.
  assert (Ha : answer = Ret (if bool_decide (-30000 <= now - T * 1000 <= maxAgeMs) then
                               if same_signature signature expected then Valid else Mismatch else OutOfWindow)).
  { subst answer. pose proof (nat_to_string_nonempty T) as HTe. unfold verify, truthy.
    destruct (is_empty (nat_to_string T)) eqn:E1; [by destruct (nat_to_string T)|].
    destruct (is_empty signature) eqn:E2; [by destruct signature|].
    rewrite num_of_string_nat, num_mul_Z by (done || unfold max_int; lia).
    rewrite num_of_Z_finite by (unfold max_int; lia). cbn [negb].
    rewrite num_sub_Z, num_within_Z by (unfold max_int; lia). by case_bool_decide. }
  rewrite Ha. split; [by rewrite same_signature_spec|]. intros Hd Hs.
  rewrite (same_signature_any_case _ _ Hd Hs). repeat case_bool_decide; naive_solver.
Qed.

(** Digits of either case pass, and a signature cut short passes against a
    digest with zero bytes at its end. *)
Example upper_case_accepted : same_signature "AB0C" "ab0c" = true.
Proof. reflexivity. Qed.
Example cut_signature_accepted : same_signature "abzz" "ab00" = true.
Proof. reflexivity. Qed.

(** ** Replay *)

Section replay.
Context (sha256 : string → string) (hmac : string → string → string).
Context (windowSeconds : Z) (env_secret : option string) (_windowMs : Z) (_maxSize : nat).
Context (Hw : 0 <= windowSeconds < 2 ^ 32).
Local Abbreviation run := (requestSigningMiddleware sha256 hmac true windowSeconds env_secret _windowMs _maxSize).
Local Abbreviation passes := (check_signature sha256 hmac windowSeconds env_secret).

Lemma passes_shape now req :
  match passes now req with
  | Ret (inl n) => r_nonce req = Some n
  | Ret (inr answer) => answer ≠ Next
  | Throw _ => True
  end.
Proof.
  unfold check_signature, invalid. destruct (truthy (r_timestamp req)); [|done].
  destruct (truthy (r_signature req)); [|done]. destruct (r_nonce req) as [m|]; cbn [truthy]; [|done].
  destruct (is_empty m); [done|]. destruct (negb _); [done|]. destruct (negb _); [done|].
  destruct (getSecret env_secret req); [|done].
  unfold mbind, outcome_bind, outcome_bind_def. by destruct (safeEqual _ _) as [[]|].
Qed.

(** What a request that goes through has passed. *)
Lemma accepted_inv now now' req s s' :
  bool_decide (r_method req ∈ STATE_CHANGING_METHODS) = true → run now now' req s = (Ret Next, s') →
  ∃ n, r_nonce req = Some n ∧ passes now req = Ret (inl n) ∧
    (NonceStore.check _windowMs _maxSize now' n s).1 = false ∧
    s' = (NonceStore.check _windowMs _maxSize now' n s).2.
Proof.
  intros Hm. unfold requestSigningMiddleware. cbn [negb]. rewrite Hm. cbn [negb].
  stx_unfold. pose proof (passes_shape now req) as Hs.
  destruct (passes now req) as [[n|answer]|e]; cbn; [|congruence|congruence].
  destruct (NonceStore.check _windowMs _maxSize now' n s) as [[] s2] eqn:Hc; [by intros [= ? ?]|].
  intros [= <-]. exists n. by rewrite Hc.
Qed.

(** Conversely a request that passes the checks with a fresh nonce goes through. *)
Lemma accepted_intro now now' req s n :
  bool_decide (r_method req ∈ STATE_CHANGING_METHODS) = true → passes now req = Ret (inl n) →
  (NonceStore.check _windowMs _maxSize now' n s).1 = false → (run now now' req s).1 = Ret Next.
Proof.
  intros Hm Hp Hc. unfold requestSigningMiddleware. cbn [negb]. rewrite Hm, Hp. cbn [negb].
  stx_unfold. destruct (NonceStore.check _ _ _ _ _) as [[] s2]; [done|done].
Qed.

(** The window of an integer stamp. *)
Lemma passes_window now req T n :
  r_timestamp req = Some (nat_to_string T) → 0 <= T < 2 ^ 42 → 0 <= now < 2 ^ 52 →
  passes now req = Ret (inl n) → - 30 <= now / 1000 - T <= windowSeconds.
Proof.
  intros Ht HT Hnow. pose proof (nat_to_string_nonempty T) as HTe.
  assert (0 <= now / 1000 < 2 ^ 52) by (split; [apply Z.div_pos; lia|apply Z.div_lt_upper_bound; lia]).
  unfold check_signature. rewrite Ht. cbn [truthy].
  destruct (is_empty (nat_to_string T)) eqn:E1; [by destruct (nat_to_string T)|].
  destruct (truthy (r_signature req)), (truthy (r_nonce req)); try done.
  rewrite num_of_string_nat, num_of_Z_finite by (unfold max_int; lia). cbn [negb].
  rewrite num_sub_Z, num_within_Z by (unfold max_int; lia).
  case_bool_decide; [done|cbn [negb]; congruence].
Qed.

(** Only the window depends on the time. *)
Lemma passes_later now now2 req T n :
  r_timestamp req = Some (nat_to_string T) → 0 <= T < 2 ^ 42 → 0 <= now < 2 ^ 52 → 0 <= now2 < 2 ^ 52 →
  -30 <= now2 / 1000 - T <= windowSeconds →
  passes now req = Ret (inl n) → passes now2 req = Ret (inl n).
Proof.
  intros Ht HT Hnow Hnow2 Hwin Hp. pose proof (passes_window now req T n Ht HT Hnow Hp) as Hwin1. revert Hp.
  assert (0 <= now / 1000 < 2 ^ 52) by (split; [apply Z.div_pos; lia|apply Z.div_lt_upper_bound; lia]).
  assert (0 <= now2 / 1000 < 2 ^ 52) by (split; [apply Z.div_pos; lia|apply Z.div_lt_upper_bound; lia]).
  unfold check_signature. rewrite Ht. destruct (truthy (Some _)) as [t|] eqn:Htt; [|done].
  assert (t = nat_to_string T) as -> by (unfold truthy in Htt; destruct (is_empty _); congruence).
  destruct (truthy (r_signature req)), (truthy (r_nonce req)); try done.
  rewrite num_of_string_nat, num_of_Z_finite by (unfold max_int; lia). cbn [negb].
  rewrite !num_sub_Z, !num_within_Z by (unfold max_int; lia).
  by rewrite !bool_decide_true by done.
Qed.

(** C6: A signed request goes through once.  After a request with an integer time stamp was let
    through, no request with the same stamp and nonce is, whatever other requests and clean-ups
    come in between (fewer than the bound of the nonce store), provided the stamp was old enough
    at the first time that it leaves its window before the nonce is forgotten; with the default
    windows of 300 seconds: at least one second old, plus the time between the two clock readings. *)
Theorem signed_request_once T req req' now1 now1' now2 now2' s s1 es :
  NonceStore.inv _maxSize s →
  bool_decide (r_method req ∈ STATE_CHANGING_METHODS) = true →
  bool_decide (r_method req' ∈ STATE_CHANGING_METHODS) = true →
  r_timestamp req' = Some (nat_to_string T) → r_nonce req' = r_nonce req →
  0 <= T < 2 ^ 42 → 0 <= now2 < 2 ^ 52 →
  (T + windowSeconds + 1) * 1000 + (now2' - now2) <= now1' + _windowMs →
  run now1 now1' req s = (Ret Next, s1) →
  Forall (λ e, NonceStore.event_time e <= now2') es →
  (length (filter (λ e, NonceStore.is_check e = true) es) < _maxSize)%nat →
  (run now2 now2' req' (foldl (NonceStore.apply _windowMs _maxSize) s1 es)).1 ≠ Ret Next.
Proof.
  intros Hi Hm Hm' Ht' Hn HT Hnow Hwin Hrun Hes Hmax Hbad.
  destruct (accepted_inv _ _ _ _ _ Hm Hrun) as (n & Hrn & _ & Hc1 & ->).
  destruct (run now2 now2' req' _) as [o s2] eqn:Hrun2. cbn [fst] in Hbad. subst o.
  destruct (accepted_inv _ _ _ _ _ Hm' Hrun2) as (n' & Hrn' & Hp & Hc2 & _).
  assert (n' = n) as -> by congruence.
  pose proof (passes_window now2 req' T n Ht' HT Hnow Hp) as Hwindow.
  destruct (Z.lt_ge_cases now2' (now1' + _windowMs)) as [Hlt|Hge].
  - rewrite (proj2 (NonceStore.seen_iff _windowMs _maxSize now2' n _)) in Hc2; [done|].
    exists (now1' + _windowMs). split; [|done]. apply NonceStore.kept_in_window; try done.
    eapply Forall_impl; [exact Hes|]. cbn. lia.
  - pose proof (Z.mul_div_le now2 1000 ltac:(lia)). pose proof (Z.mul_succ_div_gt now2 1000 ltac:(lia)). lia.
Qed.

(** The guard of the previous property is needed: when the stamp is in its second (or in the
    future, up to the 30 seconds allowed) at the first acceptance, the nonce is forgotten while the
    stamp is still valid, and the same request goes through a second time, whatever other nonces
    are checked in between. *)
Theorem replay_after_window T req now1 now1' s s1 es :
  NoDup (NonceStore._store s).*1 →
  bool_decide (r_method req ∈ STATE_CHANGING_METHODS) = true →
  r_timestamp req = Some (nat_to_string T) → 0 <= T < 2 ^ 42 → 0 <= now1 <= now1' →
  _windowMs = windowSeconds * 1000 → now1' < 2 ^ 51 → now1' < (T + 1) * 1000 →
  run now1 now1' req s = (Ret Next, s1) →
  Forall (λ e, match e with
               | NonceStore.Check _ n => r_nonce req ≠ Some n
               | NonceStore.Cleanup _ => True
               end) es →
  let again := now1' + _windowMs in
  (run again again req (foldl (NonceStore.apply _windowMs _maxSize) s1 es)).1 = Ret Next.
Proof.
  intros Hnd Hm Ht HT Hnow HW Hb Hearly Hrun Hes again.
  destruct (accepted_inv _ _ _ _ _ Hm Hrun) as (n & Hn & Hp & Hc & ->).
  assert (Hwin : -30 <= now1 / 1000 - T <= windowSeconds) by (eapply passes_window; eauto; lia).
  assert (Hp2 : passes again req = Ret (inl n)).
  { apply (passes_later now1 again req T n); try done; subst again; [lia|lia|].
    pose proof (Z.div_le_mono now1 (now1' + _windowMs) 1000 ltac:(lia) ltac:(lia)).
    pose proof (Z.div_lt_upper_bound (now1' + _windowMs) 1000 (T + windowSeconds + 1)). lia. }
  eapply accepted_intro; [done|exact Hp2|]. apply not_true_is_false. intros Hseen.
  apply NonceStore.seen_iff in Hseen as (x & Hg & Hx).
  apply (NonceStore.entry_stays _ _ n es _ x) in Hg.
  - destruct (NonceStore.fresh_spec _ _ _ _ _ Hc) as (k & Hst & _).
    apply map_get_Some_elem in Hg. rewrite Hst in Hg.
    pose proof (elem_of_sublist _ _ _ Hg (sublist_drop _ _)) as Hin.
    apply elem_of_app in Hin as [Hin|Hin]; [by apply map_del_elem in Hin as [? _]|].
    apply list_elem_of_singleton in Hin as [= ->]. subst again. lia.
  - eapply Forall_impl; [exact Hes|]. intros [?|]; [|done]. congruence.
  - by apply (NonceStore.keys_step _ _ (NonceStore.Check now1' n)).
Qed.

End replay.

(** ** The comparison of the middleware *)

Lemma utf8_ascii s : str_forall (λ c, char_code c <? 128) s = true → length (utf8 s) = String.length s.
Proof.
  induction s as [|c s IH]; [done|]. cbn [str_forall utf8 String.length]. intros [Hc Hs]%andb_prop.
  unfold utf8_char. rewrite Hc, length_app, (IH Hs). done.
Qed.

Lemma utf8_length_lt s : str_forall (λ c, char_code c <? 128) s = false →
  (String.length s < length (utf8 s))%nat.
Proof.
  assert (Hle : ∀ s, (String.length s <= length (utf8 s))%nat).
  { clear. induction s as [|c s IH]; cbn; [lia|]. rewrite length_app. unfold utf8_char. case_match; cbn; lia. }
  induction s as [|c s IH]; [done|]. cbn [str_forall utf8 String.length]. rewrite length_app.
  unfold utf8_char. specialize (Hle s). destruct (char_code c <? 128); cbn; [intros Hs; specialize (IH Hs); lia|lia].
Qed.

Lemma utf8_ascii_inj a b :
  str_forall (λ c, char_code c <? 128) a = true → str_forall (λ c, char_code c <? 128) b = true →
  utf8 a = utf8 b → a = b.
Proof.
  revert b. induction a as [|c a IH]; intros [|d b]; cbn [str_forall utf8]; unfold utf8_char.
  - done.
  - intros _ [-> _]%andb_prop. done.
  - intros [-> _]%andb_prop. done.
  - intros [Hc Ha]%andb_prop [Hd Hb]%andb_prop. rewrite Hc, Hd. intros [= Hcd Hab]. f_equal; [|by apply IH].
    apply Ascii.eqb_eq. rewrite char_eqb_code. by apply Z.eqb_eq.
Qed.

(** The comparison of a presented signature with the expected digest: equality of the strings,
    except that a presented string of the right length with a character that is not ASCII makes it
    throw, which the middleware does not catch. *)
Theorem safeEqual_spec a b :
  str_forall (λ c, char_code c <? 128) b = true →
  safeEqual a b =
    if negb (String.length a =? String.length b)%nat then Ret false
    else if str_forall (λ c, char_code c <? 128) a then Ret (bool_decide (a = b)) else Throw ERange.
Proof.
  intros Hb. unfold safeEqual. destruct (Nat.eqb_spec (String.length a) (String.length b)) as [Hl|]; [|done].
  cbn [negb]. rewrite (utf8_ascii b Hb). destruct (str_forall _ a) eqn:Ha.
  - rewrite (utf8_ascii a Ha), Hl, Nat.eqb_refl. cbn [negb]. f_equal. apply bool_decide_ext.
    split; [by apply utf8_ascii_inj|congruence].
  - pose proof (utf8_length_lt a Ha). by destruct (Nat.eqb_spec (length (utf8 a)) (String.length b)); [lia|].
Qed.

(** ** Witnesses *)

Definition ex_request : request :=
  mk_request "POST" "/donations" (Some "1000") (Some "ab") (Some "n1") "" (Some "key").
Definition ex_hmac (k m : string) : string := "ab".

Lemma verify_exact_witness :
  verify id ex_hmac (Some "key") "post" "/x" (Some (nat_to_string 1000)) (Some "AB") "" 300000 1000500 = Ret Valid.
Proof.
  apply (proj2 (verify_exact id ex_hmac "key" "post" "/x" 1000 "AB" "" 300000 1000500
    ltac:(discriminate) ltac:(lia) ltac:(lia) ltac:(lia)) ltac:(reflexivity) ltac:(reflexivity)).
  split; [lia|reflexivity].
Defined.

Lemma signed_request_once_witness :
  (requestSigningMiddleware id ex_hmac true 300 None 300000 10 1005000 1005000 ex_request
     (foldl (NonceStore.apply 300000 10)
        (requestSigningMiddleware id ex_hmac true 300 None 300000 10 1001500 1001500 ex_request NonceStore.init).2
        [NonceStore.Check 1002000 "n2"])).1 ≠ Ret Next.
Proof.
  assert (Hrun : requestSigningMiddleware id ex_hmac true 300 None 300000 10 1001500 1001500 ex_request NonceStore.init =
    (Ret Next, NonceStore.mk_st [("n1", 1301500)] 0 1 0)) by (vm_compute; reflexivity).
  rewrite Hrun. cbn [snd].
  apply (signed_request_once id ex_hmac 300 None 300000 10 ltac:(lia) 1000 ex_request ex_request
    1001500 1001500 1005000 1005000 NonceStore.init _ [NonceStore.Check 1002000 "n2"]);
    [split; [constructor|vm_compute; lia]|reflexivity|reflexivity|reflexivity|reflexivity|lia|lia|lia|exact Hrun| |].
  - repeat constructor. cbn. lia.
  - vm_compute. lia.
Defined.

Lemma replay_after_window_witness :
  (requestSigningMiddleware id ex_hmac true 300 None 300000 10 1300500 1300500 ex_request
     (requestSigningMiddleware id ex_hmac true 300 None 300000 10 1000500 1000500 ex_request NonceStore.init).2).1 = Ret Next.
Proof.
  assert (Hrun : requestSigningMiddleware id ex_hmac true 300 None 300000 10 1000500 1000500 ex_request NonceStore.init =
    (Ret Next, NonceStore.mk_st [("n1", 1300500)] 0 1 0)) by (vm_compute; reflexivity).
  rewrite Hrun. cbn [snd].
  apply (replay_after_window id ex_hmac 300 None 300000 10 ltac:(lia) 1000 ex_request
    1000500 1000500 NonceStore.init _ []); [constructor|reflexivity|reflexivity|lia|lia|lia|lia|lia|exact Hrun|constructor].
Defined.

Lemma safeEqual_spec_witness : safeEqual (String (char_of_code 233) "b") "ab" = Throw ERange.
Proof. rewrite (safeEqual_spec (String (char_of_code 233) "b") "ab"); reflexivity. Defined.

End Signing.
