(* ===== verification/ApiKeys.v ===== *)
(** * API keys ([src/src/models/apiKeys.js])

    The table [api_keys], the cache of validations, and every operation.  A
    validation and a rotation run over several turns of the event loop, one
    database statement each, and are steps; the other operations are one
    guarded statement with its preceding read.  JSON columns hold the values
    they encode; SHA-256 and the random keys are parameters and arguments. *)

From Stdlib Require Import Ascii.
From S2P Require Import Prelude JsString JsMap JsDate Errors.
Local Open Scope Z_scope.

Module ApiKeys.
Import Errors.

Inductive key_status := ACTIVE | DEPRECATED | REVOKED.
#[export] Instance key_status_eq_dec : EqDecision key_status.
Proof. solve_decision. Defined.

Record key_row := mk_key {
  id : Z;
  key_hash : string;
  key_prefix : string;
  name : string;
  role : string;
  status : key_status;
  created_by : option string;
  metadata : list (string * string);
  expires_at : option Z;
  last_used_at : option Z;
  deprecated_at : option Z;
  revoked_at : option Z;
  created_at : Z;
  grace_period_days : Z;
  rotated_to_id : option Z;
  signing_required : bool;
  key_secret : option string;
  scopes : list string;
  allowed_ips : option (list string);
  notification_email : option string;
  last_expiry_notification : option Z;
  monthly_quota : option Z;
  quota_used : Z;
  quota_reset_at : option Z;
  rate_limit_per_minute : option Z;                     (* added by migration 031 *)
}.

(** What [validateApiKey] returns. *)
Record key_info := mk_info {
  i_id : Z;
  i_prefix : string;
  i_name : string;
  i_role : string;
  i_scopes : list string;
  i_status : key_status;
  i_isDeprecated : bool;
  i_last_used_at : Z;
  i_metadata : list (string * string);
  i_gracePeriodDays : Z;
  i_createdAt : Z;
  i_expiresAt : option Z;
  i_signingRequired : bool;
  i_keySecret : option string;
  i_allowedIps : option (list string);
  i_monthlyQuota : option Z;
  i_quotaUsed : Z;
  i_quotaResetAt : option Z;
  i_notificationEmail : option string;
  i_rateLimitPerMinute : option Z;
}.

Record st := mk_st {
  rows : list key_row;
  next_id : Z;                                          (* AUTOINCREMENT *)
  keyCache : list (string * (option key_info * Z));     (* value, expiresAt *)
}.
Definition set_rows (l : list key_row) (s : st) : st := mk_st l (next_id s) (keyCache s).
Definition set_cache (c : list (string * (option key_info * Z))) (s : st) : st := mk_st (rows s) (next_id s) c.

(** A number that is absent or 0 is falsy. *)
Definition nonzero (o : option Z) : option Z :=
  match o with Some 0 => None | o => o end.
Lemma nonzero_Some o x : nonzero o = Some x → o = Some x.
Proof. by destruct o as [[]|]. Qed.
Definition msDay : Z := 24 * 60 * 60 * 1000.

(** UPDATE ... WHERE p: the number of changes and the rows. *)
Definition update_where (p : key_row → bool) (f : key_row → key_row) (l : list key_row) : nat * list key_row :=
  (length (filter (λ r, p r = true) l), (λ r, if p r then f r else r) <$> l).
Definition by_id (i : Z) (r : key_row) : bool := id r =? i.
Definition get_by_id (i : Z) (s : st) : option key_row := find_first (by_id i) (rows s).
Definition get_by_hash (h : string) (s : st) : option key_row :=
  find_first (λ r, bool_decide (key_hash r = h)) (rows s).
Definition is_active (r : key_row) : bool := bool_decide (status r = ACTIVE).
Definition is_revoked (r : key_row) : bool := bool_decide (status r = REVOKED).

(** Updates of single columns. *)
Definition with_status (x : key_status) (dep rev : option Z) (r : key_row) : key_row :=
  mk_key (id r) (key_hash r) (key_prefix r) (name r) (role r) x (created_by r) (metadata r) (expires_at r)
    (last_used_at r) dep rev (created_at r) (grace_period_days r) (rotated_to_id r) (signing_required r)
    (key_secret r) (scopes r) (allowed_ips r) (notification_email r) (last_expiry_notification r)
    (monthly_quota r) (quota_used r) (quota_reset_at r) (rate_limit_per_minute r).
Definition with_rotated (to days : Z) (r : key_row) : key_row :=
  mk_key (id r) (key_hash r) (key_prefix r) (name r) (role r) (status r) (created_by r) (metadata r) (expires_at r)
    (last_used_at r) (deprecated_at r) (revoked_at r) (created_at r) days (Some to) (signing_required r)
    (key_secret r) (scopes r) (allowed_ips r) (notification_email r) (last_expiry_notification r)
    (monthly_quota r) (quota_used r) (quota_reset_at r) (rate_limit_per_minute r).
Definition with_used (t : Z) (r : key_row) : key_row :=
  mk_key (id r) (key_hash r) (key_prefix r) (name r) (role r) (status r) (created_by r) (metadata r) (expires_at r)
    (Some t) (deprecated_at r) (revoked_at r) (created_at r) (grace_period_days r) (rotated_to_id r) (signing_required r)
    (key_secret r) (scopes r) (allowed_ips r) (notification_email r) (last_expiry_notification r)
    (monthly_quota r) (quota_used r) (quota_reset_at r) (rate_limit_per_minute r).
Definition with_expiry (e : Z) (r : key_row) : key_row :=
  mk_key (id r) (key_hash r) (key_prefix r) (name r) (role r) (status r) (created_by r) (metadata r) (Some e)
    (last_used_at r) (deprecated_at r) (revoked_at r) (created_at r) (grace_period_days r) (rotated_to_id r)
    (signing_required r) (key_secret r) (scopes r) (allowed_ips r) (notification_email r)
    (last_expiry_notification r) (monthly_quota r) (quota_used r) (quota_reset_at r) (rate_limit_per_minute r).
Definition with_quota (used : Z) (reset : option Z) (r : key_row) : key_row :=
  mk_key (id r) (key_hash r) (key_prefix r) (name r) (role r) (status r) (created_by r) (metadata r) (expires_at r)
    (last_used_at r) (deprecated_at r) (revoked_at r) (created_at r) (grace_period_days r) (rotated_to_id r)
    (signing_required r) (key_secret r) (scopes r) (allowed_ips r) (notification_email r)
    (last_expiry_notification r) (monthly_quota r) used reset (rate_limit_per_minute r).
Definition with_notified (d : Z) (r : key_row) : key_row :=
  mk_key (id r) (key_hash r) (key_prefix r) (name r) (role r) (status r) (created_by r) (metadata r) (expires_at r)
    (last_used_at r) (deprecated_at r) (revoked_at r) (created_at r) (grace_period_days r) (rotated_to_id r)
    (signing_required r) (key_secret r) (scopes r) (allowed_ips r) (notification_email r) (Some d)
    (monthly_quota r) (quota_used r) (quota_reset_at r) (rate_limit_per_minute r).

(** The first day of the next month, at midnight UTC; [None] is NaN. *)
Definition getNextMonthFirstDay (now : Z) : option Z :=
  let year := getUTCFullYear now in
  let month := getUTCMonth now in
  let nextMonth := if month =? 11 then 0 else month + 1 in
  let nextYear := if month =? 11 then year + 1 else year in
  Date_UTC nextYear nextMonth 1 0 0 0 0.

Section keys.
(** SHA-256 and API_KEY_CACHE_TTL_MS. *)
Context (sha256 : string → string) (TTL : Z).

(** ** The cache *)

(** The outer [None] is a miss; a cached null is a miss for the caller too. *)
Definition getCachedKey (now : Z) (h : string) (s : st) : option key_info * st :=
  match map_get (keyCache s) h with
  | None => (None, s)
  | Some (value, expiresAt) =>
      if expiresAt <? now then (None, set_cache (map_del (keyCache s) h) s) else (value, s)
  end.
Definition setCachedKey (now : Z) (h : string) (value : option key_info) (s : st) : st :=
  set_cache (map_set (keyCache s) h (value, now + TTL)) s.
Definition invalidateCachedKey (h : string) (s : st) : st := set_cache (map_del (keyCache s) h) s.
Definition invalidateAllCachedKeys (s : st) : st := set_cache [] s.

(** ** Creation *)

Record create_opts := mk_opts {
  o_name : string;
  o_role : string;
  o_expiresInDays : option Z;
  o_createdBy : option string;
  o_metadata : list (string * string);
  o_gracePeriodDays : Z;
  o_signingRequired : bool;
  o_allowedIps : option (list string);
  o_notificationEmail : option string;
  o_monthlyQuota : option Z;
  o_scopes : list string;
}.

(** The new row; [key_hash] is UNIQUE. *)
Definition createApiKey (now : Z) (rawKey keySecret : string) (o : create_opts) : stx jserror st key_row := λ s,
  let keyHash := sha256 rawKey in
  let expiresAt := match nonzero (o_expiresInDays o) with Some d => Some (now + d * msDay) | None => None end in
  let allowedIps := match o_allowedIps o with Some (x :: l) => Some (x :: l) | _ => None end in
  let quotaResetAt := match nonzero (o_monthlyQuota o) with Some _ => getNextMonthFirstDay now | None => None end in
  let email := match o_notificationEmail o with Some e => if is_empty e then None else Some e | None => None end in
  let createdBy := match o_createdBy o with Some e => if is_empty e then None else Some e | None => None end in
  let row := mk_key (next_id s) keyHash (str_take 8 rawKey) (o_name o) (o_role o) ACTIVE createdBy
    (o_metadata o) expiresAt None None None now (o_gracePeriodDays o) None (o_signingRequired o)
    (Some keySecret) (o_scopes o) allowedIps email None (o_monthlyQuota o) 0 quotaResetAt None in
  if bool_decide (is_Some (get_by_hash keyHash s)) then (Throw EUnique, s)
  else (Ret row, mk_st (rows s ++ [row]) (next_id s + 1) (keyCache s)).

Definition generateApiKey (now : Z) (rawKey keySecret nm rl : string) (expiresInDays : option Z)
    (md : list (string * string)) : stx jserror st key_row :=
  createApiKey now rawKey keySecret (mk_opts nm rl expiresInDays None md 30 false None None None []).

(** ** Quotas *)

Definition resetQuota (now keyId : Z) (s : st) : bool * st :=
  let nextReset := getNextMonthFirstDay now in
  let '(n, l) := update_where (by_id keyId) (with_quota 0 nextReset) (rows s) in
  (bool_decide (0 < n)%nat, set_rows l s).

(** quotaUsed and quotaRemaining *)
Definition incrementQuota (keyId : Z) : stx jserror st (Z * option Z) := λ s,
  let '(n, l) := update_where (by_id keyId) (λ r, with_quota (quota_used r + 1) (quota_reset_at r) r) (rows s) in
  let s := set_rows l s in
  match get_by_id keyId s with
  | None => (Throw (EPlain "API key not found"), s)
  | Some r => (Ret (quota_used r, (λ q, q - quota_used r) <$> monthly_quota r), s)
  end.

Definition quota_due (now : Z) (r : key_row) : bool :=
  match quota_reset_at r with Some t => t <=? now | None => false end.

Definition resetExpiredQuotas (now : Z) (s : st) : nat * st :=
  let nextReset := getNextMonthFirstDay now in
  let '(n, l) := update_where (λ r, bool_decide (is_Some (monthly_quota r)) && quota_due now r)
                   (with_quota 0 nextReset) (rows s) in
  (n, set_rows l s).

(** ** Validation *)

(** Where a call of [validateApiKey] stands: the statement it awaits. *)
Inductive vphase :=
| VRead
| VReset (row : key_row)
| VTouch (row : key_row)
| VStore (row : key_row)
| VDone (answer : option key_info).

Definition info_of (now : Z) (row : key_row) : key_info :=
  mk_info (id row) (key_prefix row) (name row) (role row) (scopes row) (status row)
    (bool_decide (status row = DEPRECATED)) now (metadata row)
    (default 30 (nonzero (Some (grace_period_days row)))) (created_at row) (nonzero (expires_at row))
    (signing_required row) (match key_secret row with Some k => if is_empty k then None else Some k | None => None end)
    (allowed_ips row) (monthly_quota row) (quota_used row) (quota_reset_at row)
    (match notification_email row with Some e => if is_empty e then None else Some e | None => None end)
    (nonzero (rate_limit_per_minute row)).

Definition validate_start (now : Z) (h : string) (s : st) : vphase * st :=
  let '(cached, s) := getCachedKey now h s in
  match cached with
  | Some info => (VDone (Some info), s)
  | None => (VRead, s)
  end.

Definition expired (now : Z) (row : key_row) : bool :=
  match nonzero (expires_at row) with Some e => e <? now | None => false end.
Definition reset_due (now : Z) (row : key_row) : bool :=
  match nonzero (monthly_quota row), nonzero (quota_reset_at row) with
  | Some _, Some t => t <=? now
  | _, _ => false
  end.

(** One statement; [now] is the time of the call, [clock] of the step. *)
Definition validate_step (now clock : Z) (h : string) (p : vphase) (s : st) : vphase * st :=
  match p with
  | VRead =>
      match get_by_hash h s with
      | None => (VDone None, setCachedKey clock h None s)
      | Some row =>
          if is_revoked row then (VDone None, setCachedKey clock h None s)
          else if expired now row then (VDone None, setCachedKey clock h None s)
          else if reset_due now row then (VReset row, s)
          else (VTouch row, s)
      end
  | VReset row =>
      let '(_, s) := resetQuota clock (id row) s in
      (VTouch (with_quota 0 (getNextMonthFirstDay clock) row), s)
  | VTouch row =>
      let '(_, l) := update_where (by_id (id row)) (with_used now) (rows s) in
      (VStore row, set_rows l s)
  | VStore row =>
      let result := info_of now row in
      (VDone (Some result), setCachedKey clock h (Some result) s)
  | VDone answer => (VDone answer, s)
  end.

Fixpoint validate_run (fuel : nat) (now clock : Z) (h : string) (p : vphase) (s : st) : vphase * st :=
  match fuel with
  | O => (p, s)
  | S fuel => let '(p, s) := validate_step now clock h p s in validate_run fuel now clock h p s
  end.

(** A call nothing interleaves with, at one instant: four statements at most. *)
Definition validateApiKey (now : Z) (rawKey : string) (s : st) : option key_info * st :=
  let h := sha256 rawKey in
  let '(p, s) := validate_start now h s in
  match validate_run 4 now now h p s with
  | (VDone answer, s) => (answer, s)
  | (_, s) => (None, s)
  end.
Definition validateKey : Z → string → st → option key_info * st := validateApiKey.

(** ** Queries *)

Definition key_matches (fstatus : option key_status) (frole : option string) (r : key_row) : bool :=
  match fstatus with Some x => bool_decide (status r = x) | None => true end &&
  match frole with Some x => if is_empty x then true else bool_decide (role r = x) | None => true end.
(** ORDER BY created_at DESC; equal times in the order of the table. *)
Definition listApiKeys (fstatus : option key_status) (frole : option string) (s : st) : list key_row :=
  js_sort (λ a b, created_at b - created_at a) (filter (λ r, key_matches fstatus frole r = true) (rows s)).
Definition getApiKeyById (i : Z) (s : st) : option key_row := get_by_id i s.

(** ** Life cycle *)

(** Invalidate the entry of the row read before the update. *)
Definition invalidate_of (row : option key_row) (changes : nat) (s : st) : st :=
  match row with
  | Some r => if bool_decide (0 < changes)%nat then invalidateCachedKey (key_hash r) s else s
  | None => s
  end.

Definition deprecateApiKey (now i : Z) (s : st) : bool * st :=
  let row := get_by_id i s in
  let '(n, l) := update_where (λ r, by_id i r && is_active r)
                   (λ r, with_status DEPRECATED (Some now) (revoked_at r) r) (rows s) in
  (bool_decide (0 < n)%nat, invalidate_of row n (set_rows l s)).

Definition revokeApiKey (now i : Z) (s : st) : bool * st :=
  let row := get_by_id i s in
  let '(n, l) := update_where (λ r, by_id i r && negb (is_revoked r))
                   (λ r, with_status REVOKED (deprecated_at r) (Some now) r) (rows s) in
  (bool_decide (0 < n)%nat, invalidate_of row n (set_rows l s)).

(** The fields of an update: [None] leaves a column. *)
Record updates := mk_updates {
  u_name : option string;
  u_role : option string;
  u_metadata : option (list (string * string));
  u_signing_required : option bool;
  u_allowed_ips : option (option (list string));
  u_notification_email : option (option string);
}.
Definition no_fields (u : updates) : bool :=
  match u with mk_updates None None None None None None => true | _ => false end.
Definition with_updates (u : updates) (r : key_row) : key_row :=
  mk_key (id r) (key_hash r) (key_prefix r) (default (name r) (u_name u)) (default (role r) (u_role u)) (status r)
    (created_by r) (default (metadata r) (u_metadata u)) (expires_at r) (last_used_at r) (deprecated_at r)
    (revoked_at r) (created_at r) (grace_period_days r) (rotated_to_id r)
    (default (signing_required r) (u_signing_required u)) (key_secret r) (scopes r)
    (default (allowed_ips r) (u_allowed_ips u)) (default (notification_email r) (u_notification_email u))
    (last_expiry_notification r) (monthly_quota r) (quota_used r) (quota_reset_at r) (rate_limit_per_minute r).
Definition updateApiKey (i : Z) (u : updates) (s : st) : bool * st :=
  if no_fields u then (false, s)
  else let '(n, l) := update_where (by_id i) (with_updates u) (rows s) in
       (bool_decide (0 < n)%nat, set_rows l s).

Definition cleanupOldKeys (now retentionDays : Z) (s : st) : nat * st :=
  let cutoff := now - retentionDays * msDay in
  let old r := is_revoked r && match revoked_at r with Some t => t <? cutoff | None => false end in
  (length (filter (λ r, old r = true) (rows s)), set_rows (filter (λ r, old r = false) (rows s)) s).

Definition rotation_opts (old : key_row) (gracePeriodDays : Z) : create_opts :=
  mk_opts (name old +:+ " (rotated)") (role old) None (created_by old) (metadata old) gracePeriodDays false None
    (match notification_email old with Some e => if is_empty e then None else Some e | None => None end)
    None (scopes old).

(** A rotation after its first statement, and its last one. *)
Definition rotate_create (now gracePeriodDays : Z) (rawKey keySecret : string) (old : key_row) : stx jserror st key_row :=
  createApiKey now rawKey keySecret (rotation_opts old gracePeriodDays).
Definition rotate_deprecate (now oldKeyId gracePeriodDays newId : Z) (s : st) : st :=
  set_rows (update_where (by_id oldKeyId)
    (λ r, with_rotated newId gracePeriodDays (with_status DEPRECATED (Some now) (revoked_at r) r)) (rows s)).2 s.

(** The new key with the time the old one is to be revoked. *)
Definition rotateApiKey (now oldKeyId gracePeriodDays : Z) (rawKey keySecret : string)
    : stx jserror st (option (key_row * Z)) :=
  s ← get_st;
  match get_by_id oldKeyId s with
  | None => mret None
  | Some old =>
      if is_revoked old then mret None
      else
        newKey ← rotate_create now gracePeriodDays rawKey keySecret old;
        modify_st (rotate_deprecate now oldKeyId gracePeriodDays (id newKey));;
        mret (Some (newKey, now + gracePeriodDays * msDay))
  end.

Definition grace_over (now : Z) (r : key_row) : bool :=
  bool_decide (status r = DEPRECATED) &&
  match deprecated_at r with Some t => t + grace_period_days r * 86400000 <=? now | None => false end.
Definition revokeExpiredDeprecatedKeys (now : Z) (s : st) : nat * st :=
  let '(n, l) := update_where (grace_over now) (λ r, with_status REVOKED (deprecated_at r) (Some now) r) (rows s) in
  (n, set_rows l s).

(** Old and new expiry. *)
Definition extendApiKey (now i days : Z) : stx jserror st (option (option Z * Z)) := λ s,
  match get_by_id i s with
  | None => (Ret None, s)
  | Some row =>
      if is_revoked row then (Throw (EPlain "Cannot extend a revoked key"), s)
      else
        let oldExpiresAt := nonzero (expires_at row) in
        let newExpiresAt := default now oldExpiresAt + days * msDay in
        let '(_, l) := update_where (by_id i) (with_expiry newExpiresAt) (rows s) in
        let s := set_rows l s in
        (Ret (Some (oldExpiresAt, newExpiresAt)),
         if is_empty (key_hash row) then s else invalidateCachedKey (key_hash row) s)
  end.

(** ** Notifications of expiry *)

Definition to_notify (now withinDays : Z) (r : key_row) : bool :=
  is_active r &&
  match expires_at r with Some e => (now <? e) && (e <=? now + withinDays * msDay) | None => false end &&
  match last_expiry_notification r with Some d => withinDays <? d | None => true end.
Definition getKeysExpiringWithin (now withinDays : Z) (s : st) : list key_row :=
  filter (λ r, to_notify now withinDays r = true) (rows s).
Definition markExpiryNotificationSent (i thresholdDays : Z) (s : st) : st :=
  set_rows (update_where (by_id i) (with_notified thresholdDays) (rows s)).2 s.

(** ** Concurrent requests

    Calls of [validateApiKey] and rotations in flight advance one statement
    at a time; the other operations are atomic. *)

Inductive op :=
| OpCreate (now : Z) (rawKey keySecret : string) (o : create_opts)
| OpDeprecate (now i : Z)
| OpRevoke (now i : Z)
| OpUpdate (i : Z) (u : updates)
| OpCleanup (now retentionDays : Z)
| OpRevokeExpired (now : Z)
| OpExtend (now i days : Z)
| OpResetQuota (now i : Z)
| OpIncrement (i : Z)
| OpResetExpired (now : Z)
| OpNotified (i thresholdDays : Z)
| OpFlush.

Definition run_op (o : op) (s : st) : st :=
  match o with
  | OpCreate now raw sec o => (createApiKey now raw sec o s).2
  | OpDeprecate now i => (deprecateApiKey now i s).2
  | OpRevoke now i => (revokeApiKey now i s).2
  | OpUpdate i u => (updateApiKey i u s).2
  | OpCleanup now d => (cleanupOldKeys now d s).2
  | OpRevokeExpired now => (revokeExpiredDeprecatedKeys now s).2
  | OpExtend now i d => (extendApiKey now i d s).2
  | OpResetQuota now i => (resetQuota now i s).2
  | OpIncrement i => (incrementQuota i s).2
  | OpResetExpired now => (resetExpiredQuotas now s).2
  | OpNotified i d => markExpiryNotificationSent i d s
  | OpFlush => invalidateAllCachedKeys s
  end.

Record call := mk_call { c_now : Z; c_hash : string; c_phase : vphase }.
(** A rotation that has read its row, or created the new key. *)
Inductive rotation := RRead (row : key_row) (grace : Z) | RCreated (oldId grace newId : Z).
Definition rot_id (r : rotation) : Z := match r with RRead row _ => id row | RCreated i _ _ => i end.
Record sys := mk_sys { db : st; calls : list call; rots : list rotation }.

(** New keys do not hash to [h]. *)
Definition creates_not (h : string) (o : op) : Prop :=
  match o with OpCreate _ raw _ _ => sha256 raw ≠ h | _ => True end.

Inductive sys_step (h : string) : sys → sys → Prop :=
| step_op o s cs rs : creates_not h o → sys_step h (mk_sys s cs rs) (mk_sys (run_op o s) cs rs)
| step_start now raw p s s' cs rs :
    validate_start now (sha256 raw) s = (p, s') →
    sys_step h (mk_sys s cs rs) (mk_sys s' (cs ++ [mk_call now (sha256 raw) p]) rs)
| step_call i c clock p s s' cs rs :
    cs !! i = Some c →
    validate_step (c_now c) clock (c_hash c) (c_phase c) s = (p, s') →
    sys_step h (mk_sys s cs rs) (mk_sys s' (<[i := mk_call (c_now c) (c_hash c) p]> cs) rs)
| step_rotate i grace row s cs rs :
    get_by_id i s = Some row → is_revoked row = false →
    sys_step h (mk_sys s cs rs) (mk_sys s cs (rs ++ [RRead row grace]))
| step_rotate_create j now row grace raw sec new s s' cs rs :
    rs !! j = Some (RRead row grace) → sha256 raw ≠ h →
    rotate_create now grace raw sec row s = (Ret new, s') →
    sys_step h (mk_sys s cs rs) (mk_sys s' cs (<[j := RCreated (id row) grace (id new)]> rs))
| step_rotate_done j now i grace newId s cs rs :
    rs !! j = Some (RCreated i grace newId) →
    sys_step h (mk_sys s cs rs) (mk_sys (rotate_deprecate now i grace newId s) cs (delete j rs)).

(** ** The table *)

(** The primary key, and UNIQUE(key_hash). *)
Record wf (s : st) : Prop := {
  wf_ids : NoDup (id <$> rows s);
  wf_hashes : NoDup (key_hash <$> rows s);
  wf_next : Forall (λ r, id r < next_id s) (rows s);
}.

Lemma get_by_id_elem i s row : get_by_id i s = Some row → row ∈ rows s ∧ id row = i.
Proof. intros [Hin Hid]%find_first_Some. unfold by_id in Hid. by apply Z.eqb_eq in Hid. Qed.
Lemma get_by_hash_elem h s row : get_by_hash h s = Some row → row ∈ rows s ∧ key_hash row = h.
Proof. intros [Hin Hh]%find_first_Some. by apply bool_decide_eq_true in Hh. Qed.

Lemma update_fmap {B} (g : key_row → B) p f l : (∀ r, g (f r) = g r) →
  g <$> (update_where p f l).2 = g <$> l.
Proof. intros Hf. cbn. rewrite <- list_fmap_compose. apply list_fmap_ext. intros i r _. cbn. by case_match. Qed.

Lemma update_wf p f s : (∀ r, id (f r) = id r ∧ key_hash (f r) = key_hash r) → wf s →
  wf (set_rows (update_where p f (rows s)).2 s).
Proof.
  intros Hf [Hi Hh Hn].
  assert (H1 : ∀ r, id (f r) = id r) by apply Hf. assert (H2 : ∀ r, key_hash (f r) = key_hash r) by apply Hf.
  split; cbn [set_rows rows next_id]; [by rewrite update_fmap|by rewrite update_fmap|].
  cbn. apply Forall_fmap. eapply Forall_impl; [exact Hn|]. intros r Hr. cbn. case_match; [by rewrite H1|done].
Qed.

Lemma cache_wf c s : wf s → wf (set_cache c s).
Proof. by intros []. Qed.
Lemma invalidate_of_wf row n s : wf s → wf (invalidate_of row n s).
Proof. intros. unfold invalidate_of. destruct row; [|done]. case_bool_decide; [by apply cache_wf|done]. Qed.
Lemma filter_wf P `{∀ r, Decision (P r)} s : wf s → wf (set_rows (filter P (rows s)) s).
Proof.
  intros [Hi Hh Hn]. split; cbn [set_rows rows next_id].
  - eapply sublist_NoDup; [exact Hi|]. apply fmap_sublist, sublist_filter.
  - eapply sublist_NoDup; [exact Hh|]. apply fmap_sublist, sublist_filter.
  - apply Forall_forall. intros r [_ Hin]%list_elem_of_filter. rewrite Forall_forall in Hn. by apply Hn.
Qed.

Lemma create_wf now raw sec o s : wf s → wf (createApiKey now raw sec o s).2.
Proof.
  intros [Hi Hh Hn]. unfold createApiKey. case_bool_decide as Hdup; [by split|]. cbn [snd].
  rewrite Forall_forall in Hn. split; cbn [rows next_id].
  - rewrite fmap_app. apply NoDup_app. split_and!; [done| |apply NoDup_singleton].
    intros i (r & -> & Hin)%list_elem_of_fmap Hx%list_elem_of_singleton. cbn in Hx. specialize (Hn r Hin). lia.
  - rewrite fmap_app. apply NoDup_app. split_and!; [done| |apply NoDup_singleton].
    intros h (r & -> & Hin)%list_elem_of_fmap Hx%list_elem_of_singleton. cbn in Hx. apply Hdup. unfold get_by_hash.
    destruct (find_first _ (rows s)) eqn:Hf; [done|]. apply (find_first_None _ _ r Hf) in Hin.
    by rewrite bool_decide_true in Hin.
  - apply Forall_forall. intros r [Hin| ->%list_elem_of_singleton]%elem_of_app; [specialize (Hn r Hin)|]; cbn; lia.
Qed.

Lemma run_op_wf o s : wf s → wf (run_op o s).
Proof.
  intros Hs. destruct o; cbn [run_op].
  - by apply create_wf.
  - apply invalidate_of_wf, update_wf; [by intros []|done].
  - apply invalidate_of_wf, update_wf; [by intros []|done].
  - unfold updateApiKey. case_match; [done|]. by apply update_wf; [intros []|].
  - by apply filter_wf.
  - by apply update_wf; [intros []|].
  - unfold extendApiKey. destruct (get_by_id i s) as [row|]; [|done]. destruct (is_revoked row); [done|].
    cbn [snd]. destruct (is_empty (key_hash row)); [|apply cache_wf]; by apply update_wf; [intros []|].
  - by apply update_wf; [intros []|].
  - unfold incrementQuota. cbn [update_where]. case_match; cbn [snd]; by apply (update_wf (by_id i)); [intros []|].
  - by apply update_wf; [intros []|].
  - by apply update_wf; [intros []|].
  - by apply cache_wf.
Qed.

(** ** A revoked key stays out *)

(** What the key [k] with hash [h] looks like once it is revoked. *)
Definition row_out (h : string) (k : Z) (r : key_row) : Prop :=
  (id r = k ↔ key_hash r = h) ∧ (key_hash r = h → status r = REVOKED).
Definition call_out (h : string) (c : call) : Prop :=
  c_hash c = h → c_phase c = VRead ∨ c_phase c = VDone None.
Record out (h : string) (k : Z) (s : sys) : Prop := {
  out_rows : Forall (row_out h k) (rows (db s));
  out_next : k < next_id (db s);
  out_cache : ∀ v e, map_get (keyCache (db s)) h = Some (v, e) → v = None;
  out_calls : Forall (call_out h) (calls s);
  out_rots : Forall (λ r, rot_id r ≠ k) (rots s);
}.
(** The part that concerns the database. *)
Definition db_out (h : string) (k : Z) (s : st) : Prop :=
  Forall (row_out h k) (rows s) ∧ k < next_id s ∧ (∀ v e, map_get (keyCache s) h = Some (v, e) → v = None).

(** An update that does not move or revive the key. *)
Lemma update_out h k p f (l : list key_row) :
  (∀ r, id (f r) = id r ∧ key_hash (f r) = key_hash r) →
  (∀ r, p r = true → status r = REVOKED → id r = k → status (f r) = REVOKED) →
  Forall (row_out h k) l → Forall (row_out h k) (update_where p f l).2.
Proof.
  intros Hf Hp Hl. cbn. apply Forall_fmap. eapply Forall_impl; [exact Hl|]. intros r [Hik Hst]. cbn.
  destruct (p r) eqn:Hpr; [|by split]. destruct (Hf r) as [H1 H2]. unfold row_out. rewrite H1, H2.
  split; [done|]. intros Hh. apply Hp; naive_solver.
Qed.

Lemma set_rows_out h k l s : Forall (row_out h k) l → db_out h k s → db_out h k (set_rows l s).
Proof. intros Hl (_ & ? & ?). by split_and!. Qed.

Lemma invalidate_out h k h' s : db_out h k s → db_out h k (invalidateCachedKey h' s).
Proof.
  intros (? & ? & Hc). split_and!; [done..|]. intros v e. cbn. rewrite map_get_del. case_decide; [done|apply Hc].
Qed.
Lemma invalidate_of_out h k row n s : db_out h k s → db_out h k (invalidate_of row n s).
Proof. intros. unfold invalidate_of. destruct row; [|done]. case_bool_decide; [by apply invalidate_out|done]. Qed.

Lemma setCached_out h k clock h' v s : (h' = h → v = None) → db_out h k s → db_out h k (setCachedKey clock h' v s).
Proof.
  intros Hv (? & ? & Hc). split_and!; [done..|]. intros v' e. cbn. rewrite map_get_set.
  case_decide; [naive_solver|apply Hc].
Qed.

Lemma create_out h k now raw sec o s : sha256 raw ≠ h → db_out h k s → db_out h k (createApiKey now raw sec o s).2.
Proof.
  intros Hne (Hr & Hn & Hc). unfold createApiKey. case_bool_decide; [by split_and!|]. cbn [snd].
  split_and!; [|cbn; lia|done]. cbn. apply Forall_app. split; [done|]. apply Forall_singleton.
  split; cbn; [split; [lia|done]|done].
Qed.

Ltac row_update := apply set_rows_out; [apply update_out; [by intros []| |done]|done].

Lemma run_op_out h k o s : creates_not h o → db_out h k s → db_out h k (run_op o s).
Proof.
  intros Hne Hs. pose proof Hs as (Hr & Hn & Hc). destruct o; cbn [run_op creates_not] in *.
  - by apply create_out.
  - apply invalidate_of_out. row_update. intros r [_ Ha]%andb_prop Hrev. unfold is_active in Ha.
    apply bool_decide_eq_true in Ha. congruence.
  - apply invalidate_of_out. row_update. done.
  - unfold updateApiKey. case_match; [done|]. row_update. done.
  - apply set_rows_out; [|done]. apply Forall_forall.
    intros r [_ Hin]%list_elem_of_filter. rewrite Forall_forall in Hr. by apply Hr.
  - row_update. done.
  - unfold extendApiKey. destruct (get_by_id i s) as [row|] eqn:Hg; [|done]. destruct (is_revoked row); [done|].
    cbn [snd]. destruct (is_empty (key_hash row)); [|apply invalidate_out]; row_update; done.
  - row_update. done.
  - unfold incrementQuota. cbn [update_where]. case_match; cbn [snd]; row_update; done.
  - row_update. done.
  - row_update. done.
  - split_and!; [done..|]. done.
Qed.

Lemma find_hash_out h k s row : db_out h k s → get_by_hash h s = Some row → status row = REVOKED.
Proof.
  intros (Hr & _) [Hin Hh]%get_by_hash_elem.
  rewrite Forall_forall in Hr. destruct (Hr _ Hin) as [_ Hst]. auto.
Qed.

Lemma validate_step_out h k c clock p s s' :
  db_out h k s → call_out h c → validate_step (c_now c) clock (c_hash c) (c_phase c) s = (p, s') →
  db_out h k s' ∧ call_out h (mk_call (c_now c) (c_hash c) p).
Proof.
  intros Hs Hc Hstep. unfold call_out in *. cbn [c_hash c_phase].
  destruct (c_phase c) as [|row|row|row|answer] eqn:Hp; cbn [validate_step] in Hstep.
  - destruct (get_by_hash (c_hash c) s) as [row|] eqn:Hg; [|injection Hstep as <- <-; split; [by apply setCached_out|auto]].
    destruct (is_revoked row) eqn:Hrev; [injection Hstep as <- <-; split; [by apply setCached_out|auto]|].
    assert (Hne : c_hash c ≠ h).
    { intros Heq. rewrite Heq in Hg. pose proof (find_hash_out _ _ _ _ Hs Hg) as Hst.
      unfold is_revoked in Hrev. rewrite Hst in Hrev. done. }
    repeat case_match; injection Hstep as <- <-; (split; [|naive_solver]); [by apply setCached_out|done|done].
  - unfold resetQuota in Hstep. cbn [update_where] in Hstep. injection Hstep as <- <-. split; [|naive_solver].
    apply (set_rows_out _ _ (update_where (by_id (id row)) (with_quota 0 (getNextMonthFirstDay clock)) (rows s)).2);
      [apply update_out; [by intros []|done|apply Hs]|done].
  - cbn [update_where] in Hstep. injection Hstep as <- <-. split; [|naive_solver].
    apply (set_rows_out _ _ (update_where (by_id (id row)) (with_used (c_now c)) (rows s)).2);
      [apply update_out; [by intros []|done|apply Hs]|done].
  - injection Hstep as <- <-. split; [|naive_solver]. apply setCached_out; [naive_solver|done].
  - injection Hstep as <- <-. split; [done|naive_solver].
Qed.

Lemma get_by_id_out h k s row : db_out h k s → get_by_id k s = Some row → is_revoked row = true.
Proof.
  intros (Hr & _) [Hin Hid]%get_by_id_elem.
  rewrite Forall_forall in Hr. destruct (Hr _ Hin) as [Hik Hst]. unfold is_revoked. rewrite Hst by by apply Hik. done.
Qed.

Lemma sys_step_out h k s s' : out h k s → sys_step h s s' → out h k s'.
Proof.
  intros [Hr Hn Hc Hcs Hrs] Hstep.
  assert (Hs : db_out h k (db s)) by by split_and!.
  assert (Hmk : ∀ d cs rs, db_out h k d → Forall (call_out h) cs → Forall (λ r, rot_id r ≠ k) rs → out h k (mk_sys d cs rs)).
  { by intros d cs rs (? & ? & ?); split. }
  destruct Hstep; cbn [db calls rots] in *; apply Hmk; try done.
  - by apply run_op_out.
  - unfold validate_start, getCachedKey in H. destruct (map_get (keyCache s) (sha256 raw)) as [[v e]|]; [|by injection H as <- <-].
    destruct (e <? now); [|by destruct v; injection H as <- <-]. injection H as <- <-. by apply (invalidate_out h k (sha256 raw)).
  - apply Forall_app. split; [done|]. apply Forall_singleton. intros Hh. cbn in *. subst h.
    unfold validate_start, getCachedKey in H. destruct (map_get (keyCache s) (sha256 raw)) as [[v e]|] eqn:Hg;
      [|injection H as <- <-; by left]. rewrite (Hc _ _ eq_refl) in H.
    destruct (e <? now); injection H as <- <-; by left.
  - eapply validate_step_out; [done| |done]. eapply Forall_lookup_1; eauto.
  - apply Forall_insert; [done|]. eapply validate_step_out; [exact Hs| |done]. eapply Forall_lookup_1; eauto.
  - apply Forall_app. split; [done|]. apply Forall_singleton. cbn. intros Hk.
    destruct (get_by_id_elem _ _ _ H) as [_ Hid].
    rewrite (get_by_id_out h k s row) in H0; [done|done|congruence].
  - pose proof (create_out h k now raw sec (rotation_opts row grace) s H0 Hs) as Ho.
    unfold rotate_create in H1. by rewrite H1 in Ho.
  - apply Forall_insert; [done|]. cbn. by eapply (Forall_lookup_1 _ _ _ _ Hrs) in H.
  - pose proof (Forall_lookup_1 _ _ _ _ Hrs H) as Hi. cbn in Hi. apply set_rows_out; [|done].
    apply update_out; [by intros []| |done]. intros r Hb _ Hk. unfold by_id in Hb. apply Z.eqb_eq in Hb. congruence.
  - rewrite Forall_forall in Hrs. apply Forall_forall. intros r Hin. apply Hrs.
    apply (elem_of_sublist _ _ _ Hin), sublist_delete.
Qed.

(** C3: A revoked key stays out.  After a revocation succeeded, no validation of the key answers
    with its data, whatever calls of every operation follow and however validations and rotations
    interleave with them, provided no validation of the key and no rotation of it was past its
    first read when the revocation came, and later keys do not have the same hash. *)
Theorem revoked_key_rejected now k row s s' cs rs :
  wf s → get_by_id k s = Some row → (revokeApiKey now k s).1 = true →
  Forall (λ c, c_hash c = key_hash row → c_phase c = VRead) cs → Forall (λ r, rot_id r ≠ k) rs →
  rtc (sys_step (key_hash row)) (mk_sys (revokeApiKey now k s).2 cs rs) s' →
  ∀ c answer, c ∈ calls s' → c_hash c = key_hash row → c_phase c = VDone answer → answer = None.
Proof.
  intros [Hids Hhashes Hnext] Hg Hrev Hcs Hrs Hsteps c answer Hc Hh Hp.
  assert (Hout : out (key_hash row) k s').
  { eapply preserves_rtc; [|exact Hsteps|].
    { intros s1 s2 Ho Hst. by eapply sys_step_out. }
    destruct (get_by_id_elem _ _ _ Hg) as [Hin Hid].
    unfold revokeApiKey in Hrev |- *. rewrite Hg in *. cbn [update_where fst snd invalidate_of] in *.
    apply bool_decide_eq_true in Hrev as Hpos. rewrite bool_decide_true by exact Hpos.
    split; cbn [db calls rots invalidateCachedKey set_cache set_rows rows next_id keyCache].
    - apply Forall_fmap, Forall_forall. intros r Hr. cbn.
      assert (Hiff : id r = k ↔ key_hash r = key_hash row).
      { split; intros Heq; [|rewrite <- Hid]; f_equal; [eapply (fmap_unique id)|eapply (fmap_unique key_hash)]; eauto; congruence. }
      unfold by_id. destruct (Z.eqb_spec (id r) k) as [Hk|Hk]; cbn [andb].
      + destruct (is_revoked r) eqn:Hr'; cbn [negb]; [|by split; cbn].
        split; [done|]. intros _. by apply bool_decide_eq_true in Hr'.
      + split; [done|]. intros Hh'. by apply Hiff in Hh'.
    - rewrite Forall_forall in Hnext. rewrite <- Hid. by apply Hnext.
    - intros v e. by rewrite map_get_del, decide_True by done.
    - eapply Forall_impl; [exact Hcs|]. intros c' Hc' Heq. left. auto.
    - exact Hrs. }
  pose proof (out_calls _ _ _ Hout) as Hcalls. rewrite Forall_forall in Hcalls.
  destruct (Hcalls c Hc Hh) as [Hr|Hr]; congruence.
Qed.

(** ** How stale an answer can be *)

Inductive action :=
| AOp (o : op)
| AValidate (now : Z) (rawKey : string)
| ARotate (now i grace : Z) (rawKey keySecret : string).
Definition run_action (a : action) (s : st) : st :=
  match a with
  | AOp o => run_op o s
  | AValidate now raw => (validateApiKey now raw s).2
  | ARotate now i g raw sec => (rotateApiKey now i g raw sec s).2
  end.

(** An action at time [T] or later: extensions and life times are not negative. *)
Definition op_timed (T : Z) (o : op) : Prop :=
  match o with
  | OpCreate now _ _ o => T <= now ∧ match o_expiresInDays o with Some d => 0 <= d | None => True end
  | OpExtend now _ d => T <= now ∧ 0 <= d
  | OpDeprecate now _ | OpRevoke now _ | OpCleanup now _ | OpRevokeExpired now
  | OpResetQuota now _ | OpResetExpired now => T <= now
  | OpUpdate _ _ | OpIncrement _ | OpNotified _ _ | OpFlush => True
  end.
Definition action_timed (T : Z) (a : action) : Prop :=
  match a with
  | AOp o => op_timed T o
  | AValidate now _ | ARotate now _ _ _ _ => T <= now
  end.
Definition action_time (T : Z) (a : action) : Z :=
  match a with
  | AOp (OpCreate now _ _ _ | OpExtend now _ _ | OpDeprecate now _ | OpRevoke now _ | OpCleanup now _
         | OpRevokeExpired now | OpResetQuota now _ | OpResetExpired now)
  | AValidate now _ | ARotate now _ _ _ _ => now
  | AOp _ => T
  end.
(** Actions in the order of their times. *)
Fixpoint in_order (T : Z) (l : list action) : Prop :=
  match l with
  | [] => True
  | a :: l => action_timed T a ∧ in_order (action_time T a) l
  end.
Fixpoint end_time (T : Z) (l : list action) : Z :=
  match l with [] => T | a :: l => end_time (action_time T a) l end.

(** An entry that ends at [e] was good for the row [r] when it was written. *)
Definition fresh_for (e : Z) (r : key_row) : Prop :=
  (status r = REVOKED → ∃ t, revoked_at r = Some t ∧ e <= t + TTL) ∧
  (∀ x, nonzero (expires_at r) = Some x → e <= x + TTL).
Record timely (T : Z) (s : st) : Prop := {
  t_wf : wf s;
  t_cache : ∀ h info e, map_get (keyCache s) h = Some (Some info, e) →
    e <= T + TTL ∧ ∀ r, r ∈ rows s → key_hash r = h → fresh_for e r;
}.

Lemma timely_later T T' s : T <= T' → timely T s → timely T' s.
Proof.
  intros HT [Hh Hc]. split; [done|]. intros h info e Hg. destruct (Hc h info e Hg). split; [lia|done].
Qed.

(** Updates of rows that leave the entries good. *)
Lemma update_timely T p f s :
  (∀ r, id (f r) = id r ∧ key_hash (f r) = key_hash r) →
  (∀ r e, r ∈ rows s → p r = true → e <= T + TTL → fresh_for e r → fresh_for e (f r)) →
  timely T s → timely T (set_rows (update_where p f (rows s)).2 s).
Proof.
  intros Hf Hp [Hh Hc]. split; [by apply update_wf|]. intros h info e Hg. destruct (Hc h info e Hg) as [He Hr].
  split; [done|]. cbn. intros r (r0 & -> & Hin)%list_elem_of_fmap Hrh. destruct (p r0) eqn:Hpr; [|by apply Hr].
  rewrite (proj2 (Hf r0)) in Hrh. apply Hp; [done..|]. by apply Hr.
Qed.

(** Entries may go. *)
Lemma del_timely T h s : timely T s → timely T (invalidateCachedKey h s).
Proof.
  intros [Hh Hc]. split; [by apply cache_wf|]. intros h' info e. cbn. rewrite map_get_del. case_decide; [done|apply Hc].
Qed.
Lemma invalidate_of_timely T row n s : timely T s → timely T (invalidate_of row n s).
Proof. intros. unfold invalidate_of. destruct row; [|done]. case_bool_decide; [by apply del_timely|done]. Qed.

Lemma create_timely T now raw sec o s :
  T <= now → match o_expiresInDays o with Some d => 0 <= d | None => True end →
  timely T s → timely T (createApiKey now raw sec o s).2.
Proof.
  intros HT Hd [Hh Hc]. split; [by apply create_wf|].
  unfold createApiKey. case_bool_decide as Hdup; [done|]. cbn [snd].
  cbn. intros h info e Hg. destruct (Hc h info e Hg) as [He Hr]. split; [done|].
    intros r [Hin| ->%list_elem_of_singleton]%elem_of_app; [by apply Hr|]. intros _. split; cbn; [done|].
    intros x Hx%nonzero_Some. destruct (o_expiresInDays o) as [d|]; [|done].
    assert (0 <= d * msDay) by (unfold msDay; lia). destruct d; cbn in Hx; [done|injection Hx as Hx; lia|lia].
Qed.

Lemma run_op_timely T o s : op_timed T o → timely T s → timely T (run_op o s).
Proof.
  intros Ht Hs. destruct o; cbn [run_op op_timed] in *.
  - destruct Ht. by apply create_timely.
  - apply invalidate_of_timely, update_timely; [by intros []| |done].
    intros r e _ _ He [_ Hx]. by split.
  - apply invalidate_of_timely, update_timely; [by intros []| |done].
    intros r e _ _ He [_ Hx]. split; [|done]. intros _. exists now. split; [done|lia].
  - unfold updateApiKey. case_match; [done|]. apply update_timely; [by intros []| |done]. intros r e _ _ He [Hr Hx]. by split.
  - destruct Hs as [Hh Hc]. split; [by apply filter_wf|].
    intros h info e Hg. destruct (Hc h info e Hg) as [He Hr]. split; [done|].
    intros r [_ Hin]%list_elem_of_filter. by apply Hr.
  - apply update_timely; [by intros []| |done]. intros r e _ _ He [_ Hx]. split; [|done]. intros _. exists now. split; [done|lia].
  - unfold extendApiKey. destruct (get_by_id i s) as [row|] eqn:Hg; [|done]. destruct (is_revoked row) eqn:Hrev; [done|].
    destruct Ht as [HT Hd].
    assert (Hu : timely T (set_rows (update_where (by_id i)
      (with_expiry (default now (nonzero (expires_at row)) + days * msDay)) (rows s)).2 s)).
    { apply update_timely; [by intros []| |done]. intros r e Hin Hb He [Hr Hx]. split; [done|]. cbn.
      unfold by_id in Hb. apply Z.eqb_eq in Hb. destruct (get_by_id_elem _ _ _ Hg) as [Hin' Hid].
      assert (r = row) as -> by (eapply (fmap_unique id); [apply Hs|..]; congruence).
      intros x Hxv%(nonzero_Some (Some _)). injection Hxv as Hxv.
      assert (0 <= days * msDay) by (unfold msDay; lia).
      destruct (nonzero (expires_at row)) as [y|]; cbn in Hxv; [specialize (Hx y eq_refl)|]; lia. }
    cbn [snd]. destruct (is_empty (key_hash row)); [|apply del_timely]; exact Hu.
  - apply update_timely; [by intros []| |done]. intros r e _ _ He [Hr Hx]. by split.
  - unfold incrementQuota. cbn [update_where]. case_match; cbn [snd];
      (apply (update_timely T (by_id i)); [by intros []| |done]; intros r e _ _ He [Hr Hx]; by split).
  - apply update_timely; [by intros []| |done]. intros r e _ _ He [Hr Hx]. by split.
  - apply update_timely; [by intros []| |done]. intros r e _ _ He [Hr Hx]. by split.
  - destruct Hs as [Hh Hc]. split; [by apply cache_wf|done].
Qed.

(** A validation run on its own: what it changes and what it answers. *)
Lemma validate_run_spec now h s : ∃ answer s',
  validate_run 4 now now h VRead s = (VDone answer, s') ∧
  next_id s' = next_id s ∧ keyCache s' = map_set (keyCache s) h (answer, now + TTL) ∧
  (∃ f, rows s' = f <$> rows s ∧ ∀ r, id (f r) = id r ∧ key_hash (f r) = key_hash r ∧ status (f r) = status r ∧
     revoked_at (f r) = revoked_at r ∧ expires_at (f r) = expires_at r) ∧
  (∀ info, answer = Some info → ∃ row, get_by_hash h s = Some row ∧ status row ≠ REVOKED ∧ expired now row = false ∧
     i_id info = id row) ∧
  (∀ row, answer = None → get_by_hash h s = Some row → status row = REVOKED ∨ expired now row = true).
Proof.
  assert (Hid : ∀ l : list key_row, l = (λ r, r) <$> l) by (intros; by rewrite list_fmap_id).
  cbn [validate_run validate_step]. destruct (get_by_hash h s) as [row|] eqn:Hg; cycle 1.
  { exists None. eexists. split_and!; [done|done|done|by exists (λ r, r)|done|done]. }
  destruct (is_revoked row) eqn:Hrev.
  { exists None. eexists. split_and!; [done|done|done|by exists (λ r, r)|done|].
    intros ? _ [= <-]. left. by apply bool_decide_eq_true in Hrev. }
  destruct (expired now row) eqn:Hexp.
  { exists None. eexists. split_and!; [done|done|done|by exists (λ r, r)|done|].
    intros ? _ [= <-]. by right. }
  assert (Hst : status row ≠ REVOKED) by (unfold is_revoked in Hrev; by apply bool_decide_eq_false in Hrev).
  destruct (reset_due now row) eqn:Hdue.
  - cbn [resetQuota update_where]. eexists (Some _), _. split_and!; [done|done|done| | |done].
    + exists (λ r, let r := if by_id (id row) r then with_quota 0 (getNextMonthFirstDay now) r else r in
                 if by_id (id row) r then with_used now r else r).
      split; [cbn; by rewrite <- list_fmap_compose|]. intros r. cbn.
      destruct (by_id (id row) r) eqn:Hb; [|by rewrite Hb]. change (by_id (id row) (with_quota 0 (getNextMonthFirstDay now) r)) with (by_id (id row) r).
      by rewrite Hb.
    + intros info [= <-]. by exists row.
  - cbn [update_where]. eexists (Some _), _. split_and!; [done|done|done| | |done].
    + exists (λ r, if by_id (id row) r then with_used now r else r). split; [done|]. intros r. by case_match.
    + intros info [= <-]. by exists row.
Qed.

(** The two outcomes of a call: the cache answers, or the table does. *)
Lemma validate_cases now raw s :
  (∃ info e, map_get (keyCache s) (sha256 raw) = Some (Some info, e) ∧ now <= e ∧
     validateApiKey now raw s = (Some info, s)) ∨
  (∃ c answer s', (c = keyCache s ∨ c = map_del (keyCache s) (sha256 raw)) ∧
     validate_run 4 now now (sha256 raw) VRead (set_cache c s) = (VDone answer, s') ∧
     validateApiKey now raw s = (answer, s')).
Proof.
  unfold validateApiKey, validate_start, getCachedKey.
  destruct (validate_run_spec now (sha256 raw) s) as (a1 & s1 & Hr1 & _).
  destruct (validate_run_spec now (sha256 raw) (set_cache (map_del (keyCache s) (sha256 raw)) s)) as (a2 & s2 & Hr2 & _).
  destruct (map_get (keyCache s) (sha256 raw)) as [[v e]|] eqn:Hg.
  - destruct (Z.ltb_spec e now); [|destruct v as [info|]].
    + right. eexists _, a2, s2. split; [by right|]. by rewrite Hr2.
    + left. by exists info, e.
    + right. exists (keyCache s), a1, s1. split; [by left|]. destruct s. cbn in *. by rewrite Hr1.
  - right. exists (keyCache s), a1, s1. split; [by left|]. destruct s. cbn in *. by rewrite Hr1.
Qed.

(** A key that is refused is refused again. *)
Lemma validate_none_again now raw s :
  (validateApiKey now raw s).1 = None → (validateApiKey now raw (validateApiKey now raw s).2).1 = None.
Proof.
  destruct (validate_cases now raw s) as [(info & e & _ & _ & ->)|(c & answer & s1 & _ & Hrun & ->)]; [done|].
  cbn [fst snd]. intros ->. destruct (validate_run_spec now (sha256 raw) (set_cache c s)) as (a & s' & Hr & _ & Hkc & (f & Hrows & Hf) & _ & Hnone).
  rewrite Hrun in Hr. injection Hr as <- <-.
  destruct (validate_cases now raw s1) as [(info & e & Hg & _ & _)|(c' & answer & s2 & _ & Hrun' & ->)].
  { rewrite Hkc, map_get_set_eq in Hg. done. }
  cbn [fst]. destruct (validate_run_spec now (sha256 raw) (set_cache c' s1)) as (a & s' & Hr & _ & _ & _ & Hsome & _).
  rewrite Hrun' in Hr. injection Hr as <- <-. destruct answer as [info|]; [|done]. exfalso.
  destruct (Hsome info eq_refl) as (row & Hg & Hst & Hexp & _). unfold get_by_hash in Hg. cbn [set_cache rows] in Hg, Hrows.
  assert (Hff : ∀ l, find_first (λ r, bool_decide (key_hash r = sha256 raw)) (f <$> l) =
    f <$> find_first (λ r, bool_decide (key_hash r = sha256 raw)) l).
  { induction l as [|r l IH]; [done|]. cbn. destruct (Hf r) as (_ & -> & _). by destruct (bool_decide _). }
  rewrite Hrows, Hff in Hg. destruct (find_first _ (rows s)) as [row0|] eqn:Hg0; [|done]. injection Hg as <-.
  destruct (Hf row0) as (_ & _ & Hs & _ & He). unfold expired in *. rewrite Hs, He in *.
  destruct (Hnone row0 eq_refl Hg0) as [?|?]; congruence.
Qed.

Lemma validate_timely T now raw s : T <= now → 0 <= TTL → timely T s → timely now (validateApiKey now raw s).2.
Proof.
  intros HT Httl Hs. apply (timely_later T now) in Hs; [|done].
  destruct (validate_cases now raw s) as [(info & e & _ & _ & ->)|(c & answer & s' & Hc & Hrun & ->)]; [done|]. cbn [snd].
  assert (Hs0 : timely now (set_cache c s)).
  { destruct Hc as [->| ->]; [by destruct s|]. by apply (del_timely now (sha256 raw)). }
  destruct Hs0 as [Hwf Hcache]. set (s0 := set_cache c s) in *.
  destruct (validate_run_spec now (sha256 raw) s0) as (a & s1 & Hr & Hnext & Hkc & (f & Hrows & Hf) & Ha & _).
  rewrite Hrun in Hr. injection Hr as <- <-. split.
  - destruct Hwf as [Hi Hh Hn].
    assert (H1 : id <$> rows s' = id <$> rows s0).
    { rewrite Hrows, <- list_fmap_compose. apply list_fmap_ext. intros ? r _. apply Hf. }
    assert (H2 : key_hash <$> rows s' = key_hash <$> rows s0).
    { rewrite Hrows, <- list_fmap_compose. apply list_fmap_ext. intros ? r _. apply Hf. }
    split; [by rewrite H1|by rewrite H2|]. rewrite Hrows, Hnext. apply Forall_fmap.
    eapply Forall_impl; [exact Hn|]. intros r Hr. cbn. by rewrite (proj1 (Hf r)).
  - intros h info e Hg. rewrite Hkc, map_get_set in Hg.
    assert (Hfresh : ∀ r, fresh_for e r → fresh_for e (f r)).
    { intros r [Hx Hy]. destruct (Hf r) as (_ & _ & H3 & H4 & H5). split; rewrite ?H3, ?H4, ?H5; done. }
    assert (Hall : e <= now + TTL ∧ ∀ r, r ∈ rows s0 → key_hash r = h → fresh_for e r).
    { case_decide as Hhh; [|by eapply Hcache]. injection Hg as Hans <-. split; [lia|].
      destruct (Ha info Hans) as (row & Hget & Hst & Hexp & _). destruct (get_by_hash_elem _ _ _ Hget) as [Hin Hhash].
      intros r Hrin Hrh. assert (r = row) as -> by (eapply (fmap_unique key_hash); [apply Hwf|..]; congruence).
      split; [done|]. intros x Hx. unfold expired in Hexp. rewrite Hx in Hexp. apply Z.ltb_ge in Hexp. lia. }
    destruct Hall as [He Hall]. split; [done|]. rewrite Hrows. intros r (r0 & -> & Hin)%list_elem_of_fmap Hrh.
    rewrite (proj1 (proj2 (Hf r0))) in Hrh. by apply Hfresh, Hall.
Qed.

Lemma rotate_timely T now i g raw sec s : T <= now → timely T s → timely now (rotateApiKey now i g raw sec s).2.
Proof.
  intros HT Hs. apply (timely_later T now) in Hs; [|done]. unfold rotateApiKey. stx_unfold.
  destruct (get_by_id i s) as [old|]; [|done]. destruct (is_revoked old); [done|].
  pose proof (create_timely now now raw sec (rotation_opts old g) s ltac:(lia) I Hs) as Hc.
  unfold rotate_create. destruct (createApiKey now raw sec _ s) as [[new|e] s1]; [|done]. cbn [snd] in *.
  apply update_timely; [by intros []| |done]. intros r e _ _ _ [_ Hx]. by split.
Qed.

Lemma actions_timely l T s : 0 <= TTL → in_order T l → timely T s →
  timely (end_time T l) (foldl (λ s a, run_action a s) s l).
Proof.
  intros Httl. revert T s. induction l as [|a l IH]; intros T s; [done|]. cbn [in_order end_time foldl].
  intros [Ha Hl] Hs. apply IH; [done|]. destruct a as [o|now raw|now i g raw sec]; cbn [run_action action_time action_timed] in *.
  - pose proof (run_op_timely T o s Ha Hs) as Ho. eapply timely_later; [|exact Ho].
    destruct o; cbn in Ha; lia.
  - by eapply validate_timely.
  - by eapply rotate_timely.
Qed.

(** Answers are stale by the life time of a cache entry at most: whatever happened before, in
    sequence, a key that is accepted was not revoked more than [TTL] ago and did not expire more
    than [TTL] ago. *)
Theorem stale_bound l now raw info r :
  0 <= TTL → in_order 0 l → end_time 0 l <= now →
  let s := foldl (λ s a, run_action a s) (mk_st [] 1 []) l in
  (validateApiKey now raw s).1 = Some info →
  r ∈ rows (validateApiKey now raw s).2 → key_hash r = sha256 raw →
  (status r = REVOKED → ∃ t, revoked_at r = Some t ∧ now <= t + TTL) ∧
  (∀ x, nonzero (expires_at r) = Some x → now <= x + TTL).
Proof.
  intros Httl Hord Hend s Hans Hin Hhash.
  assert (Ht : timely (end_time 0 l) s).
  { apply actions_timely; [done..|]. split; [split; constructor|done]. }
  assert (Hcache : ∃ e, map_get (keyCache (validateApiKey now raw s).2) (sha256 raw) = Some (Some info, e) ∧ now <= e).
  { destruct (validate_cases now raw s) as [(i & e & Hg & He & Hv)|(c & answer & s' & Hc & Hrun & Hv)];
      rewrite Hv in Hans |- *; cbn [fst snd] in *.
    - injection Hans as ->. by exists e.
    - subst answer. destruct (validate_run_spec now (sha256 raw) (set_cache c s)) as (a & s1 & Hr & _ & Hkc & _).
      rewrite Hrun in Hr. injection Hr as <- <-. exists (now + TTL). rewrite Hkc, map_get_set_eq. split; [done|lia]. }
  destruct Hcache as (e & Hg & He). pose proof (validate_timely _ now raw s Hend Httl Ht) as [_ Hfresh].
  destruct (Hfresh _ _ _ Hg) as [_ Hr]. destruct (Hr r Hin Hhash) as [H1 H2]. split.
  - intros Hst. destruct (H1 Hst) as (t & ? & ?). exists t. split; [done|lia].
  - intros x Hx. specialize (H2 x Hx). lia.
Qed.

(** ** Rotation *)

Definition rotated (now grace newId : Z) (r : key_row) : key_row :=
  with_rotated newId grace (with_status DEPRECATED (Some now) (revoked_at r) r).

Lemma get_by_id_update i p f s row :
  (∀ r, id (f r) = id r) → get_by_id i s = Some row →
  get_by_id i (set_rows (update_where p f (rows s)).2 s) = Some (if p row then f row else row).
Proof.
  intros Hf. unfold get_by_id. cbn. induction (rows s) as [|r l IH]; cbn; [done|].
  assert (Hid : by_id i (if p r then f r else r) = by_id i r) by (destruct (p r); unfold by_id; [by rewrite Hf|done]).
  rewrite Hid. destruct (by_id i r); [by intros [= <-]|exact IH].
Qed.

(** Rotation, and what follows.  A successful rotation leaves every other key, deprecates the
    old one, and announces a time; the background job revokes the old key from exactly that time
    on.  The new key has the role and the scopes of the old one, but neither its expiry nor its
    address list, quota or signing requirement. *)
Theorem rotate_spec now i grace raw sec s new t s' :
  wf s → rotateApiKey now i grace raw sec s = (Ret (Some (new, t)), s') →
  ∃ old, get_by_id i s = Some old ∧ status old ≠ REVOKED ∧ t = now + grace * msDay ∧
    rows s' = ((λ r, if by_id i r then rotated now grace (id new) r else r) <$> rows s) ++ [new] ∧
    id new = next_id s ∧ key_hash new = sha256 raw ∧ status new = ACTIVE ∧
    role new = role old ∧ scopes new = scopes old ∧ metadata new = metadata old ∧
    expires_at new = None ∧ allowed_ips new = None ∧ monthly_quota new = None ∧ signing_required new = false ∧
    ∀ now', status <$> get_by_id i (revokeExpiredDeprecatedKeys now' s').2 =
            Some (if t <=? now' then REVOKED else DEPRECATED).
Proof.
  intros [_ _ Hn]. unfold rotateApiKey. stx_unfold.
  destruct (get_by_id i s) as [old|] eqn:Hg; [|by intros [= ? ?]].
  destruct (is_revoked old) eqn:Hrev; [by intros [= ? ?]|].
  unfold rotate_create, createApiKey. case_bool_decide; [by intros [= ? ?]|].
  set (new0 := mk_key _ _ _ _ _ _ _ _ _ _ _ _ _ _ _ _ _ _ _ _ _ _ _ _ _). intros [= <- <- <-].
  destruct (get_by_id_elem _ _ _ Hg) as [Hin Hid].
  assert (Hni : next_id s ≠ i) by (rewrite Forall_forall in Hn; specialize (Hn _ Hin); lia).
  exists old. cbn [rotation_opts o_name o_role o_createdBy o_metadata o_gracePeriodDays o_signingRequired
    o_allowedIps o_notificationEmail o_monthlyQuota o_scopes o_expiresInDays].
  split_and!; try done; [by apply bool_decide_eq_false in Hrev| |].
  - cbn. rewrite fmap_app. f_equal. cbn. unfold by_id. cbn. by destruct (Z.eqb_spec (next_id s) i).
  - intros now'. cbn [id].
    assert (Hg1 : get_by_id i (mk_st (rows s ++ [new0]) (next_id s + 1) (keyCache s)) = Some old).
    { unfold get_by_id in Hg |- *. cbn. clear -Hg. induction (rows s) as [|r l IH]; cbn in *; [done|].
      destruct (by_id i r); [done|by apply IH]. }
    assert (Hg2 : get_by_id i (rotate_deprecate now i grace (next_id s) (mk_st (rows s ++ [new0]) (next_id s + 1) (keyCache s)))
      = Some (rotated now grace (next_id s) old)).
    { unfold rotate_deprecate. rewrite (get_by_id_update i _ _ _ old); [|by intros []|exact Hg1].
      unfold by_id. by rewrite Hid, Z.eqb_refl. }
    set (s2 := rotate_deprecate _ _ _ _ _) in *.
    change (revokeExpiredDeprecatedKeys now' s2).2 with (set_rows (update_where (grace_over now')
      (λ r, with_status REVOKED (deprecated_at r) (Some now') r) (rows s2)).2 s2).
    rewrite (get_by_id_update i (grace_over now') _ s2 (rotated now grace (next_id s) old)); [|by intros []|exact Hg2].
    unfold grace_over. cbn. change 86400000 with msDay. by destruct (_ <=? _).
Qed.

(** ** Races with a revocation *)

(** The provisos of [revoked_key_rejected] are needed.  A rotation that read the key before a
    revocation makes it usable again when it ends; a validation that read it before puts it back
    into the cache, where it is accepted until the entry ends. *)
Theorem revocation_races s k row now :
  wf s → get_by_id k s = Some row → status row ≠ REVOKED →
  let s1 := (revokeApiKey now k s).2 in
  (∀ now2 grace newId raw now3,
     sha256 raw = key_hash row → expired now3 row = false →
     is_Some (validateApiKey now3 raw (rotate_deprecate now2 k grace newId s1)).1) ∧
  (∀ start clock raw now3,
     sha256 raw = key_hash row → now3 <= clock + TTL →
     let s2 := (validate_step start clock (sha256 raw) (VStore row) s1).2 in
     (validateApiKey now3 raw s2).1 = Some (info_of start row)).
Proof.
  intros Hwf Hg Hst s1. destruct (get_by_id_elem _ _ _ Hg) as [Hin Hid].
  assert (Hrev : is_revoked row = false) by by apply bool_decide_eq_false.
  split.
  - intros now2 grace newId raw now3 Hraw Hexp. set (s2 := rotate_deprecate _ _ _ _ _).
    assert (Hwf2 : wf s2).
    { unfold s2, rotate_deprecate. apply update_wf; [by intros []|]. apply (run_op_wf (OpRevoke now k) s Hwf). }
    assert (Hg1 : get_by_id k s1 = Some (with_status REVOKED (deprecated_at row) (Some now) row)).
    { unfold s1, revokeApiKey. rewrite Hg. cbn [update_where snd].
      transitivity (get_by_id k (set_rows (update_where (λ r, by_id k r && negb (is_revoked r))
        (λ r, with_status REVOKED (deprecated_at r) (Some now) r) (rows s)).2 s)).
      { unfold invalidate_of. by case_bool_decide. }
      rewrite (get_by_id_update k _ _ _ row); [|by intros []|done].
      unfold by_id. by rewrite Hid, Z.eqb_refl, Hrev. }
    assert (Hg2 : get_by_id k s2 = Some (rotated now2 grace newId (with_status REVOKED (deprecated_at row) (Some now) row))).
    { unfold s2, rotate_deprecate. rewrite (get_by_id_update k _ _ s1 (with_status REVOKED (deprecated_at row) (Some now) row)); [|by intros []|exact Hg1].
      unfold by_id. cbn. by rewrite Hid, Z.eqb_refl. }
    set (row2 := rotated _ _ _ _) in Hg2. destruct (get_by_id_elem _ _ _ Hg2) as [Hin2 _].
    destruct (validate_cases now3 raw s2) as [(i & e & _ & _ & ->)|(c & answer & s' & Hc & Hrun & ->)]; [by eexists|].
    destruct (validate_run_spec now3 (sha256 raw) (set_cache c s2)) as (a & s3 & Hr & _ & _ & _ & _ & Hnone).
    rewrite Hrun in Hr. injection Hr as <- <-. cbn [fst]. destruct answer as [info|]; [by eexists|]. exfalso.
    assert (Hgh : get_by_hash (sha256 raw) (set_cache c s2) = Some row2).
    { unfold get_by_hash. cbn [set_cache rows]. destruct (find_first _ (rows s2)) as [r|] eqn:Hf.
      - f_equal. apply find_first_Some in Hf as [Hr Hh]. apply bool_decide_eq_true in Hh.
        eapply (fmap_unique key_hash); [apply Hwf2|done|done|]. rewrite Hh, Hraw. done.
      - apply (find_first_None _ _ _ Hf) in Hin2. apply bool_decide_eq_false in Hin2. by rewrite Hraw in Hin2. }
    destruct (Hnone row2 eq_refl Hgh) as [Hbad|Hbad]; [done|]. unfold expired in *. cbn in Hbad. congruence.
  - intros start clock raw now3 Hraw Ht s2. unfold s2. cbn [validate_step snd].
    unfold validateApiKey, validate_start, getCachedKey, setCachedKey. cbn [set_cache keyCache].
    rewrite map_get_set_eq. destruct (Z.ltb_spec (clock + TTL) now3); [lia|done].
Qed.

End keys.

(** ** Quota periods *)

(** The next reset of a quota is the first instant of the next month: in the future, at most 31
    days away. *)
Theorem next_month_spec now :
  0 <= now → now + 31 * msPerDay <= max_time →
  ∃ t, getNextMonthFirstDay now = Some t ∧ now < t <= now + 31 * msPerDay ∧
    TimeWithinDay t = 0 ∧ getUTCDate t = 1 ∧
    (getUTCFullYear t, getUTCMonth t) =
      (if getUTCMonth now =? 11 then (getUTCFullYear now + 1, 0) else (getUTCFullYear now, getUTCMonth now + 1)).
Proof.
  intros Hpos Hmax. pose proof (getUTCFullYear_epoch now Hpos) as Hy70.
  unfold getNextMonthFirstDay, getUTCFullYear, getUTCMonth in *. set (d := Day now) in *.
  pose proof (MonthFromDay_spec d) as [Hm _]. pose proof (DateFromDay_range d) as Hd.
  set (y := YearFromDay d) in *. set (m := MonthFromDay d) in *.
  set (y' := if m =? 11 then y + 1 else y). set (m' := if m =? 11 then 0 else m + 1).
  pose proof (days_in_month_range y m Hm) as Hdim.
  assert (Hday : MakeDay y' m' 1 = d + (days_in_month y m - DateFromDay d) + 1).
  { transitivity (MakeDay y (m + 1) 0 + 1).
    - unfold y', m', MakeDay. destruct (Z.eqb_spec m 11) as [->|]; [|lia].
      change ((11 + 1) / 12) with 1. change ((11 + 1) mod 12) with 0. change (0 / 12) with 0. change (0 mod 12) with 0.
      rewrite (Z.add_0_r (y + 1)). lia.
    - rewrite MakeDay_last by done. pose proof (MakeDay_of_day d (days_in_month y m - DateFromDay d)) as Hk.
      fold y m in Hk. replace (DateFromDay d + (days_in_month y m - DateFromDay d)) with (days_in_month y m) in Hk by lia. lia. }
  assert (Hm' : 0 <= m' <= 11) by (unfold m'; destruct (Z.eqb_spec m 11); lia).
  pose proof (days_in_month_range y' m' Hm') as Hdim'.
  destruct (MakeDay_fields y' m' 1 Hm' ltac:(lia)) as (HY & HM & HD).
  pose proof (Day_split now) as Hsplit. fold d in Hsplit. pose proof (TimeWithinDay_range now) as Hw.
  exists (MakeDay y' m' 1 * msPerDay + 0). destruct (Day_of (MakeDay y' m' 1) 0 ltac:(unfold msPerDay; lia)) as [E1 E2].
  assert (Hlo : now < MakeDay y' m' 1 * msPerDay + 0) by (rewrite Hday; unfold msPerDay in *; nia).
  assert (Hhi : MakeDay y' m' 1 * msPerDay + 0 <= now + 31 * msPerDay) by (rewrite Hday; unfold msPerDay in *; nia).
  split_and!; [|done|done|done|unfold getUTCDate; by rewrite E1|].
  - unfold Date_UTC. destruct (Z.leb_spec y' 99) as [Hbad|_]; [unfold y' in Hbad; destruct (m =? 11); lia|].
    rewrite andb_false_r. unfold TimeClip. change (MakeTime 0 0 0 0) with 0.
    destruct (Z.leb_spec (Z.abs (MakeDay y' m' 1 * msPerDay + 0)) max_time); [done|lia].
  - rewrite E1, HY, HM. unfold y', m'. by destruct (m =? 11).
Qed.

(** ** Witnesses *)

Definition ex_sha (x : string) : string := x.
Definition ex_key (i : Z) (h : string) : key_row :=
  mk_key i h "abcd" "k" "user" ACTIVE None [] (Some 5000000000) None None None 0 30 None true (Some "sec")
    ["donations:read"] (Some ["10.0.0.1"]) None None (Some 100) 0 None None.
Definition ex_st : st := mk_st [ex_key 1 "raw"] 2 [].

Lemma ex_st_wf : wf ex_st.
Proof. split; cbn; [apply NoDup_singleton|apply NoDup_singleton|repeat constructor]. Qed.

Definition ex_late (s : st) : sys :=
  let '(p, s') := validate_step 60000 5 11 "raw" VRead s in mk_sys s' [mk_call 5 "raw" p] [].

Lemma revoked_key_rejected_witness :
  get_by_id 1 ex_st = Some (ex_key 1 "raw") ∧ (revokeApiKey 10 1 ex_st).1 = true ∧
  ∃ answer, calls (ex_late (revokeApiKey 10 1 ex_st).2) = [mk_call 5 "raw" (VDone answer)] ∧ answer = None.
Proof.
  split; [reflexivity|]. split; [reflexivity|]. exists None. split; [reflexivity|].
  refine (revoked_key_rejected ex_sha 60000 10 1 (ex_key 1 "raw") ex_st (ex_late (revokeApiKey 10 1 ex_st).2)
    [mk_call 5 "raw" VRead] [] ex_st_wf eq_refl eq_refl _ (Forall_nil_2 _) _ (mk_call 5 "raw" (VDone None)) None _ eq_refl eq_refl).
  - repeat constructor.
  - apply rtc_once. exact (step_call ex_sha 60000 "raw" 0 (mk_call 5 "raw" VRead) 11 (VDone None) (revokeApiKey 10 1 ex_st).2 _
      [mk_call 5 "raw" VRead] [] eq_refl eq_refl).
  - left.
Defined.

Lemma stale_bound_witness :
  let l := [AOp (OpCreate 10 "raw" "sec" (mk_opts "k" "user" (Some 1) None [] 30 false None None None []));
            AValidate 20 "raw"; AOp (OpDeprecate 30 1); AValidate 40 "raw"; AOp (OpRevokeExpired (40 + 31 * msDay))] in
  let s := foldl (λ s a, run_action ex_sha 60000 a s) (mk_st [] 1 []) l in
  (validateApiKey ex_sha 60000 (50 + 31 * msDay) "raw" s).1 = None.
Proof.
  intros l s. destruct (validateApiKey ex_sha 60000 (50 + 31 * msDay) "raw" s).1 as [info|] eqn:Ha; [|done].
  destruct (rows (validateApiKey ex_sha 60000 (50 + 31 * msDay) "raw" s).2) as [|r rest] eqn:Hr; [vm_compute in Hr; discriminate|].
  assert (Hk : key_hash r = "raw") by (vm_compute in Hr; injection Hr as <- _; reflexivity).
  assert (Hx : nonzero (expires_at r) = Some (10 + msDay)) by (vm_compute in Hr; injection Hr as <- _; reflexivity).
  destruct (stale_bound ex_sha 60000 l (50 + 31 * msDay) "raw" info r) as [_ Hb];
    [lia|vm_compute; repeat split; discriminate|vm_compute; discriminate|exact Ha| |exact Hk|].
  - fold s. rewrite Hr. left.
  - specialize (Hb _ Hx). vm_compute in Hb. by destruct Hb.
Defined.

Lemma rotate_spec_witness : ∃ old, get_by_id 1 ex_st = Some old ∧ status old ≠ REVOKED.
Proof.
  destruct (rotate_spec ex_sha 100 1 30 "new" "s2" ex_st
    (mk_key 2 "new" "new" "k (rotated)" "user" ACTIVE None [] None None None None 100 30 None false (Some "s2")
       ["donations:read"] None None None None 0 None None) (100 + 30 * msDay)
    (rotateApiKey ex_sha 100 1 30 "new" "s2" ex_st).2 ex_st_wf) as (old & Hg & Hs & _); [vm_compute; reflexivity|by exists old].
Defined.

Lemma revocation_races_witness :
  is_Some (validateApiKey ex_sha 60000 40 "raw" (rotate_deprecate 30 1 30 2 (revokeApiKey 20 1 ex_st).2)).1.
Proof.
  destruct (revocation_races ex_sha 60000 ex_st 1 (ex_key 1 "raw") 20 ex_st_wf) as [H _]; [reflexivity|discriminate|].
  apply (H 30 30 2 "raw" 40); reflexivity.
Defined.

Lemma next_month_spec_witness : ∃ t, getNextMonthFirstDay 1700000000000 = Some t ∧ 1700000000000 < t.
Proof.
  destruct (next_month_spec 1700000000000) as (t & Ht & [Hlt _] & _); [lia|vm_compute; discriminate|exists t; split; assumption].
Defined.

End ApiKeys.
