(* ===== verification/Tokens.v ===== *)
(** * Refresh tokens ([src/src/services/JwtService.js])

    The tables of refresh tokens and of revoked identifiers, the issue and
    the rotation of tokens, families with their absolute end, devices and
    sessions.  A rotation advances one database statement at a time; the
    revocation of a family is one step.  An access token is its claims: the
    encoding and the signature are not modelled.  SHA-256 is a parameter;
    random values are arguments. *)

From Stdlib Require Import Ascii.
From S2P Require Import Prelude JsString JsMap Errors.
Local Open Scope Z_scope.

Module Tokens.
Import Errors.

Definition ACCESS_TOKEN_TTL_MS : Z := 15 * 60 * 1000.
Definition REFRESH_TOKEN_TTL_MS : Z := 7 * 24 * 60 * 60 * 1000.
Definition MAX_DEVICE_ID_LENGTH : nat := 128.

(** A row of [refresh_tokens]; [jti] is NULL in rows older than the column. *)
Record token := mk_token {
  t_id : Z;
  jti : option string;
  token_hash : string;
  api_key_id : Z;
  family_id : string;
  device_id : option string;
  family_started_at : option Z;
  expires_at : Z;
  used_at : option Z;
  revoked : bool;
  revoked_at : option Z;
  revoke_reason : option string;
  created_at : Z;
}.

(** A row of [refresh_token_revocations]. *)
Record revocation := mk_rev {
  v_jti : string;
  v_key : Z;
  v_expires_at : Z;
  v_revoked_at : Z;
  v_reason : string;
}.

Record st := mk_st { tokens : list token; next_id : Z; revocations : list revocation }.
Definition set_tokens (l : list token) (s : st) : st := mk_st l (next_id s) (revocations s).
Definition set_revocations (l : list revocation) (s : st) : st := mk_st (tokens s) (next_id s) l.

(** The claims of an access token. *)
Record access := mk_access { sub : Z; claims : list (string * string); iat : Z; exp : Z }.
Definition issueAccessToken (now keyId : Z) (cl : list (string * string)) : access :=
  let now := now / 1000 in mk_access keyId cl now (now + ACCESS_TOKEN_TTL_MS / 1000).

Definition normalizeDeviceId (deviceId : option string) : option string :=
  match deviceId with
  | None => None
  | Some d => let trimmed := trim d in
              if is_empty trimmed then None else Some (str_take MAX_DEVICE_ID_LENGTH trimmed)
  end.

(** A number that is absent or 0 is falsy. *)
Definition or_else (o : option Z) (d : Z) : Z := match o with Some 0 | None => d | Some x => x end.
Definition familyStartOf (row : token) : Z := or_else (family_started_at row) (created_at row).

Section service.
(** SHA-256 and REFRESH_TOKEN_ABSOLUTE_TTL_MS. *)
Context (sha256 : string → string) (ABSOLUTE_TTL : Z).

Definition isAbsolutelyExpired (row : token) (now : Z) : bool := familyStartOf row + ABSOLUTE_TTL <=? now.

Definition find_token (h : string) (s : st) : option token :=
  find_first (λ t, bool_decide (token_hash t = h)) (tokens s).
Definition is_listed (j : option string) (s : st) : bool :=
  match j with
  | Some j => negb (is_empty j) && existsb (λ v, bool_decide (v_jti v = j)) (revocations s)
  | None => false
  end.
(** INSERT OR IGNORE: [jti] is UNIQUE. *)
Definition list_revocation (v : revocation) (l : list revocation) : list revocation :=
  if existsb (λ w, bool_decide (v_jti w = v_jti v)) l then l else l ++ [v].

(** The row; UNIQUE(token_hash), UNIQUE(jti). *)
Definition issueRefreshToken (now : Z) (raw newJti : string) (keyId : Z) (familyId : string)
    (deviceId : option string) (familyStartedAt : option Z) : stx jserror st token := λ s,
  let familyStartedAt := or_else familyStartedAt now in
  let expiresAt := Z.min (now + REFRESH_TOKEN_TTL_MS) (familyStartedAt + ABSOLUTE_TTL) in
  let row := mk_token (next_id s) (Some newJti) (sha256 raw) keyId familyId (normalizeDeviceId deviceId)
    (Some familyStartedAt) expiresAt None false None None now in
  if existsb (λ t, bool_decide (token_hash t = sha256 raw) || bool_decide (jti t = Some newJti)) (tokens s)
  then (Throw EUnique, s)
  else (Ret row, mk_st (tokens s ++ [row]) (next_id s + 1) (revocations s)).

Definition issueTokenPair (now : Z) (raw newJti familyId : string) (keyId : Z) (cl : list (string * string))
    (deviceId : option string) : stx jserror st (access * token) :=
  let accessToken := issueAccessToken now keyId cl in
  refreshToken ← issueRefreshToken now raw newJti keyId familyId (normalizeDeviceId deviceId) None;
  mret (accessToken, refreshToken).

(** ** Revocation *)

Definition revoke_row (now : Z) (reason : option string) (t : token) : token :=
  mk_token (t_id t) (jti t) (token_hash t) (api_key_id t) (family_id t) (device_id t) (family_started_at t)
    (expires_at t) (used_at t) true (Some now) reason (created_at t).
Definition in_family (f : string) (t : token) : bool := bool_decide (family_id t = f).

Definition revokeTokenFamily (now : Z) (f : string) (reason : option string) (s : st) : st :=
  let l := (λ t, if in_family f t then revoke_row now reason t else t) <$> tokens s in
  let listed := foldl (λ acc t, match jti t with
                                | Some j => list_revocation (mk_rev j (api_key_id t) (expires_at t) now
                                                               (default "FAMILY_REVOKED" reason)) acc
                                | None => acc
                                end) (revocations s) (filter (λ t, in_family f t = true) l) in
  mk_st l (next_id s) listed.

Definition revokeAllForApiKey (keyId : Z) (s : st) : st :=
  set_tokens ((λ t, if api_key_id t =? keyId
                    then mk_token (t_id t) (jti t) (token_hash t) (api_key_id t) (family_id t) (device_id t)
                           (family_started_at t) (expires_at t) (used_at t) true (revoked_at t) (revoke_reason t)
                           (created_at t)
                    else t) <$> tokens s) s.

Definition cleanupExpiredRevocations (now : Z) (s : st) : nat * st :=
  let kept := filter (λ v, now <= v_expires_at v) (revocations s) in
  ((length (revocations s) - length kept)%nat,
   mk_st (filter (λ t, now <= expires_at t) (tokens s)) (next_id s) kept).

(** DISTINCT family_id, in the order of the table. *)
Definition device_families (keyId : Z) (d : string) (s : st) : list string :=
  remove_dups (family_id <$> filter (λ t, api_key_id t = keyId ∧ device_id t = Some d ∧ revoked t = false) (tokens s)).
Definition revokeDeviceSessions (now keyId : Z) (deviceId : option string) (s : st) : nat * st :=
  match normalizeDeviceId deviceId with
  | None => (0%nat, s)
  | Some d =>
      let rows := device_families keyId d s in
      (length rows, foldl (λ s f, revokeTokenFamily now f (Some "DEVICE_SESSION_REVOKED") s) s rows)
  end.

(** ** Verification and sessions *)

Inductive verdict := TokenValid (row : token) | TokenInvalid (reason : string).
Definition verifyRefreshToken (now : Z) (raw : string) (s : st) : verdict :=
  match find_token (sha256 raw) s with
  | None => TokenInvalid "token not found"
  | Some row =>
      if expires_at row <? now then TokenInvalid "token expired"
      else if revoked row then TokenInvalid "token revoked"
      else if bool_decide (is_Some (used_at row)) then TokenInvalid "token already used"
      else if is_listed (jti row) s then TokenInvalid "token revoked (jti)"
      else TokenValid row
  end.

Record session := mk_session {
  s_family : string; s_device : option string; s_startedAt : Z; s_lastIssuedAt : Z; s_absoluteExpiresAt : Z
}.
Definition max_str (a b : option string) : option string :=
  match a, b with
  | Some x, Some y => Some (if str_ltb x y then y else x)
  | Some x, None => Some x
  | None, o => o
  end.
Definition min_opt (a b : option Z) : option Z :=
  match a, b with Some x, Some y => Some (Z.min x y) | Some x, None => Some x | None, o => o end.
(** GROUP BY family_id, the groups in the order of the table. *)
Definition session_of (rows : list token) (f : string) : session :=
  let g := filter (λ t, in_family f t = true) rows in
  let started := default 0 (foldr (λ t m, min_opt (Some (created_at t)) m) None g) in
  let startedAt := or_else (foldr (λ t m, min_opt (family_started_at t) m) None g) started in
  mk_session f (foldr (λ t m, max_str (device_id t) m) None g) startedAt
    (foldr (λ t m, Z.max (created_at t) m) 0 g) (startedAt + ABSOLUTE_TTL).
Definition listSessionsForApiKey (now keyId : Z) (s : st) : list session :=
  let rows := filter (λ t, api_key_id t = keyId ∧ revoked t = false) (tokens s) in
  filter (λ x, now < s_absoluteExpiresAt x) (session_of rows <$> remove_dups (family_id <$> rows)).

(** ** Rotation *)

Record rotation := mk_rotation {
  r_access : access;
  r_refresh : token;
  r_device : option string;
  r_family : string;
}.

(** [None] is the answer null. *)
Inductive rotate_result := RNone | ROk (r : rotation) | RError (code : string).

(** Where a rotation stands: the statement it awaits. *)
Inductive rphase :=
| PRead
| PListed (row : token)            (* the revocation table is read next *)
| PConsume (row : token)           (* INSERT of the consumed jti *)
| PUsed (row : token)              (* UPDATE used_at *)
| PIssue (row : token)             (* issueRefreshToken *)
| PDone (r : rotate_result).

(** The checks after the row was not found in the revocation table. *)
Definition rotate_deadlines (now : Z) (row : token) (s : st) : rphase * st :=
  if isAbsolutelyExpired row now then
    (PDone (RError "TOKEN_ABSOLUTE_EXPIRY"), revokeTokenFamily now (family_id row) (Some "ABSOLUTE_EXPIRY_REACHED") s)
  else if expires_at row <? now then (PDone RNone, s)
  else (PConsume row, s).

Definition mark_used (now i : Z) (l : list token) : list token :=
  (λ t, if t_id t =? i
        then mk_token (t_id t) (jti t) (token_hash t) (api_key_id t) (family_id t) (device_id t) (family_started_at t)
               (expires_at t) (Some now) (revoked t) (revoked_at t) (revoke_reason t) (created_at t)
        else t) <$> l.

(** One statement at time [now]; [raw] and [newJti] are the random values of
    the last one. *)
Definition rotate_step (now : Z) (h raw newJti : string) (device : option string) (p : rphase) (s : st) : rphase * st :=
  match p with
  | PRead =>
      match find_token h s with
      | None => (PDone RNone, s)
      | Some row =>
          if bool_decide (is_Some (used_at row)) then
            (PDone (RError "TOKEN_REUSE_DETECTED"),
             revokeTokenFamily now (family_id row) (Some "REFRESH_TOKEN_REUSE_DETECTED") s)
          else if revoked row then (PDone (RError "TOKEN_REVOKED"), s)
          else (PListed row, s)
      end
  | PListed row =>
      if is_listed (jti row) s then (PDone (RError "TOKEN_REVOKED"), s) else rotate_deadlines now row s
  | PConsume row =>
      (PUsed row,
       match jti row with
       | Some j => if is_empty j then s
                   else set_revocations (list_revocation (mk_rev j (api_key_id row) (expires_at row) now "ROTATED")
                                           (revocations s)) s
       | None => s
       end)
  | PUsed row => (PIssue row, set_tokens (mark_used now (t_id row) (tokens s)) s)
  | PIssue row =>
      let accessToken := issueAccessToken now (api_key_id row) [("role", "user")] in
      let deviceId := match device_id row with
                      | Some d => if is_empty d then normalizeDeviceId device else Some d
                      | None => normalizeDeviceId device
                      end in
      match issueRefreshToken now raw newJti (api_key_id row) (family_id row) deviceId (Some (familyStartOf row)) s with
      | (Ret new, s) => (PDone (ROk (mk_rotation accessToken new deviceId (family_id row))), s)
      | (Throw _, s) => (PDone (RError "UNIQUE"), s)
      end
  | PDone r => (PDone r, s)
  end.

Fixpoint rotate_run (fuel : nat) (now : Z) (h raw newJti : string) (device : option string) (p : rphase) (s : st)
    : rphase * st :=
  match fuel with
  | O => (p, s)
  | S fuel => let '(p, s) := rotate_step now h raw newJti device p s in rotate_run fuel now h raw newJti device p s
  end.

(** A rotation nothing interleaves with, at one instant: five statements. *)
Definition rotateRefreshToken (now : Z) (rawToken raw newJti : string) (device : option string) (s : st)
    : rotate_result * st :=
  match rotate_run 5 now (sha256 rawToken) raw newJti device PRead s with
  | (PDone r, s) => (r, s)
  | (_, s) => (RNone, s)
  end.

(** ** Concurrent requests *)

Inductive op :=
| OIssue (now : Z) (raw newJti familyId : string) (keyId : Z) (cl : list (string * string)) (device : option string)
| ORevokeFamily (now : Z) (f : string) (reason : option string)
| ORevokeAll (keyId : Z)
| ORevokeDevice (now keyId : Z) (device : option string)
| OCleanup (now : Z).
Definition run_op (o : op) (s : st) : st :=
  match o with
  | OIssue now raw j f k cl d => (issueTokenPair now raw j f k cl d s).2
  | ORevokeFamily now f r => revokeTokenFamily now f r s
  | ORevokeAll k => revokeAllForApiKey k s
  | ORevokeDevice now k d => (revokeDeviceSessions now k d s).2
  | OCleanup now => (cleanupExpiredRevocations now s).2
  end.

(** A rotation in flight: the hash presented, the device, the phase. *)
Record flight := mk_flight { f_hash : string; f_device : option string; f_phase : rphase }.
Record sys := mk_sys { db : st; flights : list flight }.
Definition phase_row (p : rphase) : option token :=
  match p with PListed r | PConsume r | PUsed r | PIssue r => Some r | _ => None end.

(** A new family has an identifier of its own, not one of [avoid] either. *)
Definition fresh_family (avoid : list string) (s : sys) (o : op) : Prop :=
  match o with
  | OIssue now _ _ f _ _ _ =>
      0 < now ∧ (f ∉ avoid) ∧ Forall (λ t, family_id t ≠ f) (tokens (db s)) ∧
      Forall (λ x, match phase_row (f_phase x) with Some r => (family_id r ≠ f) | None => True end) (flights s)
  | _ => True
  end.

Inductive sys_step (avoid : list string) : sys → sys → Prop :=
| step_op o s fs : fresh_family avoid (mk_sys s fs) o → sys_step avoid (mk_sys s fs) (mk_sys (run_op o s) fs)
| step_start h d s fs : sys_step avoid (mk_sys s fs) (mk_sys s (fs ++ [mk_flight h d PRead]))
| step_rotate i x now raw newJti p s s' fs :
    fs !! i = Some x → 0 < now →
    rotate_step now (f_hash x) raw newJti (f_device x) (f_phase x) s = (p, s') →
    sys_step avoid (mk_sys s fs) (mk_sys s' (<[i := mk_flight (f_hash x) (f_device x) p]> fs)).

(** ** A revoked family stays out *)

Definition flight_out (F : string) (x : flight) : Prop :=
  match f_phase x with
  | PDone (ROk r) => r_family r ≠ F
  | p => match phase_row p with Some row => family_id row ≠ F | None => True end
  end.
Definition db_out (F : string) (s : st) : Prop := Forall (λ t, family_id t = F → revoked t = true) (tokens s).
Definition out (F : string) (s : sys) : Prop := db_out F (db s) ∧ Forall (flight_out F) (flights s).

Lemma map_out F (f : token → token) l :
  (∀ t, family_id (f t) = family_id t ∧ (revoked t = true → revoked (f t) = true)) →
  Forall (λ t, family_id t = F → revoked t = true) l → Forall (λ t, family_id t = F → revoked t = true) (f <$> l).
Proof.
  intros Hf Hl. apply Forall_fmap. eapply Forall_impl; [exact Hl|]. intros t Ht. cbn.
  destruct (Hf t) as [-> Hr]. auto.
Qed.

Lemma revokeFamily_out F now f r s : db_out F s → db_out F (revokeTokenFamily now f r s).
Proof. intros Hs. apply map_out; [|exact Hs]. intros t. by case_match. Qed.

Lemma revokeFamily_makes_out now F r s : db_out F (revokeTokenFamily now F r s).
Proof.
  unfold db_out, revokeTokenFamily. cbn. apply Forall_fmap, Forall_forall. intros t _. cbn.
  unfold in_family. case_bool_decide; [done|by intros ?].
Qed.

Lemma issue_out F now raw j k f d st0 s : f ≠ F → db_out F s → db_out F (issueRefreshToken now raw j k f d st0 s).2.
Proof.
  intros Hf Hs. unfold issueRefreshToken. destruct (existsb _ _); [done|]. cbn.
  apply Forall_app. split; [exact Hs|]. by apply Forall_singleton.
Qed.

Lemma run_op_family_out F o s :
  (match o with OIssue _ _ _ f _ _ _ => f ≠ F | _ => True end) → db_out F s → db_out F (run_op o s).
Proof.
  intros Hf Hs. destruct o; cbn [run_op].
  - unfold issueTokenPair. stx_unfold.
    pose proof (issue_out F now raw newJti keyId familyId (normalizeDeviceId device) None s Hf Hs) as Ho.
    by destruct (issueRefreshToken _ _ _ _ _ _ _ s) as [[]].
  - by apply revokeFamily_out.
  - apply map_out; [|exact Hs]. intros t. by case_match.
  - unfold revokeDeviceSessions. destruct (normalizeDeviceId device); [|done]. cbn [snd].
    generalize (device_families keyId s0 s). intros l. revert s Hs. induction l as [|f l IH]; intros s Hs; [done|].
    cbn. by apply IH, revokeFamily_out.
  - cbn. apply Forall_forall. intros t [_ Hin]%list_elem_of_filter. unfold db_out in Hs.
    rewrite Forall_forall in Hs. by apply Hs.
Qed.

Lemma find_token_elem h s row : find_token h s = Some row → row ∈ tokens s ∧ token_hash row = h.
Proof. intros [Hin Hh]%find_first_Some. by apply bool_decide_eq_true in Hh. Qed.

Lemma rotate_step_out F now x raw j p s s' :
  db_out F s → flight_out F x → rotate_step now (f_hash x) raw j (f_device x) (f_phase x) s = (p, s') →
  db_out F s' ∧ flight_out F (mk_flight (f_hash x) (f_device x) p).
Proof.
  intros Hs Hx Hstep. unfold flight_out in Hx |- *. cbn [f_phase].
  destruct (f_phase x) as [|row|row|row|row|r] eqn:Hp; cbn [rotate_step phase_row] in *.
  - destruct (find_token (f_hash x) s) as [row|] eqn:Hf; [|by injection Hstep as <- <-].
    destruct (bool_decide _); [injection Hstep as <- <-; split; [by apply revokeFamily_out|done]|].
    destruct (revoked row) eqn:Hr; [by injection Hstep as <- <-|]. injection Hstep as <- <-. split; [done|]. cbn.
    intros HF. destruct (find_token_elem _ _ _ Hf) as [Hin _]. unfold db_out in Hs. rewrite Forall_forall in Hs.
    rewrite (Hs _ Hin HF) in Hr. done.
  - destruct (is_listed (jti row) s); [by injection Hstep as <- <-|]. unfold rotate_deadlines in Hstep.
    destruct (isAbsolutelyExpired row now); [injection Hstep as <- <-; split; [by apply revokeFamily_out|done]|].
    destruct (expires_at row <? now); by injection Hstep as <- <-.
  - injection Hstep as <- <-. split; [|done]. repeat case_match; done.
  - injection Hstep as <- <-. split; [|done]. apply map_out; [|exact Hs]. intros t. by case_match.
  - match type of Hstep with context [issueRefreshToken ?a ?b ?c ?d ?e ?f ?g s] =>
      pose proof (issue_out F a b c d e f g s Hx Hs) as Ho;
      destruct (issueRefreshToken a b c d e f g s) as [[new|e0] s1] eqn:Hi end;
      injection Hstep as <- <-; (split; [exact Ho|done]).
  - injection Hstep as <- <-. by split.
Qed.

Lemma sys_step_family_out F avoid s s' : F ∈ avoid → out F s → sys_step avoid s s' → out F s'.
Proof.
  intros HF [Hs Hfs] Hstep. destruct Hstep as [o s fs Hfresh|h d s fs|i x now raw j p s s' fs Hi Hnow Hr]; cbn in *.
  - split; [|done]. apply run_op_family_out; [|done]. destruct o; cbn in Hfresh |- *; try done.
    destruct Hfresh as (_ & Hav & _). congruence.
  - split; [done|]. apply Forall_app. split; [done|]. by apply Forall_singleton.
  - pose proof (Forall_lookup_1 _ _ _ _ Hfs Hi) as Hx.
    destruct (rotate_step_out F now x raw j p s s' Hs Hx Hr) as [Hs' Hx']. split; [done|]. by apply Forall_insert.
Qed.

(** C7: Theft detection.  When a used token is presented again, the call reports it and revokes the
    family; from then on no rotation of a token of that family succeeds, whatever operations
    follow and however rotations interleave with them, provided none of the family was under way. *)
Theorem reuse_revokes_family now h raw j d row s fs s' :
  find_token h s = Some row → is_Some (used_at row) →
  Forall (λ x, match f_phase x with
               | PDone (ROk r) => r_family r ≠ family_id row
               | p => match phase_row p with Some r => family_id r ≠ family_id row | None => True end
               end) fs →
  let '(p, s1) := rotate_step now h raw j d PRead s in
  p = PDone (RError "TOKEN_REUSE_DETECTED") ∧
  (rtc (sys_step [family_id row]) (mk_sys s1 fs) s' →
   Forall (λ t, family_id t = family_id row → revoked t = true) (tokens (db s')) ∧
   ∀ x r, x ∈ flights s' → f_phase x = PDone (ROk r) → r_family r ≠ family_id row).
Proof.
  intros Hf Hu Hfs. cbn [rotate_step]. rewrite Hf, bool_decide_true by done. split; [done|]. intros Hsteps.
  assert (Hout : out (family_id row) s').
  { eapply preserves_rtc; [|exact Hsteps|].
    - intros s1 s2 Ho Hst. eapply sys_step_family_out; [|done|exact Hst]. apply list_elem_of_singleton. done.
    - split; [apply revokeFamily_makes_out|exact Hfs]. }
  destruct Hout as [Hs' Hfs']. split; [exact Hs'|]. intros x r Hx Hp. rewrite Forall_forall in Hfs'.
  specialize (Hfs' x Hx). unfold flight_out in Hfs'. by rewrite Hp in Hfs'.
Qed.

(** ** The end of a family *)

(** [g] gives the start of each family. *)
Record dated (g : string → Z) (s : sys) : Prop := {
  d_tokens : Forall (λ t, familyStartOf t = g (family_id t) ∧ expires_at t <= g (family_id t) + ABSOLUTE_TTL) (tokens (db s));
  d_flights : Forall (λ x, match phase_row (f_phase x) with
                           | Some row => familyStartOf row = g (family_id row) | None => True end) (flights s);
  d_pos : ∀ f, 0 < g f;
}.
Definition tokens_dated (g : string → Z) (l : list token) : Prop :=
  Forall (λ t, familyStartOf t = g (family_id t) ∧ expires_at t <= g (family_id t) + ABSOLUTE_TTL) l.

Lemma map_dated g (f : token → token) l :
  (∀ t, family_id (f t) = family_id t ∧ familyStartOf (f t) = familyStartOf t ∧ expires_at (f t) = expires_at t) →
  tokens_dated g l → tokens_dated g (f <$> l).
Proof.
  intros Hf Hl. apply Forall_fmap. eapply Forall_impl; [exact Hl|]. intros t Ht. cbn.
  destruct (Hf t) as (-> & -> & ->). exact Ht.
Qed.

Lemma revokeFamily_dated g now f r s : tokens_dated g (tokens s) → tokens_dated g (tokens (revokeTokenFamily now f r s)).
Proof. intros Hs. apply map_dated; [|exact Hs]. intros t. by case_match. Qed.

Lemma or_else_pos o d : 0 < d → or_else o d = d ∨ o = Some (or_else o d).
Proof. destruct o as [[| |]|]; cbn; auto. Qed.

Lemma issue_dated g now raw j k f d start s :
  0 < now → 0 < g f → or_else start now = g f → tokens_dated g (tokens s) →
  tokens_dated g (tokens (issueRefreshToken now raw j k f d start s).2) ∧
  ∀ new, (issueRefreshToken now raw j k f d start s).1 = Ret new →
    familyStartOf new = g f ∧ expires_at new <= g f + ABSOLUTE_TTL ∧ family_id new = f.
Proof.
  intros Hnow Hg Hst Hs. unfold issueRefreshToken. cbv zeta. rewrite Hst.
  assert (Hnew : ∀ i e, familyStartOf (mk_token i (Some j) (sha256 raw) k f (normalizeDeviceId d) (Some (g f)) e None false None None now) = g f).
  { intros i e. unfold familyStartOf. cbn. by destruct (g f). }
  destruct (existsb _ _); cbn [fst snd tokens]; [by split|]. split.
  - apply Forall_app. split; [exact Hs|]. apply Forall_singleton. split; [apply Hnew|cbn; lia].
  - intros new [= <-]. split; [apply Hnew|]. cbn. split; [lia|done].
Qed.

Definition update_fun (g : string → Z) (f : string) (v : Z) (x : string) : Z := if decide (x = f) then v else g x.

Lemma rotate_step_dated g now x raw j p s s' :
  0 < now → (∀ f, 0 < g f) → tokens_dated g (tokens s) →
  (match phase_row (f_phase x) with Some row => familyStartOf row = g (family_id row) | None => True end) →
  rotate_step now (f_hash x) raw j (f_device x) (f_phase x) s = (p, s') →
  tokens_dated g (tokens s') ∧
  match phase_row p with Some row => familyStartOf row = g (family_id row) | None => True end.
Proof.
  intros Hnow Hg Hs Hx Hstep.
  destruct (f_phase x) as [|row|row|row|row|r] eqn:Hp; cbn [rotate_step phase_row] in *.
  - destruct (find_token (f_hash x) s) as [row|] eqn:Hf; [|by injection Hstep as <- <-].
    destruct (bool_decide _); [injection Hstep as <- <-; split; [by apply revokeFamily_dated|done]|].
    destruct (revoked row); injection Hstep as <- <-; [done|]. split; [done|]. cbn.
    destruct (find_token_elem _ _ _ Hf) as [Hin _]. unfold tokens_dated in Hs. rewrite Forall_forall in Hs.
    by apply Hs.
  - destruct (is_listed (jti row) s); [by injection Hstep as <- <-|]. unfold rotate_deadlines in Hstep.
    destruct (isAbsolutelyExpired row now); [injection Hstep as <- <-; split; [by apply revokeFamily_dated|done]|].
    destruct (expires_at row <? now); by injection Hstep as <- <-.
  - injection Hstep as <- <-. split; [|done]. repeat case_match; done.
  - injection Hstep as <- <-. split; [|done]. apply map_dated; [|exact Hs]. intros t. by case_match.
  - match type of Hstep with context [issueRefreshToken ?a ?b ?c ?d ?e ?f ?st0 s] =>
      pose proof (issue_dated g a b c d e f st0 s) as Ho;
      destruct (issueRefreshToken a b c d e f st0 s) as [[new|e0] s1] eqn:Hi end;
      injection Hstep as <- <-; (split; [|done]); apply Ho; try done; cbn; rewrite Hx;
      specialize (Hg (family_id row)); by destruct (g (family_id row)).
  - by injection Hstep as <- <-.
Qed.

Lemma sys_step_dated avoid g s s' : dated g s → sys_step avoid s s' → ∃ g', dated g' s'.
Proof.
  intros [Ht Hfs Hpos] Hstep. destruct Hstep as [o s fs Hfresh|h d s fs|i x now raw j p s s' fs Hi Hnow Hr]; cbn in *.
  - destruct o; cbn [run_op fresh_family] in *.
    + destruct Hfresh as (Hnow & _ & Htok & Hfl). exists (update_fun g familyId now).
      assert (Hpos' : ∀ f, 0 < update_fun g familyId now f) by (intros f; unfold update_fun; by case_decide).
      assert (Hsame : ∀ f, f ≠ familyId → update_fun g familyId now f = g f) by (intros f Hf; unfold update_fun; by rewrite decide_False).
      split; cbn [db flights]; [| |done].
      * unfold issueTokenPair. stx_unfold.
        pose proof (issue_dated (update_fun g familyId now) now raw newJti keyId familyId (normalizeDeviceId device) None s Hnow (Hpos' _)) as Ho.
        destruct Ho as [Ho _].
        { unfold update_fun. by rewrite decide_True. }
        { unfold tokens_dated. rewrite Forall_forall in Ht, Htok |- *. intros t Hin.
          rewrite !Hsame by (by apply Htok). by apply Ht. }
        by destruct (issueRefreshToken _ _ _ _ _ _ _ s) as [[new|e] s1].
      * rewrite Forall_forall in Hfs, Hfl |- *. intros x Hx. specialize (Hfs x Hx). specialize (Hfl x Hx). cbn in *.
        destruct (phase_row (f_phase x)); [by rewrite Hsame|done].
    + exists g. split; [by apply revokeFamily_dated|done|done].
    + exists g. split; [|done|done]. apply map_dated; [|exact Ht]. intros t. by case_match.
    + exists g. split; [|done|done]. unfold revokeDeviceSessions. destruct (normalizeDeviceId device); [|done]. cbn [snd db].
      generalize (device_families keyId s0 s). intros l. clear Hfresh Hfs. revert s Ht.
      induction l as [|f l IH]; intros s Ht; [done|]. cbn. by apply IH, revokeFamily_dated.
    + exists g. split; [|done|done]. cbn. apply Forall_forall. intros t [_ Hin]%list_elem_of_filter.
      rewrite Forall_forall in Ht. by apply Ht.
  - exists g. split; [done| |done]. apply Forall_app. split; [done|]. by apply Forall_singleton.
  - exists g. pose proof (Forall_lookup_1 _ _ _ _ Hfs Hi) as Hx. cbn in Hx.
    destruct (rotate_step_dated g now x raw j p s s' Hnow Hpos Ht Hx Hr) as [Ht' Hp'].
    split; [done| |done]. by apply Forall_insert.
Qed.

(** ** Rotation on its own *)

(** The state when the new token is issued. *)
Definition consumed (now : Z) (row : token) (s : st) : st :=
  let s := match jti row with
           | Some j => if is_empty j then s
                       else set_revocations (list_revocation (mk_rev j (api_key_id row) (expires_at row) now "ROTATED")
                                               (revocations s)) s
           | None => s
           end in
  set_tokens (mark_used now (t_id row) (tokens s)) s.

Lemma consumed_tokens now row s : tokens (consumed now row s) = mark_used now (t_id row) (tokens s).
Proof. unfold consumed. destruct (jti row) as [j|]; [by destruct (is_empty j)|done]. Qed.

Definition rotatable (now : Z) (row : token) (s : st) : bool :=
  negb (bool_decide (is_Some (used_at row))) && negb (revoked row) && negb (is_listed (jti row) s) &&
  negb (isAbsolutelyExpired row now) && negb (expires_at row <? now).

Lemma rotate_ok now rawToken raw j d s row :
  find_token (sha256 rawToken) s = Some row → rotatable now row s = true →
  rotateRefreshToken now rawToken raw j d s =
    match rotate_step now (sha256 rawToken) raw j d (PIssue row) (consumed now row s) with
    | (PDone r, s) => (r, s) | (_, s) => (RNone, s) end.
Proof.
  intros Hf Hr. unfold rotatable in Hr. unfold rotateRefreshToken. cbn [rotate_run]. cbn [rotate_step]. rewrite Hf.
  destruct (bool_decide _); [done|]. destruct (revoked row); [done|]. cbn [rotate_step].
  destruct (is_listed (jti row) s); [done|]. unfold rotate_deadlines.
  destruct (isAbsolutelyExpired row now); [done|]. destruct (expires_at row <? now); [done|].
  cbn [rotate_step]. unfold consumed. by destruct (issueRefreshToken _ _ _ _ _ _ _ _) as [[]].
Qed.

Lemma rotate_fails now rawToken raw j d s row :
  find_token (sha256 rawToken) s = Some row → rotatable now row s = false →
  ∀ r, (rotateRefreshToken now rawToken raw j d s).1 ≠ ROk r.
Proof.
  intros Hf Hr r. unfold rotatable in Hr. unfold rotateRefreshToken. cbn [rotate_run]. cbn [rotate_step]. rewrite Hf.
  destruct (bool_decide _); [done|]. destruct (revoked row); [done|]. cbn [rotate_step].
  destruct (is_listed (jti row) s); [done|]. unfold rotate_deadlines.
  destruct (isAbsolutelyExpired row now); [done|]. destruct (expires_at row <? now); done.
Qed.

(** A session ends.  However often and however concurrently its tokens are rotated, all tokens
    of a family carry the start of the family and expire at most ABSOLUTE_TTL after it, and no
    rotation succeeds from that time on. *)
Theorem family_bounded s now rawToken raw j d r :
  rtc (sys_step []) (mk_sys (mk_st [] 1 []) []) s → 0 < now →
  (rotateRefreshToken now rawToken raw j d (db s)).1 = ROk r →
  ∃ start, now < start + ABSOLUTE_TTL ∧ expires_at (r_refresh r) <= start + ABSOLUTE_TTL ∧
    ∀ t, t ∈ tokens (rotateRefreshToken now rawToken raw j d (db s)).2 → family_id t = r_family r →
      familyStartOf t = start ∧ expires_at t <= start + ABSOLUTE_TTL.
Proof.
  intros Hsteps Hnow Hok.
  assert (Hd : ∃ g, dated g s).
  { assert (H0 : ∃ g, dated g (mk_sys (mk_st [] 1 []) [])) by (exists (λ _, 1); split; [constructor|constructor|lia]).
    eapply (preserves_rtc _ (λ s, ∃ g, dated g s)); [|exact Hsteps|exact H0].
    intros s1 s2 [g Hg] Hst. by eapply sys_step_dated. }
  destruct Hd as [g [Ht _ Hg]]. fold (tokens_dated g (tokens (db s))) in Ht. revert Hok.
  destruct (find_token (sha256 rawToken) (db s)) as [row|] eqn:Hf; cycle 1.
  { unfold rotateRefreshToken. cbn [rotate_run]. cbn [rotate_step]. by rewrite Hf. }
  destruct (rotatable now row (db s)) eqn:Hr; [|by intros ?%(rotate_fails _ _ _ _ _ _ _ Hf Hr)].
  rewrite (rotate_ok _ _ _ _ _ _ _ Hf Hr). cbn [rotate_step].
  assert (Ha : isAbsolutelyExpired row now = false).
  { unfold rotatable in Hr. by destruct (isAbsolutelyExpired row now); [rewrite !andb_false_r in Hr|]. }
  destruct (find_token_elem _ _ _ Hf) as [Hin _].
  assert (Hrow : familyStartOf row = g (family_id row)) by (unfold tokens_dated in Ht; rewrite Forall_forall in Ht; by apply Ht).
  unfold isAbsolutelyExpired in Ha. apply Z.leb_gt in Ha.
  match goal with |- context [issueRefreshToken ?a ?b ?c ?k ?e ?f ?st0 ?s0] =>
    pose proof (issue_dated g a b c k e f st0 s0 Hnow (Hg _)) as Ho;
    assert (Hs0 : tokens_dated g (tokens s0)) end.
  { rewrite consumed_tokens. apply map_dated; [intros t; cbn; by destruct (t_id t =? t_id row)|done]. }
  match goal with |- context [issueRefreshToken ?a ?b ?c ?k ?e ?f ?st0 ?s0] =>
    destruct (issueRefreshToken a b c k e f st0 s0) as [[new|e0] s1]; [|done] end.
  cbn [fst snd]. intros [= <-]. destruct Ho as [Ho Hnew]; [|exact Hs0|].
  { cbn. rewrite Hrow. specialize (Hg (family_id row)). by destruct (g (family_id row)). }
  destruct (Hnew new eq_refl) as (Hns & Hne & _). cbn [snd] in Ho.
  exists (g (family_id row)). split; [lia|]. cbn [r_refresh r_family]. split; [done|].
  intros t Hint Hfam. unfold tokens_dated in Ho. rewrite Forall_forall in Ho. destruct (Ho t Hint) as [H1 H2].
  rewrite Hfam in H1, H2. by split.
Qed.

(** C35: A refresh token works once.  A rotation on its own succeeds exactly when the token is known,
    unused, not revoked in either table, before the absolute end of its family and not expired, and
    the new random values are new; the new token belongs to the same key, family and start; the
    old token is used up: presented again, at any time, it is reported and its family revoked. *)
Theorem rotate_once now rawToken raw j d s row :
  find_token (sha256 rawToken) s = Some row →
  existsb (λ t, bool_decide (token_hash t = sha256 raw) || bool_decide (jti t = Some j)) (tokens s) = false →
  ((∃ r, (rotateRefreshToken now rawToken raw j d s).1 = ROk r) ↔ rotatable now row s = true) ∧
  ∀ r, (rotateRefreshToken now rawToken raw j d s).1 = ROk r →
    let s' := (rotateRefreshToken now rawToken raw j d s).2 in
    find_token (sha256 raw) s' = Some (r_refresh r) ∧
    api_key_id (r_refresh r) = api_key_id row ∧ family_id (r_refresh r) = family_id row ∧
    family_started_at (r_refresh r) = Some (or_else (Some (familyStartOf row)) now) ∧
    sub (r_access r) = api_key_id row ∧ claims (r_access r) = [("role", "user")] ∧
    ∀ now2 raw2 j2 d2,
      (rotateRefreshToken now2 rawToken raw2 j2 d2 s').1 = RError "TOKEN_REUSE_DETECTED" ∧
      db_out (family_id row) (rotateRefreshToken now2 rawToken raw2 j2 d2 s').2.
Proof.
  intros Hf Hnew. destruct (rotatable now row s) eqn:Hr; cycle 1.
  { split; [split; [|done]; intros [r Hr']; by apply (rotate_fails _ _ _ _ _ _ _ Hf Hr) in Hr'|].
    intros r Hr'. by apply (rotate_fails _ _ _ _ _ _ _ Hf Hr) in Hr'. }
  rewrite (rotate_ok _ _ _ _ _ _ _ Hf Hr). cbn [rotate_step]. unfold issueRefreshToken.
  rewrite consumed_tokens.
  assert (Hnew' : existsb (λ t, bool_decide (token_hash t = sha256 raw) || bool_decide (jti t = Some j))
    (mark_used now (t_id row) (tokens s)) = false).
  { rewrite <- Hnew. clear. unfold mark_used. induction (tokens s) as [|t l IH]; [done|].
    rewrite fmap_cons. cbn [existsb]. rewrite IH. f_equal. by destruct (t_id t =? t_id row). }
  rewrite Hnew'. cbn [fst snd]. split; [split; [done|intros _; by eexists]|].
  intros r [= <-]. set (s' := mk_st (mark_used _ _ _ ++ _) _ _). cbn [r_refresh r_access api_key_id family_id family_started_at sub claims issueAccessToken].
  assert (Hmark : ∀ h t, find_token h s = Some t →
    find_first (λ t, bool_decide (token_hash t = h)) (mark_used now (t_id row) (tokens s)) =
    Some (if t_id t =? t_id row then mk_token (t_id t) (jti t) (token_hash t) (api_key_id t) (family_id t) (device_id t)
      (family_started_at t) (expires_at t) (Some now) (revoked t) (revoked_at t) (revoke_reason t) (created_at t) else t)).
  { intros h t. unfold find_token, mark_used. clear. induction (tokens s) as [|x l IH]; [done|].
    rewrite fmap_cons. cbn [find_first].
    assert (Hh : token_hash (if t_id x =? t_id row then mk_token (t_id x) (jti x) (token_hash x) (api_key_id x) (family_id x)
      (device_id x) (family_started_at x) (expires_at x) (Some now) (revoked x) (revoked_at x) (revoke_reason x) (created_at x)
      else x) = token_hash x) by by destruct (t_id x =? t_id row).
    rewrite Hh. case_bool_decide; [by intros [= <-]|exact IH]. }
  assert (Happ : ∀ (P : token → bool) l x, find_first P (l ++ [x]) =
    match find_first P l with Some y => Some y | None => if P x then Some x else None end).
  { clear. intros P l x. induction l as [|y l IH]; cbn; [done|]. by destruct (P y). }
  split_and!; try done.
  - unfold s', find_token. cbn [tokens]. rewrite Happ.
    destruct (find_first _ (mark_used _ _ _)) as [t|] eqn:Hff.
    + exfalso. apply find_first_Some in Hff as [Hin Hh]. assert (Hex : existsb (λ t, bool_decide (token_hash t = sha256 raw) ||
        bool_decide (jti t = Some j)) (mark_used now (t_id row) (tokens s)) = true); [|congruence].
      apply existsb_exists. exists t. split; [by apply list_elem_of_In|]. by rewrite Hh.
    + cbn [token_hash]. by rewrite bool_decide_true.
  - intros now2 raw2 j2 d2.
    assert (Hf2 : ∃ row2, find_token (sha256 rawToken) s' = Some row2 ∧ is_Some (used_at row2) ∧ family_id row2 = family_id row).
    { unfold s', find_token. cbn [tokens]. rewrite Happ, (Hmark _ _ Hf), Z.eqb_refl. by eexists. }
    destruct Hf2 as (row2 & Hf2 & Hu & Hfam). unfold rotateRefreshToken. cbn [rotate_run]. cbn [rotate_step].
    rewrite Hf2, bool_decide_true by done. cbn [rotate_step]. split; [done|]. cbn [snd]. rewrite <- Hfam.
    apply revokeFamily_makes_out.
Qed.

End service.

(** ** Two overlapping rotations *)

Definition ex_sha (x : string) : string := x.
Definition ex_st : st :=
  (issueTokenPair ex_sha (30 * 86400000) 1000 "t1" "j1" "fam" 7 [("role", "admin")] None (mk_st [] 1 [])).2.

(** Both read the token before either marks it: two new tokens of one family. *)
Lemma double_rotation :
  let step now raw j p s := rotate_step ex_sha (30 * 86400000) now "t1" raw j None p s in
  let '(p1, s) := step 2000 "a" "ja" PRead ex_st in
  let '(p2, s) := step 2001 "b" "jb" PRead s in
  let '(p1, s) := step 2002 "a" "ja" p1 s in
  let '(p2, s) := step 2003 "b" "jb" p2 s in
  let '(p1, s) := rotate_run ex_sha (30 * 86400000) 3 2004 "t1" "a" "ja" None p1 s in
  let '(p2, s) := rotate_run ex_sha (30 * 86400000) 3 2005 "t1" "b" "jb" None p2 s in
  (match p1, p2 with PDone (ROk _), PDone (ROk _) => true | _, _ => false end,
   (λ t, (token_hash t, revoked t, used_at t)) <$> tokens s) =
  (true, [("t1", false, Some 2005); ("a", false, None); ("b", false, None)]).
Proof. vm_compute. reflexivity. Qed.

(** ** Witnesses *)

Lemma reuse_revokes_family_witness :
  let used := mk_token 1 (Some "j1") "t1" 7 "fam" None (Some 1000) 604801000 (Some 2000) false None None 1000 in
  let s := mk_st [used] 2 [] in
  (rotate_step ex_sha (30 * 86400000) 3000 "t1" "c" "jc" None PRead s).1 = PDone (RError "TOKEN_REUSE_DETECTED") ∧
  Forall (λ t, family_id t = "fam" → revoked t = true)
    (tokens (rotate_step ex_sha (30 * 86400000) 3000 "t1" "c" "jc" None PRead s).2).
Proof.
  intros used s. destruct (reuse_revokes_family ex_sha (30 * 86400000) 3000 "t1" "c" "jc" None used s []
    (mk_sys (rotate_step ex_sha (30 * 86400000) 3000 "t1" "c" "jc" None PRead s).2 [])) as [Hp H];
    [reflexivity|by eexists|constructor|]. split; [reflexivity|]. apply H. constructor.
Defined.

Lemma family_bounded_witness :
  ∃ start, 2000 < start + 30 * 86400000.
Proof.
  destruct (family_bounded ex_sha (30 * 86400000) (mk_sys ex_st []) 2000 "t1" "a" "ja" None
    (mk_rotation (mk_access 7 [("role", "user")] 2 902)
      (mk_token 2 (Some "ja") "a" 7 "fam" None (Some 1000) 604802000 None false None None 2000) None "fam"))
    as (start & Hs & _); [|lia|vm_compute; reflexivity|by exists start].
  eapply rtc_l; [|constructor].
  apply (step_op ex_sha (30 * 86400000) [] (OIssue 1000 "t1" "j1" "fam" 7 [("role", "admin")] None) (mk_st [] 1 []) []).
  split_and!; [lia|apply not_elem_of_nil|constructor|constructor].
Defined.

Lemma rotate_once_witness :
  (rotateRefreshToken ex_sha (30 * 86400000) 9000 "t1" "b" "jb" None
     (rotateRefreshToken ex_sha (30 * 86400000) 2000 "t1" "a" "ja" None ex_st).2).1 = RError "TOKEN_REUSE_DETECTED".
Proof.
  destruct (rotate_once ex_sha (30 * 86400000) 2000 "t1" "a" "ja" None ex_st
    (mk_token 1 (Some "j1") "t1" 7 "fam" None (Some 1000) 604801000 None false None None 1000)) as [_ H];
    [vm_compute; reflexivity|vm_compute; reflexivity|].
  destruct (rotateRefreshToken ex_sha (30 * 86400000) 2000 "t1" "a" "ja" None ex_st).1 as [|r|] eqn:Hr;
    [vm_compute in Hr; discriminate| |vm_compute in Hr; discriminate].
  destruct (H r eq_refl) as (_ & _ & _ & _ & _ & _ & H2). apply (H2 9000 "b" "jb" None).
Defined.

End Tokens.
