(* ===== verification/RateLimits.v ===== *)
(** * Rate limits ([src/src/middleware/RateLimitStore.js],
      [src/src/middleware/perKeyRateLimit.js],
      [src/src/middleware/rateLimitHeaders.js],
      [src/src/services/rateLimitStores/])

    The two stores behind the limit of an API key, the interface they share,
    and the middleware on top of it; then the second pair of stores, whose
    counters are extended by every request.  Of Redis the model has what its
    commands document: INCR, EXPIRE and PTTL on a counter that is gone once
    its time is over. *)

From S2P Require Import Prelude JsString JsMap Windows ApiKeys.
Local Open Scope Z_scope.

Module RateLimits.

(** [keyInfo.id], a number, or the identifier of a legacy key. *)
Inductive rl_key := KeyId (i : Z) | LegacyId (s : string).
#[export] Instance rl_key_eq_dec : EqDecision rl_key.
Proof. solve_decision. Defined.

Record answer := mk_answer { allowed : bool; count : Z; remaining : Z; resetAt : Z }.

(** [Math.ceil(a / b)] for a positive [b]. *)
Definition ceil_div (a b : Z) : Z := - (- a / b).

Lemma ceil_div_spec a b : 0 < b → a <= ceil_div a b * b < a + b.
Proof. intros Hb. unfold ceil_div. pose proof (Z.div_mod (- a) b). pose proof (Z.mod_pos_bound (- a) b Hb). nia. Qed.

(** ** The interface

    [E] is what the outside does to a call: nothing for the store in memory,
    the fate of the commands for Redis. *)

Class RateLimitStore (E S : Type) := {
  store_check : E → Z → rl_key → Z → Z → S → answer * S;     (* now, key, limit, windowSeconds *)
  is_async : bool;
}.

(** A request to a store. *)
Record request (E : Type) := mk_request { r_env : E; r_now : Z; r_key : rl_key; r_limit : Z; r_window : Z }.
Arguments mk_request {E}.
Arguments r_env {E}.
Arguments r_now {E}.
Arguments r_key {E}.
Arguments r_limit {E}.
Arguments r_window {E}.

Section runs.
Context {E S : Type} `{RateLimitStore E S}.

Definition call (r : request E) (s : S) : answer * S :=
  store_check (r_env r) (r_now r) (r_key r) (r_limit r) (r_window r) s.

(** The times at which requests of [k] were allowed. *)
Fixpoint accepted (k : rl_key) (l : list (request E)) (s : S) : list Z * S :=
  match l with
  | [] => ([], s)
  | r :: l =>
      let '(a, s) := call r s in
      let '(ts, s) := accepted k l s in
      ((if allowed a && bool_decide (r_key r = k) then [r_now r] else []) ++ ts, s)
  end.

(** In the order of time, the requests of [k] with one limit and window. *)
Fixpoint clocked (k : rl_key) (limit window now : Z) (l : list (request E)) : Prop :=
  match l with
  | [] => True
  | r :: l => now <= r_now r ∧ (r_key r = k → r_limit r = limit ∧ r_window r = window) ∧
              clocked k limit window (r_now r) l
  end.
End runs.

(** What a store promises: from a state that knows nothing of a key, at most
    [factor] times the limit is allowed in any window. *)
Class RateLimitLaws (E S : Type) `{RateLimitStore E S} := {
  factor : Z;
  unknown : rl_key → S → Prop;
  store_bound : ∀ k limit window l now (s : S),
    0 < window → unknown k s → clocked k limit window now l →
    ∀ t, Z.of_nat (Windows.count_in (window * 1000) t (accepted k l s).1) <= factor * Z.max 0 limit;
}.

(** ** The store in memory *)

Module Memory.

Definition windows : Type := list (rl_key * list Z).

Definition incrementAndCheck (now : Z) (key : rl_key) (limit windowSeconds : Z) (_windows : windows) : answer * windows :=
  let windowMs := windowSeconds * 1000 in
  let cutoff := now - windowMs in
  let ts := default [] (map_get _windows key) in
  let ts := filter (λ t, cutoff < t) ts in
  let resetAt := match ts with t :: _ => t + windowMs | [] => now + windowMs end in
  let n := Z.of_nat (length ts) in
  if limit <=? n then (mk_answer false n 0 resetAt, map_set _windows key ts)
  else (mk_answer true (n + 1) (limit - (n + 1)) resetAt, map_set _windows key (ts ++ [now])).

Definition clear (_ : windows) : windows := [].

#[global] Instance store : RateLimitStore unit windows := {
  store_check := λ _, incrementAndCheck;
  is_async := false;
}.

(** The times kept for a key. *)
Definition times (k : rl_key) (m : windows) : list Z := default [] (map_get m k).

Lemma times_call k m now key limit w :
  times k (incrementAndCheck now key limit w m).2 =
    if decide (key = k) then
      filter (λ t, now - w * 1000 < t) (times k m) ++
      (if allowed (incrementAndCheck now key limit w m).1 then [now] else [])
    else times k m.
Proof.
  unfold incrementAndCheck, times. destruct (limit <=? _); cbn [fst snd allowed];
    rewrite map_get_set; case_decide as Hk; subst; cbn [from_option]; by rewrite ?app_nil_r.
Qed.

Lemma allowed_call now key limit w m :
  allowed (incrementAndCheck now key limit w m).1 =
    (Z.of_nat (length (filter (λ t, (now - w * 1000 < t)%Z) (times key m))) <? limit).
Proof.
  unfold incrementAndCheck, times. rewrite Z.ltb_antisym. by destruct (limit <=? _).
Qed.

Lemma reset_call now key limit w m :
  resetAt (incrementAndCheck now key limit w m).1 =
    match filter (λ t, now - w * 1000 < t) (times key m) with t :: _ => t + w * 1000 | [] => now + w * 1000 end.
Proof. unfold incrementAndCheck, times. by destruct (limit <=? _). Qed.

Section bound.
Context (k : rl_key) (limit window : Z).
#[local] Notation W := (window * 1000).

(** The store knows all of [ts] that later windows can reach. *)
Definition knows (now : Z) (ts : list Z) (m : windows) : Prop :=
  filter (λ a, now - W < a) (times k m) = filter (λ a, now - W < a) ts.

Lemma memory_knows_later now now' ts m : now <= now' → knows now ts m → knows now' ts m.
Proof.
  unfold knows. intros Hn Hk.
  assert (Hf : ∀ l : list Z, filter (λ a, now' - W < a) l = filter (λ a, now' - W < a) (filter (λ a, now - W < a) l)).
  { intros l. rewrite list_filter_filter. apply list_filter_iff. intros a. lia. }
  by rewrite (Hf (times k m)), Hk, <- Hf.
Qed.

Lemma memory_run_bounded l now ts m :
  0 <= window → clocked k limit window now l → Windows.bounded W limit now ts → knows now ts m →
  ∀ t, Z.of_nat (Windows.count_in W t (ts ++ (accepted k l m).1)) <= Z.max 0 limit.
Proof.
  intros Hw. revert now ts m. induction l as [|r l IH]; intros now ts m Hc Hb Hk; cbn [accepted].
  { rewrite app_nil_r. apply Hb. }
  destruct Hc as (Hn & Hlw & Hc). unfold call, store_check. cbn [store].
  pose proof (times_call k m (r_now r) (r_key r) (r_limit r) (r_window r)) as Ht.
  pose proof (allowed_call (r_now r) (r_key r) (r_limit r) (r_window r) m) as Ha.
  destruct (incrementAndCheck _ _ _ _ m) as [a m1]. cbn [fst snd] in Ht, Ha.
  destruct (accepted k l m1) as [us m2] eqn:Hus. replace us with (accepted k l m1).1 by by rewrite Hus. cbn [fst].
  pose proof (memory_knows_later _ _ _ _ Hn Hk) as Hk'. rewrite (assoc_L (++)).
  destruct (decide (r_key r = k)) as [Hrk|Hne]; [rewrite bool_decide_true by done|rewrite bool_decide_false by done].
  - destruct (Hlw Hrk) as [Hl Hrw]. rewrite Hrw in Ht, Ha. rewrite Hl, Hrk in Ha. rewrite andb_true_r.
    assert (Hkn : knows (r_now r) (ts ++ (if allowed a then [r_now r] else [])) m1).
    { unfold knows in *. by rewrite Ht, !filter_app, filter_idemp, Hk'. }
    apply (IH (r_now r)); [done| |done]. destruct (allowed a).
    + apply (Windows.sliding_accept _ _ now (r_now r)); [lia|done|lia|done|].
      unfold knows in Hk'. rewrite <- Hk'. symmetry in Ha. by apply Z.ltb_lt in Ha.
    + rewrite app_nil_r. by apply (Windows.bounded_later _ _ _ _ _ Hn).
  - rewrite andb_false_r, app_nil_r. apply (IH (r_now r)); [done| |].
    + by apply (Windows.bounded_later _ _ _ _ _ Hn).
    + unfold knows in *. by rewrite Ht.
Qed.

(** With one limit, the store never keeps more times than that. *)
Lemma run_length l now m :
  0 <= limit → clocked k limit window now l → Z.of_nat (length (times k m)) <= limit →
  Z.of_nat (length (times k (accepted k l m).2)) <= limit.
Proof.
  intros Hpos. revert now m. induction l as [|r l IH]; intros now m Hc Hm; cbn [accepted]; [done|].
  destruct Hc as (Hn & Hlw & Hc). unfold call, store_check. cbn [store].
  pose proof (times_call k m (r_now r) (r_key r) (r_limit r) (r_window r)) as Ht.
  pose proof (allowed_call (r_now r) (r_key r) (r_limit r) (r_window r) m) as Ha.
  destruct (incrementAndCheck _ _ _ _ m) as [a m1]. cbn [fst snd] in Ht, Ha.
  assert (Hm1 : Z.of_nat (length (times k m1)) <= limit).
  { rewrite Ht. case_decide as Hk; [|done]. destruct (Hlw Hk) as [Hl _]. rewrite Hk, Hl in Ha.
    pose proof (length_filter (λ t, r_now r - r_window r * 1000 < t) (times k m)). rewrite length_app.
    destruct (allowed a); cbn [length]; [|lia]. symmetry in Ha. apply Z.ltb_lt in Ha. lia. }
  specialize (IH _ _ Hc Hm1). by destruct (accepted k l m1).
Qed.
End bound.

#[global, program] Instance laws : RateLimitLaws unit windows := {
  factor := 1;
  unknown := λ k m, times k m = [];
}.
Next Obligation.
  intros k limit window l now m Hw Hun Hc t. rewrite Z.mul_1_l.
  apply (memory_run_bounded k limit window l now [] m ltac:(lia) Hc); [apply Windows.bounded_nil|].
  unfold knows. by rewrite Hun.
Qed.

End Memory.

(** ** The store in Redis *)

Module Redis.

(** A counter and the time it ends. *)
Definition server : Type := list (rl_key * (Z * Z)).

Definition live (now : Z) (key : rl_key) (m : server) : option (Z * Z) :=
  match map_get m key with
  | Some (c, e) => if e <? now then None else Some (c, e)
  | None => None
  end.

(** The script: counter and PTTL.  EXPIRE with no time left deletes. *)
Definition script (now : Z) (key : rl_key) (windowSeconds : Z) (m : server) : (Z * Z) * server :=
  match live now key m with
  | Some (c, e) => ((c + 1, e - now), map_set m key (c + 1, e))
  | None =>
      if windowSeconds <=? 0 then ((1, -2), map_del m key)
      else ((1, windowSeconds * 1000), map_set m key (1, now + windowSeconds * 1000))
  end.

(** What becomes of a call of [eval]: answered; executed, the answer lost;
    not executed. *)
Inductive fate := Done | Lost | Refused.
(** The two attempts of [redis_incrementAndCheck], and the time of the answer. *)
Record env := mk_env { first : fate; second : fate; replied : Z }.

Definition eval (f : fate) (now : Z) (key : rl_key) (windowSeconds : Z) (m : server) : option (Z * Z) * server :=
  match f with
  | Done => let '(res, m) := script now key windowSeconds m in (Some res, m)
  | Lost => (None, (script now key windowSeconds m).2)
  | Refused => (None, m)
  end.

Section redis.
Context (_failOpen : bool).

Definition redis_incrementAndCheck (e : env) (now : Z) (key : rl_key) (limit windowSeconds : Z) (m : server) : answer * server :=
  let '(res, m) := eval (first e) now key windowSeconds m in
  let '(res, m) := match res with
                   | Some r => (Some r, m)
                   | None => eval (second e) now key windowSeconds m
                   end in
  match res with
  | Some (c, ttl) =>
      let ttlMs := Z.max ttl 0 in
      (mk_answer (c <=? limit) c (Z.max 0 (limit - c)) (replied e + ttlMs), m)
  | None =>
      if _failOpen then (mk_answer true 0 limit (replied e + windowSeconds * 1000), m)
      else (mk_answer false limit 0 (replied e + windowSeconds * 1000), m)
  end.
End redis.

(** The store that denies when Redis does not answer, and the default, which
    allows. *)
Definition closed_store : RateLimitStore env server := {|
  store_check := redis_incrementAndCheck false;
  is_async := true;
|}.
Definition open_store : RateLimitStore env server := {|
  store_check := redis_incrementAndCheck true;
  is_async := true;
|}.

Section bound.
Context (k : rl_key) (limit window : Z) (Hw : 0 < window).
#[local] Notation W := (window * 1000).
#[local] Notation fixed := (Windows.fixed W).

(** What the counter says of the accepted times. *)
Definition counted (acc : list Z) (a : Z) (m : server) : Prop :=
  match map_get m k with
  | Some (c, e) => fixed limit (e - W) c acc ∧ e - W <= a
  | None => acc = []
  end.

Lemma counted_later acc a a' m : a <= a' → counted acc a m → counted acc a' m.
Proof. unfold counted. intros Ha. destruct (map_get m k) as [[c e]|]; [|done]. intros [? ?]. split; [done|lia]. Qed.

Lemma script_spec acc a m : counted acc a m →
  ∃ c e, (script a k window m).1.1 = c ∧ map_get (script a k window m).2 k = Some (c, e) ∧
    fixed limit (e - W) (c - 1) acc ∧ e - W <= a <= e.
Proof.
  unfold counted, script, live. destruct (map_get m k) as [[c e]|] eqn:Hg.
  - intros [Hf He]. destruct (Z.ltb_spec e a) as [Hlt|Hge].
    + destruct (Z.leb_spec window 0); [lia|]. exists 1, (a + W). cbn [fst snd]. rewrite map_get_set_eq.
      replace (a + W - W) with a by lia. split_and!; try done; try lia.
      apply (Windows.fixed_next W limit (e - W) c); [done|lia|].
      destruct (Windows.fixed_past _ _ _ _ _ Hf) as [Hp|]; [|lia]. eapply Forall_impl; [exact Hp|]. cbn. lia.
    + exists (c + 1), e. cbn [fst snd]. rewrite map_get_set_eq. replace (c + 1 - 1) with c by lia. split_and!; try done; lia.
  - intros ->. destruct (Z.leb_spec window 0); [lia|]. exists 1, (a + W). cbn [fst snd]. rewrite map_get_set_eq.
    replace (a + W - W) with a by lia. split_and!; try done; try lia. apply Windows.fixed_nil.
Qed.

(** One attempt: an answer [c] leaves the counter at [c]. *)
Lemma eval_spec f acc a m : counted acc a m →
  match (eval f a k window m).1 with
  | Some (c, _) => counted (acc ++ (if c <=? limit then [a] else [])) a (eval f a k window m).2
  | None => counted acc a (eval f a k window m).2
  end.
Proof.
  intros Hc. destruct (script_spec acc a m Hc) as (c & e & Hs & Hg & Hf & He).
  destruct f; cbn [eval]; [|cbn [fst snd]|done]; destruct (script a k window m) as [[c' ttl] m']; cbn [fst snd] in *; subst c'.
  - unfold counted. rewrite Hg. split; [|lia]. destruct (Z.leb_spec c limit).
    + replace c with (c - 1 + 1) by lia. apply Windows.fixed_accept; [done|lia|lia].
    + rewrite app_nil_r. apply (Windows.fixed_skip _ _ _ (c - 1)); [done|lia].
  - unfold counted. rewrite Hg. split; [|lia]. apply (Windows.fixed_skip _ _ _ (c - 1)); [done|lia].
Qed.

Lemma call_spec e acc a m : counted acc a m →
  counted (acc ++ (if allowed (redis_incrementAndCheck false e a k limit window m).1 then [a] else [])) a
    (redis_incrementAndCheck false e a k limit window m).2.
Proof.
  intros Hc. unfold redis_incrementAndCheck. pose proof (eval_spec (first e) acc a m Hc) as H1.
  destruct (eval (first e) a k window m) as [[[c ttl]|] m1]; cbn [fst snd] in *; [done|].
  pose proof (eval_spec (second e) acc a m1 H1) as H2.
  destruct (eval (second e) a k window m1) as [[[c ttl]|] m2]; cbn [fst snd allowed] in *; [done|by rewrite app_nil_r].
Qed.

(** Other keys have counters of their own. *)
Lemma script_other a key w m : key ≠ k → map_get (script a key w m).2 k = map_get m k.
Proof.
  intros Hk. unfold script. destruct (live a key m) as [[c e]|]; cbn [snd]; [by rewrite map_get_set_ne|].
  destruct (w <=? 0); cbn [snd]; [|by rewrite map_get_set_ne]. rewrite map_get_del. by case_decide.
Qed.
Lemma eval_other f a key w m : key ≠ k → map_get (eval f a key w m).2 k = map_get m k.
Proof.
  intros Hk. pose proof (script_other a key w m Hk) as Hs. destruct f; cbn; [|done|done].
  by destruct (script a key w m).
Qed.
Lemma call_other b e a key lim w m : key ≠ k → map_get (redis_incrementAndCheck b e a key lim w m).2 k = map_get m k.
Proof.
  intros Hk. unfold redis_incrementAndCheck. pose proof (eval_other (first e) a key w m Hk) as H1.
  destruct (eval (first e) a key w m) as [[[c ttl]|] m1]; cbn [snd] in *; [done|].
  pose proof (eval_other (second e) a key w m1 Hk) as H2.
  destruct (eval (second e) a key w m1) as [[[c ttl]|] m2]; cbn [snd] in *; [congruence|]. destruct b; cbn [snd]; congruence.
Qed.

Lemma redis_run_bounded l now ts m :
  clocked k limit window now l → counted ts now m →
  ∀ t, Z.of_nat (Windows.count_in W t (ts ++ (@accepted _ _ closed_store k l m).1)) <= 2 * Z.max 0 limit.
Proof.
  revert now ts m. induction l as [|r l IH]; intros now ts m Hc Hb; cbn [accepted].
  { rewrite app_nil_r. intros t. unfold counted in Hb. destruct (map_get m k) as [[c e]|].
    - by apply (Windows.fixed_bound _ _ (e - W) c), Hb.
    - subst ts. cbn. lia. }
  destruct Hc as (Hn & Hlw & Hc). apply (counted_later _ _ _ _ Hn) in Hb.
  unfold call, store_check. cbn [closed_store].
  assert (Hstep : counted (ts ++ (if allowed (redis_incrementAndCheck false (r_env r) (r_now r) (r_key r) (r_limit r) (r_window r) m).1
      && bool_decide (r_key r = k) then [r_now r] else [])) (r_now r)
    (redis_incrementAndCheck false (r_env r) (r_now r) (r_key r) (r_limit r) (r_window r) m).2).
  { destruct (decide (r_key r = k)) as [Hrk|Hne]; [rewrite bool_decide_true by done|rewrite bool_decide_false by done].
    - destruct (Hlw Hrk) as [-> ->]. rewrite Hrk, andb_true_r. by apply call_spec.
    - rewrite andb_false_r, app_nil_r. unfold counted. rewrite call_other by done. exact Hb. }
  destruct (redis_incrementAndCheck false _ _ _ _ _ m) as [a m1]. cbn [fst snd] in Hstep.
  destruct (@accepted _ _ closed_store k l m1) as [us m2] eqn:Hus.
  replace us with (@accepted _ _ closed_store k l m1).1 by by rewrite Hus. cbn [fst]. rewrite (assoc_L (++)).
  by apply (IH (r_now r)).
Qed.
End bound.

#[global, program] Instance closed_laws : @RateLimitLaws env server closed_store := {
  factor := 2;
  unknown := λ k m, map_get m k = None;
}.
Next Obligation.
  intros k limit window l now m Hw Hun Hc t.
  apply (redis_run_bounded k limit window Hw l now [] m Hc). unfold counted. by rewrite Hun.
Qed.

End Redis.

(** ** The middleware *)

Definition DEFAULT_RATE_LIMIT : Z := 100.
Definition DEFAULT_WINDOW_SECONDS : Z := 60.

Record headers := mk_headers { RateLimit_Limit : Z; RateLimit_Remaining : Z; RateLimit_Reset : Z }.
Definition buildRateLimitHeaders (limit remaining resetAt : Z) : headers :=
  let resetSeconds := ceil_div resetAt 1000 in
  mk_headers limit (Z.max 0 remaining) resetSeconds.

(** Seconds, for a time in milliseconds; 0 is falsy. *)
Definition calculateRetryAfter (now resetTime : Z) : Z :=
  if resetTime =? 0 then 1 else Z.max 1 (ceil_div (resetTime - now) 1000).

(** [req.apiKey] *)
Inductive attached := NoKey | LegacyKey | DbKey (keyInfo : ApiKeys.key_info).

Inductive response := Next (h : option headers) | TooManyRequests (h : headers) (retryAfter : Z).

(** The fields [rateLimit] and [rateLimitWindowSeconds] are never set. *)
Definition limit_of (keyInfo : ApiKeys.key_info) : Z :=
  default DEFAULT_RATE_LIMIT (ApiKeys.nonzero (ApiKeys.i_rateLimitPerMinute keyInfo)).

Section middleware.
Context {E S : Type} `{RateLimitStore E S}.

(** [now] is the time of the call of the store, [clock] the time after it. *)
Definition perKeyRateLimit (e : E) (now clock : Z) (apiKey : attached) (s : S) : response * S :=
  match apiKey with
  | DbKey keyInfo =>
      if ApiKeys.i_id keyInfo =? 0 then (Next None, s)
      else
        let limit := limit_of keyInfo in
        let windowSeconds := DEFAULT_WINDOW_SECONDS in
        let '(result, s) := store_check e now (KeyId (ApiKeys.i_id keyInfo)) limit windowSeconds s in
        let h := buildRateLimitHeaders limit (remaining result) (ceil_div (resetAt result) 1000) in
        if negb (allowed result) then (TooManyRequests h (calculateRetryAfter clock (resetAt result)), s)
        else (Next (Some h), s)
  | _ => (Next None, s)
  end.

(** The call without [await], for legacy keys: the promise of an asynchronous
    store is not waited for and counts as allowed. *)
Definition checkRateLimit (e : E) (now : Z) (key : rl_key) (limit windowSeconds : Z) (s : S) : answer * S :=
  let '(result, s) := store_check e now key limit windowSeconds s in
  if is_async then (mk_answer true (count result) limit (now + windowSeconds * 1000), s)
  else (result, s).

(** ** The limit of a key *)

Record hit := mk_hit { h_env : E; h_now : Z; h_clock : Z; h_key : attached }.

Definition of_key (i : Z) (a : attached) : bool :=
  match a with DbKey keyInfo => (ApiKeys.i_id keyInfo =? i) && negb (i =? 0) | _ => false end.
Definition is_next (r : response) : bool := match r with Next _ => true | _ => false end.

(** The times at which requests with the key [i] go on to their route. *)
Fixpoint passed (i : Z) (l : list hit) (s : S) : list Z * S :=
  match l with
  | [] => ([], s)
  | x :: l =>
      let '(r, s) := perKeyRateLimit (h_env x) (h_now x) (h_clock x) (h_key x) s in
      let '(ts, s) := passed i l s in
      ((if is_next r && of_key i (h_key x) then [h_now x] else []) ++ ts, s)
  end.

(** Requests in the order of time, the key [i] with one limit. *)
Fixpoint hits_clocked (i limit now : Z) (l : list hit) : Prop :=
  match l with
  | [] => True
  | x :: l => now <= h_now x ∧
      (∀ keyInfo, h_key x = DbKey keyInfo → ApiKeys.i_id keyInfo = i → limit_of keyInfo = limit) ∧
      hits_clocked i limit (h_now x) l
  end.

(** The calls of the store. *)
Definition store_calls (l : list hit) : list (request E) :=
  omap (λ x, match h_key x with
             | DbKey keyInfo => if ApiKeys.i_id keyInfo =? 0 then None
                                else Some (mk_request (h_env x) (h_now x) (KeyId (ApiKeys.i_id keyInfo)) (limit_of keyInfo)
                                             DEFAULT_WINDOW_SECONDS)
             | _ => None
             end) l.

Lemma store_calls_cons x l : store_calls (x :: l) = store_calls [x] ++ store_calls l.
Proof. unfold store_calls. cbn. destruct (h_key x); [done|done|]. by case_match. Qed.

Lemma clocked_mono k limit w now now' (l : list (request E)) :
  now <= now' → clocked k limit w now' l → clocked k limit w now l.
Proof. destruct l as [|r l]; [done|]. cbn. intros ? (? & ? & ?). split_and!; try done; lia. Qed.

Lemma store_calls_clocked i limit now l :
  hits_clocked i limit now l → clocked (KeyId i) limit DEFAULT_WINDOW_SECONDS now (store_calls l).
Proof.
  revert now. induction l as [|x l IH]; intros now; [done|]. intros (Hn & Hl & Hc). specialize (IH _ Hc).
  assert (Hskip : clocked (KeyId i) limit DEFAULT_WINDOW_SECONDS now (store_calls l)) by by apply (clocked_mono _ _ _ now (h_now x)).
  unfold store_calls in *. cbn. destruct (h_key x) as [| |keyInfo]; [done|done|].
  destruct (ApiKeys.i_id keyInfo =? 0); [done|]. cbn. split_and!; [done| |done].
  intros [= Hk]. split; [by apply Hl|done].
Qed.

Lemma passed_accepted i l s : (passed i l s).1 = (accepted (KeyId i) (store_calls l) s).1.
Proof.
  revert s. induction l as [|x l IH]; intros s; [done|]. rewrite store_calls_cons. cbn [passed].
  unfold store_calls at 1, perKeyRateLimit. cbn [omap list_omap]. unfold of_key.
  assert (Hno : ∀ r, (let '(r, s) := (Next r, s) in let '(ts, s) := passed i l s in
    ((if is_next r && false then [h_now x] else []) ++ ts, s)).1 = (accepted (KeyId i) (store_calls l) s).1).
  { intros r. rewrite <- IH. by destruct (passed i l s). }
  destruct (h_key x) as [| |keyInfo]; [exact (Hno None)..|]. destruct (Z.eqb_spec (ApiKeys.i_id keyInfo) 0) as [H0|H0].
  { rewrite <- IH. destruct (passed i l s). rewrite H0. cbn [fst is_next andb].
    destruct (Z.eqb_spec 0 i) as [<-|]; done. }
  cbn [app accepted]. unfold call. cbn [r_env r_now r_key r_limit r_window].
  destruct (store_check _ _ _ _ _ s) as [a s1]. specialize (IH s1).
  destruct (allowed a); cbn [negb]; destruct (passed i l s1) as [ts s2], (accepted (KeyId i) (store_calls l) s1) as [us s3];
    cbn [fst is_next andb] in *; subst us; [|done].
  destruct (Z.eqb_spec (ApiKeys.i_id keyInfo) i) as [Hid|Hne]; cbn [andb].
  - rewrite Hid, bool_decide_true by done. destruct (Z.eqb_spec i 0); [congruence|done].
  - rewrite bool_decide_false; [done|]. congruence.
Qed.

(** Of the requests with a database key, in any window at most [factor] times
    the limit go on to their route, on a store that keeps its promise. *)
Lemma limit_kept `{!RateLimitLaws E S} i limit l now s :
  unknown (KeyId i) s → hits_clocked i limit now l →
  ∀ t, Z.of_nat (Windows.count_in 60000 t (passed i l s).1) <= factor * Z.max 0 limit.
Proof.
  intros Hu Hl t. rewrite passed_accepted.
  apply (store_bound (KeyId i) limit DEFAULT_WINDOW_SECONDS _ now); [done|done|by apply store_calls_clocked].
Qed.

(** What the headers say.  The remaining count and the limit are those of the store; the reset
    is given in units of a thousand seconds, since the time is divided by 1000 twice. *)
Theorem reset_header_scaled e now clock keyInfo s :
  ApiKeys.i_id keyInfo ≠ 0 →
  let limit := limit_of keyInfo in
  let '(result, s') := store_check e now (KeyId (ApiKeys.i_id keyInfo)) limit 60 s in
  let h := mk_headers limit (Z.max 0 (remaining result)) (ceil_div (resetAt result) 1000000) in
  perKeyRateLimit e now clock (DbKey keyInfo) s =
    (if allowed result then Next (Some h)
     else TooManyRequests h (calculateRetryAfter clock (resetAt result)), s').
Proof.
  intros Hi limit. unfold perKeyRateLimit. apply Z.eqb_neq in Hi. rewrite Hi.
  change DEFAULT_WINDOW_SECONDS with 60. fold limit. destruct (store_check _ _ _ _ _ s) as [result s'].
  unfold buildRateLimitHeaders. replace (ceil_div (ceil_div (resetAt result) 1000) 1000) with (ceil_div (resetAt result) 1000000).
  { by destruct (allowed result). }
  unfold ceil_div. rewrite Z.opp_involutive, Z.div_div by lia. reflexivity.
Qed.

End middleware.

(** A call that one of its two attempts answers does not depend on what the
    store does without an answer. *)
Definition is_done (f : Redis.fate) : bool := match f with Redis.Done => true | _ => false end.
Definition answered (e : Redis.env) : bool := is_done (Redis.first e) || is_done (Redis.second e).
Lemma answered_mode b e now key limit w m : answered e = true →
  Redis.redis_incrementAndCheck b e now key limit w m = Redis.redis_incrementAndCheck false e now key limit w m.
Proof.
  unfold answered, Redis.redis_incrementAndCheck. intros [H|H]%orb_true_iff;
    [destruct (Redis.first e); try done|destruct (Redis.second e); try done]; cbn [Redis.eval].
  - by destruct (Redis.script now key w m).
  - destruct (Redis.eval (Redis.first e) now key w m) as [[res|] m1]; [done|]. by destruct (Redis.script now key w m1).
Qed.
Lemma answered_passed i l m : Forall (λ x, answered (h_env x) = true) l →
  @passed _ _ Redis.open_store i l m = @passed _ _ Redis.closed_store i l m.
Proof.
  intros Hl. revert m. induction Hl as [|x l Hx _ IH]; intros m; [done|]. cbn [passed].
  assert (@perKeyRateLimit _ _ Redis.open_store (h_env x) (h_now x) (h_clock x) (h_key x) m =
    @perKeyRateLimit _ _ Redis.closed_store (h_env x) (h_now x) (h_clock x) (h_key x) m) as ->.
  { unfold perKeyRateLimit. cbn [store_check Redis.open_store Redis.closed_store]. destruct (h_key x) as [| |keyInfo]; [done..|].
    destruct (_ =? 0); [done|]. by rewrite answered_mode. }
  destruct (perKeyRateLimit _ _ _ _ m) as [r m1]. by rewrite IH.
Qed.

(** C11: Of the requests with a database key, in any 60 seconds at most its limit
    per minute goes on to the route with the store in memory; with the store
    in Redis at most twice the limit when it denies without an answer, and
    also in its default mode when every call is answered.  Requests of other
    keys change nothing. *)
Theorem per_key_bound i limit now :
  (∀ l m, Memory.times (KeyId i) m = [] → hits_clocked i limit now l →
     ∀ t, Z.of_nat (Windows.count_in 60000 t (passed i l m).1) <= Z.max 0 limit) ∧
  (∀ l m, map_get m (KeyId i) = None → hits_clocked i limit now l →
     ∀ t, Z.of_nat (Windows.count_in 60000 t (@passed _ _ Redis.closed_store i l m).1) <= 2 * Z.max 0 limit) ∧
  (∀ l m, map_get m (KeyId i) = None → hits_clocked i limit now l → Forall (λ x, answered (h_env x) = true) l →
     ∀ t, Z.of_nat (Windows.count_in 60000 t (@passed _ _ Redis.open_store i l m).1) <= 2 * Z.max 0 limit).
Proof.
  assert (∀ l m, map_get m (KeyId i) = None → hits_clocked i limit now l →
    ∀ t, Z.of_nat (Windows.count_in 60000 t (@passed _ _ Redis.closed_store i l m).1) <= 2 * Z.max 0 limit) as Hc.
  { intros l m Hm Hl t. by apply (@limit_kept _ _ Redis.closed_store Redis.closed_laws i limit l now m). }
  split_and!; [|done|].
  - intros l m Hm Hl t. rewrite <- (Z.mul_1_l (Z.max 0 limit)). by apply (@limit_kept _ _ Memory.store Memory.laws i limit l now m).
  - intros l m Hm Hl Ha t. rewrite answered_passed by done. by apply Hc.
Qed.

(** Retry-After is enough: a request that the store in memory denied, made again after the
    announced seconds, goes through, if the limit is positive and nothing came between. *)
Theorem retry_after_sufficient l now keyInfo now1 clock1 now2 clock2 h retryAfter :
  let k := KeyId (ApiKeys.i_id keyInfo) in
  let limit := limit_of keyInfo in
  clocked k limit DEFAULT_WINDOW_SECONDS now l → 0 < limit → 0 <= clock1 →
  let m := (accepted k l ([] : Memory.windows)).2 in
  (perKeyRateLimit tt now1 clock1 (DbKey keyInfo) m).1 = TooManyRequests h retryAfter →
  clock1 + retryAfter * 1000 <= now2 →
  is_next (perKeyRateLimit tt now2 clock2 (DbKey keyInfo) (perKeyRateLimit tt now1 clock1 (DbKey keyInfo) m).2).1 = true.
Proof.
  intros k limit Hc Hpos Hclock m. assert (Hlen : Z.of_nat (length (Memory.times k m)) <= limit).
  { subst m. apply (Memory.run_length _ _ DEFAULT_WINDOW_SECONDS l now); [lia|done|]. cbn. lia. }
  unfold perKeyRateLimit. fold limit k. destruct (ApiKeys.i_id keyInfo =? 0); [done|].
  unfold store_check. cbn [Memory.store]. set (W := DEFAULT_WINDOW_SECONDS).
  pose proof (Memory.times_call k m now1 k limit W) as Ht. rewrite decide_True in Ht by done.
  pose proof (Memory.allowed_call now1 k limit W m) as Ha.
  pose proof (Memory.reset_call now1 k limit W m) as Hr.
  destruct (Memory.incrementAndCheck now1 k limit W m) as [a m1]. cbn [fst snd] in *.
  destruct (allowed a) eqn:Hal; cbn [negb fst]; [done|]. intros [= _ <-] Hnow2. symmetry in Ha. apply Z.ltb_ge in Ha.
  rewrite app_nil_r in Ht.
  assert (Ha2 : allowed (Memory.incrementAndCheck now2 k limit W m1).1 = true).
  { rewrite Memory.allowed_call, Ht. apply Z.ltb_lt.
    destruct (filter (λ t, now1 - W * 1000 < t) (Memory.times k m)) as [|t0 ts] eqn:Hf; [cbn in Ha; lia|].
    assert (Hle : Z.of_nat (length (t0 :: ts)) <= limit).
    { rewrite <- Hf. pose proof (length_filter (λ t, now1 - W * 1000 < t) (Memory.times k m)). lia. }
    rewrite filter_cons_False.
    - pose proof (length_filter (λ t, now2 - W * 1000 < t) ts). cbn [length] in Hle. lia.
    - unfold calculateRetryAfter in Hnow2. rewrite Hr in Hnow2.
      pose proof (ceil_div_spec (t0 + W * 1000 - clock1) 1000 ltac:(lia)). destruct (Z.eqb_spec (t0 + W * 1000) 0); lia. }
  cbn [snd]. destruct (Memory.incrementAndCheck now2 k limit W m1) as [a2 m2]. cbn [fst] in Ha2. by rewrite Ha2.
Qed.

(** ** Counters that every request extends ([src/src/services/rateLimitStores/]) *)

Module Counters.

(** *** In memory: a counter and a timer per key *)

Record st := mk_st { counters : list (string * Z); timers : list (string * Z) }.   (* the time it is due *)
Definition init : st := mk_st [] [].

(** [clearTimeout] of the old timer is in the replacement. *)
Definition increment (now : Z) (key : string) (windowMs : Z) (s : st) : Z * st :=
  let current := match map_get (counters s) key with Some 0 | None => 0 | Some c => c end + 1 in
  (current, mk_st (map_set (counters s) key current) (map_set (timers s) key (now + windowMs))).
Definition get (key : string) (s : st) : Z := default 0 (map_get (counters s) key).
Definition reset (key : string) (s : st) : st := mk_st (map_del (counters s) key) (map_del (timers s) key).
Definition shutdown (_ : st) : st := init.
(** A timer that is due. *)
Definition fire (now : Z) (key : string) (s : st) : st :=
  match map_get (timers s) key with
  | Some t => if t <=? now then reset key s else s
  | None => s
  end.

(** *** In Redis: INCR, then EXPIRE, two commands *)

Definition server : Type := list (string * (Z * option Z)).     (* counter, its end if it has one *)
Definition redis_live (now : Z) (key : string) (m : server) : option (Z * option Z) :=
  match map_get m key with
  | Some (c, Some e) => if e <? now then None else Some (c, Some e)
  | o => o
  end.
Definition incr (now : Z) (key : string) (m : server) : Z * server :=
  match redis_live now key m with
  | Some (c, e) => (c + 1, map_set m key (c + 1, e))
  | None => (1, map_set m key (1, None))
  end.
Definition expire (now : Z) (key : string) (seconds : Z) (m : server) : server :=
  match redis_live now key m with
  | Some (c, _) => if seconds <=? 0 then map_del m key else map_set m key (c, Some (now + seconds * 1000))
  | None => m
  end.
(** [ok] tells whether EXPIRE reached the server; [None] is the exception. *)
Definition redis_increment (ok : bool) (now : Z) (key : string) (windowMs : Z) (m : server) : option Z * server :=
  let '(newValue, m) := incr now key m in
  let expirationSeconds := ceil_div windowMs 1000 in
  if ok then (Some newValue, expire now key expirationSeconds m) else (None, m).

(** *** A steady client *)

Inductive event := Increment (now : Z) (key : string) | Fire (now : Z) (key : string).

Section steady.
Context (windowMs : Z).

Definition run_event (e : event) (s : st) : option Z * st :=
  match e with
  | Increment now key => let '(c, s) := increment now key windowMs s in (Some c, s)
  | Fire now key => (None, fire now key s)
  end.
(** The counts a key is given. *)
Fixpoint counts (key : string) (l : list event) (s : st) : list Z :=
  match l with
  | [] => []
  | e :: l =>
      let '(c, s) := run_event e s in
      match e, c with
      | Increment _ k, Some c => (if bool_decide (k = key) then [c] else []) ++ counts key l s
      | _, _ => counts key l s
      end
  end.
(** Events in order; the requests of [key] less than a window apart. *)
Fixpoint steady (key : string) (last : Z) (l : list event) : Prop :=
  match l with
  | [] => True
  | Increment now k :: l => if bool_decide (k = key) then now < last + windowMs ∧ steady key now l else steady key last l
  | Fire now k :: l => now < last + windowMs ∧ steady key last l
  end.

Lemma steady_counts key l : ∀ n last s,
  map_get (counters s) key = Some n → 0 < n → map_get (timers s) key = Some (last + windowMs) → steady key last l →
  counts key l s = seqZ (n + 1) (Z.of_nat (length (counts key l s))).
Proof.
  induction l as [|[now k|now k] l IH]; intros n last s Hc Hn Ht Hs; [done|..]; cbn [counts run_event steady] in *.
  - unfold increment. case_bool_decide as Hk.
    + subst k. destruct Hs as [_ Hs]. rewrite Hc. destruct n as [|n|n]; [lia| |lia].
      cbn [app length]. rewrite seqZ_cons by lia. f_equal.
      set (s1 := mk_st _ _). specialize (IH (Z.pos n + 1) now s1). rewrite IH at 1.
      * f_equal; lia.
      * unfold s1. cbn [counters]. by rewrite map_get_set_eq.
      * lia.
      * unfold s1. cbn [timers]. by rewrite map_get_set_eq.
      * done.
    + cbn [app]. apply (IH n last); cbn [counters timers]; by rewrite ?map_get_set_ne by done.
  - destruct Hs as [Hlt Hs]. apply (IH n last); try done; unfold fire;
      (destruct (decide (k = key)) as [->|Hne]; [rewrite Ht; by destruct (Z.leb_spec (last + windowMs) now); [lia|]|]);
      (destruct (map_get (timers s) k) as [t|]; [|done]); (destruct (t <=? now); [|done]);
      cbn [reset counters timers]; rewrite map_get_del; by case_decide.
Qed.

(** A client that never pauses for a whole window is counted without end: the counter is not of
    the requests of one window but of all requests since the last pause. *)
Theorem steady_client_never_reset key now l :
  0 < windowMs → steady key now l →
  counts key (Increment now key :: l) init = seqZ 1 (Z.of_nat (length (counts key (Increment now key :: l) init))).
Proof.
  intros Hw Hs. cbn [counts run_event increment init counters map_get]. rewrite bool_decide_true by done.
  cbn [app length]. rewrite seqZ_cons by lia. f_equal. set (s1 := mk_st _ _).
  rewrite (steady_counts key l 1 now s1) at 1; [f_equal; lia|..]; try done; unfold s1; cbn; by rewrite decide_True.
Qed.
End steady.

(** When EXPIRE fails after INCR of a new key, the counter stays for ever. *)
Lemma immortal_counter key now windowMs later :
  let m := (redis_increment false now key windowMs []).2 in
  redis_live later key m = Some (1, None).
Proof. unfold redis_increment, incr, redis_live. cbn. by rewrite decide_True. Qed.

End Counters.

(** ** Witnesses *)

Definition ex_info (i limit : Z) : ApiKeys.key_info :=
  ApiKeys.mk_info i "abcd" "k" "user" [] ApiKeys.ACTIVE false 0 [] 30 0 None false None None None 0 None None (Some limit).

Definition hits_at {E} (e : E) (l : list Z) : list (hit (E := E)) := (λ t, mk_hit e t t (DbKey (ex_info 7 2))) <$> l.
Lemma per_key_bound_witness :
  let done_ := Redis.mk_env Redis.Done Redis.Done 0 in
  let lost := Redis.mk_env Redis.Lost Redis.Refused 0 in
  Z.of_nat (Windows.count_in 60000 60000 (passed 7 (hits_at tt [1000; 2000; 3000; 70000]) ([] : Memory.windows)).1) <= 2 ∧
  (passed 7 (hits_at tt [1000; 2000; 3000; 70000]) ([] : Memory.windows)).1 = [1000; 2000; 70000] ∧
  Z.of_nat (Windows.count_in 60000 60000 (@passed _ _ Redis.closed_store 7 (hits_at lost [1000; 2000; 3000]) []).1) <= 4 ∧
  Z.of_nat (Windows.count_in 60000 60000 (@passed _ _ Redis.open_store 7 (hits_at done_ [1000; 2000; 3000]) []).1) <= 4 ∧
  (@passed _ _ Redis.open_store 7 (hits_at done_ [1000; 2000; 3000]) []).1 = [1000; 2000].
Proof.
  intros done_ lost. destruct (per_key_bound 7 2 0) as (Hm & Hc & Ho). split_and!; [|vm_compute; reflexivity| | |vm_compute; reflexivity].
  - refine (Hm (hits_at tt [1000; 2000; 3000; 70000]) [] eq_refl _ 60000). cbn. split_and!; try lia; intros keyInfo [= <-] _; reflexivity.
  - refine (Hc (hits_at lost [1000; 2000; 3000]) [] eq_refl _ 60000). cbn. split_and!; try lia; intros keyInfo [= <-] _; reflexivity.
  - refine (Ho (hits_at done_ [1000; 2000; 3000]) [] eq_refl _ _ 60000); [|by repeat constructor].
    cbn. split_and!; try lia; intros keyInfo [= <-] _; reflexivity.
Defined.

Lemma reset_header_scaled_witness :
  perKeyRateLimit tt 1700000000000 1700000000000 (DbKey (ex_info 7 2)) ([] : Memory.windows) =
    (Next (Some (mk_headers 2 1 1700001)), [(KeyId 7, [1700000000000])]).
Proof.
  assert (Hi : ApiKeys.i_id (ex_info 7 2) ≠ 0) by discriminate.
  generalize (reset_header_scaled tt 1700000000000 1700000000000 (ex_info 7 2) ([] : Memory.windows) Hi).
  vm_compute. intros H. exact H.
Defined.

Lemma retry_after_sufficient_witness :
  is_next (perKeyRateLimit tt 61000 61000 (DbKey (ex_info 7 1))
    (perKeyRateLimit tt 5000 5000 (DbKey (ex_info 7 1)) ([(KeyId 7, [1000])] : Memory.windows)).2).1 = true.
Proof.
  apply (retry_after_sufficient [mk_request tt 1000 (KeyId 7) 1 60] 0 (ex_info 7 1) 5000 5000 61000 61000
    (mk_headers 1 0 1) 56); [|reflexivity|discriminate|vm_compute; reflexivity|discriminate].
  cbn. split_and!; try lia; done.
Defined.

Lemma steady_client_never_reset_witness :
  Counters.counts 60000 "k" [Counters.Increment 0 "k"; Counters.Increment 59999 "k"; Counters.Fire 60000 "k";
    Counters.Increment 119998 "k"] Counters.init = [1; 2; 3].
Proof.
  apply (Counters.steady_client_never_reset 60000 "k" 0 [Counters.Increment 59999 "k"; Counters.Fire 60000 "k";
    Counters.Increment 119998 "k"]); [reflexivity|vm_compute; repeat split].
Defined.

(** The store in Redis exceeds the limit in a window that meets two of its own. *)
Example redis_burst :
  let e t := Redis.mk_env Redis.Done Redis.Done t in
  (@accepted _ _ Redis.closed_store (KeyId 7)
     ((λ t, mk_request (e t) t (KeyId 7) 2 60) <$> [0; 59000; 60000; 60001; 60002; 60003]) []).1 =
  [0; 59000; 60001; 60002].
Proof. vm_compute. reflexivity. Qed.

End RateLimits.
