(* ===== verification/BruteForce.v ===== *)
(** * Brute force ([src/src/utils/bruteForceProtection.js],
      [src/src/routes/auth.js])

    The lock-out of an address after failed attempts, and the route that
    rotates refresh tokens on top of it and of [Tokens].  The limiters between
    the two are a third-party package: whether they let a request pass is part
    of the request. *)

From S2P Require Import Prelude JsString JsMap Windows Tokens.
Local Open Scope Z_scope.

Module BruteForce.

(** ** bruteForceProtection.js *)

Record entry := mk_entry { attempts : Z; windowStart : Z; lockedUntil : Z }.
Definition locks : Type := list (string * entry).

Section brute_force.
Context (MAX_ATTEMPTS WINDOW_MS LOCKOUT_MS : Z).

Definition entry_of (now : Z) (key : string) (s : locks) : entry := default (mk_entry 0 now 0) (map_get s key).

Definition isLockedOut (now : Z) (key : string) (s : locks) : bool :=
  match map_get s key with Some e => now <? lockedUntil e | None => false end.

Definition lockoutRemainingMs (now : Z) (key : string) (s : locks) : Z :=
  match map_get s key with
  | Some e => let remaining := lockedUntil e - now in if 0 <? remaining then remaining else 0
  | None => 0
  end.

Definition recordFailure (now : Z) (key : string) (s : locks) : locks :=
  let e := entry_of now key s in
  let e := if WINDOW_MS <? now - windowStart e then mk_entry 0 now 0 else e in
  let n := attempts e + 1 in
  map_set s key (mk_entry n (windowStart e) (if MAX_ATTEMPTS <=? n then now + LOCKOUT_MS else lockedUntil e)).

Definition recordSuccess (key : string) (s : locks) : locks := map_del s key.

(** [Some] is the answer 429 with its Retry-After. *)
Definition middleware (now : Z) (key : string) (s : locks) : option Z :=
  if isLockedOut now key s then Some (- (- lockoutRemainingMs now key s / 1000)) else None.

Section bound.
Context (key : string) (Hmax : 1 <= MAX_ATTEMPTS) (HW : 0 < WINDOW_MS) (HL : WINDOW_MS <= LOCKOUT_MS).
#[local] Notation fixed := (Windows.fixed WINDOW_MS MAX_ATTEMPTS).

(** The entry of the key, and the failures [acc] that were let through: it
    counts them, or has been locked since the last of them. *)
Definition tracked (now : Z) (acc : list Z) (s : locks) : Prop :=
  Forall (λ a, a <= now) acc ∧
  match map_get s key with
  | None => acc = []
  | Some e => windowStart e <= now ∧
      ((attempts e < MAX_ATTEMPTS ∧ fixed (windowStart e) (attempts e) acc) ∨
       (MAX_ATTEMPTS <= attempts e ∧
        ∃ f g n, lockedUntil e = f + LOCKOUT_MS ∧ fixed g n acc ∧ g <= f ∧ Forall (λ a, a <= f) acc))
  end.

Lemma tracked_later now now' acc s : now <= now' → tracked now acc s → tracked now' acc s.
Proof.
  intros Hn [Hp Ht]. split; [eapply Forall_impl; [exact Hp|]; cbn; lia|].
  destruct (map_get s key) as [e|]; [|done]. destruct Ht as [Hs Ht]. split; [lia|done].
Qed.

Lemma recordFailure_entry now k s : map_get (recordFailure now k s) key =
  if decide (k = key) then
    let e := entry_of now key s in
    let e := if WINDOW_MS <? now - windowStart e then mk_entry 0 now 0 else e in
    let n := attempts e + 1 in
    Some (mk_entry n (windowStart e) (if MAX_ATTEMPTS <=? n then now + LOCKOUT_MS else lockedUntil e))
  else map_get s key.
Proof. unfold recordFailure. rewrite map_get_set. by case_decide; subst. Qed.

(** A counted failure, in the window that began at [g]. *)
Lemma tracked_count g n lk acc r s :
  fixed g n acc → g <= r <= g + WINDOW_MS → n < MAX_ATTEMPTS → Forall (λ a, a <= r) acc →
  map_get s key = Some (mk_entry (n + 1) g (if MAX_ATTEMPTS <=? n + 1 then r + LOCKOUT_MS else lk)) →
  tracked r (acc ++ [r]) s.
Proof.
  intros Hf Hr Hn Hacc Hg. assert (Hacc' : Forall (λ a, a <= r) (acc ++ [r])).
  { apply Forall_app. split; [done|]. by apply Forall_singleton. }
  split; [done|]. rewrite Hg. cbn [windowStart attempts lockedUntil]. split; [lia|].
  pose proof (Windows.fixed_accept _ _ _ _ _ r Hf ltac:(lia) Hn) as Hf'.
  destruct (Z.leb_spec MAX_ATTEMPTS (n + 1)); [|by left].
  right. split; [done|]. exists r, g, (n + 1). split_and!; try done; lia.
Qed.

Lemma failure_tracked c r acc s :
  c <= r → isLockedOut c key s = false → tracked c acc s → tracked r (acc ++ [r]) (recordFailure r key s).
Proof.
  intros Hcr Hlock Ht. apply (tracked_later _ _ _ _ Hcr) in Ht as [Hp Ht]. unfold isLockedOut in Hlock.
  pose proof (recordFailure_entry r key s) as He. rewrite decide_True in He by done.
  unfold entry_of in He. destruct (map_get s key) as [e|]; cbn [from_option id] in He.
  - apply Z.ltb_ge in Hlock. destruct Ht as [Hs Ht].
    destruct (Z.ltb_spec WINDOW_MS (r - windowStart e)) as [Hlt|Hge]; cbn [attempts windowStart lockedUntil] in He.
    + apply (tracked_count r 0 0); [|lia|lia|done|exact He]. destruct Ht as [[Hn Hf]|(Hn & f & g & n & Hf & Hfx & Hgf & Hl)].
      * apply (Windows.fixed_next _ _ _ _ _ _ Hf); [lia|].
        destruct (Windows.fixed_past _ _ _ _ _ Hf) as [Hq|]; [|lia]. eapply Forall_impl; [exact Hq|]. cbn. lia.
      * apply (Windows.fixed_next _ _ _ _ _ _ Hfx); [lia|]. eapply Forall_impl; [exact Hl|]. cbn. lia.
    + destruct Ht as [[Hn Hf]|(Hn & f & g & n & Hf & Hfx & Hgf & Hl)].
      * by apply (tracked_count (windowStart e) (attempts e) (lockedUntil e)); [|lia| | |].
      * assert (Hacc : Forall (λ a, a < r) acc) by (eapply Forall_impl; [exact Hl|]; cbn; lia).
        pose proof (Windows.fixed_next _ _ _ _ _ r Hfx ltac:(lia) Hacc) as Hf0.
        pose proof (Windows.fixed_accept _ _ _ _ _ r Hf0 ltac:(lia) ltac:(lia)) as Hf1.
        assert (Hall : Forall (λ a, a <= r) (acc ++ [r])).
        { apply Forall_app. split; [eapply Forall_impl; [exact Hacc|]; cbn; lia|]. by apply Forall_singleton. }
        split; [done|]. rewrite He. cbn [windowStart attempts lockedUntil]. split; [lia|]. right. split; [lia|].
        destruct (Z.leb_spec MAX_ATTEMPTS (attempts e + 1)); [|lia]. by exists r, r, (0 + 1).
  - subst acc. cbn [windowStart] in He. rewrite Z.sub_diag in He.
    destruct (Z.ltb_spec WINDOW_MS 0); [lia|]. cbn [attempts lockedUntil windowStart] in He.
    apply (tracked_count r 0 0); [apply Windows.fixed_nil|lia|lia|done|exact He].
Qed.

(** The other operations. *)
Lemma other_tracked now acc s s' :
  map_get s' key = map_get s key → tracked now acc s → tracked now acc s'.
Proof. intros He [Hp Ht]. split; [done|]. by rewrite He. Qed.

Lemma tracked_bound now acc s t : tracked now acc s → Z.of_nat (Windows.count_in WINDOW_MS t acc) <= 2 * MAX_ATTEMPTS.
Proof.
  intros [_ Ht]. destruct (map_get s key) as [e|]; [|subst; cbn; lia].
  destruct Ht as [_ [[_ Hf]|(_ & f & g & n & _ & Hf & _)]];
    pose proof (Windows.fixed_bound _ _ _ _ _ t Hf); lia.
Qed.
End bound.

(** ** The refresh route ([routes/auth.js])

    The lock, then the limiters, then the rotation of [Tokens]. *)

Section refresh.
Context (sha256 : string → string) (ABSOLUTE_TTL : Z).

Record route_st := mk_route_st { lock_store : locks; token_store : Tokens.st }.

(** A request: its address, the times of its check and of the end of its
    handler, whether the limiters let it pass, the token and the device it
    gives, and the random values of a rotation. *)
Record refresh_req := mk_refresh_req {
  q_ip : option string;
  q_now : Z;
  q_end : Z;
  q_pass : bool;
  q_token : option string;
  q_device : option string;
  q_raw : string;
  q_jti : string;
}.

Inductive refresh_answer :=
| R200 (r : Tokens.rotation)
| R400                                (* MISSING_REFRESH_TOKEN *)
| R401 (code : string)
| R429 (retryAfter : option Z)        (* ACCOUNT_LOCKED, or a limiter *)
| R500.

Definition key_of (ip : option string) : string :=
  match ip with Some i => if is_empty i then "unknown" else i | None => "unknown" end.

Definition refresh (q : refresh_req) (s : route_st) : refresh_answer * route_st :=
  let key := key_of (q_ip q) in
  match middleware (q_now q) key (lock_store s) with
  | Some retryAfter => (R429 (Some retryAfter), s)
  | None =>
      if negb (q_pass q) then (R429 None, s)
      else
        match q_token q with
        | None => (R400, s)
        | Some refreshToken =>
            if is_empty refreshToken then (R400, s)
            else
              let '(result, ts) := Tokens.rotateRefreshToken sha256 ABSOLUTE_TTL (q_now q) refreshToken
                                     (q_raw q) (q_jti q) (q_device q) (token_store s) in
              let failed := mk_route_st (recordFailure (q_end q) key (lock_store s)) ts in
              match result with
              | Tokens.RNone => (R401 "INVALID_REFRESH_TOKEN", failed)
              | Tokens.ROk r => (R200 r, mk_route_st (recordSuccess key (lock_store s)) ts)
              | Tokens.RError code =>
                  if bool_decide (code = "TOKEN_REUSE_DETECTED") || bool_decide (code = "TOKEN_FAMILY_REVOKED")
                  then (R401 "TOKEN_REUSE_DETECTED", failed)
                  else if bool_decide (code = "TOKEN_REVOKED") then (R401 "TOKEN_REVOKED", failed)
                  else (R500, mk_route_st (lock_store s) ts)
              end
        end
  end.

Definition is_401 (r : refresh_answer) : bool := match r with R401 _ => true | _ => false end.
Definition is_200 (r : refresh_answer) : bool := match r with R200 _ => true | _ => false end.

(** The times of the failures of [key], over a sequence of requests. *)
Fixpoint refused (key : string) (l : list refresh_req) (s : route_st) : list Z * route_st :=
  match l with
  | [] => ([], s)
  | q :: l =>
      let '(r, s) := refresh q s in
      let '(ts, s) := refused key l s in
      ((if is_401 r && bool_decide (key_of (q_ip q) = key) then [q_end q] else []) ++ ts, s)
  end.

(** One request after the other, none of [key] a success. *)
Fixpoint guessing (key : string) (now : Z) (l : list refresh_req) (s : route_st) : Prop :=
  match l with
  | [] => True
  | q :: l => now <= q_now q ∧ q_now q <= q_end q ∧
      (key_of (q_ip q) = key → is_200 (refresh q s).1 = false) ∧ guessing key (q_end q) l (refresh q s).2
  end.

(** What a request does to the locks. *)
Lemma refresh_locks q s :
  let key := key_of (q_ip q) in
  let r := (refresh q s).1 in
  isLockedOut (q_now q) key (lock_store s) = true ∧ refresh q s = (R429 (Some (- (- lockoutRemainingMs (q_now q) key (lock_store s) / 1000))), s) ∨
  isLockedOut (q_now q) key (lock_store s) = false ∧
  lock_store (refresh q s).2 =
    (if is_401 r then recordFailure (q_end q) key (lock_store s)
     else if is_200 r then recordSuccess key (lock_store s) else lock_store s).
Proof.
  cbn zeta. unfold refresh, middleware. destruct (isLockedOut _ _ _) eqn:Hl; [by left|]. right. split; [done|].
  destruct (q_pass q); [|done]. cbn [negb]. destruct (q_token q) as [tok|]; [|done]. destruct (is_empty tok); [done|].
  destruct (Tokens.rotateRefreshToken _ _ _ _ _ _ _ _) as [[|r|code] ts]; [done..|]. by repeat case_bool_decide.
Qed.

Lemma refused_tracked key l now acc s :
  1 <= MAX_ATTEMPTS → 0 < WINDOW_MS → WINDOW_MS <= LOCKOUT_MS →
  guessing key now l s → tracked key now acc (lock_store s) →
  ∃ now', tracked key now' (acc ++ (refused key l s).1) (lock_store (refused key l s).2).
Proof.
  intros Hmax HW HL. revert now acc s. induction l as [|q l IH]; intros now acc s Hl Ht; cbn [refused].
  { exists now. by rewrite app_nil_r. }
  destruct Hl as (H1 & H2 & H3 & Hl). apply (tracked_later _ _ _ _ _ H1) in Ht.
  assert (Hstep : tracked key (q_end q)
    (acc ++ (if is_401 (refresh q s).1 && bool_decide (key_of (q_ip q) = key) then [q_end q] else []))
    (lock_store (refresh q s).2)).
  { pose proof (refresh_locks q s) as [[Hlock ->]|[Hlock ->]]; cbn [fst snd is_401 andb].
    - rewrite app_nil_r. by apply (tracked_later _ (q_now q)).
    - destruct (decide (key_of (q_ip q) = key)) as [Hk|Hk]; [rewrite bool_decide_true by done|rewrite bool_decide_false by done].
      + rewrite (H3 Hk), andb_true_r, Hk in *. destruct (is_401 _).
        * by apply (failure_tracked key Hmax HW HL (q_now q)).
        * rewrite app_nil_r. by apply (tracked_later _ (q_now q)).
      + rewrite andb_false_r, app_nil_r. apply (tracked_later _ (q_now q)); [done|].
        apply (other_tracked _ _ _ (lock_store s)); [|done].
        destruct (is_401 _); [rewrite recordFailure_entry; by rewrite decide_False|].
        destruct (is_200 _); [|done]. unfold recordSuccess. rewrite map_get_del. by rewrite decide_False. }
  destruct (refresh q s) as [r s1]. cbn [fst snd] in *. destruct (IH _ _ _ Hl Hstep) as [now' Hn].
  exists now'. destruct (refused key l s1) as [ts s2]. cbn [fst snd] in *. by rewrite (assoc_L (++)).
Qed.

Definition with_token (tok : option string) (q : refresh_req) : refresh_req :=
  mk_refresh_req (q_ip q) (q_now q) (q_end q) (q_pass q) tok (q_device q) (q_raw q) (q_jti q).

(** A token that is not stored: counted as a failure, or refused with an
    answer that is the same for every token. *)
Lemma wrong_guess q s tok : q_token q = Some tok → is_empty tok = false → Tokens.find_token (sha256 tok) (token_store s) = None →
  (refresh q s).1 = R401 "INVALID_REFRESH_TOKEN" ∨
  ∃ retryAfter, ∀ tok', refresh (with_token tok' q) s = (R429 retryAfter, s).
Proof.
  intros Ht He Hf. unfold refresh, with_token. cbn [q_ip q_now q_end q_pass q_token q_device q_raw q_jti].
  destruct (middleware _ _ _) as [ra|]; [by right; eexists|]. destruct (q_pass q); [|by right; eexists]. left. cbn [negb].
  rewrite Ht, He. unfold Tokens.rotateRefreshToken. cbn [Tokens.rotate_run]. cbn [Tokens.rotate_step]. by rewrite Hf.
Qed.

(** C19: Guessing refresh tokens is slowed down.  If the requests come one after the other, the lock-out is at
    least as long as the window and an address has no success, then in any interval of the length of
    the window at most twice MAX_ATTEMPTS of its requests are answered 401, whatever other addresses
    do.  And a request with a token that is not stored is one of these, or it is refused with an answer
    that is the same for every token. *)
Theorem refresh_guesses_bounded key l now ts :
  1 <= MAX_ATTEMPTS → 0 < WINDOW_MS → WINDOW_MS <= LOCKOUT_MS → guessing key now l (mk_route_st [] ts) →
  (∀ t, Z.of_nat (Windows.count_in WINDOW_MS t (refused key l (mk_route_st [] ts)).1) <= 2 * MAX_ATTEMPTS) ∧
  ∀ q s tok, q_token q = Some tok → is_empty tok = false → Tokens.find_token (sha256 tok) (token_store s) = None →
    (refresh q s).1 = R401 "INVALID_REFRESH_TOKEN" ∨ ∃ retryAfter, ∀ tok', refresh (with_token tok' q) s = (R429 retryAfter, s).
Proof.
  intros Hm Hw Hl Hg. split; [|apply wrong_guess]. intros t.
  destruct (refused_tracked key l now [] _ Hm Hw Hl Hg) as [now' Ht]; [by split|].
  by apply (tracked_bound key Hm now' _ _ t) in Ht.
Qed.

(** The lock itself.  The failure that reaches MAX_ATTEMPTS locks the address: until LOCKOUT_MS
    after it every refresh is answered 429 with the time that is left and leaves locks and tokens
    as they are; from then on the next one reaches the tokens again. *)
Theorem lockout_spec q s e :
  let key := key_of (q_ip q) in
  map_get (lock_store s) key = Some e → q_end q - windowStart e <= WINDOW_MS → MAX_ATTEMPTS <= attempts e + 1 →
  is_401 (refresh q s).1 = true →
  let s' := (refresh q s).2 in
  ∀ q', key_of (q_ip q') = key →
    (q_now q' < q_end q + LOCKOUT_MS →
      ∃ secs, refresh q' s' = (R429 (Some secs), s') ∧ q_end q + LOCKOUT_MS <= q_now q' + secs * 1000) ∧
    (q_end q + LOCKOUT_MS <= q_now q' → ∀ secs, (refresh q' s').1 ≠ R429 (Some secs)).
Proof.
  intros key Hg Hwin Hmax H401 s' q' Hk.
  assert (Hl : map_get (lock_store s') key = Some (mk_entry (attempts e + 1) (windowStart e) (q_end q + LOCKOUT_MS))).
  { unfold s'. destruct (refresh_locks q s) as [[_ Hr]|[_ Hr]]; rewrite Hr in *; [done|]. rewrite H401.
    fold key. rewrite recordFailure_entry, decide_True by done. unfold entry_of. rewrite Hg. cbn [from_option id].
    destruct (Z.ltb_spec WINDOW_MS (q_end q - windowStart e)); [lia|].
    destruct (Z.leb_spec MAX_ATTEMPTS (attempts e + 1)); [done|lia]. }
  destruct (refresh_locks q' s') as [[Hlock Hr]|[Hlock Hr]]; rewrite Hk in *;
    unfold isLockedOut in Hlock; rewrite Hl in Hlock; cbn [lockedUntil] in Hlock; zbool.
  - split; [|lia]. intros _. rewrite Hr. eexists. split; [done|].
    unfold lockoutRemainingMs. rewrite Hl. cbn [lockedUntil]. destruct (Z.ltb_spec 0 (q_end q + LOCKOUT_MS - q_now q')); [|lia].
    pose proof (Z.div_mod (- (q_end q + LOCKOUT_MS - q_now q')) 1000). pose proof (Z.mod_pos_bound (- (q_end q + LOCKOUT_MS - q_now q')) 1000). lia.
  - split; [lia|]. intros _ secs. unfold refresh, middleware. rewrite Hk.
    unfold isLockedOut. rewrite Hl. cbn [lockedUntil]. destruct (Z.ltb_spec (q_now q') (q_end q + LOCKOUT_MS)); [lia|].
    destruct (q_pass q'); [|done]. cbn [negb]. destruct (q_token q') as [tok|]; [|done]. destruct (is_empty tok); [done|].
    destruct (Tokens.rotateRefreshToken _ _ _ _ _ _ _ _) as [[|r|code] ts]; [done..|]. by repeat case_bool_decide.
Qed.

End refresh.
End brute_force.

(** ** What the bounds leave out *)

Definition ex_route : route_st :=
  mk_route_st []
    (Tokens.issueTokenPair Tokens.ex_sha (30 * 86400000) 1000 "t1" "j1" "fam" 7 [] None (Tokens.mk_st [] 1 [])).2.
Definition ex_req (t : Z) (tok : string) : refresh_req :=
  mk_refresh_req (Some "1.2.3.4") t t true (Some tok) None ("n" +:+ tok) ("j" +:+ tok).
Definition ex_refresh : refresh_req → route_st → refresh_answer * route_st :=
  refresh 5 900000 900000 Tokens.ex_sha (30 * 86400000).
Definition ex_run (l : list refresh_req) (s : route_st) : route_st := foldl (λ s q, (ex_refresh q s).2) s l.

(** A success forgets the failures: with a token of their own, a client may
    guess on. *)
Example success_resets :
  let s := ex_run (ex_req 2000 <$> ["a"; "b"; "c"; "d"; "t1"; "e"; "f"; "g"; "h"]) ex_route in
  is_401 (ex_refresh (ex_req 2000 "i") s).1 = true.
Proof. vm_compute. reflexivity. Qed.

(** The end of a session is answered as an internal error. *)
Example absolute_expiry_500 :
  (ex_refresh (ex_req (1000 + 30 * 86400000) "t1") ex_route).1 = R500.
Proof. vm_compute. reflexivity. Qed.

(** ** Witnesses *)

Lemma refresh_guesses_bounded_witness :
  let l := ex_req 2000 <$> ["a"; "b"; "c"; "d"; "e"; "f"; "g"] in
  Z.of_nat (Windows.count_in 900000 2000 (refused 5 900000 900000 Tokens.ex_sha (30 * 86400000) "1.2.3.4" l ex_route).1) <= 10 ∧
  (refused 5 900000 900000 Tokens.ex_sha (30 * 86400000) "1.2.3.4" l ex_route).1 = [2000; 2000; 2000; 2000; 2000].
Proof.
  intros l. split; [|vm_compute; reflexivity].
  apply (refresh_guesses_bounded 5 900000 900000 Tokens.ex_sha (30 * 86400000) "1.2.3.4" l 0 (token_store ex_route)); try lia.
  vm_compute. repeat split; discriminate.
Defined.

Lemma lockout_spec_witness :
  let s := ex_run (ex_req 2000 <$> ["a"; "b"; "c"; "d"]) ex_route in
  ∃ secs, ex_refresh (ex_req 3000 "t1") (ex_refresh (ex_req 2000 "e") s).2 =
    (R429 (Some secs), (ex_refresh (ex_req 2000 "e") s).2).
Proof.
  intros s.
  destruct (lockout_spec 5 900000 900000 Tokens.ex_sha (30 * 86400000) (ex_req 2000 "e") s (mk_entry 4 2000 0))
    with (q' := ex_req 3000 "t1") as [H _]; [vm_compute; reflexivity|cbn; lia|cbn; lia|vm_compute; reflexivity|reflexivity|].
  destruct H as (secs & H & _); [cbn; lia|]. exists secs. exact H.
Defined.

End BruteForce.
