(* ===== verification/Abuse.v ===== *)
(** * Abuse detection

    The blocked addresses of [src/src/services/AbuseDetectionService.js] with
    the middleware that counts ([src/src/middleware/suspiciousPatternDetection.js])
    and the one that refuses ([src/src/middleware/blockCheck.js]); the flags of
    [src/src/utils/abuseDetector.js]; the heuristics of
    [src/src/utils/suspiciousPatternDetector.js], whose alerts are answers
    here.  The environment is production: in tests the services do nothing. *)

From S2P Require Import Prelude JsString JsMap JsDate.
Local Open Scope Z_scope.

Module Abuse.

(** ** AbuseDetectionService.js *)

Record block := mk_block { b_id : string; b_ip : string; b_reason : string; blockedAt : Z; expiresAt : Z }.
#[export] Instance block_eq_dec : EqDecision block.
Proof. solve_decision. Defined.

(** The counts, the blocks in memory, and the file they are saved to. *)
Record st := mk_st { suspiciousCounts : list (string * (Z * Z)); blockedIps : list block; file : list block }.
Definition init : st := mk_st [] [] [].

Section service.
Context (suspiciousThreshold windowMs blockDurationMs : Z).

Definition active (now : Z) (l : list block) : list block := filter (λ b, now < expiresAt b) l.

(** A failed write leaves file and memory. *)
Definition saveBlocked (now : Z) (written : bool) (s : st) : st :=
  let activeBlocks := active now (blockedIps s) in
  if written then mk_st (suspiciousCounts s) activeBlocks activeBlocks else s.

Definition is_block_of (now : Z) (ip : string) (b : block) : bool :=
  bool_decide (b_ip b = ip) && (now <? expiresAt b).

Definition autoBlock (now : Z) (uuid : string) (written : bool) (ip reason : string) (s : st) : bool * st :=
  match find_first (is_block_of now ip) (blockedIps s) with
  | Some _ => (true, s)
  | None =>
      let b := mk_block uuid ip reason now (now + blockDurationMs) in
      let s := saveBlocked now written (mk_st (suspiciousCounts s) (blockedIps s ++ [b]) (file s)) in
      (true, mk_st (map_del (suspiciousCounts s) ip) (blockedIps s) (file s))
  end.

Definition trackSuspicious (now : Z) (uuid : string) (written : bool) (ip : string) (s : st) : bool * st :=
  if is_empty ip then (false, s)
  else
    let data := match map_get (suspiciousCounts s) ip with
                | Some (n, ws) => if windowMs <? now - ws then (0, now) else (n, ws)
                | None => (0, now)
                end in
    let n := data.1 + 1 in
    let s := mk_st (map_set (suspiciousCounts s) ip (n, data.2)) (blockedIps s) (file s) in
    if suspiciousThreshold <=? n then autoBlock now uuid written ip "suspicious_threshold_exceeded" s
    else (false, s).

Definition isBlocked (now : Z) (ip : string) (s : st) : bool :=
  if is_empty ip then false else existsb (is_block_of now ip) (blockedIps s).

Definition getBlocked (now : Z) (s : st) : list block :=
  js_sort (λ a b, blockedAt b - blockedAt a) (active now (blockedIps s)).

Definition unblock (now : Z) (written : bool) (ip : string) (s : st) : bool * st :=
  let kept := filter (λ b, b_ip b ≠ ip) (blockedIps s) in
  let s' := mk_st (suspiciousCounts s) kept (file s) in
  if bool_decide (length kept < length (blockedIps s))%nat then (true, saveBlocked now written s') else (false, s').

Definition cleanup (now : Z) (written : bool) (s : st) : st :=
  let kept := active now (blockedIps s) in
  let s' := mk_st (suspiciousCounts s) kept (file s) in
  let s' := if bool_decide (length kept < length (blockedIps s))%nat then saveBlocked now written s' else s' in
  mk_st (filter (λ e, ¬ windowMs * 2 < now - e.2.2) (suspiciousCounts s')) (blockedIps s') (file s').

(** The process starts again: [loadBlocked]. *)
Definition restart (s : st) : st := mk_st [] (file s) (file s).

(** ** The middlewares *)

(** What [res.json] sees of a request and its response. *)
Record reply := mk_reply { success : bool; statusCode : Z; method : string; path : string; has_amount : bool }.

(** The calls of [trackSuspicious]: not one depends on a detector. *)
Definition suspicious_events (r : reply) : nat :=
  let donation := success r && bool_decide (method r = "POST") &&
                  (str_includes "/donations" (path r) || str_includes "/send" (path r)) in
  ((if donation then (if has_amount r then 2 else 1) else 0) +
   (if negb (success r) || (400 <=? statusCode r)%Z then 1 else 0))%nat.

Fixpoint track_times (n : nat) (now : Z) (uuid : string) (written : bool) (ip : string) (s : st) : st :=
  match n with
  | O => s
  | S n => track_times n now uuid written ip (trackSuspicious now uuid written ip s).2
  end.

(** [true] lets the request pass. *)
Definition blockCheck (now : Z) (ip : option string) (s : st) : bool :=
  negb (isBlocked now (match ip with Some i => if is_empty i then "unknown" else i | None => "unknown" end) s).

(** A request: refused, or answered with [r]. *)
Definition serve (now : Z) (uuid : string) (written : bool) (ip : string) (r : reply) (s : st) : bool * st :=
  if blockCheck now (Some ip) s then (true, track_times (suspicious_events r) now uuid written ip s) else (false, s).

(** ** Events *)

Inductive event :=
| Suspicious (now : Z) (uuid ip : string)
| Unblock (now : Z) (ip : string)
| Cleanup (now : Z)
| Restart (now : Z).
Definition time_of (e : event) : Z :=
  match e with Suspicious now _ _ | Unblock now _ | Cleanup now | Restart now => now end.
(** Every write succeeds. *)
Definition run_event (e : event) (s : st) : st :=
  match e with
  | Suspicious now uuid ip => (trackSuspicious now uuid true ip s).2
  | Unblock now ip => (unblock now true ip s).2
  | Cleanup now => cleanup now true s
  | Restart _ => restart s
  end.
Fixpoint in_order (now : Z) (l : list event) : Prop :=
  match l with [] => True | e :: l => now <= time_of e ∧ in_order (time_of e) l end.

(** ** A block lasts *)

Lemma isBlocked_spec now ip s : ip ≠ "" →
  isBlocked now ip s = true ↔ ∃ b, b ∈ blockedIps s ∧ b_ip b = ip ∧ now < expiresAt b.
Proof.
  intros Hip. unfold isBlocked. destruct ip; [done|]. cbn [is_empty]. rewrite existsb_exists. split.
  - intros (b & Hb & He). apply list_elem_of_In in Hb. unfold is_block_of in He. apply andb_prop in He as [H1 H2].
    apply bool_decide_eq_true in H1. apply Z.ltb_lt in H2. by exists b.
  - intros (b & Hb & H1 & H2). exists b. split; [by apply list_elem_of_In|]. unfold is_block_of.
    rewrite bool_decide_true by done. by apply Z.ltb_lt.
Qed.

Lemma elem_active now l b : b ∈ active now l ↔ b ∈ l ∧ now < expiresAt b.
Proof. unfold active. rewrite list_elem_of_filter. tauto. Qed.

(** Memory and file have the block. *)
Definition kept (b : block) (s : st) : Prop := b ∈ blockedIps s ∧ b ∈ file s.

Lemma autoBlock_kept b now uuid ip reason s :
  now < expiresAt b → kept b s → kept b (autoBlock now uuid true ip reason s).2.
Proof.
  intros Hnow [H1 H2]. unfold autoBlock. destruct (find_first _ _); [done|]. cbn.
  split; apply elem_active; (split; [|done]); apply elem_of_app; by left.
Qed.

Lemma run_event_kept b e s :
  time_of e < expiresAt b → (∀ now, e ≠ Unblock now (b_ip b)) → kept b s → kept b (run_event e s).
Proof.
  intros Ht Hu [H1 H2]. destruct e as [now uuid ip|now ip|now|now]; cbn in *.
  - unfold trackSuspicious. destruct (is_empty ip); [done|]. destruct (suspiciousThreshold <=? _); [|done].
    by apply autoBlock_kept.
  - unfold unblock. assert (Hin : b ∈ filter (λ b0, b_ip b0 ≠ ip) (blockedIps s)).
    { apply list_elem_of_filter. split; [|done]. intros Hip. apply (Hu now). by rewrite Hip. }
    case_bool_decide; cbn; [|done]. split; by apply elem_active.
  - unfold cleanup. assert (Hin : b ∈ active now (blockedIps s)) by by apply elem_active.
    case_bool_decide; cbn; [|done]. split; by apply elem_active.
  - done.
Qed.

(** A block lasts.  Until its end an address that is blocked, in memory and in the file, stays
    blocked whatever happens meanwhile: more events, clean-ups, blocks of others and restarts of
    the process; only an administrator's [unblock] of that address ends it. *)
Theorem block_lasts b l s now :
  kept b s → b_ip b ≠ "" → Forall (λ e, ∀ t, e ≠ Unblock t (b_ip b)) l →
  Forall (λ e, time_of e <= now) l → now < expiresAt b →
  isBlocked now (b_ip b) (foldl (λ s e, run_event e s) s l) = true ∧
  blockCheck now (Some (b_ip b)) (foldl (λ s e, run_event e s) s l) = false.
Proof.
  intros Hk Hip Hu Ht Hnow.
  assert (Hk' : kept b (foldl (λ s e, run_event e s) s l)).
  { revert s Hk Hu Ht. induction l as [|e l IH]; intros s Hk Hu Ht; [done|]. cbn [foldl].
    apply Forall_cons in Hu as [Hue Hu]. apply Forall_cons in Ht as [Hte Ht].
    apply IH; [|done..]. apply run_event_kept; [lia|done|done]. }
  assert (Hb : isBlocked now (b_ip b) (foldl (λ s e, run_event e s) s l) = true).
  { apply isBlocked_spec; [done|]. exists b. split; [apply Hk'|done]. }
  split; [done|]. unfold blockCheck. destruct (b_ip b) eqn:Hi; [done|]. cbn [is_empty]. by rewrite Hb.
Qed.

(** ** A block has its reason *)

(** The suspicious events of an address in the window that begins at [t]. *)
Definition event_in (ip : string) (t : Z) (e : event) : bool :=
  match e with Suspicious now _ i => bool_decide (i = ip) && (t <=? now) && (now <=? t + windowMs) | _ => false end.
Definition events_in (ip : string) (t : Z) (l : list event) : Z := Z.of_nat (length (filter (λ e, event_in ip t e = true) l)).

Lemma events_in_app ip t l l' : events_in ip t (l ++ l') = events_in ip t l + events_in ip t l'.
Proof. unfold events_in. rewrite filter_app, length_app. lia. Qed.
Lemma events_in_nonneg ip t l : 0 <= events_in ip t l.
Proof. unfold events_in. lia. Qed.

Definition reason_of (l : list event) (b : block) : Prop := ∃ t, suspiciousThreshold <= events_in (b_ip b) t l.
(** Every count counts events, every block had enough of them. *)
Record justified (now : Z) (l : list event) (s : st) : Prop := {
  j_counts : ∀ ip n ws, (ip, (n, ws)) ∈ suspiciousCounts s → ws <= now ∧ n <= events_in ip ws l;
  j_blocks : Forall (reason_of l) (blockedIps s);
  j_file : Forall (reason_of l) (file s);
}.

Lemma Forall_active now P l : Forall P l → Forall P (active now l).
Proof. intros Hl. apply Forall_forall. intros b [Hb _]%elem_active. by apply (Forall_forall P l) with b in Hl. Qed.

Lemma reason_more l e b : reason_of l b → reason_of (l ++ [e]) b.
Proof. intros [t Ht]. exists t. rewrite events_in_app. pose proof (events_in_nonneg (b_ip b) t [e]). lia. Qed.

Lemma justified_event now l e s : 0 <= windowMs → now <= time_of e → justified now l s → justified (time_of e) (l ++ [e]) (run_event e s).
Proof.
  intros Hw Hn [Hc Hb Hf].
  assert (Hc' : ∀ ip n ws, (ip, (n, ws)) ∈ suspiciousCounts s → ws <= time_of e ∧ n <= events_in ip ws (l ++ [e])).
  { intros ip n ws Hg. destruct (Hc _ _ _ Hg). rewrite events_in_app. pose proof (events_in_nonneg ip ws [e]). lia. }
  assert (Hb' : Forall (reason_of (l ++ [e])) (blockedIps s)) by (eapply Forall_impl; [exact Hb|apply reason_more]).
  assert (Hf' : Forall (reason_of (l ++ [e])) (file s)) by (eapply Forall_impl; [exact Hf|apply reason_more]).
  destruct e as [t uuid ip|t ip|t|t]; cbn [time_of run_event] in *.
  - unfold trackSuspicious. destruct (is_empty ip) eqn:Hip; [by split|].
    set (data := match map_get _ _ with Some _ => _ | None => _ end).
    assert (Hd : data.2 <= t ∧ data.1 + 1 <= events_in ip data.2 (l ++ [Suspicious t uuid ip])).
    { rewrite events_in_app. assert (H1 : events_in ip t [Suspicious t uuid ip] = 1).
      { unfold events_in. cbn. rewrite bool_decide_true by done. cbn.
        destruct (Z.leb_spec t t); [|lia]. destruct (Z.leb_spec t (t + windowMs)); [done|lia]. }
      subst data. destruct (map_get (suspiciousCounts s) ip) as [[n ws]|] eqn:Hg.
      - destruct (Hc _ _ _ (map_get_Some_elem _ _ _ Hg)) as [H2 H3]. destruct (Z.ltb_spec windowMs (t - ws)); cbn [fst snd].
        + rewrite H1. pose proof (events_in_nonneg ip t l). lia.
        + assert (H4 : events_in ip ws [Suspicious t uuid ip] = 1).
          { unfold events_in. cbn. rewrite bool_decide_true by done. cbn.
            destruct (Z.leb_spec ws t); [|lia]. destruct (Z.leb_spec t (ws + windowMs)); [done|lia]. }
          lia.
      - cbn [fst snd]. rewrite H1. pose proof (events_in_nonneg ip t l). lia. }
    assert (Hcs : ∀ i n ws, (i, (n, ws)) ∈ map_set (suspiciousCounts s) ip (data.1 + 1, data.2) →
      ws <= t ∧ n <= events_in i ws (l ++ [Suspicious t uuid ip])).
    { intros i n ws [[-> [= -> ->]]|Hin]%map_set_elem; [done|by apply Hc']. }
    destruct (Z.leb_spec suspiciousThreshold (data.1 + 1)); [|by split].
    unfold autoBlock. cbn [suspiciousCounts blockedIps file]. destruct (find_first _ _); [by split|].
    assert (Hnew : Forall (reason_of (l ++ [Suspicious t uuid ip]))
      (blockedIps s ++ [mk_block uuid ip "suspicious_threshold_exceeded" t (t + blockDurationMs)])).
    { apply Forall_app. split; [done|]. apply Forall_singleton. exists data.2. cbn [b_ip]. lia. }
    split; cbn [saveBlocked suspiciousCounts blockedIps file snd]; [|by apply Forall_active..].
    intros i n ws [_ Hin]%map_del_elem. by apply Hcs.
  - unfold unblock. assert (Hk : Forall (reason_of (l ++ [Unblock t ip])) (filter (λ b, b_ip b ≠ ip) (blockedIps s))).
    { apply Forall_forall. intros b [_ Hin]%list_elem_of_filter. by apply (Forall_forall _ _) with b in Hb'. }
    case_bool_decide; split; cbn; try done; by apply Forall_active.
  - assert (Hk := Forall_active t _ _ Hb'). unfold cleanup.
    assert (Hcf : ∀ i n ws, (i, (n, ws)) ∈ filter (λ e : string * (Z * Z), ¬ windowMs * 2 < t - e.2.2) (suspiciousCounts s) →
      ws <= t ∧ n <= events_in i ws (l ++ [Cleanup t])).
    { intros i n ws [_ Hin]%list_elem_of_filter. by apply Hc'. }
    case_bool_decide; split; cbn; try done; by apply Forall_active.
  - split; cbn; [|done..]. by intros ip n ws ?%elem_of_nil.
Qed.

Lemma run_justified l : ∀ now l0 s, 0 <= windowMs → in_order now l → justified now l0 s →
  ∃ now', justified now' (l0 ++ l) (foldl (λ s e, run_event e s) s l).
Proof.
  induction l as [|e l IH]; intros now l0 s Hw Ho Hj; [exists now; by rewrite app_nil_r|]. cbn [foldl].
  destruct Ho as [Hn Ho]. destruct (IH (time_of e) (l0 ++ [e]) _ Hw Ho (justified_event _ _ _ _ Hw Hn Hj)) as [now' Hj'].
  exists now'. by rewrite <- (assoc_L (++)) in Hj'.
Qed.

(** No block without a reason: when an address is blocked, at least the threshold of suspicious
    events was tracked for it within one window, also after restarts and clean-ups. *)
Theorem block_has_reason l now ip :
  0 <= windowMs → in_order 0 l →
  isBlocked now ip (foldl (λ s e, run_event e s) init l) = true →
  ∃ t, suspiciousThreshold <= events_in ip t l.
Proof.
  intros Hw Ho Hb. destruct (run_justified l 0 [] init Hw Ho) as [now' [_ Hbl _]].
  { split; cbn; [by intros ? ? ? ?%elem_of_nil|done..]. }
  destruct (decide (ip = "")) as [->|Hip]; [done|]. apply isBlocked_spec in Hb as (b & Hin & <- & _); [|done].
  by apply (Forall_forall _ _) with b in Hbl.
Qed.

(** ** Successful donors are blocked *)

(** Since [t0] the address has no older block, and is blocked until
    [t0 + blockDurationMs] at least, or has [n] events counted. *)
Definition counting (ip : string) (t0 n : Z) (s : st) : Prop :=
  Forall (λ b, b_ip b = ip → t0 + blockDurationMs <= expiresAt b) (blockedIps s) ∧
  (Exists (λ b, b_ip b = ip) (blockedIps s) ∨
   match map_get (suspiciousCounts s) ip with
   | None => n <= 0
   | Some (m, ws) => n <= m ∧ m < suspiciousThreshold ∧ t0 <= ws
   end).

Lemma track_counting ip t0 n now uuid s :
  ip ≠ "" → 1 <= suspiciousThreshold → 0 <= n → t0 <= now <= t0 + windowMs → now < t0 + blockDurationMs →
  counting ip t0 n s → counting ip t0 (n + 1) (trackSuspicious now uuid true ip s).2.
Proof.
  intros Hip Hthr Hn0 Hnow Hd [Hall Hor]. unfold trackSuspicious.
  destruct (is_empty ip) eqn:He; [by destruct ip|].
  set (data := match map_get _ _ with Some _ => _ | None => _ end).
  assert (Hdata : Exists (λ b, b_ip b = ip) (blockedIps s) ∨ n + 1 <= data.1 + 1 ∧ t0 <= data.2).
  { destruct Hor as [?|Hor]; [by left|right]. subst data. destruct (map_get (suspiciousCounts s) ip) as [[m ws]|]; [|cbn; lia].
    destruct Hor as (H1 & H2 & H3). destruct (Z.ltb_spec windowMs (now - ws)); [lia|]. cbn. lia. }
  destruct (Z.leb_spec suspiciousThreshold (data.1 + 1)) as [Hle|Hlt]; cbn [snd].
  - unfold autoBlock. cbn [suspiciousCounts blockedIps file].
    destruct (find_first (is_block_of now ip) (blockedIps s)) as [b|] eqn:Hf; cbn [snd].
    + split; [done|]. left. apply find_first_Some in Hf as [Hin Hb]. unfold is_block_of in Hb.
      apply andb_prop in Hb as [Hb _]. apply bool_decide_eq_true in Hb. apply Exists_exists. by exists b.
    + cbn [saveBlocked blockedIps suspiciousCounts file]. set (b := mk_block _ _ _ _ _).
      assert (Hall' : Forall (λ b, b_ip b = ip → t0 + blockDurationMs <= expiresAt b) (blockedIps s ++ [b])).
      { apply Forall_app. split; [done|]. apply Forall_singleton. intros _. cbn. lia. }
      split; [by apply Forall_active|]. left. apply Exists_exists. exists b. split; [|done].
      apply elem_active. split; [apply elem_of_app; right; by apply list_elem_of_singleton|]. cbn. lia.
  - split; [done|]. cbn [suspiciousCounts blockedIps]. rewrite map_get_set_eq.
    destruct Hdata as [?|Hdata]; [by left|right]. destruct Hdata as [H1 H2]. split_and!; [done|lia|done].
Qed.

Lemma track_times_counting ip t0 now uuid k : ∀ n s,
  ip ≠ "" → 1 <= suspiciousThreshold → 0 <= n → t0 <= now <= t0 + windowMs → now < t0 + blockDurationMs →
  counting ip t0 n s → counting ip t0 (n + Z.of_nat k) (track_times k now uuid true ip s).
Proof.
  induction k as [|k IH]; intros n s Hip Ht Hn Hnow Hd Hc; cbn [track_times]; [by rewrite Z.add_0_r|].
  replace (n + Z.of_nat (S k)) with (n + 1 + Z.of_nat k) by lia. apply IH; try done; [lia|].
  by apply track_counting.
Qed.

(** Successful donors are blocked.  The middleware counts every successful donation as two
    suspicious events, one for the velocity and one for the amount, whatever the detectors find:
    when the threshold is reached within the window, all requests of the address are refused
    until the end of the block. *)
Theorem successful_donor_blocked ip uuid r t0 ts now :
  ip ≠ "" → success r = true → method r = "POST" → str_includes "/donations" (path r) = true →
  has_amount r = true → statusCode r < 400 →
  1 <= suspiciousThreshold → suspiciousThreshold <= 2 * Z.of_nat (length ts) →
  Forall (λ t, t0 <= t <= t0 + windowMs ∧ t < t0 + blockDurationMs) ts →
  now < t0 + blockDurationMs →
  blockCheck now (Some ip) (foldl (λ s t, (serve t uuid true ip r s).2) init ts) = false.
Proof.
  intros Hip Hs Hm Hp Ha Hst Hthr Hlen Hts Hnow.
  assert (H2 : suspicious_events r = 2%nat).
  { unfold suspicious_events. rewrite Hs, Hm, Hp, Ha. cbn. destruct (Z.leb_spec 400 (statusCode r)); [lia|done]. }
  assert (Hrun : ∀ ts n s, 0 <= n → Forall (λ t, t0 <= t <= t0 + windowMs ∧ t < t0 + blockDurationMs) ts →
    counting ip t0 n s → counting ip t0 (n + 2 * Z.of_nat (length ts)) (foldl (λ s t, (serve t uuid true ip r s).2) s ts)).
  { clear ts Hlen Hts. induction ts as [|t ts IH]; intros n s Hn Hts Hc; cbn [foldl length]; [by rewrite Z.add_0_r|].
    apply Forall_cons in Hts as [[Ht1 Ht2] Hts].
    replace (n + 2 * Z.of_nat (S (length ts))) with (n + 2 + 2 * Z.of_nat (length ts)) by lia. apply IH; [lia|done|].
    unfold serve. destruct (blockCheck t (Some ip) s) eqn:Hbc; cbn [snd].
    - rewrite H2. by apply (track_times_counting ip t0 t uuid 2 n).
    - split; [apply Hc|]. left. unfold blockCheck in Hbc. destruct ip as [|c i]; [done|]. cbn [is_empty] in Hbc.
      apply negb_false_iff in Hbc. apply isBlocked_spec in Hbc as (b & Hin & Hb & _); [|done]. apply Exists_exists. by exists b. }
  destruct (Hrun ts 0 init ltac:(lia) Hts) as [Hall Hor]; [split; [done|right; cbn; lia]|].
  assert (Hex : Exists (λ b, b_ip b = ip) (blockedIps (foldl (λ s t, (serve t uuid true ip r s).2) init ts))).
  { destruct Hor as [?|Hor]; [done|]. destruct (map_get _ _) as [[m ws]|]; lia. }
  unfold blockCheck. destruct ip as [|c i]; [done|]. cbn [is_empty]. apply negb_false_iff, isBlocked_spec; [done|].
  apply Exists_exists in Hex as (b & Hin & Hb). exists b. split_and!; [done|done|].
  rewrite Forall_forall in Hall. specialize (Hall b Hin Hb). lia.
Qed.
End service.

(** ** abuseDetector.js *)

Module Detector.

Definition burstThreshold : Z := 100.
Definition burstWindow : Z := 60000.
Definition failureThreshold : Z := 20.
Definition failureWindow : Z := 300000.

Definition counts : Type := list (string * (Z * Z)).         (* count, windowStart *)
Record detector := mk_detector { requestCounts : counts; failureCounts : counts; suspiciousIPs : list string }.

(** Count in a window that begins anew when it is over. *)
Definition bump (window now : Z) (ip : string) (m : counts) : Z * counts :=
  let '(n, ws) := default (0, now) (map_get m ip) in
  let '(n, ws) := if window <? now - ws then (0, now) else (n, ws) in
  (n + 1, map_set m ip (n + 1, ws)).

(** The timer that unflags the address an hour later is [unflag]. *)
Definition flagSuspicious (ip : string) (d : detector) : detector :=
  if bool_decide (ip ∈ suspiciousIPs d) then d
  else mk_detector (requestCounts d) (failureCounts d) (suspiciousIPs d ++ [ip]).
Definition unflag (ip : string) (d : detector) : detector :=
  mk_detector (requestCounts d) (failureCounts d) (filter (λ i, i ≠ ip) (suspiciousIPs d)).

Definition trackRequest (now : Z) (ip : string) (d : detector) : detector :=
  if is_empty ip then d
  else
    let '(n, m) := bump burstWindow now ip (requestCounts d) in
    let d := mk_detector m (failureCounts d) (suspiciousIPs d) in
    if burstThreshold <? n then flagSuspicious ip d else d.

Definition trackFailure (now : Z) (ip : string) (d : detector) : detector :=
  if is_empty ip then d
  else
    let '(n, m) := bump failureWindow now ip (failureCounts d) in
    let d := mk_detector (requestCounts d) m (suspiciousIPs d) in
    if failureThreshold <? n then flagSuspicious ip d else d.

Definition isSuspicious (ip : string) (d : detector) : bool := bool_decide (ip ∈ suspiciousIPs d).

Definition cleanup_counts (window now : Z) (m : counts) : counts := filter (λ e, ¬ window * 2 < now - e.2.2) m.
Definition cleanup_detector (now : Z) (d : detector) : detector :=
  mk_detector (cleanup_counts burstWindow now (requestCounts d)) (cleanup_counts failureWindow now (failureCounts d))
    (suspiciousIPs d).

End Detector.

(** ** suspiciousPatternDetector.js *)

Module Patterns.

Definition velocityWindow : Z := 300000.
Definition velocityLimit : nat := 5.
Definition identicalAmountCount : nat := 3.
Definition identicalAmountWindow : Z := 600000.
Definition recipientDiversityLimit : nat := 10.
Definition sequentialFailureLimit : Z := 5.
Definition offHoursStart : Z := 2.
Definition offHoursEnd : Z := 6.
Definition offHoursRequestLimit : nat := 20.

(** The arrays [amounts] and [timestamps] of an address. *)
Record amount_pattern := mk_pattern { amounts : list string; timestamps : list Z }.

Record stores := mk_stores {
  velocityTracking : list (string * (list Z * Z));            (* times of the donations, windowStart *)
  amountPatterns : list (string * amount_pattern);
  recipientPatterns : list (string * list string);
  sequentialFailures : list (string * (Z * Z));               (* count, lastFailure *)
  timePatterns : list (string * list Z);
}.

(** Every detector answers whether it emits an alert. *)
Definition detectHighVelocity (now : Z) (ip : string) (s : stores) : bool * stores :=
  if is_empty ip then (false, s)
  else
    let '(ds, ws) := default ([], now) (map_get (velocityTracking s) ip) in
    let '(ds, ws) := if velocityWindow <? now - ws then ([], now) else (ds, ws) in
    let ds := ds ++ [now] in
    (bool_decide (velocityLimit <= length ds)%nat,
     mk_stores (map_set (velocityTracking s) ip (ds, ws)) (amountPatterns s) (recipientPatterns s)
       (sequentialFailures s) (timePatterns s)).

(** The indices of the time stamps after [cutoff]. *)
Definition validIndices (cutoff : Z) (ts : list Z) : list nat :=
  filter (λ i, cutoff < default cutoff (ts !! i)) (seq 0 (length ts)).

(** An amount is its property name in the table of counts. *)
Definition countOf (a : string) (l : list string) : nat := length (filter (a =.) l).
Definition maxCount (l : list string) : nat := foldr (λ a m, Nat.max (countOf a l) m) O l.

Definition detectIdenticalAmounts (now : Z) (ip amount : string) (s : stores) : bool * stores :=
  if is_empty ip || is_empty amount then (false, s)
  else
    let tracking := default (mk_pattern [] []) (map_get (amountPatterns s) ip) in
    let valid := validIndices (now - identicalAmountWindow) (timestamps tracking) in
    let am := omap (λ i, amounts tracking !! i) valid ++ [amount] in
    let ts := omap (λ i, timestamps tracking !! i) valid ++ [now] in
    (bool_decide (identicalAmountCount <= maxCount am)%nat,
     mk_stores (velocityTracking s) (map_set (amountPatterns s) ip (mk_pattern am ts)) (recipientPatterns s)
       (sequentialFailures s) (timePatterns s)).

Definition detectRecipientDiversity (donor recipient : string) (s : stores) : bool * stores :=
  if is_empty donor || is_empty recipient then (false, s)
  else
    let rs := default [] (map_get (recipientPatterns s) donor) in
    let rs := if bool_decide (recipient ∈ rs) then rs else rs ++ [recipient] in
    (bool_decide (recipientDiversityLimit <= length rs)%nat,
     mk_stores (velocityTracking s) (amountPatterns s) (map_set (recipientPatterns s) donor rs)
       (sequentialFailures s) (timePatterns s)).

Definition detectSequentialFailures (now : Z) (ip : string) (s : stores) : bool * stores :=
  if is_empty ip then (false, s)
  else
    let '(n, last) := default (0, now) (map_get (sequentialFailures s) ip) in
    let n := (if 60000 <? now - last then 0 else n) + 1 in
    (sequentialFailureLimit <=? n,
     mk_stores (velocityTracking s) (amountPatterns s) (recipientPatterns s)
       (map_set (sequentialFailures s) ip (n, now)) (timePatterns s)).

Definition offHours (t : Z) : bool := (offHoursStart <=? getUTCHours t) && (getUTCHours t <? offHoursEnd).
Definition detectOffHoursActivity (now : Z) (ip : string) (s : stores) : bool * stores :=
  if is_empty ip || negb (offHours now) then (false, s)
  else
    let rs := filter (λ t, now - 86400000 < t) (default [] (map_get (timePatterns s) ip)) ++ [now] in
    (bool_decide (offHoursRequestLimit <= length (filter (λ t, offHours t = true) rs))%nat,
     mk_stores (velocityTracking s) (amountPatterns s) (recipientPatterns s) (sequentialFailures s)
       (map_set (timePatterns s) ip rs)).

Definition resetFailures (ip : string) (s : stores) : stores :=
  mk_stores (velocityTracking s) (amountPatterns s) (recipientPatterns s)
    (if is_empty ip then sequentialFailures s else map_del (sequentialFailures s) ip) (timePatterns s).

(** [amounts.slice(-n)], where [slice(-0)] is everything. *)
Definition slice_last {A} (n : nat) (l : list A) : list A :=
  match n with O => l | _ => drop (length l - n) l end.
Definition clean_pattern (now : Z) (p : amount_pattern) : option amount_pattern :=
  match filter (λ t, now - identicalAmountWindow * 2 < t) (timestamps p) with
  | [] => None
  | ts => Some (mk_pattern (slice_last (length ts) (amounts p)) ts)
  end.
Definition clean_times (now : Z) (l : list Z) : option (list Z) :=
  match filter (λ t, now - 86400000 < t) l with [] => None | ts => Some ts end.
Definition cleanup_stores (now : Z) (s : stores) : stores :=
  mk_stores (filter (λ e, ¬ velocityWindow * 2 < now - e.2.2) (velocityTracking s))
    (map_entries (clean_pattern now) (amountPatterns s)) (recipientPatterns s)
    (filter (λ e, ¬ 3600000 < now - e.2.2) (sequentialFailures s)) (map_entries (clean_times now) (timePatterns s)).

(** *** Identical amounts *)

Inductive step := Amount (now : Z) (ip amount : string) | Clean (now : Z).
Definition step_time (x : step) : Z := match x with Amount now _ _ | Clean now => now end.
Definition run_step (x : step) (s : stores) : bool * stores :=
  match x with
  | Amount now ip amount => detectIdenticalAmounts now ip amount s
  | Clean now => (false, cleanup_stores now s)
  end.
Fixpoint steps_in_order (now : Z) (l : list step) : Prop :=
  match l with [] => True | x :: l => now <= step_time x ∧ steps_in_order (step_time x) l end.

(** The amounts of an address with their times. *)
Definition history (ip : string) (l : list step) : list (string * Z) :=
  omap (λ x, match x with Amount t i a => if bool_decide (i = ip) && negb (is_empty i || is_empty a) then Some (a, t) else None | _ => None end) l.

#[local] Notation W := identicalAmountWindow.

Lemma history_app ip l l' : history ip (l ++ l') = history ip l ++ history ip l'.
Proof. unfold history. apply omap_app. Qed.

(** The indices select from both arrays what the time stamps select. *)
Lemma validIndices_cons c t ts : validIndices c (t :: ts) = (if decide (c < t) then [O] else []) ++ (S <$> validIndices c ts).
Proof.
  unfold validIndices. cbn [length seq]. rewrite filter_cons. cbn [lookup list_lookup from_option id].
  rewrite <- fmap_S_seq. assert (Hf : ∀ l : list nat, filter (λ i, c < default c ((t :: ts) !! i)) (S <$> l) =
    S <$> filter (λ i, c < default c (ts !! i)) l).
  { induction l as [|i l IH]; [done|]. rewrite fmap_cons, !filter_cons. change ((t :: ts) !! S i) with (ts !! i). rewrite IH.
    by destruct (decide (c < default c (ts !! i))). }
  rewrite Hf. by case_decide.
Qed.

Lemma omap_fmap_S {A} (l : list A) x (ns : list nat) : omap (λ i, (x :: l) !! i) (S <$> ns) = omap (λ i, l !! i) ns.
Proof. induction ns as [|i ns IH]; [done|]. cbn. by rewrite IH. Qed.

Lemma validIndices_zip c (z : list (string * Z)) :
  omap (λ i, z.*1 !! i) (validIndices c z.*2) = (filter (λ p, c < p.2) z).*1 ∧
  omap (λ i, z.*2 !! i) (validIndices c z.*2) = (filter (λ p, c < p.2) z).*2.
Proof.
  induction z as [|[a t] z [IH1 IH2]]; [done|]. cbn [fmap list_fmap fst snd]. rewrite validIndices_cons, !omap_app.
  change (list_fmap (string * Z)%type string fst z) with z.*1. change (list_fmap (string * Z)%type Z snd z) with z.*2.
  rewrite !omap_fmap_S, IH1, IH2. rewrite filter_cons. cbn [snd]. by destruct (decide (c < t)).
Qed.

(** Filtering a sorted list by time keeps a suffix. *)
Lemma filter_suffix c (z : list (string * Z)) :
  StronglySorted Z.le z.*2 → filter (λ p, c < p.2) z = drop (length z - length (filter (λ p, c < p.2) z)) z.
Proof.
  induction z as [|[a t] z IH]; [done|]. rewrite fmap_cons, filter_cons. cbn [snd length].
  intros [Hs Ht]%StronglySorted_inv.
  destruct (decide (c < t)) as [Hc|Hc].
  - cbn [length]. rewrite filter_all.
    + by rewrite Nat.sub_diag.
    + apply Forall_forall. intros p Hp. rewrite Forall_forall in Ht. specialize (Ht p.2).
      assert (t <= p.2); [|lia]. apply Ht. apply list_elem_of_fmap. by exists p.
  - pose proof (length_filter (λ p : string * Z, c < p.2) z).
    rewrite Nat.sub_succ_l by done. cbn [drop]. by apply IH.
Qed.

(** What the arrays of an address hold: all of its history after some time,
    which is not in the window any more. *)
Record traced (now : Z) (l : list step) (s : stores) : Prop := {
  t_keys : NoDup (amountPatterns s).*1;
  t_arrays : ∀ ip, let p := default (mk_pattern [] []) (map_get (amountPatterns s) ip) in
    ∃ c, c <= now - W ∧ amounts p = (filter (λ p, c < p.2) (history ip l)).*1 ∧
         timestamps p = (filter (λ p, c < p.2) (history ip l)).*2;
  t_past : ∀ ip, Forall (λ p, p.2 <= now) (history ip l) ∧ StronglySorted Z.le (history ip l).*2;
}.

Lemma filter_filter_time c c' (z : list (string * Z)) : c <= c' →
  filter (λ p, c' < p.2) (filter (λ p, c < p.2) z) = filter (λ p, c' < p.2) z.
Proof. intros Hc. rewrite list_filter_filter. apply list_filter_iff. intros p. lia. Qed.

Lemma sorted_filter c (z : list (string * Z)) : StronglySorted Z.le z.*2 → StronglySorted Z.le (filter (λ p, c < p.2) z).*2.
Proof.
  induction z as [|p z IH]; [done|]. rewrite fmap_cons, filter_cons. intros [Hs Hp]%StronglySorted_inv.
  case_decide; [|by apply IH]. rewrite fmap_cons. constructor; [by apply IH|]. apply Forall_forall. intros x (q & -> & [_ Hq]%list_elem_of_filter)%list_elem_of_fmap.
  rewrite Forall_forall in Hp. apply Hp. apply list_elem_of_fmap. by exists q.
Qed.

(** The arrays after an amount, and whether it raised an alert. *)
Lemma detect_spec now l s ip a : a ≠ "" → ip ≠ "" → traced now l s → ∀ t, now <= t →
  let z := filter (λ p, t - W < p.2) (history ip l) ++ [(a, t)] in
  (detectIdenticalAmounts t ip a s).1 = bool_decide (identicalAmountCount <= maxCount z.*1)%nat ∧
  amountPatterns (detectIdenticalAmounts t ip a s).2 = map_set (amountPatterns s) ip (mk_pattern z.*1 z.*2).
Proof.
  intros Ha Hip [_ Hz _] t Ht z. destruct (Hz ip) as (c & Hc & Hm & Hs). unfold detectIdenticalAmounts.
  destruct ip as [|i ip]; [done|]. destruct a as [|x a]; [done|]. cbn [is_empty orb].
  set (p := default _ _) in *. rewrite Hm, Hs.
  destruct (validIndices_zip (t - W) (filter (λ p, c < p.2) (history (String i ip) l))) as [H1 H2].
  rewrite H1, H2, filter_filter_time by lia. subst z. by rewrite !fmap_app.
Qed.

Lemma history_one ip x : history ip [x] =
  match x with
  | Amount t i a => if bool_decide (i = ip) && negb (is_empty i || is_empty a) then [(a, t)] else []
  | Clean _ => []
  end.
Proof. unfold history. cbn. destruct x as [t i a|t]; [|done]. by destruct (_ && _). Qed.

Lemma history_later ip now t l (z : list (string * Z)) :
  now <= t → Forall (λ p, p.2 <= now) (history ip l) ∧ StronglySorted Z.le (history ip l).*2 →
  z = [] ∨ (∃ a, z = [(a, t)]) →
  Forall (λ p, p.2 <= t) (history ip l ++ z) ∧ StronglySorted Z.le (history ip l ++ z).*2.
Proof.
  intros Ht [Hp Hs] Hz. assert (Hp' : Forall (λ p, p.2 <= t) (history ip l)) by (eapply Forall_impl; [exact Hp|]; cbn; lia).
  destruct Hz as [->|[a ->]]; [by rewrite app_nil_r|]. split; [apply Forall_app; split; [done|]; by apply Forall_singleton|].
  rewrite fmap_app. apply StronglySorted_snoc; [done|]. by apply Forall_fmap.
Qed.

Lemma clean_spec t (z : list (string * Z)) : StronglySorted Z.le z.*2 →
  let z' := filter (λ p, t - W * 2 < p.2) z in
  default (mk_pattern [] []) (clean_pattern t (mk_pattern z.*1 z.*2)) = mk_pattern z'.*1 z'.*2.
Proof.
  intros Hs z'. unfold clean_pattern. cbn [timestamps amounts].
  assert (Hf : filter (λ x, t - W * 2 < x) z.*2 = z'.*2).
  { subst z'. clear Hs. induction z as [|p z IH]; [done|]. rewrite fmap_cons, !filter_cons, IH. by case_decide. }
  rewrite Hf. destruct (z'.*2) as [|x ts] eqn:Hz; [by destruct z'|]. rewrite <- Hz. cbn [from_option id]. f_equal.
  rewrite length_fmap. unfold slice_last. rewrite length_fmap. destruct (length z') eqn:Hl; [by destruct z'|].
  rewrite <- Hl, <- fmap_drop. f_equal. symmetry. by apply filter_suffix.
Qed.

Lemma run_step_traced x now l s : now <= step_time x → traced now l s → traced (step_time x) (l ++ [x]) (run_step x s).2.
Proof.
  intros Hn Htr. pose proof Htr as [Hk Hz Hp].
  assert (Hp' : ∀ ip, Forall (λ p, p.2 <= step_time x) (history ip (l ++ [x])) ∧ StronglySorted Z.le (history ip (l ++ [x])).*2).
  { intros ip. rewrite history_app, history_one. apply (history_later ip now); [done|apply Hp|].
    destruct x as [t i a|t]; [|by left]. destruct (_ && _); [right; by exists a|by left]. }
  assert (Hsame : ∀ ip, history ip [x] = [] → let p := default (mk_pattern [] []) (map_get (amountPatterns s) ip) in
    ∃ c, c <= step_time x - W ∧ amounts p = (filter (λ p, c < p.2) (history ip (l ++ [x]))).*1 ∧
      timestamps p = (filter (λ p, c < p.2) (history ip (l ++ [x]))).*2).
  { intros ip He. destruct (Hz ip) as (c & Hc & H1 & H2). exists c. rewrite history_app, He, app_nil_r. split; [lia|done]. }
  destruct x as [t i a|t]; cbn [run_step step_time snd] in *.
  - destruct (is_empty i || is_empty a) eqn:Hemp.
    { unfold detectIdenticalAmounts. rewrite Hemp. cbn [snd]. split; [done| |done]. intros ip. apply Hsame.
      rewrite history_one, Hemp. by destruct (bool_decide _). }
    apply orb_false_elim in Hemp as [Hi Ha].
    destruct (detect_spec now l s i a ltac:(by intros ->) ltac:(by intros ->) Htr t Hn) as [_ Ham].
    split; [rewrite Ham; by apply map_set_NoDup| |done]. intros ip. rewrite Ham, map_get_set. case_decide as Hip.
    + subst ip. exists (t - W). cbn [from_option id]. rewrite history_app, history_one, Hi, Ha, bool_decide_true by done.
      cbn [andb orb negb]. rewrite filter_app. cbn [amounts timestamps]. split; [lia|].
      rewrite (filter_all _ [(a, t)]); [done|]. apply Forall_singleton. cbn. unfold identicalAmountWindow. lia.
    + apply Hsame. rewrite history_one, bool_decide_false by done. done.
  - split; [by apply map_entries_NoDup| |done]. intros ip. cbn [cleanup_stores amountPatterns]. rewrite map_get_entries by done.
    destruct (map_get (amountPatterns s) ip) as [p|] eqn:Hg; [|pose proof (Hsame ip eq_refl) as H; by rewrite Hg in H].
    destruct (Hz ip) as (c & Hc & H1 & H2). rewrite Hg in H1, H2. cbn [from_option id] in H1, H2. cbn [mbind option_bind].
    set (z := filter (λ p, c < p.2) (history ip l)) in *.
    assert (Hpz : p = mk_pattern z.*1 z.*2) by (destruct p; cbn in *; by subst). rewrite Hpz.
    rewrite clean_spec; [|by apply sorted_filter, Hp]. exists (Z.max c (t - W * 2)). cbn [amounts timestamps].
    rewrite history_app, history_one, app_nil_r.
    assert (Hf : filter (λ p, t - W * 2 < p.2) z = filter (λ p, Z.max c (t - W * 2) < p.2) (history ip l)).
    { subst z. rewrite list_filter_filter. apply list_filter_iff. intros q. lia. }
    rewrite Hf. split; [unfold identicalAmountWindow in *; lia|done].
Qed.

Lemma run_traced l t : ∀ now l0 s, steps_in_order now l → now <= t → Forall (λ x, step_time x <= t) l → traced now l0 s →
  ∃ now', now' <= t ∧ traced now' (l0 ++ l) (foldl (λ s x, (run_step x s).2) s l).
Proof.
  induction l as [|x l IH]; intros now l0 s Ho Hnow Hl Ht; [exists now; by rewrite app_nil_r|].
  destruct Ho as [Hn Ho]. apply Forall_cons in Hl as [Hx Hl]. cbn [foldl].
  destruct (IH _ _ _ Ho Hx Hl (run_step_traced x now l0 s Hn Ht)) as (now' & Hle & Ht').
  exists now'. by rewrite <- (assoc_L (++)) in Ht'.
Qed.

Lemma maxCount_spec n l : (1 <= n)%nat → (n <= maxCount l)%nat ↔ ∃ a, (n <= countOf a l)%nat.
Proof.
  intros Hn. unfold maxCount.
  assert (Hg : ∀ l', (n <= foldr (λ a m, Nat.max (countOf a l) m) 0 l')%nat ↔ ∃ a, a ∈ l' ∧ (n <= countOf a l)%nat).
  { induction l' as [|a l' IH]; cbn [foldr]; [split; [lia|by intros (? & ?%elem_of_nil & _)]|]. split.
    - intros Hm. destruct (decide (n <= countOf a l)%nat); [exists a; split; [left|done]|].
      destruct (proj1 IH ltac:(lia)) as (b & Hb & ?). exists b. split; [by right|done].
    - intros (b & [->|Hb]%elem_of_cons & Hc); [lia|]. pose proof (proj2 IH (ex_intro _ b (conj Hb Hc))). lia. }
  rewrite Hg. split; [by intros (a & _ & ?); exists a|]. intros [a Ha]. exists a. split; [|done].
  destruct (filter (a =.) l) as [|b l'] eqn:Hf; [unfold countOf in Ha; rewrite Hf in Ha; cbn in Ha; lia|].
  assert (Hb : b ∈ filter (a =.) l) by (rewrite Hf; left). by apply list_elem_of_filter in Hb as [<- Hb].
Qed.

(** The heuristic of equal amounts does what it says: the alert is raised exactly when, of the
    amounts an address gave in the last ten minutes, the new one included, some amount occurs three
    times; clean-ups and other addresses make no difference. *)
Theorem identical_amounts_exact l t ip a :
  steps_in_order 0 l → 0 <= t → Forall (λ x, step_time x <= t) l → ip ≠ "" → a ≠ "" →
  let s := foldl (λ s x, (run_step x s).2) (mk_stores [] [] [] [] []) l in
  (detectIdenticalAmounts t ip a s).1 = true ↔
  ∃ b, (identicalAmountCount <= countOf b (filter (λ p, (t - W < p.2)%Z) (history ip (l ++ [Amount t ip a]))).*1)%nat.
Proof.
  intros Ho Ht Hl Hip Ha s.
  destruct (run_traced l t 0 [] (mk_stores [] [] [] [] []) Ho Ht Hl) as (now' & Hle & Htr).
  { split; cbn; [constructor| |intros ip'; split; constructor]. intros ip'. exists (0 - W). split_and!; [lia|done|done]. }
  destruct (detect_spec now' l s ip a Ha Hip Htr t Hle) as [-> _]. rewrite bool_decide_eq_true.
  rewrite maxCount_spec by (unfold identicalAmountCount; lia).
  rewrite history_app, history_one, filter_app, bool_decide_true by done.
  destruct ip as [|i ip]; [done|]. destruct a as [|x a]; [done|]. cbn [is_empty orb andb negb].
  rewrite (filter_all _ [(String x a, t)]); [done|]. apply Forall_singleton. cbn. unfold identicalAmountWindow. lia.
Qed.

End Patterns.

(** ** Witnesses *)

Lemma block_lasts_witness :
  let b := mk_block "u" "1.2.3.4" "r" 1000 86401000 in
  isBlocked 50000 "1.2.3.4" (foldl (λ s e, run_event 10 3600000 86400000 e s) (mk_st [] [b] [b])
    [Cleanup 2000; Restart 3000; Suspicious 4000 "v" "5.6.7.8"]) = true.
Proof.
  intros b. apply (block_lasts 10 3600000 86400000 b [Cleanup 2000; Restart 3000; Suspicious 4000 "v" "5.6.7.8"] _ 50000);
    [split; by left|discriminate|repeat constructor; discriminate|repeat constructor; discriminate|reflexivity].
Defined.

Lemma block_has_reason_witness :
  let l := [Suspicious 1000 "a" "1.2.3.4"; Cleanup 1500; Suspicious 2000 "b" "1.2.3.4"; Restart 3000] in
  ∃ t, 2 <= events_in 3600000 "1.2.3.4" t l.
Proof.
  intros l. apply (block_has_reason 2 3600000 86400000 l 5000 "1.2.3.4"); [lia|cbn; lia|vm_compute; reflexivity].
Defined.

Lemma identical_amounts_exact_witness :
  let l := [Patterns.Amount 1000 "ip" "5"; Patterns.Clean 2000; Patterns.Amount 3000 "ip" "5"; Patterns.Amount 4000 "other" "5"] in
  (Patterns.detectIdenticalAmounts 5000 "ip" "5"
     (foldl (λ s x, (Patterns.run_step x s).2) (Patterns.mk_stores [] [] [] [] []) l)).1 = true.
Proof.
  intros l. apply (Patterns.identical_amounts_exact l 5000 "ip" "5"); [vm_compute; repeat split; discriminate|lia| |discriminate|discriminate|].
  - repeat constructor; discriminate.
  - exists "5". vm_compute. repeat constructor.
Defined.

Lemma successful_donor_blocked_witness :
  let r := mk_reply true 201 "POST" "/api/v1/donations" true in
  blockCheck 86000000 (Some "1.2.3.4")
    (foldl (λ s t, (serve 10 3600000 86400000 t "u" true "1.2.3.4" r s).2) init [0; 600000; 1200000; 1800000; 3600000]) = false.
Proof.
  intros r. apply (successful_donor_blocked 10 3600000 86400000 "1.2.3.4" "u" r 0 [0; 600000; 1200000; 1800000; 3600000] 86000000);
    try reflexivity; try discriminate. repeat constructor; try discriminate; reflexivity.
Defined.

End Abuse.
