(* ===== verification/Auth.v ===== *)
(** * Authentication

    Access tokens ([issueAccessToken] and [verifyAccessToken] of
    [src/src/services/JwtService.js]), the middleware that attaches a user to
    every request ([attachUserRole] of [src/src/middleware/rbac.js]), the one
    that protects a route ([src/src/middleware/apiKey.js]), the comparison of
    legacy keys ([src/src/utils/safeEqual.js]) and the quota counter
    ([src/src/middleware/quotaTracker.js]), composed in the order in which the
    application mounts them, on top of [ApiKeys], [IpAllowlist], [Signing],
    [NonceStore] and [RateLimits].

    SHA-256, HMAC, and the encoding of an object as base64url of its JSON are
    parameters.  A request is handled at one instant.  Headers of responses,
    audit log entries and webhooks are left out. *)

From Stdlib Require Import Ascii.
From S2P Require Import Prelude JsString JsMap Errors ApiKeys IpAllowlist NonceStore Signing RateLimits.
Local Open Scope Z_scope.

Module Auth.
Import Errors RateLimits.

(** What the code reads of the claims of a token. *)
Record payload := mk_payload {
  p_sub : option string;
  p_role : option string;
  p_claims : list (string * string);
  p_iat : option Z;
  p_exp : option Z;
}.

(** ** Access tokens *)

Definition ACCESS_TOKEN_TTL_SECONDS : Z := 900.
Definition dot (a b : string) : string := a +:+ "." +:+ b.
(** No dot in it: the letters of base64url. *)
Definition no_dot (s : string) : Prop := str_forall (λ c, negb (Ascii.eqb c ".")) s = true.

Section tokens.
(** The HMAC in base64url, [b64url] of the header, [b64url] and its inverse
    with [JSON.parse], and the secret. *)
Context (hmac64 : string → string → string) (header : string).
Context (b64url : payload → string) (parse : string → option payload) (secret : string).

Definition issueAccessToken (now : Z) (p : payload) : string :=
  let seconds := now / 1000 in
  let claims := b64url (mk_payload (p_sub p) (p_role p) (p_claims p) (Some seconds)
                          (Some (seconds + ACCESS_TOKEN_TTL_SECONDS))) in
  let sig := hmac64 secret (dot header claims) in
  dot (dot header claims) sig.

Inductive verdict := TokenValid (p : payload) | TokenInvalid (reason : string).

(** [timingSafeEqual] throws on buffers of different lengths. *)
Definition verifyAccessToken (now : Z) (token : string) : verdict :=
  match split_on "." token with
  | [hd; claims; sig] =>
      let expected := hmac64 secret (dot hd claims) in
      if negb (length (Signing.utf8 sig) =? length (Signing.utf8 expected))%nat then TokenInvalid "malformed token"
      else if negb (bool_decide (Signing.utf8 sig = Signing.utf8 expected)) then TokenInvalid "invalid signature"
      else
        match parse claims with
        | None => TokenInvalid "malformed token"
        | Some p =>
            match p_exp p with
            | Some e => if e <? now / 1000 then TokenInvalid "token expired" else TokenValid p
            | None => TokenValid p
            end
        end
  | _ => TokenInvalid "malformed token"
  end.

Lemma split_three a b c : no_dot a → no_dot b → no_dot c → split_on "." (dot (dot a b) c) = [a; b; c].
Proof.
  intros Ha Hb Hc. unfold dot. rewrite !str_app_assoc.
  change ("." +:+ b +:+ "." +:+ c) with (String "." (b +:+ "." +:+ c)). rewrite split_on_app by done.
  change ("." +:+ c) with (String "." c). rewrite split_on_app by done. by rewrite (split_on_none "." c).
Qed.

(** C33: A token that was issued is accepted with its claims for fifteen minutes, the second of its
    expiry included, and reported as expired from then on. *)
Theorem access_token_roundtrip now now' p :
  let issued := mk_payload (p_sub p) (p_role p) (p_claims p) (Some (now / 1000)) (Some (now / 1000 + 900)) in
  no_dot header → no_dot (b64url issued) → (∀ k s, no_dot (hmac64 k s)) → parse (b64url issued) = Some issued →
  verifyAccessToken now' (issueAccessToken now p) =
    if now' / 1000 <=? now / 1000 + 900 then TokenValid issued else TokenInvalid "token expired".
Proof.
  intros issued Hh Hb Hm Hp. unfold verifyAccessToken, issueAccessToken, ACCESS_TOKEN_TTL_SECONDS. fold issued.
  rewrite split_three by done. rewrite Nat.eqb_refl, bool_decide_true by done. cbn [negb]. rewrite Hp.
  cbn [issued p_exp]. rewrite Z.ltb_antisym. by destruct (_ <=? _).
Qed.

Lemma utf8_inj a : ∀ b, Signing.utf8 a = Signing.utf8 b → a = b.
Proof.
  assert (Hc : ∀ c d r r', Signing.utf8_char c ++ r = Signing.utf8_char d ++ r' → c = d ∧ r = r').
  { intros c d r r'. unfold Signing.utf8_char. pose proof (char_code_range c). pose proof (char_code_range d).
    assert (Hcd : char_code c = char_code d → c = d).
    { intros Heq. apply Ascii.eqb_eq. rewrite char_eqb_code. by apply Z.eqb_eq. }
    destruct (Z.ltb_spec (char_code c) 128), (Z.ltb_spec (char_code d) 128); cbn; intros Heq.
    - injection Heq as Hx Hr. split; [by apply Hcd|done].
    - injection Heq as Hx Hr. exfalso. pose proof (Z.div_pos (char_code d) 64). lia.
    - injection Heq as Hx Hr. exfalso. pose proof (Z.div_pos (char_code c) 64). lia.
    - injection Heq as Hx Hy Hr. split; [|done]. apply Hcd. pose proof (Z.div_mod (char_code c) 64).
      pose proof (Z.div_mod (char_code d) 64). lia. }
  assert (Hne : ∀ c r, Signing.utf8_char c ++ r ≠ []) by (intros c r; unfold Signing.utf8_char; by case_match).
  induction a as [|c a IH]; intros [|d b]; cbn [Signing.utf8]; intros H; [done| | |].
  - by destruct (Hne d (Signing.utf8 b)).
  - by destruct (Hne c (Signing.utf8 a)).
  - apply Hc in H as [-> H]. by rewrite (IH b H).
Qed.

(** C18: No token without the secret: a token that is accepted ends in the HMAC of its own first two
    parts, and its claims are the ones that part encodes, not expired. *)
Theorem access_token_authentic now token p :
  verifyAccessToken now token = TokenValid p →
  ∃ hd claims, token = dot (dot hd claims) (hmac64 secret (dot hd claims)) ∧ parse claims = Some p ∧
    (∀ e, p_exp p = Some e → now < (e + 1) * 1000).
Proof.
  unfold verifyAccessToken. pose proof (str_join_split "." token) as Hj.
  destruct (split_on "." token) as [|hd [|claims [|sig [|x l]]]]; try done.
  destruct (negb _); [done|]. case_bool_decide as Hu; [|done]. cbn [negb]. apply utf8_inj in Hu as ->.
  destruct (parse claims) as [q|] eqn:Hp; [|done]. intros Hv.
  assert (Hq : q = p ∧ ∀ e, p_exp q = Some e → now / 1000 <= e).
  { destruct (p_exp q) as [e|]; [|by injection Hv]. destruct (Z.ltb_spec e (now / 1000)); [done|]. injection Hv as ->.
    split; [done|]. by intros ? [= <-]. }
  destruct Hq as [-> He]. exists hd, claims. split_and!; [|done|].
  - rewrite <- Hj. unfold dot. cbn [str_join]. by rewrite !str_app_assoc.
  - intros e Hpe. specialize (He e Hpe). pose proof (Z.div_mod now 1000). pose proof (Z.mod_pos_bound now 1000). lia.
Qed.

End tokens.

(** ** Requests and their context *)

Record req := mk_req {
  q_authorization : option string;
  q_api_key : option string;            (* x-api-key *)
  q_ip : option string;
  q_method : string;
  q_url : string;                       (* originalUrl || url *)
  q_rawBody : string;
  q_timestamp : option string;
  q_signature : option string;
  q_nonce : option string;
}.

Inductive user :=
| JwtUser (p : payload)
| KeyUser (keyInfo : ApiKeys.key_info)
| LegacyUser (id role : string)
| Guest.
Definition role_of (u : user) : string :=
  match u with
  | JwtUser p => match p_role p with Some r => if is_empty r then "user" else r | None => "user" end
  | KeyUser k => if is_empty (ApiKeys.i_role k) then "user" else ApiKeys.i_role k
  | LegacyUser _ role => role
  | Guest => "guest"
  end.

(** [req.apiKey] and [req.user]. *)
Record ctx := mk_ctx { apiKey : attached; the_user : option user }.
Definition empty_ctx : ctx := mk_ctx NoKey None.

Inductive response := Next | Reply (status : Z) (code : string).

Section middleware.
Context (sha256 : string → string) (hmac : string → string → string).
Context (verify_token : Z → string → verdict).
(** The legacy keys, the life time of a cached key, the nonce store. *)
Context (legacyKeys : list string) (TTL : Z) (nonceWindowMs : Z) (nonceMaxSize : nat).
Context {E S : Type} `{RateLimitStore E S}.

Record st := mk_st { keys : ApiKeys.st; nonces : NonceStore.st; limits : S }.
Definition set_keys (k : ApiKeys.st) (s : st) : st := mk_st k (nonces s) (limits s).
Definition set_nonces (n : NonceStore.st) (s : st) : st := mk_st (keys s) n (limits s).

(** The token of an Authorization header with the scheme Bearer. *)
Definition bearer (r : req) : option string :=
  match q_authorization r with
  | Some a => if starts_with "Bearer " a then Some (trim (str_drop 7 a)) else None
  | None => None
  end.

(** [safeEqual]: equal HMAC digests under a fixed key. *)
Definition safeEqual (incoming stored : string) : bool :=
  bool_decide (hmac "constant-time-compare" incoming = hmac "constant-time-compare" stored).

(** ** attachUserRole *)

Definition attachUserRole (e : E) (now : Z) (r : req) (c : ctx) (s : st) : response * ctx * st :=
  match bearer r with
  | Some token =>
      match verify_token now token with
      | TokenValid p => (Next, mk_ctx (apiKey c) (Some (JwtUser p)), s)
      | TokenInvalid _ => (Reply 401 "UNAUTHORIZED", c, s)
      end
  | None =>
      match apiKey c with
      | DbKey keyInfo => (Next, mk_ctx (apiKey c) (Some (KeyUser keyInfo)), s)
      | LegacyKey => (Next, mk_ctx (apiKey c) (Some (LegacyUser "apikey-legacy" "user")), s)
      | NoKey =>
          match Signing.truthy (q_api_key r) with
          | Some key =>
              let '(keyInfo, k) := ApiKeys.validateApiKey sha256 TTL now key (keys s) in
              let s := set_keys k s in
              match keyInfo with
              | Some keyInfo => (Next, mk_ctx (DbKey keyInfo) (Some (KeyUser keyInfo)), s)
              | None =>
                  if bool_decide (key ∈ legacyKeys) then
                    let legacyKeyId := "legacy-" +:+ str_take 16 (sha256 key) in
                    let '(rl, l) := checkRateLimit e now (LegacyId legacyKeyId) DEFAULT_RATE_LIMIT DEFAULT_WINDOW_SECONDS (limits s) in
                    let s := mk_st (keys s) (nonces s) l in
                    if negb (allowed rl) then (Reply 429 "RATE_LIMIT_EXCEEDED", c, s)
                    else (Next, mk_ctx NoKey (Some (LegacyUser legacyKeyId (if starts_with "admin-" key then "admin" else "user"))), s)
                  else (Next, mk_ctx NoKey (Some Guest), s)
              end
          | None =>
              (* the call of perKeyRateLimit that follows needs req.apiKey *)
              (Next, mk_ctx NoKey (Some Guest), s)
          end
      end
  end.

(** ** requireApiKey *)

(** The legacy keys, after the database or after an exception. *)
Definition legacy_or (otherwise : response) (key : string) (c : ctx) : response * ctx :=
  if existsb (safeEqual key) legacyKeys then (Next, mk_ctx LegacyKey (the_user c)) else (otherwise, c).

(** The checks of a valid key: [None] lets the request pass. *)
Definition quota_exceeded (keyInfo : ApiKeys.key_info) : bool :=
  match ApiKeys.nonzero (ApiKeys.i_monthlyQuota keyInfo) with
  | Some q => q - ApiKeys.i_quotaUsed keyInfo <=? 0
  | None => false
  end.

Definition check_signed (now : Z) (r : req) (keyInfo : ApiKeys.key_info) : stx jserror NonceStore.st (option response) :=
  if negb (ApiKeys.i_signingRequired keyInfo) then mret None
  else
    result ← lift_out (Signing.verify sha256 hmac (ApiKeys.i_keySecret keyInfo) (q_method r) (q_url r)
                         (q_timestamp r) (q_signature r) (q_rawBody r) Signing.SIGNATURE_MAX_AGE_MS now);
    match result with
    | Signing.Valid =>
        match Signing.truthy (q_nonce r) with
        | None => mret (Some (Reply 401 "MISSING_NONCE"))
        | Some nonce =>
            s ← get_st;
            let '(seen, s') := NonceStore.check nonceWindowMs nonceMaxSize now nonce s in
            put_st s';;
            mret (if (seen : bool) then Some (Reply 409 "NONCE_REPLAYED") else None)
        end
    | _ => mret (Some (Reply 401 "INVALID_SIGNATURE"))
    end.

Definition check_key (now : Z) (r : req) (keyInfo : ApiKeys.key_info) : stx jserror NonceStore.st (option response) :=
  if quota_exceeded keyInfo then mret (Some (Reply 429 "QUOTA_EXCEEDED"))
  else
    ip ← lift_out (IpAllowlist.isIpAllowed (q_ip r) (ApiKeys.i_allowedIps keyInfo));
    if negb ip then mret (Some (Reply 403 "API_KEY_IP_RESTRICTED"))
    else check_signed now r keyInfo.

Definition requireApiKey (now : Z) (r : req) (c : ctx) (s : st) : response * ctx * st :=
  match apiKey c with
  | DbKey _ | LegacyKey => (Next, c, s)
  | NoKey =>
      match bearer r with
      | Some token =>
          match verify_token now token with
          | TokenValid p => (Next, mk_ctx NoKey (Some (JwtUser p)), s)
          | TokenInvalid _ => (Reply 401 "UNAUTHORIZED", c, s)
          end
      | None =>
          match the_user c with
          | Some (JwtUser _) => (Next, c, s)
          | _ =>
              match Signing.truthy (q_api_key r) with
              | None => (Reply 401 "UNAUTHORIZED", c, s)
              | Some key =>
                  let '(keyInfo, k) := ApiKeys.validateApiKey sha256 TTL now key (keys s) in
                  let s := set_keys k s in
                  match keyInfo with
                  | Some keyInfo =>
                      let c := mk_ctx (DbKey keyInfo) (the_user c) in
                      match check_key now r keyInfo (nonces s) with
                      | (Ret None, n) => (Next, c, set_nonces n s)
                      | (Ret (Some refused), n) => (refused, c, set_nonces n s)
                      | (Throw _, n) => (legacy_or (Reply 500 "INTERNAL_ERROR") key c, set_nonces n s)
                      end
                  | None => (legacy_or (Reply 401 "UNAUTHORIZED") key c, s)
                  end
              end
          end
      end
  end.

(** ** quotaTracker *)

(** On the end of the response. *)
Definition trackQuotaUsage (c : ctx) (statusCode : Z) (s : st) : st :=
  match apiKey c with
  | DbKey keyInfo =>
      match ApiKeys.nonzero (ApiKeys.i_monthlyQuota keyInfo) with
      | Some _ =>
          if negb (ApiKeys.i_id keyInfo =? 0) && (200 <=? statusCode) && (statusCode <? 400)
          then set_keys (ApiKeys.incrementQuota (ApiKeys.i_id keyInfo) (keys s)).2 s else s
      | None => s
      end
  | _ => s
  end.

(** ** A request to a protected route

    The application mounts [attachUserRole] before the routes; request
    signing for all routes is off unless it is configured. *)

Definition protected (e : E) (now : Z) (r : req) (s : st) : response * ctx * st :=
  let '(a, c, s) := attachUserRole e now r empty_ctx s in
  match a with
  | Next => requireApiKey now r c s
  | refused => (refused, c, s)
  end.

(** *** The gate *)

Definition passes (a : response * ctx * st) : Prop := a.1.1 = Next.

(** What the checks of a key let pass. *)
Lemma check_key_passes now r keyInfo n :
  (check_key now r keyInfo n).1 = Ret None ↔
    quota_exceeded keyInfo = false ∧
    IpAllowlist.isIpAllowed (q_ip r) (ApiKeys.i_allowedIps keyInfo) = Ret true ∧
    (ApiKeys.i_signingRequired keyInfo = true →
       Signing.verify sha256 hmac (ApiKeys.i_keySecret keyInfo) (q_method r) (q_url r) (q_timestamp r)
         (q_signature r) (q_rawBody r) Signing.SIGNATURE_MAX_AGE_MS now = Ret Signing.Valid ∧
       ∃ nonce, Signing.truthy (q_nonce r) = Some nonce ∧
         (NonceStore.check nonceWindowMs nonceMaxSize now nonce n).1 = false).
Proof.
  unfold check_key. stx_unfold. destruct (quota_exceeded keyInfo); [split; [done|by intros [? _]]|].
  destruct (IpAllowlist.isIpAllowed _ _) as [[]|err]; cbn [negb]; [|split; [done|by intros (_ & ? & _)]..].
  unfold check_signed. stx_unfold. destruct (ApiKeys.i_signingRequired keyInfo); cbn [negb]; [|split; [intros _; split_and!; done|done]].
  destruct (Signing.verify _ _ _ _ _ _ _ _ _ _) as [[]|err]; cbn;
    try (split; [done|intros (_ & _ & Hx); by destruct (Hx eq_refl)]).
  destruct (Signing.truthy (q_nonce r)) as [nonce|]; cbn; [|split; [done|intros (_ & _ & Hx); destruct (Hx eq_refl) as (_ & ? & ? & _); done]].
  destruct (NonceStore.check _ _ _ _ _) as [[] n'] eqn:Hc; cbn; split; try done.
  - intros (_ & _ & Hx). destruct (Hx eq_refl) as (_ & ? & [= <-] & Hs). by rewrite Hc in Hs.
  - intros _. split_and!; [done|done|]. intros _. split; [done|]. exists nonce. by rewrite Hc.
Qed.

(** A request with a key that is valid. *)
Lemma requireApiKey_key now r s key keyInfo :
  bearer r = None → Signing.truthy (q_api_key r) = Some key →
  (ApiKeys.validateApiKey sha256 TTL now key (keys s)).1 = Some keyInfo →
  requireApiKey now r empty_ctx s =
    let s1 := set_keys (ApiKeys.validateApiKey sha256 TTL now key (keys s)).2 s in
    let c := mk_ctx (DbKey keyInfo) None in
    match check_key now r keyInfo (nonces s) with
    | (Ret None, n) => (Next, c, set_nonces n s1)
    | (Ret (Some refused), n) => (refused, c, set_nonces n s1)
    | (Throw _, n) => (legacy_or (Reply 500 "INTERNAL_ERROR") key c, set_nonces n s1)
    end.
Proof.
  intros Hb Hk Hv. unfold requireApiKey. cbn [empty_ctx apiKey the_user]. rewrite Hb, Hk.
  destruct (ApiKeys.validateApiKey sha256 TTL now key (keys s)) as [info k]. cbn [fst snd] in *. by subst info.
Qed.

(** The refusals of a check are answers. *)
Lemma check_key_refuses now r keyInfo n : (check_key now r keyInfo n).1 ≠ Ret (Some Next).
Proof.
  unfold check_key. stx_unfold. destruct (quota_exceeded keyInfo); [done|].
  destruct (IpAllowlist.isIpAllowed _ _) as [[]|err]; cbn [negb]; [|done..].
  unfold check_signed. stx_unfold. destruct (ApiKeys.i_signingRequired keyInfo); cbn [negb]; [|done].
  destruct (Signing.verify _ _ _ _ _ _ _ _ _ _) as [[]|err]; cbn; try done.
  destruct (Signing.truthy (q_nonce r)) as [nonce|]; cbn; [|done].
  by destruct (NonceStore.check _ _ _ _ _) as [[] n'].
Qed.

Lemma requireApiKey_passes now r s key keyInfo :
  bearer r = None → Signing.truthy (q_api_key r) = Some key → existsb (safeEqual key) legacyKeys = false →
  (ApiKeys.validateApiKey sha256 TTL now key (keys s)).1 = Some keyInfo →
  passes (requireApiKey now r empty_ctx s) ↔ (check_key now r keyInfo (nonces s)).1 = Ret None.
Proof.
  intros Hb Hk Hl Hv. rewrite (requireApiKey_key _ _ _ _ _ Hb Hk Hv). unfold passes, legacy_or. rewrite Hl. cbn zeta.
  pose proof (check_key_refuses now r keyInfo (nonces s)) as Href.
  destruct (check_key now r keyInfo (nonces s)) as [[[refused|]|err] n]; cbn [fst] in *; [|done..].
  split; [|done]. intros ->. done.
Qed.

(** C5: The gate of a route.  Without the application's middleware, [requireApiKey] lets a request with
    an API key that is not a legacy key pass exactly when its quota is not used up, the address is
    in its list, and, if the key demands signatures, the signature is valid and the nonce is given
    and new. *)
Theorem requireApiKey_gate now r s key keyInfo :
  bearer r = None → Signing.truthy (q_api_key r) = Some key → existsb (safeEqual key) legacyKeys = false →
  (ApiKeys.validateApiKey sha256 TTL now key (keys s)).1 = Some keyInfo →
  passes (requireApiKey now r empty_ctx s) ↔
    quota_exceeded keyInfo = false ∧
    IpAllowlist.isIpAllowed (q_ip r) (ApiKeys.i_allowedIps keyInfo) = Ret true ∧
    (ApiKeys.i_signingRequired keyInfo = true →
       Signing.verify sha256 hmac (ApiKeys.i_keySecret keyInfo) (q_method r) (q_url r) (q_timestamp r)
         (q_signature r) (q_rawBody r) Signing.SIGNATURE_MAX_AGE_MS now = Ret Signing.Valid ∧
       ∃ nonce, Signing.truthy (q_nonce r) = Some nonce ∧
         (NonceStore.check nonceWindowMs nonceMaxSize now nonce (nonces s)).1 = false).
Proof. intros Hb Hk Hl Hv. rewrite (requireApiKey_passes now r s key keyInfo Hb Hk Hl Hv). apply check_key_passes. Qed.

(** The nonce is not signed.  A signed request that passed passes again, word for word, with any
    other nonce: the signature of a key covers method, path, time and body, not the nonce. *)
Theorem nonce_unsigned now r nonce s key keyInfo :
  let with_nonce := mk_req (q_authorization r) (q_api_key r) (q_ip r) (q_method r) (q_url r) (q_rawBody r)
    (q_timestamp r) (q_signature r) (Some nonce) in
  let s' := (requireApiKey now r empty_ctx s).2 in
  bearer r = None → Signing.truthy (q_api_key r) = Some key → existsb (safeEqual key) legacyKeys = false →
  (ApiKeys.validateApiKey sha256 TTL now key (keys s)).1 = Some keyInfo →
  (ApiKeys.validateApiKey sha256 TTL now key (keys s')).1 = Some keyInfo →
  passes (requireApiKey now r empty_ctx s) →
  nonce ≠ "" → map_get (NonceStore._store (nonces s')) nonce = None →
  passes (requireApiKey now with_nonce empty_ctx s').
Proof.
  intros r' s' Hb Hk Hl Hv Hv' Hp Hn Hg.
  apply (requireApiKey_passes now r s key keyInfo Hb Hk Hl Hv), check_key_passes in Hp as (Hq & Hi & Hs).
  apply (requireApiKey_passes now r' s' key keyInfo Hb Hk Hl Hv'), check_key_passes. split_and!; [done|done|].
  intros Hreq. destruct (Hs Hreq) as [Hver _]. split; [exact Hver|]. exists nonce. split.
  - unfold r'. cbn. by destruct nonce.
  - unfold NonceStore.check. rewrite Hg. by destruct (NonceStore.evict _ _ _).
Qed.

(** The quota is checked against the cache.  As long as the cache entry of a key lives, any number
    of requests beyond the quota passes, although each of them is counted in the table. *)
Theorem quota_stale now r s key keyInfo e n :
  bearer r = None → Signing.truthy (q_api_key r) = Some key → existsb (safeEqual key) legacyKeys = false →
  map_get (ApiKeys.keyCache (keys s)) (sha256 key) = Some (Some keyInfo, e) → now <= e →
  quota_exceeded keyInfo = false → IpAllowlist.isIpAllowed (q_ip r) (ApiKeys.i_allowedIps keyInfo) = Ret true →
  ApiKeys.i_signingRequired keyInfo = false →
  passes (requireApiKey now r empty_ctx (Nat.iter n (trackQuotaUsage (mk_ctx (DbKey keyInfo) None) 200) s)).
Proof.
  intros Hb Hk Hl Hg He Hq Hi Hs. set (s' := Nat.iter n _ s).
  assert (Hc : map_get (ApiKeys.keyCache (keys s')) (sha256 key) = Some (Some keyInfo, e)).
  { subst s'. induction n as [|n IH]; [done|]. cbn [Nat.iter nat_rect]. unfold trackQuotaUsage at 1. cbn [apiKey].
    destruct (ApiKeys.nonzero _); [|exact IH]. destruct (_ && _); [|exact IH]. cbn [set_keys keys].
    unfold ApiKeys.incrementQuota. cbn [ApiKeys.update_where]. by destruct (ApiKeys.get_by_id _ _). }
  assert (Hv : (ApiKeys.validateApiKey sha256 TTL now key (keys s')).1 = Some keyInfo).
  { unfold ApiKeys.validateApiKey, ApiKeys.validate_start, ApiKeys.getCachedKey. rewrite Hc.
    destruct (Z.ltb_spec e now); [lia|done]. }
  apply (requireApiKey_passes now r s' key keyInfo Hb Hk Hl Hv), check_key_passes. split_and!; [done|done|congruence].
Qed.

(** *** Soundness of the chain *)

(** What entitles a request. *)
Definition credential (now : Z) (r : req) (s : st) : Prop :=
  (∃ token p, bearer r = Some token ∧ verify_token now token = TokenValid p) ∨
  (∃ key, Signing.truthy (q_api_key r) = Some key ∧
     ((∃ keyInfo, (ApiKeys.validateApiKey sha256 TTL now key (keys s)).1 = Some keyInfo) ∨
      existsb (safeEqual key) legacyKeys = true)).

(** C2: No request without a credential.  Whatever reaches a protected route carries a bearer token
    that verifies, an API key that the table accepts, or a key equal to a legacy key. *)
Theorem protected_sound e now r s :
  passes (protected e now r s) → credential now r s.
Proof.
  unfold passes, protected, attachUserRole, credential. destruct (bearer r) as [token|] eqn:Hb.
  { destruct (verify_token now token) as [p|] eqn:Hv; [|done]. intros _. left. by exists token, p. }
  cbn [empty_ctx apiKey]. destruct (Signing.truthy (q_api_key r)) as [key|] eqn:Hk; cycle 1.
  { unfold requireApiKey. cbn [apiKey the_user]. by rewrite Hb, Hk. }
  destruct (ApiKeys.validateApiKey sha256 TTL now key (keys s)) as [keyInfo k] eqn:Hv.
  intros Hp. right. exists key. split; [done|].
  rewrite Hv. destruct keyInfo as [keyInfo|]; [left; by exists keyInfo|right].
  assert (Hagain : (ApiKeys.validateApiKey sha256 TTL now key k).1 = None).
  { pose proof (ApiKeys.validate_none_again sha256 TTL now key (keys s)) as Ha. rewrite Hv in Ha. by apply Ha. }
  assert (Hreq : ∀ c s', keys s' = k → apiKey c = NoKey → (∀ p, the_user c ≠ Some (JwtUser p)) →
    (requireApiKey now r c s').1.1 = Next → existsb (safeEqual key) legacyKeys = true).
  { intros c s' Hks Hc Hu. unfold requireApiKey. rewrite Hc, Hb, Hk, Hks.
    destruct (ApiKeys.validateApiKey sha256 TTL now key k) as [info k']. cbn [fst] in Hagain. subst info.
    unfold legacy_or. destruct (the_user c) as [[p|?|? ?|]|]; [by destruct (Hu p)|..]; by destruct (existsb _ _). }
  cbn [set_keys limits nonces keys] in Hp. destruct (bool_decide (key ∈ legacyKeys)).
  - destruct (checkRateLimit _ _ _ _ _ _) as [rl l]. destruct (negb (allowed rl)); [done|].
    by eapply Hreq in Hp.
  - by eapply Hreq in Hp.
Qed.

(** C17: The checks of a key never run in the application.  [attachUserRole] sets [req.apiKey], and
    [requireApiKey] lets such a request pass at once: a valid key passes whatever its quota, its
    address list and its signing requirement say, and no nonce is used up. *)
Theorem enforcement_bypassed e now r s key keyInfo :
  bearer r = None → Signing.truthy (q_api_key r) = Some key →
  (ApiKeys.validateApiKey sha256 TTL now key (keys s)).1 = Some keyInfo →
  protected e now r s =
    (Next, mk_ctx (DbKey keyInfo) (Some (KeyUser keyInfo)),
     set_keys (ApiKeys.validateApiKey sha256 TTL now key (keys s)).2 s).
Proof.
  intros Hb Hk Hv. unfold protected, attachUserRole. rewrite Hb. cbn [empty_ctx apiKey]. rewrite Hk.
  destruct (ApiKeys.validateApiKey sha256 TTL now key (keys s)) as [info k]. cbn [fst snd] in *. by subst info.
Qed.

End middleware.

(** ** Witnesses *)

Definition ex_sha (x : string) : string := x.
Definition ex_hmac (k d : string) : string := "ab".
Definition ex_verify (now : Z) (t : string) : verdict := TokenInvalid "none".
Definition ex_claims : payload := mk_payload (Some "7") (Some "user") [] (Some 1) (Some 901).

Lemma access_token_roundtrip_witness :
  let verify := verifyAccessToken ex_hmac (λ _, Some ex_claims) "s" in
  let token := issueAccessToken ex_hmac "h" (λ _, "c") "s" 1500 (mk_payload (Some "7") (Some "user") [] None None) in
  verify 901999 token = TokenValid ex_claims ∧ verify 902000 token = TokenInvalid "token expired".
Proof.
  split; (etransitivity; [apply (access_token_roundtrip ex_hmac "h" (λ _, "c") (λ _, Some ex_claims) "s" 1500);
    (reflexivity || (intros; reflexivity))|vm_compute; reflexivity]).
Defined.

Lemma access_token_authentic_witness :
  ∃ hd claims, "h.c.ab" = dot (dot hd claims) (ex_hmac "s" (dot hd claims)).
Proof.
  destruct (access_token_authentic ex_hmac (λ _, Some ex_claims) "s" 1500 "h.c.ab" ex_claims) as (hd & claims & Ht & _);
    [vm_compute; reflexivity|by exists hd, claims].
Defined.

Definition ex_req (nonce : option string) (ip : string) : req :=
  mk_req None (Some "raw") (Some ip) "POST" "/donations" "{}" (Some "1000") (Some "ab") nonce.
Definition ex_state : @st Memory.windows := mk_st ApiKeys.ex_st NonceStore.init [].
Definition ex_info : ApiKeys.key_info := ApiKeys.info_of 1000000 (ApiKeys.ex_key 1 "raw").

Lemma requireApiKey_gate_witness :
  passes (requireApiKey ex_sha ex_hmac ex_verify [] 60000 300000 10 1000000 (ex_req (Some "n") "10.0.0.1") empty_ctx ex_state).
Proof.
  apply (requireApiKey_gate ex_sha ex_hmac ex_verify [] 60000 300000 10 1000000 (ex_req (Some "n") "10.0.0.1") ex_state "raw" ex_info);
    try (vm_compute; reflexivity).
  split_and!; [vm_compute; reflexivity..|]. intros _. split; [vm_compute; reflexivity|].
  exists "n". split; vm_compute; reflexivity.
Defined.

Lemma nonce_unsigned_witness :
  let s' := (requireApiKey ex_sha ex_hmac ex_verify [] 60000 300000 10 1000000 (ex_req (Some "n") "10.0.0.1") empty_ctx ex_state).2 in
  passes (requireApiKey ex_sha ex_hmac ex_verify [] 60000 300000 10 1000000 (ex_req (Some "m") "10.0.0.1") empty_ctx s').
Proof.
  apply (nonce_unsigned ex_sha ex_hmac ex_verify [] 60000 300000 10 1000000 (ex_req (Some "n") "10.0.0.1") "m" ex_state "raw" ex_info);
    try (vm_compute; reflexivity). discriminate.
Defined.

Lemma quota_stale_witness :
  let info := ApiKeys.mk_info 1 "p" "k" "user" [] ApiKeys.ACTIVE false 0 [] 30 0 None false None None (Some 1) 0 None None None in
  let s : @st Memory.windows := mk_st (ApiKeys.mk_st [] 1 [("raw", (Some info, 2000000))]) NonceStore.init [] in
  passes (requireApiKey ex_sha ex_hmac ex_verify [] 60000 300000 10 1000000 (ex_req None "9.9.9.9") empty_ctx
    (Nat.iter 50 (trackQuotaUsage (mk_ctx (DbKey info) None) 200) s)).
Proof.
  intros info s. apply (quota_stale ex_sha ex_hmac ex_verify [] 60000 300000 10 1000000 (ex_req None "9.9.9.9") s "raw" info 2000000 50);
    (reflexivity || (vm_compute; discriminate)).
Defined.

Lemma protected_sound_witness :
  credential ex_sha ex_hmac ex_verify [] 60000 1000000 (ex_req None "9.9.9.9") ex_state.
Proof.
  apply (protected_sound ex_sha ex_hmac ex_verify [] 60000 300000 10 tt 1000000 (ex_req None "9.9.9.9") ex_state).
  vm_compute. reflexivity.
Defined.

(** The key demands signatures, from another address. *)
Lemma enforcement_bypassed_witness :
  passes (protected ex_sha ex_hmac ex_verify [] 60000 300000 10 tt 1000000 (ex_req None "9.9.9.9") ex_state) ∧
  ApiKeys.i_signingRequired ex_info = true ∧ ApiKeys.i_allowedIps ex_info = Some ["10.0.0.1"].
Proof.
  unfold passes. rewrite (enforcement_bypassed ex_sha ex_hmac ex_verify [] 60000 300000 10 tt 1000000 (ex_req None "9.9.9.9") ex_state "raw" ex_info);
    [split_and!; reflexivity|reflexivity|reflexivity|vm_compute; reflexivity].
Defined.

End Auth.
