(* ===== verification/Limits.v ===== *)
(** * Donation limits ([src/src/services/LimitService.js],
      [src/src/services/DonationVelocityService.js])

    The daily, monthly and per-transaction limits of a wallet, the sliding
    window of donations per donor, and the fixed windows per recipient, over
    the tables they read.  The amounts of [transactions] are integer stroops
    (migrations/021_amount_precision_stroops.js); the amounts a caller passes
    are XLM Numbers, as in the code.  Times are arguments. *)

From Stdlib Require Import SpecFloat.
From S2P Require Import Prelude JsString JsNumber JsDate Errors Windows.
Local Open Scope Z_scope.

Module Limits.

(** The columns of [users] the services read. *)
Record user := mk_user {
  publicKey : string;
  encryptedSecret : option string;
  daily_limit : option num;
  monthly_limit : option num;
  per_transaction_limit : option num;
  tier : option string;
}.
Record tx_row := mk_tx {
  t_id : Z;
  senderId : Z;
  receiverId : Z;
  t_amount : Z;                      (* stroops *)
  t_timestamp : Z;
  idempotencyKey : option string;    (* UNIQUE *)
  stellar_tx_id : option string;     (* UNIQUE *)
  t_deleted : bool;                  (* deleted_at IS NOT NULL *)
}.
Record rlimit := mk_rlimit { maxAmount : option num; maxCount : option Z; windowType : string }.

Record db := mk_db {
  users : gmap Z user;
  transactions : list tx_row;
  velocity_log : list (Z * Z);                      (* donor_id, created_at *)
  recipient_velocity_limits : gmap Z rlimit;
  donation_velocity : gmap (Z * Z * Z) (num * Z);   (* donor, recipient, windowStart *)
}.

Definition set_log (l : list (Z * Z)) (d : db) : db :=
  mk_db (users d) (transactions d) l (recipient_velocity_limits d) (donation_velocity d).

Definition sumZ (l : list Z) : Z := foldr Z.add 0 l.

(** ** LimitService *)

(** [date(timestamp) = date('now')] *)
Definition getDailyTotal (now userId : Z) (d : db) : num :=
  num_of_Z (sumZ (t_amount <$> filter (λ t, senderId t = userId ∧ Day (t_timestamp t) = Day now) (transactions d))).
Definition getMonthlyTotal (now userId : Z) (d : db) : num :=
  num_of_Z (sumZ (t_amount <$> filter (λ t, senderId t = userId ∧
    getUTCFullYear (t_timestamp t) = getUTCFullYear now ∧ getUTCMonth (t_timestamp t) = getUTCMonth now)
    (transactions d))).

Section limits.
(** [config.donations]: maxAmount, maxDailyPerDonor *)
Context (globalMax globalDailyMax : num).

Definition limit_error : jserror := BusinessLogicError (code_ref "INVALID_AMOUNT").

Definition dailyLimit (u : user) : option num :=
  match daily_limit u with
  | Some l => Some l
  | None => if num_gtb globalDailyMax num_zero then Some globalDailyMax else None
  end.

(** [total + amount > limit] *)
Definition exceeds (total amount : num) (limit : option num) : bool :=
  match limit with Some l => num_gtb (num_add total amount) l | None => false end.

Definition checkLimits (now userId : Z) (amount : num) (d : db) : outcome jserror unit :=
  match users d !! userId with
  | None => Ret ()
  | Some u =>
      let perTxLimit := default globalMax (per_transaction_limit u) in
      if num_gtb amount perTxLimit then Throw limit_error
      else if exceeds (getDailyTotal now userId d) amount (dailyLimit u) then Throw limit_error
      else if exceeds (getMonthlyTotal now userId d) amount (monthly_limit u) then Throw limit_error
      else Ret ()
  end.

Definition remaining (total : num) (limit : option num) : option num :=
  (λ l, num_max num_zero (num_sub l total)) <$> limit.

(** dailyRemaining, monthlyRemaining *)
Definition getRemainingLimits (now userId : Z) (d : db) : option num * option num :=
  match users d !! userId with
  | None => (None, None)
  | Some u => (remaining (getDailyTotal now userId d) (dailyLimit u),
               remaining (getMonthlyTotal now userId d) (monthly_limit u))
  end.

Definition setWalletLimits (userId : Z) (daily monthly per_tx : option num) (d : db) : db :=
  mk_db (alter (λ u, mk_user (publicKey u) (encryptedSecret u) daily monthly per_tx (tier u)) userId (users d))
    (transactions d) (velocity_log d) (recipient_velocity_limits d) (donation_velocity d).

End limits.

(** ** The sliding window per donor *)

Section velocity.
(** VELOCITY_WINDOW_SECONDS and the limits of the tiers *)
Context (windowSeconds VELOCITY_LIMIT_FREE VELOCITY_LIMIT_STANDARD VELOCITY_LIMIT_PREMIUM : Z).

Definition TIER_LIMITS (t : string) : option Z :=
  if bool_decide (t = "free") then Some VELOCITY_LIMIT_FREE
  else if bool_decide (t = "standard") then Some VELOCITY_LIMIT_STANDARD
  else if bool_decide (t = "premium") then Some VELOCITY_LIMIT_PREMIUM
  else None.

Definition _getDonorTier (donorId : Z) (d : db) : string :=
  match u ← users d !! donorId; tier u with
  | Some t => if TIER_LIMITS t is Some _ then t else "free"
  | None => "free"
  end.
Definition tier_limit (donorId : Z) (d : db) : Z :=
  default 0 (TIER_LIMITS (_getDonorTier donorId d)).

(** [VelocityLimitExceededError]: retryAfter, limit, window *)
Record velocity_error := mk_velocity_error { retryAfter : Z; ve_limit : Z; ve_window : Z }.
Definition VelocityLimitExceededError (e : velocity_error) : jserror :=
  EApp (AppError "VelocityLimitExceededError" (CStr "VELOCITY_LIMIT_EXCEEDED") 429).

Definition windowStart (nowMs : Z) : Z := nowMs - windowSeconds * 1000.
Definition ceil_div (a b : Z) : Z := - ((- a) / b).

Definition min_time (l : list Z) : option Z :=
  match l with [] => None | x :: l => Some (foldl Z.min x l) end.

Definition _retryAfterSeconds (donorId nowMs : Z) (d : db) : Z :=
  match min_time (filter (λ e : Z * Z, e.1 = donorId ∧ windowStart nowMs < e.2) (velocity_log d)).*2 with
  | None => 1
  | Some oldestMs => Z.max 1 (ceil_div (oldestMs + windowSeconds * 1000 - nowMs) 1000)
  end.

Definition entries (donorId : Z) (d : db) : list (Z * Z) :=
  filter (λ e : Z * Z, e.1 = donorId) (velocity_log d).

Definition checkSlidingVelocity (donorId nowMs : Z) : stx velocity_error db unit :=
  modify_st (λ d, set_log (filter (λ e : Z * Z, ¬ (e.1 = donorId ∧ e.2 <= windowStart nowMs)) (velocity_log d)) d);;
  d ← get_st;
  let currentCount := Z.of_nat (length (entries donorId d)) in
  let limit := tier_limit donorId d in
  if limit <=? currentCount
  then throw (mk_velocity_error (_retryAfterSeconds donorId nowMs d) limit windowSeconds)
  else mret ().

Definition recordSlidingDonation (donorId now : Z) (d : db) : db :=
  set_log (velocity_log d ++ [(donorId, now)]) d.

(** ** The fixed windows per recipient *)

Definition getUTCDay (t : Z) : Z := (Day t + 4) mod 7.
Definition MONTHLY_WINDOW_DAY : Z := 1.

Definition getWindowStart (wt : string) (now : Z) : Z :=
  let day := Day now in
  if bool_decide (wt = "monthly")
  then MakeDay (YearFromDay day) (MonthFromDay day) MONTHLY_WINDOW_DAY * msPerDay
  else if bool_decide (wt = "weekly") then
    let wd := getUTCDay (day * msPerDay) in
    let diff := if wd =? 0 then 6 else wd - 1 in
    MakeDay (YearFromDay day) (MonthFromDay day) (DateFromDay day - diff) * msPerDay
  else day * msPerDay.

Definition getWindowEnd (wt : string) (now : Z) : Z :=
  let start := getWindowStart wt now in
  if bool_decide (wt = "daily") then start + msPerDay
  else if bool_decide (wt = "weekly") then start + 7 * msPerDay
  else
    let day := Day start in
    MakeDay (YearFromDay day) (MonthFromDay day + 1) (DateFromDay day) * msPerDay + TimeWithinDay start.

Definition WINDOW_TYPES : list string := ["daily"; "weekly"; "monthly"].

Definition set_rlimits (m : gmap Z rlimit) (d : db) : db :=
  mk_db (users d) (transactions d) (velocity_log d) m (donation_velocity d).

Definition setLimits (recipientId : Z) (ma : option num) (mc : option Z) (wt : string) : stx jserror db unit :=
  d ← get_st;
  if bool_decide (wt ∉ WINDOW_TYPES) then throw (EPlain "Invalid windowType")
  else match users d !! recipientId with
       | None => throw (NotFoundError_with (code_ref "USER_NOT_FOUND"))
       | Some _ => put_st (set_rlimits (<[recipientId := mk_rlimit ma mc wt]> (recipient_velocity_limits d)) d)
       end.

Definition getLimits (recipientId : Z) (d : db) : option rlimit := recipient_velocity_limits d !! recipientId.

Definition velocity_exceeded : jserror := EApp (AppError "AppError" (CStr "VELOCITY_LIMIT_EXCEEDED") 429).

(** The per-recipient part of [checkVelocityLimits]. *)
Definition check_recipient (donorId recipientId : Z) (amount : num) (now : Z) (d : db) : outcome jserror unit :=
  match getLimits recipientId d with
  | None => Ret ()
  | Some limits =>
      let wt := if is_empty (windowType limits) then "daily" else windowType limits in
      let row := donation_velocity d !! (donorId, recipientId, getWindowStart wt now) in
      let '(currentTotal, currentCount) := default (num_zero, 0) row in
      if exceeds currentTotal amount (maxAmount limits) then Throw velocity_exceeded
      else if (match maxCount limits with Some m => m <? currentCount + 1 | None => false end)
      then Throw velocity_exceeded
      else Ret ()
  end.

Definition checkVelocityLimits (donorId recipientId : Z) (amount : num) (now : Z) : stx jserror db unit := λ d,
  match checkSlidingVelocity donorId now d with
  | (Throw e, d') => (Throw (VelocityLimitExceededError e), d')
  | (Ret _, d') => (check_recipient donorId recipientId amount now d', d')
  end.

Definition record_recipient (donorId recipientId : Z) (amount : num) (wt : string) (now : Z) (d : db) : db :=
  let wt := match getLimits recipientId d with
            | Some l => if is_empty (windowType l) then wt else windowType l
            | None => wt
            end in
  let key := (donorId, recipientId, getWindowStart wt now) in
  let row := match donation_velocity d !! key with
             | Some (total, count) => (num_add total amount, count + 1)
             | None => (amount, 1)
             end in
  mk_db (users d) (transactions d) (velocity_log d) (recipient_velocity_limits d)
    (<[key := row]> (donation_velocity d)).

Definition recordDonation (donorId recipientId : Z) (amount : num) (wt : string) (now : Z) (d : db) : db :=
  record_recipient donorId recipientId amount wt now (recordSlidingDonation donorId now d).

(** tier, count and limit of the sliding window; window, total and count of
    the fixed one *)
Definition getVelocityUsage (donorId recipientId now : Z) (d : db) : string * Z * Z * (string * Z * num * Z) :=
  let count := Z.of_nat (length (filter (λ e : Z * Z, e.1 = donorId ∧ windowStart now < e.2) (velocity_log d))) in
  let wt := match getLimits recipientId d with
            | Some l => if is_empty (windowType l) then "daily" else windowType l
            | None => "daily"
            end in
  let ws := getWindowStart wt now in
  let '(total, n) := default (num_zero, 0) (donation_velocity d !! (donorId, recipientId, ws)) in
  (_getDonorTier donorId d, count, tier_limit donorId d, (wt, ws, total, n)).

(** ** The sliding window: lemmas *)

(** The number of times in the window that ends at [t]. *)
#[local] Notation count_in := (Windows.count_in (windowSeconds * 1000)).

(** An attempt: the check at [at_check], the record at [at_record] when the
    donation is allowed. *)
Record attempt := mk_attempt { a_donor : Z; at_check : Z; at_record : Z }.
Definition donate (a : attempt) (d : db) : bool * db :=
  match checkSlidingVelocity (a_donor a) (at_check a) d with
  | (Ret _, d') => (true, recordSlidingDonation (a_donor a) (at_record a) d')
  | (Throw _, d') => (false, d')
  end.
(** A sequence of attempts, and the times at which the donor's were accepted. *)
Fixpoint run (donor : Z) (l : list attempt) (d : db) : list Z * db :=
  match l with
  | [] => ([], d)
  | a :: l =>
      let '(ok, d') := donate a d in
      let '(ts, d'') := run donor l d' in
      ((if ok && (a_donor a =? donor) then at_record a :: ts else ts), d'')
  end.
(** The clock: every attempt begins after the one before it ended. *)
Fixpoint clocked (now : Z) (l : list attempt) : Prop :=
  match l with
  | [] => True
  | a :: l => now <= at_check a ∧ at_check a <= at_record a ∧ clocked (at_record a) l
  end.

Lemma check_outcome donor now d :
  let d' := set_log (filter (λ e : Z * Z, ¬ (e.1 = donor ∧ e.2 <= windowStart now)) (velocity_log d)) d in
  (checkSlidingVelocity donor now d).2 = d' ∧
  is_ret (checkSlidingVelocity donor now d).1 = (Z.of_nat (length (entries donor d')) <? tier_limit donor d).
Proof.
  intros d'. unfold checkSlidingVelocity. stx_unfold. fold d'.
  change (tier_limit donor d') with (tier_limit donor d).
  rewrite Z.ltb_antisym. by destruct (_ <=? _).
Qed.

(** What a log knows of the accepted times [ts]: everything younger than the
    window is in it. *)
Definition knows (donor now : Z) (ts : list Z) (d : db) : Prop :=
  filter (λ a, windowStart now < a) (entries donor d).*2 = filter (λ a, windowStart now < a) ts.

Lemma knows_later donor now now' ts d : now <= now' → knows donor now ts d → knows donor now' ts d.
Proof.
  unfold knows. intros Hle Hk.
  assert (Hf : ∀ l : list Z, filter (λ a, windowStart now' < a) l =
                    filter (λ a, windowStart now' < a) (filter (λ a, windowStart now < a) l)).
  { intros l. rewrite list_filter_filter. apply list_filter_iff. unfold windowStart. intros. lia. }
  by rewrite Hf, Hk, <- Hf.
Qed.

Lemma entries_check donor donor' now d :
  (entries donor (set_log (filter (λ e : Z * Z, ¬ (e.1 = donor' ∧ e.2 <= windowStart now)) (velocity_log d)) d)).*2 =
  if donor' =? donor then filter (λ a, windowStart now < a) (entries donor d).*2 else (entries donor d).*2.
Proof.
  unfold entries. cbn [velocity_log set_log]. induction (velocity_log d) as [|[x t] l IH]; [by destruct (_ =? _)|].
  rewrite !filter_cons. cbn [fst snd]. destruct (Z.eqb_spec donor' donor) as [->|Hne];
    repeat (case_decide; rewrite ?filter_cons, ?fmap_cons; cbn [fst snd]); rewrite ?IH; try done; try lia;
    destruct_and?; try lia.
  all: rewrite filter_cons; case_decide; (done || lia).
Qed.

#[local] Notation bounded := (Windows.bounded (windowSeconds * 1000)).

(** One more donation is accepted. *)
Lemma bounded_accept limit donor now c r ts d :
  0 <= windowSeconds → now <= c → c <= r → bounded limit now ts → knows donor now ts d →
  Z.of_nat (length (filter (λ a, windowStart c < a) (entries donor d).*2)) < limit →
  bounded limit r (ts ++ [r]).
Proof.
  intros Hw Hc Hr Hb Hk Hlim. eapply Windows.sliding_accept; [lia| |exact Hr|exact Hb|]; [lia|].
  apply (knows_later _ _ _ _ _ Hc) in Hk. unfold knows in Hk. by rewrite Hk in Hlim.
Qed.

Lemma run_bounded donor l now ts d :
  0 <= windowSeconds → clocked now l → bounded (tier_limit donor d) now ts → knows donor now ts d →
  ∀ t, Z.of_nat (count_in t (ts ++ (run donor l d).1)) <= Z.max 0 (tier_limit donor d).
Proof.
  intros Hw. revert now ts d. induction l as [|[dn c r] l IH]; intros now ts d Hcl Hb Hk; cbn [run].
  { cbn. rewrite app_nil_r. by destruct Hb. }
  destruct Hcl as (Hc & Hr & Hcl). cbn in Hc, Hr, Hcl. unfold donate. cbn [a_donor at_check at_record].
  destruct (check_outcome dn c d) as [Hst Hres]. set (d1 := set_log _ d) in *.
  assert (Hk1 : knows donor c ts d1).
  { apply (knows_later _ _ _ _ _ Hc) in Hk. unfold knows in *. subst d1. rewrite entries_check.
    destruct (dn =? donor); [|done]. rewrite list_filter_filter, <- Hk. apply list_filter_iff. tauto. }
  destruct (checkSlidingVelocity dn c d) as [[[]|e] d2]; cbn [is_ret fst snd] in Hst, Hres; subst d2.
  - set (d2 := recordSlidingDonation dn r d1).
    assert (Hent : (entries donor d2).*2 = (entries donor d1).*2 ++ (if dn =? donor then [r] else [])).
    { unfold entries. cbn. rewrite filter_app, fmap_app. f_equal. rewrite filter_cons, filter_nil. cbn.
      destruct (Z.eqb_spec dn donor); by case_decide. }
    cbn [andb]. destruct (run donor l d2) as [us d3] eqn:Hrun.
    assert (Hus : us = (run donor l d2).1) by by rewrite Hrun.
    destruct (Z.eqb_spec dn donor) as [->|Hne]; cbn [fst]; subst us.
    + rewrite (assoc_L (++) ts [r] _ : ts ++ r :: _ = _). change (tier_limit donor d) with (tier_limit donor d2).
      apply (IH r); [done|..].
      * eapply (bounded_accept _ donor now c r ts d); [done..|]. symmetry in Hres. apply Z.ltb_lt in Hres.
        subst d1. rewrite <- (length_fmap snd (entries _ _)), entries_check, Z.eqb_refl in Hres. done.
      * unfold knows. rewrite Hent, !filter_app. f_equal. by apply (knows_later donor c r ts d1).
    + change (tier_limit donor d) with (tier_limit donor d2). apply (IH r); [done|..].
      * destruct Hb as [Hle Hb]. split; [|done]. eapply Forall_impl; [done|]. cbn. lia.
      * unfold knows. rewrite Hent, app_nil_r. by apply (knows_later donor c r ts d1).
  - cbn [andb]. destruct (run donor l d1) as [us d3] eqn:Hrun. cbn [fst].
    assert (Hus : us = (run donor l d1).1) by by rewrite Hrun. rewrite Hus.
    change (tier_limit donor d) with (tier_limit donor d1). apply (IH r); [done| |by apply (knows_later donor c r ts d1)].
    destruct Hb as [Hle Hb]. split; [|done]. eapply Forall_impl; [done|]. cbn. lia.
Qed.

(** ** Theorems *)

(** Whatever the donors of one process do, one after the other: in every
    interval of the length of the window at most the limit of the tier is
    accepted of a donor, wherever the interval lies. *)
Theorem sliding_window_bound donor l d now :
  0 <= windowSeconds → clocked now l → velocity_log d = [] →
  ∀ t, Z.of_nat (count_in t (run donor l d).1) <= Z.max 0 (tier_limit donor d).
Proof.
  intros Hw Hc Hl. apply (run_bounded donor l now [] d); [done|done|..].
  - split; [done|]. intros t. cbn. lia.
  - unfold knows, entries. by rewrite Hl.
Qed.

Lemma min_time_spec l m : min_time l = Some m → m ∈ l ∧ Forall (λ x, m <= x) l.
Proof.
  destruct l as [|x l]; [done|]. cbn. intros [= <-].
  assert (H : ∀ y, (foldl Z.min y l = y ∨ foldl Z.min y l ∈ l) ∧ foldl Z.min y l <= y ∧
                   Forall (λ z, foldl Z.min y l <= z) l).
  { induction l as [|z l IH]; intros y; cbn; [auto with lia|].
    destruct (IH (Z.min y z)) as (Hin & Hle & Hall). split_and!; [|lia|].
    - destruct Hin as [->|Hin]; [|right; by right]. destruct (Z.min_spec y z) as [[_ ->]|[_ ->]];
        [by left|right; by left].
    - constructor; [lia|done]. }
  destruct (H x) as (Hin & Hle & Hall). split; [|by constructor].
  destruct Hin as [->|Hin]; [by left|by right].
Qed.

Lemma is_ret_check donor now d :
  is_ret (checkSlidingVelocity donor now d).1 =
  (Z.of_nat (length (filter (λ a, windowStart now < a) (entries donor d).*2)) <? tier_limit donor d).
Proof.
  destruct (check_outcome donor now d) as [_ ->]. f_equal. f_equal.
  by rewrite <- (length_fmap snd (entries _ _)), entries_check, Z.eqb_refl.
Qed.

Lemma entries_times donor ws d :
  (filter (λ e : Z * Z, e.1 = donor ∧ ws < e.2) (velocity_log d)).*2 = filter (λ a, ws < a) (entries donor d).*2.
Proof.
  unfold entries. induction (velocity_log d) as [|[x t] l IH]; [done|].
  rewrite !filter_cons. cbn [fst snd]. repeat (case_decide; rewrite ?fmap_cons, ?filter_cons; cbn [fst snd]);
    rewrite ?IH; (done || tauto).
Qed.

(** A rejected donor is told exactly when to come back: before, every check
    fails; then, with nothing recorded between, it succeeds. *)
Theorem retry_after_precise donor now d e d' :
  checkSlidingVelocity donor now d = (Throw e, d') →
  0 < tier_limit donor d → Z.of_nat (length (entries donor d')) = tier_limit donor d →
  is_ret (checkSlidingVelocity donor (now + 1000 * retryAfter e) d').1 = true ∧
  ∀ t, now <= t <= now + 1000 * (retryAfter e - 1) → is_ret (checkSlidingVelocity donor t d').1 = false.
Proof.
  intros Hck Hlim Hlen. destruct (check_outcome donor now d) as [Hd' _]. rewrite Hck in Hd'. cbn [snd] in Hd'.
  assert (Htier : tier_limit donor d' = tier_limit donor d) by by rewrite Hd'.
  assert (He : e = mk_velocity_error (_retryAfterSeconds donor now d') (tier_limit donor d) windowSeconds).
  { revert Hck. unfold checkSlidingVelocity. stx_unfold. rewrite <- Hd', Htier. by case_match; intros [= <-]. }
  rewrite !is_ret_check, Htier. set (ts := (entries donor d').*2).
  assert (Hts : filter (λ a, windowStart now < a) ts = ts).
  { subst ts. rewrite Hd', entries_check, Z.eqb_refl, list_filter_filter. apply list_filter_iff. tauto. }
  assert (Hn : Z.of_nat (length ts) = tier_limit donor d) by by (subst ts; rewrite length_fmap).
  subst e. cbn [retryAfter]. unfold _retryAfterSeconds. rewrite entries_times. fold ts. rewrite Hts.
  destruct (min_time ts) as [o|] eqn:Ho; [|by destruct ts; [cbn in Hn; lia|]].
  apply min_time_spec in Ho as [Hin Hall].
  assert (Ho : windowStart now < o).
  { rewrite <- Hts in Hin. by apply list_elem_of_filter in Hin as [? _]. }
  unfold ceil_div. set (x := o + windowSeconds * 1000 - now). unfold windowStart in *.
  assert (Hx : 0 < x) by lia.
  assert (Hc : 1000 * (- (- x / 1000) - 1) < x <= 1000 * - (- x / 1000)) by (Z.div_mod_to_equations; lia).
  rewrite Z.max_r by lia. split.
  - apply Z.ltb_lt. rewrite <- Hn. apply inj_lt. apply (filter_lose _ ts o); [done|]. lia.
  - intros t Ht. rewrite is_ret_check, Htier. fold ts. unfold windowStart. apply Z.ltb_ge. rewrite <- Hn. apply inj_le.
    replace (filter _ ts) with ts; [done|]. symmetry. apply filter_all.
    eapply Forall_impl; [done|]. cbn. intros a Ha. lia.
Qed.

(** ** The fixed windows *)

Lemma Day_mul d : Day (d * msPerDay) = d.
Proof. unfold Day, msPerDay. apply Z.div_mul. lia. Qed.

Lemma window_days s t : s * msPerDay <= t ↔ s <= Day t.
Proof. unfold Day, msPerDay. split; intros; Z.div_mod_to_equations; lia. Qed.

Lemma MakeDay_MonthStart d :
  MakeDay (YearFromDay d) (MonthFromDay d) 1 <= d < MakeDay (YearFromDay d) (MonthFromDay d + 1) 1.
Proof.
  pose proof (MakeDay_of_day d 0) as Hd. rewrite Z.add_0_r in Hd. pose proof (DateFromDay_range d) as Hr.
  pose proof (proj1 (MonthFromDay_spec d)) as Hm.
  pose proof (MakeDay_last (YearFromDay d) (MonthFromDay d) Hm) as Hl.
  revert Hd Hl. unfold MakeDay. intros. lia.
Qed.

Lemma MakeDay_month_unique d e :
  MakeDay (YearFromDay d) (MonthFromDay d) 1 <= e < MakeDay (YearFromDay d) (MonthFromDay d + 1) 1 →
  YearFromDay e = YearFromDay d ∧ MonthFromDay e = MonthFromDay d.
Proof.
  intros He. pose proof (proj1 (MonthFromDay_spec d)) as Hm. set (y := YearFromDay d) in *. set (m := MonthFromDay d) in *.
  pose proof (MakeDay_last y m Hm) as Hl.
  set (dt := e - MakeDay y m 1 + 1).
  assert (Hdt : 1 <= dt <= days_in_month y m) by (subst dt; revert He Hl; unfold MakeDay; lia).
  destruct (MakeDay_fields y m dt Hm Hdt) as (Hy & Hmo & _).
  replace (MakeDay y m dt) with e in * by (subst dt; unfold MakeDay; lia). done.
Qed.

Lemma window_daily t :
  getWindowStart "daily" t = Day t * msPerDay ∧ getWindowEnd "daily" t = (Day t + 1) * msPerDay.
Proof. unfold getWindowEnd, getWindowStart. rewrite !bool_decide_false, bool_decide_true by done. split; lia. Qed.

Lemma window_weekly t :
  let monday := Day t - (Day t + 3) mod 7 in
  getWindowStart "weekly" t = monday * msPerDay ∧ getWindowEnd "weekly" t = (monday + 7) * msPerDay.
Proof.
  intros monday. unfold getWindowEnd, getWindowStart.
  rewrite !(bool_decide_false ("weekly" = "monthly")), !(bool_decide_false ("weekly" = "daily")),
    !(bool_decide_true ("weekly" = "weekly")) by done.
  unfold getUTCDay. rewrite Day_mul. set (wd := (Day t + 4) mod 7).
  assert (Hd : (if wd =? 0 then 6 else wd - 1) = (Day t + 3) mod 7).
  { subst wd. destruct (Z.eqb_spec ((Day t + 4) mod 7) 0); Z.div_mod_to_equations; lia. }
  rewrite Hd, <- Z.add_opp_r, MakeDay_of_day, Z.add_opp_r. fold monday. split; [done|].
  unfold msPerDay. lia.
Qed.

Lemma window_monthly t :
  getWindowStart "monthly" t = MakeDay (YearFromDay (Day t)) (MonthFromDay (Day t)) 1 * msPerDay ∧
  getWindowEnd "monthly" t = MakeDay (YearFromDay (Day t)) (MonthFromDay (Day t) + 1) 1 * msPerDay.
Proof.
  unfold getWindowEnd, getWindowStart.
  rewrite !(bool_decide_true ("monthly" = "monthly")), !(bool_decide_false ("monthly" = "weekly")),
    !(bool_decide_false ("monthly" = "daily")) by done.
  split; [done|]. unfold MONTHLY_WINDOW_DAY. rewrite Day_mul.
  set (y := YearFromDay (Day t)). set (m := MonthFromDay (Day t)).
  pose proof (proj1 (MonthFromDay_spec (Day t))) as Hm. fold m in Hm.
  pose proof (days_in_month_range y m Hm) as Hr.
  destruct (MakeDay_fields y m 1 Hm) as (-> & -> & ->); [lia|].
  pose proof (Day_of (MakeDay y m 1) 0) as Hd. rewrite Z.add_0_r in Hd.
  destruct Hd as [_ ->]; [by vm_compute|]. lia.
Qed.

(** The windows of each type partition time: a window contains the time it was
    asked for, and every time in it asks for the same window. *)
Theorem windows_partition wt now t :
  wt ∈ WINDOW_TYPES →
  getWindowStart wt now <= now < getWindowEnd wt now ∧
  (getWindowStart wt now <= t < getWindowEnd wt now → getWindowStart wt t = getWindowStart wt now).
Proof.
  assert (Hlt : ∀ s t, t < s * msPerDay ↔ Day t < s) by (intros s t'; pose proof (window_days s t'); lia).
  unfold WINDOW_TYPES. rewrite !elem_of_cons, elem_of_nil. intros [->|[->|[->|[]]]].
  - destruct (window_daily now) as [-> ->], (window_daily t) as [-> _].
    rewrite !window_days, !Hlt. split; [lia|]. intros. f_equal. lia.
  - destruct (window_weekly now) as [-> ->], (window_weekly t) as [-> _].
    rewrite !window_days, !Hlt. split; [Z.div_mod_to_equations; lia|].
    intros. f_equal. Z.div_mod_to_equations; lia.
  - destruct (window_monthly now) as [-> ->], (window_monthly t) as [-> _].
    rewrite !window_days, !Hlt. split; [apply MakeDay_MonthStart|].
    intros H. by destruct (MakeDay_month_unique _ _ H) as [-> ->].
Qed.

End velocity.

(** ** Witnesses *)

Definition alice : user := mk_user "GA" (Some "s") (Some (num_of_Z 100)) None None (Some "free").
Definition db0 : db := mk_db {[1 := alice]} [] [] ∅ ∅.

(** Two attempts within the hour, a limit of one: the second is rejected. *)
Definition attempts : list attempt := [mk_attempt 1 1000 2000; mk_attempt 1 5000 5000; mk_attempt 1 4000000 4000000].

Lemma sliding_window_bound_witness :
  (run 3600 1 20 100 1 attempts db0).1 = [2000; 4000000] ∧
  Z.of_nat (Windows.count_in (3600 * 1000) 5000 (run 3600 1 20 100 1 attempts db0).1) <= Z.max 0 (tier_limit 1 20 100 1 db0).
Proof.
  split; [by vm_compute|].
  apply (sliding_window_bound 3600 1 20 100 1 attempts db0 0); [lia| |done].
  unfold attempts; repeat split; cbn; lia.
Defined.

Lemma retry_after_precise_witness :
  let d := recordSlidingDonation 1 2000 db0 in
  retryAfter (match checkSlidingVelocity 3600 1 20 100 1 5500 d with
              | (Throw e, _) => e | _ => mk_velocity_error 0 0 0 end) = 3597 ∧
  is_ret (checkSlidingVelocity 3600 1 20 100 1 (5500 + 1000 * 3597) d).1 = true.
Proof.
  intros d. split; [by vm_compute|].
  apply (retry_after_precise 3600 1 20 100 1 5500 d (mk_velocity_error 3597 1 3600) d);
    [by vm_compute|by vm_compute|by vm_compute].
Defined.

Lemma windows_partition_witness :
  "monthly" ∈ WINDOW_TYPES ∧ getWindowStart "monthly" 1709208000000 = 1706745600000 ∧
  getWindowEnd "monthly" 1709208000000 = 1709251200000 ∧
  getWindowStart "monthly" 1706745600000 = getWindowStart "monthly" 1709208000000.
Proof.
  split_and!; [by apply (bool_decide_unpack _)|by vm_compute|by vm_compute|].
  apply (windows_partition "monthly" 1709208000000 1706745600000).
  - by apply (bool_decide_unpack _).
  - split; vm_compute; congruence.
Defined.

(** The daily limit is in XLM, the recorded total in stroops: with a limit of
    100 XLM and one XLM donated today, one more XLM is refused. *)
Definition one_donation : db :=
  mk_db {[1 := alice]} [mk_tx 1 1 2 10000000 5000 None None false] [] ∅ ∅.
Example daily_limit_in_stroops :
  checkLimits (num_of_Z 10000) num_zero 6000 1 (num_of_Z 1) db0 = Ret () ∧
  checkLimits (num_of_Z 10000) num_zero 6000 1 (num_of_Z 1) one_donation = Throw limit_error ∧
  getRemainingLimits num_zero 6000 1 one_donation = (Some num_zero, None).
Proof. vm_compute. auto. Qed.

End Limits.
