(* ===== verification/Matching.v ===== *)
(** * Matching programs ([src/src/services/MatchingProgramService.js])

    Sponsors match donations up to a total.  The tables [matching_programs]
    (in order of creation) and [matching_donations], the operations, and the
    matching of one donation as its read of the programs followed by its
    writes, so that overlapping donations can be stated.  The webhook of an
    exhausted program is left out. *)

From Stdlib Require Import SpecFloat.
From S2P Require Import Prelude JsString JsNumber Errors.
Local Open Scope Z_scope.

Module Matching.

Record program := mk_program {
  p_id : Z;
  sponsor_wallet_id : string;
  match_ratio : num;
  max_match_amount : num;
  remaining_match_amount : num;
  campaign_id : option Z;
  p_status : string;
}.
Record matching_donation := mk_md { md_id : Z; md_program : Z; md_donation : Z; matched_amount : num }.
Record st := mk_st { programs : list program; matches : list matching_donation; next_program : Z; next_match : Z }.

Definition set_programs (l : list program) (s : st) : st := mk_st l (matches s) (next_program s) (next_match s).

(** UPDATE matching_programs SET ... WHERE id = i *)
Definition update_program (i : Z) (f : program → program) (s : st) : st :=
  set_programs ((λ p, if p_id p =? i then f p else p) <$> programs s) s.
Definition with_remaining (r : num) (p : program) : program :=
  mk_program (p_id p) (sponsor_wallet_id p) (match_ratio p) (max_match_amount p) r (campaign_id p) (p_status p).
Definition with_status (x : string) (p : program) : program :=
  mk_program (p_id p) (sponsor_wallet_id p) (match_ratio p) (max_match_amount p) (remaining_match_amount p)
    (campaign_id p) x.

Definition find_program (i : Z) (s : st) : option program := find_first (λ p, p_id p =? i) (programs s).

(** [x.toFixed(d)] read back with [parseFloat] *)
Definition round_to (d : nat) (x : num) : num := parse_float (num_to_fixed d x).

(** A truthy campaign id. *)
Definition campaign_of (c : option Z) : option Z := match c with Some 0 => None | _ => c end.

(** [create]: [None] arguments are of another type. *)
Definition create (campaigns : Z → bool) (sponsor : option string) (ratio max : option num) (campaign : option Z)
    : stx jserror st program := λ s,
  match sponsor with
  | None | Some "" => (Throw ValidationError, s)
  | Some sponsor =>
      match ratio with
      | None => (Throw ValidationError, s)
      | Some r =>
          if num_leb r num_zero || num_gtb r (num_of_Z 10) then (Throw ValidationError, s) else
          match max with
          | None => (Throw ValidationError, s)
          | Some m =>
              if num_leb m num_zero then (Throw ValidationError, s)
              else if (match campaign_of campaign with Some c => negb (campaigns c) | None => false end)
              then (Throw (NotFoundError_with (code_ref "NOT_FOUND")), s)
              else
                let p := mk_program (next_program s) sponsor r m m (campaign_of campaign) "active" in
                (Ret p, mk_st (programs s ++ [p]) (matches s) (next_program s + 1) (next_match s))
          end
      end
  end.

Definition getById (i : Z) (s : st) : outcome jserror program :=
  match find_program i s with Some p => Ret p | None => Throw (NotFoundError_with (code_ref "NOT_FOUND")) end.

Definition getAll (status : option string) (campaign : option Z) (s : st) : list program :=
  filter (λ p, (match status with Some x => is_empty x || bool_decide (p_status p = x) | None => true end) &&
               (match campaign_of campaign with Some c => bool_decide (campaign_id p = Some c) | None => true end)
               = true)
    (reverse (programs s)).

Definition active (p : program) : bool :=
  bool_decide (p_status p = "active") && num_gtb (remaining_match_amount p) num_zero.
Definition getActiveForCampaign (campaign : option Z) (s : st) : list program :=
  match campaign_of campaign with
  | None => []
  | Some c => filter (λ p, active p = true ∧ campaign_id p = Some c) (programs s)
  end.
Definition getActiveGlobal (s : st) : list program :=
  filter (λ p, active p = true ∧ campaign_id p = None) (programs s).

Record donation := mk_donation { d_id : Z; d_amount : num; d_campaign : option Z }.

(** The programs a donation applies to, read before anything is written. *)
Definition applicable (d : donation) (s : st) : list program :=
  getActiveForCampaign (d_campaign d) s ++ getActiveGlobal s.

Definition markExhausted (i : Z) (s : st) : st := update_program i (with_status "exhausted") s.

(** The amount matched by a program as it was read, if any. *)
Definition match_amount (d : donation) (p : program) : option num :=
  if num_leb (remaining_match_amount p) num_zero then None
  else
    let rawMatchAmount := num_mul (d_amount d) (match_ratio p) in
    let matchAmount := num_min rawMatchAmount (remaining_match_amount p) in
    if num_leb matchAmount num_zero then None else Some (round_to 7 matchAmount).

(** One turn of the loop. *)
Definition match_program (d : donation) (p : program) (s : st) : option matching_donation * st :=
  match match_amount d p with
  | None => (None, s)
  | Some finalMatchAmount =>
      let newRemaining := round_to 7 (num_sub (remaining_match_amount p) finalMatchAmount) in
      let s := update_program (p_id p) (with_remaining newRemaining) s in
      let r := mk_md (next_match s) (p_id p) (d_id d) finalMatchAmount in
      let s := mk_st (programs s) (matches s ++ [r]) (next_program s) (next_match s + 1) in
      (Some r, if num_leb newRemaining num_zero then markExhausted (p_id p) s else s)
  end.

Fixpoint match_all (d : donation) (l : list program) (s : st) : list matching_donation * st :=
  match l with
  | [] => ([], s)
  | p :: l =>
      let '(r, s) := match_program d p s in
      let '(rs, s) := match_all d l s in
      (match r with Some x => x :: rs | None => rs end, s)
  end.

Definition processMatchingDonation (d : donation) (s : st) : list matching_donation * st :=
  match_all d (applicable d s) s.

Definition updateStatus (i : Z) (status : string) : stx jserror st program := λ s,
  if bool_decide (status ∉ ["active"; "paused"; "exhausted"]) then (Throw ValidationError, s)
  else match getById i s with
       | Throw e => (Throw e, s)
       | Ret p =>
           let s := update_program i (with_status status) s in
           (match find_program i s with Some p => Ret p | None => Ret p end, s)
       end.

(** total_matched, remaining, utilization_percentage, the donations *)
Definition getUtilization (i : Z) (s : st) : outcome jserror (num * num * num * list matching_donation) :=
  match getById i s with
  | Throw e => Throw e
  | Ret p =>
      let totalMatched := num_sub (max_match_amount p) (remaining_match_amount p) in
      Ret (round_to 7 totalMatched, remaining_match_amount p,
           round_to 2 (num_mul (num_div totalMatched (max_match_amount p)) (num_of_Z 100)),
           reverse (filter (λ m, md_program m = i) (matches s)))
  end.

(** ** Spent programs stay spent *)

(** The operations of the component. *)
Inductive op :=
| OCreate (campaigns : Z → bool) (sponsor : option string) (ratio max : option num) (campaign : option Z)
| OProcess (d : donation)
| OStatus (i : Z) (status : string).
Definition apply (o : op) (s : st) : st :=
  match o with
  | OCreate cs sp r m c => (create cs sp r m c s).2
  | OProcess d => (processMatchingDonation d s).2
  | OStatus i x => (updateStatus i x s).2
  end.

(** Identifiers are distinct and below the next one. *)
Record wf (s : st) : Prop := {
  wf_ids : NoDup (p_id <$> programs s);
  wf_next : Forall (λ p, p_id p < next_program s) (programs s);
}.

(** Program [i] has nothing left. *)
Definition spent (i : Z) (s : st) : Prop :=
  ∃ p, p ∈ programs s ∧ p_id p = i ∧ num_gtb (remaining_match_amount p) num_zero = false.
Definition matched_by (i : Z) (s : st) : list matching_donation := filter (λ m, md_program m = i) (matches s).

Lemma update_program_ids i f s : (∀ p, p_id (f p) = p_id p) → p_id <$> programs (update_program i f s) = p_id <$> programs s.
Proof.
  intros Hf. cbn. rewrite <- list_fmap_compose. apply list_fmap_ext. intros ? p _. cbn. case_match; auto.
Qed.

Lemma update_elem i f s p :
  p ∈ programs (update_program i f s) → ∃ q, q ∈ programs s ∧ p = if p_id q =? i then f q else q.
Proof. cbn. intros (q & -> & Hq)%list_elem_of_fmap. eauto. Qed.

Lemma update_program_wf i f s : (∀ p, p_id (f p) = p_id p) → wf s → wf (update_program i f s).
Proof.
  intros Hf [Hn Hl]. split; [by rewrite update_program_ids|].
  cbn. rewrite Forall_fmap. eapply Forall_impl; [done|]. intros p Hp. cbn. case_match; by rewrite ?Hf.
Qed.

(** A program read in a well-formed state is the one stored. *)
Lemma wf_unique s p q : wf s → p ∈ programs s → q ∈ programs s → p_id p = p_id q → p = q.
Proof. intros [Hn _]. by apply fmap_unique. Qed.

(** An update that touches neither [i] nor a remaining amount keeps [i] spent. *)
Lemma spent_update i j f s :
  (∀ p, p_id (f p) = p_id p) → (i = j → ∀ p, remaining_match_amount (f p) = remaining_match_amount p) →
  spent i s → spent i (update_program j f s).
Proof.
  intros Hid Hr (p & Hp & Hi & Hz). exists (if p_id p =? j then f p else p). split_and!.
  - cbn. apply list_elem_of_fmap. eauto.
  - case_match; by rewrite ?Hid.
  - destruct (Z.eqb_spec (p_id p) j) as [Hj|]; [|done]. by rewrite Hr by congruence.
Qed.

Lemma match_program_wf d p s : wf s → wf (match_program d p s).2.
Proof.
  intros Hw. unfold match_program. destruct match_amount as [f|]; [|done]. cbn [snd].
  assert (H1 : ∀ r, wf (update_program (p_id p) (with_remaining r) s)) by (intros; by apply update_program_wf).
  case_match; [apply update_program_wf; [done|]|]; destruct (H1 (round_to 7 (num_sub (remaining_match_amount p) f))); by split.
Qed.

(** A turn for another program. *)
Lemma match_program_other i d p s :
  p_id p ≠ i → spent i s →
  spent i (match_program d p s).2 ∧ matched_by i (match_program d p s).2 = matched_by i s.
Proof.
  intros Hne Hs. unfold match_program. destruct match_amount as [f|]; [|done]. cbn [snd].
  set (r := round_to 7 _).
  assert (H1 : spent i (update_program (p_id p) (with_remaining r) s)) by (by apply spent_update).
  assert (Hm : ∀ x, matched_by i (mk_st (programs (update_program (p_id p) (with_remaining r) s))
      (matches s ++ [mk_md x (p_id p) (d_id d) f]) (next_program s) (next_match s + 1)) = matched_by i s).
  { intros x. unfold matched_by. cbn. rewrite filter_app, filter_cons_False, filter_nil, app_nil_r; done. }
  case_match; split; try apply Hm; [apply spent_update; try done|]; destruct H1 as (q & ? & ?); by exists q.
Qed.

Lemma applicable_elem d s p : p ∈ applicable d s → p ∈ programs s ∧ num_gtb (remaining_match_amount p) num_zero = true.
Proof.
  unfold applicable, getActiveForCampaign, getActiveGlobal, active. intros [Hp|Hp]%elem_of_app.
  - destruct campaign_of; [|by apply elem_of_nil in Hp]. apply list_elem_of_filter in Hp as [[Ha _] Hp].
    apply andb_prop in Ha as [_ ?]. done.
  - apply list_elem_of_filter in Hp as [[Ha _] Hp]. apply andb_prop in Ha as [_ ?]. done.
Qed.

Lemma match_all_other i d l s :
  (∀ p, p ∈ l → p_id p ≠ i) → spent i s →
  spent i (match_all d l s).2 ∧ matched_by i (match_all d l s).2 = matched_by i s.
Proof.
  revert s. induction l as [|p l IH]; intros s Hl Hs; cbn [match_all]; [done|].
  destruct (match_program_other i d p s) as [Hs' Hm]; [apply Hl; by left|done|].
  destruct (match_program d p s) as [r s']. cbn in Hs', Hm.
  destruct (IH s') as [Hs2 Hm2]; [intros; apply Hl; by right|done|].
  destruct (match_all d l s') as [rs s2]. cbn in *. split; [done|congruence].
Qed.

Lemma match_all_wf d l s : wf s → wf (match_all d l s).2.
Proof.
  revert s. induction l as [|p l IH]; intros s Hw; cbn [match_all]; [done|].
  pose proof (match_program_wf d p s Hw) as H1. destruct (match_program d p s) as [r s']. cbn in H1.
  specialize (IH s' H1). by destruct (match_all d l s').
Qed.

Lemma create_cases cs sp r m c s :
  (create cs sp r m c s).2 = s ∨
  ∃ p, p_id p = next_program s ∧
       (create cs sp r m c s).2 = mk_st (programs s ++ [p]) (matches s) (next_program s + 1) (next_match s).
Proof. unfold create. repeat case_match; eauto; right; eexists; (split; [|done]); done. Qed.

Lemma apply_wf o s : wf s → wf (apply o s).
Proof.
  intros Hw. destruct o as [cs sp r m c|d|i x]; cbn [apply].
  - destruct (create_cases cs sp r m c s) as [->|(p & Hp & ->)]; [done|]. destruct Hw as [Hn Hl]. split; cbn.
    + rewrite fmap_app. apply NoDup_app. split_and!; [done| |apply NoDup_singleton].
      intros i (q & -> & Hq)%list_elem_of_fmap Hi%list_elem_of_singleton.
      rewrite Forall_forall in Hl. specialize (Hl q Hq). cbn in *. lia.
    + apply Forall_app. split; [eapply Forall_impl; [done|]; cbn; lia|repeat constructor; lia].
  - by apply match_all_wf.
  - unfold updateStatus. case_bool_decide; [done|]. destruct (getById i s); [|done]. by apply update_program_wf.
Qed.

Lemma apply_spent i o s : wf s → spent i s → spent i (apply o s) ∧ matched_by i (apply o s) = matched_by i s.
Proof.
  intros Hw Hs. destruct o as [cs sp r m c|d|j x]; cbn [apply].
  - destruct (create_cases cs sp r m c s) as [->|(q & Hq & ->)]; [done|]. split; [|done].
    destruct Hs as (p & Hp & ?). exists p. split; [by apply elem_of_app; left|done].
  - apply match_all_other; [|done]. intros p [Hp Hg]%applicable_elem Hi.
    destruct Hs as (q & Hq & Hqi & Hqz). assert (p = q) by (eapply wf_unique; eauto; congruence). congruence.
  - unfold updateStatus. case_bool_decide; [done|]. destruct (getById j s); [|done]. split; [|done].
    by apply spent_update.
Qed.

(** ** Theorems *)

(** A program whose balance is used up is never drawn on again, whatever is
    created, matched, paused or reactivated afterwards. *)
Theorem spent_program_final i os s :
  wf s → spent i s → matched_by i (foldl (λ s o, apply o s) s os) = matched_by i s.
Proof.
  revert s. induction os as [|o os IH]; intros s Hw Hs; cbn [foldl]; [done|].
  destruct (apply_spent i o s Hw Hs) as [Hs' <-]. apply IH; [by apply apply_wf|done].
Qed.

Definition p100 : program :=
  mk_program 1 "G" (num_of_Z 1) (num_of_Z 100) (num_of_Z 100) None "active".
Definition s100 : st := mk_st [p100] [] 2 1.
Definition d100 (i : Z) : donation := mk_donation i (num_of_Z 100) None.

Lemma spent_program_final_witness :
  matched_by 1 (processMatchingDonation (d100 7) s100).2 = [mk_md 1 1 7 (num_of_Z 100)] ∧
  matched_by 1 (foldl (λ s o, apply o s) (processMatchingDonation (d100 7) s100).2
    [OStatus 1 "active"; OProcess (d100 8)]) = [mk_md 1 1 7 (num_of_Z 100)].
Proof.
  assert (Hm : matched_by 1 (processMatchingDonation (d100 7) s100).2 = [mk_md 1 1 7 (num_of_Z 100)])
    by (vm_compute; reflexivity).
  split; [done|]. rewrite <- Hm. apply (spent_program_final 1).
  - assert (Hw : wf (apply (OProcess (d100 7)) s100))
      by (apply apply_wf; split; [apply NoDup_singleton|repeat constructor]).
    cbn [apply] in Hw. exact Hw.
  - exists (mk_program 1 "G" (num_of_Z 1) (num_of_Z 100) num_zero None "exhausted").
    split; [|split; [done|by vm_compute]].
    assert (Hp : programs (processMatchingDonation (d100 7) s100).2 =
      [mk_program 1 "G" (num_of_Z 1) (num_of_Z 100) num_zero None "exhausted"]) by (vm_compute; reflexivity).
    rewrite Hp. apply list_elem_of_here.
Defined.

(** Two overlapping donations read the program before either writes: both are
    matched in full, and the sponsor pays twice the maximum. *)
Example overlapping_matches_exceed_max :
  let s1 := (match_all (d100 7) (applicable (d100 7) s100) s100).2 in
  let s2 := (match_all (d100 8) (applicable (d100 8) s100) s1).2 in
  matched_amount <$> matched_by 1 s2 = [num_of_Z 100; num_of_Z 100].
Proof. vm_compute. reflexivity. Qed.

(** One turn on every branch: nothing without a positive match, otherwise one
    record, the balance less the matched amount, and the status. *)
Theorem match_program_spec d p s :
  match_program d p s =
    match match_amount d p with
    | None => (None, s)
    | Some a =>
        let left := round_to 7 (num_sub (remaining_match_amount p) a) in
        let r := mk_md (next_match s) (p_id p) (d_id d) a in
        (Some r, mk_st ((λ q, if p_id q =? p_id p
                              then mk_program (p_id q) (sponsor_wallet_id q) (match_ratio q) (max_match_amount q) left
                                     (campaign_id q) (if num_leb left num_zero then "exhausted" else p_status q)
                              else q) <$> programs s)
                   (matches s ++ [r]) (next_program s) (next_match s + 1))
    end.
Proof.
  unfold match_program. destruct match_amount as [a|]; [|done]. f_equal.
  destruct num_leb; unfold markExhausted, update_program, set_programs; cbn; f_equal.
  rewrite <- list_fmap_compose. apply list_fmap_ext. intros _ q _. cbn.
  destruct (p_id q =? p_id p) eqn:Hq; cbn; by rewrite Hq.
Qed.

End Matching.
