(* ===== verification/CorporateMatching.v ===== *)
(** * Corporate matching ([services/CorporateMatchingService.js])

    A sponsor doubles the donations of enrolled employees, up to an amount per
    employee and year and an amount in total.  A match is cut where the code
    awaits: the amount is decided from what was read, a database transaction
    books it, the network pays it, the donation is recorded in the store of
    [Transaction], and the row that links both is completed.  Calls that
    overlap are the steps of [turn].  Rows are created in order, and the clock
    of the database does not go back.  The table of users is an argument.  The
    file ends with the report of [routes/admin/corporateMatching.js] and a
    reader of its format. *)

From Stdlib Require Import SpecFloat Ascii.
From S2P Require Import Prelude JsString JsNumber JsMap Errors TransactionState Transaction Matching.
Local Open Scope Z_scope.

Module CorporateMatching.

Definition round7 : num → num := Matching.round_to 7.

(** ** The tables *)

Record program := mk_program {
  p_id : Z;
  sponsor_id : Z;
  match_ratio : num;
  per_employee_limit : num;
  total_limit : num;
  remaining_total_limit : num;
  p_status : string;
}.
Record enrollment := mk_enrollment { e_id : Z; e_program : Z; e_employee : Z }.
(** A row of [corporate_matching_donations] *)
Record link := mk_link {
  l_id : Z;
  l_program : Z;
  original_donation_id : string;
  matched_donation_id : option string;
  l_employee : Z;
  matched_amount : num;
  l_year : Z;
  l_status : string;
  stellar_tx_hash : option string;
  l_created_at : string;
}.
(** [employee_matching_history] is unique by program, employee and year. *)
Record db := mk_db {
  programs : list program;
  employees : list enrollment;
  history : gmap (Z * Z * Z) num;
  links : list link;
  next_program : Z;
  next_employee : Z;
  next_link : Z;
}.
Definition empty_db : db := mk_db [] [] ∅ [] 1 1 1.

Definition set_programs (l : list program) (s : db) : db :=
  mk_db l (employees s) (history s) (links s) (next_program s) (next_employee s) (next_link s).
Definition set_employees (l : list enrollment) (s : db) : db :=
  mk_db (programs s) l (history s) (links s) (next_program s) (next_employee s) (next_link s).
Definition set_links (l : list link) (s : db) : db :=
  mk_db (programs s) (employees s) (history s) l (next_program s) (next_employee s) (next_link s).

Definition with_remaining (r : num) (p : program) : program :=
  mk_program (p_id p) (sponsor_id p) (match_ratio p) (per_employee_limit p) (total_limit p) r (p_status p).
Definition with_status (x : string) (p : program) : program :=
  mk_program (p_id p) (sponsor_id p) (match_ratio p) (per_employee_limit p) (total_limit p)
    (remaining_total_limit p) x.
(** UPDATE corporate_matching SET ... WHERE id = i *)
Definition update_program (i : Z) (f : program → program) (s : db) : db :=
  set_programs ((λ p, if p_id p =? i then f p else p) <$> programs s) s.
Definition find_program (i : Z) (s : db) : option program := find_first (λ p, p_id p =? i) (programs s).

Record user := mk_user { publicKey : string; encryptedSecret : option string }.

Section service.
Context (users : Z → option user).

(** ** Programs and employees *)

(** A number that is none is bound as NULL, which the columns refuse.  An
    argument of another type is [None]. *)
Definition create (sponsor : option Z) (ratio per_employee total : option num) : stx jserror db program := λ s,
  match sponsor, ratio, per_employee, total with
  | Some sp, Some r, Some e, Some t =>
      if (sp <? 1) || num_leb r num_zero || num_gtb r (num_of_Z 10) || num_leb e num_zero || num_leb t num_zero
         || num_gtb e t
      then (Throw ValidationError, s)
      else if bool_decide (users sp = None) then (Throw (NotFoundError_with (code_ref "NOT_FOUND")), s)
      else if num_is_nan r || num_is_nan e || num_is_nan t then (Throw DatabaseError, s)
      else
        let p := mk_program (next_program s) sp r e t t "active" in
        (Ret p, mk_db (programs s ++ [p]) (employees s) (history s) (links s) (next_program s + 1) (next_employee s)
                  (next_link s))
  | _, _, _, _ => (Throw ValidationError, s)
  end.

Definition getById (i : Z) (s : db) : outcome jserror program :=
  match find_program i s with Some p => Ret p | None => Throw (NotFoundError_with (code_ref "NOT_FOUND")) end.

(** A filter that is not given holds. *)
Definition if_given {A} (f : option A) (p : A → bool) : bool := match f with Some x => p x | None => true end.

Definition getAll (status : option string) (sponsor : option Z) (s : db) : list program :=
  filter (λ p, if_given (Transaction.truthy_str status) (λ x, bool_decide (p_status p = x)) &&
               if_given (Transaction.truthy_Z sponsor) (λ i, sponsor_id p =? i) = true)
    (reverse (programs s)).

Definition updateStatus (i : Z) (status : string) : stx jserror db (option program) := λ s,
  if bool_decide (status ∉ ["active"; "paused"; "exhausted"]) then (Throw ValidationError, s)
  else match getById i s with
       | Throw e => (Throw e, s)
       | Ret _ => let s := update_program i (with_status status) s in (Ret (find_program i s), s)
       end.

Definition enrolled (p w : Z) (s : db) : option enrollment :=
  find_first (λ e, (e_program e =? p) && (e_employee e =? w)) (employees s).

(** INSERT OR IGNORE *)
Definition enrollEmployee (p : Z) (w : option Z) : stx jserror db (option enrollment) := λ s,
  match getById p s, w with
  | Throw e, _ => (Throw e, s)
  | Ret _, None => (Throw ValidationError, s)
  | Ret _, Some w =>
      if w <? 1 then (Throw ValidationError, s)
      else if bool_decide (users w = None) then (Throw (NotFoundError_with (code_ref "NOT_FOUND")), s)
      else
        let s := match enrolled p w s with
                 | Some _ => s
                 | None => mk_db (programs s) (employees s ++ [mk_enrollment (next_employee s) p w]) (history s)
                             (links s) (next_program s) (next_employee s + 1) (next_link s)
                 end in
        (Ret (enrolled p w s), s)
  end.

Definition unenrollEmployee (p w : Z) : stx jserror db () := λ s,
  match getById p s with
  | Throw e => (Throw e, s)
  | Ret _ => (Ret (), set_employees (filter (λ e, ¬ (e_program e = p ∧ e_employee e = w)) (employees s)) s)
  end.

(** With the public key of each *)
Definition getEnrolledEmployees (p : Z) (s : db) : outcome jserror (list (enrollment * string)) :=
  _ ← getById p s;
  Ret (omap (λ e, u ← users (e_employee e); Some (e, publicKey u))
         (filter (λ e, e_program e = p) (employees s))).

(** ** A match *)

Definition _getEmployeeYearlyMatched (p w year : Z) (s : db) : num := default num_zero (history s !! (p, w, year)).

(** The amount, from a row read earlier and the history read now. *)
Definition match_amount (p : program) (amount already : num) : option num :=
  let rawMatch := num_mul amount (match_ratio p) in
  let employeeRemaining := num_sub (per_employee_limit p) already in
  if num_leb employeeRemaining num_zero then None
  else
    let matchAmount := round7 (num_min (num_min rawMatch employeeRemaining) (remaining_total_limit p)) in
    if num_leb matchAmount num_zero then None else Some matchAmount.

(** What a call carries on when it has decided to match. *)
Record call := mk_call {
  c_program : program;
  c_donation : string;
  c_sender : Z;
  c_year : Z;
  c_amount : num;
  c_sponsor : user;
  c_employee : user;
}.

Definition plan (p : program) (donationId : string) (amount : num) (senderId year : Z) (s : db) : option call :=
  m ← match_amount p amount (_getEmployeeYearlyMatched (p_id p) senderId year s);
  sponsor ← users (sponsor_id p);
  employee ← users senderId;
  Some (mk_call p donationId senderId year m sponsor employee).

Definition add_history (k : Z * Z * Z) (m : num) (h : gmap (Z * Z * Z) num) : gmap (Z * Z * Z) num :=
  <[k := match h !! k with Some x => num_add x m | None => m end]> h.

Definition new_link (created : string) (i : Z) (c : call) : link :=
  mk_link i (p_id (c_program c)) (c_donation c) None (c_sender c) (c_amount c) (c_year c) "pending" None created.

(** The database transaction: one step, kept whole or undone ([DbPool]). *)
Definition commit (created : string) (c : call) : stx jserror db Z := λ s,
  let i := p_id (c_program c) in
  let matchAmount := c_amount c in
  match find_program i s with
  | None => (Throw ValidationError, s)
  | Some fresh =>
      if num_ltb (remaining_total_limit fresh) matchAmount then (Throw ValidationError, s)
      else
        let newRemaining := round7 (num_sub (remaining_total_limit fresh) matchAmount) in
        if num_is_nan newRemaining || num_is_nan matchAmount then (Throw DatabaseError, s)
        else
          let s := update_program i (with_remaining newRemaining) s in
          let linkRowId := next_link s in
          let s := mk_db (programs s) (employees s) (add_history (i, c_sender c, c_year c) matchAmount (history s))
                     (links s ++ [new_link created linkRowId c]) (next_program s) (next_employee s) (linkRowId + 1) in
          (Ret linkRowId,
           if num_leb newRemaining num_zero then update_program i (with_status "exhausted") s else s)
  end.

(** The payments asked of the network, each with the row it belongs to. *)
Record payment := mk_payment { pay_link : Z; pay_secret : string; pay_to : string; pay_amount : num; pay_memo : string }.
Record st := mk_st { base : db; txs : Transaction.st; payments : list payment }.
Definition M := stx jserror st.

Definition on_db {A} (m : stx jserror db A) : M A := λ s,
  let '(x, d) := m (base s) in (x, mk_st d (txs s) (payments s)).
Definition on_txs {A} (m : Transaction.M A) : M A := λ s,
  let '(x, t) := m (txs s) in (x, mk_st (base s) t (payments s)).

Definition match_memo (donationId : string) : string := "Corporate match for donation " +:+ donationId.

(** [(originalTx && originalTx.recipient) || employee.publicKey] *)
Definition recipient_of (c : call) (t : Transaction.st) : string :=
  default (publicKey (c_employee c))
    (o ← Transaction.getById t (c_donation c); Transaction.truthy_str (Transaction.recipient (Transaction.tx o))).

(** The payment asked for, if the sponsor has a secret. *)
Definition payment_of (c : call) (linkRowId : Z) (recipientPublic : string) : option payment :=
  secret ← Transaction.truthy_str (encryptedSecret (c_sponsor c));
  to ← Transaction.truthy_str (Some recipientPublic);
  Some (mk_payment linkRowId secret to (c_amount c) (match_memo (c_donation c))).

Definition send (c : call) (linkRowId : Z) (recipientPublic : string) (s : st) : st :=
  match payment_of c linkRowId recipientPublic with
  | Some p => mk_st (base s) (txs s) (payments s ++ [p])
  | None => s
  end.

(** [stellarResult]: nothing when no payment was asked for or it failed, else
    the hash it names, if any. *)
Definition stellar_result (asked : bool) (answer : outcome jserror (option string)) : option (option string) :=
  if asked then match answer with Ret h => Some (Transaction.truthy_str h) | Throw _ => None end else None.

Definition matched_data (c : call) (recipientPublic : string) (r : option (option string)) : Transaction.tx_data :=
  Transaction.mk_data None (c_amount c) (Some (publicKey (c_sponsor c))) (Some recipientPublic) (Some (match_memo (c_donation c))) None []
    None None (Some (match r with Some _ => TransactionState.CONFIRMED | None => TransactionState.PENDING end)) (mjoin r) None None None None 0
    None None None None None None (Some (c_donation c)).

(** The matched donation is stored, and the original one points to it. *)
Definition record_match (now : Z) (uuid : string) (c : call) (recipientPublic : string) (r : option (option string))
  : M string :=
  o ← on_txs (Transaction.create now uuid (matched_data c recipientPublic r));
  let i := Transaction.id (Transaction.tx o) in
  try_catch (on_txs (Transaction.updateMatchedDonationId (c_donation c) (Some i));; mret ()) (λ _, mret ());;
  mret i.

Definition complete_link (matched : string) (hash : option string) (l : link) : link :=
  mk_link (l_id l) (l_program l) (original_donation_id l) (Some matched) (l_employee l) (matched_amount l) (l_year l)
    "completed" hash (l_created_at l).
Definition finish_link (i : Z) (matched : string) (hash : option string) (s : db) : db :=
  set_links ((λ l, if l_id l =? i then complete_link matched hash l else l) <$> links s) s.

Record result := mk_result {
  r_program : Z;
  r_donation : string;
  r_matched : string;
  r_amount : num;
  r_sponsor : Z;
  r_employee : Z;
  r_hash : option string;
}.

(** What a call meets: the clocks, the identifier it draws, the answer of the
    network, whether its last statement works. *)
Record env := mk_env {
  v_year : Z;
  v_created : string;
  v_now : Z;
  v_uuid : string;
  v_answer : outcome jserror (option string);
  v_link_ok : bool;
}.

(** From the end of the transaction to the end of the call *)
Definition pay_and_record (v : env) (c : call) (linkRowId : Z) : M result :=
  s ← get_st;
  let recipientPublic := recipient_of c (txs s) in
  modify_st (send c linkRowId recipientPublic);;
  let r := stellar_result (bool_decide (is_Some (payment_of c linkRowId recipientPublic))) (v_answer v) in
  matchedId ← record_match (v_now v) (v_uuid v) c recipientPublic r;
  (if v_link_ok v then modify_st (λ s, mk_st (finish_link linkRowId matchedId (mjoin r) (base s)) (txs s) (payments s))
   else mret ());;
  mret (mk_result (p_id (c_program c)) (c_donation c) matchedId (c_amount c) (sponsor_id (c_program c)) (c_sender c)
          (mjoin r)).

(** A call nothing interleaves with. *)
Definition _matchSingleProgram (v : env) (p : program) (donationId : string) (amount : num) (senderId : Z)
  : M (option result) :=
  s ← get_st;
  match plan p donationId amount senderId (v_year v) (base s) with
  | None => mret None
  | Some c =>
      linkRowId ← on_db (commit (v_created v) c);
      r ← pay_and_record v c linkRowId;
      mret (Some r)
  end.

Definition applicable (senderId : Z) (s : db) : list program :=
  filter (λ p, is_Some (enrolled (p_id p) senderId s) ∧ p_status p = "active" ∧
               num_gtb (remaining_total_limit p) num_zero = true) (programs s).

Fixpoint match_all (v : Z → env) (donationId : string) (amount : num) (senderId : Z) (l : list program) (s : st)
  : list result * st :=
  match l with
  | [] => ([], s)
  | p :: l =>
      let '(r, s) := _matchSingleProgram (v (p_id p)) p donationId amount senderId s in
      let '(rs, s) := match_all v donationId amount senderId l s in
      (match r with Ret (Some x) => x :: rs | _ => rs end, s)
  end.

Definition processCorporateMatching (v : Z → env) (donationId : string) (amount : num) (senderId : Z) (s : st)
  : list result * st :=
  if is_empty donationId || negb (num_gtb amount num_zero) || (senderId =? 0) then ([], s)
  else match_all v donationId amount senderId (applicable senderId (base s)) s.

(** ** Reports *)

(** Texts compare as text: [created_at] is a date, a space and a time. *)
Definition in_range (from to : option string) (x : string) : bool :=
  if_given (Transaction.truthy_str from) (λ a, negb (str_ltb x a)) &&
  if_given (Transaction.truthy_str to) (λ b, negb (str_ltb b x)).

Definition getMatchingActivity (programId sponsor : option Z) (from to : option string) (s : db)
  : list (link * program) :=
  omap (λ l, p ← find_program (l_program l) s;
             if if_given (Transaction.truthy_Z programId) (λ i, l_program l =? i) &&
                if_given (Transaction.truthy_Z sponsor) (λ i, sponsor_id p =? i) &&
                in_range from to (l_created_at l)
             then Some (l, p) else None)
    (reverse (links s)).

(** The program, the total matched, the percentage used, the count *)
Definition getUtilization (i : Z) (s : db) : outcome jserror (program * num * num * nat) :=
  p ← getById i s;
  let totalMatched := round7 (num_sub (total_limit p) (remaining_total_limit p)) in
  Ret (p, totalMatched, Matching.round_to 2 (num_mul (num_div totalMatched (total_limit p)) (num_of_Z 100)),
       length (getMatchingActivity (Some i) None None None s)).

(** ** Calls that overlap *)

Inductive task :=
| TCommit (c : call)
| TSend (c : call) (linkRowId : Z)
| TRecord (c : call) (linkRowId : Z) (recipientPublic : string)
| TLink (linkRowId : Z) (matched : string) (hash : option string).

(** The operations on programs and employees. *)
Inductive admin : db → db → Prop :=
| a_create sp r e t s : admin s (create sp r e t s).2
| a_status i x s : admin s (updateStatus i x s).2
| a_enroll p w s : admin s (enrollEmployee p w s).2
| a_unenroll p w s : admin s (unenrollEmployee p w s).2.

Definition config : Type := st * list task.

(** One turn.  The row [p] was read at any earlier time; other components
    change the store of transactions. *)
Inductive turn : config → config → Prop :=
| t_plan p i a w y c s l : plan p i a w y (base s) = Some c → turn (s, l) (s, TCommit c :: l)
| t_commit created c s d k l1 l2 :
    commit created c (base s) = (Ret k, d) →
    turn (s, l1 ++ TCommit c :: l2) (mk_st d (txs s) (payments s), l1 ++ TSend c k :: l2)
| t_refused created c s e d l1 l2 :
    commit created c (base s) = (Throw e, d) →
    turn (s, l1 ++ TCommit c :: l2) (mk_st d (txs s) (payments s), l1 ++ l2)
| t_send c k s l1 l2 :
    let to := recipient_of c (txs s) in
    turn (s, l1 ++ TSend c k :: l2) (send c k to s, l1 ++ TRecord c k to :: l2)
| t_record now uuid a c k to i s s' l1 l2 :
    let r := stellar_result (bool_decide (is_Some (payment_of c k to))) a in
    record_match now uuid c to r s = (Ret i, s') →
    turn (s, l1 ++ TRecord c k to :: l2) (s', l1 ++ TLink k i (mjoin r) :: l2)
| t_unrecorded now uuid a c k to e s s' l1 l2 :
    let r := stellar_result (bool_decide (is_Some (payment_of c k to))) a in
    record_match now uuid c to r s = (Throw e, s') →
    turn (s, l1 ++ TRecord c k to :: l2) (s', l1 ++ l2)
| t_link (ok : bool) k i h s l1 l2 :
    turn (s, l1 ++ TLink k i h :: l2)
      ((if ok then mk_st (finish_link k i h (base s)) (txs s) (payments s) else s), l1 ++ l2)
| t_admin d s l : admin (base s) d → turn (s, l) (mk_st d (txs s) (payments s), l)
| t_txs t s l : turn (s, l) (mk_st (base s) t (payments s), l).

(** ** What the books say *)

(** The amounts of the rows of program [i], and of one employee and year. *)
Definition amounts (i : Z) (s : db) : list num := matched_amount <$> filter (λ l, l_program l = i) (links s).
Definition key_of (l : link) : Z * Z * Z := (l_program l, l_employee l, l_year l).
Definition amounts_of (k : Z * Z * Z) (s : db) : list num := matched_amount <$> filter (λ l, key_of l = k) (links s).

(** [covers total ms rest]: the matches [ms] were taken from [total] one after
    the other, each not above what was left, and [rest] is left. *)
Inductive covers (total : num) : list num → num → Prop :=
| covers_nil : covers total [] total
| covers_snoc ms r m :
    covers total ms r → num_ltb r m = false → num_leb m num_zero = false →
    covers total (ms ++ [m]) (round7 (num_sub r m)).

(** The sum as the table keeps it. *)
Definition sum_from (x : option num) (ms : list num) : option num :=
  foldl (λ x m, Some (match x with Some y => num_add y m | None => m end)) x ms.
Definition sum_of : list num → option num := sum_from None.

(** Rows that will still be paid. *)
Definition owed (l : list task) : list (Z * call) := omap (λ t, match t with TSend c k => Some (k, c) | _ => None end) l.

#[local] Arguments owed : simpl never.
#[local] Arguments match_memo : simpl never.

(** The row [k] books what the call [c] decided. *)
Definition booked (s : db) (k : Z) (donation : string) (amount : num) : Prop :=
  ∃ l, l ∈ links s ∧ l_id l = k ∧ matched_amount l = amount ∧ original_donation_id l = donation.

Record ledger (d : db) : Prop := {
  lg_ids : NoDup (p_id <$> programs d);
  lg_next : Forall (λ p, p_id p < next_program d) (programs d);
  lg_link_ids : NoDup (l_id <$> links d);
  lg_links : Forall (λ l, l_id l < next_link d ∧ l_program l < next_program d) (links d);
  lg_counters : Forall (λ p, covers (total_limit p) (amounts (p_id p) d) (remaining_total_limit p)) (programs d);
  lg_history : ∀ k, history d !! k = sum_of (amounts_of k d);
}.

Record books (cf : config) : Prop := {
  bk_ledger : ledger (base cf.1);
  bk_positive : ∀ c, TCommit c ∈ cf.2 → num_leb (c_amount c) num_zero = false;
  bk_once : NoDup ((pay_link <$> payments cf.1) ++ (owed cf.2).*1);
  bk_owed : Forall (λ o, booked (base cf.1) o.1 (c_donation o.2) (c_amount o.2)) (owed cf.2);
  bk_paid : Forall (λ p, ∃ i, pay_memo p = match_memo i ∧
                              booked (base cf.1) (pay_link p) i (pay_amount p)) (payments cf.1);
}.

(** *** The ledger *)

Lemma update_twice i f g s : (∀ p, p_id (f p) = p_id p) →
  update_program i g (update_program i f s) = update_program i (λ p, g (f p)) s.
Proof.
  intros Hf. unfold update_program, set_programs. cbn. f_equal. rewrite <- list_fmap_compose.
  apply list_fmap_ext. intros ? p _. cbn. destruct (p_id p =? i) eqn:Hp; [by rewrite Hf, Hp|by rewrite Hp].
Qed.

(** What a committed transaction did: the row of the program is [q]. *)
Lemma commit_Ret created c d k d' :
  commit created c d = (Ret k, d') →
  ∃ q f, find_program (p_id (c_program c)) d = Some q ∧ num_ltb (remaining_total_limit q) (c_amount c) = false ∧
    num_is_nan (c_amount c) = false ∧
    k = next_link d ∧
    d' = mk_db (programs (update_program (p_id (c_program c)) f d)) (employees d)
           (add_history (p_id (c_program c), c_sender c, c_year c) (c_amount c) (history d))
           (links d ++ [new_link created k c]) (next_program d) (next_employee d) (k + 1) ∧
    ∀ p, p_id (f p) = p_id p ∧ total_limit (f p) = total_limit p ∧
         remaining_total_limit (f p) = round7 (num_sub (remaining_total_limit q) (c_amount c)) ∧
         per_employee_limit (f p) = per_employee_limit p.
Proof.
  unfold commit. destruct (find_program _ d) as [q|]; [|done].
  destruct (num_ltb _ _) eqn:Hlt; [done|]. destruct (num_is_nan (round7 _)); [done|].
  destruct (num_is_nan (c_amount c)) eqn:Hn; [done|]. cbn [orb].
  set (r := round7 _). intros Heq.
  exists q, (λ p, if num_leb r num_zero then with_status "exhausted" (with_remaining r p) else with_remaining r p).
  destruct (num_leb r num_zero).
  - injection Heq as <- <-. split_and!; try done.
    unfold update_program, set_programs. cbn. f_equal. rewrite <- list_fmap_compose. apply list_fmap_ext. intros ? p _. cbn.
    destruct (p_id p =? _) eqn:Hp; cbn; by rewrite Hp.
  - injection Heq as <- <-. by split_and!.
Qed.

Lemma commit_Throw created c d e d' : commit created c d = (Throw e, d') → d' = d.
Proof. unfold commit. intros. split_cases; done. Qed.

(** A program read in the ledger is the stored one. *)
Lemma find_program_unique d q p :
  ledger d → find_program (p_id p) d = Some q → p ∈ programs d → p = q.
Proof.
  intros Hl [Hq He%Z.eqb_eq]%find_first_Some Hp. eapply (fmap_unique p_id); [apply Hl|done|done|done].
Qed.

Lemma sum_of_snoc ms m : sum_of (ms ++ [m]) = Some (match sum_of ms with Some y => num_add y m | None => m end).
Proof. unfold sum_of, sum_from. by rewrite foldl_app. Qed.

Lemma commit_ledger created c d k d' :
  num_leb (c_amount c) num_zero = false → commit created c d = (Ret k, d') → ledger d → ledger d'.
Proof.
  intros Hm Hc Hl. destruct (commit_Ret _ _ _ _ _ Hc) as (q & f & Hq & Hle & _ & -> & -> & Hf). clear Hc.
  set (i := p_id (c_program c)) in *. pose proof (find_first_Some _ _ _ Hq) as [Hqin Hqi%Z.eqb_eq].
  destruct Hl as [H1 H2 H3 H4 H5 H6]. split; cbn.
  - rewrite <- list_fmap_compose. erewrite list_fmap_ext; [exact H1|]. intros ? p _. cbn. case_match; [apply Hf|done].
  - rewrite Forall_fmap. eapply Forall_impl; [exact H2|]. intros p Hp. cbn. case_match; [|done]. by rewrite (proj1 (Hf p)).
  - rewrite fmap_app. apply NoDup_app. split_and!; [done| |apply NoDup_singleton].
    intros x (l & -> & Hin)%list_elem_of_fmap Hx%list_elem_of_singleton. cbn in Hx.
    rewrite Forall_forall in H4. specialize (H4 l Hin). lia.
  - apply Forall_app. split; [eapply Forall_impl; [exact H4|]; cbn; lia|]. repeat constructor; cbn; [lia|].
    rewrite Forall_forall in H2. specialize (H2 q Hqin). unfold i in *. lia.
  - rewrite Forall_fmap. rewrite Forall_forall in H5. apply Forall_forall. intros p Hp. cbn.
    destruct (Z.eqb_spec (p_id p) i) as [Hpi|Hpi].
    + assert (p = q) as -> by (eapply (fmap_unique p_id); [done..|congruence]).
      destruct (Hf q) as (-> & -> & -> & _). unfold amounts. cbn. rewrite filter_app, filter_cons_True, filter_nil, fmap_app by done.
      apply covers_snoc; [|done|done]. by apply H5.
    + unfold amounts. cbn. rewrite filter_app, filter_cons_False, filter_nil, app_nil_r by (cbn; fold i; congruence). by apply H5.
  - intros x. unfold add_history, amounts_of. cbn. rewrite filter_app, fmap_app.
    destruct (decide (x = (i, c_sender c, c_year c))) as [->|Hx].
    + rewrite lookup_insert_eq, filter_cons_True, filter_nil by done. cbn. by rewrite sum_of_snoc, H6.
    + rewrite lookup_insert_ne by done. rewrite filter_cons_False, filter_nil, app_nil_r by (unfold key_of; cbn; fold i; congruence). apply H6.
Qed.

(** Changing a row that keeps its numbers. *)
Lemma update_ledger i f d :
  (∀ p, p_id (f p) = p_id p ∧ total_limit (f p) = total_limit p ∧ remaining_total_limit (f p) = remaining_total_limit p) →
  ledger d → ledger (update_program i f d).
Proof.
  intros Hf [H1 H2 H3 H4 H5 H6]. split; cbn; try done.
  - rewrite <- list_fmap_compose. erewrite list_fmap_ext; [exact H1|]. intros ? p _. cbn. case_match; [apply Hf|done].
  - rewrite Forall_fmap. eapply Forall_impl; [exact H2|]. intros p Hp. cbn. case_match; [|done]. by rewrite (proj1 (Hf p)).
  - rewrite Forall_fmap. eapply Forall_impl; [exact H5|]. intros p Hp. cbn. case_match; [|done].
    by destruct (Hf p) as (-> & -> & ->).
Qed.

Lemma admin_ledger d d' : admin d d' → ledger d → ledger d'.
Proof.
  intros [sp r e t s|i x s|p w s|p w s] Hl.
  - unfold create. destruct sp as [sp|], r as [r|], e as [e|], t as [t|]; try done. repeat (case_match; [done|]). cbn.
    destruct Hl as [L1 L2 L3 L4 L5 L6]. split; cbn; try done.
    + rewrite fmap_app. apply NoDup_app. split_and!; [done| |apply NoDup_singleton].
      intros x (p & -> & Hp)%list_elem_of_fmap Hx%list_elem_of_singleton. cbn in Hx.
      rewrite Forall_forall in L2. specialize (L2 p Hp). lia.
    + apply Forall_app. split; [eapply Forall_impl; [exact L2|]; cbn; lia|]. repeat constructor; cbn; lia.
    + eapply Forall_impl; [exact L4|]. cbn. lia.
    + apply Forall_app. split; [done|]. repeat constructor. cbn. unfold amounts. cbn.
      rewrite filter_none; [constructor|]. eapply Forall_impl; [exact L4|]. cbn. lia.
  - unfold updateStatus. case_match; [done|]. case_match; [|done]. by apply update_ledger.
  - unfold enrollEmployee. destruct (getById p s), w; try done. do 2 (case_match; [done|]). cbn.
    destruct (enrolled p _ s); [done|]. destruct Hl. by split.
  - unfold unenrollEmployee. destruct (getById p s); [|done]. destruct Hl. by split.
Qed.

Lemma filter_map_links (P : link → Prop) `{∀ l, Decision (P l)} k i h (ls : list link) :
  (∀ l, P (complete_link i h l) ↔ P l) →
  matched_amount <$> filter P ((λ l, if l_id l =? k then complete_link i h l else l) <$> ls) =
  matched_amount <$> filter P ls.
Proof.
  intros HP. induction ls as [|l ls IH]; [done|]. cbn [fmap list_fmap]. rewrite !filter_cons.
  destruct (l_id l =? k); [|case_decide; cbn; by rewrite IH].
  repeat case_decide; cbn; try (rewrite IH; done); exfalso; specialize (HP l); tauto.
Qed.

Lemma finish_link_ledger k i h d : ledger d → ledger (finish_link k i h d).
Proof.
  intros [H1 H2 H3 H4 H5 H6]. split; cbn; try done.
  - rewrite <- list_fmap_compose. erewrite list_fmap_ext; [exact H3|]. intros ? p _. cbn. by case_match.
  - rewrite Forall_fmap. eapply Forall_impl; [exact H4|]. intros l Hp. cbn. by case_match.
  - eapply Forall_impl; [exact H5|]. intros p. cbn. unfold amounts. cbn. by rewrite filter_map_links by done.
  - intros x. unfold amounts_of. cbn. rewrite filter_map_links by done. apply H6.
Qed.

(** *** Bookings and payments *)

Lemma finish_link_booked k i h d x don a : booked d x don a → booked (finish_link k i h d) x don a.
Proof.
  intros (l & Hl & <- & <- & <-). exists (if l_id l =? k then complete_link i h l else l).
  split; [|by case_match]. cbn. apply list_elem_of_fmap. eauto.
Qed.

Lemma admin_links d d' : admin d d' → links d' = links d.
Proof.
  intros [sp r e t s|i x s|p w s|p w s].
  - unfold create. destruct sp as [sp|], r as [r|], e as [e|], t as [t|]; try done. by repeat (case_match; [done|]).
  - unfold updateStatus. case_match; [done|]. by case_match.
  - unfold enrollEmployee. destruct (getById p s), w; try done. do 2 (case_match; [done|]). cbn. by destruct (enrolled p _ s).
  - unfold unenrollEmployee. by destruct (getById p s).
Qed.

Lemma booked_links d d' x don a : links d' = links d → booked d x don a → booked d' x don a.
Proof. unfold booked. by intros ->. Qed.

Lemma owed_app l1 l2 : owed (l1 ++ l2) = owed l1 ++ owed l2.
Proof. apply omap_app. Qed.

Lemma owed_send c k l : owed (TSend c k :: l) = (k, c) :: owed l.
Proof. done. Qed.
Lemma owed_commit c l : owed (TCommit c :: l) = owed l.
Proof. done. Qed.
Lemma owed_record c k to l : owed (TRecord c k to :: l) = owed l.
Proof. done. Qed.

(** Recording touches neither tables nor payments. *)
Lemma record_match_base now uuid c to r s o s' :
  record_match now uuid c to r s = (o, s') → base s' = base s ∧ payments s' = payments s.
Proof.
  unfold record_match, on_txs, try_catch. stx_unfold.
  destruct (Transaction.create _ _ _ _) as [[o1|e1] t1]; [|by intros [= <- <-]]. cbn.
  destruct (Transaction.updateMatchedDonationId _ _ _) as [[o2|e2] t2]; cbn; by intros [= <- <-].
Qed.

(** A turn that pays nothing and owes nothing new. *)
Lemma books_keep s s' l l' :
  ledger (base s') → (∀ x don a, booked (base s) x don a → booked (base s') x don a) → payments s' = payments s →
  owed l' = owed l → (∀ c, TCommit c ∈ l' → TCommit c ∈ l ∨ num_leb (c_amount c) num_zero = false) →
  books (s, l) → books (s', l').
Proof.
  intros Hl Hb Hp Ho Hc [B1 B2 B3 B4 B5]. split; cbn in *; rewrite ?Hp, ?Ho; try done.
  - intros c Hin. destruct (Hc c Hin); auto.
  - eapply Forall_impl; [exact B4|]. auto.
  - eapply Forall_impl; [exact B5|]. intros p (i & ? & ?). eauto.
Qed.

Lemma in_middle {A} (x : A) l1 y l2 : x ∈ l1 ++ l2 → x ∈ l1 ++ y :: l2.
Proof. rewrite !elem_of_app, elem_of_cons. tauto. Qed.

Lemma middle_other {A} (x : A) l1 y z l2 : x ∈ l1 ++ y :: l2 → x = y ∨ x ∈ l1 ++ z :: l2.
Proof. rewrite !elem_of_app, !elem_of_cons. tauto. Qed.

Lemma commit_books created c k d s l1 l2 :
  commit created c (base s) = (Ret k, d) → books (s, l1 ++ TCommit c :: l2) →
  books (mk_st d (txs s) (payments s), l1 ++ TSend c k :: l2).
Proof.
  intros Hc [B1 B2 B3 B4 B5]. cbn in *.
  assert (Hpos : num_leb (c_amount c) num_zero = false) by (apply B2; apply elem_of_app; right; left).
  pose proof (commit_ledger _ _ _ _ _ Hpos Hc B1) as Hd.
  destruct (commit_Ret _ _ _ _ _ Hc) as (q & f & _ & _ & _ & -> & Hd' & _).
  assert (Hb : ∀ x don a, booked (base s) x don a → booked d x don a ∧ x < next_link (base s)).
  { intros x don a (l & Hl & Hx & Ha & Hdon). split.
    - exists l. rewrite Hd'. cbn. split; [|done]. apply elem_of_app. by left.
    - pose proof (lg_links _ B1) as Hall. rewrite Forall_forall in Hall. specialize (Hall l Hl). lia. }
  rewrite owed_app, ?owed_send, ?owed_commit in B3, B4. split; cbn; [done| | | |].
  - intros c' Hin. apply B2. apply (middle_other _ _ _ (TCommit c)) in Hin as [Hin|Hin]; [done|].
    done.
  - rewrite owed_app, owed_send. rewrite fmap_app in *. cbn [fmap list_fmap fst].
    rewrite app_assoc in *. apply NoDup_Permutation_proper with (x := next_link (base s) :: (pay_link <$> payments s) ++ (owed l1).*1 ++ (owed l2).*1).
    + rewrite (app_assoc _ (owed l1).*1). apply Permutation_middle.
    + apply NoDup_cons. split; [|by rewrite app_assoc].
      rewrite Forall_forall in B4; rewrite Forall_forall in B5. rewrite <- fmap_app, elem_of_app, !list_elem_of_fmap.
      intros [(p & Hp & Hin)|(o & Hp & Hin)].
      * destruct (B5 p Hin) as (i & _ & Hbk). destruct (Hb _ _ _ Hbk). lia.
      * specialize (B4 o Hin). destruct (Hb _ _ _ B4). lia.
  - rewrite owed_app, owed_send. rewrite Forall_app in B4. destruct B4 as [B41 B42].
    apply Forall_app. split; [eapply Forall_impl; [exact B41|]; intros o Ho; by apply Hb|].
    apply Forall_cons. split; [|eapply Forall_impl; [exact B42|]; intros o Ho; by apply Hb].
    exists (new_link created (next_link (base s)) c). rewrite Hd'. cbn. split; [|done]. apply elem_of_app. right. left.
  - eapply Forall_impl; [exact B5|]. intros p (i & ? & ?). exists i. split; [done|]. by apply Hb.
Qed.

Lemma payment_of_spec c k to p :
  payment_of c k to = Some p → pay_link p = k ∧ pay_amount p = c_amount c ∧ pay_memo p = match_memo (c_donation c).
Proof.
  unfold payment_of. destruct (Transaction.truthy_str (encryptedSecret (c_sponsor c))); [|done].
  cbv [mbind option_bind]. destruct (Transaction.truthy_str (Some to)); [|done]. by intros [= <-].
Qed.

Lemma send_books c k to s l1 l2 :
  books (s, l1 ++ TSend c k :: l2) → books (send c k to s, l1 ++ TRecord c k to :: l2).
Proof.
  intros [B1 B2 B3 B4 B5]. cbn in *. rewrite owed_app, ?owed_send, ?owed_commit in B3, B4.
  assert (Hb : base (send c k to s) = base s) by (unfold send; by case_match).
  rewrite fmap_app in B3. cbn [fmap list_fmap fst] in B3. rewrite Forall_app, Forall_cons in B4. destruct B4 as (B41 & Hk & B42).
  split; cbn; rewrite ?Hb; rewrite ?owed_app, ?owed_record; [done| | | |].
  - intros c' Hin. apply B2. apply (middle_other _ _ _ (TSend c k)) in Hin as [Hin|Hin]; [done|]. done.
  - rewrite app_assoc, <- Permutation_middle, <- app_assoc in B3. rewrite fmap_app.
    unfold send. destruct (payment_of c k to) as [p|] eqn:Hp; cbn; [|by apply NoDup_cons in B3 as [_ B3]].
    apply payment_of_spec in Hp as (<- & _ & _). rewrite fmap_app, <- app_assoc. cbn. by rewrite <- Permutation_middle.
  - by apply Forall_app.
  - unfold send. destruct (payment_of c k to) as [p|] eqn:Hp; cbn; [|done].
    apply payment_of_spec in Hp as (Hl & Ha & Hm). apply Forall_app. split; [done|]. repeat constructor.
    exists (c_donation c). by rewrite Hl, Ha.
Qed.

Lemma turn_books cf cf' : turn cf cf' → books cf → books cf'.
Proof.
  intros [p i a w y c s l Hp|created c s d k l1 l2 Hc|created c s e d l1 l2 Hc|c k s l1 l2 to
         |now uuid a c k to i s s' l1 l2 r Hr|now uuid a c k to e s s' l1 l2 r Hr|ok k i h s l1 l2|d s l Ha|t s l] HB.
  - eapply (books_keep s s); [..|exact HB]; try done; [apply HB|]. intros c' [Hin|Hin]%elem_of_cons; [|by left]. right.
    injection Hin as ->. unfold plan in Hp. destruct (match_amount _ _ _) as [m|] eqn:Hm; [|done]. cbn in Hp.
    destruct (users (sponsor_id p)), (users w); try done. injection Hp as <-. cbn. unfold match_amount in Hm.
    case_match; [done|]. destruct (num_leb (round7 _) num_zero) eqn:Hz; [done|]. injection Hm as <-. done.
  - by eapply commit_books.
  - apply commit_Throw in Hc as ->. eapply (books_keep s); [..|exact HB]; try done; [apply HB|by rewrite !owed_app|].
    intros c' Hin. left. by apply in_middle.
  - by apply send_books.
  - destruct (record_match_base _ _ _ _ _ _ _ _ Hr) as [Hb Hpay].
    eapply (books_keep s); [..|exact HB]; rewrite ?Hb; try done; [apply HB|by rewrite !owed_app|].
    intros c' Hin. left. by apply (middle_other _ _ _ (TRecord c k to)) in Hin as [?|?].
  - destruct (record_match_base _ _ _ _ _ _ _ _ Hr) as [Hb Hpay].
    eapply (books_keep s); [..|exact HB]; rewrite ?Hb; try done; [apply HB|by rewrite !owed_app|].
    intros c' Hin. left. by apply in_middle.
  - eapply (books_keep s); [..|exact HB]; try (by destruct ok); [| |by rewrite !owed_app|].
    + destruct ok; [apply finish_link_ledger|]; apply HB.
    + destruct ok; [|done]. intros x don b. apply finish_link_booked.
    + intros c' Hin. left. by apply in_middle.
  - eapply (books_keep s); [..|exact HB]; try done; [eapply admin_ledger; [done|apply HB]| |by left].
    intros x don b. apply booked_links. by apply admin_links.
  - eapply (books_keep s); [..|exact HB]; try done; [apply HB|by left].
Qed.

Definition start (t : Transaction.st) : config := (mk_st empty_db t [], []).

Lemma start_books t : books (start t).
Proof. split; cbn; try constructor; cbn; try constructor; by intros c ?%elem_of_nil. Qed.

Lemma reachable_books t cf : rtc turn (start t) cf → books cf.
Proof. intros Hr. eapply preserves_rtc; [|exact Hr|apply start_books]. intros c1 c2 Hb Ht. by eapply turn_books. Qed.

(** C28: The counters say what the rows say, however calls overlap: what is left
    of a program is what its matches, each covered when it was booked, leave
    of the total; the history of an employee is the sum of its rows. *)
Theorem counters_match_links t cf :
  rtc turn (start t) cf →
  (∀ p, p ∈ programs (base cf.1) →
     covers (total_limit p) (amounts (p_id p) (base cf.1)) (remaining_total_limit p)) ∧
  ∀ k, history (base cf.1) !! k = sum_of (amounts_of k (base cf.1)).
Proof.
  intros [[_ _ _ _ Hc Hh] _ _ _ _]%reachable_books. split; [|exact Hh]. by rewrite Forall_forall in Hc.
Qed.

(** Every payment belongs to a row of its own with the same amount. *)
Theorem payments_match_links t cf :
  rtc turn (start t) cf →
  NoDup (pay_link <$> payments cf.1) ∧
  ∀ p, p ∈ payments cf.1 → ∃ i, pay_memo p = match_memo i ∧ booked (base cf.1) (pay_link p) i (pay_amount p).
Proof.
  intros [_ _ Ho _ Hp]%reachable_books. apply NoDup_app in Ho as (Ho & _ & _). split; [done|].
  by rewrite Forall_forall in Hp.
Qed.

(** *** A program with nothing left *)

Lemma find_program_update i j f d :
  (∀ p, p_id (f p) = p_id p) →
  find_program i (update_program j f d) = (λ p, if p_id p =? j then f p else p) <$> find_program i d.
Proof.
  intros Hf. unfold find_program. cbn. induction (programs d) as [|p l IH]; [done|]. cbn.
  destruct (p_id p =? j) eqn:Hj; rewrite ?Hf; destruct (p_id p =? i) eqn:Hi; try done; cbn; by rewrite Hj.
Qed.

Definition spent (i : Z) (d : db) : Prop :=
  ∃ q, find_program i d = Some q ∧ num_leb (remaining_total_limit q) num_zero = true.

Lemma not_leb_zero a : num_leb a num_zero = false → num_is_nan a = false → num_ltb num_zero a = true.
Proof. intros Hl Hn. destruct a as [[]|[]| |[]]; done. Qed.

Lemma spent_row_update i j f d :
  (∀ p, p_id (f p) = p_id p) → (i = j → ∀ p, remaining_total_limit (f p) = remaining_total_limit p) →
  spent i d → spent i (update_program j f d).
Proof.
  intros Hf Hr (q & Hq & Hz). pose proof (find_first_Some _ _ _ Hq) as [_ Hi%Z.eqb_eq].
  exists (if p_id q =? j then f q else q). rewrite find_program_update, Hq by done. split; [done|].
  destruct (Z.eqb_spec (p_id q) j); [|done]. rewrite Hr; [done|congruence].
Qed.

Lemma spent_commit i created c d k d' :
  num_leb (c_amount c) num_zero = false → commit created c d = (Ret k, d') → spent i d →
  spent i d' ∧ amounts i d' = amounts i d.
Proof.
  intros Hm Hc Hs. destruct (commit_Ret _ _ _ _ _ Hc) as (q & f & Hq & Hle & Hn & _ & Hd & Hf).
  destruct (Z.eq_dec i (p_id (c_program c))) as [Hi|Hi].
  - exfalso. destruct Hs as (q' & Hq' & Hz). rewrite Hi, Hq in Hq'. injection Hq' as <-.
    pose proof (num_leb_ltb_trans _ _ _ Hz (not_leb_zero _ Hm Hn)). congruence.
  - assert (spent i (update_program (p_id (c_program c)) f d)) as (q' & ? & ?) by (apply spent_row_update; [apply Hf|done|done]).
    rewrite Hd. split; [by exists q'|]. unfold amounts. cbn.
    rewrite filter_app, filter_cons_False, filter_nil, app_nil_r by (cbn; congruence). done.
Qed.

Lemma spent_admin i d d' : admin d d' → spent i d → spent i d' ∧ amounts i d' = amounts i d.
Proof.
  intros Ha Hs. split; [|unfold amounts; by rewrite (admin_links _ _ Ha)].
  destruct Ha as [sp r e t s|j x s|p w s|p w s].
  - unfold create. destruct sp as [sp|], r as [r|], e as [e|], t as [t|]; try done. repeat (case_match; [done|]).
    destruct Hs as (q & Hq & Hz). exists q. split; [|done]. unfold find_program in *. cbn. revert Hq. clear.
    induction (programs s) as [|p l IH]; [done|]. cbn. by destruct (p_id p =? i).
  - unfold updateStatus. case_match; [done|]. case_match; [|done]. by apply spent_row_update.
  - unfold enrollEmployee. destruct (getById p s), w; try done. do 2 (case_match; [done|]). cbn. by destruct (enrolled p _ s).
  - unfold unenrollEmployee. by destruct (getById p s).
Qed.

Lemma spent_turn i cf cf' :
  turn cf cf' → books cf → spent i (base cf.1) → spent i (base cf'.1) ∧ amounts i (base cf'.1) = amounts i (base cf.1).
Proof.
  intros [p j a w y c s l Hp|created c s d k l1 l2 Hc|created c s e d l1 l2 Hc|c k s l1 l2 to
         |now uuid a c k to j s s' l1 l2 r Hr|now uuid a c k to e s s' l1 l2 r Hr|ok k j h s l1 l2|d s l Ha|t s l] HB Hs;
    cbn [fst base] in *; try done.
  - eapply spent_commit; [|done|done]. apply (bk_positive _ HB). cbn. apply elem_of_app. right. left.
  - by apply commit_Throw in Hc as ->.
  - unfold send. by case_match.
  - by destruct (record_match_base _ _ _ _ _ _ _ _ Hr) as [-> _].
  - by destruct (record_match_base _ _ _ _ _ _ _ _ Hr) as [-> _].
  - destruct ok; [|done]. cbn. unfold amounts. cbn. by rewrite filter_map_links by done.
  - by apply spent_admin.
Qed.

(** A program with nothing left matches nothing more, whatever its status is
    set to and whatever is in flight. *)
Theorem spent_corporate_final t cf cf' i :
  rtc turn (start t) cf → spent i (base cf.1) → rtc turn cf cf' →
  amounts i (base cf'.1) = amounts i (base cf.1).
Proof.
  intros HB%reachable_books Hs Hr.
  assert (H : books cf' ∧ spent i (base cf'.1) ∧ amounts i (base cf'.1) = amounts i (base cf.1)); [|apply H].
  induction Hr as [cf|c1 c2 c3 Ht Hr IH]; [done|].
  destruct (spent_turn i _ _ Ht HB Hs) as [Hs2 Ha]. rewrite <- Ha. apply IH; [by eapply turn_books|done].
Qed.

(** ** One call *)

(** Recording a match always succeeds. *)
Lemma record_match_Ret now uuid c to r s : ∃ i s', record_match now uuid c to r s = (Ret i, s').
Proof.
  unfold record_match, on_txs, try_catch. stx_unfold.
  assert (∃ o t, Transaction.create now uuid (matched_data c to r) (txs s) = (Ret o, t)) as (o & t & ->).
  { unfold Transaction.create. cbn [Transaction.d_status Transaction.d_idempotencyKey matched_data].
    destruct r; eexists _, _; vm_compute; reflexivity. }
  cbn. destruct (Transaction.updateMatchedDonationId _ _ t) as [[o'|e] t']; cbn; eauto.
Qed.

(** From the booking on, a call succeeds whatever the network answers: it asks
    for one payment at most, completes its row, and gives nothing back. *)
Theorem booked_match_completes v c k s :
  ∃ r s', pay_and_record v c k s = (Ret r, s') ∧ r_amount r = c_amount c ∧
    payments s' = payments s ++ option_list (payment_of c k (recipient_of c (txs s))) ∧
    base s' = (if v_link_ok v then finish_link k (r_matched r) (r_hash r) (base s) else base s) ∧
    (is_ret (v_answer v) = false → r_hash r = None).
Proof.
  unfold pay_and_record. stx_unfold. set (to := recipient_of c (txs s)).
  set (a := stellar_result _ (v_answer v)).
  destruct (record_match_Ret (v_now v) (v_uuid v) c to a (send c k to s)) as (i & s1 & Hr). rewrite Hr.
  destruct (record_match_base _ _ _ _ _ _ _ _ Hr) as [Hb Hp].
  assert (Hs : base (send c k to s) = base s ∧ payments (send c k to s) = payments s ++ option_list (payment_of c k to)).
  { unfold send. destruct (payment_of c k to); [done|]. by rewrite app_nil_r. }
  destruct Hs as [Hs1 Hs2]. rewrite Hs1 in Hb. rewrite Hs2 in Hp.
  destruct (v_link_ok v); eexists _, _; split; try reflexivity; cbn; rewrite ?Hb; split_and!; try done;
    unfold a, stellar_result; destruct (v_answer v); try done; by case_match.
Qed.

Lemma pay_turns v c k s r s' l :
  pay_and_record v c k s = (Ret r, s') → rtc turn (s, TSend c k :: l) (s', l).
Proof.
  unfold pay_and_record. stx_unfold. set (to := recipient_of c (txs s)).
  set (a := stellar_result _ (v_answer v)).
  destruct (record_match_Ret (v_now v) (v_uuid v) c to a (send c k to s)) as (i & s1 & Hr). rewrite Hr.
  intros Heq. eapply rtc_l; [apply (t_send c k s [] l)|]. eapply rtc_l; [by apply (t_record _ _ (v_answer v) _ _ _ _ _ _ [] l Hr)|].
  eapply rtc_l; [apply (t_link (v_link_ok v) k i (mjoin a) s1 [] l)|]. fold to. fold a in Heq.
  destruct (v_link_ok v); injection Heq as _ <-; apply rtc_refl.
Qed.

Lemma single_turns v p don amount sender s l :
  rtc turn (s, l) ((_matchSingleProgram v p don amount sender s).2, l).
Proof.
  unfold _matchSingleProgram, on_db. stx_unfold.
  destruct (plan p don amount sender (v_year v) (base s)) as [c|] eqn:Hp; [|apply rtc_refl].
  eapply rtc_l; [by eapply t_plan|].
  destruct (commit (v_created v) c (base s)) as [[k|e] d] eqn:Hc.
  - eapply rtc_l; [exact (t_commit _ _ _ _ _ [] l Hc)|].
    destruct (booked_match_completes v c k (mk_st d (txs s) (payments s))) as (r & s' & Hr & _). rewrite Hr.
    by eapply pay_turns.
  - eapply rtc_l; [exact (t_refused _ _ _ _ _ [] l Hc)|]. apply rtc_refl.
Qed.

Lemma match_all_turns v don amount sender ps s l :
  rtc turn (s, l) ((match_all v don amount sender ps s).2, l).
Proof.
  revert s. induction ps as [|p ps IH]; intros s; cbn [match_all]; [apply rtc_refl|].
  pose proof (single_turns (v (p_id p)) p don amount sender s l) as H1.
  destruct (_matchSingleProgram _ _ _ _ _ s) as [r s1]. specialize (IH s1).
  destruct (match_all v don amount sender ps s1) as [rs s2]. cbn in *. by etransitivity.
Qed.

(** A call is a sequence of turns, so what holds for turns holds for calls. *)
Theorem process_is_turns v don amount sender s l :
  rtc turn (s, l) ((processCorporateMatching v don amount sender s).2, l).
Proof. unfold processCorporateMatching. case_match; [apply rtc_refl|]. apply match_all_turns. Qed.

(** ** The cap of an employee *)

Definition cap_reached (i w y : Z) (d : db) : Prop :=
  ∃ q, find_program i d = Some q ∧
       num_leb (num_sub (per_employee_limit q) (_getEmployeeYearlyMatched i w y d)) num_zero = true.

(** The rows of a list were read from programs whose cap is the stored one. *)
Definition caps_as_stored (ps : list program) (d : db) : Prop :=
  Forall (λ p, per_employee_limit <$> find_program (p_id p) d = Some (per_employee_limit p)) ps.

Lemma single_base v p don amount sender s :
  base (_matchSingleProgram v p don amount sender s).2 = base s ∨
  ∃ c k d, plan p don amount sender (v_year v) (base s) = Some c ∧ commit (v_created v) c (base s) = (Ret k, d) ∧
    (base (_matchSingleProgram v p don amount sender s).2 = d ∨
     ∃ i h, base (_matchSingleProgram v p don amount sender s).2 = finish_link k i h d).
Proof.
  unfold _matchSingleProgram, on_db. stx_unfold.
  destruct (plan p don amount sender (v_year v) (base s)) as [c|] eqn:Hp; [|by left].
  destruct (commit (v_created v) c (base s)) as [[k|e] d] eqn:Hc; [|left; by apply commit_Throw in Hc as ->].
  right. exists c, k, d. split_and!; [done..|].
  destruct (booked_match_completes v c k (mk_st d (txs s) (payments s))) as (r & s' & -> & _ & _ & Hb & _). cbn.
  rewrite Hb. destruct (v_link_ok v); eauto.
Qed.

Lemma plan_Some p don amount w y d c :
  plan p don amount w y d = Some c →
  c_program c = p ∧ c_sender c = w ∧ c_year c = y ∧
  num_leb (num_sub (per_employee_limit p) (_getEmployeeYearlyMatched (p_id p) w y d)) num_zero = false.
Proof.
  unfold plan. destruct (match_amount p amount _) as [m|] eqn:Hm; [|done]. cbn [mbind option_bind].
  destruct (users (sponsor_id p)); [|done]. destruct (users w); [|done]. intros [= <-]. split_and!; try done.
  unfold match_amount in Hm. by case_match.
Qed.

Lemma cap_finish i w y k m h d : cap_reached i w y (finish_link k m h d) ↔ cap_reached i w y d.
Proof. done. Qed.

Lemma single_cap i w y v p don amount s :
  v_year v = y → cap_reached i w y (base s) → caps_as_stored [p] (base s) →
  let d' := base (_matchSingleProgram v p don amount w s).2 in
  cap_reached i w y d' ∧ amounts_of (i, w, y) d' = amounts_of (i, w, y) (base s) ∧
  ∀ ps, caps_as_stored ps (base s) → caps_as_stored ps d'.
Proof.
  intros Hy Hcap Hst d'. destruct (single_base v p don amount w s) as [Hd|(c & k & d & Hp & Hc & Hd)];
    fold d' in Hd; [by rewrite Hd|].
  apply plan_Some in Hp as (Hcp & Hcw & Hcy & Hlim). rewrite Hy in Hcy, Hlim.
  destruct (commit_Ret _ _ _ _ _ Hc) as (q & f & Hq & _ & _ & _ & Hd' & Hf). rewrite Hcp, Hcw, Hcy in *.
  assert (Hne : i ≠ p_id p).
  { intros ->. destruct Hcap as (q' & Hq' & Hz). rewrite Hq in Hq'. injection Hq' as <-.
    apply Forall_cons in Hst as [Hst _]. rewrite Hq in Hst. injection Hst as Hst. congruence. }
  assert (H : cap_reached i w y d ∧ amounts_of (i, w, y) d = amounts_of (i, w, y) (base s) ∧
              ∀ ps, caps_as_stored ps (base s) → caps_as_stored ps d).
  { rewrite Hd'. split_and!.
    - destruct Hcap as (q' & Hq' & Hz). unfold cap_reached, _getEmployeeYearlyMatched, add_history. cbn [history].
      rewrite lookup_insert_ne by congruence. exists (if p_id q' =? p_id p then f q' else q').
      split.
      + transitivity (find_program i (update_program (p_id p) f (base s))); [done|].
        rewrite find_program_update by apply Hf. by rewrite Hq'.
      + case_match; [|done]. by destruct (Hf q') as (_ & _ & _ & ->).
    - unfold amounts_of. cbn. rewrite filter_app, filter_cons_False, filter_nil, app_nil_r; [done|].
      unfold key_of. cbn. rewrite Hcp. congruence.
    - intros ps Hps. eapply Forall_impl; [exact Hps|]. cbn. intros p' <-.
      transitivity (per_employee_limit <$> find_program (p_id p') (update_program (p_id p) f (base s))); [done|].
      rewrite find_program_update by apply Hf. destruct (find_program (p_id p') (base s)) as [x|]; [|done]. cbn.
      case_match; [|done]. by destruct (Hf x) as (_ & _ & _ & ->). }
  destruct Hd as [->|(m & h & ->)]; [done|]. destruct H as (H1 & H2 & H3). split_and!; [done| |done].
  rewrite <- H2. unfold amounts_of. cbn. by rewrite filter_map_links by done.
Qed.

Lemma match_all_cap i w y v don amount ps s :
  (∀ j, v_year (v j) = y) → cap_reached i w y (base s) → caps_as_stored ps (base s) →
  amounts_of (i, w, y) (base (match_all v don amount w ps s).2) = amounts_of (i, w, y) (base s).
Proof.
  intros Hy. revert s. induction ps as [|p ps IH]; intros s Hcap Hst; cbn [match_all]; [done|].
  apply Forall_cons in Hst as [Hp Hst].
  destruct (single_cap i w y (v (p_id p)) p don amount s (Hy _) Hcap) as (H1 & H2 & H3); [by repeat constructor|].
  destruct (_matchSingleProgram _ _ _ _ _ s) as [r s1]. cbn in H1, H2, H3.
  specialize (IH s1 H1 (H3 ps Hst)). destruct (match_all v don amount w ps s1) as [rs s2]. cbn in *. congruence.
Qed.

(** When calls do not overlap, an employee whose history has reached the cap
    of a program gets no further match from it in that year. *)
Theorem employee_cap_final i w y v don amount s l :
  books (s, l) → (∀ j, v_year (v j) = y) → cap_reached i w y (base s) →
  amounts_of (i, w, y) (base (processCorporateMatching v don amount w s).2) = amounts_of (i, w, y) (base s).
Proof.
  intros HB Hy Hcap. unfold processCorporateMatching. case_match; [done|]. apply match_all_cap; [done..|].
  apply Forall_forall. intros p [_ Hp]%list_elem_of_filter.
  destruct (find_program (p_id p) (base s)) as [q|] eqn:Hq.
  - cbn. f_equal. f_equal. symmetry. eapply find_program_unique; [apply HB|done|done].
  - exfalso. pose proof (find_first_None _ _ p Hq Hp) as Hn. cbn in Hn. lia.
Qed.

End service.

(** ** Ranges of the report *)

(** A day given as [to] leaves out the matches of that day, although it is
    documented as inclusive; a time of ISO form given as [from] leaves out
    the whole day. *)
Theorem range_drops_days (from to : option string) (day time t : string) :
  is_empty day = false →
  in_range from (Some day) (day +:+ " " +:+ time) = false ∧
  in_range (Some (day +:+ "T" +:+ t)) to (day +:+ " " +:+ time) = false.
Proof.
  intros Hd. unfold in_range, if_given, Transaction.truthy_str. rewrite Hd. split.
  - rewrite <- (str_app_nil_r day) at 1. rewrite str_ltb_app. apply andb_false_r.
  - destruct (is_empty (day +:+ "T" +:+ t)) eqn:He; [by destruct day|]. rewrite str_ltb_app. done.
Qed.

(** ** The report as text *)

#[local] Arguments Ascii.eqb : simpl never.

Definition quote : ascii := char_of_code 34.
Definition newline : ascii := char_of_code 10.
Definition comma : ascii := ",".
#[local] Arguments quote : simpl never.
#[local] Arguments newline : simpl never.
#[local] Arguments comma : simpl never.
Definition special (c : ascii) : bool := Ascii.eqb c quote || Ascii.eqb c comma || Ascii.eqb c newline.

Fixpoint double_quotes (s : string) : string :=
  match s with
  | EmptyString => ""
  | String c s => if Ascii.eqb c quote then String quote (String quote (double_quotes s)) else String c (double_quotes s)
  end.

(** [escape] of a text; a missing value is the empty text. *)
Definition escape (s : string) : string :=
  if str_exists special s then String quote (double_quotes s +:+ String quote "") else s.

Definition header : list string :=
  ["id"; "corporate_matching_id"; "original_donation_id"; "matched_donation_id"; "employee_wallet_id"; "matched_amount";
   "year"; "status"; "stellar_tx_hash"; "created_at"].
Definition row_fields (l : link) : list string :=
  [Z_to_string (l_id l); Z_to_string (l_program l); original_donation_id l; default "" (matched_donation_id l);
   Z_to_string (l_employee l); num_to_string (matched_amount l); Z_to_string (l_year l); l_status l;
   default "" (stellar_tx_hash l); l_created_at l].
Definition csv (rows : list link) : string :=
  str_join (String newline "")
    (str_join (String comma "") header ::
     ((λ l, str_join (String comma "") (escape <$> row_fields l)) <$> rows)).

(** A reader of such texts: fields between commas, rows between line ends,
    a field in quotes with its quotes doubled. *)
Inductive mode := AtStart | Plain | Quoted | Closing.
Fixpoint read_csv (m : mode) (field : string) (row : list string) (rows : list (list string)) (s : string)
  : option (list (list string)) :=
  match s with
  | EmptyString => match m with Quoted => None | _ => Some (rows ++ [row ++ [field]]) end
  | String c s =>
      match m with
      | Quoted => if Ascii.eqb c quote then read_csv Closing field row rows s
                  else read_csv Quoted (field +:+ String c "") row rows s
      | _ =>
          if Ascii.eqb c comma then read_csv AtStart "" (row ++ [field]) rows s
          else if Ascii.eqb c newline then read_csv AtStart "" [] (rows ++ [row ++ [field]]) s
          else if Ascii.eqb c quote then
            match m with
            | AtStart => read_csv Quoted "" row rows s
            | Closing => read_csv Quoted (field +:+ String quote "") row rows s
            | _ => None
            end
          else match m with Closing => None | _ => read_csv Plain (field +:+ String c "") row rows s end
      end
  end.
Definition parse_csv : string → option (list (list string)) := read_csv AtStart "" [] [].

(** The end of a field, whatever it was read as. *)
Definition field_end (s : string) : bool :=
  match s with EmptyString => true | String c _ => Ascii.eqb c comma || Ascii.eqb c newline end.

Lemma read_end m m' f row rows s :
  m ≠ Quoted → m' ≠ Quoted → field_end s = true → read_csv m f row rows s = read_csv m' f row rows s.
Proof.
  intros Hm Hm' Hs. destruct s as [|c s]; [by destruct m, m'|]. cbn in *.
  apply orb_true_iff in Hs as [Hc|Hc]; [|destruct (Ascii.eqb c comma)]; rewrite ?Hc; by destruct m, m'.
Qed.

Lemma read_plain f acc row rows s :
  str_exists special f = false → read_csv Plain acc row rows (f +:+ s) = read_csv Plain (acc +:+ f) row rows s.
Proof.
  revert acc. induction f as [|c f IH]; intros acc; cbn [str_exists]; [by rewrite str_app_nil_r|].
  intros [Hc Hf]%orb_false_iff. unfold special in Hc. apply orb_false_iff in Hc as [[Hq Hk]%orb_false_iff Hn].
  cbn. rewrite Hk, Hn, Hq, IH by done. by rewrite str_app_assoc.
Qed.

Lemma read_quoted f acc row rows s :
  read_csv Quoted acc row rows (double_quotes f +:+ String quote s) = read_csv Closing (acc +:+ f) row rows s.
Proof.
  revert acc. induction f as [|c f IH]; intros acc; cbn; [by rewrite str_app_nil_r|].
  destruct (Ascii.eqb c quote) eqn:Hc.
  - apply Ascii.eqb_eq in Hc as ->. cbn. rewrite IH. by rewrite str_app_assoc.
  - cbn. rewrite Hc, IH. by rewrite str_app_assoc.
Qed.

Lemma read_field f row rows s :
  field_end s = true → read_csv AtStart "" row rows (escape f +:+ s) = read_csv Plain f row rows s.
Proof.
  intros Hs. unfold escape. destruct (str_exists special f) eqn:Hf.
  - transitivity (read_csv Quoted "" row rows (double_quotes f +:+ String quote s)).
    { cbn [String.append]. rewrite str_app_assoc. reflexivity. }
    rewrite read_quoted. by apply read_end.
  - destruct f as [|c f]; [by apply read_end|]. cbn [str_exists] in Hf. apply orb_false_iff in Hf as [Hc Hf].
    unfold special in Hc. apply orb_false_iff in Hc as [[Hq Hk]%orb_false_iff Hn].
    cbn. rewrite Hk, Hn, Hq. cbn. by rewrite read_plain.
Qed.

(** One row, up to the end of the text or a line end *)
Definition row_end (s : string) : bool := match s with EmptyString => true | String c _ => Ascii.eqb c newline end.

Lemma row_field_end s : row_end s = true → field_end s = true.
Proof. destruct s; [done|]. cbn. intros ->. apply orb_true_r. Qed.

Lemma read_row fs row rows s :
  fs ≠ [] → row_end s = true →
  read_csv AtStart "" row rows (str_join (String comma "") (escape <$> fs) +:+ s) =
  match s with
  | EmptyString => Some (rows ++ [row ++ fs])
  | String _ s => read_csv AtStart "" [] (rows ++ [row ++ fs]) s
  end.
Proof.
  intros Hne Hs. revert row. induction fs as [|f fs IH]; intros row; [done|]. destruct fs as [|g fs].
  - cbn [fmap list_fmap str_join]. rewrite read_field by by apply row_field_end. destruct s as [|c s]; [done|].
    cbn in *. apply Ascii.eqb_eq in Hs as ->. done.
  - cbn [fmap list_fmap str_join]. rewrite !str_app_assoc, read_field by done. cbn [String.append read_csv].
    change (Ascii.eqb comma comma) with true. cbv iota. cbn [fmap list_fmap] in IH. rewrite IH by done. by rewrite <- app_assoc.
Qed.

Lemma read_rows ls rows :
  Forall (λ fs, fs ≠ []) ls → ls ≠ [] →
  read_csv AtStart "" [] rows
    (str_join (String newline "") ((λ fs, str_join (String comma "") (escape <$> fs)) <$> ls)) = Some (rows ++ ls).
Proof.
  intros Hall Hne. revert rows. induction ls as [|fs ls IH]; intros rows; [done|]. apply Forall_cons in Hall as [Hfs Hall].
  destruct ls as [|gs ls].
  - cbn [fmap list_fmap str_join]. rewrite <- (str_app_nil_r (str_join _ _)). by rewrite read_row.
  - cbn [fmap list_fmap str_join]. rewrite read_row by done. cbn [String.append].
    cbn [fmap list_fmap] in IH. rewrite IH by done. by rewrite <- app_assoc.
Qed.

(** The exported text is read back field by field, whatever the rows hold. *)
Theorem csv_roundtrip rows : parse_csv (csv rows) = Some (header :: (row_fields <$> rows)).
Proof.
  unfold parse_csv, csv. change (str_join (String comma "") header) with (str_join (String comma "") (escape <$> header)).
  pose proof (read_rows (header :: (row_fields <$> rows)) []) as H. cbn [fmap list_fmap] in H.
  rewrite <- list_fmap_compose in H. apply H; [|done]. constructor; [done|]. rewrite Forall_fmap. by apply Forall_true.
Qed.

(** ** Examples *)

Definition ex_users (i : Z) : option user :=
  if i =? 1 then Some (mk_user "GSPONSOR" (Some "SSECRET")) else if i =? 2 then Some (mk_user "GEMPLOYEE" None) else None.
Definition n (z : Z) : num := num_of_Z z.
Definition ex_txs : Transaction.st :=
  (Transaction.create 0 "d1" (Transaction.data (n 8) (Some "GEMPLOYEE") (Some "GRECIPIENT") None (Some "confirmed"))
     Transaction.init).2.
Definition ex_d1 : db := (create ex_users (Some 1) (Some (n 1)) (Some (n 10)) (Some (n 100)) empty_db).2.
Definition ex_d2 : db := (enrollEmployee ex_users 1 (Some 2) ex_d1).2.
Definition ex_s2 : st := mk_st ex_d2 ex_txs [].
Definition ex_env (a : outcome jserror (option string)) (uuid : string) (i : Z) : env :=
  mk_env 2026 "2026-05-01 10:00:00" 5 uuid a true.
Definition ex_match (a : outcome jserror (option string)) (uuid : string) (s : st) : list result * st :=
  processCorporateMatching ex_users (ex_env a uuid) "d1" (n 8) 2 s.
Definition ex_s3 : st := (ex_match (Ret (Some "hash")) "m1" ex_s2).2.
Definition ex_s4 : st := (ex_match (Throw NotFoundError) "m2" ex_s3).2.

Lemma ex_start : rtc (turn ex_users) (start ex_txs) (ex_s2, []).
Proof.
  eapply rtc_l; [eapply t_admin, a_create with (sp := Some 1) (r := Some (n 1)) (e := Some (n 10)) (t := Some (n 100))|].
  eapply rtc_l; [eapply t_admin, a_enroll with (p := 1) (w := Some 2)|]. apply rtc_refl.
Qed.

Lemma ex_reach3 : rtc (turn ex_users) (start ex_txs) (ex_s3, []).
Proof. etransitivity; [exact ex_start|]. apply process_is_turns. Qed.

(** Two donations of 8 of an employee. *)
Definition ex_program : program := mk_program 1 1 (n 1) (n 10) (n 100) (n 100) "active".
Definition ex_call (don : string) : call :=
  mk_call ex_program don 2 2026 (n 8) (mk_user "GSPONSOR" (Some "SSECRET")) (mk_user "GEMPLOYEE" None).
Definition ex_one : db := (commit "t" (ex_call "d1") ex_d2).2.
Definition ex_two : db := (commit "t" (ex_call "d2") ex_one).2.

Lemma overlap_turns :
  rtc (turn ex_users) (ex_s2, []) (mk_st ex_two ex_txs [], [TSend (ex_call "d2") 2; TSend (ex_call "d1") 1]).
Proof.
  eapply rtc_l; [apply (t_plan ex_users ex_program "d1" (n 8) 2 2026 (ex_call "d1")); vm_compute; reflexivity|].
  eapply rtc_l; [apply (t_plan ex_users ex_program "d2" (n 8) 2 2026 (ex_call "d2")); vm_compute; reflexivity|].
  eapply rtc_l; [apply (t_commit ex_users "t" (ex_call "d1") ex_s2 ex_one 1 [TCommit (ex_call "d2")] []); vm_compute; reflexivity|].
  eapply rtc_l; [apply (t_commit ex_users "t" (ex_call "d2") (mk_st ex_one ex_txs []) ex_two 2 [] [TSend (ex_call "d1") 1]);
                 vm_compute; reflexivity|].
  apply rtc_refl.
Qed.

(** When both matches read the history before either is booked, the cap of
    the employee is exceeded: it is not checked in the transaction. *)
Theorem overlap_exceeds_employee_cap :
  ∃ cf p x, rtc (turn ex_users) (start ex_txs) cf ∧ p ∈ programs (base cf.1) ∧
    history (base cf.1) !! (p_id p, 2, 2026) = Some x ∧ num_gtb x (per_employee_limit p) = true.
Proof.
  exists (mk_st ex_two ex_txs [], [TSend (ex_call "d2") 2; TSend (ex_call "d1") 1]), (with_remaining (n 84) ex_program), (n 16).
  split; [etransitivity; [exact ex_start|exact overlap_turns]|]. split_and!; [|vm_compute; reflexivity..].
  replace (programs _) with [with_remaining (n 84) ex_program] by (vm_compute; reflexivity). left.
Qed.

(** The same donation processed twice is matched and paid for twice: no row
    is looked up by the donation it matches. *)
Theorem same_donation_matched_twice :
  let '(r1, s) := ex_match (Ret (Some "hash")) "m1" ex_s2 in
  let '(r2, s) := processCorporateMatching ex_users (ex_env (Ret (Some "hash")) "m2") "d1" (n 1) 2 s in
  original_donation_id <$> links (base s) = ["d1"; "d1"] ∧ length (payments s) = 2%nat ∧
  r_donation <$> r1 ++ r2 = ["d1"; "d1"].
Proof. vm_compute. done. Qed.

(** A match whose payment failed is completed and counted like a paid one;
    only its donation stays pending. *)
Theorem unpaid_match_counted :
  let s := (ex_match (Throw NotFoundError) "m1" ex_s2).2 in
  (λ l, (l_status l, stellar_tx_hash l)) <$> links (base s) = [("completed", None)] ∧
  remaining_total_limit <$> programs (base s) = [n 92] ∧
  history (base s) !! (1, 2, 2026) = Some (n 8) ∧
  (λ o, Transaction.status (Transaction.tx o)) <$> Transaction.getById (txs s) "m1" = Some "pending".
Proof. vm_compute. done. Qed.

(** ** The theorems at concrete inputs *)

Lemma counters_match_links_witness : history (base ex_s3) !! (1, 2, 2026) = sum_of (amounts_of (1, 2, 2026) (base ex_s3)).
Proof. exact (proj2 (counters_match_links ex_users ex_txs (ex_s3, []) ex_reach3) (1, 2, 2026)). Defined.

Lemma payments_match_links_witness : NoDup (pay_link <$> payments ex_s3).
Proof. exact (proj1 (payments_match_links ex_users ex_txs (ex_s3, []) ex_reach3)). Defined.

Lemma employee_cap_final_witness :
  amounts_of (1, 2, 2026) (base (ex_match (Ret None) "m3" ex_s4).2) = amounts_of (1, 2, 2026) (base ex_s4).
Proof.
  refine (employee_cap_final ex_users 1 2 2026 (ex_env (Ret None) "m3") "d1" (n 8) ex_s4 []
            (reachable_books ex_users ex_txs (ex_s4, []) _) (λ _, eq_refl) _).
  - etransitivity; [exact ex_reach3|]. apply process_is_turns.
  - eexists. split; vm_compute; reflexivity.
Defined.

(** A program of 5 after a donation of 8 *)
Definition ex_small : st :=
  mk_st (enrollEmployee ex_users 1 (Some 2) (create ex_users (Some 1) (Some (n 1)) (Some (n 5)) (Some (n 5)) empty_db).2).2
    ex_txs [].
Definition ex_spent : st := (ex_match (Ret (Some "hash")) "m1" ex_small).2.
Definition ex_reopened : db := (updateStatus 1 "active" (base ex_spent)).2.

Lemma spent_corporate_final_witness : amounts 1 ex_reopened = amounts 1 (base ex_spent).
Proof.
  refine (spent_corporate_final ex_users ex_txs (ex_spent, []) (mk_st ex_reopened (txs ex_spent) (payments ex_spent), []) 1 _ _ _).
  - eapply rtc_l; [eapply t_admin, a_create with (sp := Some 1) (r := Some (n 1)) (e := Some (n 5)) (t := Some (n 5))|].
    eapply rtc_l; [eapply t_admin, a_enroll with (p := 1) (w := Some 2)|]. apply process_is_turns.
  - eexists. split; vm_compute; reflexivity.
  - eapply rtc_l; [apply t_admin, (a_status ex_users 1 "active")|]. apply rtc_refl.
Defined.

Lemma range_drops_days_witness :
  in_range None (Some "2026-05-01") "2026-05-01 10:00:00" = false ∧
  in_range (Some "2026-05-01T00:00:00Z") None "2026-05-01 10:00:00" = false.
Proof. exact (range_drops_days None None "2026-05-01" "10:00:00" "00:00:00Z" eq_refl). Defined.

End CorporateMatching.
