(* ===== verification/Campaigns.v ===== *)
(** * Campaigns ([src/src/services/DonationService.js]: contributions and
      milestones; [src/src/services/CampaignMilestoneService.js])

    A contribution adds to an active campaign, announces the milestones that
    are new and closes the campaign at its goal.  Amounts are XLM Numbers.
    The result of the UPDATE that stores the announced milestones is an
    argument; webhooks and events are the list of announcements. *)

From Stdlib Require Import SpecFloat.
From S2P Require Import Prelude JsString JsNumber.
Local Open Scope Z_scope.

Module Campaigns.

Record campaign := mk_campaign {
  c_id : Z;
  goal_amount : num;
  current_amount : num;
  c_status : string;
  notified_milestones : list num;     (* [] when absent or not a JSON array *)
  milestones_reached : Z;             (* the bit mask of CampaignMilestoneService *)
  c_deleted : bool;
}.
Definition table := list campaign.

Definition find_campaign (i : Z) (t : table) : option campaign := find_first (λ c, c_id c =? i) t.
Definition update_campaign (i : Z) (f : campaign → campaign) (t : table) : table :=
  (λ c, if c_id c =? i then f c else c) <$> t.

Definition add_amount (a : num) (c : campaign) : campaign :=
  mk_campaign (c_id c) (goal_amount c) (num_add (current_amount c) a) (c_status c) (notified_milestones c)
    (milestones_reached c) (c_deleted c).
Definition with_notified (l : list num) (c : campaign) : campaign :=
  mk_campaign (c_id c) (goal_amount c) (current_amount c) (c_status c) l (milestones_reached c) (c_deleted c).
Definition with_status (x : string) (c : campaign) : campaign :=
  mk_campaign (c_id c) (goal_amount c) (current_amount c) x (notified_milestones c) (milestones_reached c) (c_deleted c).
Definition with_mask (m : Z) (c : campaign) : campaign :=
  mk_campaign (c_id c) (goal_amount c) (current_amount c) (c_status c) (notified_milestones c) m (c_deleted c).

(** ** Contributions *)

Definition milestones : list num :=
  [num_of_dec false 25 (-2); num_of_dec false 5 (-1); num_of_dec false 75 (-2); num_of_Z 1].

Definition checkMilestones (totalRaised goalAmount : num) : list num :=
  filter (λ m, num_geb (num_div totalRaised goalAmount) m = true) milestones.

(** [l.includes(m)] *)
Definition includes (m : num) (l : list num) : bool := existsb (num_eqb m) l.

(** What a contribution announced: new milestones, and the goal. *)
Record announced := mk_announced { new_milestones : list num; goal_reached : bool }.
Definition nothing : announced := mk_announced [] false.

(** [notified_ok]: the UPDATE of the announced milestones succeeds. *)
Definition processCampaignContribution (notified_ok : bool) (campaignId : Z) (amount : num) (t : table)
    : announced * table :=
  if negb (existsb (λ c, (c_id c =? campaignId) && bool_decide (c_status c = "active")) t) then (nothing, t)
  else
    let t := (λ c, if (c_id c =? campaignId) && bool_decide (c_status c = "active")
                   then add_amount amount c else c) <$> t in
    match find_campaign campaignId t with
    | None => (nothing, t)
    | Some c =>
        let reached := checkMilestones (current_amount c) (goal_amount c) in
        let fresh := filter (λ m, includes m (notified_milestones c) = false) reached in
        let t := match fresh with
                 | [] => t
                 | _ => if notified_ok
                        then update_campaign campaignId (with_notified (notified_milestones c ++ fresh)) t else t
                 end in
        if num_geb (current_amount c) (goal_amount c) && bool_decide (c_status c = "active")
        then (mk_announced fresh true, update_campaign campaignId (with_status "closed") t)
        else (mk_announced fresh false, t)
    end.

(** ** The milestones of one campaign *)

Record wf (t : table) : Prop := { wf_ids : NoDup (c_id <$> t) }.

Lemma find_update i f t : (∀ c, c_id (f c) = c_id c) → find_campaign i (update_campaign i f t) = f <$> find_campaign i t.
Proof.
  intros Hf. unfold find_campaign, update_campaign. induction t as [|c t IH]; [done|]. cbn.
  destruct (c_id c =? i) eqn:Hc; [by rewrite Hf, Hc|]. by rewrite Hc.
Qed.

(** The contribution as a function of the campaign alone. *)
Definition contribute (notified_ok : bool) (amount : num) (c : campaign) : announced * campaign :=
  if negb (bool_decide (c_status c = "active")) then (nothing, c)
  else
    let c := add_amount amount c in
    let fresh := filter (λ m, includes m (notified_milestones c) = false)
                   (checkMilestones (current_amount c) (goal_amount c)) in
    let c' := match fresh with
              | [] => c
              | _ => if notified_ok then with_notified (notified_milestones c ++ fresh) c else c
              end in
    if num_geb (current_amount c) (goal_amount c)
    then (mk_announced fresh true, with_status "closed" c') else (mk_announced fresh false, c').

Lemma update_campaign_ids i f t : (∀ c, c_id (f c) = c_id c) → c_id <$> update_campaign i f t = c_id <$> t.
Proof.
  intros Hf. unfold update_campaign. rewrite <- list_fmap_compose. apply list_fmap_ext. intros ? c _. cbn.
  case_match; auto.
Qed.

Lemma find_none i t : find_campaign i t = None → Forall (λ c, (c_id c =? i) = false) t.
Proof. unfold find_campaign. induction t as [|c t IH]; [by constructor|]. cbn. case_match; [done|]. auto. Qed.

(** In a table with distinct identifiers the active rows of an identifier are
    the row found, if it is active. *)
Lemma active_row i t c :
  NoDup (c_id <$> t) → find_campaign i t = Some c →
  existsb (λ c, (c_id c =? i) && bool_decide (c_status c = "active")) t = bool_decide (c_status c = "active") ∧
  ∀ f, (λ c, if (c_id c =? i) && bool_decide (c_status c = "active") then f c else c) <$> t =
       if bool_decide (c_status c = "active") then update_campaign i f t else t.
Proof.
  unfold find_campaign, update_campaign. induction t as [|x t IH]; [done|]. cbn. intros [Hx Hn]%NoDup_cons.
  destruct (c_id x =? i) eqn:Hi; cbn [andb].
  - intros [= ->]. apply Z.eqb_eq in Hi.
    assert (Hno : Forall (λ y, (c_id y =? i) = false) t).
    { apply Forall_forall. intros y Hy. apply Z.eqb_neq. intros Hyi. apply Hx. rewrite Hi, <- Hyi.
      by apply list_elem_of_fmap_2. }
    assert (Hid : ∀ f : campaign → campaign, (λ c, if (c_id c =? i) && bool_decide (c_status c = "active") then f c else c) <$> t = t ∧
                       (λ c, if c_id c =? i then f c else c) <$> t = t).
    { intros f. split; (transitivity (id <$> t); [|apply list_fmap_id]); apply Forall_fmap_ext_1;
        (eapply Forall_impl; [exact Hno|]); cbn; intros y ->; done. }
    assert (Hex : existsb (λ c, (c_id c =? i) && bool_decide (c_status c = "active")) t = false).
    { clear -Hno. induction Hno as [|y l Hy _ IH]; [done|]. cbn. by rewrite Hy. }
    rewrite Hex, orb_false_r. split; [done|]. intros f. destruct (Hid f) as [-> ->].
    by case_bool_decide.
  - intros Hf. destruct (IH Hn Hf) as [-> Hm]. split; [done|]. intros f. rewrite Hm. by case_bool_decide.
Qed.

Lemma contribution_local ok i amount t c :
  wf t → find_campaign i t = Some c →
  let '(a, t') := processCampaignContribution ok i amount t in
  let '(a', c') := contribute ok amount c in
  a = a' ∧ find_campaign i t' = Some c' ∧ wf t'.
Proof.
  intros [Hn] Hf. destruct (active_row i t c Hn Hf) as [Hex Hmap].
  unfold processCampaignContribution, contribute. rewrite Hex. destruct (bool_decide (c_status c = "active")) eqn:Ha;
    cbn [negb]; [|done].
  rewrite Hmap. set (t1 := update_campaign i (add_amount amount) t).
  assert (Hf1 : find_campaign i t1 = Some (add_amount amount c)) by (subst t1; by rewrite find_update, Hf).
  assert (Hn1 : NoDup (c_id <$> t1)) by (subst t1; by rewrite update_campaign_ids).
  rewrite Hf1. change (c_status (add_amount amount c)) with (c_status c). rewrite Ha, andb_true_r.
  set (c1 := add_amount amount c). set (fresh := filter _ (checkMilestones _ _)).
  match goal with |- context [update_campaign i (with_status "closed") ?x] => set (t2 := x) end.
  set (c2 := match fresh with [] => c1 | _ => if ok then with_notified (notified_milestones c1 ++ fresh) c1 else c1 end).
  assert (H2 : find_campaign i t2 = Some c2 ∧ NoDup (c_id <$> t2)).
  { subst t2 c2. destruct fresh as [|m l]; [done|]. destruct ok; [|done].
    rewrite find_update, update_campaign_ids by done. by rewrite Hf1. }
  destruct H2 as [Hf2 Hn2]. destruct (num_geb _ _); (split_and!; [done|..|split]); try done.
  - by rewrite find_update, Hf2.
  - by rewrite update_campaign_ids.
Qed.

(** A sequence of contributions to one campaign, all of them stored. *)
Fixpoint contributions (l : list num) (i : Z) (t : table) : list num * table :=
  match l with
  | [] => ([], t)
  | a :: l =>
      let '(r, t) := processCampaignContribution true i a t in
      let '(ms, t) := contributions l i t in
      (new_milestones r ++ ms, t)
  end.

Lemma milestones_nodup : NoDup milestones.
Proof. apply (bool_decide_unpack _). vm_compute. done. Qed.

Lemma milestones_refl : Forall (λ m, num_eqb m m = true) milestones.
Proof. repeat constructor. Qed.

(** Announced and stored milestones are the same, without repetition. *)
Record inv (c : campaign) : Prop := {
  inv_nodup : NoDup (notified_milestones c);
  inv_known : Forall (λ m, m ∈ milestones) (notified_milestones c);
}.

Lemma not_includes m l : includes m l = false → num_eqb m m = true → m ∉ l.
Proof.
  unfold includes. intros Hi Hr Hin. induction l as [|x l IH]; [by apply elem_of_nil in Hin|].
  cbn in Hi. apply orb_false_elim in Hi as [Hx Hi]. apply elem_of_cons in Hin as [->|Hin]; [congruence|auto].
Qed.

Lemma contribute_notified amount c a c' :
  inv c → contribute true amount c = (a, c') →
  notified_milestones c' = notified_milestones c ++ new_milestones a ∧ inv c'.
Proof.
  intros [Hn Hk]. unfold contribute. destruct (bool_decide _); cbn [negb];
    [|intros [= <- <-]; cbn; by rewrite app_nil_r].
  change (notified_milestones (add_amount amount c)) with (notified_milestones c).
  set (fresh := filter _ _). assert (Hfresh : Forall (λ m, m ∈ milestones ∧ m ∉ notified_milestones c) fresh).
  { subst fresh. apply Forall_forall. intros m [Hi [_ Hm]%list_elem_of_filter]%list_elem_of_filter. split; [done|].
    apply not_includes; [done|]. by eapply (proj1 (Forall_forall _ _) milestones_refl). }
  assert (Hnd : NoDup fresh) by (subst fresh; apply NoDup_filter, NoDup_filter, milestones_nodup).
  set (c2 := match fresh with [] => add_amount amount c | _ => with_notified (notified_milestones c ++ fresh) (add_amount amount c) end).
  assert (Hc2 : notified_milestones c2 = notified_milestones c ++ fresh).
  { subst c2. destruct fresh; [by rewrite app_nil_r|done]. }
  assert (Hinv : ∀ c3, notified_milestones c3 = notified_milestones c ++ fresh → inv c3).
  { intros c3 Hc3. split; rewrite Hc3.
    - apply NoDup_app. split_and!; [done| |done]. intros m Hm Hf. rewrite Forall_forall in Hfresh.
      by destruct (Hfresh m Hf).
    - apply Forall_app. split; [done|]. eapply Forall_impl; [exact Hfresh|]. by intros ? [? ?]. }
  destruct (num_geb _ _); intros [= <- <-]; cbn [new_milestones]; split; auto.
Qed.

(** However donations arrive, each of the four milestones is announced at most
    once, and the announcements are the milestones stored. *)
Theorem milestones_once l i t c :
  wf t → find_campaign i t = Some c → notified_milestones c = [] →
  let '(ms, t') := contributions l i t in
  NoDup ms ∧ Forall (λ m, m ∈ milestones) ms ∧
  ∃ c', find_campaign i t' = Some c' ∧ notified_milestones c' = ms.
Proof.
  intros Hw Hf H0. destruct (contributions l i t) as [ms t'] eqn:Hrun.
  assert (Hgen : ∀ l t c ms t', wf t → find_campaign i t = Some c → inv c → contributions l i t = (ms, t') →
    ∃ c', find_campaign i t' = Some c' ∧ notified_milestones c' = notified_milestones c ++ ms ∧ inv c').
  { clear. intros l. induction l as [|a l IH]; intros t c ms t' Hw Hf Hi; cbn [contributions].
    - intros [= <- <-]. exists c. by rewrite app_nil_r.
    - pose proof (contribution_local true i a t c Hw Hf) as Hl.
      destruct (processCampaignContribution true i a t) as [r t1].
      destruct (contribute true a c) as [r' c1] eqn:Hc. destruct Hl as (-> & Hf1 & Hw1).
      destruct (contribute_notified _ _ _ _ Hi Hc) as [Hn1 Hi1].
      destruct (contributions l i t1) as [ms1 t2] eqn:Hr. intros [= <- <-].
      destruct (IH _ _ _ _ Hw1 Hf1 Hi1 Hr) as (c' & Hf' & Hn' & Hi'). exists c'. split_and!; [done| |done].
      by rewrite Hn', Hn1, <- app_assoc. }
  assert (Hinv : inv c) by (split; rewrite H0; constructor).
  destruct (Hgen _ _ _ _ _ Hw Hf Hinv Hrun) as (c' & Hf' & Hn & [Hnd Hk]).
  rewrite H0 in Hn. cbn in Hn. rewrite <- Hn. split_and!; [done..|]. by exists c'.
Qed.

(** The goal: a contribution that reaches it closes the campaign and says so;
    a closed campaign takes nothing more. *)
Theorem goal_closes ok i amount t c :
  wf t → find_campaign i t = Some c →
  let '(a, t') := processCampaignContribution ok i amount t in
  ∃ c', find_campaign i t' = Some c' ∧
  (c_status c ≠ "active" → c' = c ∧ a = nothing) ∧
  (c_status c = "active" →
    current_amount c' = num_add (current_amount c) amount ∧
    goal_reached a = num_geb (current_amount c') (goal_amount c) ∧
    c_status c' = if goal_reached a then "closed" else "active").
Proof.
  intros Hw Hf. pose proof (contribution_local ok i amount t c Hw Hf) as Hl.
  destruct (processCampaignContribution ok i amount t) as [a t'].
  destruct (contribute ok amount c) as [a' c'] eqn:Hc. destruct Hl as (-> & Hf' & _).
  exists c'. split; [done|]. revert Hc. unfold contribute. case_bool_decide as Ha; cbn [negb].
  - set (fresh := filter _ _). set (c2 := match fresh with [] => add_amount amount c | _ =>
      if ok then with_notified (notified_milestones (add_amount amount c) ++ fresh) (add_amount amount c)
      else add_amount amount c end).
    assert (H2 : current_amount c2 = num_add (current_amount c) amount ∧ c_status c2 = c_status c).
    { subst c2. destruct fresh; [done|]. by destruct ok. }
    destruct H2 as [Hcur Hst]. destruct (num_geb _ _) eqn:Hg; intros [= <- <-]; cbn in *;
      (split; [done|]); intros _; rewrite Hcur; split_and!; congruence.
  - intros [= <- <-]. by split.
Qed.

(** ** CampaignMilestoneService *)

Definition MILESTONES : list (Z * Z) := [(25, 1); (50, 2); (75, 4); (100, 8)].   (* percent, bitmask *)

(** The percents newly reached, and the table: every write uses the mask read
    at the start. *)
Definition checkMilestones_mask (campaignId : Z) (t : table) : list Z * table :=
  match find_first (λ c, (c_id c =? campaignId) && negb (c_deleted c)) t with
  | None => ([], t)
  | Some c =>
      if num_leb (goal_amount c) num_zero || num_is_nan (goal_amount c) then ([], t)
      else
        let currentPercent := num_mul (num_div (current_amount c) (goal_amount c)) (num_of_Z 100) in
        let reachedMask := milestones_reached c in
        let fresh := filter (λ m : Z * Z, num_geb currentPercent (num_of_Z m.1) = true ∧
                                          Z.land reachedMask m.2 = 0) MILESTONES in
        (fresh.*1, foldl (λ t m, update_campaign campaignId (with_mask (Z.lor reachedMask m.2)) t) t fresh)
  end.

Definition resetMilestones (campaignId : Z) (t : table) : table := update_campaign campaignId (with_mask 0) t.

Definition half : campaign := mk_campaign 1 (num_of_Z 100) (num_of_Z 60) "active" [] 0 false.
(** A donation that passes two milestones stores the last only: the earlier
    one is announced again at every later check. *)
Example milestone_announced_again :
  let '(first, t1) := checkMilestones_mask 1 [half] in
  let '(second, t2) := checkMilestones_mask 1 t1 in
  first = [25; 50] ∧ milestones_reached <$> t1 = [2] ∧ second = [25] ∧ milestones_reached <$> t2 = [3].
Proof. vm_compute. auto. Qed.

Lemma milestones_once_witness :
  let '(ms, t') := contributions [num_of_Z 10; num_of_Z 20; num_of_Z 80] 1 [mk_campaign 1 (num_of_Z 100) num_zero "active" [] 0 false] in
  NoDup ms ∧ Forall (λ m, m ∈ milestones) ms ∧
  ∃ c', find_campaign 1 t' = Some c' ∧ notified_milestones c' = ms.
Proof.
  apply (milestones_once [num_of_Z 10; num_of_Z 20; num_of_Z 80] 1 [mk_campaign 1 (num_of_Z 100) num_zero "active" [] 0 false]
           (mk_campaign 1 (num_of_Z 100) num_zero "active" [] 0 false)); [|done|done].
  split. apply NoDup_singleton.
Defined.

Lemma goal_closes_witness :
  let '(a, t') := processCampaignContribution true 1 (num_of_Z 40) [half] in
  ∃ c', find_campaign 1 t' = Some c' ∧
  (c_status half ≠ "active" → c' = half ∧ a = nothing) ∧
  (c_status half = "active" →
    current_amount c' = num_add (current_amount half) (num_of_Z 40) ∧
    goal_reached a = num_geb (current_amount c') (goal_amount half) ∧
    c_status c' = if goal_reached a then "closed" else "active").
Proof. apply (goal_closes true 1 (num_of_Z 40) [half] half); [split; apply NoDup_singleton|done]. Defined.

End Campaigns.
