(* ===== verification/Crowdfunding.v ===== *)
(** * Crowdfunding ([src/src/services/CrowdfundingService.js],
      [src/src/services/AdminCrowdfundingService.js],
      [src/src/routes/campaigns.js])

    Pledges held in escrow, the settlement of a campaign, and the payouts of
    its milestones, over the campaigns of [Campaigns], which are created,
    changed by the administration and by [PATCH /campaigns/:id], and closed.
    A call is cut at the payments it waits for.  Payments are logged when the
    network is asked for them; its answers, and those of the database to the
    statements of a pledge and of a settlement, are arguments of the call.
    [public_of] is the public key of a secret
    ([Keypair.fromSecret]), which throws on an invalid one; [parse_date] is
    [Date.parse] on the texts of the API.  The [status] that some errors
    carry for the route is left out, and their messages leave out what the
    network answered. *)

From S2P Require Import Prelude JsString JsNumber JsMap Errors Campaigns.
Local Open Scope Z_scope.

Module Crowdfunding.

(** The columns of a campaign [Campaigns] does not use. *)
Record info := mk_info { funding_model : string; end_date : option string; recipient_public_key : option string }.

Record escrow := mk_escrow { e_id : Z; e_campaign : Z; e_donor : Z; e_amount : num; e_status : string }.
Record milestone := mk_milestone {
  m_id : Z; m_campaign : Z; target_amount : num; m_status : string; verified_by : option string; fund_release_tx : option string
}.

(** What the network was asked for: the text of the amount is what was sent.  A
    refund names its pledge and a release its pledges, which their memos do
    not. *)
Inductive movement :=
| Deposit (c : Z) (to : string) (amount : string)
| Release (c : Z) (l : list Z) (to : string) (amount : string)
| Refund (c : Z) (i : Z) (to : string) (amount : string)
| MilestoneRelease (c m : Z) (to : string) (amount : string).

Record st := mk_st {
  table : Campaigns.table;
  infos : gmap Z info;
  escrows : list escrow;        (* in order of identifiers *)
  next_id : Z;                  (* AUTOINCREMENT *)
  campaign_milestones : list milestone;
  ledger : list movement;
}.
Definition M := stx jserror st.

Definition set_table (t : Campaigns.table) (s : st) : st := mk_st t (infos s) (escrows s) (next_id s) (campaign_milestones s) (ledger s).
Definition set_escrows (l : list escrow) (s : st) : st := mk_st (table s) (infos s) l (next_id s) (campaign_milestones s) (ledger s).
Definition set_milestones (l : list milestone) (s : st) : st := mk_st (table s) (infos s) (escrows s) (next_id s) l (ledger s).
Definition set_info (c : Z) (i : info) (s : st) : st := mk_st (table s) (<[c:=i]> (infos s)) (escrows s) (next_id s) (campaign_milestones s) (ledger s).
Definition log_movement (m : movement) (s : st) : st := mk_st (table s) (infos s) (escrows s) (next_id s) (campaign_milestones s) (ledger s ++ [m]).

(** A function that does not throw. *)
Definition lift_fun {A} (f : st → A * st) : M A := λ s, let '(x, s') := f s in (Ret x, s').
Definition fails {A} (message : string) : outcome jserror A := Throw (EPlain message).
Definition truthy (x : option string) : option string :=
  match x with Some s => if is_empty s then None else Some s | None => None end.
Definition or_str (a b : option string) : option string := match truthy a with Some s => Some s | None => truthy b end.

(** [SELECT * FROM campaigns WHERE id = ? AND deleted_at IS NULL] *)
Definition get_campaign (c : Z) (s : st) : option (Campaigns.campaign * info) :=
  r ← find_first (λ r, (Campaigns.c_id r =? c) && negb (Campaigns.c_deleted r)) (table s);
  i ← infos s !! c;
  Some (r, i).

Section service.
Context (parse_date : string → option Z) (public_of : string → outcome jserror string).
(** [process.env.SERVICE_SECRET_KEY] *)
Context (SERVICE_SECRET_KEY : option string).

(** The statements that write during a pledge and a settlement; one that fails
    changes nothing. *)
Inductive stmt := InsertPledge | AddAmount | MarkPledges | MarkCampaign.

Section users.
(** The public key of a donor: no such user, or a user with or without one. *)
Context (user : Z → option (option string)).

Definition key_of (secret : option string) : outcome jserror (option string) :=
  match truthy secret with None => Ret None | Some k => p ← public_of k; Ret (Some p) end.

(** ** Pledging *)

(** Up to the payment: the escrow account, if there is one. *)
Definition pledge_start (now c donor : Z) (escrowOverride : option string) (s : st) : outcome jserror (option string) :=
  match get_campaign c s with
  | None => fails "Campaign not found"
  | Some (r, i) =>
      if negb (bool_decide (funding_model i = "all-or-nothing")) then fails "Campaign is not all-or-nothing"
      else if negb (bool_decide (Campaigns.c_status r = "active")) then fails "Campaign is not accepting pledges"
      else if match truthy (end_date i) with
              | Some d => match parse_date d with Some t => t <? now | None => false end
              | None => false
              end then fails "Campaign deadline has passed"
      else match user donor with
           | None => fails "Donor not found"
           | Some _ => match truthy escrowOverride with Some k => Ret (Some k) | None => key_of SERVICE_SECRET_KEY end
           end
  end.

(** The payment into escrow and its answer. *)
Definition pledge_pay (c : Z) (to : option string) (amount : num) (a : outcome jserror unit) : M unit :=
  match to with
  | None => mret ()
  | Some k => modify_st (log_movement (Deposit c k (num_to_string amount)));; lift_out a
  end.

Definition insert_escrow (c donor : Z) (amount : num) (s : st) : st :=
  mk_st (table s) (infos s) (escrows s ++ [mk_escrow (next_id s) c donor amount "held"]) (next_id s + 1) (campaign_milestones s) (ledger s).

(** The row, the amount of the campaign, its milestones: the identifier. *)
Definition pledge_record (db : stmt → outcome jserror unit) (c donor : Z) (amount : num) : M Z :=
  s ← get_st;
  lift_out (db InsertPledge);;
  modify_st (insert_escrow c donor amount);;
  lift_out (db AddAmount);;
  modify_st (λ s, set_table (Campaigns.update_campaign c (Campaigns.add_amount amount) (table s)) s);;
  modify_st (λ s, set_table (Campaigns.checkMilestones_mask c (table s)).2 s);;
  mret (next_id s).

Definition pledge (now c donor : Z) (amount : num) (escrowOverride : option string) (a : outcome jserror unit)
  (db : stmt → outcome jserror unit) : M Z :=
  s ← get_st;
  to ← lift_out (pledge_start now c donor escrowOverride s);
  pledge_pay c to amount a;;
  pledge_record db c donor amount.

(** ** Settlement *)

Inductive settlement := Released | Refunded.
Definition status_of (o : settlement) : string := match o with Released => "released" | Refunded => "refunded" end.
Record result := mk_result { r_outcome : string; totalAmount : num; count : Z }.

Definition sum (l : list escrow) : num := foldl (λ x p, num_add x (e_amount p)) num_zero l.
Definition of_campaign (c : Z) (p : escrow) : bool := e_campaign p =? c.
Definition is_held (c : Z) (p : escrow) : bool := of_campaign c p && bool_decide (e_status p = "held").
Definition held (c : Z) (s : st) : list escrow := filter (λ p, is_held c p = true) (escrows s).
Definition report (c : Z) (o : string) (s : st) : result :=
  let l := filter (λ p, of_campaign c p = true) (escrows s) in mk_result o (sum l) (Z.of_nat (length l)).

(** What a call knows when it starts to pay; the pledges of users that are
    gone are not joined. *)
Record plan := mk_plan { p_outcome : settlement; p_escrow : option string; p_to : option string; p_pledges : list escrow }.

Definition settle_start (c : Z) (escrowSecret : option string) (s : st) : outcome jserror (result + plan) :=
  match get_campaign c s with
  | None => fails "Campaign not found"
  | Some (r, i) =>
      if negb (bool_decide (funding_model i = "all-or-nothing")) then fails "Campaign is not all-or-nothing"
      else if bool_decide (Campaigns.c_status r = "released") || bool_decide (Campaigns.c_status r = "refunded")
      then Ret (inl (report c (Campaigns.c_status r) s))
      else
        let goalMet := num_geb (Campaigns.current_amount r) (Campaigns.goal_amount r) in
        key ← key_of (or_str escrowSecret SERVICE_SECRET_KEY);
        Ret (inr (mk_plan (if goalMet then Released else Refunded) key (truthy (recipient_public_key i))
               (filter (λ p, match user (e_donor p) with Some _ => true | None => false end = true) (held c s))))
  end.

(** The answer of the network to the release and to the refund of each pledge. *)
Definition refund_of (c : Z) (p : escrow) : option movement :=
  match user (e_donor p) with
  | Some k => match truthy k with Some k => Some (Refund c (e_id p) k (num_to_string (e_amount p))) | None => None end
  | None => None
  end.

Fixpoint refund_all (c : Z) (a : Z → outcome jserror unit) (l : list escrow) : M unit :=
  match l with
  | [] => mret ()
  | p :: l =>
      match refund_of c p with
      | None => mret ()
      | Some m => modify_st (log_movement m);;
                  match a (e_id p) with
                  | Ret _ => mret ()
                  | Throw _ => lift_out (fails ("Stellar refund payment failed for pledge " +:+ Z_to_string (e_id p)))
                  end
      end;;
      refund_all c a l
  end.

Definition settle_pay (c : Z) (a : Z → outcome jserror unit) (p : plan) : M unit :=
  match p_outcome p with
  | Released =>
      match p_escrow p, p_to p with
      | Some _, Some k =>
          let total := sum (p_pledges p) in
          if num_gtb total num_zero then
            modify_st (log_movement (Release c (e_id <$> p_pledges p) k (num_to_string total)));;
            match a 0 with
            | Ret _ => mret ()
            | Throw _ => lift_out (fails "Stellar release payment failed")
            end
          else mret ()
      | _, _ => mret ()
      end
  | Refunded => match p_escrow p with Some _ => refund_all c a (p_pledges p) | None => mret () end
  end.

Definition with_escrow_status (x : string) (p : escrow) : escrow :=
  mk_escrow (e_id p) (e_campaign p) (e_donor p) (e_amount p) x.

(** The two updates, whatever pledges were paid. *)
Definition mark_pledges (c : Z) (o : settlement) (s : st) : st :=
  set_escrows ((λ p, if is_held c p then with_escrow_status (status_of o) p else p) <$> escrows s) s.
Definition mark_campaign (c : Z) (o : settlement) (s : st) : st :=
  set_table (Campaigns.update_campaign c (Campaigns.with_status (status_of o)) (table s)) s.

Definition settle (c : Z) (escrowSecret : option string) (a : Z → outcome jserror unit)
  (db : stmt → outcome jserror unit) : M result :=
  s ← get_st;
  r ← lift_out (settle_start c escrowSecret s);
  match r with
  | inl r => mret r
  | inr p =>
      settle_pay c a p;;
      lift_out (db MarkPledges);;
      modify_st (mark_pledges c (p_outcome p));;
      lift_out (db MarkCampaign);;
      modify_st (mark_campaign c (p_outcome p));;
      s ← get_st;
      mret (report c (status_of (p_outcome p)) s)
  end.

(** [totalHeld] and [goalMet] *)
Definition getEscrowState (c : Z) (s : st) : outcome jserror (list escrow * num * bool) :=
  match get_campaign c s with
  | None => fails "Campaign not found"
  | Some (r, _) =>
      Ret (filter (λ p, of_campaign c p = true) (escrows s), sum (held c s),
           num_geb (Campaigns.current_amount r) (Campaigns.goal_amount r))
  end.

(** ** Milestones *)

Definition verify (by_ tx : string) (m : milestone) : milestone :=
  mk_milestone (m_id m) (m_campaign m) (target_amount m) "verified" (Some by_) (Some tx).
Definition update_milestone (i : Z) (f : milestone → milestone) (s : st) : st :=
  set_milestones ((λ m, if m_id m =? i then f m else m) <$> campaign_milestones s) s.

(** [ORDER BY target_amount ASC] *)
Definition by_target (l : list milestone) : list milestone :=
  js_sort (λ a b, if num_ltb (target_amount a) (target_amount b) then -1
                  else if num_ltb (target_amount b) (target_amount a) then 1 else 0) l.

(** There is no column [release_percentage]: the whole target is released.  A
    payment that fails leaves its milestone pending. *)
Definition release_of (m : milestone) : num := num_div (num_mul (target_amount m) (num_of_Z 100)) (num_of_Z 100).

Fixpoint release_all (c : Z) (to : string) (a : Z → outcome jserror string) (l : list milestone) (s : st) : list Z * st :=
  match l with
  | [] => ([], s)
  | m :: l =>
      match a (m_id m) with
      | Ret hash =>
          let s := log_movement (MilestoneRelease c (m_id m) to (num_to_string (release_of m))) s in
          let '(done, s) := release_all c to a l (update_milestone (m_id m) (verify "auto_release" hash) s) in
          (m_id m :: done, s)
      | Throw _ => release_all c to a l s
      end
  end.

Definition pending_reached (c : Z) (currentAmount : num) (s : st) : list milestone :=
  by_target (filter (λ m, (m_campaign m =? c) && bool_decide (m_status m = "pending") &&
                          num_leb (target_amount m) currentAmount = true) (campaign_milestones s)).

Definition checkAndReleaseMilestones (c : Z) (currentAmount : num) (escrowSecret : option string)
  (a : Z → outcome jserror string) : M (list Z) :=
  s ← get_st;
  match get_campaign c s with
  | None => mret []
  | Some (_, i) =>
      if negb (bool_decide (funding_model i = "keep-what-you-raise")) then mret []
      else
        match pending_reached c currentAmount s, or_str escrowSecret SERVICE_SECRET_KEY, truthy (recipient_public_key i) with
        | [], _, _ | _, None, _ | _, _, None => mret []
        | l, Some secret, Some to =>
            lift_out (public_of secret);;
            lift_fun (release_all c to a l)
        end
  end.

(** ** Administration *)

Definition CLOSED_STATUSES : list string := ["closed"; "expired"; "released"; "refunded"].

Definition with_goal (g : num) (r : Campaigns.campaign) : Campaigns.campaign :=
  Campaigns.mk_campaign (Campaigns.c_id r) g (Campaigns.current_amount r) (Campaigns.c_status r)
    (Campaigns.notified_milestones r) (Campaigns.milestones_reached r) (Campaigns.c_deleted r).

(** Deadline and goal, [None] where they are undefined; [others]: a valid name
    or a description is given.  [iso] prints a time as [toISOString] does. *)
Definition updateCampaign (iso : Z → string) (c : Z) (others : bool) (deadline : option string) (goal : option num) : M unit :=
  s ← get_st;
  match get_campaign c s with
  | None => lift_out (fails "Campaign not found")
  | Some (r, i) =>
      if bool_decide (Campaigns.c_status r ∈ CLOSED_STATUSES) then lift_out (fails "Cannot update a closed campaign")
      else
        d ← lift_out (match deadline with
                      | None => Ret (end_date i)
                      | Some d => match parse_date d with
                                  | None => fails "deadline must be a valid ISO 8601 date string"
                                  | Some t => Ret (Some (iso t))
                                  end
                      end);
        g ← lift_out (match goal with
                      | None => Ret (Campaigns.goal_amount r)
                      | Some g => if num_leb g num_zero then fails "goal must be a positive number" else Ret g
                      end);
        match others, deadline, goal with
        | false, None, None => lift_out (fails "No updatable fields provided")
        | _, _, _ =>
            modify_st (λ s, set_table (if goal is Some _ then Campaigns.update_campaign c (with_goal g) (table s) else table s) s);;
            modify_st (set_info c (mk_info (funding_model i) d (recipient_public_key i)))
        end
  end.

(** [createCampaign]: the identifiers the database gives to the campaign and to
    its first milestone are arguments. *)
Definition insert_campaign (c : Z) (goal : num) (i : info) (s : st) : st :=
  set_info c i (set_table (table s ++ [Campaigns.mk_campaign c goal num_zero "active" [] 0 false]) s).

Fixpoint insert_milestones (c m : Z) (l : list num) (s : st) : st :=
  match l with
  | [] => s
  | a :: l => insert_milestones c (m + 1) l
                (set_milestones (campaign_milestones s ++ [mk_milestone m c a "pending" None None]) s)
  end.

Definition blank (x : option string) : bool := match x with Some x => is_empty (trim x) | None => true end.

Definition createCampaign (iso : Z → string) (c m : Z) (name : option string) (goal : num)
  (deadline recipientPublicKey : option string) (milestones : list num) : M () :=
  if blank name then lift_out (fails "name is required")
  else if num_leb goal num_zero then lift_out (fails "goal must be a positive number")
  else
    t ← lift_out (match truthy deadline with
                  | Some d => match parse_date d with
                              | Some t => Ret t
                              | None => fails "deadline must be a valid ISO 8601 date string"
                              end
                  | None => fails "deadline must be a valid ISO 8601 date string"
                  end);
    if blank recipientPublicKey then lift_out (fails "recipientPublicKey is required")
    else if existsb (λ a, num_leb a num_zero) milestones then lift_out (fails "milestones: amount must be a positive number")
    else
      modify_st (insert_campaign c goal
                   (mk_info "keep-what-you-raise" (Some (iso t)) (trim <$> recipientPublicKey)));;
      modify_st (insert_milestones c m milestones).

(** [POST /campaigns]: the goal passed the schema; model and end as given. *)
Definition create_route (c : Z) (goal : num) (end_ model : option string) (s : st) : bool * st :=
  if num_geb goal (num_of_Z 1) && num_is_finite goal &&
     match model with Some m => bool_decide (m ∈ ["all-or-nothing"; "keep-what-you-raise"]) | None => true end
  then (true, insert_campaign c goal (mk_info (default "keep-what-you-raise" model) (truthy end_) None) s)
  else (false, s).

(** [PATCH /campaigns/:id]: what its schema lets through, and the row with the
    given fields, whatever its status is. *)
Record patch := mk_patch { others : bool; goal_amount : option num; new_end : option string; new_status : option string }.
Inductive patch_reply := Invalid | NoFields | PatchNotFound | Patched.

Definition PATCH_STATUSES : list string := ["active"; "paused"; "completed"; "cancelled"].
Definition patch_valid (p : patch) : bool :=
  match goal_amount p with Some g => negb (num_ltb g (num_of_Z 1)) | None => true end &&
  match new_status p with Some x => bool_decide (x ∈ PATCH_STATUSES) | None => true end.
Definition patch_fields (p : patch) : bool :=
  others p || match goal_amount p with Some _ => true | None => false end ||
  match new_end p with Some _ => true | None => false end ||
  match new_status p with Some _ => true | None => false end.

Definition patched (p : patch) (r : Campaigns.campaign) : Campaigns.campaign :=
  let r := match goal_amount p with Some g => with_goal g r | None => r end in
  match new_status p with Some x => Campaigns.with_status x r | None => r end.

Definition patch_campaign (c : Z) (p : patch) (s : st) : patch_reply * st :=
  if negb (patch_valid p) then (Invalid, s)
  else if negb (patch_fields p) then (NoFields, s)
  else match Campaigns.find_campaign c (table s), infos s !! c with
       | Some _, Some i =>
           let i := match new_end p with
                    | Some d => mk_info (funding_model i) (Some d) (recipient_public_key i)
                    | None => i
                    end in
           (Patched, set_info c i (set_table (Campaigns.update_campaign c (patched p) (table s)) s))
       | _, _ => (PatchNotFound, s)
       end.

(** [GET /campaigns]: [past] is the comparison of [end_date] with the time in the database. *)
Definition expire_ended (past : Z → bool) (s : st) : st :=
  set_table ((λ r, if bool_decide (Campaigns.c_status r = "active") && past (Campaigns.c_id r)
                   then Campaigns.with_status "expired" r else r) <$> table s) s.

(** The loop of [closeCampaign] over the rows it read: the payouts. *)
Fixpoint pay_milestones (tx : Z → string) (raised : num) (l : list milestone) (s : st) : list Z * st :=
  match l with
  | [] => ([], s)
  | m :: l =>
      if num_geb raised (target_amount m) && negb (bool_decide (m_status m = "verified")) then
        let '(paid, s) := pay_milestones tx raised l (update_milestone (m_id m) (verify "system_close" (tx (m_id m))) s) in
        (m_id m :: paid, s)
      else pay_milestones tx raised l s
  end.

Definition closeCampaign (tx : Z → string) (c : Z) : M (list Z) :=
  s ← get_st;
  match get_campaign c s with
  | None => lift_out (fails "Campaign not found")
  | Some (r, _) =>
      if bool_decide (Campaigns.c_status r = "closed") then mret []
      else
        modify_st (λ s, set_table (Campaigns.update_campaign c (Campaigns.with_status "closed") (table s)) s);;
        s ← get_st;
        lift_fun (pay_milestones tx (Campaigns.current_amount r)
                    (by_target (filter (λ m, (m_campaign m =? c) = true) (campaign_milestones s))))
  end.

(** [POST /admin/:id/milestones/:milestoneId/verify] *)
Inductive verify_reply := NoCampaign | NoMilestone | AlreadyVerified | Verified.
Definition verify_route (by_ tx : string) (c m : Z) (s : st) : verify_reply * st :=
  match get_campaign c s with
  | None => (NoCampaign, s)
  | Some _ =>
      match find_first (λ x, (m_id x =? m) && (m_campaign x =? c)) (campaign_milestones s) with
      | None => (NoMilestone, s)
      | Some x => if bool_decide (m_status x = "verified") then (AlreadyVerified, s)
                  else (Verified, update_milestone m (verify by_ tx) s)
      end
  end.

(** ** The row of a campaign *)

(** Updates of the table that keep what finds a row. *)
Definition keeps (f : Campaigns.campaign → Campaigns.campaign) : Prop :=
  ∀ r, Campaigns.c_id (f r) = Campaigns.c_id r ∧ Campaigns.c_deleted (f r) = Campaigns.c_deleted r.

Lemma get_campaign_map c f s :
  keeps f → get_campaign c (set_table (f <$> table s) s) = prod_map f id <$> get_campaign c s.
Proof.
  intros Hf. unfold get_campaign. cbn [table infos set_table].
  assert (H : ∀ t, find_first (λ r, (Campaigns.c_id r =? c) && negb (Campaigns.c_deleted r)) (f <$> t) =
                   f <$> find_first (λ r, (Campaigns.c_id r =? c) && negb (Campaigns.c_deleted r)) t).
  { induction t as [|r t IH]; [done|]. cbn. destruct (Hf r) as [-> ->]. by destruct (_ && _). }
  rewrite H. destruct (find_first _ (table s)) as [r|]; [|done]. cbn. by destruct (infos s !! c).
Qed.

Lemma get_campaign_Some c s r i :
  get_campaign c s = Some (r, i) → r ∈ table s ∧ Campaigns.c_id r = c.
Proof.
  unfold get_campaign. destruct (find_first _ _) as [x|] eqn:Hf; [|done]. cbn.
  destruct (infos s !! c); [|done]. intros [= -> ->]. apply find_first_Some in Hf as [Hin [Hc _]%andb_true_iff].
  by apply Z.eqb_eq in Hc.
Qed.

Lemma where_keeps c f : keeps f → keeps (λ r, if Campaigns.c_id r =? c then f r else r).
Proof. intros Hf r. destruct (_ =? _); [apply Hf|done]. Qed.

Lemma with_status_keeps x : keeps (Campaigns.with_status x).
Proof. by intros r. Qed.

(** Two calls read the same if tables and pledges are the same. *)
Lemma settle_start_ext c sec s s' :
  table s = table s' → infos s = infos s' → escrows s = escrows s' → settle_start c sec s = settle_start c sec s'.
Proof. intros Ht Hi He. unfold settle_start, get_campaign, report, held. by rewrite Ht, Hi, He. Qed.

Definition settle_record (c : Z) (o : settlement) (s : st) : st := mark_campaign c o (mark_pledges c o s).

(** ** Payments of a settlement *)

(** The state after payments. *)
Definition paid (l : list movement) (s : st) : st :=
  mk_st (table s) (infos s) (escrows s) (next_id s) (campaign_milestones s) (ledger s ++ l).

Lemma paid_nil s : paid [] s = s.
Proof. destruct s. unfold paid. cbn. by rewrite app_nil_r. Qed.
Lemma paid_app l l' s : paid l' (paid l s) = paid (l ++ l') s.
Proof. unfold paid. cbn. by rewrite app_assoc. Qed.

Definition payouts (c : Z) (p : plan) : list movement :=
  match p_escrow p with
  | None => []
  | Some _ =>
      match p_outcome p with
      | Refunded => omap (refund_of c) (p_pledges p)
      | Released => match p_to p with
                    | Some k => if num_gtb (sum (p_pledges p)) num_zero
                                then [Release c (e_id <$> p_pledges p) k (num_to_string (sum (p_pledges p)))] else []
                    | None => []
                    end
      end
  end.

Lemma refund_all_ok c a l s :
  (∀ p, p ∈ l → a (e_id p) = Ret ()) → refund_all c a l s = (Ret (), paid (omap (refund_of c) l) s).
Proof.
  revert s. induction l as [|p l IH]; intros s Ha; [by rewrite paid_nil|]. cbn [refund_all omap list_omap]. stx_unfold.
  destruct (refund_of c p) as [m|]; [stx_unfold; rewrite Ha by left; stx_unfold|].
  - change (log_movement m s) with (paid [m] s). rewrite IH by (intros; apply Ha; by right). by rewrite paid_app.
  - apply IH. intros; apply Ha; by right.
Qed.

(** Whatever the answers, a prefix of the refunds was asked for. *)
Lemma refund_all_run c a l s :
  ∃ l1, (refund_all c a l s).2 = paid l1 s ∧
        (is_ret (refund_all c a l s).1 = true → l1 = omap (refund_of c) l).
Proof.
  revert s. induction l as [|p l IH]; intros s; [exists []; by rewrite paid_nil|].
  cbn [refund_all omap list_omap]. stx_unfold. destruct (refund_of c p) as [m|]; stx_unfold; [|apply IH].
  destruct (a (e_id p)) as [[]|e]; stx_unfold; [|by exists [m]].
  destruct (IH (log_movement m s)) as (l1 & H2 & H3). exists (m :: l1).
  split; [rewrite H2; change (log_movement m s) with (paid [m] s); by rewrite paid_app|]. intros H. by rewrite H3.
Qed.

Lemma settle_pay_ok c a p s : (∀ i, a i = Ret ()) → settle_pay c a p s = (Ret (), paid (payouts c p) s).
Proof.
  intros Ha. unfold settle_pay, payouts. destruct (p_outcome p), (p_escrow p) as [k|]; try by rewrite paid_nil.
  - destruct (p_to p); [|by rewrite paid_nil]. destruct (num_gtb _ _); [|by rewrite paid_nil]. stx_unfold. by rewrite Ha.
  - apply refund_all_ok. auto.
Qed.

Lemma settle_pay_run c a p s :
  ∃ l1, (settle_pay c a p s).2 = paid l1 s ∧ (is_ret (settle_pay c a p s).1 = true → l1 = payouts c p).
Proof.
  assert (Hnil : ∃ l1, s = paid l1 s ∧ (true = true → l1 = [])) by (exists []; by rewrite paid_nil).
  unfold settle_pay, payouts. destruct (p_outcome p), (p_escrow p) as [k|]; try exact Hnil; [|apply refund_all_run].
  destruct (p_to p) as [to|]; [|exact Hnil]. destruct (num_gtb _ _); [|exact Hnil]. stx_unfold.
  eexists [_]. split; [|done]. by destruct (a 0).
Qed.

Lemma settle_run c sec a db s :
  settle c sec a db s =
    match settle_start c sec s with
    | Throw e => (Throw e, s)
    | Ret (inl r) => (Ret r, s)
    | Ret (inr p) =>
        let o := p_outcome p in
        match settle_pay c a p s with
        | (Ret _, s1) =>
            match db MarkPledges, db MarkCampaign with
            | Throw e, _ => (Throw e, s1)
            | Ret _, Throw e => (Throw e, mark_pledges c o s1)
            | Ret _, Ret _ => (Ret (report c (status_of o) (settle_record c o s1)), settle_record c o s1)
            end
        | (Throw e, s1) => (Throw e, s1)
        end
    end.
Proof.
  unfold settle. stx_unfold. destruct (settle_start c sec s) as [[r|p]|e]; [done| |done]. stx_unfold.
  destruct (settle_pay c a p s) as [[[]|e] s1]; [|done]. stx_unfold.
  destruct (db MarkPledges); [|done]. stx_unfold. by destruct (db MarkCampaign).
Qed.

Lemma settle_start_plan c sec s p :
  settle_start c sec s = Ret (inr p) →
  ∃ r i, get_campaign c s = Some (r, i) ∧ funding_model i = "all-or-nothing" ∧
    Campaigns.c_status r ≠ "released" ∧ Campaigns.c_status r ≠ "refunded" ∧
    p_outcome p = (if num_geb (Campaigns.current_amount r) (Campaigns.goal_amount r) then Released else Refunded) ∧
    key_of (or_str sec SERVICE_SECRET_KEY) = Ret (p_escrow p) ∧ p_to p = truthy (recipient_public_key i) ∧
    p_pledges p = filter (λ p, match user (e_donor p) with Some _ => true | None => false end = true) (held c s).
Proof.
  unfold settle_start. destruct (get_campaign c s) as [[r i]|]; [|done].
  destruct (decide (funding_model i = "all-or-nothing")); [rewrite bool_decide_true by done|by rewrite bool_decide_false].
  cbn [negb]. destruct (bool_decide (Campaigns.c_status r = "released")) eqn:H1; [done|].
  destruct (bool_decide (Campaigns.c_status r = "refunded")) eqn:H2; [done|]. cbn [orb].
  destruct (key_of _) as [k|err] eqn:Hk; [|done]. cbn. intros [= <-]. cbn. exists r, i.
  apply bool_decide_eq_false in H1, H2. done.
Qed.

Lemma held_record c o s : held c (settle_record c o s) = [].
Proof.
  unfold held, settle_record. cbn. apply filter_none, Forall_fmap, Forall_forall. intros p _. cbn. unfold is_held at 1.
  destruct (is_held c p) eqn:Hp; [|unfold is_held in Hp; by rewrite Hp].
  cbn. by destruct o, (of_campaign c _).
Qed.

Lemma get_campaign_record c o s r i :
  get_campaign c s = Some (r, i) → get_campaign c (settle_record c o s) = Some (Campaigns.with_status (status_of o) r, i).
Proof.
  intros Hg. pose proof (get_campaign_Some _ _ _ _ Hg) as [_ Hc].
  unfold settle_record, mark_campaign. set (s1 := mark_pledges c o s).
  assert (Hg1 : get_campaign c s1 = Some (r, i)) by done.
  unfold Campaigns.update_campaign.
  rewrite (get_campaign_map c _ s1 (where_keeps c _ (with_status_keeps _))), Hg1. cbn.
  by rewrite (proj2 (Z.eqb_eq _ _) Hc).
Qed.

(** A settled campaign answers from its rows. *)
Lemma settled_start c sec s r i o :
  get_campaign c s = Some (r, i) → funding_model i = "all-or-nothing" → Campaigns.c_status r = status_of o →
  settle_start c sec s = Ret (inl (report c (status_of o) s)).
Proof.
  intros Hg Hm Hs. unfold settle_start. rewrite Hg, Hm, Hs. rewrite bool_decide_true by done. by destruct o.
Qed.

Lemma settled_after c sec a db s x s' :
  settle c sec a db s = (Ret x, s') →
  ∃ r i o, get_campaign c s' = Some (r, i) ∧ funding_model i = "all-or-nothing" ∧ Campaigns.c_status r = status_of o ∧
           x = report c (status_of o) s'.
Proof.
  rewrite settle_run. destruct (settle_start c sec s) as [[y|p]|err0] eqn:Hst; [| |done].
  - intros [= <- <-]. revert Hst. unfold settle_start. destruct (get_campaign c s) as [[r i]|]; [|done].
    destruct (decide (funding_model i = "all-or-nothing")) as [Hm|]; [rewrite bool_decide_true by done|by rewrite bool_decide_false].
    cbn [negb]. destruct (bool_decide (Campaigns.c_status r = "released")) eqn:H1.
    { apply bool_decide_eq_true in H1. rewrite H1. intros [= <-]. by exists r, i, Released. }
    destruct (bool_decide (Campaigns.c_status r = "refunded")) eqn:H2; cbn [orb].
    { apply bool_decide_eq_true in H2. rewrite H2. intros [= <-]. by exists r, i, Refunded. }
    by destruct (key_of _).
  - cbv zeta. destruct (settle_pay_run c a p s) as (l1 & Hs & _).
    destruct (settle_pay c a p s) as [[[]|err] s1]; [|done]. cbn in Hs. subst s1.
    destruct (db MarkPledges); [|done]. destruct (db MarkCampaign); [|done]. intros [= <- <-].
    destruct (settle_start_plan _ _ _ _ Hst) as (r & i & Hg & Hm & _).
    eexists _, i, (p_outcome p). split; [apply get_campaign_record; exact Hg|]. done.
Qed.

(** A settlement with a network and a database that answer: the pledges held are paid to the
    recipient if the goal is met, and otherwise each goes back to its donor (whether or not the
    deadline has passed); afterwards nothing is held and the campaign has the status of the
    outcome. *)
Theorem settle_spec c sec a db s p :
  settle_start c sec s = Ret (inr p) → (∀ i, a i = Ret ()) → (∀ q, db q = Ret ()) →
  let s' := (settle c sec a db s).2 in
  (settle c sec a db s).1 = Ret (report c (status_of (p_outcome p)) s') ∧
  ledger s' = ledger s ++ payouts c p ∧ held c s' = [] ∧
  (∀ q, q ∈ escrows s → is_held c q = false → q ∈ escrows s') ∧
  ∃ r i, get_campaign c s = Some (r, i) ∧
    (p_outcome p = Released ↔ num_geb (Campaigns.current_amount r) (Campaigns.goal_amount r) = true) ∧
    get_campaign c s' = Some (Campaigns.with_status (status_of (p_outcome p)) r, i).
Proof.
  intros Hst Ha Hdb. cbv zeta. rewrite settle_run, Hst, settle_pay_ok, !Hdb by done. cbn [fst snd].
  split; [done|]. split; [done|]. split; [apply held_record|]. split.
  - intros q Hq Hh. cbn. apply list_elem_of_fmap. exists q. by rewrite Hh.
  - destruct (settle_start_plan _ _ _ _ Hst) as (r & i & Hg & _ & _ & _ & Ho & _). exists r, i.
    split; [done|]. split; [rewrite Ho; by destruct (num_geb _ _)|]. by apply get_campaign_record.
Qed.

(** Settling again answers the same and changes nothing, with any secret, network and database. *)
Theorem settle_idempotent c sec sec' a a' db db' s x s' :
  settle c sec a db s = (Ret x, s') → settle c sec' a' db' s' = (Ret x, s').
Proof.
  intros (r & i & o & Hg & Hm & Hs & ->)%settled_after. rewrite settle_run. by rewrite (settled_start _ _ _ r i o).
Qed.

(** A refund that fails leaves the refunds before it paid and their pledges held: the next
    settlement asks for them again. *)
Theorem failed_refund_paid_again c sec a a' db s p l1 q m l2 :
  settle_start c sec s = Ret (inr p) → p_outcome p = Refunded → p_escrow p ≠ None → p_pledges p = l1 ++ q :: l2 →
  (∀ x, x ∈ l1 → a (e_id x) = Ret ()) → a (e_id q) = Throw (EPlain "timeout") → refund_of c q = Some m →
  (∀ i, a' i = Ret ()) → (∀ x, db x = Ret ()) →
  let s1 := (settle c sec a db s).2 in
  is_ret (settle c sec a db s).1 = false ∧ escrows s1 = escrows s ∧
  ledger (settle c sec a' db s1).2 =
    ledger s ++ (omap (refund_of c) l1 ++ [m]) ++ omap (refund_of c) l1 ++ omap (refund_of c) (q :: l2).
Proof.
  intros Hst Ho Hk Hp Ha Hq Hm Ha' Hdb. cbv zeta.
  assert (Hrun : ∃ e, settle c sec a db s = (Throw e, paid (omap (refund_of c) l1 ++ [m]) s)).
  { rewrite settle_run, Hst. unfold settle_pay. rewrite Ho, Hp. destruct (p_escrow p); [|done]. clear Hst Hp. cbv zeta.
    assert (H : ∃ e, refund_all c a (l1 ++ q :: l2) s = (Throw e, paid (omap (refund_of c) l1 ++ [m]) s)); [|destruct H as [e ->]; eauto].
    revert s. induction l1 as [|x l1 IH]; intros s; cbn [app refund_all omap list_omap]; stx_unfold.
    - rewrite Hm. stx_unfold. rewrite Hq. cbn. eauto.
    - assert (Ha1 : ∀ y, y ∈ l1 → a (e_id y) = Ret ()) by (intros; apply Ha; by right).
      destruct (refund_of c x) as [m'|]; [stx_unfold; rewrite Ha by left; stx_unfold|by apply IH].
      destruct (IH Ha1 (log_movement m' s)) as [e He]. exists e.
      change (log_movement m' s) with (paid [m'] s) in *. rewrite paid_app in He. exact He. }
  destruct Hrun as [e Hrun]. rewrite Hrun. cbn [fst snd]. split; [done|]. split; [done|].
  rewrite settle_run, (settle_start_ext c sec _ s), Hst, settle_pay_ok, !Hdb by done. cbn.
  unfold payouts. rewrite Ho, Hp. destruct (p_escrow p); [|done]. by rewrite omap_app, <- !app_assoc.
Qed.

(** ** Pledges and settlements that overlap *)

Lemma mask_map c t :
  ∃ f, (Campaigns.checkMilestones_mask c t).2 = f <$> t ∧ keeps f ∧ ∀ r, Campaigns.c_status (f r) = Campaigns.c_status r.
Proof.
  assert (Hid : ∃ f, t = f <$> t ∧ keeps f ∧ ∀ r, Campaigns.c_status (f r) = Campaigns.c_status r).
  { exists id. by rewrite list_fmap_id. }
  unfold Campaigns.checkMilestones_mask. destruct (find_first _ t) as [r|]; [|exact Hid]. destruct (_ || _); [exact Hid|].
  cbv zeta. cbn [snd]. set (l := filter _ Campaigns.MILESTONES). clearbody l. clear Hid.
  set (mask := Campaigns.milestones_reached r). clearbody mask. clear r. revert t.
  induction l as [|m l IH]; intros t; cbn [foldl]; [exists id; by rewrite list_fmap_id|].
  destruct (IH (Campaigns.update_campaign c (Campaigns.with_mask (Z.lor mask m.2)) t)) as (f & -> & Hf & Hs).
  eexists. unfold Campaigns.update_campaign. rewrite <- list_fmap_compose. split; [reflexivity|].
  split; intros r; cbn; [split; [rewrite (proj1 (Hf _))|rewrite (proj2 (Hf _))]|rewrite Hs]; by destruct (_ =? _).
Qed.

Lemma record_map db c d amount s :
  (pledge_record db c d amount s).2 = s ∨
  ∃ f, (pledge_record db c d amount s).2 = set_table (f <$> table s) (insert_escrow c d amount s) ∧
       keeps f ∧ ∀ r, Campaigns.c_status (f r) = Campaigns.c_status r.
Proof.
  unfold pledge_record. stx_unfold. destruct (db InsertPledge) as [[]|]; [right|by left]. stx_unfold.
  destruct (db AddAmount) as [[]|]; stx_unfold; cbn [snd table set_table insert_escrow].
  2: { exists id. rewrite list_fmap_id. done. }
  destruct (mask_map c (Campaigns.update_campaign c (Campaigns.add_amount amount) (table s))) as (f & -> & Hf & Hs).
  unfold Campaigns.update_campaign. rewrite <- list_fmap_compose. eexists. split; [reflexivity|].
  split; intros r; cbn; [split; [rewrite (proj1 (Hf _))|rewrite (proj2 (Hf _))]|rewrite Hs]; by destruct (_ =? _).
Qed.

Lemma record_inserts db c d amount s :
  db InsertPledge = Ret () → insert_escrow c d amount s = insert_escrow c d amount s →
  escrows (pledge_record db c d amount s).2 = escrows s ++ [mk_escrow (next_id s) c d amount "held"].
Proof.
  intros Hdb _. unfold pledge_record. stx_unfold. rewrite Hdb. stx_unfold. by destruct (db AddAmount) as [[]|].
Qed.

(** A pledge whose payment is in flight while the campaign is settled is recorded as held, and
    settling the campaign again does not pay it out (unless it is first made active again). *)
Theorem late_pledge_stuck now c d amount ov k sec a db s x s1 :
  pledge_start now c d ov s = Ret (Some k) → settle c sec a db s = (Ret x, s1) → db InsertPledge = Ret () →
  let s2 := (pledge_record db c d amount (pledge_pay c (Some k) amount (Ret ()) s1).2).2 in
  Deposit c k (num_to_string amount) ∈ ledger s2 ∧
  mk_escrow (next_id s1) c d amount "held" ∈ held c s2 ∧
  ∀ sec' a' db', (settle c sec' a' db' s2).2 = s2.
Proof.
  intros _ (r & i & o & Hg & Hm & Hs & _)%settled_after Hdb. cbv zeta. unfold pledge_pay. stx_unfold. cbn [snd].
  set (s1' := log_movement _ s1). pose proof (record_inserts db c d amount s1' Hdb eq_refl) as He.
  destruct (record_map db c d amount s1') as [H|(f & H & Hf & Hst)].
  { exfalso. rewrite H in He. apply (f_equal length) in He. rewrite length_app in He. cbn in He. lia. }
  rewrite H. split_and!.
  - apply elem_of_app. right. by left.
  - unfold held. apply list_elem_of_filter. split; [unfold is_held, of_campaign; cbn; by rewrite Z.eqb_refl|].
    apply elem_of_app. right. by left.
  - intros sec' a' db'. set (s2 := set_table _ _).
    assert (Hg2 : get_campaign c s2 = Some (f r, i)).
    { change (get_campaign c (set_table (f <$> table (insert_escrow c d amount s1')) (insert_escrow c d amount s1')) = Some (f r, i)).
      rewrite (get_campaign_map c f (insert_escrow c d amount s1') Hf).
      change (get_campaign c (insert_escrow c d amount s1')) with (get_campaign c s1). by rewrite Hg. }
    rewrite settle_run. by rewrite (settled_start _ _ _ (f r) i o) by (rewrite ?Hst; done).
Qed.

(** ** Money leaves escrow once *)

(** The pledges of a payment out of escrow, and of all of them. *)
Definition covers (m : movement) : list Z :=
  match m with Refund _ i _ _ => [i] | Release _ l _ _ => l | _ => [] end.
Definition paid_ids (l : list movement) : list Z := l ≫= covers.

(** A pledge that is not held any more stays as it is. *)
Definition settled_row (c : Z) (s : st) (p : escrow) : Prop :=
  p ∈ escrows s ∧ e_campaign p = c ∧ e_status p ≠ "held".

(** A payment out of escrow is of pledges of its campaign that are settled, and of exactly their
    amounts. *)
Definition exact_movement (s : st) (m : movement) : Prop :=
  match m with
  | Refund c i _ amount => ∃ p, settled_row c s p ∧ e_id p = i ∧ amount = num_to_string (e_amount p)
  | Release c l _ amount => ∃ ps, Forall (settled_row c s) ps ∧ l = e_id <$> ps ∧ amount = num_to_string (sum ps)
  | _ => True
  end.

Record once_ok (s : st) : Prop := mk_once_ok {
  ok_ids : NoDup (e_id <$> escrows s);
  ok_next : ∀ p, p ∈ escrows s → e_id p < next_id s;
  ok_once : NoDup (paid_ids (ledger s));
  ok_exact : Forall (exact_movement s) (ledger s)
}.

Definition inward (m : movement) : Prop := match m with Deposit _ _ _ | MilestoneRelease _ _ _ _ => True | _ => False end.

Lemma paid_ids_app l l' : paid_ids (l ++ l') = paid_ids l ++ paid_ids l'.
Proof. apply bind_app. Qed.

Lemma inward_ids l : Forall inward l → paid_ids l = [].
Proof. induction 1 as [|m l Hm _ IH]; [done|]. cbn. fold (paid_ids l). rewrite IH. by destruct m. Qed.

Lemma exact_mono s s' : (∀ c p, settled_row c s p → settled_row c s' p) → ∀ m, exact_movement s m → exact_movement s' m.
Proof.
  intros H [] Hm; [done| | |done]; cbn in *.
  - destruct Hm as (ps & Hps & ? & ?). exists ps. split; [|done]. eapply Forall_impl; [exact Hps|]. apply H.
  - destruct Hm as (p & Hp & ?). exists p. split; [by apply H|done].
Qed.

(** Nothing but campaigns, milestones and payments of other kinds. *)
Lemma frame_ok l s s' :
  Forall inward l → escrows s' = escrows s → next_id s' = next_id s → ledger s' = ledger s ++ l →
  once_ok s → once_ok s'.
Proof.
  intros Hl He Hn Hg [H1 H2 H3 H4]. split; rewrite ?He, ?Hn, ?Hg; [done|done| |].
  - by rewrite paid_ids_app, (inward_ids l), app_nil_r.
  - apply Forall_app. split.
    + eapply Forall_impl; [exact H4|]. apply exact_mono. intros c p. unfold settled_row. by rewrite He.
    + eapply Forall_impl; [exact Hl|]. by intros [].
Qed.

Lemma same_escrow_ok s s' : escrows s' = escrows s → next_id s' = next_id s → ledger s' = ledger s → once_ok s → once_ok s'.
Proof. intros. apply (frame_ok [] s); [constructor|done|done|by rewrite app_nil_r|done]. Qed.

Lemma held_elem c p s : p ∈ held c s ↔ p ∈ escrows s ∧ e_campaign p = c ∧ e_status p = "held".
Proof.
  unfold held. rewrite list_elem_of_filter. unfold is_held, of_campaign.
  rewrite andb_true_iff, Z.eqb_eq, bool_decide_eq_true. tauto.
Qed.

Lemma mark_keeps c o s c' p : settled_row c' s p → settled_row c' (mark_pledges c o s) p.
Proof.
  intros (Hp & Hc & Hs). split; [|done]. cbn. apply list_elem_of_fmap. exists p. split; [|done].
  unfold is_held. by rewrite (bool_decide_false _ Hs), andb_false_r.
Qed.

Lemma mark_settles c o s p : p ∈ held c s → settled_row c (mark_pledges c o s) (with_escrow_status (status_of o) p).
Proof.
  intros (Hp & Hc & Hs)%held_elem. split; [|split; [done|by destruct o]].
  cbn. apply list_elem_of_fmap. exists p. split; [|done].
  unfold is_held, of_campaign. by rewrite (proj2 (Z.eqb_eq _ _) Hc), bool_decide_true.
Qed.

Lemma mark_ids c o s : e_id <$> escrows (mark_pledges c o s) = e_id <$> escrows s.
Proof. cbn. rewrite <- list_fmap_compose. apply list_fmap_ext. intros _ p _. cbn. by destruct (is_held c p). Qed.

Lemma mark_ok c o s : once_ok s → once_ok (mark_pledges c o s).
Proof.
  intros [H1 H2 H3 H4]. split; [by rewrite mark_ids| |done|].
  - intros q Hq. assert (Hi : e_id q ∈ e_id <$> escrows (mark_pledges c o s)) by by apply list_elem_of_fmap_2.
    rewrite mark_ids in Hi. apply list_elem_of_fmap in Hi as (x & -> & Hx). by apply (H2 x).
  - eapply Forall_impl; [exact H4|]. apply exact_mono. intros c' p. apply mark_keeps.
Qed.

Lemma sum_status x l : sum (with_escrow_status x <$> l) = sum l.
Proof. unfold sum. generalize num_zero. induction l as [|p l IH]; intros n; [done|]. cbn. apply IH. Qed.

(** What a settlement pays is of pledges it held, once each. *)
Lemma refunds_of c l : paid_ids (omap (refund_of c) l) `sublist_of` (e_id <$> l).
Proof.
  induction l as [|p l IH]; [done|]. cbn [omap list_omap fmap list_fmap].
  destruct (refund_of c p) as [m|] eqn:Hm; [|by apply sublist_cons].
  unfold refund_of in Hm. destruct (user _) as [k|]; [|done]. destruct (truthy k); [|done]. injection Hm as <-.
  cbn. by constructor.
Qed.

Lemma payouts_ids c sec s p : settle_start c sec s = Ret (inr p) → paid_ids (payouts c p) `sublist_of` (e_id <$> held c s).
Proof.
  intros (r & i & _ & _ & _ & _ & _ & _ & _ & Hp)%settle_start_plan. unfold payouts.
  assert (Hsub : (e_id <$> p_pledges p) `sublist_of` (e_id <$> held c s)) by (rewrite Hp; apply fmap_sublist, sublist_filter).
  destruct (p_escrow p); [|apply sublist_nil_l]. destruct (p_outcome p).
  - destruct (p_to p); [|apply sublist_nil_l]. destruct (num_gtb _ _); [|apply sublist_nil_l].
    cbn. by rewrite app_nil_r.
  - etrans; [apply refunds_of|done].
Qed.

Lemma payouts_exact c sec s p : settle_start c sec s = Ret (inr p) →
  Forall (exact_movement (mark_pledges c (p_outcome p) s)) (payouts c p).
Proof.
  intros (r & i & _ & _ & _ & _ & _ & _ & _ & Hp)%settle_start_plan. unfold payouts.
  assert (Hall : ∀ q, q ∈ p_pledges p → q ∈ held c s) by (intros q; rewrite Hp; by intros [_ ?]%list_elem_of_filter).
  set (o := p_outcome p). pose proof (λ q Hq, mark_settles c o s q (Hall q Hq)) as Hm. clearbody o.
  destruct (p_escrow p); [|constructor]. destruct o eqn:Ho.
  - destruct (p_to p); [|constructor]. destruct (num_gtb _ _); [|constructor]. constructor; [|constructor].
    exists (with_escrow_status (status_of Released) <$> p_pledges p). rewrite sum_status, <- list_fmap_compose. split; [|done].
    apply Forall_fmap, Forall_forall. intros q Hq. by apply Hm.
  - apply Forall_forall. intros m (q & Hq & Hr)%list_elem_of_omap. unfold refund_of in Hr.
    destruct (user _) as [k|]; [|done]. destruct (truthy k); [|done]. injection Hr as <-.
    exists (with_escrow_status (status_of Refunded) q). split; [by apply Hm|done].
Qed.

Lemma escrow_unique s p q : NoDup (e_id <$> escrows s) → p ∈ escrows s → q ∈ escrows s → e_id p = e_id q → p = q.
Proof. apply fmap_unique. Qed.

(** The pledges paid before are settled. *)
Lemma paid_settled s i : once_ok s → i ∈ paid_ids (ledger s) → ∃ c p, settled_row c s p ∧ e_id p = i.
Proof.
  intros Hok (m & Hi & Hm)%list_elem_of_bind. pose proof (proj1 (Forall_forall _ _) (ok_exact _ Hok) m Hm) as He.
  destruct m; cbn in Hi, He; try by apply elem_of_nil in Hi.
  - destruct He as (ps & Hps & -> & _). apply list_elem_of_fmap in Hi as (p & -> & Hp).
    exists c, p. split; [|done]. by apply (proj1 (Forall_forall _ _) Hps).
  - destruct He as (p & Hp & Hpi & _). apply list_elem_of_singleton in Hi as ->. by exists c, p.
Qed.

Lemma settle_ok c sec s p :
  settle_start c sec s = Ret (inr p) → once_ok s → once_ok (mark_pledges c (p_outcome p) (paid (payouts c p) s)).
Proof.
  intros Hst Hok. pose proof Hok as [H1 H2 H3 H4].
  pose proof (mark_ok c (p_outcome p) s Hok) as [M1 M2 _ M4]. split; [done|done| |].
  - change (NoDup (paid_ids (ledger s ++ payouts c p))). rewrite paid_ids_app.
    pose proof (payouts_ids _ _ _ _ Hst) as Hsub. apply NoDup_app. split_and!; [done| |].
    + intros i Hi Hp. destruct (paid_settled s i Hok Hi) as (c' & q & (Hq & _ & Hs) & Hqi).
      apply sublist_subseteq in Hsub. apply Hsub, list_elem_of_fmap in Hp as (x & Hx & (Hxin & _ & Hxs)%held_elem).
      assert (q = x) as -> by (apply (escrow_unique s); [done..|congruence]). done.
    + eapply sublist_NoDup; [|exact Hsub]. eapply sublist_NoDup; [exact H1|]. apply fmap_sublist, sublist_filter.
  - change (Forall (exact_movement (mark_pledges c (p_outcome p) s)) (ledger s ++ payouts c p)).
    apply Forall_app. split; [exact M4|]. by apply (payouts_exact c sec).
Qed.

(** A settlement that asked for payments and then fails is left out: see
    [failed_refund_paid_again]. *)
Definition whole (c : Z) (sec : option string) (a : Z → outcome jserror unit) (db : stmt → outcome jserror unit) (s : st) : Prop :=
  is_ret (settle c sec a db s).1 = true ∨ ledger (settle c sec a db s).2 = ledger s.

Lemma whole_ok c sec a db s : whole c sec a db s → once_ok s → once_ok (settle c sec a db s).2.
Proof.
  unfold whole. rewrite settle_run. destruct (settle_start c sec s) as [[r|p]|e] eqn:Hst; [done| |done]. cbv zeta.
  destruct (settle_pay_run c a p s) as (l1 & Hs & Hl). destruct (settle_pay c a p s) as [[[]|e] s1]; cbn in Hs, Hl; subst s1.
  - rewrite (Hl eq_refl). intros Hw Hok. pose proof (settle_ok c sec s p Hst Hok) as Hdone.
    destruct (db MarkPledges) as [[]|]; [destruct (db MarkCampaign) as [[]|]|]; cbn [fst snd is_ret] in *; [|done|].
    + by apply (same_escrow_ok (mark_pledges c (p_outcome p) (paid (payouts c p) s))).
    + destruct Hw as [?|Hw]; [done|]. cbn in Hw. by apply (same_escrow_ok s).
  - intros [?|H] Hok; [done|]. by apply (same_escrow_ok s).
Qed.

Lemma insert_ok c d amount l s : Forall inward l → once_ok s → once_ok (insert_escrow c d amount (paid l s)).
Proof.
  intros Hl Hok. apply (frame_ok l s (paid l s)) in Hok; [|done..]. destruct Hok as [H1 H2 H3 H4]. split; [| |done|].
  - cbn. rewrite fmap_app. apply NoDup_app. split_and!; [done| |apply NoDup_singleton].
    intros i (p & -> & Hp)%list_elem_of_fmap Hi%list_elem_of_singleton. cbn in Hi. pose proof (H2 p Hp) as H. cbn in H. lia.
  - cbn. intros p [Hp| ->%list_elem_of_singleton]%elem_of_app; [pose proof (H2 p Hp) as H; cbn in H|cbn]; lia.
  - eapply Forall_impl; [exact H4|]. apply exact_mono. intros c' p (Hp & ?). split; [|done]. apply elem_of_app. by left.
Qed.

Lemma pledge_ok now c d amount ov a db s : once_ok s → once_ok (pledge now c d amount ov a db s).2.
Proof.
  intros Hok. unfold pledge. stx_unfold. destruct (pledge_start now c d ov s) as [to|e]; [|done]. stx_unfold.
  assert (Hpay : ∃ l, (pledge_pay c to amount a s).2 = paid l s ∧ Forall inward l).
  { unfold pledge_pay. destruct to as [k|]; stx_unfold; [|exists []; rewrite paid_nil; by split; [|constructor]].
    eexists [_]. split; [by destruct a|by repeat constructor]. }
  destruct Hpay as (l & Hl & Hin). destruct (pledge_pay c to amount a s) as [[[]|e] s1]; cbn in Hl; subst s1.
  - destruct (record_map db c d amount (paid l s)) as [->|(f & -> & _)]; [by apply (frame_ok l s)|].
    by apply (same_escrow_ok (insert_escrow c d amount (paid l s))), insert_ok.
  - by apply (frame_ok l s).
Qed.

End users.

(** Calls that do not overlap; each has its own answers of the network and the database, and the
    users may have changed. *)
Inductive step (s : st) : st → Prop :=
| step_create iso c m name goal d k l : step s (createCampaign iso c m name goal d k l s).2
| step_create_route c goal e m : step s (create_route c goal e m s).2
| step_patch c p : step s (patch_campaign c p s).2
| step_expire past : step s (expire_ended past s)
| step_pledge user now c d amount ov a db : step s (pledge user now c d amount ov a db s).2
| step_settle user c sec a db : whole user c sec a db s → step s (settle user c sec a db s).2
| step_contribution ok c amount : step s (set_table (Campaigns.processCampaignContribution ok c amount (table s)).2 s)
| step_update iso c others d g : step s (updateCampaign iso c others d g s).2
| step_close tx c : step s (closeCampaign tx c s).2
| step_release c amount sec a : step s (checkAndReleaseMilestones c amount sec a s).2
| step_verify by_ tx c m : step s (verify_route by_ tx c m s).2.

(** Milestones are none of escrow's business. *)
Lemma release_all_frame c to a l s :
  let s' := (release_all c to a l s).2 in
  escrows s' = escrows s ∧ next_id s' = next_id s ∧ ∃ ms, Forall inward ms ∧ ledger s' = ledger s ++ ms.
Proof.
  cbv zeta. revert s. induction l as [|m l IH]; intros s.
  { split_and!; [done..|]. exists []. by rewrite app_nil_r. }
  cbn [release_all]. destruct (a (m_id m)) as [h|e]; [|apply IH].
  set (s1 := update_milestone _ _ _). specialize (IH s1). destruct (release_all c to a l s1) as [d s2]. cbn in *.
  destruct IH as (-> & -> & ms & Hms & ->). split_and!; [done..|].
  exists (MilestoneRelease c (m_id m) to (num_to_string (release_of m)) :: ms).
  split; [by constructor|]. by rewrite <- app_assoc.
Qed.

Lemma insert_milestones_frame c m l s :
  let s' := insert_milestones c m l s in
  escrows s' = escrows s ∧ next_id s' = next_id s ∧ ledger s' = ledger s.
Proof. cbv zeta. revert m s. induction l as [|a l IH]; intros m s; [done|]. cbn [insert_milestones]. apply (IH (m + 1) (set_milestones _ s)). Qed.

Lemma pay_milestones_run tx raised l s :
  let due := filter (λ m, num_geb raised (target_amount m) && negb (bool_decide (m_status m = "verified")) = true) l in
  pay_milestones tx raised l s =
    (m_id <$> due,
     set_milestones ((λ m, if bool_decide (m_id m ∈ m_id <$> due) then verify "system_close" (tx (m_id m)) m else m) <$> campaign_milestones s) s).
Proof.
  cbv zeta. revert s. induction l as [|m l IH]; intros s.
  { cbn. f_equal. destruct s. unfold set_milestones. cbn. f_equal. rewrite <- (list_fmap_id campaign_milestones0) at 1.
    apply list_fmap_ext. intros _ m _. cbn. by rewrite bool_decide_false by apply not_elem_of_nil. }
  cbn [pay_milestones]. destruct (_ && _) eqn:Hd.
  - rewrite IH, filter_cons_True by done. set (D := filter _ l). cbn. f_equal. unfold set_milestones. cbn. f_equal.
    rewrite <- list_fmap_compose. apply list_fmap_ext. intros _ x _. cbn [compose].
    destruct (Z.eqb_spec (m_id x) (m_id m)) as [He|Hne].
    + assert (Hin : m_id x ∈ m_id m :: (m_id <$> D)) by (rewrite He; apply list_elem_of_here).
      rewrite (bool_decide_true _ Hin). unfold verify. cbn. rewrite !He. by match goal with |- (if ?b then _ else _) = _ => destruct b end.
    + rewrite (bool_decide_ext (m_id x ∈ m_id m :: (m_id <$> D)) (m_id x ∈ m_id <$> D)); [done|].
      rewrite elem_of_cons. tauto.
  - by rewrite IH, filter_cons_False by by rewrite Hd.
Qed.

Lemma create_ok iso c m name goal d k l s : once_ok s → once_ok (createCampaign iso c m name goal d k l s).2.
Proof.
  intros Hok. unfold createCampaign. destruct (blank name); [done|]. destruct (num_leb goal num_zero); [done|]. stx_unfold.
  destruct (truthy d) as [d'|]; [|done]. destruct (parse_date d'); [|done]. stx_unfold.
  destruct (blank k); [done|]. destruct (existsb _ l); [done|]. stx_unfold. cbn [snd].
  match goal with |- once_ok (insert_milestones c m l ?s1) =>
    destruct (insert_milestones_frame c m l s1) as (He & Hn & Hl); by apply (same_escrow_ok s); rewrite ?He, ?Hn, ?Hl end.
Qed.

Lemma once_step : preserves step once_ok.
Proof.
  intros s s' Hok Hs. destruct Hs as [iso c m name goal d k l|c goal e m|c p|past|user now c d amount ov a db|user c sec a db Hw|
    ok c amount|iso c others d g|tx c|c amount sec a|by_ tx c m].
  - by apply create_ok.
  - unfold create_route. destruct (_ && _ && _); [by apply (same_escrow_ok s)|done].
  - unfold patch_campaign. destruct (negb _); [done|]. destruct (negb _); [done|].
    destruct (Campaigns.find_campaign c (table s)); [|done]. destruct (infos s !! c); [|done]. by apply (same_escrow_ok s).
  - by apply (same_escrow_ok s).
  - by apply pledge_ok.
  - by apply whole_ok.
  - by apply (same_escrow_ok s).
  - unfold updateCampaign. stx_unfold. destruct (get_campaign c s) as [[r i]|]; [|done]. destruct (bool_decide _); [done|].
    destruct d as [d|]; [destruct (parse_date d)|]; (destruct g as [g|]; [destruct (num_leb g num_zero)|]); destruct others;
      stx_unfold; try done; cbn; by apply (same_escrow_ok s).
  - unfold closeCampaign. stx_unfold. destruct (get_campaign c s) as [[r i]|]; [|done]. destruct (bool_decide _); [done|].
    unfold lift_fun. stx_unfold. rewrite pay_milestones_run. cbn [fst snd]. by apply (same_escrow_ok s).
  - unfold checkAndReleaseMilestones. stx_unfold. destruct (get_campaign c s) as [[r i]|]; [|done].
    destruct (negb _); [done|]. destruct (pending_reached c amount s) as [|m l]; [done|].
    destruct (or_str sec SERVICE_SECRET_KEY) as [k|]; [|done]. destruct (truthy (recipient_public_key i)) as [to|]; [|done].
    stx_unfold. destruct (public_of k); [|done]. unfold lift_fun.
    destruct (release_all_frame c to a (m :: l) s) as (He & Hn & ms & Hms & Hl).
    destruct (release_all c to a (m :: l) s) as [dn s2]. cbn [fst snd] in *. by apply (frame_ok ms s).
  - unfold verify_route. destruct (get_campaign c s); [|done]. destruct (find_first _ _); [|done]. destruct (bool_decide _); [done|].
    by apply (same_escrow_ok s).
Qed.

(** C26: When calls do not overlap and no settlement fails after it asked for a payment, money leaves
    escrow once: the pledges refunded and those released are all different, each belongs to the
    campaign of its payment and is no longer held, a refund is of the amount of its pledge and a
    release of the sum of its pledges.  So it is whatever the network, the database and the table
    of users answer to each call, and whatever campaigns are created, changed, closed or made
    active again after they were settled. *)
Theorem escrow_paid_once t i ms s :
  rtc step (mk_st t i [] 1 ms []) s →
  NoDup (paid_ids (ledger s)) ∧ ∀ m, m ∈ ledger s → exact_movement s m.
Proof.
  intros Hr. assert (Hok : once_ok s).
  { eapply preserves_rtc; [apply once_step|exact Hr|].
    split; cbn; [apply NoDup_nil_2|by intros ? ?%elem_of_nil|apply NoDup_nil_2|constructor]. }
  split; [apply Hok|]. apply Forall_forall, Hok.
Qed.

(** Closing a campaign pays exactly the milestones its amount has reached that are not verified
    yet, and verifies these; closing it again pays none. *)
Theorem close_pays_reached tx tx' c s r i :
  get_campaign c s = Some (r, i) → Campaigns.c_status r ≠ "closed" →
  ∃ l s', closeCampaign tx c s = (Ret l, s') ∧
    (∀ m, m ∈ l ↔ ∃ x, x ∈ campaign_milestones s ∧ m_id x = m ∧ m_campaign x = c ∧ m_status x ≠ "verified" ∧
                       num_geb (Campaigns.current_amount r) (target_amount x) = true) ∧
    (∀ x, x ∈ campaign_milestones s' → m_id x ∈ l → m_status x = "verified" ∧ fund_release_tx x = Some (tx (m_id x))) ∧
    closeCampaign tx' c s' = (Ret [], s').
Proof.
  intros Hg Hc. do 2 eexists. split.
  { unfold closeCampaign. stx_unfold. rewrite Hg, bool_decide_false by done. unfold lift_fun. stx_unfold.
    rewrite pay_milestones_run. reflexivity. }
  set (l := filter _ (by_target _)). cbn [campaign_milestones set_table set_milestones]. split_and!.
  - intros m. rewrite list_elem_of_fmap. unfold l. split.
    + intros (x & -> & [Hd Hx]%list_elem_of_filter). exists x. unfold by_target in Hx.
      rewrite js_sort_perm in Hx. apply list_elem_of_filter in Hx as [Hm Hx]. apply Z.eqb_eq in Hm.
      apply andb_prop in Hd as [Hd Hv]. apply negb_true_iff, bool_decide_eq_false in Hv. done.
    + intros (x & Hx & <- & Hm & Hv & Hd). exists x. split; [done|]. apply list_elem_of_filter.
      split; [by rewrite Hd, bool_decide_false|]. unfold by_target. rewrite js_sort_perm. apply list_elem_of_filter.
      split; [by apply Z.eqb_eq|done].
  - intros x (y & -> & Hy)%list_elem_of_fmap. destruct (bool_decide (m_id y ∈ m_id <$> l)) eqn:Hd; [done|].
    apply bool_decide_eq_false in Hd. done.
  - unfold closeCampaign at 1. stx_unfold. set (s1 := set_milestones _ _).
    assert (Hg1 : get_campaign c s1 = Some (Campaigns.with_status "closed" r, i)).
    { pose proof (get_campaign_map c _ s (where_keeps c _ (with_status_keeps "closed"))) as H. rewrite Hg in H. cbn in H.
      apply get_campaign_Some in Hg as [_ Hid]. rewrite (proj2 (Z.eqb_eq _ _) Hid) in H. exact H. }
    rewrite Hg1. by rewrite bool_decide_true.
Qed.

End service.

(** ** A campaign of 100 with two pledges of 30 *)

Definition ex_date (s : string) : option Z := None.
Definition ex_public (k : string) : outcome jserror string := Ret ("G" +:+ k).
Definition ex_user (d : Z) : option (option string) :=
  if d =? 1 then Some (Some "GA") else if d =? 2 then Some (Some "GB") else None.
Definition ex_row : Campaigns.campaign := Campaigns.mk_campaign 1 (num_of_Z 100) num_zero "active" [] 0 false.
Definition ex_infos : gmap Z info := {[ 1 := mk_info "all-or-nothing" None (Some "GR") ]}.
Definition ex_start : st := mk_st [ex_row] ex_infos [] 1 [] [].
Definition ex_secret : option string := Some "S".
Definition ex_ok (i : Z) : outcome jserror unit := Ret ().
Definition ex_fail2 (i : Z) : outcome jserror unit := if i =? 2 then Throw (EPlain "timeout") else Ret ().
Definition ex_db (q : stmt) : outcome jserror unit := Ret ().
Definition ex_busy (q : stmt) : outcome jserror unit := match q with MarkPledges => Throw (EPlain "SQLITE_BUSY") | _ => Ret () end.
Definition ex_pledge (d : Z) (s : st) : st :=
  (pledge ex_date ex_public ex_secret ex_user 0 1 d (num_of_Z 30) None (Ret ()) ex_db s).2.
Definition ex_two : st := ex_pledge 2 (ex_pledge 1 ex_start).
Definition ex_settle (a : Z → outcome jserror unit) : M result := settle ex_public ex_secret ex_user 1 None a ex_db.
Definition ex_done : st := (ex_settle ex_ok ex_two).2.
Definition ex_p1 : escrow := mk_escrow 1 1 1 (num_of_Z 30) "held".
Definition ex_p2 : escrow := mk_escrow 2 1 2 (num_of_Z 30) "held".
Definition ex_plan : plan := mk_plan Refunded (Some "GS") (Some "GR") [ex_p1; ex_p2].

Example refunded_without_deadline :
  ledger ex_done = [Deposit 1 "GS" "30"; Deposit 1 "GS" "30"; Refund 1 1 "GA" "30"; Refund 1 2 "GB" "30"] ∧
  e_status <$> escrows ex_done = ["refunded"; "refunded"].
Proof. vm_compute. auto. Qed.

(** The UPDATE after the refunds fails: settling again refunds again. *)
Example lost_update_refunds_again :
  paid_ids (ledger (ex_settle ex_ok (settle ex_public ex_secret ex_user 1 None ex_ok ex_busy ex_two).2).2) = [1; 2; 1; 2].
Proof. vm_compute. reflexivity. Qed.

(** A refunded campaign of 60 is made active again with a goal of 50: the next settlement releases
    the new pledge only. *)
Definition ex_reopen : patch := mk_patch false (Some (num_of_Z 50)) None (Some "active").
Definition ex_open : st := (patch_campaign 1 ex_reopen ex_done).2.
Definition ex_third : st := ex_pledge 1 ex_open.
Definition ex_again : st := (ex_settle ex_ok ex_third).2.
Example reopened_releases_new :
  paid_ids (ledger ex_again) = [1; 2; 3] ∧ drop 5 (ledger ex_again) = [Release 1 [3] "GR" "30"].
Proof. vm_compute. auto. Qed.

Lemma settle_spec_witness :
  ledger ex_done = ledger ex_two ++ payouts ex_user 1 ex_plan ∧ held 1 ex_done = [].
Proof.
  destruct (settle_spec ex_public ex_secret ex_user 1 None ex_ok ex_db ex_two ex_plan ltac:(by vm_compute) ltac:(done) ltac:(done))
    as (_ & H1 & H2 & _). exact (conj H1 H2).
Defined.

Lemma settle_idempotent_witness :
  settle ex_public ex_secret ex_user 1 None ex_fail2 ex_busy ex_done = (Ret (mk_result "refunded" (num_of_Z 60) 2), ex_done).
Proof.
  exact (settle_idempotent ex_public ex_secret ex_user 1 None None ex_ok ex_fail2 ex_db ex_busy ex_two
    (mk_result "refunded" (num_of_Z 60) 2) ex_done ltac:(by vm_compute)).
Defined.

Lemma failed_refund_paid_again_witness :
  let s1 := (ex_settle ex_fail2 ex_two).2 in
  is_ret (ex_settle ex_fail2 ex_two).1 = false ∧ escrows s1 = escrows ex_two ∧
  ledger (ex_settle ex_ok s1).2 =
    ledger ex_two ++ ([Refund 1 1 "GA" "30"] ++ [Refund 1 2 "GB" "30"]) ++ [Refund 1 1 "GA" "30"] ++ [Refund 1 2 "GB" "30"].
Proof.
  exact (failed_refund_paid_again ex_public ex_secret ex_user 1 None ex_fail2 ex_ok ex_db ex_two ex_plan [ex_p1] ex_p2
    (Refund 1 2 "GB" "30") []
    ltac:(by vm_compute) eq_refl ltac:(done) eq_refl ltac:(by intros x ->%list_elem_of_singleton) ltac:(by vm_compute)
    ltac:(by vm_compute) ltac:(done) ltac:(done)).
Defined.

Lemma late_pledge_stuck_witness :
  let s2 := (pledge_record ex_db 1 1 (num_of_Z 30) (pledge_pay 1 (Some "GS") (num_of_Z 30) (Ret ()) ex_done).2).2 in
  Deposit 1 "GS" "30" ∈ ledger s2 ∧ mk_escrow 3 1 1 (num_of_Z 30) "held" ∈ held 1 s2 ∧
  ∀ sec' a' db', (settle ex_public ex_secret ex_user 1 sec' a' db' s2).2 = s2.
Proof.
  exact (late_pledge_stuck ex_date ex_public ex_secret ex_user 0 1 1 (num_of_Z 30) None "GS" None ex_ok ex_db ex_two
    (mk_result "refunded" (num_of_Z 60) 2) ex_done ltac:(by vm_compute) ltac:(by vm_compute) eq_refl).
Defined.

Lemma escrow_paid_once_witness :
  NoDup (paid_ids (ledger ex_again)) ∧ ∀ m, m ∈ ledger ex_again → exact_movement ex_again m.
Proof.
  assert (H1 : whole ex_public ex_secret ex_user 1 None ex_ok ex_db ex_two) by (left; vm_compute; reflexivity).
  assert (H2 : whole ex_public ex_secret ex_user 1 None ex_ok ex_db ex_third) by (left; vm_compute; reflexivity).
  apply (escrow_paid_once ex_date ex_public ex_secret [ex_row] ex_infos [] ex_again).
  eapply rtc_l; [exact (step_pledge ex_date ex_public ex_secret ex_start ex_user 0 1 1 (num_of_Z 30) None (Ret ()) ex_db)|].
  eapply rtc_l; [exact (step_pledge ex_date ex_public ex_secret (ex_pledge 1 ex_start) ex_user 0 1 2 (num_of_Z 30) None (Ret ()) ex_db)|].
  eapply rtc_l; [exact (step_settle ex_date ex_public ex_secret ex_two ex_user 1 None ex_ok ex_db H1)|].
  eapply rtc_l; [exact (step_patch ex_date ex_public ex_secret ex_done 1 ex_reopen)|].
  eapply rtc_l; [exact (step_pledge ex_date ex_public ex_secret ex_open ex_user 0 1 1 (num_of_Z 30) None (Ret ()) ex_db)|].
  eapply rtc_l; [exact (step_settle ex_date ex_public ex_secret ex_third ex_user 1 None ex_ok ex_db H2)|apply rtc_refl].
Defined.

Definition ex_milestone (i : Z) (target : Z) : milestone := mk_milestone i 1 (num_of_Z target) "pending" None None.
Definition ex_steps : st :=
  mk_st [Campaigns.mk_campaign 1 (num_of_Z 60) (num_of_Z 30) "active" [] 0 false]
    {[ 1 := mk_info "keep-what-you-raise" None (Some "GR") ]} [] 1
    [ex_milestone 1 30; ex_milestone 2 10; ex_milestone 3 20; ex_milestone 4 60] [].

Lemma close_pays_reached_witness :
  ∃ l s', closeCampaign (λ i, "tx") 1 ex_steps = (Ret l, s') ∧
    (∀ m, m ∈ l ↔ ∃ x, x ∈ campaign_milestones ex_steps ∧ m_id x = m ∧ m_campaign x = 1 ∧ m_status x ≠ "verified" ∧
                       num_geb (num_of_Z 30) (target_amount x) = true) ∧
    (∀ x, x ∈ campaign_milestones s' → m_id x ∈ l → m_status x = "verified" ∧ fund_release_tx x = Some "tx") ∧
    closeCampaign (λ i, "again") 1 s' = (Ret [], s').
Proof.
  exact (close_pays_reached (λ i, "tx") (λ i, "again") 1 ex_steps
    (Campaigns.mk_campaign 1 (num_of_Z 60) (num_of_Z 30) "active" [] 0 false) (mk_info "keep-what-you-raise" None (Some "GR"))
    ltac:(by vm_compute) ltac:(discriminate)).
Defined.

(** The targets of milestones are totals of the campaign, yet each milestone releases its whole
    target: of 30 raised, 10 and 20 and 30 are released. *)
Theorem milestones_release_cumulative :
  (checkAndReleaseMilestones ex_public ex_secret 1 (num_of_Z 30) None (λ _, Ret "tx") ex_steps).1 = Ret [2; 3; 1] ∧
  ledger (checkAndReleaseMilestones ex_public ex_secret 1 (num_of_Z 30) None (λ _, Ret "tx") ex_steps).2 =
    [MilestoneRelease 1 2 "GR" "10"; MilestoneRelease 1 3 "GR" "20"; MilestoneRelease 1 1 "GR" "30"].
Proof. vm_compute. auto. Qed.

End Crowdfunding.
