(* ===== verification/DonationChecks.v ===== *)
(** * Checks of a donation ([src/src/utils/donationValidator.js],
      [src/src/utils/overpaymentDetector.js], [src/src/utils/anonymization.js],
      [src/src/constants/tags.js])

    The amount and the limit of a day, the tags, the pseudonym of an anonymous
    donor and the surplus of a payment.  The limits come from the
    configuration, the digest from the platform; both are parameters. *)

From Stdlib Require Import Ascii SpecFloat.
From S2P Require Import Prelude JsString JsNumber Errors Money Matching Assets.
Local Open Scope Z_scope.

Module DonationChecks.
Import Money.

(** ** Amounts *)

(** [(s.split('.')[1] || '').length] *)
Definition decimals_of (s : string) : Z :=
  match split_on "." s with _ :: f :: _ => Z.of_nat (String.length f) | _ => 0 end.

(** An exponent that does not parse makes [NaN], which exceeds nothing: 0. *)
Definition getDecimalPlaces (x : num) : Z :=
  let str := num_to_string x in
  if str_includes "e" str || str_includes "E" str then
    match split_on "e" (to_lower str) with
    | base :: expStr :: _ =>
        match parse_int expStr with
        | Some exp => if exp <? 0 then decimals_of base + Z.abs exp else Z.max 0 (decimals_of base - exp)
        | None => 0
        end
    | _ => 0
    end
  else decimals_of str.

Section limits.
Context (minAmount maxAmount maxDailyPerDonor : num).

(** The code of the refusal, if any. *)
Definition validateAmount (amount : num) : option string :=
  if negb (num_is_finite amount) then Some "INVALID_AMOUNT_TYPE"
  else if 7 <? getDecimalPlaces amount then Some "INVALID_AMOUNT_PRECISION"
  else if num_leb amount num_zero then Some "AMOUNT_TOO_LOW"
  else if num_ltb amount minAmount then Some "AMOUNT_BELOW_MINIMUM"
  else if num_gtb amount maxAmount then Some "AMOUNT_EXCEEDS_MAXIMUM"
  else None.

(** What is left of the day, when the donation would exceed it. *)
Definition validateDailyLimit (amount dailyTotal : num) : option num :=
  if num_eqb maxDailyPerDonor num_zero then None
  else if num_gtb (num_add dailyTotal amount) maxDailyPerDonor
  then Some (num_max num_zero (num_sub maxDailyPerDonor dailyTotal)) else None.

Definition isValidRange (amount : num) : bool := num_geb amount minAmount && num_leb amount maxAmount.
End limits.

(** ** Tags *)

Definition PREDEFINED_TAGS : list string :=
  ["education"; "health"; "disaster-relief"; "technology"; "environment"; "humanitarian"; "arts"; "sports"; "animal-welfare"].
Definition CUSTOM_TAG_MAX_LENGTH : nat := 50.
Definition tag_char (c : ascii) : bool :=
  is_digit c || ((97 <=? char_code c) && (char_code c <=? 122)) || Ascii.eqb c "-" || Ascii.eqb c "_".
(** [CUSTOM_TAG_PATTERN.test(tag)] *)
Definition custom_tag (tag : string) : bool := negb (is_empty tag) && str_forall tag_char tag.

Definition validateTag (tag : string) : bool :=
  if is_empty tag then false
  else if bool_decide (tag ∈ PREDEFINED_TAGS) then true
  else (String.length tag <=? CUSTOM_TAG_MAX_LENGTH)%nat && custom_tag tag.

(** [_validateTags] of the donation service *)
Definition may_use_custom (role : string) : bool := bool_decide (role = "premium" ∨ role = "admin").
Definition _validateTags (tags : list string) (apiKeyRole : string) : outcome jserror unit :=
  if forallb (λ t, bool_decide (t ∈ PREDEFINED_TAGS) || may_use_custom apiKeyRole) tags then Ret ()
  else Throw ValidationError.

(** ** Pseudonyms *)

Section pseudonym.
(** The HMAC of a text under a secret, in hexadecimal; the environment. *)
Context (hmac : string → string → string) (secret_env : option string) (test_env : bool).

Definition getHmacSecret : outcome jserror string :=
  let fallback := if test_env then Ret "test-anonymous-donation-secret-do-not-use-in-production"
                  else Throw (EPlain "ANONYMOUS_DONATION_SECRET") in
  match secret_env with
  | Some s => if is_empty s then fallback else Ret s
  | None => fallback
  end.

Definition generatePseudonymousId (walletAddress : string) : outcome jserror string :=
  if is_empty (trim walletAddress) then Throw (EType "walletAddress must be a non-empty string")
  else secret ← getHmacSecret; Ret ("anon_" +:+ hmac secret (trim walletAddress)).

Definition verifyPseudonymousId (walletAddress pseudonymousId : string) : outcome jserror bool :=
  if is_empty (trim walletAddress) then Throw (EType "walletAddress must be a non-empty string")
  else if is_empty (trim pseudonymousId) then Throw (EType "pseudonymousId must be a non-empty string")
  else
    expected ← generatePseudonymousId walletAddress;
    let actual := trim pseudonymousId in
    Ret (if (String.length expected =? String.length actual)%nat then bool_decide (expected = actual) else false).

Definition hex_char (c : ascii) : bool := is_digit c || ((97 <=? char_code c) && (char_code c <=? 102)).
Definition isPseudonymousId (value : string) : bool :=
  starts_with "anon_" value && (String.length value =? 69)%nat && str_forall hex_char (str_drop 5 value).
End pseudonym.

(** ** Surplus *)

Definition round7 : num → num := Matching.round_to 7.

Record overpayment := mk_over {
  isOverpayment : bool;
  expectedTotal : num;
  receivedAmount : num;
  excessAmount : num;
  overpaymentPercentage : num;
}.

Definition detectOverpayment (received donationAmount expectedFee : num) : outcome jserror overpayment :=
  if negb (num_is_finite received) then Throw (EPlain "receivedAmount must be a finite number")
  else if negb (num_is_finite donationAmount) then Throw (EPlain "donationAmount must be a finite number")
  else if negb (num_is_finite expectedFee) then Throw (EPlain "expectedFee must be a finite number")
  else
    let expectedTotal := round7 (num_add donationAmount expectedFee) in
    let excess := round7 (num_sub received expectedTotal) in
    let isOver := num_gtb excess num_zero in
    Ret (mk_over isOver expectedTotal (round7 received) (if isOver then excess else num_zero)
           (if isOver then round7 (num_mul (num_div excess expectedTotal) (num_of_Z 100)) else num_zero)).

Definition buildOverpaymentRecord (received donationAmount expectedFee : num) : outcome jserror (option overpayment) :=
  result ← detectOverpayment received donationAmount expectedFee;
  Ret (if isOverpayment result then Some result else None).

(** ** The text of an amount *)

Lemma scaled_floor_nonneg m e k d : 0 <= k → 0 < d → 0 <= scaled_floor m e k d.
Proof.
  intros Hk Hd. unfold scaled_floor. destruct (Z.leb_spec 0 e).
  - apply Z.div_pos; [|done]. pose proof (Z.pow_nonneg 2 e ltac:(lia)). apply Z.mul_nonneg_nonneg; [|done]. lia.
  - pose proof (Z.pow_pos_nonneg 2 (- e) ltac:(lia) ltac:(lia)). apply Z.div_pos; [|lia]. lia.
Qed.

Lemma candidate_nonneg m e n k s n' : candidate m e n k = Some (s, n') → 0 <= s.
Proof.
  unfold candidate. cbv zeta.
  set (lo := if 0 <=? n - k then scaled_floor m e 1 _ else _). set (twice := if 0 <=? n - k then scaled_floor m e 2 _ else _).
  assert (Hp : ∀ j, 0 <= j → 0 < 10 ^ j) by (intros; by apply Z.pow_pos_nonneg).
  assert (Hlo : 0 <= lo).
  { unfold lo. destruct (Z.leb_spec 0 (n - k)); apply scaled_floor_nonneg; try lia; try (apply Z.lt_le_incl); apply Hp; lia. }
  assert (Htw : 0 <= twice).
  { unfold twice. destruct (Z.leb_spec 0 (n - k)); apply scaled_floor_nonneg; try lia; try (apply Hp; lia).
    all: pose proof (Hp (k - n) ltac:(lia)); lia. }
  pose proof (Z.div_pos (twice + 1) 2 ltac:(lia) ltac:(lia)).
  destruct (bool_decide _); [by intros [= <- _]|]. destruct (bool_decide _); [|done]. intros [= <- _]. case_match; lia.
Qed.

Lemma shortest_nonneg m e n fuel k : 0 <= (shortest m e n fuel k).1.
Proof.
  revert k. induction fuel as [|fuel IH]; intros k; cbn [shortest];
    destruct (candidate m e n k) as [[s n']|] eqn:Hc; try (by apply candidate_nonneg in Hc); [done|apply IH].
Qed.

Lemma strip_zeros_nonneg fuel s : 0 <= s → 0 <= strip_zeros fuel s.
Proof.
  revert s. induction fuel as [|fuel IH]; intros s Hs; cbn [strip_zeros]; [done|]. case_match; [|done].
  apply IH. apply Z.div_pos; lia.
Qed.

Lemma includes_char c s : str_includes (String c "") s = str_exists (λ d, Ascii.eqb c d) s.
Proof.
  induction s as [|d s IH]; [done|]. cbn -[Ascii.eqb]. rewrite andb_true_r. f_equal. exact IH.
Qed.
Lemma exists_app p s t : str_exists p (s +:+ t) = str_exists p s || str_exists p t.
Proof. induction s as [|c s IH]; [done|]. cbn. rewrite IH. by destruct (p c). Qed.

(** A positive Number is written with an exponent, or as digits with at most
    one point between them. *)
Inductive plain_text : string → Prop :=
| plain_integer w : all_digits w = true → plain_text w
| plain_fraction w f : all_digits w = true → all_digits f = true → plain_text (w +:+ String "." f).

Lemma all_digits_app a b : all_digits a = true → str_forall is_digit b = true → all_digits (a +:+ b) = true.
Proof.
  intros Ha Hb. unfold all_digits. rewrite str_forall_app, Hb, (all_digits_forall _ Ha). by destruct a.
Qed.

Lemma pos_text m e : str_includes "e" (pos_to_string m e) = true ∨ plain_text (pos_to_string m e).
Proof.
  unfold pos_to_string. pose proof (shortest_nonneg m e (dec_exponent m e) 17 1) as Hs0.
  destruct shortest as [s0 n0]. cbn [fst] in Hs0. cbv zeta.
  set (s := strip_zeros 17 s0). assert (Hs : 0 <= s) by by apply strip_zeros_nonneg.
  set (ds := nat_to_string s). assert (Hds : all_digits ds = true) by by apply nat_to_string_all_digits.
  set (n := if s =? 1 then _ else n0). pose proof (all_digits_forall _ Hds) as Hdf.
  destruct ((_ <=? n) && _) eqn:H1.
  { right. apply plain_integer. apply all_digits_app; [done|]. by apply str_forall_repeat. }
  destruct ((0 <? n) && (n <=? 21)) eqn:H2.
  { right. apply andb_prop in H2 as [H2 H2']. apply Z.ltb_lt in H2. rewrite H2', andb_true_r in H1. apply Z.leb_gt in H1.
    assert (Hn : (0 < Z.to_nat n < String.length ds)%nat) by lia.
    pose proof (str_take_length (Z.to_nat n) ds ltac:(lia)) as Ht.
    pose proof (str_length_app (str_take (Z.to_nat n) ds) (str_drop (Z.to_nat n) ds)) as Hl.
    rewrite str_drop_take in Hl.
    assert (Hd : (0 < String.length (str_drop (Z.to_nat n) ds))%nat) by lia.
    change ("." +:+ ?x) with (String "." x).
    apply plain_fraction; unfold all_digits; rewrite ?str_take_forall, ?str_drop_forall, andb_true_r by done.
    - destruct (str_take (Z.to_nat n) ds); [simpl in Ht; lia|done].
    - destruct (str_drop (Z.to_nat n) ds); [simpl in Hd; lia|done]. }
  destruct ((-6 <? n) && (n <=? 0)) eqn:H3.
  { right. change ("0." +:+ ?x) with ("0" +:+ String "." x). apply plain_fraction; [done|].
    unfold all_digits. rewrite str_forall_app, str_forall_repeat, Hdf by done. rewrite andb_true_r.
    unfold all_digits in Hds. apply andb_prop in Hds as [Hne _]. destruct ds; [done|]. by destruct (Z.to_nat (- n)). }
  left. rewrite includes_char. set (ex := (if 0 <? n - 1 then "e+" else "e-") +:+ nat_to_string (Z.abs (n - 1))).
  assert (Hex : str_exists (λ d, Ascii.eqb "e" d) ex = true).
  { unfold ex. rewrite exists_app. by destruct (0 <? n - 1). }
  case_match; rewrite !exists_app, Hex; by rewrite !orb_true_r.
Qed.

Lemma plain_text_decimal s : plain_text s →
  trim s = s ∧ ∃ d, decimal_of s = Some (false, d, Z.to_nat (decimals_of s)).
Proof.
  intros [w Hw|w f Hw Hf].
  - pose proof (all_digits_forall _ Hw) as Hwf. split; [by apply trim_id, digits_not_space|].
    assert (Hm : starts_with "-" w = false).
    { destruct w as [|c w]; [done|]. cbn in Hwf. apply andb_prop in Hwf as [Hc _].
      cbn -[Ascii.eqb]. destruct (Ascii.eqb_spec "-" c) as [<-|]; done. }
    assert (Hsp : split_on "." w = [w]) by by apply split_on_none, digits_not_char.
    exists (digits_val w). unfold decimal_of, xlm_pattern, decimals_of. rewrite !match_minus, Hsp, Hw by done. done.
  - destruct (decimal_of_parts false w f Hw Hf) as [Ht Hd]. cbn [String.append] in Ht, Hd. split; [exact Ht|].
    exists (digits_val (w +:+ f)). rewrite Hd. unfold decimals_of.
    rewrite split_on_app by by apply digits_not_char, all_digits_forall.
    rewrite split_on_none by by apply digits_not_char, all_digits_forall. by rewrite Nat2Z.id.
Qed.

Lemma exists_trim p s : (∀ c, is_space c = true → p c = false) → str_exists p (trim s) = str_exists p s.
Proof.
  intros Hp. unfold trim. transitivity (str_exists p (trim_start s)).
  - induction (trim_start s) as [|c t IH]; [done|]. cbn [trim_end str_exists]. rewrite <- IH.
    destruct (trim_end t); [|done]. destruct (is_space c) eqn:Hc; [|done]. cbn. by rewrite Hp.
  - induction s as [|c s IH]; [done|]. cbn. destruct (is_space c) eqn:Hc; [|done]. by rewrite IH, Hp.
Qed.

Lemma digits_no_e s : str_forall is_digit s = true → str_exists (λ d, Ascii.eqb "e" d) s = false.
Proof.
  induction s as [|c s IH]; [done|]. cbn -[Ascii.eqb]. intros [Hc Hs]%andb_prop. rewrite IH, orb_false_r by done.
  by destruct (Ascii.eqb_spec "e" c) as [<-|].
Qed.

Lemma xlm_no_e s : xlm_pattern s = true → str_exists (λ d, Ascii.eqb "e" d) s = false.
Proof.
  assert (Hb : ∀ b, match split_on "." b with [w] => all_digits w | [w; f] => all_digits w && all_digits f | _ => false end = true →
    str_exists (λ d, Ascii.eqb "e" d) b = false).
  { intros b. rewrite <- (str_join_split "." b) at 2. destruct (split_on "." b) as [|w [|f [|]]]; try done; cbn [str_join].
    - intros Hw%all_digits_forall. by apply digits_no_e.
    - intros [Hw%all_digits_forall Hf%all_digits_forall]%andb_prop. rewrite !exists_app, (digits_no_e w), (digits_no_e f) by done. done. }
  destruct (split_body s) as [Hs|Hs].
  - rewrite Hs. unfold xlm_pattern. intros H. apply Hb in H. cbn -[Ascii.eqb]. exact H.
  - unfold xlm_pattern. rewrite match_minus by done. apply Hb.
Qed.

Lemma positive_text a : num_is_finite a = true → num_leb a num_zero = false →
  str_includes "e" (num_to_string a) = true ∨ plain_text (num_to_string a).
Proof. destruct a as [| | |[] m e]; try done. intros _ _. apply pos_text. Qed.

(** ** Theorems *)

(** The stroops of an amount that is accepted are exact: nothing is cut.  The
    exception is an amount small or large enough to be written with an
    exponent, which the limits may allow and which makes the fee throw. *)
Theorem accepted_amount_exact minA maxA a :
  validateAmount minA maxA a = None →
  (str_includes "e" (num_to_string a) = true ∧
   ∃ msg, calculateAnalyticsFee (ANum a) None = Throw (EPlain msg)) ∨
  ∃ d k, decimal_of (num_to_string a) = Some (false, d, k) ∧ (k <= 7)%nat ∧
    toStroops (ANum a) = Ret (d * 10 ^ (7 - Z.of_nat k)).
Proof.
  unfold validateAmount. destruct (num_is_finite a) eqn:Hfin; [|done]. cbn [negb].
  destruct (Z.ltb_spec 7 (getDecimalPlaces a)) as [|Hdec]; [done|]. destruct (num_leb a num_zero) eqn:Hpos; [done|]. intros _.
  destruct (str_includes "e" (num_to_string a)) eqn:He.
  - left. split; [done|]. exists ("Invalid XLM amount: " +:+ num_to_string a).
    unfold calculateAnalyticsFee. cbn [default to_BigInt]. cbn -[toStroops]. rewrite toStroops_val. cbn [arg_to_string].
    unfold decimal_of. destruct (xlm_pattern (trim (num_to_string a))) eqn:Hx; [|done].
    apply xlm_no_e in Hx. rewrite exists_trim in Hx; [by rewrite includes_char, Hx in He|].
    intros c Hc. by destruct (Ascii.eqb_spec "e" c) as [<-|].
  - right. destruct (positive_text a Hfin Hpos) as [?|Hpl]; [congruence|].
    unfold getDecimalPlaces in Hdec. rewrite He in Hdec.
    assert (HE : str_includes "E" (num_to_string a) = false).
    { rewrite includes_char. destruct Hpl as [w Hw%all_digits_forall|w f Hw%all_digits_forall Hf%all_digits_forall];
        rewrite ?exists_app; cbn -[Ascii.eqb];
        assert (Hn : ∀ x, str_forall is_digit x = true → str_exists (λ d, Ascii.eqb "E" d) x = false);
        try (intros x; induction x as [|c x IH]; [done|]; cbn -[Ascii.eqb]; intros [Hc Hx]%andb_prop;
             rewrite IH, orb_false_r by done; by destruct (Ascii.eqb_spec "E" c) as [<-|]).
      - by apply Hn.
      - cbn. by rewrite !Hn. }
    rewrite HE in Hdec. cbn [orb] in Hdec. destruct (plain_text_decimal _ Hpl) as (Ht & d & Hd).
    exists d, (Z.to_nat (decimals_of (num_to_string a))).
    assert (H0 : 0 <= decimals_of (num_to_string a)) by (unfold decimals_of; repeat case_match; lia).
    split_and!; [done|lia|]. rewrite toStroops_val. cbn [arg_to_string]. rewrite Ht, Hd. f_equal. rewrite Z2Nat.id by done.
    set (k := decimals_of _) in *. unfold STROOPS_PER_XLM. change 10000000 with (10 ^ 7).
    replace (10 ^ 7) with (10 ^ (7 - k) * 10 ^ k) by (rewrite <- Z.pow_add_r by lia; f_equal; lia).
    rewrite Z.mul_assoc, Z.div_mul; [done|]. apply Z.pow_nonzero; lia.
Qed.

(** With no minimum, one stroop is accepted and its fee throws. *)
Example one_stroop_throws :
  let a := num_of_dec false 1 (-7) in
  validateAmount num_zero (num_of_Z 10000) a = None ∧ getDecimalPlaces a = 7 ∧
  calculateAnalyticsFee (ANum a) None = Throw (EPlain "Invalid XLM amount: 1e-7").
Proof. by vm_compute. Qed.

Lemma accepted_amount_exact_witness :
  validateAmount (num_of_dec false 1 (-2)) (num_of_Z 10000) (num_of_dec false 25 (-1)) = None ∧
  ((str_includes "e" (num_to_string (num_of_dec false 25 (-1))) = true ∧
    ∃ msg, calculateAnalyticsFee (ANum (num_of_dec false 25 (-1))) None = Throw (EPlain msg)) ∨
   ∃ d k, decimal_of (num_to_string (num_of_dec false 25 (-1))) = Some (false, d, k) ∧ (k <= 7)%nat ∧
     toStroops (ANum (num_of_dec false 25 (-1))) = Ret (d * 10 ^ (7 - Z.of_nat k))).
Proof.
  split; [by vm_compute|].
  exact (accepted_amount_exact (num_of_dec false 1 (-2)) (num_of_Z 10000) (num_of_dec false 25 (-1)) ltac:(by vm_compute)).
Defined.

(** A pseudonym has the recognised form, does not depend on white space around
    the address, and verifies for its address and no other pseudonym does. *)
Theorem pseudonym_spec (hmac : string → string → string) secret test_env w p :
  (∀ k s, String.length (hmac k s) = 64%nat ∧ str_forall hex_char (hmac k s) = true) →
  generatePseudonymousId hmac secret test_env w = Ret p →
  isPseudonymousId p = true ∧ generatePseudonymousId hmac secret test_env (trim w) = Ret p ∧
  ∀ q, trim q ≠ "" → verifyPseudonymousId hmac secret test_env w q = Ret (bool_decide (trim q = p)).
Proof.
  intros Hhex. unfold generatePseudonymousId. destruct (is_empty (trim w)) eqn:Hw; [done|].
  destruct (getHmacSecret secret test_env) as [k|] eqn:Hk; [|done]. cbn [mbind outcome_bind outcome_bind_def].
  intros [= <-]. destruct (Hhex k (trim w)) as [Hl Hc]. split_and!.
  - unfold isPseudonymousId. cbn -[str_forall hex_char Nat.eqb]. by rewrite Hl, Hc.
  - by rewrite trim_idem, Hw.
  - intros q Hq. unfold verifyPseudonymousId, generatePseudonymousId. rewrite Hw, Hk. cbn [mbind outcome_bind outcome_bind_def].
    destruct (is_empty (trim q)) eqn:Hqe; [revert Hq Hqe; by destruct (trim q)|]. f_equal.
    set (x := "anon_" +:+ _). destruct (Nat.eqb_spec (String.length x) (String.length (trim q))) as [|Hne].
    + apply bool_decide_ext. split; intros Heq; exact (eq_sym Heq).
    + symmetry. apply bool_decide_eq_false. intros Heq. apply Hne. by rewrite Heq.
Qed.

Definition ex_hmac (k s : string) : string := str_repeat 64 (if is_empty s then "0" else "a").
Lemma pseudonym_spec_witness :
  generatePseudonymousId ex_hmac (Some "s"%string) false " GABC " = Ret ("anon_" +:+ str_repeat 64 "a") ∧
  isPseudonymousId ("anon_" +:+ str_repeat 64 "a") = true.
Proof.
  split; [by vm_compute|].
  refine (proj1 (pseudonym_spec ex_hmac (Some "s"%string) false " GABC " ("anon_" +:+ str_repeat 64 "a") _ ltac:(by vm_compute))).
  intros k s. unfold ex_hmac. destruct (is_empty s); split; by vm_compute.
Defined.

(** A surplus is told from the amount in the currency of the request and a fee
    in XLM: 10 EUR worth 100 XLM, paid in full and with the fee, is flagged. *)
Example surplus_of_currencies :
  match buildOverpaymentRecord (num_of_Z 102) (num_of_Z 10) (num_of_Z 2) with
  | Ret (Some o) => num_to_string (excessAmount o) = "90" ∧ num_to_string (overpaymentPercentage o) = "750"
  | _ => False
  end.
Proof. by vm_compute. Qed.

End DonationChecks.
