(* ===== verification/Pledges.v ===== *)
(** * Pledges ([src/src/models/Pledge.js],
      [src/src/services/PledgeFulfillmentService.js],
      [src/src/routes/admin/pledges.js])

    The table [pledges], the conditions on which a pledge is paid, and its
    payment.  What a call reads of other tables (campaigns, their owners,
    donors), the answers of the network and of the webhook receivers, and the
    statements of the database that fail, are a record of functions of the
    pledge, another one for every call.  [parse_date] is [Date.parse] on the
    texts of the API. *)

From S2P Require Import Prelude JsString JsNumber Errors Money Campaigns.
Local Open Scope Z_scope.

Module Pledges.

Definition PENDING : string := "pending".
Definition FULFILLED : string := "fulfilled".
Definition EXPIRED : string := "expired".
Definition CANCELLED : string := "cancelled".

Record pledge := mk_pledge {
  id : string;
  campaign_id : option Z;
  donor_wallet_id : string;
  recipient_public_key : option string;
  amount : Z;                          (* INTEGER: stroops *)
  status : string;
  condition_type : string;
  condition_value : option string;
  condition_status : string;
  expires_at : option string;
  fulfilled_at : option Z;
  cancel_reason : option string;
  cancelled_at : option Z;
  webhook_sent_at : option Z;
}.

(** A payment of a pledge as the network is asked for it. *)
Record payment := mk_payment { p_pledge : string; p_secret : string; p_to : string; p_amount : Z }.

(** The table in order of insertion; the payments asked for, each with whether
    the service answered without an error (after one the payment may have been
    carried out or not); the pledges whose UPDATE failed after that; and the
    webhooks delivered. *)
Record st := mk_st {
  pledges : list pledge;
  payments : list (payment * bool);
  unmarked : list string;
  webhooks : list (string * string);
}.
Definition M := stx jserror st.

Definition set_pledges (l : list pledge) (s : st) : st := mk_st l (payments s) (unmarked s) (webhooks s).
Definition log_payment (p : payment * bool) (s : st) : st := mk_st (pledges s) (payments s ++ [p]) (unmarked s) (webhooks s).
Definition log_unmarked (i : string) (s : st) : st := mk_st (pledges s) (payments s) (unmarked s ++ [i]) (webhooks s).
Definition log_webhook (w : string * string) (s : st) : st := mk_st (pledges s) (payments s) (unmarked s) (webhooks s ++ [w]).

Definition update_where (p : pledge → bool) (f : pledge → pledge) (s : st) : st :=
  set_pledges ((λ r, if p r then f r else r) <$> pledges s) s.

Definition truthy (x : option string) : option string :=
  match x with Some s => if is_empty s then None else Some s | None => None end.
(** [a || b] *)
Definition or_str (a b : option string) : option string := match truthy a with Some s => Some s | None => b end.

(** ** The model *)

Definition VALID_CONDITION_TYPES : list string := ["campaign_goal_percent"; "date"; "manual"].

Definition normalizeConditionType (conditionType : option string) : outcome jserror string :=
  let normalized := trim (default "campaign_goal_percent" (truthy conditionType)) in
  if bool_decide (normalized ∈ VALID_CONDITION_TYPES) then Ret normalized
  else Throw (EPlain ("Unsupported pledge condition: " +:+ default "" conditionType)).

Section service.
Context (parse_date : string → option Z).

(** [Number(condition_value ?? 100)] *)
Definition threshold_of (condition_value : option string) : num :=
  match condition_value with Some s => num_of_string s | None => num_of_Z 100 end.

Definition check_condition (type : string) (condition_value expires_at : option string) : outcome jserror unit :=
  if bool_decide (type = "campaign_goal_percent") then
    let threshold := threshold_of condition_value in
    if negb (num_is_finite threshold) || num_leb threshold num_zero || num_gtb threshold (num_of_Z 100)
    then Throw (EPlain "campaign_goal_percent condition requires a value between 1 and 100") else Ret ()
  else if bool_decide (type = "date") then
    match or_str condition_value (truthy expires_at) with
    | Some s => match parse_date s with
                | Some _ => Ret ()
                | None => Throw (EPlain "date condition requires a valid ISO date")
                end
    | None => Ret ()
    end
  else Ret ().

Definition create (uuid : string) (campaign : option Z) (donor : string) (recipient_public_key_ recipient : option string)
  (amount_ : Money.arg) (type condition_value_ expires_at_ : option string) : M pledge :=
  amountStroops ← lift_out (Money.toStroops amount_);
  type ← lift_out (normalizeConditionType type);
  lift_out (check_condition type condition_value_ expires_at_);;
  let manual := bool_decide (type = "manual") in
  let row := mk_pledge uuid campaign donor (or_str recipient_public_key_ (truthy recipient)) amountStroops PENDING type
               (if manual then None else condition_value_) (if manual then "manual" else PENDING)
               (truthy expires_at_) None None None None in
  modify_st (λ s, set_pledges (pledges s ++ [row]) s);;
  mret row.

Definition is_pending (p : pledge) : bool := bool_decide (status p = PENDING).
Definition of_campaign (c : Z) (p : pledge) : bool := bool_decide (campaign_id p = Some c).
Definition by_id (i : string) (p : pledge) : bool := bool_decide (id p = i).

Definition findById (i : string) (s : st) : option pledge := find_first (by_id i) (pledges s).
Definition getPendingByCampaign (c : Z) (s : st) : list pledge :=
  filter (λ p, of_campaign c p && is_pending p = true) (pledges s).

Definition with_status (x : string) (p : pledge) : pledge :=
  mk_pledge (id p) (campaign_id p) (donor_wallet_id p) (recipient_public_key p) (amount p) x (condition_type p)
    (condition_value p) (condition_status p) (expires_at p) (fulfilled_at p) (cancel_reason p) (cancelled_at p)
    (webhook_sent_at p).
Definition fulfilled (now : Z) (p : pledge) : pledge :=
  mk_pledge (id p) (campaign_id p) (donor_wallet_id p) (recipient_public_key p) (amount p) FULFILLED (condition_type p)
    (condition_value p) "met" (expires_at p) (Some now) (cancel_reason p) (cancelled_at p) (webhook_sent_at p).
Definition cancelled (now : Z) (reason : option string) (p : pledge) : pledge :=
  mk_pledge (id p) (campaign_id p) (donor_wallet_id p) (recipient_public_key p) (amount p) CANCELLED (condition_type p)
    (condition_value p) (condition_status p) (expires_at p) (fulfilled_at p) reason (Some now) (webhook_sent_at p).
Definition marked (now : Z) (p : pledge) : pledge :=
  mk_pledge (id p) (campaign_id p) (donor_wallet_id p) (recipient_public_key p) (amount p) (status p) (condition_type p)
    (condition_value p) (condition_status p) (expires_at p) (fulfilled_at p) (cancel_reason p) (cancelled_at p) (Some now).

Definition fulfillAll (c : Z) : st → st := update_where (λ p, of_campaign c p && is_pending p) (with_status FULFILLED).
(** The texts are compared: [now] is an ISO text, [expires_at] what the client sent. *)
Definition overdue (now : string) (p : pledge) : bool :=
  is_pending p && match expires_at p with Some e => str_ltb e now | None => false end.
Definition Pledge_expireOverdue (now : string) (s : st) : Z * st :=
  (Z.of_nat (length (filter (λ p, overdue now p = true) (pledges s))), update_where (overdue now) (with_status EXPIRED) s).
Definition getNewlyExpiredPledges (now : string) (s : st) : list pledge :=
  filter (λ p, bool_decide (status p = EXPIRED) &&
               match expires_at p with Some e => str_ltb e now | None => false end &&
               bool_decide (webhook_sent_at p = None) = true) (pledges s).
Definition getNewlyFulfilledPledges (c : Z) (s : st) : list pledge :=
  filter (λ p, of_campaign c p && bool_decide (status p = FULFILLED) && bool_decide (webhook_sent_at p = None) = true) (pledges s).
Definition markWebhookSent (now : Z) (i : string) : st → st := update_where (by_id i) (marked now).
(** The number of changes is [result.changes]. *)
Definition cancel (now : Z) (i : string) (reason : option string) (s : st) : Z * st :=
  (Z.of_nat (length (filter (λ p, by_id i p && is_pending p = true) (pledges s))),
   update_where (λ p, by_id i p && is_pending p) (cancelled now reason) s).

(** ** Fulfilment *)

(** What the service reads elsewhere: campaigns, the public key of the owner of
    a campaign, the encrypted secret of a donor. *)
Record world := mk_world {
  campaign_of : Z → option Campaigns.campaign;
  owner_key : Z → option string;
  donor_secret : string → option string;
}.

(** The statements of a fulfilment: the reads of campaign, owner and donor, the
    UPDATE after the payment, the read of the row after that. *)
Inductive stmt := ReadAccounts | UpdateFulfilled | ReadUpdated.

(** What one call meets: the other tables, the network, the database on a
    pledge, and whether a webhook is received and its mark written. *)
Record answers := mk_answers {
  w : world;
  pay : payment → outcome jserror unit;
  db : stmt → string → outcome jserror unit;
  deliver : string → bool;
}.

Section call.
Context (a : answers).
Local Abbreviation w := (w a).
Local Abbreviation pay := (pay a).
Local Abbreviation db := (db a).
Local Abbreviation deliver := (deliver a).

Definition getCampaignByPledge (p : pledge) : option Campaigns.campaign :=
  match campaign_id p with Some c => if c =? 0 then None else campaign_of w c | None => None end.

Definition normalizeInternalConditionType (p : pledge) : string :=
  default "campaign_goal_percent" (truthy (Some (condition_type p))).

(** [conditionMet]; an invalid date throws when it is printed. *)
Definition evaluateCondition (now : Z) (p : pledge) (campaign : option Campaigns.campaign) : outcome jserror bool :=
  let type := normalizeInternalConditionType p in
  if bool_decide (type = "manual") then Ret false
  else if bool_decide (type = "campaign_goal_percent") then
    match campaign with
    | None => Ret false
    | Some c =>
        if negb (num_truthy (Campaigns.goal_amount c)) || num_leb (Campaigns.goal_amount c) num_zero then Ret false
        else
          let progressPercent := num_mul (num_div (Campaigns.current_amount c) (Campaigns.goal_amount c)) (num_of_Z 100) in
          Ret (num_geb progressPercent (threshold_of (condition_value p)))
    end
  else if bool_decide (type = "date") then
    match or_str (condition_value p) (truthy (expires_at p)) with
    | None => Ret true
    | Some s => match parse_date s with Some t => Ret (t <=? now) | None => Throw ERange end
    end
  else Ret false.

(** The payment, if a secret and a recipient are known: [pledge.amount] goes
    to the network as it is. *)
Definition payment_of (p : pledge) : option payment :=
  let owner := match getCampaignByPledge p with Some c => owner_key w (Campaigns.c_id c) | None => None end in
  let recipientPublic := match owner with Some k => Some k | None => recipient_public_key p end in
  match truthy (donor_secret w (donor_wallet_id p)), truthy recipientPublic with
  | Some secret, Some recipient => Some (mk_payment (id p) secret recipient (amount p))
  | _, _ => None
  end.

Definition answered {A} (o : outcome jserror A) : bool := match o with Ret _ => true | Throw _ => false end.

Definition send (p : pledge) : M unit :=
  match payment_of p with
  | Some x => modify_st (log_payment (x, answered (pay x)));; lift_out (pay x)
  | None => mret ()
  end.

(** A webhook, and its mark when it was received. *)
Definition notify (now : Z) (event i : string) (s : st) : st :=
  if deliver i then markWebhookSent now i (log_webhook (event, i) s) else s.

Definition mark_fulfilled (now : Z) (i : string) : st → st := update_where (λ p, by_id i p && is_pending p) (fulfilled now).

(** The UPDATE; one that fails leaves the table as it is. *)
Definition settle (now : Z) (i : string) : M unit :=
  match db UpdateFulfilled i with
  | Ret _ => modify_st (mark_fulfilled now i)
  | Throw e => modify_st (log_unmarked i);; throw e
  end.

(** On the row the caller has: [success]. *)
Definition fulfillSinglePledge (now : Z) (p : pledge) : M bool :=
  if negb (is_pending p) then mret false
  else
    lift_out (db ReadAccounts (id p));;
    send p;;
    settle now (id p);;
    lift_out (db ReadUpdated (id p));;
    modify_st (notify now "pledge.fulfilled" (id p));;
    mret true.

(** The loop: a pledge that throws ends it. *)
Fixpoint fulfil_loop (now : Z) (l : list pledge) (count : Z) : M Z :=
  match l with
  | [] => mret count
  | p :: l =>
      if negb (is_pending p) || bool_decide (normalizeInternalConditionType p = "manual") then fulfil_loop now l count
      else
        let campaign := getCampaignByPledge p in
        let legacyGoalReached :=
          is_empty (condition_type p) &&
          match campaign with Some c => num_geb (Campaigns.current_amount c) (Campaigns.goal_amount c) | None => false end in
        met ← (if legacyGoalReached then mret true else lift_out (evaluateCondition now p campaign));
        if met : bool then
          ok ← fulfillSinglePledge now p;
          fulfil_loop now l (if ok : bool then count + 1 else count)
        else fulfil_loop now l count
  end.

(** For a campaign, or for one pledge as its creator returned it.  When no
    pending pledge is found the code asks the table the same again. *)
Inductive target := ForCampaign (c : Z) | ForPledge (p : pledge).

Definition checkAndFulfill (now : Z) (t : target) : M Z :=
  s ← get_st;
  let campaignId := match t with ForCampaign c => Some c | ForPledge p => campaign_id p end in
  let found := match t with ForCampaign c => getPendingByCampaign c s | ForPledge p => [p] end in
  count ← fulfil_loop now found 0;
  s ← get_st;
  match campaignId with
  | Some c => modify_st (λ s0, foldl (λ s0 p, notify now "pledge.fulfilled" (id p) s0) s0 (getNewlyFulfilledPledges c s))
  | None => mret ()
  end;;
  mret count.

Definition expireOverdue (now : Z) (iso : string) (s : st) : Z * st :=
  let '(changed, s) := Pledge_expireOverdue iso s in
  if changed >? 0 then
    (changed, foldl (λ s p, notify now "pledge.expired" (id p) s) s (getNewlyExpiredPledges iso s))
  else (changed, s).

(** The answer of [PATCH /:id/fulfil]: not found, in the wrong state, or how
    many were fulfilled. *)
Inductive fulfil_reply := NotFound | InvalidState | Fulfilled (n : Z).

(** The pledge itself, read again after its campaign was checked. *)
Definition fulfil_again (now : Z) (i : string) (n : Z) : M fulfil_reply :=
  s ← get_st;
  match findById i s with
  | Some p => if is_pending p then ok ← fulfillSinglePledge now p; mret (Fulfilled (if ok : bool then n + 1 else n))
              else mret (Fulfilled n)
  | None => mret (Fulfilled n)
  end.

End call.

(** The two passes meet answers of their own. *)
Definition fulfil_route (a a' : answers) (now : Z) (i : string) : M fulfil_reply :=
  s ← get_st;
  match findById i s with
  | None => mret NotFound
  | Some p =>
      if negb (is_pending p) then mret InvalidState
      else
        n ← match campaign_id p with
            | Some c => if c =? 0 then mret 0 else checkAndFulfill a now (ForCampaign c)
            | None => mret 0
            end;
        fulfil_again a' now i n
  end.

(** ** Statements on the table *)

(** A change that keeps the keys and makes nothing pending again. *)
Definition settles (f : pledge → pledge) : Prop :=
  ∀ p, id (f p) = id p ∧ (is_pending (f p) = true → is_pending p = true).

Lemma where_elem c f s q :
  q ∈ pledges (update_where c f s) ↔ ∃ p, p ∈ pledges s ∧ q = if c p then f p else p.
Proof. cbn. rewrite list_elem_of_fmap. naive_solver. Qed.

Lemma where_ids c f s : (∀ p, id (f p) = id p) → id <$> pledges (update_where c f s) = id <$> pledges s.
Proof. intros Hf. cbn. rewrite <- list_fmap_compose. apply list_fmap_ext. intros _ p _. cbn. by destruct (c p). Qed.

Lemma by_id_spec i p : by_id i p = true ↔ id p = i.
Proof. apply bool_decide_eq_true. Qed.
Lemma is_pending_spec p : is_pending p = true ↔ status p = PENDING.
Proof. apply bool_decide_eq_true. Qed.

(** A pledge of the table that may still be paid. *)
Definition live (i : string) (s : st) : Prop := ∃ q, q ∈ pledges s ∧ id q = i ∧ is_pending q = true.

(** How often the payment of a pledge was asked for, and how often that ended
    in an error of the service or of the UPDATE. *)
Definition asked (i : string) (s : st) : nat := length (filter (λ x, p_pledge x.1 = i) (payments s)).
Definition failed (i : string) (s : st) : nat :=
  length (filter (λ x, p_pledge x.1 = i ∧ x.2 = false) (payments s)) + length (filter (λ j, j = i) (unmarked s)).

Record paid_ok (s : st) : Prop := mk_paid_ok {
  ok_ids : NoDup (id <$> pledges s);
  ok_once : ∀ i, (asked i s <= 1 + failed i s)%nat;
  ok_live : ∀ i, live i s → (asked i s <= failed i s)%nat;
  ok_known : ∀ i, asked i s ≠ 0%nat → i ∈ (id <$> pledges s)
}.

Lemma where_live_inv c f s i : settles f → live i (update_where c f s) → live i s.
Proof.
  intros Hf (q & Hq & Hid & Hp). apply where_elem in Hq as (p & Hin & ->). exists p.
  destruct (c p); [|done]. split_and!; [done|rewrite <- Hid; symmetry; apply Hf|by apply (proj2 (Hf p))].
Qed.

Lemma where_ok c f s : settles f → paid_ok s → paid_ok (update_where c f s).
Proof.
  intros Hf [Hi Ho Hl Hk]. split; [rewrite where_ids; [done|apply Hf]|done| |].
  - intros i Hi'. by apply Hl, (where_live_inv c f).
  - intros i Hi'. rewrite where_ids by apply Hf. by apply Hk.
Qed.

Lemma where_live c f s j : settles f → (∀ p, c p = true → id p ≠ j ∨ is_pending (f p) = is_pending p) → live j s → live j (update_where c f s).
Proof.
  intros Hf Hc (q & Hin & Hid & Hp). exists (if c q then f q else q). split_and!.
  - apply where_elem. by exists q.
  - destruct (c q); [rewrite <- Hid; apply Hf|done].
  - destruct (c q) eqn:Hq; [|done]. destruct (Hc q Hq) as [?|He]; congruence.
Qed.

Lemma settles_fulfilled now : settles (fulfilled now).
Proof. intros p. split; [done|]. cbn. by intros ?%is_pending_spec. Qed.
Lemma settles_marked now : settles (marked now).
Proof. intros p. by split. Qed.
Lemma settles_cancelled now r : settles (cancelled now r).
Proof. intros p. split; [done|]. by intros ?%is_pending_spec. Qed.
Lemma settles_status x : x ≠ PENDING → settles (with_status x).
Proof. intros Hx p. split; [done|]. by intros ?%is_pending_spec. Qed.

Lemma webhook_ok e s : paid_ok s → paid_ok (log_webhook e s).
Proof. by intros []. Qed.
Lemma notify_ok a now e i s : paid_ok s → paid_ok (notify a now e i s).
Proof. intros H. unfold notify. destruct (deliver a i); [|done]. apply where_ok; [apply settles_marked|by apply webhook_ok]. Qed.
Lemma notify_live a now e i s j : live j s → live j (notify a now e i s).
Proof.
  intros H. unfold notify. destruct (deliver a i); [|done]. apply where_live; [apply settles_marked|by right|exact H].
Qed.
Lemma notify_all_ok a now e l s : paid_ok s → paid_ok (foldl (λ s p, notify a now e (id p) s) s l).
Proof. revert s. induction l as [|p l IH]; intros s H; [done|]. by apply IH, notify_ok. Qed.

(** ** One payment per pledge *)

Lemma mark_live now i s j : j ≠ i → live j s → live j (mark_fulfilled now i s).
Proof.
  intros Hj H. apply where_live; [apply settles_fulfilled| |exact H].
  intros p [Hp _]%andb_true_iff. apply by_id_spec in Hp. left. congruence.
Qed.

Lemma asked_log i x b s : asked i (log_payment (x, b) s) = (asked i s + if decide (p_pledge x = i) then 1 else 0)%nat.
Proof. unfold asked. cbn. rewrite filter_app, length_app, filter_cons, filter_nil. cbn. by case_decide. Qed.
Lemma failed_log i x b s :
  failed i (log_payment (x, b) s) = (failed i s + if b then 0 else if decide (p_pledge x = i) then 1 else 0)%nat.
Proof.
  unfold failed. cbn. rewrite filter_app, length_app, filter_cons, filter_nil. cbn.
  destruct b; repeat case_decide; cbn; first [lia | exfalso; naive_solver].
Qed.
Lemma failed_unmarked i j s : failed i (log_unmarked j s) = (failed i s + if decide (j = i) then 1 else 0)%nat.
Proof. unfold failed. cbn. rewrite filter_app, length_app, filter_cons, filter_nil. case_decide; cbn; lia. Qed.

Lemma mark_settled now i s : ¬ live i (mark_fulfilled now i s).
Proof.
  intros (q & Hq & Hid & Hp). apply where_elem in Hq as (p & _ & ->).
  destruct (by_id i p && is_pending p) eqn:Hc; [discriminate Hp|].
  apply by_id_spec in Hid. rewrite Hid, Hp in Hc. done.
Qed.

(** A payment that failed, one whose UPDATE failed, one that was marked. *)
Lemma ask_ok x b s : live (p_pledge x) s → paid_ok s →
  let s1 := log_payment (x, b) s in
  if b then paid_ok (log_unmarked (p_pledge x) s1) ∧ ∀ now, paid_ok (mark_fulfilled now (p_pledge x) s1)
  else paid_ok s1.
Proof.
  intros Hlive [Hi Ho Hl Hk].
  assert (Hin : p_pledge x ∈ (id <$> pledges s)) by (destruct Hlive as (q & Hq & <- & _); by apply list_elem_of_fmap_2).
  assert (Hk' : ∀ i, asked i (log_payment (x, b) s) ≠ 0%nat → i ∈ (id <$> pledges s)).
  { intros i. rewrite asked_log. case_decide as He; [by subst|]. rewrite Nat.add_0_r. apply Hk. }
  assert (Hn : ∀ i, live i (log_payment (x, b) s) → (asked i (log_payment (x, b) s) <=
      failed i s + if decide (p_pledge x = i) then 1 else 0)%nat).
  { intros i Hli. rewrite asked_log. pose proof (Hl i Hli). case_decide; lia. }
  assert (Hm : ∀ i, (asked i (log_payment (x, b) s) <= 1 + failed i s)%nat).
  { intros i. rewrite asked_log. pose proof (Ho i). pose proof (Hl _ Hlive). case_decide; subst; lia. }
  assert (Hf : ∀ i, failed i (log_payment (x, true) s) = failed i s) by (intros i; rewrite failed_log; lia).
  cbv zeta. destruct b; [split; [|intros now]|]; (split; [first [exact Hi | by unfold mark_fulfilled; rewrite where_ids]| | |first [exact Hk' | by unfold mark_fulfilled; rewrite where_ids]]); intros i.
  - rewrite failed_unmarked, Hf. etrans; [exact (Hm i)|lia].
  - intros Hli. rewrite failed_unmarked, Hf. exact (Hn i Hli).
  - change (asked i (log_payment (x, true) s) <= 1 + failed i (log_payment (x, true) s))%nat. rewrite Hf. exact (Hm i).
  - intros Hli. destruct (decide (p_pledge x = i)) as [<-|Hne]; [by apply mark_settled in Hli|].
    apply where_live_inv in Hli; [|apply settles_fulfilled]. pose proof (Hn i Hli) as H.
    change (asked i (log_payment (x, true) s) <= failed i (log_payment (x, true) s))%nat.
    rewrite decide_False in H by done. rewrite Hf. lia.
  - rewrite failed_log. pose proof (Hm i). lia.
  - intros Hli. rewrite failed_log. by apply Hn.
Qed.

Lemma payment_of_pledge a p x : payment_of a p = Some x → p_pledge x = id p ∧ p_amount x = amount p.
Proof. unfold payment_of. repeat case_match; intros [= <-]; done. Qed.

Lemma notify_live_all a now e i s : paid_ok s → (∀ j, j ≠ i → live j s → live j (notify a now e i s)) ∧ paid_ok (notify a now e i s).
Proof. intros H. split; [intros j _; apply notify_live|by apply notify_ok]. Qed.

(** The UPDATE, the read after it and the webhook, when the mark is in order. *)
Lemma fulfil_finish_ok a now i s :
  paid_ok (log_unmarked i s) → (∀ now, paid_ok (mark_fulfilled now i s)) →
  let s' := ((settle a now i;; lift_out (db a ReadUpdated i);;
              modify_st (notify a now "pledge.fulfilled" i);; mret true) s).2 in
  paid_ok s' ∧ ∀ j, j ≠ i → live j s → live j s'.
Proof.
  intros Hu Hm. cbv zeta. unfold settle. stx_unfold. destruct (db a UpdateFulfilled i) as [[]|e]; cbn; [|by split].
  destruct (db a ReadUpdated i) as [[]|e]; cbn.
  - split; [by apply notify_ok|]. intros j Hj Hl. by apply notify_live, mark_live.
  - split; [done|]. intros j Hj Hl. by apply mark_live.
Qed.

Lemma fulfil_ok a now p s :
  paid_ok s → (is_pending p = true → live (id p) s) →
  let s' := (fulfillSinglePledge a now p s).2 in paid_ok s' ∧ ∀ j, j ≠ id p → live j s → live j s'.
Proof.
  intros Hok Hlive. cbv zeta. unfold fulfillSinglePledge. destruct (is_pending p) eqn:Hp; cbn [negb]; [|by split].
  specialize (Hlive eq_refl). unfold send.
  destruct (payment_of a p) as [x|] eqn:Hx.
  - apply payment_of_pledge in Hx as [Hid _]. pose proof (ask_ok x (answered (pay a x)) s) as Hask. cbv zeta in Hask.
    rewrite Hid in Hask. specialize (Hask Hlive Hok). stx_unfold. destruct (db a ReadAccounts (id p)) as [[]|e]; cbn; [|by split].
    destruct (pay a x) as [[]|e]; cbn [answered] in Hask |- *; [|by split].
    destruct Hask as [Hu Hm].
    apply (fulfil_finish_ok a now (id p) (log_payment (x, true) s) Hu Hm).
  - pose proof (fulfil_finish_ok a now (id p) s) as Hfin. stx_unfold. destruct (db a ReadAccounts (id p)) as [[]|e]; cbn; [|by split].
    apply Hfin; [|intros now'; apply where_ok; [apply settles_fulfilled|done]].
    destruct Hok as [Hi Ho Hl Hk]. split; [done| | |exact Hk]; intros i; [pose proof (Ho i)|intros Hli; pose proof (Hl i Hli)];
      rewrite failed_unmarked; unfold asked in *; cbn in *; lia.
Qed.

Lemma fulfil_loop_ok a now l count s :
  paid_ok s → NoDup (id <$> l) → (∀ p, p ∈ l → is_pending p = true → live (id p) s) →
  paid_ok (fulfil_loop a now l count s).2.
Proof.
  revert count s. induction l as [|p l IH]; intros count s Hok Hnd Hl; [done|].
  apply NoDup_cons in Hnd as [Hnp Hnd]. cbn [fulfil_loop].
  assert (Hrest : ∀ count s', paid_ok s' → (∀ j, j ≠ id p → live j s → live j s') → paid_ok (fulfil_loop a now l count s').2).
  { intros c s' Hok' Hk. apply IH; [done|done|]. intros q Hq Hqp. apply Hk; [|apply Hl; [by right|done]].
    intros He. apply Hnp. rewrite <- He. by apply list_elem_of_fmap_2. }
  destruct (_ || _); [by apply Hrest|]. stx_unfold.
  destruct (_ && _) eqn:Hlegacy; stx_unfold.
  2: destruct (evaluateCondition now p (getCampaignByPledge a p)) as [[|]|e]; [|by apply Hrest|done].
  all: pose proof (fulfil_ok a now p s Hok ltac:(apply Hl; left)) as [Hok' Hk];
    destruct (fulfillSinglePledge a now p s) as [[b|e] s']; [by apply Hrest|done].
Qed.

Lemma check_ok a now t s :
  paid_ok s → match t with ForCampaign _ => True | ForPledge p => is_pending p = true → live (id p) s end →
  paid_ok (checkAndFulfill a now t s).2.
Proof.
  intros Hok Ht. unfold checkAndFulfill. stx_unfold.
  set (l := match t with ForCampaign c => getPendingByCampaign c s | ForPledge p => [p] end).
  assert (Hloop : paid_ok (fulfil_loop a now l 0 s).2).
  { apply fulfil_loop_ok; [done| |].
    - destruct t as [c|p]; [|apply NoDup_singleton].
      unfold l, getPendingByCampaign. eapply sublist_NoDup; [exact (ok_ids _ Hok)|]. apply fmap_sublist, sublist_filter.
    - destruct t as [c|p]; intros q Hq Hp.
      + unfold l, getPendingByCampaign in Hq. apply list_elem_of_filter in Hq as [_ Hq]. by exists q.
      + apply list_elem_of_singleton in Hq as ->. by apply Ht. }
  destruct (fulfil_loop a now l 0 s) as [[n|e] s']; [|done].
  destruct (match t with ForCampaign c => Some c | ForPledge p => campaign_id p end); [|done]. cbn. by apply notify_all_ok.
Qed.

(** A call meets other answers than the calls before it. *)
Inductive step (s : st) : st → Prop :=
| step_create uuid c d r r' amt t v e :
    uuid ∉ (id <$> pledges s) → step s (create uuid c d r r' amt t v e s).2
| step_cancel now i reason : step s (cancel now i reason s).2
| step_expire a now iso : step s (expireOverdue a now iso s).2
| step_fulfil_all c : step s (fulfillAll c s)
| step_check a now c : step s (checkAndFulfill a now (ForCampaign c) s).2
| step_check_new a now p : p ∈ pledges s → step s (checkAndFulfill a now (ForPledge p) s).2
| step_single a now p : p ∈ pledges s → step s (fulfillSinglePledge a now p s).2
| step_route a a' now i : step s (fulfil_route a a' now i s).2.

Lemma findById_elem i s p : findById i s = Some p → p ∈ pledges s ∧ id p = i.
Proof. intros [Hin Hi]%find_first_Some. by apply by_id_spec in Hi. Qed.

Lemma fresh_live p s : p ∈ pledges s → is_pending p = true → live (id p) s.
Proof. intros Hin Hp. by exists p. Qed.

Lemma again_ok a now i n s : paid_ok s → paid_ok (fulfil_again a now i n s).2.
Proof.
  intros Hok. unfold fulfil_again. stx_unfold. destruct (findById i s) as [q|] eqn:Hq; [|done].
  apply findById_elem in Hq as [Hq _]. destruct (is_pending q); [|done]. stx_unfold.
  pose proof (fulfil_ok a now q s Hok (fresh_live q s Hq)) as [Hok2 _].
  by destruct (fulfillSinglePledge a now q s) as [[b|e] s2].
Qed.

Lemma route_ok a a' now i s : paid_ok s → paid_ok (fulfil_route a a' now i s).2.
Proof.
  intros Hok. unfold fulfil_route. stx_unfold. destruct (findById i s) as [p|]; [|done].
  destruct (negb _); [done|]. stx_unfold.
  destruct (campaign_id p) as [c|]; [|by apply again_ok]. destruct (c =? 0); [by apply again_ok|].
  pose proof (check_ok a now (ForCampaign c) s Hok I) as Hok'.
  destruct (checkAndFulfill a now (ForCampaign c) s) as [[n|e] s']; [by apply again_ok|done].
Qed.

Lemma create_run uuid c d r r' a t v e s :
  (create uuid c d r r' a t v e s).2 = s ∨
  ∃ row, (create uuid c d r r' a t v e s) = (Ret row, set_pledges (pledges s ++ [row]) s) ∧ id row = uuid ∧ status row = PENDING ∧
    Money.toStroops a = Ret (amount row).
Proof.
  unfold create. stx_unfold. destruct (Money.toStroops a) as [n|?]; [|by left].
  destruct (normalizeConditionType t) as [ty|?]; [|by left].
  destruct (check_condition ty v e) as [?|?]; [|by left]. right. eexists. split; [reflexivity|done].
Qed.

Lemma pledge_created_ok row s : id row ∉ (id <$> pledges s) → paid_ok s → paid_ok (set_pledges (pledges s ++ [row]) s).
Proof.
  intros Hu [Hi Ho Hl Hk]. split; [|done| |].
  - cbn. rewrite fmap_app. apply NoDup_app. split_and!; [done| |apply NoDup_singleton].
    intros x Hx ->%list_elem_of_singleton. congruence.
  - intros i (q & [Hq| ->%list_elem_of_singleton]%elem_of_app & Hid & Hp); [by apply Hl; exists q|].
    destruct (decide (asked i s = 0%nat)) as [Hz|Hz]; [|subst i; by apply Hk in Hz].
    change (asked i s <= failed i s)%nat. lia.
  - intros i Hi'%Hk. cbn. rewrite fmap_app. apply elem_of_app. by left.
Qed.

Lemma paid_ok_step : preserves step paid_ok.
Proof.
  intros s s' Hok Hs. destruct Hs as [uuid c d r r' amt t v e Hu|now i reason|a now iso|c|a now c|a now p Hp|a now p Hp|a a' now i].
  - destruct (create_run uuid c d r r' amt t v e s) as [->|(row & -> & Hid & _ & _)]; [done|].
    apply pledge_created_ok; [by rewrite Hid|done].
  - apply where_ok; [apply settles_cancelled|done].
  - unfold expireOverdue. cbn. destruct (_ >? 0); cbn; [apply notify_all_ok|];
      (apply where_ok; [by apply settles_status|done]).
  - apply where_ok; [by apply settles_status|done].
  - by apply check_ok.
  - apply check_ok; [done|by apply fresh_live].
  - apply fulfil_ok; [done|by apply fresh_live].
  - by apply route_ok.
Qed.

(** C25: Calls that do not overlap ask the network for the payment of a pledge at most once more often
    than an attempt at it failed: ended in an error of the payment service, or in one of the
    UPDATE after the payment.  While the pledge is pending every attempt has failed.  So without
    such failures a pledge is paid at most once, and only when it is no longer pending, whatever
    is created, cancelled, expired or fulfilled in between, and whatever the other tables, the
    network, the receivers and the database answer to each call. *)
Theorem pledge_paid_once s :
  rtc step (mk_st [] [] [] []) s →
  ∀ i, (asked i s <= 1 + failed i s)%nat ∧
       ∀ p, p ∈ pledges s → id p = i → status p = PENDING → (asked i s <= failed i s)%nat.
Proof.
  intros Hr. assert (Hok : paid_ok s).
  { eapply preserves_rtc; [apply paid_ok_step|exact Hr|].
    split; cbn; [constructor|intros; unfold asked; cbn; lia|intros; unfold asked; cbn; lia|by intros i []]. }
  intros i. split; [apply Hok|]. intros p Hin Hid Hp%is_pending_spec. apply (ok_live _ Hok). by exists p.
Qed.

(** The service trusts the row of its caller: called twice with one pending row, as two requests
    that overlap do, it pays twice. *)
Theorem stale_row_paid_again a now now' p x s :
  is_pending p = true → payment_of a p = Some x → pay a x = Ret () →
  (∀ q, db a q (id p) = Ret ()) →
  payments (fulfillSinglePledge a now' p (fulfillSinglePledge a now p s).2).2 = payments s ++ [(x, true); (x, true)].
Proof.
  intros Hp Hx Hpay Hdb.
  assert (H : ∀ n s, payments (fulfillSinglePledge a n p s).2 = payments s ++ [(x, true)]).
  { intros n s0. unfold fulfillSinglePledge, send, settle. rewrite Hp, Hx. cbn [negb]. stx_unfold. rewrite Hpay.
    rewrite !Hdb. cbn. unfold notify. by destruct (deliver a (id p)). }
  by rewrite !H, <- app_assoc.
Qed.

(** One pledge whose payment fails ends the loop: the pledges of the campaign after it are not
    looked at, and nothing of them changes. *)
Theorem failing_pledge_blocks a now p l count e s :
  is_pending p = true → normalizeInternalConditionType p = "campaign_goal_percent" → condition_type p ≠ "" →
  evaluateCondition now p (getCampaignByPledge a p) = Ret true →
  (∃ x, payment_of a p = Some x ∧ pay a x = Throw e) → db a ReadAccounts (id p) = Ret () →
  (fulfil_loop a now (p :: l) count s).1 = Throw e ∧
  pledges (fulfil_loop a now (p :: l) count s).2 = pledges s.
Proof.
  intros Hp Ht Hne Hm (x & Hx & Hpay) Hdb. cbn [fulfil_loop]. rewrite Hp, Ht. cbn [negb orb].
  rewrite bool_decide_false by done. destruct (condition_type p) as [|ch rest]; [done|]. cbn [is_empty andb].
  rewrite Hm. stx_unfold. unfold fulfillSinglePledge, send. rewrite Hp, Hx. cbn [negb]. stx_unfold.
  rewrite Hdb. stx_unfold. by rewrite Hpay.
Qed.

(** The row holds stroops, the network takes XLM: the payment of a pledge asks for ten million
    times what was pledged. *)
Theorem pledge_paid_in_stroops a uuid c d r r' amt t v e s row x :
  (create uuid c d r r' amt t v e s).1 = Ret row → payment_of a row = Some x →
  ∃ n, Money.toStroops amt = Ret n ∧ Money.toStroops (Money.ABig (p_amount x)) = Ret (n * Money.STROOPS_PER_XLM).
Proof.
  intros Hc Hx. apply payment_of_pledge in Hx as [_ ->].
  destruct (create_run uuid c d r r' amt t v e s) as [Hs|(row' & Hrun & _ & _ & Ha)].
  - exfalso. revert Hc Hs. unfold create. stx_unfold. destruct (Money.toStroops amt); [|done].
    destruct (normalizeConditionType t); [|done]. destruct (check_condition _ _ _); [|done]. cbn. intros _ Hs.
    apply (f_equal (λ s, length (pledges s))) in Hs. cbn in Hs. rewrite length_app in Hs. cbn in Hs. lia.
  - rewrite Hrun in Hc. injection Hc as <-. exists (amount row'). split; [done|]. apply Money.toStroops_integer.
    by apply (Money.toStroops_nonneg amt).
Qed.

End service.

(** ** Interleaved statements *)

(** What any call, complete or not, does to the table, one statement at a time. *)
Inductive sql (l : list pledge) : list pledge → Prop :=
| sql_insert p : status p = PENDING → id p ∉ (id <$> l) → sql l (l ++ [p])
| sql_fulfil now i : sql l ((λ p, if by_id i p && is_pending p then fulfilled now p else p) <$> l)
| sql_fulfil_all c : sql l ((λ p, if of_campaign c p && is_pending p then with_status FULFILLED p else p) <$> l)
| sql_expire iso : sql l ((λ p, if overdue iso p then with_status EXPIRED p else p) <$> l)
| sql_cancel now i reason : sql l ((λ p, if by_id i p && is_pending p then cancelled now reason p else p) <$> l)
| sql_mark now i : sql l ((λ p, if by_id i p then marked now p else p) <$> l).

(** The calls above are made of these statements. *)
Lemma notify_sql a now e i s : rtc sql (pledges s) (pledges (notify a now e i s)).
Proof. unfold notify. destruct (deliver a i); [|done]. apply rtc_once, sql_mark. Qed.

Lemma notify_all_sql a now e l s :
  rtc sql (pledges s) (pledges (foldl (λ s p, notify a now e (id p) s) s l)).
Proof.
  revert s. induction l as [|p l IH]; intros s; [done|]. cbn [foldl].
  etrans; [apply (notify_sql a now e (id p))|apply IH].
Qed.

Lemma fulfil_sql a now p s : rtc sql (pledges s) (pledges (fulfillSinglePledge a now p s).2).
Proof.
  unfold fulfillSinglePledge, send, settle. destruct (negb _); [done|]. stx_unfold.
  destruct (db a ReadAccounts (id p)) as [[]|]; [|done].
  destruct (payment_of a p) as [x|]; [stx_unfold; destruct (pay a x) as [[]|]; [|done]|]; cbn;
    (destruct (db a UpdateFulfilled (id p)) as [[]|]; [|done]); cbn;
    (destruct (db a ReadUpdated (id p)) as [[]|]; cbn; [|apply rtc_once, sql_fulfil]);
    (eapply rtc_l; [apply (sql_fulfil _ now (id p))|]).
  - exact (notify_sql a now _ (id p) (mark_fulfilled now (id p) (log_payment (x, true) s))).
  - exact (notify_sql a now _ (id p) (mark_fulfilled now (id p) s)).
Qed.

Lemma fulfil_loop_sql pd a now l count s :
  rtc sql (pledges s) (pledges (fulfil_loop pd a now l count s).2).
Proof.
  revert count s. induction l as [|p l IH]; intros count s; [done|]. cbn [fulfil_loop].
  destruct (_ || _); [apply IH|]. stx_unfold. destruct (_ && _); stx_unfold.
  2: destruct (evaluateCondition pd now p _) as [[|]|e]; [|apply IH|done].
  all: pose proof (fulfil_sql a now p s) as H;
    destruct (fulfillSinglePledge a now p s) as [[b|e] s']; [etrans; [exact H|apply IH]|exact H].
Qed.

Lemma check_sql pd a now t s : rtc sql (pledges s) (pledges (checkAndFulfill pd a now t s).2).
Proof.
  unfold checkAndFulfill. stx_unfold.
  set (l := match t with ForCampaign c => getPendingByCampaign c s | ForPledge p => [p] end).
  pose proof (fulfil_loop_sql pd a now l 0 s) as H.
  destruct (fulfil_loop pd a now l 0 s) as [[n|e] s']; [|exact H].
  destruct (match t with ForCampaign c => Some c | ForPledge p => campaign_id p end); [|exact H]. cbn.
  etrans; [exact H|apply notify_all_sql].
Qed.

Lemma again_sql a now i n s : rtc sql (pledges s) (pledges (fulfil_again a now i n s).2).
Proof.
  unfold fulfil_again. stx_unfold. destruct (findById i s) as [q|]; [|done]. destruct (is_pending q); [|done].
  stx_unfold. pose proof (fulfil_sql a now q s) as H.
  by destruct (fulfillSinglePledge a now q s) as [[b|e] s'].
Qed.

Lemma calls_are_statements pd s s' : step pd s s' → rtc sql (pledges s) (pledges s').
Proof.
  destruct 1 as [uuid c d r r' amt t v e Hu|now i reason|a now iso|c|a now c|a now p Hp|a now p Hp|a a' now i].
  - destruct (create_run pd uuid c d r r' amt t v e s) as [->|(row & -> & Hid & Hs & _)]; [done|].
    apply rtc_once, sql_insert; [done|congruence].
  - apply rtc_once, sql_cancel.
  - unfold expireOverdue. cbn. destruct (_ >? 0); cbn; (eapply rtc_l; [apply (sql_expire _ iso)|]); [|done].
    exact (notify_all_sql a now _ _ (update_where (overdue iso) (with_status EXPIRED) s)).
  - apply rtc_once, sql_fulfil_all.
  - apply check_sql.
  - apply check_sql.
  - apply fulfil_sql.
  - unfold fulfil_route. stx_unfold. destruct (findById i s) as [p|]; [|done]. destruct (negb _); [done|]. stx_unfold.
    destruct (campaign_id p) as [c|]; [|apply again_sql]. destruct (c =? 0); [apply again_sql|].
    pose proof (check_sql pd a now (ForCampaign c) s) as H.
    destruct (checkAndFulfill pd a now (ForCampaign c) s) as [[n|e] s']; [|exact H].
    etrans; [exact H|apply again_sql].
Qed.

(** A pledge that is fulfilled, expired or cancelled stays so, however the statements of any
    calls interleave. *)
Theorem settled_final l l' p :
  rtc sql l l' → p ∈ l → status p ≠ PENDING →
  ∃ q, q ∈ l' ∧ id q = id p ∧ status q = status p ∧ amount q = amount p.
Proof.
  intros Hr Hin Hp.
  eapply (preserves_rtc sql (λ l, ∃ q, q ∈ l ∧ id q = id p ∧ status q = status p ∧ amount q = amount p)); [|exact Hr|eauto].
  clear l l' Hr Hin. intros l l' (q & Hin & Hid & Hs & Ha) Hsql.
  assert (Hn : is_pending q = false) by (apply bool_decide_eq_false; congruence).
  destruct Hsql as [r Hr Hf|now i|c|iso|now i reason|now i].
  1: { exists q. split_and!; [apply elem_of_app; by left|done..]. }
  all: eexists; (split; [apply list_elem_of_fmap_2; exact Hin|]).
  1, 2, 4: by rewrite Hn, andb_false_r.
  - unfold overdue. by rewrite Hn.
  - by destruct (by_id i q).
Qed.

(** *** A world with one campaign of an owner and one donor *)

Definition ex_campaign : Campaigns.campaign := Campaigns.mk_campaign 1 (num_of_Z 100) (num_of_Z 100) "active" [] 0 false.
Definition ex_world : world :=
  mk_world (λ c, if c =? 1 then Some ex_campaign else None) (λ _, Some "GOWNER")
    (λ d, if bool_decide (d = "donor") then Some "S" else None).
Definition ex_date (s : string) : option Z := None.
Definition ex_pay (x : payment) : outcome jserror unit := if bool_decide (p_pledge x = "bad") then Throw (EPlain "no funds") else Ret ().
Definition ex_db (fails : bool) (q : stmt) (i : string) : outcome jserror unit :=
  match q with UpdateFulfilled => if fails then Throw (EPlain "SQLITE_BUSY") else Ret () | _ => Ret () end.
Definition ex_calm : answers := mk_answers ex_world ex_pay (ex_db false) (λ _, true).
Definition ex_busy : answers := mk_answers ex_world ex_pay (ex_db true) (λ _, true).
Definition ex_create (i : string) : M pledge :=
  create ex_date i (Some 1) "donor" None None (Money.AStr "2.5") (Some "campaign_goal_percent") (Some "100") None.
Definition ex_empty : st := mk_st [] [] [] [].
Definition ex_row (i : string) : pledge :=
  mk_pledge i (Some 1) "donor" None 25000000 PENDING "campaign_goal_percent" (Some "100") PENDING None None None None None.
Definition ex_paid : st := (checkAndFulfill ex_date ex_calm 5 (ForCampaign 1) (ex_create "p1" ex_empty).2).2.
Definition ex_lost : st := (checkAndFulfill ex_date ex_busy 5 (ForCampaign 1) (ex_create "p1" ex_empty).2).2.

Example paid_when_goal_reached :
  payments ex_paid = [(mk_payment "p1" "S" "GOWNER" 25000000, true)] ∧ status <$> pledges ex_paid = [FULFILLED] ∧
  webhooks ex_paid = [("pledge.fulfilled", "p1")].
Proof. vm_compute. auto. Qed.

(** The UPDATE after the payment fails: the next call pays again. *)
Example lost_update_pays_again :
  status <$> pledges ex_lost = [PENDING] ∧
  (λ x, (p_pledge x.1, x.2)) <$> payments (checkAndFulfill ex_date ex_calm 6 (ForCampaign 1) ex_lost).2 =
    [("p1", true); ("p1", true)].
Proof. vm_compute. auto. Qed.

Lemma pledge_paid_once_witness :
  (asked "p1" ex_paid <= 1 + failed "p1" ex_paid)%nat ∧
  ∀ p, p ∈ pledges ex_paid → id p = "p1" → status p = PENDING → (asked "p1" ex_paid <= failed "p1" ex_paid)%nat.
Proof.
  apply (pledge_paid_once ex_date ex_paid).
  eapply rtc_l; [|eapply rtc_l; [|apply rtc_refl]].
  - apply (step_create ex_date ex_empty "p1" (Some 1) "donor" None None (Money.AStr "2.5")
             (Some "campaign_goal_percent") (Some "100") None). by intros ?%elem_of_nil.
  - exact (step_check ex_date (ex_create "p1" ex_empty).2 ex_calm 5 1).
Defined.

Lemma stale_row_paid_again_witness :
  (λ x, p_pledge x.1) <$> payments (fulfillSinglePledge ex_calm 7 (ex_row "p1")
    (fulfillSinglePledge ex_calm 6 (ex_row "p1") ex_empty).2).2 = ["p1"; "p1"].
Proof.
  rewrite (stale_row_paid_again ex_calm 6 7 (ex_row "p1") (mk_payment "p1" "S" "GOWNER" 25000000) ex_empty
    eq_refl ltac:(by vm_compute) ltac:(by vm_compute) ltac:(by intros [])). reflexivity.
Defined.

Lemma failing_pledge_blocks_witness :
  (fulfil_loop ex_date ex_calm 6 [ex_row "bad"; ex_row "p1"] 0 ex_empty).1 = Throw (EPlain "no funds") ∧
  pledges (fulfil_loop ex_date ex_calm 6 [ex_row "bad"; ex_row "p1"] 0 ex_empty).2 = [].
Proof.
  apply (failing_pledge_blocks ex_date ex_calm 6 (ex_row "bad") [ex_row "p1"] 0 (EPlain "no funds") ex_empty);
    [reflexivity|reflexivity|discriminate|by vm_compute| |reflexivity].
  exists (mk_payment "bad" "S" "GOWNER" 25000000). split; by vm_compute.
Defined.

Lemma pledge_paid_in_stroops_witness :
  ∃ n, Money.toStroops (Money.AStr "2.5") = Ret n ∧
       Money.toStroops (Money.ABig 25000000) = Ret (n * Money.STROOPS_PER_XLM).
Proof.
  exact (pledge_paid_in_stroops ex_date ex_calm "p1" (Some 1) "donor" None None (Money.AStr "2.5")
    (Some "campaign_goal_percent") (Some "100") None ex_empty (ex_row "p1") (mk_payment "p1" "S" "GOWNER" 25000000)
    ltac:(by vm_compute) ltac:(by vm_compute)).
Defined.

Lemma settled_final_witness :
  ∃ q, q ∈ pledges (cancel 9 "p1" None ex_paid).2 ∧ id q = "p1" ∧ status q = FULFILLED ∧ amount q = 25000000.
Proof.
  exact (settled_final (pledges ex_paid) (pledges (cancel 9 "p1" None ex_paid).2)
    (marked 5 (fulfilled 5 (ex_row "p1")))
    (rtc_once _ _ (sql_cancel (pledges ex_paid) 9 "p1" None)) ltac:(vm_compute; left) ltac:(discriminate)).
Defined.

End Pledges.
