(* ===== verification/Custodial.v ===== *)
(** * Custodial donations ([src/src/services/DonationService.js]:
      sendCustodialDonation; [src/src/services/DonationTotalsRepository.js])

    The whole flow over the limits, the campaigns, the matching programs, the
    totals and the transaction model.  Answers of the network and the
    decryption are arguments.  The pre-aggregated totals implement the sums
    over [transactions]: [custodial_totals] and [reconcile_spec]. *)

From Stdlib Require Import SpecFloat.
From S2P Require Import Prelude JsString JsNumber Errors Transaction Limits Matching Campaigns Sanitizer.
Local Open Scope Z_scope.

Module Custodial.
Import Limits.

Record payment := mk_payment { p_secret : string; p_destination : string; p_amount : num; p_memo : option string }.

Record st := mk_st {
  sql : Limits.db;                       (* users, transactions and the velocity tables *)
  totals : gmap Z (Z * Z);               (* donation_totals: total_stroops, donation_count *)
  global : Z * Z;                        (* donation_totals_global *)
  campaigns : Campaigns.table;
  programs : Matching.st;
  model : Transaction.st;                (* the JSON store *)
  next_id : Z;
  payments : list payment;               (* what the network carried out *)
}.
Definition set_sql (d : Limits.db) (s : st) : st :=
  mk_st d (totals s) (global s) (campaigns s) (programs s) (model s) (next_id s) (payments s).
Definition set_totals (m : gmap Z (Z * Z)) (g : Z * Z) (s : st) : st :=
  mk_st (sql s) m g (campaigns s) (programs s) (model s) (next_id s) (payments s).
Definition set_campaigns (t : Campaigns.table) (s : st) : st :=
  mk_st (sql s) (totals s) (global s) t (programs s) (model s) (next_id s) (payments s).
Definition set_programs (p : Matching.st) (s : st) : st :=
  mk_st (sql s) (totals s) (global s) (campaigns s) p (model s) (next_id s) (payments s).
Definition log_payment (p : payment) (s : st) : st :=
  mk_st (sql s) (totals s) (global s) (campaigns s) (programs s) (model s) (next_id s) (payments s ++ [p]).
Definition set_txs (l : list tx_row) (d : Limits.db) : Limits.db :=
  mk_db (users d) l (velocity_log d) (recipient_velocity_limits d) (donation_velocity d).

Definition M := stx jserror st.

(** ** The totals *)

Definition bump (amount : Z) (row : Z * Z) : Z * Z := (row.1 + amount, row.2 + 1).

(** [incrementTotal] *)
Definition incrementTotal (recipientId amountStroops : Z) (s : st) : st :=
  set_totals (<[recipientId := bump amountStroops (default (0, 0) (totals s !! recipientId))]> (totals s))
    (bump amountStroops (global s)) s.

(** [SELECT SUM(amount), COUNT( * ) ... WHERE deleted_at IS NULL] *)
Definition live_of (recipientId : Z) (l : list tx_row) : list tx_row :=
  filter (λ t, t_deleted t = false ∧ receiverId t = recipientId) l.
Definition sums (l : list tx_row) : Z * Z := (sumZ (t_amount <$> l), Z.of_nat (length l)).
Definition live (l : list tx_row) : list tx_row := filter (λ t, t_deleted t = false) l.

(** One recipient of [reconcile]. *)
Definition reconcile_row (l : list tx_row) (acc : nat * gmap Z (Z * Z)) (recipientId : Z) : nat * gmap Z (Z * Z) :=
  let true_ := sums (live_of recipientId l) in
  let cached := default (0, 0) (acc.2 !! recipientId) in
  if bool_decide (cached = true_) then acc else (S acc.1, <[recipientId := true_]> acc.2).

(** checked, corrected *)
Definition reconcile (s : st) : (nat * nat) * st :=
  let l := transactions (sql s) in
  let recipients := remove_dups (receiverId <$> live l) in
  let '(corrected, m) := foldl (reconcile_row l) (O, totals s) recipients in
  let true_ := sums (live l) in
  let stale := negb (bool_decide ((global s).1 = true_.1)) in
  ((length recipients, if stale then S corrected else corrected),
   set_totals m (if stale then true_ else global s) s).

(** ** sendCustodialDonation *)

Section service.
Context (globalMax globalDailyMax : num)
  (windowSeconds VELOCITY_LIMIT_FREE VELOCITY_LIMIT_STANDARD VELOCITY_LIMIT_PREMIUM : Z)
  (decrypt : string → outcome jserror string).

Record request := mk_request {
  q_sender : Z; q_receiver : Z; q_amount : num; q_memo : option string;
  q_campaign : option Z; q_key : option string; q_native : bool;     (* no asset, or the native one *)
}.
(** Times before and after the payment, and the answers of the services. *)
Record answers := mk_answers {
  now : Z; later : Z;
  reserveCheck : outcome jserror bool;
  sendDonation : outcome jserror (option string);      (* transactionId *)
  notified_ok : bool;
}.
(** What a replayed request returns. *)
Record replay := mk_replay { rp_id : Z; rp_stellarTxId : option string; rp_remaining : option num * option num }.

Definition on_sql {A} (m : stx jserror Limits.db A) : M A := λ s,
  let '(r, d) := m (sql s) in (r, set_sql d s).

Definition getUserById (i : Z) : M user :=
  s ← get_st;
  match users (sql s) !! i with
  | Some u => mret u
  | None => throw (NotFoundError_with (code_ref "USER_NOT_FOUND"))
  end.

Definition truthy (o : option string) : option string := match o with Some "" => None | _ => o end.

Definition validateSenderSecret (u : user) : outcome jserror string :=
  match truthy (encryptedSecret u) with
  | Some e => Ret e
  | None => Throw (ValidationError_with (code_ref "MISSING_SECRET_KEY"))
  end.

Definition key_row (k : string) (d : Limits.db) : option tx_row :=
  find_first (λ t, bool_decide (idempotencyKey t = Some k)) (transactions d).

(** The row of the same key, for a key that is not empty. *)
Definition earlier (q : request) (d : Limits.db) : option tx_row :=
  match truthy (q_key q) with Some k => key_row k d | None => None end.

(** An insufficient reserve stops the donation; a failed check does not. *)
Definition check_reserve (q : request) (e : answers) : outcome jserror unit :=
  if q_native q then
    match reserveCheck e with
    | Ret true => Ret ()
    | Ret false => Throw (BusinessLogicError (code_ref "INSUFFICIENT_BALANCE_AFTER_RESERVE"))
    | Throw (EApp a) => if bool_decide (err_name a = "BusinessLogicError") then Throw (EApp a) else Ret ()
    | Throw _ => Ret ()
    end
  else Ret ().

(** [Math.round(amount * STROOPS_PER_XLM)], when it is an integer. *)
Definition amount_stroops (a : num) : option Z := num_floor_Z (num_round (num_mul a (num_of_Z 10000000))).

Definition duplicate : jserror := DuplicateError (code_ref "DUPLICATE_DONATION").

(** The database transaction: the row and both totals, or nothing. *)
Definition record_donation (q : request) (stellarId : option string) (t : Z) : M Z := λ s,
  let d := sql s in
  let taken (f : tx_row → option string) (v : option string) :=
    match v with Some x => existsb (λ r, bool_decide (f r = Some x)) (transactions d) | None => false end in
  match amount_stroops (q_amount q) with
  | None => (Throw DatabaseError, s)
  | Some a =>
      if taken idempotencyKey (q_key q) || taken stellar_tx_id stellarId then (Throw duplicate, s)
      else
        let row := mk_tx (next_id s) (q_sender q) (q_receiver q) a t (q_key q) stellarId false in
        let s1 := mk_st (set_txs (transactions d ++ [row]) d) (totals s) (global s) (campaigns s) (programs s)
                    (model s) (next_id s + 1) (payments s) in
        (Ret (next_id s), incrementTotal (q_receiver q) a s1)
  end.

(** After the row is stored: campaign, velocity and matching; their failures
    are logged only. *)
Definition follow_up (q : request) (e : answers) (id : Z) (s : st) : st :=
  let s := match Matching.campaign_of (q_campaign q) with
           | Some c => set_campaigns (Campaigns.processCampaignContribution (notified_ok e) c (q_amount q) (campaigns s)).2 s
           | None => s
           end in
  let s := set_sql (recordDonation (q_sender q) (q_receiver q) (q_amount q) "daily" (later e) (sql s)) s in
  set_programs (Matching.processMatchingDonation
    (Matching.mk_donation id (q_amount q) (Matching.campaign_of (q_campaign q))) (programs s)).2 s.

(** Everything before the payment: the answer is a replay, or the secret and
    the wallet of the receiver. *)
Definition vet (q : request) (e : answers) : M (replay + string * string) :=
  sender ← getUserById (q_sender q);
  receiver ← getUserById (q_receiver q);
  if bool_decide (publicKey sender = publicKey receiver)
  then throw (ValidationError_with (code_ref "INVALID_REQUEST"))
  else
    encrypted ← lift_out (validateSenderSecret sender);
    s ← get_st;
    lift_out (checkLimits globalMax globalDailyMax (now e) (q_sender q) (q_amount q) (sql s));;
    on_sql (checkVelocityLimits windowSeconds VELOCITY_LIMIT_FREE VELOCITY_LIMIT_STANDARD VELOCITY_LIMIT_PREMIUM
              (q_sender q) (q_receiver q) (q_amount q) (now e));;
    s ← get_st;
    match earlier q (sql s) with
    | Some row =>
        mret (inl (mk_replay (t_id row) (stellar_tx_id row)
                (getRemainingLimits globalDailyMax (now e) (q_sender q) (sql s))))
    | None =>
        secret ← lift_out (decrypt encrypted);
        lift_out (check_reserve q e);;
        mret (inr (secret, publicKey receiver))
    end.

(** The variable [overpayment] that the record of the JSON store reads is not
    declared: nothing after this point is reached. *)
Definition sendCustodialDonation (q : request) (e : answers) : M replay :=
  a ← vet q e;
  match a with
  | inl r => mret r
  | inr (secret, destination) =>
      let memo := Sanitizer.sanitizeMemo <$> truthy (q_memo q) in
      stellarId ← lift_out (sendDonation e);
      modify_st (log_payment (mk_payment secret destination (q_amount q) memo));;
      id ← record_donation q stellarId (later e);
      modify_st (follow_up q e id);;
      throw (EReference "overpayment")
  end.

(** ** The gate *)

(** Everything a payment went through. *)
Record allowed (q : request) (e : answers) (s : st) (sender receiver : user) (secret : string) : Prop := {
  al_sender : users (sql s) !! q_sender q = Some sender;
  al_receiver : users (sql s) !! q_receiver q = Some receiver;
  al_distinct : publicKey sender ≠ publicKey receiver;
  al_secret : ∃ x, encryptedSecret sender = Some x ∧ decrypt x = Ret secret;
  al_limits : checkLimits globalMax globalDailyMax (now e) (q_sender q) (q_amount q) (sql s) = Ret ();
  al_velocity : is_ret (checkVelocityLimits windowSeconds VELOCITY_LIMIT_FREE VELOCITY_LIMIT_STANDARD
    VELOCITY_LIMIT_PREMIUM (q_sender q) (q_receiver q) (q_amount q) (now e) (sql s)).1 = true;
  al_fresh : ∀ k, q_key q = Some k → k ≠ "" → key_row k (sql s) = None;
  al_reserve : q_native q = true → reserveCheck e ≠ Ret false;
}.

Lemma velocity_frame dn rc a t d :
  ∃ l, (checkVelocityLimits windowSeconds VELOCITY_LIMIT_FREE VELOCITY_LIMIT_STANDARD VELOCITY_LIMIT_PREMIUM
          dn rc a t d).2 = set_log l d.
Proof.
  unfold checkVelocityLimits. destruct checkSlidingVelocity as [r d'] eqn:Hc.
  assert (Hd : ∃ l, d' = set_log l d).
  { revert Hc. unfold checkSlidingVelocity. stx_unfold. intros Hc. eexists. case_match; by injection Hc. }
  destruct Hd as [l ->]. exists l. by destruct r.
Qed.

Lemma truthy_Some o x : truthy o = Some x → o = Some x ∧ x ≠ "".
Proof. destruct o as [[|c y]|]; cbn; [done|intros [= <-]; done|done]. Qed.

(** What the checks leave behind: a pruned velocity log. *)
Lemma vet_spec q e s :
  ∃ l, (vet q e s).2 = set_sql (set_log l (sql s)) s ∧
  match (vet q e s).1 with
  | Ret (inr (secret, dest)) => ∃ sender receiver, allowed q e s sender receiver secret ∧ dest = publicKey receiver
  | Ret (inl r) => ∃ k row, q_key q = Some k ∧ key_row k (sql s) = Some row ∧ rp_id r = t_id row ∧
                            rp_stellarTxId r = stellar_tx_id row
  | Throw _ => True
  end.
Proof.
  assert (Hnone : ∃ l, s = set_sql (set_log l (sql s)) s) by (exists (velocity_log (sql s)); by destruct s as [[]]).
  destruct Hnone as [l0 Hl0].
  unfold vet, getUserById, validateSenderSecret, on_sql. stx_unfold.
  destruct (users (sql s) !! q_sender q) as [sender|] eqn:Hsnd; [|by exists l0].
  destruct (users (sql s) !! q_receiver q) as [receiver|] eqn:Hrcv; [|by exists l0].
  case_bool_decide as Hne; [by exists l0|].
  destruct (truthy (encryptedSecret sender)) as [x|] eqn:Hx; [|by exists l0]. apply truthy_Some in Hx as [Hx _].
  destruct checkLimits as [[]|] eqn:Hlim; [|by exists l0].
  destruct (velocity_frame (q_sender q) (q_receiver q) (q_amount q) (now e) (sql s)) as [l Hl].
  destruct checkVelocityLimits as [[[]|] d] eqn:Hvel; cbn [snd] in Hl; subst d; [|by exists l].
  exists l. change (sql (set_sql (set_log l (sql s)) s)) with (set_log l (sql s)).
  change (earlier q (set_log l (sql s))) with (earlier q (sql s)).
  destruct (earlier q (sql s)) as [row|] eqn:Hrow.
  - split; [done|]. unfold earlier in Hrow. destruct (truthy (q_key q)) as [k|] eqn:Hk; [|done].
    apply truthy_Some in Hk as [Hk _]. by exists k, row.
  - destruct (decrypt x) as [sec|] eqn:Hdec; [|by split]. destruct (check_reserve q e) as [[]|] eqn:Hres; [|by split].
    split; [done|]. exists sender, receiver. split; [|done]. split; try done; [eauto|by rewrite Hvel| |].
    + intros k Hq Hk0. unfold earlier in Hrow. rewrite Hq in Hrow. by destruct k.
    + intros Hn Hf. revert Hres. unfold check_reserve. by rewrite Hn, Hf.
Qed.

(** The parts of the state a donation's follow-up does not touch. *)
Record same_books (s s' : st) : Prop := {
  sb_txs : transactions (sql s') = transactions (sql s);
  sb_totals : totals s' = totals s;
  sb_global : global s' = global s;
  sb_model : model s' = model s;
  sb_payments : payments s' = payments s;
}.

Lemma follow_up_books q e i s : same_books s (follow_up q e i s).
Proof. unfold follow_up. by destruct (Matching.campaign_of (q_campaign q)). Qed.

Definition paid (q : request) (secret : string) (receiver : user) : payment :=
  mk_payment secret (publicKey receiver) (q_amount q) (Sanitizer.sanitizeMemo <$> truthy (q_memo q)).

(** What a donation comes to. *)
Inductive outcome_of (q : request) (e : answers) (s : st) : outcome jserror replay → st → Prop :=
| oc_replay r k row s' :
    same_books s s' → q_key q = Some k → key_row k (sql s) = Some row →
    rp_id r = t_id row → rp_stellarTxId r = stellar_tx_id row → outcome_of q e s (Ret r) s'
| oc_refused x s' : same_books s s' → outcome_of q e s (Throw x) s'
| oc_unrecorded x s' sender receiver secret stellarId :
    allowed q e s sender receiver secret → sendDonation e = Ret stellarId →
    payments s' = payments s ++ [paid q secret receiver] →
    transactions (sql s') = transactions (sql s) → totals s' = totals s → global s' = global s →
    model s' = model s → x = DatabaseError ∨ x = duplicate → outcome_of q e s (Throw x) s'
| oc_paid s' sender receiver secret stellarId a :
    allowed q e s sender receiver secret → sendDonation e = Ret stellarId →
    payments s' = payments s ++ [paid q secret receiver] →
    amount_stroops (q_amount q) = Some a →
    transactions (sql s') = transactions (sql s) ++
      [mk_tx (next_id s) (q_sender q) (q_receiver q) a (later e) (q_key q) stellarId false] →
    totals s' = <[q_receiver q := bump a (default (0, 0) (totals s !! q_receiver q))]> (totals s) →
    global s' = bump a (global s) →
    model s' = model s → outcome_of q e s (Throw (EReference "overpayment")) s'.

Lemma custodial_outcome_of q e s :
  outcome_of q e s (sendCustodialDonation q e s).1 (sendCustodialDonation q e s).2.
Proof.
  destruct (vet_spec q e s) as (l & Hst & Hres). unfold sendCustodialDonation. stx_unfold.
  destruct (vet q e s) as [[[r|[secret dest]]|x] s1]; cbn [fst snd] in *; subst s1.
  - destruct Hres as (k & row & ? & ? & ? & ?). by eapply oc_replay.
  - destruct Hres as (sender & receiver & Hal & ->).
    destruct (sendDonation e) as [stellarId|x] eqn:Hsend; [|by apply oc_refused].
    unfold record_donation. destruct (amount_stroops (q_amount q)) as [a|] eqn:Ha.
    2: { eapply oc_unrecorded; eauto; done. }
    destruct (_ || _)%bool eqn:Htaken; [eapply oc_unrecorded; eauto; done|].
    match goal with |- context [follow_up q e ?i ?s1] => destruct (follow_up_books q e i s1) as [Ht Hto Hg Hm Hp] end.
    cbn [fst snd]. eapply oc_paid; eauto.
  - by apply oc_refused.
Qed.

(** ** Theorems *)

(** C10: A payment goes out only for a request that passed every check, once, to
    the wallet of its receiver. *)
Theorem custodial_gate q e s :
  let s' := (sendCustodialDonation q e s).2 in
  payments s' = payments s ∨
  ∃ sender receiver secret, allowed q e s sender receiver secret ∧ is_ret (sendDonation e) = true ∧
    payments s' = payments s ++ [paid q secret receiver].
Proof.
  cbv zeta. destruct (custodial_outcome_of q e s) as [? ? ? ? [] | ? ? [] | ? ? ? ? ? ? ? Hs | ? ? ? ? ? ? ? Hs]; auto;
    right; eexists _, _, _; rewrite Hs; eauto.
Qed.

(** No donation that was paid is answered with a result: the payment stands,
    the row and the totals may be written, the JSON store never is. *)
Theorem custodial_never_completes q e s :
  let '(r, s') := sendCustodialDonation q e s in
  model s' = model s ∧
  (payments s' ≠ payments s →
    r = Throw (EReference "overpayment") ∧
    (∃ row, transactions (sql s') = transactions (sql s) ++ [row] ∧ idempotencyKey row = q_key q) ∨
    (r = Throw DatabaseError ∨ r = Throw duplicate) ∧ transactions (sql s') = transactions (sql s)) ∧
  (is_ret r = true → ∃ k row, q_key q = Some k ∧ key_row k (sql s) = Some row).
Proof.
  pose proof (custodial_outcome_of q e s) as Hout. destruct (sendCustodialDonation q e s) as [r s']. cbn in Hout.
  destruct Hout as [r k row s' [] ? ? ? ?|x s' []|x s' ? ? ? ? ? ? Hp Ht ? ? Hm Hx|s' ? ? ? ? ? ? ? Hp ? Ht ? ? Hm];
    split_and!; try done; eauto.
  destruct Hx as [-> | ->]; auto.
Qed.

(** *** The totals implement the sums *)

Record totals_ok (s : st) : Prop := {
  to_each r : default (0, 0) (totals s !! r) = sums (live_of r (transactions (sql s)));
  to_global : global s = sums (live (transactions (sql s)));
}.

Lemma sums_app l l' : sums (l ++ l') = ((sums l).1 + (sums l').1, (sums l).2 + (sums l').2).
Proof.
  unfold sums, sumZ. cbn [fst snd]. rewrite fmap_app, length_app, Nat2Z.inj_add. f_equal.
  induction (t_amount <$> l) as [|x m IH]; cbn [foldr app]; [done|]. rewrite IH. lia.
Qed.

(** C16: Donations keep the pre-aggregated totals equal to what the table says. *)
Theorem custodial_totals q e s : totals_ok s → totals_ok (sendCustodialDonation q e s).2.
Proof.
  intros [He Hg].
  destruct (custodial_outcome_of q e s) as [? ? ? ? [Ht Hto Hgl _ _] | ? ? [Ht Hto Hgl _ _]
    | ? ? ? ? ? ? ? ? ? Ht Hto Hgl | ? ? ? ? ? a ? ? ? ? Ht Hto Hgl].
  1-3: split; [intros rc|]; rewrite Ht, ?Hto, ?Hgl; auto.
  split; rewrite Ht.
  - intros r. rewrite Hto. unfold live_of. rewrite filter_app, sums_app, filter_cons, filter_nil. cbn [t_deleted receiverId].
    fold (live_of r (transactions (sql s))). rewrite <- He. destruct (decide (q_receiver q = r)) as [->|Hne].
    + rewrite lookup_insert_eq, decide_True by done. unfold bump, sums, sumZ. cbn. f_equal; lia.
    + rewrite lookup_insert_ne, decide_False by naive_solver. rewrite He. unfold sums, sumZ. cbn. f_equal; lia.
  - rewrite Hgl, Hg. unfold live. rewrite filter_app, sums_app, filter_cons_True, filter_nil by done.
    unfold bump, sums, sumZ. cbn. f_equal; lia.
Qed.

End service.

(** *** Reconciliation *)

Lemma reconcile_rows l rs c m :
  NoDup rs →
  (∀ r, r ∈ rs → default (0, 0) ((foldl (reconcile_row l) (c, m) rs).2 !! r) = sums (live_of r l)) ∧
  (∀ r, r ∉ rs → (foldl (reconcile_row l) (c, m) rs).2 !! r = m !! r).
Proof.
  revert c m. induction rs as [|x rs IH]; intros c m; cbn [foldl].
  { intros _. split; [by intros r ?%elem_of_nil|done]. }
  intros [Hx Hnd]%NoDup_cons. unfold reconcile_row at 2 4. cbn [fst snd].
  case_bool_decide as Hc.
  - destruct (IH c m Hnd) as [H1 H2]. split.
    + intros r [->|Hr]%elem_of_cons; [by rewrite H2|auto].
    + intros r Hr. apply H2. intros ?. apply Hr. by right.
  - destruct (IH (S c) (<[x := sums (live_of x l)]> m) Hnd) as [H1 H2]. split.
    + intros r [->|Hr]%elem_of_cons; [|auto]. by rewrite H2, lookup_insert_eq.
    + intros r Hr. rewrite H2 by (intros ?; apply Hr; by right). apply lookup_insert_ne. intros ->. apply Hr. by left.
Qed.

Lemma reconcile_clean l rs c m :
  (∀ r, default (0, 0) (m !! r) = sums (live_of r l)) → foldl (reconcile_row l) (c, m) rs = (c, m).
Proof.
  intros Hm. induction rs as [|x rs IH]; cbn [foldl]; [done|].
  unfold reconcile_row at 2. cbn [fst snd]. by rewrite bool_decide_true.
Qed.

Lemma live_of_elem r l : r ∈ receiverId <$> live l ↔ live_of r l ≠ [].
Proof.
  unfold live, live_of. rewrite list_elem_of_fmap. split.
  - intros (t & -> & [Ht Hin]%list_elem_of_filter) Hnil.
    apply (filter_nil_not_elem_of _ _ t) in Hnil; [done|done].
  - intros Hne. destruct (filter _ l) as [|t u] eqn:Hf; [done|].
    assert (Ht : t ∈ filter (λ t, t_deleted t = false ∧ receiverId t = r) l) by (rewrite Hf; by left).
    apply list_elem_of_filter in Ht as [[? ?] ?]. exists t. split; [done|]. by apply list_elem_of_filter.
Qed.

(** Reconciliation makes the totals of every recipient with a live donation,
    and the global one, what the table says; on consistent totals it changes
    and counts nothing; a recipient without live donations keeps its row. *)
Theorem reconcile_spec s :
  let l := transactions (sql s) in
  let '((checked, corrected), s') := reconcile s in
  (∀ r, live_of r l ≠ [] → default (0, 0) (totals s' !! r) = sums (live_of r l)) ∧
  (∀ r, live_of r l = [] → totals s' !! r = totals s !! r) ∧
  (global s').1 = (sums (live l)).1 ∧
  (totals_ok s → corrected = O ∧ s' = s).
Proof.
  cbv zeta. unfold reconcile. set (l := transactions (sql s)). set (rs := remove_dups _).
  assert (Hnd : NoDup rs) by apply NoDup_remove_dups.
  assert (Hrs : ∀ r, r ∈ rs ↔ live_of r l ≠ []) by (intros r; unfold rs; by rewrite elem_of_remove_dups, live_of_elem).
  destruct (reconcile_rows l rs O (totals s) Hnd) as [H1 H2].
  destruct (foldl (reconcile_row l) (O, totals s) rs) as [c m] eqn:Hf. cbn [snd] in H1, H2.
  split_and!; cbn [totals set_totals global].
  - intros r Hr. apply H1. by apply Hrs.
  - intros r Hr. apply H2. rewrite Hrs. naive_solver.
  - case_bool_decide as Hg; cbn [negb]; done.
  - intros [He Hg]. rewrite reconcile_clean in Hf by done. injection Hf as <- <-.
    rewrite Hg, bool_decide_true by done. cbn [negb]. split; [done|]. by destruct s; cbn in *; subst.
Qed.

(** *** Witnesses *)

Definition bob : user := mk_user "GB" None None None None None.
Definition s0 : st :=
  mk_st (mk_db {[1 := Limits.alice; 2 := bob]} [] [] ∅ ∅) ∅ (0, 0) [] (Matching.mk_st [] [] 1 1) Transaction.init 1 [].
Definition q0 : request := mk_request 1 2 (num_of_Z 5) (Some "thanks") None (Some "k1") true.
Definition e0 : answers := mk_answers 1000 2000 (Ret true) (Ret (Some "tx1")) true.
Definition send0 (s : st) := sendCustodialDonation (num_of_Z 10000) num_zero 3600 5 20 100 Ret q0 e0 s.

(** The donation of five XLM is paid and recorded, and answered with an error;
    the same request again does not reach its replay, because the limits are
    checked before the key. *)
Example paid_then_error :
  (send0 s0).1 = Throw (EReference "overpayment") ∧
  payments (send0 s0).2 = [mk_payment "s" "GB" (num_of_Z 5) (Some "thanks")] ∧
  (t_amount <$> transactions (sql (send0 s0).2)) = [50000000] ∧
  totals (send0 s0).2 !! 2 = Some (50000000, 1) ∧
  (send0 (send0 s0).2).1 = Throw limit_error.
Proof. vm_compute. auto. Qed.

Lemma totals_ok_s0 : totals_ok s0.
Proof. split; [intros r|]; vm_compute; reflexivity. Qed.

Lemma custodial_totals_witness :
  totals_ok s0 ∧ payments (send0 s0).2 ≠ [] ∧ totals_ok (send0 s0).2.
Proof.
  split_and!; [apply totals_ok_s0|by vm_compute|].
  apply (custodial_totals (num_of_Z 10000) num_zero 3600 5 20 100 Ret q0 e0 s0). apply totals_ok_s0.
Defined.

End Custodial.
