(* ===== verification/Idempotency.v ===== *)
(** * Idempotent requests ([src/src/services/IdempotencyService.js],
      [src/src/middleware/idempotency.js])

    The table [idempotency_keys], the operations of the service on it, the
    middleware as one step per database call, and the system of concurrent
    requests with its clock and clean-up.  [SlotSpec] is the abstract slot a
    key stands for; [middleware_refines_slot] shows that, while no
    reservation of a key has expired, the middleware implements it.

    SHA-256 is a parameter.  SQLite compares [datetime]s in whole seconds; its
    UNIQUE(apiKeyId, idempotencyKey) holds NULLs to be distinct. *)

From Stdlib Require Import Ascii.
From S2P Require Import Prelude JsString JsMap JsJson Errors.
Local Open Scope Z_scope.

Module Idempotency.

Inductive row_status := Pending | Completed.
#[export] Instance row_status_eq_dec : EqDecision row_status.
Proof. solve_decision. Defined.

(** A pending row has the response [''], here [None]. *)
Record row := mk_row {
  r_apiKeyId : option Z;
  r_key : string;
  r_hash : string;
  r_response : option json;
  r_status : row_status;
  r_userId : option Z;
  r_createdAt : Z;
  r_expiresAt : Z;
}.

Definition DEFAULT_TTL : Z := 24 * 60 * 60 * 1000.

(** [datetime(t)] *)
Definition secs (t : Z) : Z := t / 1000.
Definition live (now : Z) (r : row) : bool := secs now <? secs (r_expiresAt r).

(** The row of a scope: [apiKeyId = ?], or [apiKeyId IS NULL]. *)
Definition in_scope (a : option Z) (k : string) (r : row) : bool :=
  bool_decide (r_apiKeyId r = a) && bool_decide (r_key r = k).
(** The rows UNIQUE(apiKeyId, idempotencyKey) conflicts with. *)
Definition conflicts (a : option Z) (k : string) (r : row) : bool :=
  match a with Some _ => in_scope a k r | None => false end.

(** [JSON.stringify(requestData, Object.keys(requestData).sort())] *)
Definition generateRequestHash (sha256 : string → string) (requestData : list (string * json)) : string :=
  sha256 (stringify (Some (sort_strings requestData.*1)) (JObj requestData)).

(** INSERT OR IGNORE *)
Definition reserve (now : Z) (k h : string) (a : option Z) (t : list row) : bool * list row :=
  if existsb (conflicts a k) t then (false, t)
  else (true, t ++ [mk_row a k h None Pending None (secs now * 1000) (now + DEFAULT_TTL)]).

Definition isPending (now : Z) (k : string) (a : option Z) (t : list row) : bool :=
  existsb (λ r, in_scope a k r && bool_decide (r_status r = Pending) && live now r) t.

Definition complete (k : string) (response : json) (a userId : option Z) (t : list row) : list row :=
  (λ r, if in_scope a k r
        then mk_row (r_apiKeyId r) (r_key r) (r_hash r) (Some response) Completed userId
               (r_createdAt r) (r_expiresAt r)
        else r) <$> t.

(** INSERT OR REPLACE *)
Definition store (now : Z) (k h : string) (response : json) (userId a : option Z) (t : list row) : list row :=
  filter (λ r, conflicts a k r = false) t ++
  [mk_row a k h (Some response) Completed userId (secs now * 1000) (now + DEFAULT_TTL)].

(** The cached response with its hash and time; [JSON.parse('')] throws. *)
Definition get (now : Z) (k : string) (a : option Z) (t : list row)
    : outcome jserror (option (json * string * Z)) :=
  match find_first (λ r, in_scope a k r && bool_decide (r_status r = Completed) && live now r) t with
  | None => Ret None
  | Some r =>
      match r_response r with
      | Some response => Ret (Some (response, r_hash r, r_createdAt r))
      | None => Throw ESyntax
      end
  end.

Definition findByHash (now : Z) (h : string) (excludeKey : option string) (a : option Z) (t : list row)
    : outcome jserror (option (string * json * Z)) :=
  let excluded r := match excludeKey with
                    | Some k => negb (is_empty k) && bool_decide (r_key r = k)
                    | None => false
                    end in
  match find_first (λ r, bool_decide (r_hash r = h) && bool_decide (r_status r = Completed) &&
                         live now r && bool_decide (r_apiKeyId r = a) && negb (excluded r)) t with
  | None => Ret None
  | Some r =>
      match r_response r with
      | Some response => Ret (Some (r_key r, response, r_createdAt r))
      | None => Throw ESyntax
      end
  end.

(** [/^[a-zA-Z0-9\-_]+$/] *)
Definition key_char (c : ascii) : bool :=
  let n := char_code c in
  is_digit c || ((65 <=? n) && (n <=? 90)) || ((97 <=? n) && (n <=? 122)) || (n =? 45) || (n =? 95).

Inductive key_error := KeyEmpty | KeyShort | KeyLong | KeyChars.
(** [None] is an absent key; the answer is the error, if any. *)
Definition validateKey (key : option string) : option key_error :=
  match key with
  | None => Some KeyEmpty
  | Some k =>
      if is_empty k then Some KeyEmpty
      else if (String.length k <? 16)%nat then Some KeyShort
      else if (255 <? String.length k)%nat then Some KeyLong
      else if str_forall key_char k then None else Some KeyChars
  end.

Definition cleanupExpired (now : Z) (t : list row) : nat * list row :=
  let kept := filter (λ r, live now r = true) t in
  ((length t - length kept)%nat, kept).

(** total, active, expired *)
Definition getStats (now : Z) (t : list row) : nat * nat * nat :=
  (length t, length (filter (λ r, live now r = true) t), length (filter (λ r, live now r = false) t)).

Definition delete (k : string) (t : list row) : bool * list row :=
  let kept := filter (λ r, r_key r ≠ k) t in (bool_decide (length kept < length t)%nat, kept).

(** ** The middleware *)

(** Where a request stands: the database call it makes next. *)
Inductive phase :=
| PGet | PPending | PReserve | PRacing | PCompleted | PDuplicate
| PHandler            (* next() was called *)
| PDone.              (* a response was sent, or next(error) *)
#[export] Instance phase_eq_dec : EqDecision phase.
Proof. solve_decision. Defined.

Inductive answer :=
| Replayed (response : json) (createdAt : Z)       (* 200 *)
| Conflict409
| Failed (e : jserror)                             (* next(error) *)
| Reserved                                         (* not visible to the client *)
| Next (warning : option (string * Z)).            (* next() *)

(** [req.apiKey?.id || null] *)
Definition scope_of (id : option Z) : option Z :=
  match id with Some 0 => None | _ => id end.

(** One database call of [requireIdempotency] and the code up to the next. *)
Definition mw_step (now : Z) (a : option Z) (k h : string) (p : phase) (t : list row)
    : phase * option answer * list row :=
  match p with
  | PGet =>
      match get now k a t with
      | Throw e => (PDone, Some (Failed e), t)
      | Ret (Some (response, _, createdAt)) => (PDone, Some (Replayed response createdAt), t)
      | Ret None => (PPending, None, t)
      end
  | PPending => if isPending now k a t then (PDone, Some Conflict409, t) else (PReserve, None, t)
  | PReserve =>
      let '(won, t') := reserve now k h a t in
      if won then (PDuplicate, Some Reserved, t') else (PRacing, None, t')
  | PRacing => if isPending now k a t then (PDone, Some Conflict409, t) else (PCompleted, None, t)
  | PCompleted =>
      match get now k a t with
      | Throw e => (PDone, Some (Failed e), t)
      | Ret (Some (response, _, createdAt)) => (PDone, Some (Replayed response createdAt), t)
      | Ret None => (PDuplicate, None, t)
      end
  | PDuplicate =>
      match findByHash now h (Some k) a t with
      | Throw e => (PDone, Some (Failed e), t)
      | Ret d => (PHandler, Some (Next ((λ x, (x.1.1, x.2)) <$> d)), t)
      end
  | PHandler | PDone => (p, None, t)
  end.

Definition missing_key : jserror := ValidationError_with (CStr "IDEMPOTENCY_KEY_REQUIRED").
Definition invalid_key : jserror := ValidationError_with (CStr "INVALID_IDEMPOTENCY_KEY").

(** The checks before the first database call. *)
Definition requireIdempotency (header : option string) : outcome jserror string :=
  match header with
  | None | Some "" => Throw missing_key
  | Some k => match validateKey (Some k) with Some _ => Throw invalid_key | None => Ret k end
  end.

(** A request nobody interferes with, from its first call to its last. *)
Fixpoint mw_run (fuel : nat) (now : Z) (a : option Z) (k h : string) (p : phase) (t : list row)
    : option answer * phase * list row :=
  match fuel with
  | O => (None, p, t)
  | S fuel =>
      let '(p', ans, t') := mw_step now a k h p t in
      match p' with
      | PHandler | PDone => (ans, p', t')
      | _ => mw_run fuel now a k h p' t'
      end
  end.

(** [storeIdempotencyResponse] after a new request: a failing write is
    logged only. *)
Definition storeIdempotencyResponse (isNew db_ok : bool) (k : string) (response : json)
    (a userId : option Z) (t : list row) : list row :=
  if isNew && db_ok then complete k response a userId t else t.

(** [conditionalIdempotency]: no reservation. *)
Definition conditionalIdempotency (required : bool) (now : Z) (a : option Z) (header : option string)
    (t : list row) : answer :=
  match header with
  | None | Some "" => if required then Failed missing_key else Next None
  | Some k =>
      if (128 <? String.length k)%nat then Failed invalid_key else
      match get now k a t with
      | Throw e => Failed e
      | Ret (Some (response, _, createdAt)) => Replayed response createdAt
      | Ret None => Next None
      end
  end.

(** ** Concurrent requests *)

Inductive action :=
| AReserve (t : Z)
| ARun
| AReplay (response : json)
| AConflict
| AComplete (response : json)
| AFail.
Record event := mk_ev { e_req : nat; e_scope : option Z; e_key : string; e_act : action }.

Definition action_of (now : Z) (ans : answer) : action :=
  match ans with
  | Replayed response _ => AReplay response
  | Conflict409 => AConflict
  | Failed _ => AFail
  | Reserved => AReserve now
  | Next _ => ARun
  end.

Record proc := mk_proc { p_scope : option Z; p_key : string; p_hash : string; p_phase : phase }.
Definition at_phase (p : proc) (ph : phase) : proc := mk_proc (p_scope p) (p_key p) (p_hash p) ph.

Record sys := mk_sys { tbl : list row; clock : Z; procs : gmap nat proc; log : list event }.
Definition init : sys := mk_sys [] 0 ∅ [].

Inductive step (s : sys) : sys → Prop :=
| step_arrive i header a k h :
    procs s !! i = None → requireIdempotency header = Ret k →
    step s (mk_sys (tbl s) (clock s) (<[i := mk_proc (scope_of a) k h PGet]> (procs s)) (log s))
| step_mw i p ph ans t' :
    procs s !! i = Some p →
    mw_step (clock s) (p_scope p) (p_key p) (p_hash p) (p_phase p) (tbl s) = (ph, ans, t') →
    step s (mk_sys t' (clock s) (<[i := at_phase p ph]> (procs s))
              (log s ++ match ans with
                        | Some x => [mk_ev i (p_scope p) (p_key p) (action_of (clock s) x)]
                        | None => []
                        end))
| step_complete i p response userId :
    procs s !! i = Some p → p_phase p = PHandler →
    step s (mk_sys (storeIdempotencyResponse true true (p_key p) response (p_scope p) userId (tbl s))
              (clock s) (<[i := at_phase p PDone]> (procs s))
              (log s ++ [mk_ev i (p_scope p) (p_key p) (AComplete response)]))
| step_fail i p :       (* the handler fails, or the response cannot be stored *)
    procs s !! i = Some p → p_phase p = PHandler →
    step s (mk_sys (tbl s) (clock s) (<[i := at_phase p PDone]> (procs s))
              (log s ++ [mk_ev i (p_scope p) (p_key p) AFail]))
| step_tick now :
    clock s <= now → step s (mk_sys (tbl s) now (procs s) (log s))
| step_cleanup :
    step s (mk_sys (cleanupExpired (clock s) (tbl s)).2 (clock s) (procs s) (log s)).

(** ** The abstract slot *)

Inductive slot := Free | Claimed (i : nat) | Running (i : nat) | Done (response : json) | Stuck.

(** What one key promises: one request claims it, runs, and leaves a response
    every later request receives; the others are told to wait. *)
Inductive slot_step : slot → nat → action → slot → Prop :=
| slot_reserve i t : slot_step Free i (AReserve t) (Claimed i)
| slot_run_handler i : slot_step (Claimed i) i ARun (Running i)
| slot_complete i r : slot_step (Running i) i (AComplete r) (Done r)
| slot_fail_claimed i : slot_step (Claimed i) i AFail Stuck
| slot_fail i : slot_step (Running i) i AFail Stuck
| slot_conflict_claimed i j : slot_step (Claimed j) i AConflict (Claimed j)
| slot_conflict_running i j : slot_step (Running j) i AConflict (Running j)
| slot_conflict_stuck i : slot_step Stuck i AConflict Stuck
| slot_replay i r : slot_step (Done r) i (AReplay r) (Done r).

Inductive slot_run : slot → list (nat * action) → slot → Prop :=
| run_nil q : slot_run q [] q
| run_snoc q l q' i a q'' : slot_run q l q' → slot_step q' i a q'' → slot_run q (l ++ [(i, a)]) q''.

Section one_key.
Context (id : Z) (key : string).

Definition mine (e : event) : bool := bool_decide (e_scope e = Some id) && bool_decide (e_key e = key).
(** The events of the key. *)
Definition trace (l : list event) : list (nat * action) :=
  (λ e, (e_req e, e_act e)) <$> filter (λ e, mine e = true) l.
(** No reservation of the key has expired. *)
Definition unexpired (s : sys) : Prop :=
  ∀ i t, (i, AReserve t) ∈ trace (log s) → secs (clock s) < secs (t + DEFAULT_TTL).

Definition rows (t : list row) : list row := filter (λ r, in_scope (Some id) key r = true) t.
Local Arguments rows : simpl never.

Definition waiting (ph : phase) : bool :=
  match ph with PGet | PPending | PReserve | PRacing | PDone => true | _ => false end.
Definition allowed (q : slot) (i : nat) (ph : phase) : bool :=
  match q with
  | Free => match ph with PGet | PPending | PReserve | PDone => true | _ => false end
  | Claimed j => if decide (i = j) then bool_decide (ph = PDuplicate) else waiting ph
  | Running j => if decide (i = j) then bool_decide (ph = PHandler) else waiting ph
  | Stuck => waiting ph
  | Done _ => waiting ph || bool_decide (ph = PCompleted)
  end.
Definition row_ok (q : slot) (r : row) : Prop :=
  match q with
  | Free => False
  | Done response => r_status r = Completed ∧ r_response r = Some response
  | _ => r_status r = Pending
  end.
Definition rows_ok (q : slot) (s : sys) : Prop :=
  match q with
  | Free => rows (tbl s) = []
  | _ => ∃ r i t, rows (tbl s) = [r] ∧ row_ok q r ∧ r_expiresAt r = t + DEFAULT_TTL ∧
                  (i, AReserve t) ∈ trace (log s)
  end.
Definition owner_ok (q : slot) (m : gmap nat proc) : Prop :=
  match q with Claimed j | Running j => is_Some (m !! j) | _ => True end.
(** The slot a state of the system stands for. *)
Record represents (q : slot) (s : sys) : Prop := {
  rep_rows : rows_ok q s;
  rep_owner : owner_ok q (procs s);
  rep_procs i p : procs s !! i = Some p → p_scope p = Some id → p_key p = key → allowed q i (p_phase p) = true;
}.

(** *** The operations on the rows of the key *)

Lemma in_scope_true a k r : in_scope a k r = true ↔ r_apiKeyId r = a ∧ r_key r = k.
Proof. unfold in_scope. rewrite andb_true_iff, !bool_decide_eq_true. done. Qed.

Lemma existsb_rows g f t :
  (∀ r, g r = in_scope (Some id) key r && f r) → existsb g t = existsb f (rows t).
Proof.
  intros Hg. induction t as [|r t IH]; [done|]. unfold rows in *. rewrite filter_cons. cbn [existsb].
  rewrite Hg, IH. by destruct (in_scope (Some id) key r).
Qed.

Lemma find_rows g f t :
  (∀ r, g r = in_scope (Some id) key r && f r) → find_first g t = find_first f (rows t).
Proof.
  intros Hg. induction t as [|r t IH]; [done|]. unfold rows in *. rewrite filter_cons. cbn [find_first].
  rewrite Hg, IH. by destruct (in_scope (Some id) key r).
Qed.

Lemma isPending_rows now t :
  isPending now key (Some id) t = existsb (λ r, bool_decide (r_status r = Pending) && live now r) (rows t).
Proof. apply existsb_rows. intros. cbn beta. by rewrite andb_assoc. Qed.

Lemma get_rows now t :
  get now key (Some id) t =
    match find_first (λ r, bool_decide (r_status r = Completed) && live now r) (rows t) with
    | None => Ret None
    | Some r => match r_response r with
                | Some response => Ret (Some (response, r_hash r, r_createdAt r))
                | None => Throw ESyntax
                end
    end.
Proof.
  unfold get. rewrite (find_rows _ (λ r, bool_decide (r_status r = Completed) && live now r)); [done|].
  intros. by rewrite andb_assoc.
Qed.

Lemma rows_app t u : rows (t ++ u) = rows t ++ rows u.
Proof. apply filter_app. Qed.

(** An operation for another scope leaves the rows alone. *)
Definition same (a : option Z) (k : string) : bool := bool_decide (a = Some id) && bool_decide (k = key).

Lemma same_true a k : same a k = true ↔ a = Some id ∧ k = key.
Proof. unfold same. by rewrite andb_true_iff, !bool_decide_eq_true. Qed.

Lemma reserve_rows now k h a t :
  rows (reserve now k h a t).2 = rows t ++
    (if same a k && bool_decide (rows t = [])
     then [mk_row a k h None Pending None (secs now * 1000) (now + DEFAULT_TTL)] else []).
Proof.
  assert (Hown : same a k = true → existsb (conflicts a k) t = negb (bool_decide (rows t = []))).
  { intros [-> ->]%same_true. rewrite (existsb_rows _ (λ _, true)); [|intros; by rewrite andb_true_r].
    by destruct (rows t). }
  unfold reserve. destruct (same a k) eqn:Hs.
  - rewrite Hown by done. destruct (rows t) as [|r l] eqn:Hr; cbn; [|by rewrite Hr, (right_id_L [] (++))].
    rewrite rows_app, Hr. apply same_true in Hs as [-> ->]. unfold rows.
    rewrite filter_cons_True by (by apply in_scope_true). done.
  - cbn. rewrite app_nil_r. destruct existsb; [done|]. cbn. rewrite rows_app. unfold rows at 2.
    rewrite filter_cons_False; [by rewrite filter_nil, app_nil_r|].
    rewrite in_scope_true. cbn. intros [-> ->]. by rewrite (proj2 (same_true _ _)) in Hs.
Qed.

Lemma reserve_won now k h a t : same a k = true → (reserve now k h a t).1 = bool_decide (rows t = []).
Proof.
  intros [-> ->]%same_true. unfold reserve.
  rewrite (existsb_rows _ (λ _, true)); [|intros; by rewrite andb_true_r]. by destruct (rows t).
Qed.

Lemma reserve_lost now h t : rows t ≠ [] → reserve now key h (Some id) t = (false, t).
Proof.
  intros Hr. pose proof (reserve_won now key h (Some id) t (proj2 (same_true _ _) (conj eq_refl eq_refl))) as Hw.
  rewrite bool_decide_false in Hw by done. revert Hw. unfold reserve. by destruct existsb.
Qed.

Definition completed_row (response : json) (userId : option Z) (r : row) : row :=
  mk_row (r_apiKeyId r) (r_key r) (r_hash r) (Some response) Completed userId (r_createdAt r) (r_expiresAt r).

Lemma complete_rows k response a userId t :
  rows (complete k response a userId t) =
    if same a k then completed_row response userId <$> rows t else rows t.
Proof.
  unfold rows, complete. induction t as [|r t IH]; [by destruct (same a k)|].
  rewrite fmap_cons, !filter_cons, IH. destruct (in_scope a k r) eqn:Ha; cbn.
  - apply in_scope_true in Ha as [<- <-]. cbn. destruct (same (r_apiKeyId r) (r_key r)) eqn:Hs.
    + rewrite !decide_True by done. done.
    + rewrite !decide_False by (intros H; change (same (r_apiKeyId r) (r_key r) = true) in H; congruence). done.
  - destruct (same a k) eqn:Hs; [|done]. apply same_true in Hs as [-> ->]. by rewrite Ha.
Qed.

Lemma cleanup_rows now t : rows (cleanupExpired now t).2 = filter (λ r, live now r = true) (rows t).
Proof. unfold rows, cleanupExpired. cbn [snd]. rewrite !list_filter_filter. apply list_filter_iff. tauto. Qed.

(** *** Simulation *)

Lemma trace_snoc l i a k act :
  trace (l ++ [mk_ev i a k act]) = trace l ++ (if same a k then [(i, act)] else []).
Proof.
  unfold trace. rewrite filter_app, fmap_app. f_equal. rewrite filter_cons, filter_nil.
  change (mine (mk_ev i a k act)) with (same a k). by destruct (same a k).
Qed.

Lemma trace_app l l' : trace (l ++ l') = trace l ++ trace l'.
Proof. unfold trace. by rewrite filter_app, fmap_app. Qed.

Lemma row_live s r i t :
  unexpired s → r_expiresAt r = t + DEFAULT_TTL → (i, AReserve t) ∈ trace (log s) → live (clock s) r = true.
Proof. intros Hu He Hin. unfold live. rewrite He. apply Z.ltb_lt. by eapply Hu. Qed.

Lemma get_represents q s : represents q s → unexpired s →
  match q with
  | Done response => ∃ h c, get (clock s) key (Some id) (tbl s) = Ret (Some (response, h, c))
  | _ => get (clock s) key (Some id) (tbl s) = Ret None
  end.
Proof.
  intros [Hr _ _] Hu. rewrite get_rows. destruct q as [|j|j|response|]; cbn in Hr; [by rewrite Hr|..];
    destruct Hr as (r & i & t & -> & Hs & He & Hin); cbn [find_first];
    rewrite (row_live _ _ _ _ Hu He Hin), andb_true_r.
  1,2,4: by rewrite Hs.
  destruct Hs as [-> Hresp]. rewrite bool_decide_true, Hresp by done. by eexists _, _.
Qed.

Lemma isPending_represents q s : represents q s → unexpired s →
  isPending (clock s) key (Some id) (tbl s) = match q with Free | Done _ => false | _ => true end.
Proof.
  intros [Hr _ _] Hu. rewrite isPending_rows. destruct q as [|j|j|response|]; cbn in Hr; [by rewrite Hr|..];
    destruct Hr as (r & i & t & -> & Hs & He & Hin); cbn [existsb];
    rewrite (row_live _ _ _ _ Hu He Hin), andb_true_r, orb_false_r.
  1,2,4: by rewrite Hs.
  by destruct Hs as [-> _].
Qed.

Lemma owner_insert q m i p : owner_ok q m → owner_ok q (<[i := p]> m).
Proof. destruct q; cbn; try done; intros; by apply lookup_insert_is_Some'; right. Qed.

(** A step of request [i] that takes the slot from [q] to [q']. *)
Lemma represents_step q q' s i p ph t' now l :
  represents q s →
  procs s !! i = Some p → owner_ok q' (procs s) →
  rows_ok q' (mk_sys t' now (<[i := at_phase p ph]> (procs s)) l) →
  (p_scope p = Some id → p_key p = key → allowed q' i ph = true) →
  (∀ j x, j ≠ i → allowed q j x = true → allowed q' j x = true) →
  represents q' (mk_sys t' now (<[i := at_phase p ph]> (procs s)) l).
Proof.
  intros [_ _ Hp] Hi Ho Hr Hph Hoth. split; [done|by apply owner_insert|]. cbn. intros j x Hj Hs Hk.
  apply lookup_insert_Some in Hj as [[Hij Hx]|[Hne Hj]]; [subst; by apply Hph|].
  apply Hoth; [congruence|]. by apply Hp.
Qed.

(** The slot and its rows stay. *)
Lemma rows_ok_mono q s s' :
  rows_ok q s → rows (tbl s') = rows (tbl s) → trace (log s) ⊆ trace (log s') → rows_ok q s'.
Proof.
  destruct q; cbn; [by intros ? ->|..]; intros (r & n & t & Hr & ?) -> Hl; exists r, n, t;
    naive_solver.
Qed.

Lemma allowed_PDone q i : allowed q i PDone = true ∨ q = Claimed i ∨ q = Running i.
Proof. destruct q; cbn; repeat case_decide; subst; auto. Qed.

(** What an answer does to the slot. *)
Definition moves (q : slot) (i : nat) (now : Z) (ans : option answer) (q' : slot) : Prop :=
  match ans with None => q' = q | Some x => slot_step q i (action_of now x) q' end.

(** One database call of a request for the key. *)
Lemma own_step q s i p ph ans t' :
  represents q s → unexpired s → procs s !! i = Some p → p_scope p = Some id → p_key p = key →
  mw_step (clock s) (p_scope p) (p_key p) (p_hash p) (p_phase p) (tbl s) = (ph, ans, t') →
  ∃ q', moves q i (clock s) ans q' ∧ rows_ok q' (mk_sys t' (clock s) (<[i := at_phase p ph]> (procs s))
          (log s ++ match ans with
                    | Some x => [mk_ev i (p_scope p) (p_key p) (action_of (clock s) x)]
                    | None => []
                    end)) ∧
        owner_ok q' (procs s) ∧ allowed q' i ph = true ∧ (∀ j x, j ≠ i → allowed q j x = true → allowed q' j x = true).
Proof.
  intros Hrep Hu Hi Hs Hk Hmw. pose proof (rep_procs _ _ Hrep _ _ Hi Hs Hk) as Ha.
  pose proof (get_represents _ _ Hrep Hu) as Hget. pose proof (isPending_represents _ _ Hrep Hu) as Hpend.
  destruct Hrep as [Hrows Hown _]. rewrite Hs, Hk in *. clear Hs Hk.
  assert (Hstay : ∀ l, rows_ok q (mk_sys (tbl s) (clock s) (<[i := at_phase p ph]> (procs s)) (log s ++ l))).
  { intros l. eapply rows_ok_mono; [done..|]. cbn [log]. rewrite trace_app. set_solver. }
  match goal with |- ?G => set (goal := G) end.
  assert (Hkeep : allowed q i ph = true → moves q i (clock s) ans q → t' = tbl s → goal).
  { intros. subst t'. exists q. split_and!; [done|apply Hstay|done..]. }
  destruct (p_phase p); cbn [mw_step] in Hmw; destruct q as [|j|j|response|];
    cbn in Ha; repeat case_decide; try done; subst; try destruct Hget as (h & c & Hget);
    rewrite ?Hget, ?Hpend in Hmw.
  all: try by (simplify_eq; apply Hkeep; [cbn; rewrite ?decide_False, ?decide_True by done|..]; first [done|constructor]).
  2-5: rewrite reserve_lost in Hmw by (destruct Hrows as (? & ? & ? & -> & _); done); simplify_eq;
    (apply Hkeep; [cbn; by rewrite ?decide_False by done|done|done]).
  - (* the reservation is won *)
    assert (Hsame : same (Some id) key = true) by by apply same_true.
    pose proof (reserve_won (clock s) key (p_hash p) (Some id) (tbl s) Hsame) as Hw.
    pose proof (reserve_rows (clock s) key (p_hash p) (Some id) (tbl s)) as Hr.
    cbn in Hrows. rewrite Hrows, Hsame in Hr. rewrite Hrows in Hw.
    destruct reserve as [won t2]. cbn in Hw, Hr. subst won. simplify_eq.
    exists (Claimed i). split_and!; [constructor| |by eexists|cbn; by rewrite decide_True|].
    + eexists _, i, (clock s). cbn [tbl log]. rewrite Hr. split_and!; [done..|].
      rewrite trace_snoc, Hsame. set_solver.
    + intros k x Hk. cbn. rewrite decide_False by done. by destruct x.
  - destruct findByHash as [d|e]; simplify_eq.
    + eexists. split_and!; [apply slot_run_handler|apply Hstay|by eexists|cbn; by rewrite decide_True|].
      intros k x Hk. cbn. by rewrite !decide_False by done.
    + eexists. split_and!; [apply slot_fail_claimed|apply Hstay|done|done|].
      intros k x Hk. cbn. by rewrite !decide_False by done.
Qed.

(** A step for another key changes neither the rows nor the trace. *)
Lemma mw_step_other now a k h p t : same a k = false → rows (mw_step now a k h p t).2 = rows t.
Proof.
  intros Hs. destruct p; cbn [mw_step]; repeat (case_match; subst); try done.
  all: match goal with H : reserve _ _ _ _ _ = _ |- _ =>
         pose proof (reserve_rows now k h a t) as Hr; rewrite H, Hs in Hr; cbn in Hr; by rewrite app_nil_r in Hr end.
Qed.

(** Either the trace of the key stays, or it gets one event the slot allows. *)
Definition simulated (q : slot) (s s' : sys) : Prop :=
  (trace (log s') = trace (log s) ∧ represents q s') ∨
  ∃ i act q', trace (log s') = trace (log s) ++ [(i, act)] ∧ slot_step q i act q' ∧ represents q' s'.

Lemma step_log s s' : step s s' → clock s <= clock s' ∧ ∃ l, log s' = log s ++ l.
Proof. destruct 1; cbn; (split; [done || lia|eauto using app_nil_r]); by exists []; rewrite app_nil_r. Qed.

Lemma unexpired_before s s' : step s s' → unexpired s' → unexpired s.
Proof.
  intros [Hc [l Hl]]%step_log Hu i t Hin. specialize (Hu i t). rewrite Hl, trace_app in Hu.
  assert (Hsec : secs (clock s) <= secs (clock s')) by by apply Z.div_le_mono.
  rewrite elem_of_app in Hu. specialize (Hu (or_introl Hin)). lia.
Qed.

(** The steps of a request: its database calls, its end. *)
Lemma sim_frame q s i p ph t' l :
  represents q s → procs s !! i = Some p → same (p_scope p) (p_key p) = false →
  rows t' = rows (tbl s) → trace (log s ++ l) = trace (log s) →
  simulated q s (mk_sys t' (clock s) (<[i := at_phase p ph]> (procs s)) (log s ++ l)).
Proof.
  intros Hrep Hi Hs Hr Hl. left. split; [done|]. eapply represents_step; [done|done|by apply rep_owner|..|done].
  - eapply rows_ok_mono; [by apply rep_rows|done|]. cbn [log]. by rewrite Hl.
  - intros Ha Hk. by rewrite (proj2 (same_true _ _) (conj Ha Hk)) in Hs.
Qed.

Lemma sim_mw q s i p ph ans t' :
  represents q s → unexpired s → procs s !! i = Some p →
  mw_step (clock s) (p_scope p) (p_key p) (p_hash p) (p_phase p) (tbl s) = (ph, ans, t') →
  simulated q s (mk_sys t' (clock s) (<[i := at_phase p ph]> (procs s))
    (log s ++ match ans with
              | Some x => [mk_ev i (p_scope p) (p_key p) (action_of (clock s) x)]
              | None => []
              end)).
Proof.
  intros Hrep Hu Hi Hmw. destruct (same (p_scope p) (p_key p)) eqn:Hsame.
  - apply same_true in Hsame as Hsk. destruct Hsk as [Hs Hk].
    destruct (own_step _ _ _ _ _ _ _ Hrep Hu Hi Hs Hk Hmw) as (q' & Hm & Hr & Hw & Ha & Ho).
    destruct ans as [x|].
    + right. exists i, (action_of (clock s) x), q'. cbn [log]. rewrite trace_snoc, Hsame.
      split_and!; [done..|]. eapply represents_step; eauto.
    + left. cbn in Hm. subst q'. split; [cbn [log]; by rewrite app_nil_r|]. eapply represents_step; eauto.
  - apply sim_frame; [done..| |].
    + by rewrite <- (mw_step_other (clock s) _ _ (p_hash p) (p_phase p) (tbl s) Hsame), Hmw.
    + destruct ans; [by rewrite trace_snoc, Hsame, app_nil_r|by rewrite app_nil_r].
Qed.

Lemma sim_complete q s i p response userId :
  represents q s → procs s !! i = Some p → p_phase p = PHandler →
  simulated q s (mk_sys (complete (p_key p) response (p_scope p) userId (tbl s)) (clock s)
    (<[i := at_phase p PDone]> (procs s)) (log s ++ [mk_ev i (p_scope p) (p_key p) (AComplete response)])).
Proof.
  intros Hrep Hi Hph. destruct (same (p_scope p) (p_key p)) eqn:Hsame.
  - apply same_true in Hsame as Hsk. destruct Hsk as [Hs Hk].
    pose proof (rep_procs _ _ Hrep _ _ Hi Hs Hk) as Ha. rewrite Hph in Ha.
    destruct q as [|j|j|r|]; cbn in Ha; repeat case_decide; try done. subst j.
    right. exists i, (AComplete response), (Done response). cbn [log]. rewrite trace_snoc, Hsame.
    split_and!; [done|constructor|]. eapply represents_step; [done|done|done| |done|].
    + destruct Hrep as [(r & j & t & Hr & Hok & He & Hin) _ _]. exists (completed_row response userId r), j, t.
      cbn [tbl log]. rewrite complete_rows, Hsame, Hr, trace_snoc. split_and!; [done..|apply elem_of_app; by left].
    + intros j x Hj. cbn. rewrite decide_False by done. intros ->. done.
  - apply sim_frame; [done..| |].
    + by rewrite complete_rows, Hsame.
    + by rewrite trace_snoc, Hsame, app_nil_r.
Qed.

Lemma sim_fail q s i p :
  represents q s → procs s !! i = Some p → p_phase p = PHandler →
  simulated q s (mk_sys (tbl s) (clock s) (<[i := at_phase p PDone]> (procs s))
    (log s ++ [mk_ev i (p_scope p) (p_key p) AFail])).
Proof.
  intros Hrep Hi Hph. destruct (same (p_scope p) (p_key p)) eqn:Hsame.
  - apply same_true in Hsame as Hsk. destruct Hsk as [Hs Hk].
    pose proof (rep_procs _ _ Hrep _ _ Hi Hs Hk) as Ha. rewrite Hph in Ha.
    destruct q as [|j|j|r|]; cbn in Ha; repeat case_decide; try done. subst j.
    right. exists i, AFail, Stuck. cbn [log]. rewrite trace_snoc, Hsame.
    split_and!; [done|constructor|]. eapply represents_step; [done|done|done| |done|].
    + destruct Hrep as [(r & j & t & Hr & Hok & He & Hin) _ _]. exists r, j, t.
      cbn [tbl log]. rewrite trace_snoc. split_and!; [done..|apply elem_of_app; by left].
    + intros j x Hj. cbn. by rewrite decide_False by done.
  - apply sim_frame; [done..|]. by rewrite trace_snoc, Hsame, app_nil_r.
Qed.

Lemma step_simulated q s s' : represents q s → step s s' → unexpired s' → simulated q s s'.
Proof.
  intros Hrep Hstep Hu'. pose proof (unexpired_before _ _ Hstep Hu') as Hu.
  destruct Hstep as [i header a k h Hi Hh|i p ph ans t' Hi Hmw|i p response userId Hi Hph|i p Hi Hph|now Hc|].
  - left. split; [done|]. destruct Hrep as [Hr Ho Hp]. split; [by eapply rows_ok_mono|by try apply owner_insert|].
    cbn. intros j x Hj Hs Hk. apply lookup_insert_Some in Hj as [[Hij <-]|[_ Hj]]; [|by apply Hp].
    destruct q; cbn in *; try done; (rewrite decide_False; [done|intros Hjn; rewrite <- Hjn, <- Hij, Hi in Ho; by destruct Ho]).
  - by apply sim_mw.
  - by apply sim_complete.
  - by apply sim_fail.
  - left. split; [done|]. destruct Hrep as [Hr Ho Hp]. split; [by eapply rows_ok_mono|by try apply owner_insert|done].
  - left. split; [done|]. destruct Hrep as [Hr Ho Hp]. split; [|done..].
    eapply rows_ok_mono; [done| |done]. cbn [tbl]. rewrite cleanup_rows.
    destruct q; cbn in Hr; [by rewrite Hr|..]; destruct Hr as (r & n & t & -> & _ & He & Hin);
      by rewrite filter_cons_True by by eapply row_live.
Qed.

Lemma init_represented : represents Free init.
Proof. split; [done..|]. intros i p Hi. cbn in Hi. by rewrite lookup_empty in Hi. Qed.

Lemma reachable_represented s : rtc step init s → unexpired s →
  ∃ q, slot_run Free (trace (log s)) q ∧ represents q s.
Proof.
  intros Hr. apply rtc_ind_r with (P := λ s, unexpired s → ∃ q, slot_run Free (trace (log s)) q ∧ represents q s)
    in Hr; [done|..].
  - intros _. exists Free. split; [constructor|apply init_represented].
  - intros s1 s2 _ Hstep IH Hu. destruct (IH (unexpired_before _ _ Hstep Hu)) as (q & Hrun & Hrep).
    destruct (step_simulated _ _ _ Hrep Hstep Hu) as [[-> Hq]|(i & act & q' & -> & Hs & Hq)];
      [by exists q|exists q'; split; [by eapply run_snoc|done]].
Qed.

End one_key.

(** *** Runs of the slot *)

Definition is_run (a : action) : bool := match a with ARun => true | _ => false end.
Definition runs (l : list (nat * action)) : nat := length (filter (λ e, is_run e.2 = true) l).

Definition run_inv (q : slot) (l : list (nat * action)) : Prop :=
  match q with
  | Free | Claimed _ => runs l = O
  | Running i => runs l = 1%nat ∧ (i, ARun) ∈ l
  | Done r => runs l = 1%nat ∧ ∃ i, (i, ARun) ∈ l ∧ (i, AComplete r) ∈ l
  | Stuck => (runs l <= 1)%nat
  end ∧ ∀ j r, (j, AReplay r) ∈ l → q = Done r.

Lemma runs_snoc l i a : runs (l ++ [(i, a)]) = (runs l + if is_run a then 1 else 0)%nat.
Proof.
  unfold runs. rewrite filter_app, length_app. f_equal. rewrite filter_cons, filter_nil. cbn [snd].
  by destruct (is_run a).
Qed.

Lemma slot_run_inv l q : slot_run Free l q → run_inv q l.
Proof.
  remember Free as q0 eqn:H0. intros Hr.
  induction Hr as [|q l q' i a q'' Hr IH Hs]; subst; [split; [done|by intros ? ? ?%elem_of_nil]|].
  destruct (IH eq_refl) as [Hq Hrep]. clear IH Hr.
  split; [|intros j r [Hin|[= -> <-]%list_elem_of_singleton]%elem_of_app; [specialize (Hrep _ _ Hin); subst q'|]; by inversion Hs].
  destruct Hs; cbn in *; rewrite ?runs_snoc; cbn; rewrite ?Nat.add_0_r; try done; try lia;
    rewrite ?elem_of_app, ?list_elem_of_singleton.
  - rewrite Hq. auto.
  - destruct Hq as [? ?]. split; [done|]. exists i. split; apply elem_of_app; [by left|right; by apply list_elem_of_singleton].
  - destruct Hq as [? ?]. split; [done|auto].
  - destruct Hq as [? (k & ? & ?)]. split; [done|]. exists k. rewrite !elem_of_app. auto.
Qed.

(** *** Executable schedules *)

Inductive cmd :=
| CArrive (i : nat) (key : string) (apiKeyId : option Z) (h : string)
| CMw (i : nat) | CComplete (i : nat) (r : json) | CFail (i : nat)
| CTick (now : Z) | CCleanup.

Definition exec1 (c : cmd) (s : sys) : option sys :=
  match c with
  | CArrive i key a h =>
      match procs s !! i, requireIdempotency (Some key) with
      | None, Ret k =>
          Some (mk_sys (tbl s) (clock s) (<[i := mk_proc (scope_of a) k h PGet]> (procs s)) (log s))
      | _, _ => None
      end
  | CMw i =>
      p ← procs s !! i;
      let '(ph, ans, t') := mw_step (clock s) (p_scope p) (p_key p) (p_hash p) (p_phase p) (tbl s) in
      Some (mk_sys t' (clock s) (<[i := at_phase p ph]> (procs s))
              (log s ++ match ans with
                        | Some x => [mk_ev i (p_scope p) (p_key p) (action_of (clock s) x)]
                        | None => []
                        end))
  | CComplete i r =>
      p ← procs s !! i;
      if bool_decide (p_phase p = PHandler)
      then Some (mk_sys (storeIdempotencyResponse true true (p_key p) r (p_scope p) None (tbl s))
                   (clock s) (<[i := at_phase p PDone]> (procs s))
                   (log s ++ [mk_ev i (p_scope p) (p_key p) (AComplete r)]))
      else None
  | CFail i =>
      p ← procs s !! i;
      if bool_decide (p_phase p = PHandler)
      then Some (mk_sys (tbl s) (clock s) (<[i := at_phase p PDone]> (procs s))
                   (log s ++ [mk_ev i (p_scope p) (p_key p) AFail]))
      else None
  | CTick now => if clock s <=? now then Some (mk_sys (tbl s) now (procs s) (log s)) else None
  | CCleanup => Some (mk_sys (cleanupExpired (clock s) (tbl s)).2 (clock s) (procs s) (log s))
  end.
Fixpoint exec (cs : list cmd) (s : sys) : option sys :=
  match cs with
  | [] => Some s
  | c :: cs => match exec1 c s with Some s' => exec cs s' | None => None end
  end.

Lemma exec1_step c s s' : exec1 c s = Some s' → step s s'.
Proof.
  destruct c as [i k a h|i|i r|i|now|]; cbn -[mw_step requireIdempotency].
  - destruct (procs s !! i) eqn:Hi; [done|]. destruct requireIdempotency eqn:Hh; [|done]. intros [= <-].
    by eapply step_arrive.
  - destruct (procs s !! i) as [p|] eqn:Hi; cbn -[mw_step]; [|done].
    destruct mw_step as [[ph ans] t'] eqn:Hmw. intros [= <-]. by eapply step_mw.
  - destruct (procs s !! i) as [p|] eqn:Hi; cbn; [|done]. case_bool_decide; [|done]. intros [= <-].
    by eapply step_complete.
  - destruct (procs s !! i) as [p|] eqn:Hi; cbn; [|done]. case_bool_decide; [|done]. intros [= <-].
    by eapply step_fail.
  - destruct (clock s <=? now) eqn:Hc; [|done]. intros [= <-]. apply step_tick. by apply Z.leb_le.
  - intros [= <-]. apply step_cleanup.
Qed.

Lemma exec_steps cs s s' : exec cs s = Some s' → rtc step s s'.
Proof.
  revert s. induction cs as [|c cs IH]; intros s; cbn [exec]; [by intros [= ->]|].
  destruct (exec1 c s) as [s1|] eqn:H1; [|done]. intros H.
  eapply rtc_l; [by eapply exec1_step|by apply IH].
Qed.

(** ** Theorems *)

(** C8: While no reservation of a key has expired, whatever the requests for it do
    is a run of the abstract slot, and its row is what the slot says. *)
Theorem middleware_refines_slot id key s :
  rtc step init s → unexpired id key s →
  ∃ q, slot_run Free (trace id key (log s)) q ∧ represents id key q s.
Proof. apply reachable_represented. Qed.

(** C13: Within the time to live of its first reservation, the handler runs at most
    once for a key of a registered API key, and every replayed response is
    the one its run stored. *)
Theorem one_run_per_key id key s :
  rtc step init s → unexpired id key s →
  (runs (trace id key (log s)) <= 1)%nat ∧
  ∀ j r, (j, AReplay r) ∈ trace id key (log s) →
    ∃ i, (i, ARun) ∈ trace id key (log s) ∧ (i, AComplete r) ∈ trace id key (log s).
Proof.
  intros Hr Hu. destruct (reachable_represented _ _ _ Hr Hu) as (q & Hrun & _).
  apply slot_run_inv in Hrun as [Hq Hrep]. split.
  - destruct q as [| | |r|]; cbn in Hq; try lia; destruct Hq as [Hq _]; lia.
  - intros j r Hin. rewrite (Hrep _ _ Hin) in Hq. by destruct Hq as [_ ?].
Qed.

Definition k16 : string := "0123456789abcdef".
(** Two requests overlap; a third comes after the response is stored. *)
Definition schedule (a : option Z) : list cmd :=
  [CArrive 0 k16 a "h"; CArrive 1 k16 a "h"; CMw 0; CMw 0; CMw 1; CMw 1; CMw 0; CMw 1; CMw 0; CMw 1;
   CComplete 0 JNull; CArrive 2 k16 a "h"; CMw 2].
Definition final (cs : list cmd) : sys := default init (exec cs init).

Lemma final_reachable cs : is_Some (exec cs init) → rtc step init (final cs).
Proof. intros [s Hs]. unfold final. rewrite Hs. by eapply exec_steps. Qed.

Definition s_ok : sys := final (schedule (Some 7)).

Lemma s_ok_reachable : rtc step init s_ok.
Proof. apply final_reachable. vm_compute. eauto. Qed.

Lemma s_ok_trace : trace 7 k16 (log s_ok) =
  [(0%nat, AReserve 0); (0%nat, ARun); (1%nat, AConflict); (0%nat, AComplete JNull); (2%nat, AReplay JNull)].
Proof. vm_compute. reflexivity. Qed.

Lemma s_ok_unexpired : unexpired 7 k16 s_ok.
Proof.
  intros i t. rewrite s_ok_trace, !elem_of_cons, elem_of_nil.
  intros [[= -> ->]|[?|[?|[?|[?|[]]]]]]; [by vm_compute|done..].
Qed.

Lemma middleware_refines_slot_witness :
  rtc step init s_ok ∧ unexpired 7 k16 s_ok ∧ trace 7 k16 (log s_ok) ≠ [] ∧
  ∃ q, slot_run Free (trace 7 k16 (log s_ok)) q ∧ represents 7 k16 q s_ok.
Proof.
  split_and!; [apply s_ok_reachable|apply s_ok_unexpired|by rewrite s_ok_trace|].
  apply (middleware_refines_slot 7 k16); [apply s_ok_reachable|apply s_ok_unexpired].
Defined.

Lemma one_run_per_key_witness :
  rtc step init s_ok ∧ unexpired 7 k16 s_ok ∧ runs (trace 7 k16 (log s_ok)) = 1%nat ∧
  (runs (trace 7 k16 (log s_ok)) <= 1)%nat.
Proof.
  split_and!; [apply s_ok_reachable|apply s_ok_unexpired|by vm_compute|].
  apply (one_run_per_key 7 k16); [apply s_ok_reachable|apply s_ok_unexpired].
Defined.

(** A row without API key conflicts with no other: both overlapping requests
    run. *)
Example null_scope_runs_twice :
  is_Some (exec (schedule None) init) ∧
  filter (λ e, is_run (e_act e) = true) (log (final (schedule None))) =
    [mk_ev 0 None k16 ARun; mk_ev 1 None k16 ARun].
Proof. vm_compute. eauto. Qed.

(** An expired row that was not cleaned up still blocks the reservation, and
    is neither pending nor completed: every request runs unprotected. *)
Definition gap_schedule : list cmd :=
  let request i := [CArrive i k16 (Some 7) "h"; CMw i; CMw i; CMw i; CMw i; CMw i; CMw i] in
  [CArrive 0 k16 (Some 7) "h"; CMw 0; CMw 0; CMw 0; CMw 0; CComplete 0 JNull; CTick (DEFAULT_TTL + 1000)] ++
  request 1%nat ++ request 2%nat.
Example expired_row_unprotected :
  is_Some (exec gap_schedule init) ∧
  filter (λ e, is_run (e_act e) = true) (log (final gap_schedule)) =
    [mk_ev 0 (Some 7) k16 ARun; mk_ev 1 (Some 7) k16 ARun; mk_ev 2 (Some 7) k16 ARun].
Proof. vm_compute. eauto. Qed.

(** The hash does not depend on the order of the fields of the body. *)
Theorem hash_field_order sha256 requestData requestData' :
  NoDup requestData.*1 → requestData ≡ₚ requestData' →
  generateRequestHash sha256 requestData = generateRequestHash sha256 requestData'.
Proof.
  intros Hnd Hp. unfold generateRequestHash.
  rewrite (sort_strings_perm requestData.*1 requestData'.*1) by by rewrite Hp.
  f_equal. by apply stringify_obj_perm.
Qed.

(** The property list also applies inside: nested fields that are not names of
    top-level fields do not reach the hash. *)
Example hash_ignores_nested sha256 :
  generateRequestHash sha256 [("recipient", JObj [("id", JStr "a")])] =
  generateRequestHash sha256 [("recipient", JObj [("id", JStr "b")])].
Proof. reflexivity. Qed.

Lemma hash_field_order_witness :
  NoDup [("a", JNull); ("b", JNull)].*1 ∧
  generateRequestHash id [("a", JNull); ("b", JNull)] = generateRequestHash id [("b", JNull); ("a", JNull)].
Proof.
  split; [apply (bool_decide_unpack _); reflexivity|].
  apply (hash_field_order id [("a", JNull); ("b", JNull)] [("b", JNull); ("a", JNull)]).
  - apply (bool_decide_unpack _). reflexivity.
  - apply Permutation_swap.
Defined.

(** The calls a request still has before it. *)
Definition rank (p : phase) : nat :=
  match p with
  | PGet => 6 | PPending => 5 | PReserve => 4 | PRacing => 3 | PCompleted => 2 | PDuplicate => 1
  | PHandler | PDone => 0
  end.

Lemma mw_step_rank now a k h p t : rank p ≠ 0%nat → (rank (mw_step now a k h p t).1.1 < rank p)%nat.
Proof.
  destruct p; cbn [mw_step rank]; intros; repeat case_match; simplify_eq/=; lia.
Qed.

Lemma mw_run_fuel fuel now a k h p t :
  (rank p <= fuel)%nat → rank p ≠ 0%nat → rank (mw_run fuel now a k h p t).1.2 = 0%nat.
Proof.
  revert p t. induction fuel as [|fuel IH]; intros p t Hle Hp; [lia|]. cbn [mw_run].
  pose proof (mw_step_rank now a k h p t Hp) as Hlt. destruct mw_step as [[p' ans] t']. cbn in Hlt.
  destruct p'; try done; apply IH; cbn in *; lia.
Qed.

(** Six calls are enough: the request ends, or its handler runs. *)
Theorem mw_run_ends now a k h t :
  (mw_run 6 now a k h PGet t).1.2 = PHandler ∨ (mw_run 6 now a k h PGet t).1.2 = PDone.
Proof.
  pose proof (mw_run_fuel 6 now a k h PGet t) as Hf. cbn [rank] in Hf.
  destruct (mw_run 6 now a k h PGet t).1.2; cbn in Hf; auto; specialize (Hf ltac:(lia) ltac:(lia)); done.
Qed.

Lemma no_scope_get now a k t : Forall (λ r, in_scope a k r = false) t → get now k a t = Ret None.
Proof.
  intros Hf. unfold get. induction Hf as [|r t Hr Hf IH]; [done|]. cbn [find_first]. by rewrite Hr.
Qed.

Lemma no_scope_exists f a k t :
  Forall (λ r, in_scope a k r = false) t → (∀ r, in_scope a k r = false → f r = false) → existsb f t = false.
Proof. intros Hf Hx. induction Hf as [|r t Hr Hf IH]; [done|]. cbn. by rewrite Hx, IH. Qed.

Definition fresh_row (now : Z) (a : option Z) (k h : string) : row :=
  mk_row a k h None Pending None (secs now * 1000) (now + DEFAULT_TTL).

(** The stored response comes back: a new request with a new key, its handler,
    and a second request within the time to live. *)
Theorem complete_then_replay now now' a k h h' response userId t :
  Forall (λ r, in_scope a k r = false) t →
  Forall (λ r, r_response r = None → r_status r = Pending) t →
  secs now' < secs (now + DEFAULT_TTL) →
  ∃ warning t1, mw_run 6 now a k h PGet t = (Some (Next warning), PHandler, t1) ∧
  let t2 := storeIdempotencyResponse true true k response a userId t1 in
  mw_run 6 now' a k h' PGet t2 = (Some (Replayed response (secs now * 1000)), PDone, t2).
Proof.
  intros Hf Hj Hlive. assert (Hres : reserve now k h a t = (true, t ++ [fresh_row now a k h])).
  { unfold reserve. rewrite (no_scope_exists _ a k); [done..|]. intros r Hr. by destruct a. }
  assert (Hpend : isPending now k a t = false).
  { apply (no_scope_exists _ a k); [done|]. intros r Hr. by rewrite Hr. }
  assert (Hdup : ∃ d, findByHash now h (Some k) a (t ++ [fresh_row now a k h]) = Ret d).
  { unfold findByHash. destruct find_first as [r|] eqn:Hfr; [|eauto].
    apply find_first_Some in Hfr as [Hin Hc]. repeat (apply andb_prop in Hc as [Hc ?]).
    destruct (r_response r) eqn:Hr; [eauto|]. exfalso.
    assert (Hp : r_status r = Pending).
    { apply elem_of_app in Hin as [Hin| ->%list_elem_of_singleton]; [|done].
      rewrite Forall_forall in Hj. by apply Hj. }
    rewrite Hp in *. by rewrite bool_decide_false in * by done. }
  destruct Hdup as [d Hd]. eexists _, _. split.
  { cbn -[get isPending reserve findByHash]. rewrite no_scope_get by done.
    cbn -[isPending reserve findByHash]. rewrite Hpend. cbn -[reserve findByHash]. rewrite Hres.
    cbn -[findByHash]. by rewrite Hd. }
  cbv zeta. unfold storeIdempotencyResponse. cbn [andb]. cbn [mw_run mw_step].
  assert (Hget : get now' k a (complete k response a userId (t ++ [fresh_row now a k h])) =
                 Ret (Some (response, h, secs now * 1000))).
  { unfold get, complete. rewrite fmap_app. clear -Hf Hlive.
    induction Hf as [|r t Hr Hf IH]; [|by cbn [fmap list_fmap app find_first]; rewrite Hr; cbn; rewrite Hr].
    assert (Hs : ∀ r : row, r_apiKeyId r = a → r_key r = k → in_scope a k r = true)
      by (intros; by apply in_scope_true).
    cbn [fmap list_fmap app find_first]. rewrite (Hs (fresh_row now a k h)), Hs by done.
    unfold live. cbn. by rewrite (proj2 (Z.ltb_lt _ _) Hlive). }
  by rewrite Hget.
Qed.

Lemma complete_then_replay_witness :
  secs 5000 < secs (0 + DEFAULT_TTL) ∧
  ∃ warning t1, mw_run 6 0 (Some 7) k16 "h" PGet [] = (Some (Next warning), PHandler, t1) ∧
  let t2 := storeIdempotencyResponse true true k16 JNull (Some 7) None t1 in
  mw_run 6 5000 (Some 7) k16 "h2" PGet t2 = (Some (Replayed JNull (secs 0 * 1000)), PDone, t2).
Proof.
  split; [by vm_compute|]. apply (complete_then_replay 0 5000 (Some 7) k16 "h" "h2" JNull None []);
    [constructor|constructor|by vm_compute].
Defined.

End Idempotency.
