(* ===== verification/DonationRecord.v ===== *)
(** * Donations by a record ([src/src/services/DonationService.js]:
      createDonationRecord, createClaimableDonation, and what they call)

    The whole flow: times, identifiers, memo, amount and limits, tags, assets,
    the check of the recipient and its cache, the payment, the replay of an
    idempotency key, the unique memo, the record, the campaign, the matching
    programs, the corporate ones and the detector of memos.  One call is one
    step; the clocks, the random suffixes and the answers of the services are
    arguments.  Webhooks and the messages to subscribers are left out. *)

From Stdlib Require Import Ascii SpecFloat.
From S2P Require Import Prelude JsString JsNumber JsMap JsJson Errors Money TransactionState Transaction Donations.
From S2P Require Import Signing Matching CorporateMatching Campaigns Sanitizer Assets DonationChecks Memos.
Local Open Scope Z_scope.

Module DonationRecord.
Import Assets.

(** ** State *)

(** What the network is asked for.  The memo of a direct payment and of a path
    payment is a text: the type that the request gives is not passed on. *)
Inductive payment :=
| Direct (secret destination amount memo : string) (asset : asset) (validAfter validBefore : Z)
| Contract (address donor amount secret : string)
| PathPayment (source : asset) (amount : string) (dest : asset) (minDest : string) (path : list string)
    (secret destination memo : string)
| Claimable (secret amount : string) (claimants : list string).

Record st := mk_st {
  corp : CorporateMatching.st;              (* with the transaction model *)
  campaigns : Campaigns.table;
  programs : Matching.st;
  memo_rows : list (string * string);       (* the table transactions: memo, timestamp *)
  accounts : list (string * (bool * Z));    (* the cached checks of recipients: answer, expiry *)
  detector : Memos.Detector.store;
  payments : list payment;                  (* those the network answered *)
  asked : list (payment * bool);            (* all that were asked for: with an answer or not *)
}.
Definition model (s : st) : Transaction.st := CorporateMatching.txs (corp s).
Definition set_corp (c : CorporateMatching.st) (s : st) : st :=
  mk_st c (campaigns s) (programs s) (memo_rows s) (accounts s) (detector s) (payments s) (asked s).
Definition set_campaigns (t : Campaigns.table) (s : st) : st :=
  mk_st (corp s) t (programs s) (memo_rows s) (accounts s) (detector s) (payments s) (asked s).
Definition set_programs (p : Matching.st) (s : st) : st :=
  mk_st (corp s) (campaigns s) p (memo_rows s) (accounts s) (detector s) (payments s) (asked s).
Definition set_accounts (a : list (string * (bool * Z))) (s : st) : st :=
  mk_st (corp s) (campaigns s) (programs s) (memo_rows s) a (detector s) (payments s) (asked s).
Definition set_detector (d : Memos.Detector.store) (s : st) : st :=
  mk_st (corp s) (campaigns s) (programs s) (memo_rows s) (accounts s) d (payments s) (asked s).
(** Requests to the network, and those of them that were answered. *)
Definition answered (l : list (payment * bool)) : list payment := (List.filter snd l).*1.
Definition log_all (l : list (payment * bool)) (s : st) : st :=
  mk_st (corp s) (campaigns s) (programs s) (memo_rows s) (accounts s) (detector s) (payments s ++ answered l) (asked s ++ l).

Definition M := stx jserror st.
Definition on_model {A} (m : Transaction.M A) : M A := λ s,
  let '(r, c) := CorporateMatching.on_txs m (corp s) in (r, set_corp c s).

(** ** The request and the answers *)

(** The argument of [createDonationRecord]: a missing field is [None].  A date
    is the time [new Date] reads, nothing when it reads none.  An [asset] with
    a type and a code is used as it is. *)
Record request := mk_request {
  q_amount : num;
  q_currency : string;
  q_donor : option string;
  q_recipient : option string;
  q_memo : option string;
  q_memoType : string;
  q_notes : option string;
  q_tags : list string;
  q_apiKeyId : option string;
  q_apiKeyRole : string;
  q_idempotencyKey : option string;
  q_receivedAmount : option num;
  q_sessionId : option string;
  q_campaign_id : option Z;
  q_anonymous : bool;
  q_sourceAsset : option json;
  q_sourceAmount : option num;
  q_sendAsset : option json;
  q_receiveAsset : option json;
  q_slippageTolerance : option num;
  q_asset : option (asset + json);
  q_validAfter : num;
  q_validBefore : num;
  q_validFrom : option (option Z);
  q_validUntil : option (option Z);
  q_contractAddress : option string;
}.

Record sent := mk_sent { transactionId : option string; ledger : option Z }.
Record estimate := mk_estimate { destAmount : string; es_path : list string }.

(** The clock before and after the payment, the day of the first, and what the
    services answer. *)
Record answers := mk_answers {
  now : Z;
  later : Z;
  today : Z * Z;
  converted : outcome jserror num;
  account : outcome jserror bool;                     (* the account exists *)
  invoked : outcome jserror (option sent);            (* nothing for a failed invocation *)
  paid : outcome jserror sent;
  estimated : outcome jserror (option estimate);
  path_paid : outcome jserror sent;
  key_query : outcome jserror ();                     (* the query of the idempotency key *)
  nonces : string * string;
  memo_query_ok : bool;
  uuid : string;
  notified_ok : bool;
  sender : outcome jserror (option Z);                (* the user with this public key *)
  corp_env : Z → CorporateMatching.env;
}.

(** What a call returns. *)
Record recorded := mk_recorded {
  r_obj : Transaction.obj;
  r_paymentMethod : string;
  r_fallbackUsed : bool;
  r_overpayment : option DonationChecks.overpayment;
  r_memo : Memos.Detector.report;
}.
Inductive result := Replayed (t : Transaction.transaction) | Recorded (r : recorded).

Section service.
Context (minAmount maxAmount maxDailyPerDonor : num) (multisigThresholdXLM : option num)
  (multisigRequiredApprovals multisigApprovalWindowMs : Z) (MOCK_STELLAR : bool)
  (secretFor : string → option string) (serviceSecretKey : string)
  (hmac : string → string → string) (anonymous_secret : option string) (test_env : bool)
  (valid_key : string → bool) (iso : Z → string) (memoWindowMs : Z)
  (users : Z → option CorporateMatching.user).

(** ** Checks *)

(** [validAfter] or [validBefore] as a whole number of seconds. *)
Definition seconds (date : option (option Z)) (v : num) : option Z :=
  match date with
  | Some d => (λ ms, ms / 1000) <$> d
  | None => if num_is_integer v then num_floor_Z v else None
  end.

Definition check_times (q : request) (now : Z) : outcome jserror (Z * Z) :=
  match seconds (q_validFrom q) (q_validAfter q), seconds (q_validUntil q) (q_validBefore q) with
  | Some a, Some b =>
      if (a <? 0) || (b <? 0) then Throw ValidationError
      else if negb (a =? 0) && negb (b =? 0) && (b <=? a) then Throw ValidationError
      else if negb (b =? 0) && (b <=? now / 1000) then Throw (BusinessLogicError (CStr "TRANSACTION_EXPIRED"))
      else Ret (a, b)
  | _, _ => Throw ValidationError
  end.

Definition rawDonor (q : request) : string :=
  match Transaction.truthy_str (q_donor q) with
  | Some d => Sanitizer.sanitizeIdentifier (Some d)
  | None => "Anonymous"
  end.
Definition rawRecipient (q : request) : option string :=
  (λ r, Sanitizer.sanitizeIdentifier (Some r)) <$> Transaction.truthy_str (q_recipient q).

(** A donor that is named. *)
Definition named (d : string) : bool := negb (is_empty d) && negb (bool_decide (d = "Anonymous")).

(** The donor that is recorded. *)
Definition resolve_donor (q : request) : outcome jserror string :=
  let d := rawDonor q in
  if named d && bool_decide (Transaction.truthy_str (rawRecipient q) = Some d)
  then Throw (ValidationError_with (code_ref "INVALID_REQUEST"))
  else if q_anonymous q && named d then DonationChecks.generatePseudonymousId hmac anonymous_secret test_env d
  else Ret d.

Definition refused (code : string) : jserror := ValidationError_with (CStr code).

Definition validatePaymentAmount (amount : num) : outcome jserror () :=
  match DonationChecks.validateAmount minAmount maxAmount amount with Some c => Throw (refused c) | None => Ret () end.

Definition verdict_out (v : Memos.verdict) : outcome jserror string :=
  match v with Memos.Valid m => Ret m | Memos.Invalid c => Throw (refused c) end.

(** The memo by its type, and the source amount: an invalid text comes first,
    an invalid memo of another type last. *)
Definition check_memo (q : request) : outcome jserror string :=
  let amount_ok := match q_sourceAmount q with Some a => validatePaymentAmount a | None => Ret () end in
  if negb (is_empty (q_memoType q)) && negb (bool_decide (q_memoType q = "text"))
  then amount_ok;; verdict_out (Memos.validateWithType (q_memo q) (q_memoType q))
  else m ← verdict_out (Memos.validateAndSanitizeMemo (q_memo q)); amount_ok;; Ret m.

Definition to_xlm (amount : num) (currency : string) (converted : outcome jserror num) : outcome jserror num :=
  if bool_decide (Signing.to_upper currency = "XLM") then Ret amount
  else match converted with Ret x => Ret x | Throw _ => Throw ValidationError end.

Definition validateDonationAmount (amount : num) (donor : string) (day : Z * Z) (t : Transaction.st) : outcome jserror () :=
  match DonationChecks.validateAmount minAmount maxAmount amount with
  | Some c => Throw (refused c)
  | None =>
      if named donor then
        match DonationChecks.validateDailyLimit maxDailyPerDonor amount
                (Transaction.getDailyTotalByDonor t (Some donor) day.1 day.2) with
        | Some _ => Throw (refused "DAILY_LIMIT_EXCEEDED")
        | None => Ret ()
        end
      else Ret ()
  end.

Definition effectiveReceived (q : request) : num :=
  match q_receivedAmount q with Some a => if num_is_finite a then a else q_amount q | None => q_amount q end.

(** The assets of both sides, and whether the exchange pays. *)
Definition route (q : request) : outcome jserror (asset * asset * bool) :=
  source ← match q_sourceAsset q with Some j => parseAssetInput valid_key j | None => Ret native end;
  pair ← match q_asset q with
         | Some (inl a) => Ret (a, a)
         | Some (inr j) => a ← parseAssetInput valid_key j; Ret (a, a)
         | None => Ret (source, native)
         end;
  pair ← match q_sendAsset q, q_receiveAsset q with
         | Some a, Some b => a ← parseAssetInput valid_key a; b ← parseAssetInput valid_key b; Ret (a, b)
         | _, _ => Ret pair
         end;
  let both := match q_sendAsset q, q_receiveAsset q with Some _, Some _ => true | _, _ => false end in
  let custom := match q_asset q with Some _ => true | None => false end in
  let given := match q_sourceAsset q with Some _ => true | None => false end in
  Ret (pair, negb custom && (given || (both && negb (isSameAsset pair.1 pair.2)))).

(** What the checks come to. *)
Record plan := mk_plan {
  p_after : Z;
  p_before : Z;
  p_donor : string;
  p_recipient : option string;
  p_memo : string;
  p_xlm : num;
  p_fee : Money.fee_result;
  p_over : option DonationChecks.overpayment;
  p_source : asset;
  p_dest : asset;
  p_path : bool;
  p_amount : num;                 (* of the source asset *)
  p_slippage : num;
  p_secret : string;
  p_requiresApproval : bool;
}.

(** Everything before the recipient is checked. *)
Definition check_request (q : request) (e : answers) (t : Transaction.st) : outcome jserror plan :=
  times ← check_times q (now e);
  donor ← resolve_donor q;
  memo ← check_memo q;
  if num_leb (q_amount q) num_zero then Throw ValidationError
  else
    DonationChecks._validateTags (q_tags q) (q_apiKeyRole q);;
    xlm ← to_xlm (q_amount q) (q_currency q) (converted e);
    validateDonationAmount xlm donor (today e) t;;
    fee ← Money.calculateAnalyticsFee (Money.ANum xlm) None;
    over ← DonationChecks.buildOverpaymentRecord (effectiveReceived q) (q_amount q) (num_of_string (Money.fee fee));
    r ← route q;
    Ret (mk_plan times.1 times.2 donor (rawRecipient q) memo xlm fee over r.1.1 r.1.2 r.2
           (default xlm (q_sourceAmount q)) (default (num_of_dec false 1 (-2)) (q_slippageTolerance q))
           (Donations.resolvePaymentSourceSecret secretFor serviceSecretKey (Some donor))
           (match multisigThresholdXLM with Some th => num_gtb xlm th | None => false end)).

(** ** The recipient *)

Definition POSITIVE_CACHE_TTL_MS : Z := 5 * 60 * 1000.
Definition NEGATIVE_CACHE_TTL_MS : Z := 30 * 1000.

Definition no_account : jserror := BusinessLogicError (code_ref "RECIPIENT_ACCOUNT_NOT_FOUND").

(** [Cache.get]: an entry that expired is deleted. *)
Definition cached (now : Z) (k : string) (c : list (string * (bool * Z))) : option bool * list (string * (bool * Z)) :=
  match map_get c k with
  | None => (None, c)
  | Some (v, expiresAt) => if expiresAt <? now then (None, map_del c k) else (Some v, c)
  end.

Definition checkRecipientAccountExists (now : Z) (answer : outcome jserror bool) (publicKey : string) : M () :=
  if MOCK_STELLAR then mret ()
  else
    s ← get_st;
    let '(v, c) := cached now publicKey (accounts s) in
    modify_st (set_accounts c);;
    match v with
    | Some true => mret ()
    | Some false => throw no_account
    | None =>
        exists_ ← lift_out answer;
        modify_st (λ s, set_accounts (map_set (accounts s) publicKey
          (exists_, now + (if exists_ then POSITIVE_CACHE_TTL_MS else NEGATIVE_CACHE_TTL_MS))) s);;
        when (negb exists_) (throw no_account)
    end.

(** [invalidateRecipientAccountCache] *)
Definition invalidateRecipientAccountCache (publicKey : string) : M () :=
  modify_st (λ s, set_accounts (map_del (accounts s) publicKey) s).

(** ** The payment *)

(** A call of the network for [p].  Without an answer the payment may have
    been made or not: the services pass on an error of the submission that
    they could not clear up. *)
Definition submit (p : payment) (answer : outcome jserror sent) : M sent :=
  modify_st (log_all [(p, is_ret answer)]);; lift_out answer.

(** [sendDonation] has no memo type here, so the service takes the memo for a
    text; its handler of errors rephrases the error. *)
Definition pay_direct (pl : plan) (recipient : string) (answer : outcome jserror sent) : M sent :=
  if Donations.sendable (p_memo pl) then
    submit (Direct (p_secret pl) recipient (num_to_string (p_amount pl)) (p_memo pl) (p_source pl) (p_after pl) (p_before pl))
      answer
  else throw (EPlain "MEMO_TOO_LONG").

(** The least amount the recipient accepts. *)
Definition minDestAmount (pl : plan) (es : estimate) : num :=
  num_mul (parse_float (destAmount es)) (num_sub (num_of_Z 1) (p_slippage pl)).

(** The contract was invoked without an error. *)
Definition invoked_ok (e : answers) : bool := match invoked e with Ret (Some _) => true | _ => false end.

(** The answer of the network, the method, and whether it is the fallback. *)
Definition pay_to (q : request) (e : answers) (pl : plan) (recipient : string) : M (sent * string * bool) :=
  checkRecipientAccountExists (now e) (account e) recipient;;
  if negb (p_path pl) then
    match Transaction.truthy_str (q_contractAddress q) with
    | Some c =>
        modify_st (log_all [(Contract c (p_donor pl) (num_to_string (p_amount pl)) (p_secret pl), invoked_ok e)]);;
        r ← lift_out (invoked e);
        match r with
        | None => throw (EPlain "Soroban donation contract invocation failed")
        | Some r => mret (r, "soroban", false)
        end
    | None => r ← pay_direct pl recipient (paid e); mret (r, "direct", false)
    end
  else
    es ← lift_out (estimated e);
    match es with
    | None => throw ValidationError
    | Some es =>
        try_catch
          (r ← submit (PathPayment (p_source pl) (num_to_string (p_amount pl)) (p_dest pl)
                         (num_to_string (minDestAmount pl es)) (es_path es) (p_secret pl) recipient (p_memo pl)) (path_paid e);
           mret (r, "path", false))
          (λ x, if isSameAsset (p_source pl) (p_dest pl)
                then r ← pay_direct pl recipient (paid e); mret (r, "direct", true)
                else throw x)
    end.

(** The payment, when there is a secret, a recipient and nothing to approve. *)
Definition pay (q : request) (e : answers) (pl : plan) : M (option sent * string * bool) :=
  match Transaction.truthy_str (p_recipient pl) with
  | Some recipient =>
      if negb (is_empty (p_secret pl)) && negb (p_requiresApproval pl) then
        '(r, method, fallback) ← pay_to q e pl recipient; mret (Some r, method, fallback)
      else mret (None, "record_only", false)
  | None => mret (None, "record_only", false)
  end.

(** ** The record *)

(** [SELECT data FROM donations_store WHERE idempotency_key = ?] *)
Definition stored (key : option string) (t : Transaction.st) : option Transaction.transaction :=
  k ← Transaction.truthy_str key;
  r ← find_first (λ r, bool_decide (Transaction.r_key r.2 = Some k)) (Transaction.table t);
  Some (Transaction.r_data r.2).

(** A query that fails throws; without a key there is none. *)
Definition lookup_key (e : answers) (key : option string) (t : Transaction.st) : outcome jserror (option Transaction.transaction) :=
  match Transaction.truthy_str key with
  | None => Ret None
  | Some _ => key_query e;; Ret (stored key t)
  end.

Definition MEMO_COLLISION_WINDOW_DAYS : Z := 30.
(** [SELECT id FROM transactions WHERE memo = ? AND timestamp >= ?]; times
    compare as texts, a failed query finds nothing. *)
Definition memo_used (later : Z) (ok : bool) (s : st) (m : string) : bool :=
  ok && existsb (λ r, bool_decide (r.1 = m) && negb (str_ltb r.2 (iso (later - MEMO_COLLISION_WINDOW_DAYS * 24 * 60 * 60 * 1000))))
          (memo_rows s).

(** Three attempts: the memo, then two suffixes. *)
Definition unique_memo (used : string → bool) (nonces : string * string) (m : string) : outcome jserror string :=
  if is_empty m then Ret m
  else if negb (used m) then Ret m
  else let m1 := m +:+ "-" +:+ nonces.1 in
  if negb (used m1) then Ret m1
  else let m2 := m +:+ "-" +:+ nonces.2 in
  if negb (used m2) then Ret m2
  else Throw (BusinessLogicError (CStr "MEMO_COLLISION")).

Definition record_data (q : request) (e : answers) (pl : plan) (r : option sent) (memo : string) : Transaction.tx_data :=
  let ap := p_requiresApproval pl in
  Transaction.mk_data None (p_xlm pl) (Some (p_donor pl)) (p_recipient pl) (Some memo) (Transaction.truthy_str (q_notes q))
    (q_tags q) (Transaction.truthy_str (q_apiKeyId q)) None
    (if ap then Donations.AWAITING_APPROVAL
     else Some (match r with Some _ => TransactionState.CONFIRMED | None => TransactionState.PENDING end))
    (r ≫= transactionId) (r ≫= ledger) None (match r with Some _ => Some (later e) | None => None end)
    None 0 None None None (q_idempotencyKey q)
    (if ap then Some multisigRequiredApprovals else None) (if ap then Some (later e + multisigApprovalWindowMs) else None) None.

(** [processMatchingDonation] with the identifier of a record: the link row it
    writes after the budget refers to no row of [transactions], fails, and
    ends the loop. *)
Fixpoint match_unlinked (d : Matching.donation) (l : list Matching.program) (s : Matching.st) : Matching.st :=
  match l with
  | [] => s
  | p :: l =>
      match Matching.match_amount d p with
      | None => match_unlinked d l s
      | Some m =>
          Matching.update_program (Matching.p_id p)
            (Matching.with_remaining (Matching.round_to 7 (num_sub (Matching.remaining_match_amount p) m))) s
      end
  end.
Definition match_record (amount : num) (campaign : option Z) (s : Matching.st) : Matching.st :=
  let d := Matching.mk_donation 0 amount (Matching.campaign_of campaign) in
  match_unlinked d (Matching.applicable d s) s.

(** Campaign, matching, corporate matching: nothing they throw is passed on. *)
Definition follow_up (q : request) (e : answers) (pl : plan) (i : string) (s : st) : st :=
  let s := match Matching.campaign_of (q_campaign_id q) with
           | Some c => set_campaigns (Campaigns.processCampaignContribution (notified_ok e) c (p_xlm pl) (campaigns s)).2 s
           | None => s
           end in
  let s := set_programs (match_record (p_xlm pl) (q_campaign_id q) (programs s)) s in
  match sender e with
  | Ret (Some u) => set_corp (CorporateMatching.processCorporateMatching users (corp_env e) i (p_xlm pl) u (corp s)).2 s
  | _ => s
  end.

Definition memo_payment (q : request) (pl : plan) (memo i : string) : Memos.Detector.payment :=
  Memos.Detector.mk_payment memo (Some (p_donor pl)) (p_recipient pl) (q_amount q) (Transaction.truthy_str (q_sessionId q)) (Some i).

(** From the replay of the key to the end. *)
Definition record_donation (q : request) (e : answers) (pl : plan) (r : option sent) (method : string) (fallback : bool)
  : M result :=
  s ← get_st;
  existing ← lift_out (lookup_key e (q_idempotencyKey q) (model s));
  match existing with
  | Some t => mret (Replayed t)
  | None =>
      memo ← lift_out (unique_memo (memo_used (later e) (memo_query_ok e) s) (nonces e) (p_memo pl));
      o ← on_model (Transaction.create (later e) (uuid e) (record_data q e pl r memo));
      let i := Transaction.id (Transaction.tx o) in
      modify_st (λ s, if p_requiresApproval pl then s else follow_up q e pl i s);;
      s ← get_st;
      let '(report, d) := Memos.Detector.check memoWindowMs (later e) (memo_payment q pl memo i) (detector s) in
      modify_st (set_detector d);;
      mret (Recorded (mk_recorded o method fallback (p_over pl) report))
  end.

Definition createDonationRecord (q : request) (e : answers) : M result :=
  s ← get_st;
  pl ← lift_out (check_request q e (model s));
  '(r, method, fallback) ← pay q e pl;
  record_donation q e pl r method fallback.

(** ** Claimable donations *)

Record claim_request := mk_claim {
  c_amount : num;
  c_currency : string;
  c_claimants : list string;       (* destinations *)
  c_memo : option string;
  c_memoType : string;
  c_notes : option string;
  c_tags : list string;
  c_donor : option string;
  c_idempotencyKey : option string;
  c_apiKeyId : option string;
  c_apiKeyRole : string;
}.

Definition claim_data (c : claim_request) (xlm : num) (memo donor : string) (r : sent) (now : Z) : Transaction.tx_data :=
  Transaction.mk_data None xlm (Some donor) (Some (str_join "," (c_claimants c))) (Some memo)
    (Transaction.truthy_str (c_notes c)) (c_tags c) (Transaction.truthy_str (c_apiKeyId c)) None (Some "claimable")
    (transactionId r) (ledger r) None (Some now) None 0 None None None (c_idempotencyKey c) None None None.

Definition check_claim (c : claim_request) (e : answers) (t : Transaction.st) : outcome jserror (num * string) :=
  if negb (num_truthy (c_amount c)) || match c_claimants c with [] => true | _ => false end then Throw ValidationError
  else
    xlm ← to_xlm (c_amount c) (c_currency c) (converted e);
    validateDonationAmount xlm (default "" (c_donor c)) (today e) t;;
    memo ← verdict_out (Memos.validateAndSanitizeMemo (c_memo c));
    DonationChecks._validateTags (c_tags c) (c_apiKeyRole c);;
    Ret (xlm, memo).

Definition createClaimableDonation (c : claim_request) (e : answers) : M result :=
  s ← get_st;
  '(xlm, memo) ← lift_out (check_claim c e (model s));
  existing ← lift_out (lookup_key e (c_idempotencyKey c) (model s));
  match existing with
  | Some t => mret (Replayed t)
  | None =>
      let donor := match Transaction.truthy_str (c_donor c) with
                   | Some d => Sanitizer.sanitizeIdentifier (Some d)
                   | None => "Anonymous"
                   end in
      r ← submit (Claimable (Donations.resolvePaymentSourceSecret secretFor serviceSecretKey (Some donor))
                    (num_to_string xlm) (c_claimants c)) (paid e);
      o ← on_model (Transaction.create (later e) (uuid e) (claim_data c xlm memo donor r (later e)));
      mret (Recorded (mk_recorded o "claimable" false None Memos.Detector.clear))
  end.

(** ** What the checks establish *)

Definition memo_kind (q : request) : string := if is_empty (q_memoType q) then "text" else q_memoType q.

Record sound (q : request) (e : answers) (t : Transaction.st) (pl : plan) : Prop := {
  so_window : 0 <= p_after pl ∧ 0 <= p_before pl ∧ (p_before pl ≠ 0 → now e / 1000 < p_before pl) ∧
    (p_after pl ≠ 0 → p_before pl ≠ 0 → p_after pl < p_before pl);
  so_recipient : p_recipient pl = rawRecipient q;
  so_other : named (rawDonor q) = true → Transaction.truthy_str (rawRecipient q) ≠ Some (rawDonor q);
  so_donor : if q_anonymous q && named (rawDonor q)
    then DonationChecks.generatePseudonymousId hmac anonymous_secret test_env (rawDonor q) = Ret (p_donor pl)
    else p_donor pl = rawDonor q;
  so_memo : Memos.validateFinalMemo (Some (p_memo pl)) (memo_kind q) = None;
  so_tags : Forall (λ x, x ∈ DonationChecks.PREDEFINED_TAGS ∨ DonationChecks.may_use_custom (q_apiKeyRole q) = true) (q_tags q);
  so_xlm : to_xlm (q_amount q) (q_currency q) (converted e) = Ret (p_xlm pl);
  so_amount : DonationChecks.validateAmount minAmount maxAmount (p_xlm pl) = None;
  so_source : p_amount pl = default (p_xlm pl) (q_sourceAmount q) ∧
    ∀ a, q_sourceAmount q = Some a → DonationChecks.validateAmount minAmount maxAmount a = None;
  so_day : named (p_donor pl) = true →
    DonationChecks.validateDailyLimit maxDailyPerDonor (p_xlm pl)
      (Transaction.getDailyTotalByDonor t (Some (p_donor pl)) (today e).1 (today e).2) = None;
  so_fee : Money.calculateAnalyticsFee (Money.ANum (p_xlm pl)) None = Ret (p_fee pl);
  so_approval : p_requiresApproval pl = match multisigThresholdXLM with Some th => num_gtb (p_xlm pl) th | None => false end;
  so_secret : p_secret pl = Donations.resolvePaymentSourceSecret secretFor serviceSecretKey (Some (p_donor pl));
}.

Lemma Ret_bind {A B} (m : outcome jserror A) (f : A → outcome jserror B) b :
  m ≫= f = Ret b ↔ ∃ a, m = Ret a ∧ f a = Ret b.
Proof. destruct m; cbn; split; try naive_solver. Qed.

Lemma check_times_sound q n a b : check_times q n = Ret (a, b) →
  0 <= a ∧ 0 <= b ∧ (b ≠ 0 → n / 1000 < b) ∧ (a ≠ 0 → b ≠ 0 → a < b).
Proof.
  unfold check_times. destruct (seconds _ _) as [x|]; [|done]. destruct (seconds _ _) as [y|]; [|done].
  destruct (Z.ltb_spec x 0), (Z.ltb_spec y 0); try done. cbn [orb].
  destruct (Z.eqb_spec x 0), (Z.eqb_spec y 0), (Z.leb_spec y x), (Z.leb_spec y (n / 1000)); try done; intros [= <- <-]; lia.
Qed.

Lemma check_memo_sound q m : check_memo q = Ret m →
  Memos.validateFinalMemo (Some m) (memo_kind q) = None ∧
  ∀ a, q_sourceAmount q = Some a → DonationChecks.validateAmount minAmount maxAmount a = None.
Proof.
  assert (Ha : ∀ x, match q_sourceAmount q with Some a => validatePaymentAmount a | None => Ret () end = Ret x →
    ∀ a, q_sourceAmount q = Some a → DonationChecks.validateAmount minAmount maxAmount a = None).
  { intros x Hx a Hq. rewrite Hq in Hx. unfold validatePaymentAmount in Hx. by destruct DonationChecks.validateAmount. }
  unfold check_memo, memo_kind. destruct (is_empty (q_memoType q)) eqn:He; cbn [negb andb];
    [|case_bool_decide as Ht; cbn [negb andb]]; rewrite !Ret_bind.
  - intros (v & Hv & (x & Hx & [= <-])%Ret_bind). split; [|by eapply Ha].
    destruct (Memos.validateAndSanitizeMemo _) eqn:Hm; [|done]. injection Hv as ->. by eapply Memos.final_text.
  - intros (v & Hv & (x & Hx & [= <-])%Ret_bind). split; [|by eapply Ha]. rewrite Ht.
    destruct (Memos.validateAndSanitizeMemo _) eqn:Hm; [|done]. injection Hv as ->. by eapply Memos.final_text.
  - intros (x & Hx & Hv). split; [|by eapply Ha].
    destruct (Memos.validateWithType _ _) eqn:Hm; [|done]. injection Hv as ->. by eapply Memos.final_typed.
Qed.

Lemma check_request_sound q e t pl : check_request q e t = Ret pl → sound q e t pl.
Proof.
  unfold check_request. intros ([a b] & Ht & H)%Ret_bind. apply Ret_bind in H as (d & Hd & H).
  apply Ret_bind in H as (m & Hm & H). destruct (num_leb (q_amount q) num_zero); [done|].
  apply Ret_bind in H as ([] & Htags & H). apply Ret_bind in H as (xlm & Hx & H). apply Ret_bind in H as ([] & Hamt & H).
  apply Ret_bind in H as (fee & Hfee & H). apply Ret_bind in H as (over & _ & H). apply Ret_bind in H as (r & _ & [= <-]).
  apply check_memo_sound in Hm as [Hm Hsrc]. apply check_times_sound in Ht.
  assert (Hdon : (named (rawDonor q) = true → Transaction.truthy_str (rawRecipient q) ≠ Some (rawDonor q)) ∧
    if q_anonymous q && named (rawDonor q)
    then DonationChecks.generatePseudonymousId hmac anonymous_secret test_env (rawDonor q) = Ret d else d = rawDonor q).
  { revert Hd. unfold resolve_donor. destruct (named (rawDonor q)); cbn [andb].
    - case_bool_decide as Hb; [done|]. intros Hd. split; [done|]. destruct (q_anonymous q); [done|]. by injection Hd.
    - rewrite andb_false_r. intros [= ->]. done. }
  destruct Hdon as [Hoth Hdon].
  assert (Hv : DonationChecks.validateAmount minAmount maxAmount xlm = None ∧
    (named d = true → DonationChecks.validateDailyLimit maxDailyPerDonor xlm
      (Transaction.getDailyTotalByDonor t (Some d) (today e).1 (today e).2) = None)).
  { revert Hamt. unfold validateDonationAmount. destruct DonationChecks.validateAmount; [done|].
    destruct (named d); [|done]. by destruct DonationChecks.validateDailyLimit. }
  destruct Hv as [Hv Hday].
  split; cbn; try done; try tauto.
  revert Htags. unfold DonationChecks._validateTags. destruct (forallb _ _) eqn:Hf; [|done]. intros _.
  apply Forall_forall. intros x Hin. rewrite forallb_forall in Hf. apply list_elem_of_In, Hf, orb_true_iff in Hin as [Hin|Hin];
    [left; by apply bool_decide_eq_true in Hin|by right].
Qed.

(** ** What a payment is *)

(** The recipient is known to exist: by the cache, or by the network now. *)
Definition known_account (e : answers) (s : st) (recipient : string) : Prop :=
  MOCK_STELLAR = true ∨ (cached (now e) recipient (accounts s)).1 = Some true ∨
  (cached (now e) recipient (accounts s)).1 = None ∧ account e = Ret true.

(** The three forms of a payment of a plan to a recipient. *)
Definition direct (pl : plan) (recipient : string) : payment :=
  Direct (p_secret pl) recipient (num_to_string (p_amount pl)) (p_memo pl) (p_source pl) (p_after pl) (p_before pl).
Definition contract (pl : plan) (c : string) : payment := Contract c (p_donor pl) (num_to_string (p_amount pl)) (p_secret pl).
Definition by_path (pl : plan) (es : estimate) (recipient : string) : payment :=
  PathPayment (p_source pl) (num_to_string (p_amount pl)) (p_dest pl) (num_to_string (minDestAmount pl es))
    (es_path es) (p_secret pl) recipient (p_memo pl).

Inductive form (q : request) (e : answers) (pl : plan) (recipient : string) : sent → string → bool → payment → Prop :=
| form_direct r f : paid e = Ret r → p_path pl = false ∨ p_path pl = true ∧ isSameAsset (p_source pl) (p_dest pl) = true →
    form q e pl recipient r "direct" f (direct pl recipient)
| form_contract r c : invoked e = Ret (Some r) → q_contractAddress q = Some c → p_path pl = false →
    form q e pl recipient r "soroban" false (contract pl c)
| form_path r es : path_paid e = Ret r → estimated e = Ret (Some es) → p_path pl = true →
    form q e pl recipient r "path" false (by_path pl es recipient).

(** What a call asks the network for: one payment, direct with a memo that is
    a text the network takes, by the contract or along a path; or the direct
    one after the payment along a path has failed, when both assets are the
    same. *)
Inductive asks (q : request) (e : answers) (pl : plan) (recipient : string) : list (payment * bool) → Prop :=
| asks_direct : p_path pl = false → Transaction.truthy_str (q_contractAddress q) = None → Donations.sendable (p_memo pl) = true →
    asks q e pl recipient [(direct pl recipient, is_ret (paid e))]
| asks_contract c : p_path pl = false → Transaction.truthy_str (q_contractAddress q) = Some c →
    asks q e pl recipient [(contract pl c, invoked_ok e)]
| asks_path es : p_path pl = true → estimated e = Ret (Some es) →
    asks q e pl recipient [(by_path pl es recipient, is_ret (path_paid e))]
| asks_fallback es : p_path pl = true → estimated e = Ret (Some es) → is_ret (path_paid e) = false →
    isSameAsset (p_source pl) (p_dest pl) = true → Donations.sendable (p_memo pl) = true →
    asks q e pl recipient [(by_path pl es recipient, false); (direct pl recipient, is_ret (paid e))].

(** Who may be paid at all. *)
Record permitted (e : answers) (pl : plan) (s : st) (recipient : string) : Prop := {
  pm_approval : p_requiresApproval pl = false;
  pm_secret : p_secret pl ≠ "";
  pm_recipient : p_recipient pl = Some recipient ∧ recipient ≠ "";
  pm_known : known_account e s recipient;
}.
Definition gate (q : request) (e : answers) (pl : plan) (s : st) (l : list (payment * bool)) : Prop :=
  l = [] ∨ ∃ recipient, permitted e pl s recipient ∧ asks q e pl recipient l.

Definition payable (q : request) (e : answers) (pl : plan) (s : st) (r : sent) (method : string) (f : bool) (p : payment) : Prop :=
  ∃ recipient, permitted e pl s recipient ∧ form q e pl recipient r method f p.

Lemma truthy_some x y : Transaction.truthy_str x = Some y → x = Some y ∧ y ≠ "".
Proof. destruct x as [[|c z]|]; cbn; try done. by intros [= <-]. Qed.

Lemma set_accounts_id s : set_accounts (accounts s) s = s.
Proof. by destruct s. Qed.
Lemma set_accounts_twice a b s : set_accounts a (set_accounts b s) = set_accounts a s.
Proof. done. Qed.

Lemma check_recipient_spec n ans k s :
  ∃ a, (checkRecipientAccountExists n ans k s).2 = set_accounts a s ∧
  ((checkRecipientAccountExists n ans k s).1 = Ret () →
   MOCK_STELLAR = true ∨ (cached n k (accounts s)).1 = Some true ∨ (cached n k (accounts s)).1 = None ∧ ans = Ret true).
Proof.
  unfold checkRecipientAccountExists. destruct MOCK_STELLAR; [exists (accounts s); rewrite set_accounts_id; auto|].
  stx_unfold. destruct (cached n k (accounts s)) as [[[|]|] c]; cbn -[map_set]; try by eexists; auto.
  destruct ans as [[|]|x]; cbn -[map_set]; eexists; split; try reflexivity; try done; auto.
Qed.

Lemma log_none s : log_all [] s = s.
Proof. destruct s. unfold log_all. cbn. by rewrite !app_nil_r. Qed.
Lemma log_twice l l' s : log_all l' (log_all l s) = log_all (l ++ l') s.
Proof. unfold log_all, answered. cbn. by rewrite List.filter_app, fmap_app, !app_assoc. Qed.

(** What [pay] comes to: what it asked for, and its result. *)
Definition pay_result (q : request) (e : answers) (pl : plan) (s : st) (l : list (payment * bool))
  (r : outcome jserror (option sent * string * bool)) : Prop :=
  match r with
  | Ret (Some r, m, f) => ∃ p, answered l = [p] ∧ payable q e pl s r m f p
  | Ret (None, m, f) => l = [] ∧ m = "record_only" ∧ f = false
  | Throw _ => answered l = []
  end.

Lemma pay_direct_spec pl rc ans s :
  ∃ l, (pay_direct pl rc ans s).2 = log_all l s ∧
    (l = [] ∧ is_ret (pay_direct pl rc ans s).1 = false ∨
     Donations.sendable (p_memo pl) = true ∧ l = [(direct pl rc, is_ret ans)] ∧ (pay_direct pl rc ans s).1 = ans).
Proof.
  unfold pay_direct, submit. destruct (Donations.sendable (p_memo pl)).
  - exists [(direct pl rc, is_ret ans)]. split; [done|]. by right.
  - exists []. rewrite log_none. split; [done|]. left. by split.
Qed.

Lemma asks_gate q e pl s rc l : permitted e pl s rc → asks q e pl rc l → gate q e pl s l.
Proof. intros Hp Ha. right. by exists rc. Qed.

Lemma pay_spec q e pl s :
  ∃ a l, (pay q e pl s).2 = log_all l (set_accounts a s) ∧ gate q e pl s l ∧ pay_result q e pl s l (pay q e pl s).1.
Proof.
  assert (Hno : ∃ a l, s = log_all l (set_accounts a s) ∧ gate q e pl s l ∧
    pay_result q e pl s l (Ret (None, "record_only", false))).
  { exists (accounts s), []. rewrite set_accounts_id, log_none. split_and!; [done|by left|done]. }
  unfold pay. destruct (Transaction.truthy_str (p_recipient pl)) as [rc|] eqn:Hrc; [|exact Hno].
  apply truthy_some in Hrc as [Hrc Hne].
  destruct (negb (is_empty (p_secret pl)) && negb (p_requiresApproval pl)) eqn:Hgo; [|exact Hno]. clear Hno.
  apply andb_prop in Hgo as [Hsec Happ]. apply negb_true_iff in Happ.
  assert (Hs : p_secret pl ≠ "") by by intros Hz; rewrite Hz in Hsec.
  destruct (check_recipient_spec (now e) (account e) rc s) as (a & Ha & Hok). exists a.
  unfold pay_to. stx_unfold.
  destruct (checkRecipientAccountExists (now e) (account e) rc s) as [[[]|x] s1]; cbn [fst snd] in *; subst s1.
  2:{ exists []. rewrite log_none. split_and!; [done|by left|done]. }
  assert (Hpm : permitted e pl s rc) by (split; [done|done|done|by apply Hok]). clear Hok.
  destruct (p_path pl) eqn:Hpath; cbn [negb].
  - destruct (estimated e) as [[es|]|x] eqn:Hes.
    2,3: exists []; rewrite log_none; split_and!; [done|by left|done].
    unfold try_catch, submit. stx_unfold. fold (by_path pl es rc).
    destruct (path_paid e) as [r|x] eqn:Hpp; cbn [is_ret].
    + exists [(by_path pl es rc, true)]. cbn. split_and!; [done| |].
      * apply (asks_gate _ _ _ _ rc); [done|]. pose proof (asks_path q e pl rc es Hpath Hes) as Hp. by rewrite Hpp in Hp.
      * eexists. split; [done|]. exists rc. split; [done|]. by eapply form_path.
    + destruct (isSameAsset (p_source pl) (p_dest pl)) eqn:Hsame.
      2:{ exists [(by_path pl es rc, false)]. cbn. split_and!; [done| |done].
          apply (asks_gate _ _ _ _ rc); [done|]. pose proof (asks_path q e pl rc es Hpath Hes) as Hp. by rewrite Hpp in Hp. }
      destruct (pay_direct_spec pl rc (paid e) (log_all [(by_path pl es rc, false)] (set_accounts a s))) as (l & Hl & Hr).
      exists ((by_path pl es rc, false) :: l).
      destruct (pay_direct pl rc (paid e) _) as [res s2]. cbn [fst snd] in *. subst s2. rewrite log_twice.
      destruct Hr as [[-> Hr]|(Hm & -> & ->)].
      * destruct res; [done|]. split_and!; [done| |done].
        apply (asks_gate _ _ _ _ rc); [done|]. pose proof (asks_path q e pl rc es Hpath Hes) as Hp. by rewrite Hpp in Hp.
      * assert (Hg : gate q e pl s [(by_path pl es rc, false); (direct pl rc, is_ret (paid e))]).
        { apply (asks_gate _ _ _ _ rc); [done|]. apply asks_fallback; try done. by rewrite Hpp. }
        destruct (paid e) as [r|y] eqn:Hpd; (split_and!; [done|done|]); [|done].
        eexists. split; [done|]. exists rc. split; [done|]. apply form_direct; [done|]. by right.
  - destruct (Transaction.truthy_str (q_contractAddress q)) as [c|] eqn:Hc.
    + fold (contract pl c). exists [(contract pl c, invoked_ok e)].
      pose proof (asks_contract q e pl rc c Hpath Hc) as Hg. apply (asks_gate _ _ _ s) in Hg; [|done].
      apply truthy_some in Hc as [Hc _]. revert Hg. unfold invoked_ok.
      destruct (invoked e) as [[r|]|x] eqn:Hinv; intros Hg; (split_and!; [done|done|]); try done.
      eexists. split; [done|]. exists rc. split; [done|]. by apply form_contract.
    + destruct (pay_direct_spec pl rc (paid e) (set_accounts a s)) as (l & Hl & Hr). exists l.
      destruct (pay_direct pl rc (paid e) _) as [res s2]. cbn [fst snd] in *. subst s2.
      destruct Hr as [[-> Hr]|(Hm & -> & ->)].
      * destruct res; [done|]. split_and!; [done|by left|done].
      * pose proof (asks_direct q e pl rc Hpath Hc Hm) as Hg. apply (asks_gate _ _ _ s) in Hg; [|done].
        destruct (paid e) as [r|y] eqn:Hpd; (split_and!; [done|done|]); [|done].
        eexists. split; [done|]. exists rc. split; [done|]. apply form_direct; [done|]. by left.
Qed.

(** ** Recording *)

Lemma create_runs n u d t :
  TransactionState.isValidState (TransactionState.normalizeState
    (Transaction.or_else (Transaction.truthy_str (Transaction.d_status d)) (Some TransactionState.PENDING))) = true →
  ∃ o t', Transaction.create n u d t = (Ret o, t').
Proof.
  intros Hv. unfold Transaction.create, TransactionState.assertValidState. stx_unfold. rewrite Hv. cbn.
  destruct (Transaction.indexed _ _); [by eexists _, _|]. destruct (Transaction.truthy_str (Transaction.d_idempotencyKey d)); by eexists _, _.
Qed.

Lemma record_status q e pl r memo :
  TransactionState.isValidState (TransactionState.normalizeState (Transaction.or_else (Transaction.truthy_str (Transaction.d_status (record_data q e pl r memo))) (Some TransactionState.PENDING))) = true.
Proof. unfold record_data. cbn [Transaction.d_status]. destruct (p_requiresApproval pl), r; reflexivity. Qed.

(** The state with another transaction model. *)
Definition with_model (t : Transaction.st) (s : st) : st :=
  set_corp (CorporateMatching.mk_st (CorporateMatching.base (corp s)) t (CorporateMatching.payments (corp s))) s.

(** A new record is in the store under its identifier, in the index under its
    key, and its write is queued. *)
Lemma create_written n u d t :
  let status_ := TransactionState.normalizeState (Transaction.or_else (Transaction.truthy_str (Transaction.d_status d)) (Some TransactionState.PENDING)) in
  TransactionState.isValidState status_ = true → Transaction.d_id d = None →
  Transaction.indexed t (Transaction.truthy_str (Transaction.d_idempotencyKey d)) = None →
  let o := Transaction.mk_obj (Transaction.next_oid t) (Transaction.new_transaction n u d status_) in
  ∃ t', Transaction.create n u d t = (Ret o, t') ∧
    Transaction._store t' = map_set (Transaction._store t) u o ∧
    Transaction.writes t' = Transaction.writes t ++ [o] ∧
    Transaction._idempotencyIndex t' =
      match Transaction.truthy_str (Transaction.d_idempotencyKey d) with
      | Some k => map_set (Transaction._idempotencyIndex t) k o
      | None => Transaction._idempotencyIndex t
      end.
Proof.
  cbv zeta. intros Hv Hd Hi. unfold Transaction.create, TransactionState.assertValidState. stx_unfold. rewrite Hv. cbn. rewrite Hi.
  destruct (Transaction.truthy_str (Transaction.d_idempotencyKey d)) eqn:Hk; eexists; rewrite Hd; cbn; (split_and!; [done..|]); by rewrite ?Hk.
Qed.

(** The memo that is recorded: the one that was paid with, or that and a suffix. *)
Definition memo_choice (used : string → bool) (nonces : string * string) (m final : string) : Prop :=
  final = m ∨ used m = true ∧ (final = m +:+ "-" +:+ nonces.1 ∨ final = m +:+ "-" +:+ nonces.2).

Lemma unique_memo_cases used ns m :
  match unique_memo used ns m with
  | Ret final => memo_choice used ns m final ∧ (m ≠ "" → used final = false)
  | Throw x => x = BusinessLogicError (CStr "MEMO_COLLISION") ∧
               used m = true ∧ used (m +:+ "-" +:+ ns.1) = true ∧ used (m +:+ "-" +:+ ns.2) = true
  end.
Proof.
  unfold unique_memo, memo_choice. destruct (is_empty m) eqn:Hm; [split; [by left|]; by destruct m|].
  destruct (used m) eqn:H0; cbn [negb]; [|by auto]. destruct (used (m +:+ "-" +:+ ns.1)) eqn:H1; cbn [negb]; [|by auto].
  destruct (used (m +:+ "-" +:+ ns.2)) eqn:H2; cbn [negb]; auto.
Qed.

Lemma lookup_cases e key t :
  match lookup_key e key t with
  | Ret (Some x) => stored key t = Some x
  | Ret None => stored key t = None
  | Throw x => key_query e = Throw x
  end.
Proof.
  unfold lookup_key. destruct (Transaction.truthy_str key) eqn:Hk; [|unfold stored; by rewrite Hk].
  destruct (key_query e) as [[]|]; [|done]. cbn. by destruct (stored key t).
Qed.

Lemma record_spec q e pl r m f s :
  match lookup_key e (q_idempotencyKey q) (model s) with
  | Throw x => record_donation q e pl r m f s = (Throw x, s)
  | Ret (Some t) => record_donation q e pl r m f s = (Ret (Replayed t), s)
  | Ret None =>
      match unique_memo (memo_used (later e) (memo_query_ok e) s) (nonces e) (p_memo pl) with
      | Throw x => record_donation q e pl r m f s = (Throw x, s)
      | Ret memo => ∃ o t', Transaction.create (later e) (uuid e) (record_data q e pl r memo) (model s) = (Ret o, t') ∧
          let s1 := with_model t' s in
          let s2 := if p_requiresApproval pl then s1 else follow_up q e pl (Transaction.id (Transaction.tx o)) s1 in
          let '(report, d) := Memos.Detector.check memoWindowMs (later e)
                                (memo_payment q pl memo (Transaction.id (Transaction.tx o))) (detector s2) in
          record_donation q e pl r m f s = (Ret (Recorded (mk_recorded o m f (p_over pl) report)), set_detector d s2)
      end
  end.
Proof.
  unfold record_donation. stx_unfold. destruct (lookup_key _ _ _) as [[?|]|]; [done| |done]. destruct (unique_memo _ _ _) as [memo|]; [|done].
  destruct (create_runs (later e) (uuid e) (record_data q e pl r memo) (model s) (record_status q e pl r memo)) as (o & t' & Hc).
  exists o, t'. split; [done|]. cbv zeta. unfold on_model, CorporateMatching.on_txs. fold (model s). rewrite Hc.
  destruct (p_requiresApproval pl); by destruct Memos.Detector.check.
Qed.

(** The network and the memo rows are out of reach of the rest. *)
Definition same_network (s s' : st) : Prop := payments s' = payments s ∧ asked s' = asked s ∧ memo_rows s' = memo_rows s.
Lemma follow_up_frame q e pl i s : same_network s (follow_up q e pl i s).
Proof. unfold follow_up. destruct (Matching.campaign_of _); destruct (sender e) as [[?|]|]; done. Qed.

Lemma record_network q e pl r m f s : same_network s (record_donation q e pl r m f s).2.
Proof.
  pose proof (record_spec q e pl r m f s) as H. destruct (lookup_key _ _ _) as [[?|]|]; [by rewrite H| |by rewrite H].
  destruct (unique_memo _ _ _); [|by rewrite H]. destruct H as (o & t' & _ & H). cbv zeta in H.
  destruct (Memos.Detector.check _ _ _ _) as [rep d]. rewrite H. cbn [snd].
  destruct (p_requiresApproval pl); [done|].
  match goal with |- context [follow_up q e pl ?i ?x] => destruct (follow_up_frame q e pl i x) as (? & ? & ?) end. by split_and!.
Qed.

(** One call, by its checks and its payment. *)
Lemma create_record_cases q e s :
  (∃ x, check_request q e (model s) = Throw x ∧ createDonationRecord q e s = (Throw x, s)) ∨
  ∃ pl a l, check_request q e (model s) = Ret pl ∧ gate q e pl s l ∧
    let s1 := log_all l (set_accounts a s) in
    ((∃ x, answered l = [] ∧ createDonationRecord q e s = (Throw x, s1)) ∨
     (l = [] ∧ createDonationRecord q e s = record_donation q e pl None "record_only" false s1) ∨
     ∃ p r m f, answered l = [p] ∧ payable q e pl s r m f p ∧
       createDonationRecord q e s = record_donation q e pl (Some r) m f s1).
Proof.
  unfold createDonationRecord. stx_unfold. destruct (check_request q e (model s)) as [pl|x] eqn:Hc; [|left; by exists x].
  right. destruct (pay_spec q e pl s) as (a & l & Hs & Hg & Hr). exists pl, a, l. split_and!; [done|done|].
  destruct (pay q e pl s) as [[[[[r|] m] f]|x] s1]; cbn [fst snd] in *; subst s1.
  - destruct Hr as (p & Hl & Hp). right. right. by exists p, r, m, f.
  - destruct Hr as (Hl & -> & ->). right. by left.
  - left. by exists x.
Qed.

(** What one call asks of the network. *)
Lemma create_record_network q e s :
  asked (createDonationRecord q e s).2 = asked s ∧ payments (createDonationRecord q e s).2 = payments s ∨
  ∃ pl a l, check_request q e (model s) = Ret pl ∧ gate q e pl s l ∧
    asked (createDonationRecord q e s).2 = asked s ++ l ∧ payments (createDonationRecord q e s).2 = payments s ++ answered l ∧
    (∀ p, answered l = [p] → ∃ r m f, payable q e pl s r m f p ∧
      createDonationRecord q e s = record_donation q e pl (Some r) m f (log_all l (set_accounts a s))).
Proof.
  destruct (create_record_cases q e s) as [(x & _ & ->)|(pl & a & l & Hc & Hg & H)]; [by left|]. right. exists pl, a, l. cbv zeta in H.
  split_and!; [done|done|..]; destruct H as [(x & Hl & ->)|[(Hl & ->)|(p & r & m & f & Hl & Hp & ->)]]; try done;
    try (by rewrite (proj1 (record_network _ _ _ _ _ _ _)));
    try (by rewrite (proj1 (proj2 (record_network _ _ _ _ _ _ _)))).
  - intros p Hp. by rewrite Hp in Hl.
  - intros p Hp. by rewrite Hl in Hp.
  - intros p' Hp'. rewrite Hl in Hp'. injection Hp' as <-. by exists r, m, f.
Qed.

(** One donation more in the donor's day. *)
Lemma daily_total_create n u d t donor day t' o :
  Transaction._store t' = map_set (Transaction._store t) u o → map_get (Transaction._store t) u = None →
  Transaction.tx o = Transaction.new_transaction n u d (Transaction.status (Transaction.tx o)) →
  Transaction.d_donor d = Some donor → Transaction.d_timestamp d = None → day.1 <= n <= day.2 →
  Transaction.status (Transaction.tx o) ≠ "failed" → Transaction.status (Transaction.tx o) ≠ "cancelled" →
  Transaction.getDailyTotalByDonor t' (Some donor) day.1 day.2 =
    num_add (Transaction.getDailyTotalByDonor t (Some donor) day.1 day.2) (Transaction.d_amount d).
Proof.
  intros Hst Hfresh Ho Hd Ht Hday Hf Hc. unfold Transaction.getDailyTotalByDonor, Transaction.loadTransactions.
  rewrite Hst, map_set_fresh, fmap_app, filter_app by done. cbn [fmap list_fmap]. rewrite filter_cons_True, filter_nil.
  - rewrite foldl_app. cbn [foldl]. cbn [snd]. by rewrite Ho.
  - cbn [snd]. split_and!; try done; rewrite Ho; cbn [Transaction.donor Transaction.new_transaction Transaction.timestamp];
      rewrite ?Hd, ?Ht; cbn; done || lia.
Qed.

(** ** Theorems *)

(** C9: What a call asks of the network, answered or not: nothing, or one payment, or the direct one
    after a payment along a path that failed between equal assets; and only for a request that passed
    every check: by a signer that is there, to a recipient that exists and is not the donor, of an
    amount within the limits of a donation and of the donor's day, not above the threshold of
    approvals, with a memo that is valid for the type of the request and, in a direct payment, also a
    text the network takes. *)
Theorem payment_gate q e s :
  let s' := (createDonationRecord q e s).2 in
  ∃ l, asked s' = asked s ++ l ∧ payments s' = payments s ++ answered l ∧
    (l = [] ∨
     ∃ pl recipient, check_request q e (model s) = Ret pl ∧ sound q e (model s) pl ∧ permitted e pl s recipient ∧
       asks q e pl recipient l).
Proof.
  cbv zeta. destruct (create_record_network q e s) as [[-> ->]|(pl & a & l & Hc & Hg & -> & -> & _)].
  - exists []. by rewrite !app_nil_r; auto.
  - exists l. split_and!; [done..|]. destruct Hg as [->|(rc & Hp & Ha)]; [by left|]. right. exists pl, rc.
    split_and!; [done|by apply check_request_sound|done|done].
Qed.

(** C39: The key is looked up after the payment: a request whose donation is stored
    already is answered with it, and pays again. *)
Theorem replay_pays_again q e s t pl s1 r m f :
  lookup_key e (q_idempotencyKey q) (model s) = Ret (Some t) →
  check_request q e (model s) = Ret pl → pay q e pl s = (Ret (Some r, m, f), s1) →
  (createDonationRecord q e s).1 = Ret (Replayed t) ∧
  length (payments (createDonationRecord q e s).2) = S (length (payments s)).
Proof.
  intros Ht Hc Hp. destruct (pay_spec q e pl s) as (a & l & Hs & _ & Hr). rewrite Hp in Hs, Hr. cbn [fst snd] in Hs, Hr.
  destruct Hr as (p & Hl & _). unfold createDonationRecord. stx_unfold. rewrite Hc, Hp, Hs.
  pose proof (record_spec q e pl (Some r) m f (log_all l (set_accounts a s))) as H.
  change (model (log_all l (set_accounts a s))) with (model s) in H. rewrite Ht in H. rewrite H. cbn.
  split; [done|]. rewrite length_app, Hl. cbn. lia.
Qed.

Lemma follow_up_model q e pl i s : sender e = Ret None → model (follow_up q e pl i s) = model s.
Proof. intros Hs. unfold follow_up. rewrite Hs. by destruct (Matching.campaign_of _). Qed.

(** C37: What became of a payment that was answered.  A donation that was stored under the key is
    returned, and nothing is recorded; or the query of the key failed, or no memo was free, and nothing
    is recorded; or an object
    is returned as the record.  That object is the one the index has for the key already, and nothing
    new is recorded; or it is new, confirmed, with the answer of the network and with the memo or
    the memo and a suffix, and it is in the store under its identifier and in the index under the key,
    and its write is queued.  The state is then what the campaign, the matching programs and the
    detector of memos leave, which keep the transactions when no user has the donor's key. *)
Theorem payment_outcome q e s p :
  payments (createDonationRecord q e s).2 = payments s ++ [p] →
  ∃ pl r m f, payable q e pl s r m f p ∧
    let used := memo_used (later e) (memo_query_ok e) s in
    let key := Transaction.truthy_str (q_idempotencyKey q) in
    let '(res, s') := createDonationRecord q e s in
    (∃ t, res = Ret (Replayed t) ∧ stored (q_idempotencyKey q) (model s) = Some t ∧ model s' = model s) ∨
    (∃ x, res = Throw x ∧ key_query e = Throw x ∧ model s' = model s) ∨
    (res = Throw (BusinessLogicError (CStr "MEMO_COLLISION")) ∧ used (p_memo pl) = true ∧ model s' = model s) ∨
    (∃ rc t' a l d, res = Ret (Recorded rc) ∧ r_paymentMethod rc = m ∧
      s' = set_detector d (follow_up q e pl (Transaction.id (Transaction.tx (r_obj rc)))
                             (with_model t' (log_all l (set_accounts a s)))) ∧
      (sender e = Ret None → model s' = t') ∧
      (Transaction.indexed (model s) key = Some (r_obj rc) ∧ t' = model s ∨
       ∃ memo, memo_choice used (nonces e) (p_memo pl) memo ∧
         Transaction.tx (r_obj rc) =
           Transaction.new_transaction (later e) (uuid e) (record_data q e pl (Some r) memo) TransactionState.CONFIRMED ∧
         Transaction._store t' = map_set (Transaction._store (model s)) (uuid e) (r_obj rc) ∧
         Transaction.writes t' = Transaction.writes (model s) ++ [r_obj rc] ∧
         (∀ k, key = Some k → map_get (Transaction._idempotencyIndex t') k = Some (r_obj rc)))).
Proof.
  assert (Hne : ∀ l : list payment, l ≠ l ++ [p]) by (intros l Hl; apply (f_equal length) in Hl; rewrite length_app in Hl; cbn in Hl; lia).
  destruct (create_record_network q e s) as [[_ ->]|(pl & a & l & _ & _ & _ & -> & Hans)]; intros H; [by apply Hne in H|].
  apply app_inv_head in H. destruct (Hans _ H) as (r & m & f & Hpy & ->). exists pl, r, m, f. split; [done|]. cbv zeta. clear Hans H Hne.
  set (s1 := log_all l (set_accounts a s)).
  pose proof (record_spec q e pl (Some r) m f s1) as H. change (model s1) with (model s) in H.
  change (memo_used (later e) (memo_query_ok e) s1) with (memo_used (later e) (memo_query_ok e) s) in H.
  pose proof (lookup_cases e (q_idempotencyKey q) (model s)) as Hlk.
  destruct (lookup_key _ _ _) as [[t|]|x]; [rewrite H; left; by exists t| |rewrite H; right; left; by exists x].
  pose proof (unique_memo_cases (memo_used (later e) (memo_query_ok e) s) (nonces e) (p_memo pl)) as Hm.
  destruct (unique_memo _ _ _) as [memo|x]; [|destruct Hm as (-> & Hu & _); rewrite H; right; right; left; by split_and!].
  destruct H as (o & t' & Hcr & H). cbv zeta in H. destruct (Memos.Detector.check _ _ _ _) as [rep d]. rewrite H.
  assert (Hap : p_requiresApproval pl = false) by by destruct Hpy as (rc & [] & _). rewrite Hap.
  right. right. right. eexists _, t', a, l, d. split; [reflexivity|]. cbn [r_paymentMethod r_obj]. split_and!; [done|done| |].
  { intros Hsn. change (model (set_detector d ?x)) with (model x). by rewrite follow_up_model. }
  destruct (Transaction.indexed (model s) (Transaction.truthy_str (q_idempotencyKey q))) as [o'|] eqn:Hi.
  - left. revert Hcr. unfold Transaction.create, TransactionState.assertValidState. stx_unfold. rewrite record_status. cbn. rewrite Hi.
    by intros [= -> ->].
  - right. exists memo. destruct (create_written (later e) (uuid e) _ (model s) (record_status q e pl (Some r) memo) eq_refl Hi)
      as (t2 & Hc2 & Hs2 & Hw2 & Hi2). rewrite Hcr in Hc2. injection Hc2 as -> ->.
    split_and!; [by destruct Hm| |done|done|].
    + cbn [Transaction.tx]. f_equal. unfold record_data. cbn [Transaction.d_status]. by rewrite Hap.
    + intros k Hk. rewrite Hi2. cbn [record_data Transaction.d_idempotencyKey]. rewrite Hk. apply map_get_set_eq.
Qed.

Lemma recorded_run q e s rc s' : createDonationRecord q e s = (Ret (Recorded rc), s') →
  ∃ pl r m f s1, check_request q e (model s) = Ret pl ∧ model s1 = model s ∧
    record_donation q e pl r m f s1 = (Ret (Recorded rc), s').
Proof.
  intros Hrun. destruct (create_record_cases q e s) as [(x & _ & H)|(pl & a & l & Hc & _ & [(x & _ & H)|[(_ & H)|(p & r & m & f & _ & _ & H)]])];
    rewrite H in Hrun; try done; do 5 eexists; (split; [exact Hc|]); (split; [|exact Hrun]); done.
Qed.

(** A donation that is recorded under a fresh identifier keeps the named
    donor's day within the limit, if there is one and no sponsor matched it. *)
Theorem daily_limit_kept q e s rc s' donor :
  createDonationRecord q e s = (Ret (Recorded rc), s') →
  Transaction.donor (Transaction.tx (r_obj rc)) = Some donor → named donor = true →
  num_eqb maxDailyPerDonor num_zero = false →
  Transaction.indexed (model s) (Transaction.truthy_str (q_idempotencyKey q)) = None →
  map_get (Transaction._store (model s)) (uuid e) = None → sender e = Ret None →
  (today e).1 <= later e <= (today e).2 →
  num_gtb (Transaction.getDailyTotalByDonor (model s') (Some donor) (today e).1 (today e).2) maxDailyPerDonor = false.
Proof.
  intros Hrun Hdon Hnamed Hmax Hi Hfresh Hsnd Hday.
  destruct (recorded_run _ _ _ _ _ Hrun) as (pl & r & m & f & s1 & Hc & Hm & Hrec). apply check_request_sound in Hc as Hso.
  pose proof (record_spec q e pl r m f s1) as H. rewrite Hm in H. destruct (lookup_key _ _ _) as [[?|]|]; [by rewrite H in Hrec| |by rewrite H in Hrec].
  destruct (unique_memo _ _ _) as [memo|x]; [|by rewrite H in Hrec]. destruct H as (o & t' & Hcr & H). cbv zeta in H.
  set (s2 := if p_requiresApproval pl then _ else _) in H.
  assert (Hmodel : model s2 = t').
  { subst s2. destruct (p_requiresApproval pl); [done|]. by rewrite follow_up_model. }
  clearbody s2. destruct (Memos.Detector.check _ _ _ _) as [rep d]. rewrite H in Hrec. injection Hrec as <- <-. clear H.
  cbn [r_obj] in Hdon. change (model (set_detector d s2)) with (model s2). rewrite Hmodel.
  destruct (Transaction.create_fresh (later e) (uuid e) (record_data q e pl r memo) (model s) (record_status _ _ _ _ _) Hi) as (t2 & Hc2 & Hstore & _).
  rewrite Hcr in Hc2. injection Hc2 as -> <-. cbn in Hdon. injection Hdon as Hdon.
  pose proof (so_day _ _ _ _ Hso) as Hd. rewrite Hdon in Hd. specialize (Hd Hnamed). revert Hd.
  unfold DonationChecks.validateDailyLimit. rewrite Hmax. destruct (num_gtb _ _) eqn:Hg; [done|]. intros _.
  rewrite (daily_total_create (later e) (uuid e) (record_data q e pl r memo) (model s) donor (today e) t' _ Hstore);
    [exact Hg|done|reflexivity|cbn; by rewrite Hdon|done|done|..].
  all: cbn [Transaction.tx Transaction.status Transaction.new_transaction record_data Transaction.d_status];
    destruct (p_requiresApproval pl), r; by vm_compute.
Qed.

(** What is recorded afresh is the donation that was checked. *)
Lemma recorded_fresh q e s rc s' :
  createDonationRecord q e s = (Ret (Recorded rc), s') →
  Transaction.indexed (model s) (Transaction.truthy_str (q_idempotencyKey q)) = None →
  ∃ pl r memo st, sound q e (model s) pl ∧
    Transaction.tx (r_obj rc) = Transaction.new_transaction (later e) (uuid e) (record_data q e pl r memo) st.
Proof.
  intros Hrun Hi.
  destruct (recorded_run _ _ _ _ _ Hrun) as (pl & r & m & f & s1 & Hc & Hm & Hrec). apply check_request_sound in Hc.
  pose proof (record_spec q e pl r m f s1) as H. rewrite Hm in H. destruct (lookup_key _ _ _) as [[?|]|]; [by rewrite H in Hrec| |by rewrite H in Hrec].
  destruct (unique_memo _ _ _) as [memo|x]; [|by rewrite H in Hrec]. destruct H as (o & t' & Hcr & H). cbv zeta in H.
  destruct (Memos.Detector.check _ _ _ _) as [rep d]. rewrite H in Hrec. injection Hrec as <- <-. clear H. cbn [r_obj].
  destruct (Transaction.create_fresh (later e) (uuid e) (record_data q e pl r memo) (model s) (record_status _ _ _ _ _) Hi) as (t2 & Hc2 & _).
  rewrite Hcr in Hc2. injection Hc2 as -> _. by eexists pl, r, memo, _.
Qed.

(** A donation without a donor, or an anonymous one, is refused by the table of
    donations whatever it holds: it lives in memory until the process ends. *)
Theorem anonymous_not_stored q e s rc s' rows :
  createDonationRecord q e s = (Ret (Recorded rc), s') →
  Transaction.indexed (model s) (Transaction.truthy_str (q_idempotencyKey q)) = None →
  rawDonor q = "Anonymous"%string ∨ q_anonymous q = true ∧ named (rawDonor q) = true →
  Transaction.upsert rows (Transaction.tx (r_obj rc)) = Transaction.DbOther.
Proof.
  intros Hrun Hi Hanon. destruct (recorded_fresh _ _ _ _ _ Hrun Hi) as (pl & r & memo & st & Hso & ->).
  unfold Transaction.upsert.
  assert (Hd : Transaction.address_check (Some (p_donor pl)) = false); [|by cbn [Transaction.donor Transaction.new_transaction record_data Transaction.d_donor]; rewrite Hd].
  pose proof (so_donor _ _ _ _ Hso) as Hdon. destruct Hanon as [Hraw|[Ha Hn]].
  - rewrite Hraw in Hdon. change (named "Anonymous") with false in Hdon. rewrite andb_false_r in Hdon. by rewrite Hdon.
  - rewrite Ha, Hn in Hdon. cbn [andb] in Hdon. unfold DonationChecks.generatePseudonymousId in Hdon.
    destruct (is_empty _); [done|]. destruct DonationChecks.getHmacSecret as [k|]; [|done]. injection Hdon as <-.
    unfold Transaction.address_check. cbn [Transaction.truthy_str is_empty String.append]. by rewrite andb_false_r.
Qed.

(** A claimable balance is never recorded: its state is none of the model, and
    the call throws after the network created the balance. *)
Theorem claimable_never_recorded c e s :
  let '(res, s') := createClaimableDonation c e s in
  match res with
  | Ret (Recorded _) => False
  | Ret (Replayed t) => stored (c_idempotencyKey c) (model s) = Some t ∧ s' = s
  | Throw x => model s' = model s ∧
      (payments s' = payments s ∨
       x = ValidationError_with (code_ref "INVALID_REQUEST") ∧ is_ret (paid e) = true ∧
       ∃ secret xlm, payments s' = payments s ++ [Claimable secret (num_to_string xlm) (c_claimants c)])
  end.
Proof.
  unfold createClaimableDonation, submit. stx_unfold. destruct (check_claim c e (model s)) as [[xlm memo]|x]; [|by auto].
  pose proof (lookup_cases e (c_idempotencyKey c) (model s)) as Ht. destruct (lookup_key _ _ _) as [[t|]|x]; [done| |by auto]. cbn.
  destruct (paid e) as [r|x] eqn:Hp; cbn; [|rewrite app_nil_r; by auto]. unfold on_model, CorporateMatching.on_txs.
  assert (Hc : ∀ t, Transaction.create (later e) (uuid e) (claim_data c xlm memo
    (match Transaction.truthy_str (c_donor c) with Some d => Sanitizer.sanitizeIdentifier (Some d) | None => "Anonymous" end)
    r (later e)) t = (Throw (ValidationError_with (code_ref "INVALID_REQUEST")), t)) by done.
  rewrite Hc. cbn. split; [done|]. right. split_and!; [done..|]. by eexists _, xlm.
Qed.

End service.

(** The budget of a program is spent and no match is recorded. *)
Theorem match_budget_lost amount campaign s :
  let s' := match_record amount campaign s in
  Matching.matches s' = Matching.matches s ∧
  (s' = s ∨ ∃ p m, p ∈ Matching.applicable (Matching.mk_donation 0 amount (Matching.campaign_of campaign)) s ∧
    Matching.match_amount (Matching.mk_donation 0 amount (Matching.campaign_of campaign)) p = Some m ∧
    s' = Matching.update_program (Matching.p_id p)
           (Matching.with_remaining (Matching.round_to 7 (num_sub (Matching.remaining_match_amount p) m))) s).
Proof.
  cbv zeta. unfold match_record. set (d := Matching.mk_donation 0 amount _). generalize (Matching.applicable d s) as l.
  induction l as [|p l [IHm IH]]; [by auto|]. cbn [match_unlinked].
  destruct (Matching.match_amount d p) as [m|] eqn:Hm.
  - split; [done|]. right. exists p, m. split_and!; [apply list_elem_of_here|done|done].
  - split; [done|]. destruct IH as [->|(p' & m' & Hin & ? & ->)]; [by left|]. right. exists p', m'.
    split_and!; [by apply list_elem_of_further|done|done].
Qed.

(** ** Examples *)

Definition addr (c : ascii) : string := String "G" (str_repeat 55 c).
Definition ex_day : Z := 1700000000000.
Section example.
Context (maxDaily : num) (threshold : option num).
Definition ex_check : request → answers → Transaction.st → outcome jserror plan :=
  check_request (num_of_dec false 1 (-2)) (num_of_Z 10000) maxDaily threshold (λ _, None) "service" DonationChecks.ex_hmac
    (Some "s"%string) false (λ _, true).
Definition ex_create : request → answers → M result :=
  createDonationRecord (num_of_dec false 1 (-2)) (num_of_Z 10000) maxDaily threshold 2 259200000 false (λ _, None) "service"
    DonationChecks.ex_hmac (Some "s"%string) false (λ _, true) (λ _, "2023") 300000 (λ _, None).
Definition ex_claim : claim_request → answers → M result :=
  createClaimableDonation (num_of_dec false 1 (-2)) (num_of_Z 10000) maxDaily (λ _, None) "service".
End example.

Definition ex_q (key : string) (anonymous : bool) : request :=
  mk_request (num_of_Z 10) "XLM" (Some (addr "A")) (Some (addr "B")) (Some "hello"%string) "text" None [] None "user"
    (Some key) None None None anonymous None None None None None None num_zero num_zero None None None.
Definition ex_e (id hash : string) : answers :=
  mk_answers ex_day (ex_day + 5) (ex_day - 1000, ex_day + 1000) (Ret num_zero) (Ret true) (Throw EUnique)
    (Ret (mk_sent (Some hash) (Some 7))) (Throw EUnique) (Throw EUnique) (Ret ()) ("00000000", "11111111") true id true (Ret None)
    (λ _, CorporateMatching.mk_env 2023 "t" 0 "x" (Throw EUnique) true).
Definition ex_programs : Matching.st := Matching.mk_st [Matching.mk_program 1 "S" (num_of_Z 1) (num_of_Z 10) (num_of_Z 10) None "active"] [] 2 1.
Definition ex_s0 : st :=
  mk_st (CorporateMatching.mk_st CorporateMatching.empty_db Transaction.init []) [] ex_programs [] [] [] [] [].
Definition ex_s1 : st := (ex_create num_zero None (ex_q "k1" false) (ex_e "tx-1" "h1") ex_s0).2.
(** The write of the donation arrives. *)
Definition settled (s : st) : st :=
  set_corp (CorporateMatching.mk_st (CorporateMatching.base (corp s)) (Transaction.settle 0 (model s))
              (CorporateMatching.payments (corp s))) s.
Definition ex_s2 : st := settled ex_s1.

(** One donation: paid once, recorded as confirmed; the budget of 10 of the
    matching program is gone and nothing was matched. *)
Example first_donation :
  length (payments ex_s1) = 1%nat ∧
  (λ o, (Transaction.status (Transaction.tx o), Transaction.stellarTxId (Transaction.tx o))) <$>
    Transaction.loadTransactions (model ex_s1) = [("confirmed", Some "h1"%string)] ∧
  Matching.remaining_match_amount <$> Matching.programs (programs ex_s1) = [num_zero] ∧
  Matching.matches (programs ex_s1) = [].
Proof. by vm_compute. Qed.

Lemma replay_pays_again_witness :
  ∃ t, (ex_create num_zero None (ex_q "k1" false) (ex_e "tx-2" "h2") ex_s2).1 = Ret (Replayed t) ∧
       length (payments (ex_create num_zero None (ex_q "k1" false) (ex_e "tx-2" "h2") ex_s2).2) = S (length (payments ex_s2)).
Proof.
  assert (Ht : ∃ t, lookup_key (ex_e "tx-2" "h2") (q_idempotencyKey (ex_q "k1" false)) (model ex_s2) = Ret (Some t)) by (vm_compute; eexists; reflexivity).
  assert (Hp : match ex_check num_zero None (ex_q "k1" false) (ex_e "tx-2" "h2") (model ex_s2) with
               | Ret pl => match (pay false (ex_q "k1" false) (ex_e "tx-2" "h2") pl ex_s2).1 with Ret (Some _, _, _) => true | _ => false end
               | Throw _ => false
               end = true) by (vm_compute; reflexivity).
  revert Ht Hp. generalize ex_s2 as s. generalize (ex_q "k1" false) as q. generalize (ex_e "tx-2" "h2") as e.
  intros e q s [t Ht] Hp. exists t. destruct (ex_check num_zero None q e (model s)) as [pl|] eqn:Hc; [|done].
  destruct (pay false q e pl s) as [[[[[r|] m] f]|] s1] eqn:Hpay; [|done..].
  exact (replay_pays_again (num_of_dec false 1 (-2)) (num_of_Z 10000) num_zero None 2 259200000 false (λ _, None) "service"
    DonationChecks.ex_hmac (Some "s"%string) false (λ _, true) (λ _, "2023") 300000 (λ _, None) q e s t pl s1 r m f Ht Hc Hpay).
Defined.

Lemma payment_outcome_witness :
  ∃ rc, (ex_create num_zero None (ex_q "k1" false) (ex_e "tx-1" "h1") ex_s0).1 = Ret (Recorded rc) ∧
    map_get (Transaction._store (model (ex_create num_zero None (ex_q "k1" false) (ex_e "tx-1" "h1") ex_s0).2)) (uuid (ex_e "tx-1" "h1")) =
      Some (r_obj rc).
Proof.
  assert (Hp : ∃ p, payments (ex_create num_zero None (ex_q "k1" false) (ex_e "tx-1" "h1") ex_s0).2 = payments ex_s0 ++ [p])
    by (vm_compute; eexists; reflexivity).
  assert (Hk : key_query (ex_e "tx-1" "h1") = Ret ()) by reflexivity.
  assert (Hst : stored (q_idempotencyKey (ex_q "k1" false)) (model ex_s0) = None) by (vm_compute; reflexivity).
  assert (Hi : Transaction.indexed (model ex_s0) (Transaction.truthy_str (q_idempotencyKey (ex_q "k1" false))) = None) by (vm_compute; reflexivity).
  assert (Hs : sender (ex_e "tx-1" "h1") = Ret None) by reflexivity.
  assert (Hu : ∀ m, memo_used (λ _, "2023") (later (ex_e "tx-1" "h1")) (memo_query_ok (ex_e "tx-1" "h1")) ex_s0 m = false) by (vm_compute; reflexivity).
  revert Hp Hk Hst Hi Hs Hu. generalize ex_s0 as s. generalize (ex_q "k1" false) as q. generalize (ex_e "tx-1" "h1") as e.
  intros e q s [p Hp] Hk Hst Hi Hs Hu.
  pose proof (payment_outcome (num_of_dec false 1 (-2)) (num_of_Z 10000) num_zero None 2 259200000 false (λ _, None) "service"
    DonationChecks.ex_hmac (Some "s"%string) false (λ _, true) (λ _, "2023") 300000 (λ _, None)
    q e s p Hp) as (pl & r & m & f & _ & H).
  cbv zeta in H. unfold ex_create. destruct (createDonationRecord _ _ _ _ _ _ _ _ _ _ _ _ _ _ _ _ _ _ _) as [res s'].
  destruct H as [(t & _ & Ht & _)|[(x & _ & Hx & _)|[(_ & Hf & _)|(rc & t' & a & l & d & -> & _ & _ & Hm & [[Hx _]|(memo & _ & _ & Hstore & _)])]]];
    [by rewrite Hst in Ht|by rewrite Hk in Hx|by rewrite Hu in Hf|by rewrite Hi in Hx|].
  exists rc. split; [done|]. cbn [snd]. rewrite (Hm Hs), Hstore. apply map_get_set_eq.
Defined.

Lemma daily_limit_kept_witness :
  match ex_create (num_of_Z 15) None (ex_q "k1" false) (ex_e "tx-1" "h1") ex_s0 with
  | (Ret (Recorded _), s') =>
      num_gtb (Transaction.getDailyTotalByDonor (model s') (Some (addr "A")) (today (ex_e "tx-1" "h1")).1
                 (today (ex_e "tx-1" "h1")).2) (num_of_Z 15) = false
  | _ => False
  end.
Proof.
  assert (Hd : match (ex_create (num_of_Z 15) None (ex_q "k1" false) (ex_e "tx-1" "h1") ex_s0).1 with
               | Ret (Recorded rc) => Transaction.donor (Transaction.tx (r_obj rc)) = Some (addr "A")
               | _ => False
               end) by (vm_compute; reflexivity).
  assert (Hn : named (addr "A") = true) by (vm_compute; reflexivity).
  assert (Hm : num_eqb (num_of_Z 15) num_zero = false) by (vm_compute; reflexivity).
  assert (Hi : Transaction.indexed (model ex_s0) (Transaction.truthy_str (q_idempotencyKey (ex_q "k1" false))) = None)
    by (vm_compute; reflexivity).
  assert (Hf : map_get (Transaction._store (model ex_s0)) (uuid (ex_e "tx-1" "h1")) = None) by (vm_compute; reflexivity).
  assert (Hs : sender (ex_e "tx-1" "h1") = Ret None) by reflexivity.
  assert (Ht : (today (ex_e "tx-1" "h1")).1 <= later (ex_e "tx-1" "h1") <= (today (ex_e "tx-1" "h1")).2)
    by (cbn; unfold ex_day; lia).
  revert Hd Hn Hm Hi Hf Hs Ht. generalize ex_s0 as s. generalize (ex_q "k1" false) as q. generalize (ex_e "tx-1" "h1") as e.
  generalize (addr "A") as who. generalize (num_of_Z 15) as max. intros max who e q s Hd Hn Hm Hi Hf Hs Ht.
  destruct (ex_create max None q e s) as [[[t|rc]|x] s'] eqn:Hrun; try exact Hd.
  exact (daily_limit_kept (num_of_dec false 1 (-2)) (num_of_Z 10000) max None 2 259200000 false (λ _, None) "service"
    DonationChecks.ex_hmac (Some "s"%string) false (λ _, true) (λ _, "2023") 300000 (λ _, None)
    q e s rc s' who Hrun Hd Hn Hm Hi Hf Hs Ht).
Defined.

Lemma anonymous_not_stored_witness :
  match ex_create num_zero None (ex_q "k1" true) (ex_e "tx-1" "h1") ex_s0 with
  | (Ret (Recorded rc), s') => Transaction.upsert (Transaction.table (model s')) (Transaction.tx (r_obj rc)) = Transaction.DbOther
  | _ => False
  end.
Proof.
  assert (Hd : match (ex_create num_zero None (ex_q "k1" true) (ex_e "tx-1" "h1") ex_s0).1 with
               | Ret (Recorded rc) => True
               | _ => False
               end) by (vm_compute; exact I).
  assert (Hn : q_anonymous (ex_q "k1" true) = true ∧ named (rawDonor (ex_q "k1" true)) = true) by (vm_compute; split; reflexivity).
  assert (Hi : Transaction.indexed (model ex_s0) (Transaction.truthy_str (q_idempotencyKey (ex_q "k1" true))) = None)
    by (vm_compute; reflexivity).
  revert Hd Hn Hi. generalize ex_s0 as s. generalize (ex_q "k1" true) as q. generalize (ex_e "tx-1" "h1") as e.
  intros e q s Hd Hn Hi. destruct (ex_create num_zero None q e s) as [[[t|rc]|x] s'] eqn:Hrun; try exact Hd.
  exact (anonymous_not_stored (num_of_dec false 1 (-2)) (num_of_Z 10000) num_zero None 2 259200000 false (λ _, None) "service"
    DonationChecks.ex_hmac (Some "s"%string) false (λ _, true) (λ _, "2023") 300000 (λ _, None)
    q e s rc s' (Transaction.table (model s')) Hrun Hi (or_intror Hn)).
Defined.

(** Two donations with one memo keep it: the memos the check reads are not
    those that donations are recorded with. *)
Example same_memo_twice :
  let s := (ex_create num_zero None (ex_q "k2" false) (ex_e "tx-2" "h2") ex_s2).2 in
  (λ o, Transaction.memo (Transaction.tx o)) <$> Transaction.loadTransactions (model s) = ["hello"%string; "hello"%string] ∧
  memo_rows s = [].
Proof. by vm_compute. Qed.

(** Under a limit of 15 a day a donor gives 10 twice, once under the name and
    once under the pseudonym; a second time under the name is refused. *)
Example anonymous_second_day :
  let s := (ex_create (num_of_Z 15) None (ex_q "k1" false) (ex_e "tx-1" "h1") ex_s0).2 in
  (ex_create (num_of_Z 15) None (ex_q "k2" false) (ex_e "tx-2" "h2") s).1 = Throw (refused "DAILY_LIMIT_EXCEEDED") ∧
  length (payments (ex_create (num_of_Z 15) None (ex_q "k2" true) (ex_e "tx-2" "h2") s).2) = 2%nat.
Proof. by vm_compute. Qed.

(** Three used memos: the payment stands, nothing is recorded. *)
Example collision_after_payment :
  let rows := [("hello", "2024"); ("hello-00000000", "2024"); ("hello-11111111", "2024")]%string in
  let s := mk_st (corp ex_s0) [] ex_programs rows [] [] [] [] in
  let r := ex_create num_zero None (ex_q "k1" false) (ex_e "tx-1" "h1") s in
  r.1 = Throw (BusinessLogicError (CStr "MEMO_COLLISION")) ∧ length (payments r.2) = 1%nat ∧
  Transaction.loadTransactions (model r.2) = [].
Proof. by vm_compute. Qed.

(** A memo of another type passes the checks of its type and is then refused
    as a text: such a donation is never paid. *)
Example hash_memo_refused :
  let q := mk_request (num_of_Z 10) "XLM" (Some (addr "A")) (Some (addr "B")) (Some (str_repeat 64 "a")) "hash" None [] None "user"
    (Some "k1"%string) None None None false None None None None None None num_zero num_zero None None None in
  let r := ex_create num_zero None q (ex_e "tx-1" "h1") ex_s0 in
  is_ret (ex_check num_zero None q (ex_e "tx-1" "h1") (model ex_s0)) = true ∧
  r.1 = Throw (EPlain "MEMO_TOO_LONG") ∧ asked r.2 = [].
Proof. by vm_compute. Qed.

(** A payment along a path that gave no answer is followed by a direct one. *)
Example path_then_direct :
  let xlm := JStr "XLM" in
  let q := mk_request (num_of_Z 10) "XLM" (Some (addr "A")) (Some (addr "B")) None "text" None [] None "user"
    (Some "k1"%string) None None None false (Some xlm) None None None None None num_zero num_zero None None None in
  let e := mk_answers ex_day (ex_day + 5) (ex_day - 1000, ex_day + 1000) (Ret num_zero) (Ret true) (Throw EUnique)
    (Ret (mk_sent (Some "h1"%string) (Some 7))) (Ret (Some (mk_estimate "10" []))) (Throw EUnique) (Ret ()) ("00000000", "11111111") true "tx-1" true (Ret None)
    (λ _, CorporateMatching.mk_env 2023 "t" 0 "x" (Throw EUnique) true) in
  snd <$> asked (ex_create num_zero None q e ex_s0).2 = [false; true].
Proof. by vm_compute. Qed.

(** A suffix makes the recorded memo longer than a memo may be. *)
Example suffixed_memo_too_long :
  let m := "a memo that is twenty-eight"%string in
  unique_memo (λ x, bool_decide (x = m)) ("0a1b2c3d", "4e5f6071") m = Ret (m +:+ "-0a1b2c3d") ∧
  Memos.validateFinalMemo (Some (m +:+ "-0a1b2c3d")) "text" = Some "MEMO_TOO_LONG"%string.
Proof. by vm_compute. Qed.

(** Above the threshold nothing is paid, and the donation is stored as pending. *)
Example large_donation_pending :
  let r := ex_create num_zero (Some (num_of_Z 5)) (ex_q "k1" false) (ex_e "tx-1" "h1") ex_s0 in
  payments r.2 = [] ∧
  (λ o, (Transaction.status (Transaction.tx o), Transaction.requiredApprovals (Transaction.tx o))) <$>
    Transaction.loadTransactions (model r.2) = [("pending"%string, Some 2)].
Proof. by vm_compute. Qed.

(** A claimable balance that the network created and the call lost. *)
Example claimable_lost :
  let r := ex_claim num_zero (mk_claim (num_of_Z 10) "XLM" [addr "B"] None "text" None [] (Some (addr "A")) None None "user")
             (ex_e "tx-1" "h1") ex_s0 in
  r.1 = Throw (ValidationError_with (code_ref "INVALID_REQUEST")) ∧ length (payments r.2) = 1%nat.
Proof. by vm_compute. Qed.

End DonationRecord.
