(* ===== verification/MockStellar.v ===== *)
(** * The simulated network ([src/src/services/MockStellarService.js],
      [src/src/services/mock/payments.js])

    Wallets with balances as texts of seven decimals, simulated failures, the
    limit of requests, transfers, donations, payments, path payments and the
    history.  A wallet is named by its public key: two names of one wallet are
    one entry of the map.  The drawn numbers, the random keys and identifiers
    are parameters; delays, ledger numbers, listeners, times of confirmation and
    logs are left out.  Amounts are texts, as the routes pass them. *)

From Stdlib Require Import Ascii.
From S2P Require Import Prelude JsString JsNumber JsMap Errors Money JsRound.
From S2P Require Import Transaction Assets Memos.
Local Open Scope Z_scope.

Module MockStellar.
Import Assets.

(** ** State *)

Record trustline := mk_trustline { tl_asset : asset; tl_balance : string; tl_limit : string }.
Record wallet := mk_wallet {
  publicKey : string;
  secretKey : option string;
  balance : string;
  assetBalances : option (list (string * string));
  sequence : option string;
  sponsoredBy : option string;             (* [None]: not sponsored *)
  mergedInto : option string;
  inflationDestination : option string;
  homeDomain : option string;
  dataEntries : list (string * string);
  w_trustlines : list (string * trustline);
}.

Record tx := mk_tx {
  t_hash : option string;
  transactionId : option string;
  t_kind : string;                          (* the type; a payment has none *)
  source : string;
  destination : string;
  t_amount : string;
  t_asset : asset;
  destinationAmount : option string;
  t_memo : string;
  t_status : string;
  t_sequence : option string;
}.

(** [failureSimulation] *)
Record simulation := mk_sim {
  enabled : bool;
  sim_type : option string;
  probability : num;
  consecutiveFailures : Z;
  maxConsecutiveFailures : Z;
}.

(** A balance anyone of the claimants may take once. *)
Record predicate := mk_predicate { notBefore : Z; notAfter : Z }.
Record claimable := mk_claimable {
  c_amount : string;
  claimants : list (string * option predicate);
  sponsor : string;
  claimedBy : option string;
}.
Record offer := mk_offer { seller : string; selling : string; buying : string; o_amount : string; o_price : string; o_status : string }.
Record trust := mk_trust { tr_account : string; tr_code : string; tr_issuer : string; tr_limit : string }.
Record sponsorship := mk_sponsorship { by_ : string; revoked : bool }.

Record st := mk_st {
  wallets : list (string * wallet);
  transactions : list (string * list tx);
  requestTimestamps : list Z;
  sim : simulation;
  mockSystemTime : option Z;
  submitFails : bool;
  claimableBalances : list (string * claimable);
  offers : list (Z * offer);
  offerCounter : Z;
  trustlines : list (string * trust);
  holdings : list (string * list (string * string));   (* [assetBalances] of the service *)
  sponsorships : list (string * sponsorship);
  drawn : nat;
}.
Definition set_wallets x (s : st) : st := mk_st x (transactions s) (requestTimestamps s) (sim s) (mockSystemTime s) (submitFails s)
  (claimableBalances s) (offers s) (offerCounter s) (trustlines s) (holdings s) (sponsorships s) (drawn s).
Definition set_transactions x (s : st) : st := mk_st (wallets s) x (requestTimestamps s) (sim s) (mockSystemTime s) (submitFails s)
  (claimableBalances s) (offers s) (offerCounter s) (trustlines s) (holdings s) (sponsorships s) (drawn s).
Definition set_timestamps x (s : st) : st := mk_st (wallets s) (transactions s) x (sim s) (mockSystemTime s) (submitFails s)
  (claimableBalances s) (offers s) (offerCounter s) (trustlines s) (holdings s) (sponsorships s) (drawn s).
Definition set_sim x (s : st) : st := mk_st (wallets s) (transactions s) (requestTimestamps s) x (mockSystemTime s) (submitFails s)
  (claimableBalances s) (offers s) (offerCounter s) (trustlines s) (holdings s) (sponsorships s) (drawn s).
Definition set_submitFails x (s : st) : st := mk_st (wallets s) (transactions s) (requestTimestamps s) (sim s) (mockSystemTime s) x
  (claimableBalances s) (offers s) (offerCounter s) (trustlines s) (holdings s) (sponsorships s) (drawn s).
Definition set_claimable x (s : st) : st := mk_st (wallets s) (transactions s) (requestTimestamps s) (sim s) (mockSystemTime s) (submitFails s)
  x (offers s) (offerCounter s) (trustlines s) (holdings s) (sponsorships s) (drawn s).
Definition set_offers x n (s : st) : st := mk_st (wallets s) (transactions s) (requestTimestamps s) (sim s) (mockSystemTime s) (submitFails s)
  (claimableBalances s) x n (trustlines s) (holdings s) (sponsorships s) (drawn s).
Definition set_trustlines x (s : st) : st := mk_st (wallets s) (transactions s) (requestTimestamps s) (sim s) (mockSystemTime s) (submitFails s)
  (claimableBalances s) (offers s) (offerCounter s) x (holdings s) (sponsorships s) (drawn s).
Definition set_holdings x (s : st) : st := mk_st (wallets s) (transactions s) (requestTimestamps s) (sim s) (mockSystemTime s) (submitFails s)
  (claimableBalances s) (offers s) (offerCounter s) (trustlines s) x (sponsorships s) (drawn s).
Definition set_sponsorships x (s : st) : st := mk_st (wallets s) (transactions s) (requestTimestamps s) (sim s) (mockSystemTime s) (submitFails s)
  (claimableBalances s) (offers s) (offerCounter s) (trustlines s) (holdings s) x (drawn s).
Definition tick (s : st) : st := mk_st (wallets s) (transactions s) (requestTimestamps s) (sim s) (mockSystemTime s) (submitFails s)
  (claimableBalances s) (offers s) (offerCounter s) (trustlines s) (holdings s) (sponsorships s) (S (drawn s)).

(** Errors, with the details a caller reads. *)
Record error := mk_error { cause : jserror; retryable : bool; retryAfter : Z }.
Definition M := stx error st.

Definition fail (e : jserror) {A} : M A := throw (mk_error e false 0).
Definition transaction_failed : jserror := BusinessLogicError (code_ref "TRANSACTION_FAILED").
Definition insufficient_balance : jserror := BusinessLogicError (code_ref "INSUFFICIENT_BALANCE").
Definition wallet_not_found : jserror := NotFoundError_with (code_ref "WALLET_NOT_FOUND").

Record config := mk_config {
  failureRate : num;
  rateLimit : option Z;
  minAccountBalance : string;
  baseReserve : string;
  strictValidation : bool;
  pathRates : list (string * num);
}.
Definition default_config : config := mk_config num_zero None "1.0000000" "1.0000000" true [].
Definition default_sim : simulation := mk_sim false None num_zero 0 0.
Definition empty : st := mk_st [] [] [] default_sim None false [] [] 0 [] [] [] 0.

(** ** Failures *)

Definition enableFailureSimulation (type : string) (p : num) : M () :=
  modify_st (λ s, set_sim (mk_sim true (Some type) p 0 (maxConsecutiveFailures (sim s))) s).
Definition disableFailureSimulation : M () :=
  modify_st (λ s, set_sim (mk_sim false None num_zero 0 (maxConsecutiveFailures (sim s))) s).
Definition setMaxConsecutiveFailures (max : Z) : M () :=
  modify_st (λ s, set_sim (mk_sim (enabled (sim s)) (sim_type (sim s)) (probability (sim s)) (consecutiveFailures (sim s)) max) s).

(** Which failures may be tried again, and when. *)
Definition simulated (type : option string) : error :=
  let go r t := mk_error transaction_failed r t in
  match type with
  | Some t =>
      if bool_decide (t = "timeout") then go true 5000
      else if bool_decide (t = "network_error") then go true 3000
      else if bool_decide (t = "service_unavailable") then go true 10000
      else if bool_decide (t = "bad_sequence") then go true 1000
      else if bool_decide (t = "tx_failed") then go true 2000
      else if bool_decide (t = "tx_insufficient_fee") then go true 1000
      else if bool_decide (t = "connection_refused") then go true 5000
      else if bool_decide (t = "rate_limit_horizon") then go true 60000
      else if bool_decide (t = "partial_response") then go true 2000
      else if bool_decide (t = "ledger_closed") then go true 5000
      else if bool_decide (t ∈ ["fee_bump_failure"; "path_payment_failed"; "no_path"]) then go false 0
      else go true 3000
  | None => go true 3000
  end.

Definition count_failures (n : Z) (on : bool) (s : st) : st :=
  set_sim (mk_sim on (sim_type (sim s)) (probability (sim s)) n (maxConsecutiveFailures (sim s))) s.

Definition _isRetryableError (e : error) : bool := retryable e.

(** The attempts after the first. *)
Fixpoint retry_loop {A} (n : nat) (op : M A) : M A :=
  match n with
  | O => op
  | S n => try_catch op (λ e, if _isRetryableError e then retry_loop n op else throw e)
  end.
Definition _executeWithRetry {A} (op : M A) : M A :=
  s ← get_st; retry_loop (Z.to_nat (maxConsecutiveFailures (sim s))) op.

Section network.
Context (cfg : config) (random : nat → num) (hex : nat → string) (fresh_keypair : nat → string * string) (key_of_hash : string → string).

Definition draw : M num := s ← get_st; modify_st tick;; mret (random (drawn s)).
Definition fresh : M string := s ← get_st; modify_st tick;; mret (hex (drawn s)).
Definition _generateKeypair : M (string * string) := s ← get_st; modify_st tick;; mret (fresh_keypair (drawn s)).

Definition _simulateFailure : M () :=
  s ← get_st;
  if negb (enabled (sim s)) then mret ()
  else
    r ← draw;
    if num_gtb r (probability (sim s)) then modify_st (count_failures 0 true)
    else if (0 <? maxConsecutiveFailures (sim s)) && (maxConsecutiveFailures (sim s) <=? consecutiveFailures (sim s)) then
      modify_st (count_failures 0 false)
    else
      modify_st (count_failures (consecutiveFailures (sim s) + 1) true);;
      throw (simulated (sim_type (sim s))).

Definition _checkRateLimit (now : Z) : M () :=
  match rateLimit cfg with
  | None => mret ()
  | Some limit =>
      if limit =? 0 then mret ()
      else
        modify_st (λ s, set_timestamps (filter (λ t, now - 1000 < t) (requestTimestamps s)) s);;
        s ← get_st;
        if limit <=? Z.of_nat (length (requestTimestamps s)) then throw (mk_error transaction_failed false 1000)
        else modify_st (λ s, set_timestamps (requestTimestamps s ++ [now]) s)
  end.

Definition _simulateRandomFailure : M () :=
  if num_gtb (failureRate cfg) num_zero then
    r ← draw;
    if num_ltb r (failureRate cfg) then draw;; fail transaction_failed else mret ()
  else mret ().

(** ** Validation *)

(** [/[A-Z2-7]/] *)
Definition base32 (c : ascii) : bool :=
  ((65 <=? char_code c) && (char_code c <=? 90)) || ((50 <=? char_code c) && (char_code c <=? 55)).
Definition key_format (prefix : ascii) (k : string) : bool :=
  match k with String c t => Ascii.eqb c prefix && (String.length t =? 55)%nat && str_forall base32 t | EmptyString => false end.
Definition isValidAddress (k : string) : bool := key_format "G" k.
Definition _validatePublicKey (k : string) : M () :=
  if strictValidation cfg && negb (key_format "G" k) then fail ValidationError else mret ().
Definition _validateSecretKey (k : string) : M () :=
  if strictValidation cfg && negb (key_format "S" k) then fail ValidationError else mret ().

Definition maxAllowedAmount : num := num_of_string "922337203685.4775807".
Definition _validateAmount (amount : string) : M () :=
  if negb (strictValidation cfg) then mret ()
  else
    let amountNum := parse_float amount in
    if num_is_nan amountNum then fail ValidationError
    else if num_leb amountNum num_zero then fail ValidationError
    else if num_gtb amountNum maxAllowedAmount then fail ValidationError
    else
      match split_on "." amount !! 1%nat with
      | Some d => if (7 <? String.length d)%nat then fail ValidationError else mret ()
      | None => mret ()
      end.

(** ** Wallets *)

Definition zero_text : string := "0.0000000".
(** [x || '0'] on a value that may be missing *)
Definition or_text (d : string) (x : option string) : string := default d (Transaction.truthy_str x).

Definition ensured (w : wallet) : wallet :=
  let ab := match assetBalances w with
            | None => [("native", or_text zero_text (Some (balance w)))]
            | Some ab => match map_get ab "native" with
                         | None => map_set ab "native" (or_text zero_text (Some (balance w)))
                         | Some _ => ab
                         end
            end in
  mk_wallet (publicKey w) (secretKey w) (default "" (map_get ab "native")) (Some ab) (sequence w) (sponsoredBy w) (mergedInto w)
    (inflationDestination w) (homeDomain w) (dataEntries w) (w_trustlines w).
Definition with_balance (x : string) (w : wallet) : wallet :=
  mk_wallet (publicKey w) (secretKey w) x (assetBalances w) (sequence w) (sponsoredBy w) (mergedInto w)
    (inflationDestination w) (homeDomain w) (dataEntries w) (w_trustlines w).
Definition with_sequence (x : string) (w : wallet) : wallet :=
  mk_wallet (publicKey w) (secretKey w) (balance w) (assetBalances w) (Some x) (sponsoredBy w) (mergedInto w)
    (inflationDestination w) (homeDomain w) (dataEntries w) (w_trustlines w).
Definition with_asset (k x : string) (w : wallet) : wallet :=
  let w := ensured w in
  let ab := map_set (default [] (assetBalances w)) k x in
  mk_wallet (publicKey w) (secretKey w) (default "" (map_get ab "native")) (Some ab) (sequence w) (sponsoredBy w) (mergedInto w)
    (inflationDestination w) (homeDomain w) (dataEntries w) (w_trustlines w).

Definition update_wallet (k : string) (f : wallet → wallet) (s : st) : st :=
  match map_get (wallets s) k with Some w => set_wallets (map_set (wallets s) k (f w)) s | None => s end.
Definition get_wallet (k : string) : M (option wallet) := s ← get_st; mret (map_get (wallets s) k).

Definition _ensureAssetBalances (k : string) : M () := modify_st (update_wallet k ensured).
(** What [wallet.assetBalances[key]] holds, a missing or empty one being zero. *)
Definition held (w : wallet) (asset_key : string) : num :=
  parse_float (or_text "0" (assetBalances w ≫= λ ab, map_get ab asset_key)).
Definition _getWalletAssetBalance (k : string) (a : asset) : M num :=
  _ensureAssetBalances k;;
  w ← get_wallet k;
  mret (match w with Some w => held w (getAssetKey a) | None => num_nan end).
Definition _setWalletAssetBalance (k : string) (a : asset) (amount : num) : M () :=
  modify_st (update_wallet k (with_asset (getAssetKey a) (num_to_fixed 7 amount))).

Definition _getConversionRate (sourceAsset destAsset : asset) : num :=
  if isSameAsset sourceAsset destAsset then num_of_Z 1
  else match map_get (pathRates cfg) (getAssetKey sourceAsset +:+ "->" +:+ getAssetKey destAsset)%stdpp with
       | Some r => r
       | None =>
           if bool_decide (a_type destAsset = "native") then num_of_string "0.8"
           else if bool_decide (a_type sourceAsset = "native") then num_of_string "1.2"
           else num_of_string "0.65"
       end.

Definition has_secret (secret : string) (e : string * wallet) : bool := bool_decide (secretKey e.2 = Some secret).
Definition _findWalletBySecret (secret : string) : M (option wallet) :=
  s ← get_st; mret (snd <$> find_first (has_secret secret) (wallets s)).
(** A secret of no wallet has the key of its hash. *)
Definition _secretToPublic (secret : string) : M string :=
  w ← _findWalletBySecret secret; mret (match w with Some w => publicKey w | None => key_of_hash secret end).

Definition _ensureDestinationFunded (w : wallet) : M () :=
  if num_ltb (parse_float (balance w)) (parse_float (minAccountBalance cfg)) then fail transaction_failed else mret ().

Definition _applyAssetTransfer (sourceKey destKey : string) (a : asset) (amountNum : num) : M () :=
  sourceBalance ← _getWalletAssetBalance sourceKey a;
  destBalance ← _getWalletAssetBalance destKey a;
  (if bool_decide (a_type a = "native") then
     if num_ltb (num_sub sourceBalance amountNum) (parse_float (baseReserve cfg)) then fail transaction_failed else mret ()
   else if num_ltb sourceBalance amountNum then fail insufficient_balance else mret ());;
  _setWalletAssetBalance sourceKey a (num_sub sourceBalance amountNum);;
  _setWalletAssetBalance destKey a (num_add destBalance amountNum).

Definition push_tx (k : string) (t : tx) (l : list (string * list tx)) : list (string * list tx) :=
  map_set l k (default [] (map_get l k) ++ [t]).
Definition _storeTransaction (t : tx) : M tx :=
  modify_st (λ s, set_transactions (push_tx (destination t) t (push_tx (source t) t
    (let l := transactions s in
     let l := match map_get l (source t) with None => map_set l (source t) [] | Some _ => l end in
     match map_get l (destination t) with None => map_set l (destination t) [] | Some _ => l end))) s);;
  mret t.

Definition getCurrentSystemTime (now : Z) : M Z :=
  s ← get_st; mret (match mockSystemTime s with Some t => t | None => now / 1000 end).

(** [(parseInt(w.sequence, 10) + 1).toString()] *)
Definition next_sequence (x : option string) : string :=
  match x ≫= parse_int with Some z => num_to_string (num_add (num_of_Z z) (num_of_Z 1)) | None => "NaN" end.

(** ** Payments *)

Definition submitTransaction (hash src : option string) (operation : option (string * string * asset)) : M string :=
  s ← get_st;
  if submitFails s then modify_st (set_submitFails false);; fail transaction_failed
  else
    h ← (match Transaction.truthy_str hash with Some h => mret h | None => x ← fresh; mret ("mock_submitted_" +:+ x)%stdpp end);
    (match Transaction.truthy_str src with
     | None => mret ()
     | Some src =>
         let '(dest, amount, a) := default ("unknown", "0", native) operation in
         _storeTransaction (mk_tx (Some h) (Some h) "" src (or_text "unknown" (Some dest)) (or_text "0" (Some amount)) a None "" "confirmed" None);; mret ()
     end);;
    mret h.

Record donation := mk_donation {
  d_secret : string;
  d_destination : string;
  d_amount : string;
  d_memo : option string;
  d_memoType : string;
  d_asset : asset;
  validAfter : Z;
  validBefore : Z;
}.

Definition time_bounds (d : donation) (currentTime : Z) : M () :=
  if negb (validAfter d =? 0) && negb (validBefore d =? 0) && (validBefore d <=? validAfter d) then fail ValidationError
  else if negb (validAfter d =? 0) && (currentTime <? validAfter d) then fail transaction_failed
  else if negb (validBefore d =? 0) && (validBefore d <? currentTime) then fail transaction_failed
  else mret ().

Definition trust_key (a : asset) : string := (code a +:+ ":" +:+ default "null" (issuer a))%stdpp.

Definition donate_once (now : Z) (d : donation) : M string :=
  _checkRateLimit now;;
  _validateSecretKey (d_secret d);;
  _validatePublicKey (d_destination d);;
  _validateAmount (d_amount d);;
  _simulateFailure;;
  _simulateRandomFailure;;
  currentTime ← getCurrentSystemTime now;
  time_bounds d currentTime;;
  (match Transaction.truthy_str (d_memo d) with
   | Some memo => match Memos.validateWithType (Some memo) (d_memoType d) with Memos.Valid _ => mret () | Memos.Invalid _ => fail ValidationError end
   | None => mret ()
   end);;
  sourceWallet ← _findWalletBySecret (d_secret d);
  match sourceWallet with
  | None => fail ValidationError
  | Some sw =>
      if bool_decide (publicKey sw = d_destination d) then fail ValidationError
      else
        destWallet ← get_wallet (d_destination d);
        match destWallet with
        | None => fail wallet_not_found
        | Some dw =>
            _ensureDestinationFunded dw;;
            (if bool_decide (a_type (d_asset d) ≠ "native") && negb (map_has (w_trustlines dw) (trust_key (d_asset d))) then fail ValidationError
             else mret ());;
            _applyAssetTransfer (publicKey sw) (d_destination d) (d_asset d) (parse_float (d_amount d));;
            modify_st (update_wallet (publicKey sw) (λ w, with_sequence (next_sequence (sequence w)) w));;
            w ← get_wallet (publicKey sw);
            x ← fresh;
            t ← _storeTransaction (mk_tx None (Some ("mock_" +:+ x)%stdpp) "" (publicKey sw) (d_destination d)
              (num_to_fixed 7 (num_of_string (d_amount d))) (d_asset d) None (or_text "" (d_memo d)) "confirmed" (w ≫= sequence));
            mret (default "" (transactionId t))
        end
  end.
Definition sendDonation (now : Z) (d : donation) : M string := _executeWithRetry (donate_once now d).

(** The result is that of the last donation; an empty batch has none. *)
Fixpoint send_each (now : Z) (l : list donation) (last : option string) : M (option string) :=
  match l with
  | [] => mret last
  | d :: l => r ← sendDonation now d; send_each now l (Some r)
  end.
Definition plain_donation (secret : string) (p : string * string * option string) : donation :=
  mk_donation secret p.1.1 p.1.2 p.2 "text" native 0 0.
Definition sendBatchDonations (now : Z) (secret : string) (payments : list (string * string * option string)) : M string :=
  r ← send_each now (plain_donation secret <$> payments) None;
  match r with Some t => mret t | None => fail (EType "Cannot read properties of undefined (reading 'transactionId')") end.

Definition new_wallet (k secret funds : string) : wallet :=
  mk_wallet k (Some secret) funds (Some [("native", funds)]) (Some "0") None None None None [] [].
(** An account that is not known is made, with money. *)
Definition ensure_wallet (k funds : string) : M () :=
  w ← get_wallet k;
  match w with
  | Some _ => mret ()
  | None => kp ← _generateKeypair; modify_st (λ s, set_wallets (map_set (wallets s) k (new_wallet k kp.2 funds)) s)
  end.
Definition payment_once (now : Z) (src dest amount memo : string) : M string :=
  _checkRateLimit now;;
  _validatePublicKey src;;
  _validatePublicKey dest;;
  _validateAmount amount;;
  _simulateFailure;;
  _simulateRandomFailure;;
  ensure_wallet src "10000.0000000";;
  ensure_wallet dest "1.0000000";;
  _applyAssetTransfer src dest native (parse_float amount);;
  modify_st (update_wallet src (λ w, with_sequence (next_sequence (sequence w)) w));;
  w ← get_wallet src;
  x ← fresh;
  t ← _storeTransaction (mk_tx (Some ("mock_" +:+ x)%stdpp) None "" src dest (num_to_fixed 7 (num_of_string amount)) native None memo "confirmed" (w ≫= sequence));
  mret (default "" (t_hash t)).
Definition sendPayment (now : Z) (src dest amount memo : string) : M string := _executeWithRetry (payment_once now src dest amount memo).

(** ** Paths *)

Record route := mk_route { sourceAmount : string; destAmount : string; conversionRate : string; path : list asset }.

Definition route_of (sourceAsset : asset) (src : option string) (destAsset : asset) (dst : option string) : option route :=
  let rate := _getConversionRate sourceAsset destAsset in
  if negb (num_truthy rate) || negb (num_is_finite rate) then None
  else
    let amount (x : option string) := match x with Some x => parse_float x | None => num_nan end in
    let sourceAmount := match Transaction.truthy_str src with Some x => x | None => num_to_fixed 7 (num_div (amount dst) rate) end in
    let destAmount := match Transaction.truthy_str dst with Some x => x | None => num_to_fixed 7 (num_mul (amount src) rate) end in
    Some (mk_route sourceAmount destAmount (num_to_fixed 7 (num_div (parse_float destAmount) (parse_float sourceAmount)))
      (if bool_decide (a_type sourceAsset ≠ "native" ∧ a_type destAsset ≠ "native") then [native] else [])).

Definition discoverBestPath (now : Z) (sourceAsset : asset) (src : option string) (destAsset : asset) (dst : option string) : M (option route) :=
  _executeWithRetry (
    _checkRateLimit now;;
    s ← get_st;
    if enabled (sim s) && bool_decide (sim_type (sim s) = Some "no_path") then mret None
    else mret (route_of sourceAsset src destAsset dst)).

Definition path_once (now : Z) (sourceAsset : asset) (srcAmount : string) (destAsset : asset) (dstAmount : string) (submitted : list asset)
    (secret dest memo : string) : M string :=
  _checkRateLimit now;;
  _simulateFailure;;
  s ← get_st;
  if enabled (sim s) && bool_decide (sim_type (sim s) = Some "path_payment_failed") then fail transaction_failed
  else
    estimate ← discoverBestPath now sourceAsset (Some srcAmount) destAsset (Some dstAmount);
    match estimate with
    | None => fail transaction_failed
    | Some estimate =>
        if bool_decide (submitted ≠ path estimate) then fail ValidationError
        else
          sourceWallet ← _findWalletBySecret secret;
          match sourceWallet with
          | None => fail ValidationError
          | Some sw =>
              destWallet ← get_wallet dest;
              match destWallet with
              | None => fail wallet_not_found
              | Some dw =>
                  _ensureDestinationFunded dw;;
                  sourceBalance ← _getWalletAssetBalance (publicKey sw) sourceAsset;
                  let a := parse_float srcAmount in
                  (if bool_decide (a_type sourceAsset = "native") then
                     if num_ltb (num_sub sourceBalance a) (parse_float (baseReserve cfg)) then fail transaction_failed else mret ()
                   else if num_ltb sourceBalance a then fail insufficient_balance else mret ());;
                  _setWalletAssetBalance (publicKey sw) sourceAsset (num_sub sourceBalance a);;
                  destBalance ← _getWalletAssetBalance dest destAsset;
                  _setWalletAssetBalance dest destAsset (num_add destBalance (parse_float dstAmount));;
                  modify_st (update_wallet (publicKey sw) (λ w, with_sequence (next_sequence (sequence w)) w));;
                  w ← get_wallet (publicKey sw);
                  x ← fresh;
                  t ← _storeTransaction (mk_tx None (Some ("mock_" +:+ x)%stdpp) "" (publicKey sw) dest (num_to_fixed 7 (num_of_string srcAmount))
                    sourceAsset (Some (num_to_fixed 7 (num_of_string dstAmount))) memo "confirmed" (w ≫= sequence));
                  mret (default "" (transactionId t))
              end
          end
    end.
Definition pathPayment (now : Z) sourceAsset srcAmount destAsset dstAmount submitted secret dest memo : M string :=
  _executeWithRetry (path_once now sourceAsset srcAmount destAsset dstAmount submitted secret dest memo).

(** The result: the transaction, and the amounts that are reported. *)
Definition pathPaymentStrictSend (now : Z) (secret : string) (sendAsset : asset) (sendAmount dest : string) (destAsset : asset) (minDestAmount memo : string)
    : M (string * string * string) :=
  _executeWithRetry (
    _checkRateLimit now;;
    _simulateFailure;;
    r ← discoverBestPath now sendAsset (Some sendAmount) destAsset None;
    match r with
    | None => fail transaction_failed
    | Some r =>
        if num_ltb (parse_float (destAmount r)) (parse_float minDestAmount) then fail transaction_failed
        else t ← pathPayment now sendAsset sendAmount destAsset minDestAmount (path r) secret dest memo; mret (t, sendAmount, destAmount r)
    end).
Definition pathPaymentStrictReceive (now : Z) (secret : string) (sendAsset : asset) (maxSendAmount dest : string) (destAsset : asset) (dstAmount memo : string)
    : M (string * string * string) :=
  _executeWithRetry (
    _checkRateLimit now;;
    _simulateFailure;;
    r ← discoverBestPath now sendAsset None destAsset (Some dstAmount);
    match r with
    | None => fail transaction_failed
    | Some r =>
        if num_gtb (parse_float (sourceAmount r)) (parse_float maxSendAmount) then fail transaction_failed
        else t ← pathPayment now sendAsset (sourceAmount r) destAsset dstAmount (path r) secret dest memo; mret (t, sourceAmount r, dstAmount)
    end).

(** The asset a key of [assetBalances] names. *)
Definition asset_of_key (k : string) : asset :=
  if bool_decide (k = "native") then native
  else match split_on ":" k with c :: i :: _ => mk_asset "credit_alphanum" c (Some i) | _ => mk_asset "credit_alphanum" k None end.
Fixpoint routes_from (now : Z) (keys : list string) (destAsset : asset) (dst : string) : M (list route) :=
  match keys with
  | [] => mret []
  | k :: keys =>
      if isSameAsset (asset_of_key k) destAsset then routes_from now keys destAsset dst
      else r ← discoverBestPath now (asset_of_key k) None destAsset (Some dst);
           l ← routes_from now keys destAsset dst;
           mret (match r with Some r => r :: l | None => l end)
  end.
Definition findPaymentPaths (now : Z) (src : string) (destAsset : asset) (dst : string) : M (list route) :=
  _executeWithRetry (
    _checkRateLimit now;;
    _validatePublicKey src;;
    s ← get_st;
    if enabled (sim s) && bool_decide (sim_type (sim s) = Some "no_path") then mret []
    else
      w ← get_wallet src;
      match w with
      | None => fail wallet_not_found
      | Some _ =>
          _ensureAssetBalances src;;
          w ← get_wallet src;
          routes_from now (match w with Some w => (default [] (assetBalances w)).*1 | None => [] end) destAsset dst
      end).

(** ** History *)

(** The last [limit] transactions, the latest first; [slice(-limit)]. *)
Definition getTransactionHistory (now : Z) (k : string) (limit : nat) : M (list tx) :=
  _checkRateLimit now;;
  _validatePublicKey k;;
  w ← get_wallet k;
  match w with
  | None => fail wallet_not_found
  | Some _ =>
      s ← get_st;
      let l := default [] (map_get (transactions s) k) in
      mret (reverse (drop (match limit with O => O | _ => length l - limit end) l))
  end.

Definition named (h : string) (t : tx) : bool := bool_decide (transactionId t = Some h) || bool_decide (t_hash t = Some h).
Fixpoint find_tx (h : string) (l : list (string * list tx)) : option tx :=
  match l with
  | [] => None
  | (_, ts) :: l => match find_first (named h) ts with Some t => Some t | None => find_tx h l end
  end.
Definition getTransaction (h : string) : M tx :=
  if is_empty h then fail ValidationError
  else s ← get_st; match find_tx h (transactions s) with Some t => mret t | None => fail (NotFoundError_with (code_ref "TRANSACTION_NOT_FOUND")) end.
Definition verifyTransaction (now : Z) (h : string) : M tx := _checkRateLimit now;; getTransaction h.

Definition stroopsToXlm (stroops : num) : M string :=
  if num_is_nan stroops then fail ValidationError else mret (num_to_fixed 7 (num_div stroops (num_of_Z 10000000))).
Definition xlmToStroops (xlm : string) : M num :=
  let n := num_of_string xlm in
  if num_is_nan n then fail ValidationError else mret (num_round (num_mul n (num_of_Z 10000000))).

(** ** What leaves a part of the state alone *)

(** A part that the checks before an operation do not touch. *)
Definition stable {X} (g : st → X) : Prop :=
  (∀ s x, g (set_timestamps x s) = g s) ∧ (∀ s x, g (set_sim x s) = g s) ∧ ∀ s, g (tick s) = g s.
Definition keeps {X} (g : st → X) {A} (m : M A) : Prop := ∀ s, g (m s).2 = g s.

Section keeps.
Context {X : Type} (g : st → X).
Lemma keeps_ret {A} (a : A) : keeps g (mret a). Proof. done. Qed.
Lemma keeps_throw {A} e : keeps g (throw e : M A). Proof. done. Qed.
Lemma keeps_get : keeps g get_st. Proof. done. Qed.
Lemma keeps_modify f : (∀ s, g (f s) = g s) → keeps g (modify_st f). Proof. intros Hf s. apply Hf. Qed.
Lemma keeps_bind {A B} (m : M A) (f : A → M B) : keeps g m → (∀ a, keeps g (f a)) → keeps g (m ≫= f).
Proof.
  intros Hm Hf s. unfold mbind, stx_bind. specialize (Hm s). destruct (m s) as [[a|e] s1]; cbn in Hm |- *; [|done].
  by rewrite (Hf a s1).
Qed.
Lemma keeps_if {A} (b : bool) (m n : M A) : keeps g m → keeps g n → keeps g (if b then m else n).
Proof. by destruct b. Qed.

(** A call that keeps the part, and what follows it. *)
Lemma after {A B} (m : M A) (f : A → M B) s (P : outcome error B * st → Prop) : keeps g m →
  (∀ e s', g s' = g s → P (Throw e, s')) → (∀ a s', g s' = g s → P (f a s')) → P ((m ≫= f) s).
Proof.
  intros Hm He Hf. unfold mbind, stx_bind. specialize (Hm s). destruct (m s) as [[a|e] s1]; cbn in Hm; auto.
Qed.

Context (Hg : stable g).
Lemma keeps_draw : keeps g draw. Proof. intros s. apply Hg. Qed.
Lemma keeps_fresh : keeps g fresh. Proof. intros s. apply Hg. Qed.
Lemma keeps_keypair : keeps g _generateKeypair. Proof. intros s. apply Hg. Qed.
Lemma keeps_rate now : keeps g (_checkRateLimit now).
Proof.
  destruct Hg as (Ht & _). unfold _checkRateLimit. destruct (rateLimit cfg) as [l|]; [|apply keeps_ret]. destruct (l =? 0); [apply keeps_ret|].
  apply keeps_bind; [apply keeps_modify; intros; apply Ht|]. intros _. apply keeps_bind; [done|]. intros s. case_match; [done|apply keeps_modify; intros; apply Ht].
Qed.
Lemma keeps_failure : keeps g _simulateFailure.
Proof.
  destruct Hg as (_ & Hsim & _). unfold _simulateFailure. apply keeps_bind; [done|]. intros s. case_match; [done|]. apply keeps_bind; [apply keeps_draw|]. intros r.
  destruct (num_gtb _ _); [apply keeps_modify; intros; apply Hsim|]. destruct (_ && _); [apply keeps_modify; intros; apply Hsim|].
  apply keeps_bind; [apply keeps_modify; intros; apply Hsim|done].
Qed.
Lemma keeps_random : keeps g _simulateRandomFailure.
Proof.
  unfold _simulateRandomFailure. case_match; [|done]. apply keeps_bind; [apply keeps_draw|]. intros r. case_match; [|done].
  by apply keeps_bind; [apply keeps_draw|].
Qed.
Lemma keeps_public k : keeps g (_validatePublicKey k). Proof. unfold _validatePublicKey. by case_match. Qed.
Lemma keeps_secret k : keeps g (_validateSecretKey k). Proof. unfold _validateSecretKey. by case_match. Qed.
Lemma keeps_amount a : keeps g (_validateAmount a).
Proof.
  unfold _validateAmount. cbv zeta. repeat (apply keeps_if; [apply keeps_ret || apply keeps_throw|]).
  destruct (_ !! _); [|apply keeps_ret]. apply keeps_if; [apply keeps_throw|apply keeps_ret].
Qed.
Lemma keeps_time now : keeps g (getCurrentSystemTime now). Proof. done. Qed.
Lemma keeps_bounds d t : keeps g (time_bounds d t). Proof. unfold time_bounds. by repeat case_match. Qed.
Lemma keeps_funded w : keeps g (_ensureDestinationFunded w). Proof. unfold _ensureDestinationFunded. by case_match. Qed.
Lemma keeps_public_key k : keeps g (_secretToPublic k). Proof. done. Qed.
End keeps.

Lemma stable_wallets : stable wallets. Proof. done. Qed.

Create HintDb keeps.
Hint Resolve stable_wallets keeps_ret keeps_throw keeps_get keeps_bind keeps_if keeps_draw keeps_fresh keeps_rate keeps_failure keeps_random keeps_public keeps_secret keeps_amount keeps_time keeps_bounds
  keeps_funded : keeps.

(** ** Balances in stroops *)

(** The wallet holds [n] stroops of XLM. *)
Definition holds (n : Z) (w : wallet) : Prop := map_get (default [] (assetBalances (ensured w))) "native" = Some (fixed_digits 7 n).

(** [b] lists the balances of the wallets. *)
Definition ledger (m : list (string * wallet)) (b : list (string * Z)) : Prop :=
  NoDup m.*1 ∧ Forall2 (λ e f, f.1 = e.1 ∧ publicKey e.2 = e.1 ∧ 0 <= f.2 ∧ holds f.2 e.2) m b.
Fixpoint total (b : list (string * Z)) : Z := match b with [] => 0 | e :: b => e.2 + total b end.

Lemma ledger_keys m b : ledger m b → m.*1 = b.*1.
Proof. intros [_ H]. induction H as [|e f m b (He & _) _ IH]; [done|]. cbn. by rewrite IH, He. Qed.

Lemma ledger_get m b k w : ledger m b → map_get m k = Some w → ∃ n, map_get b k = Some n ∧ publicKey w = k ∧ 0 <= n ∧ holds n w.
Proof.
  intros [_ H]. induction H as [|[k1 w1] [k2 n] m b (He & Hp & Hn & Hh) _ IH]; [done|]. cbn in *. subst k2.
  destruct (decide (k1 = k)) as [->|]; [intros [= <-]; by exists n|done].
Qed.

Lemma ledger_set m b k w n w' : ledger m b → map_get m k = Some w → publicKey w' = k → 0 <= n → holds n w' →
  ledger (map_set m k w') (map_set b k n).
Proof.
  intros [Hd H] Hw Hp Hn Hh. split; [by apply map_set_NoDup|]. clear Hd. revert Hw.
  induction H as [|[k1 w1] [k2 n2] m b (He & Hp1 & Hn1 & Hh1) Hr IH]; [done|]. cbn in He, Hp1, Hn1, Hh1 |- *. subst k2.
  destruct (decide (k1 = k)) as [->|]; intros Hw; constructor; try done. by apply IH.
Qed.

Lemma total_set b k n n0 : map_get b k = Some n0 → total (map_set b k n) = total b - n0 + n.
Proof.
  induction b as [|[k1 n1] b IH]; [done|]. cbn. destruct (decide (k1 = k)) as [->|]; cbn.
  - intros [= ->]. lia.
  - intros Hg. rewrite (IH Hg). lia.
Qed.

Lemma total_get m b k n : ledger m b → map_get b k = Some n → 0 <= n <= total b.
Proof.
  intros [_ H] Hg. assert (Hall : Forall (λ f : string * Z, 0 <= f.2) b) by (revert H; clear; induction 1 as [|e f m b (_ & _ & ? & _) _ IH]; [apply Forall_nil_2|by apply Forall_cons]).
  clear H. assert (H0 : ∀ l : list (string * Z), Forall (λ f : string * Z, 0 <= f.2) l → 0 <= total l) by (induction 1; cbn; lia).
  revert Hg. induction Hall as [|[k1 n1] l Hn Hall IH]; [done|]. cbn in Hn |- *. specialize (H0 l Hall).
  destruct (decide (k1 = k)); [intros [= ->]; lia|]. intros Hg. specialize (IH Hg). lia.
Qed.
(** ** A transfer *)

Lemma or_text_fixed d n : or_text d (Some (fixed_digits 7 n)) = fixed_digits 7 n.
Proof.
  unfold or_text, Transaction.truthy_str. assert (Hne : fixed_digits 7 n ≠ ""). { unfold fixed_digits. by destruct (str_take _ _). }
  by destruct (fixed_digits 7 n).
Qed.

Lemma held_native n w : holds n w → held (ensured w) "native" = parse_float (fixed_digits 7 n).
Proof.
  unfold holds, held. intros Hh. assert (He : assetBalances (ensured w) = Some (default [] (assetBalances (ensured w)))) by done.
  rewrite He. cbn [mbind option_bind]. by rewrite Hh, or_text_fixed.
Qed.

Lemma ensured_native w : ∃ t, map_get (default [] (assetBalances (ensured w))) "native" = Some t.
Proof.
  unfold ensured. cbn. destruct (assetBalances w) as [ab|]; cbn; [|by eexists]. destruct (map_get ab "native") eqn:Hn; [by eexists|].
  rewrite map_get_set_eq. by eexists.
Qed.

Lemma ensured_idem w : default [] (assetBalances (ensured (ensured w))) = default [] (assetBalances (ensured w)).
Proof.
  destruct (ensured_native w) as [t Ht]. unfold ensured at 1. cbn [assetBalances].
  assert (He : assetBalances (ensured w) = Some (default [] (assetBalances (ensured w)))) by done. rewrite He. cbn -[ensured].
  by rewrite Ht.
Qed.

Lemma ensured_with k x w : default [] (assetBalances (ensured (with_asset k x w))) = map_set (default [] (assetBalances (ensured w))) k x.
Proof.
  unfold with_asset. unfold ensured at 1. cbn -[ensured]. set (ab := default [] (assetBalances (ensured w))).
  destruct (ensured_native w) as [t Ht]. fold ab in Ht. rewrite map_get_set. case_decide as Hk; [done|]. by rewrite Ht.
Qed.

Lemma holds_ensured n w : holds n w → holds n (ensured w).
Proof. unfold holds. by rewrite ensured_idem. Qed.
Lemma holds_with n w : holds n (with_asset "native" (fixed_digits 7 n) w).
Proof. unfold holds. by rewrite ensured_with, map_get_set_eq. Qed.
Lemma holds_sequence n x w : holds n w → holds n (with_sequence x w).
Proof. done. Qed.

Lemma update_get k f s k' : map_get (wallets (update_wallet k f s)) k' =
  if decide (k = k') then f <$> map_get (wallets s) k else map_get (wallets s) k'.
Proof.
  unfold update_wallet. destruct (map_get (wallets s) k) as [w|] eqn:Hw; cbn.
  - rewrite map_get_set. by case_decide.
  - case_decide as Hk; [by rewrite <- Hk, Hw|done].
Qed.

Lemma map_set_id {V} (b : list (string * V)) k n : map_get b k = Some n → map_set b k n = b.
Proof.
  induction b as [|[k1 n1] b IH]; [done|]. cbn. destruct (decide (k1 = k)) as [->|]; [by intros [= ->]|]. intros Hg. by rewrite IH.
Qed.

Lemma ledger_update s b k f n : ledger (wallets s) b → map_get b k = Some n →
  (∀ w, publicKey (f w) = publicKey w) → (∀ w, holds n w → holds n (f w)) → ledger (wallets (update_wallet k f s)) b.
Proof.
  intros Hl Hb Hp Hh. unfold update_wallet. destruct (map_get (wallets s) k) as [w|] eqn:Hw; [|done]. cbn.
  destruct (ledger_get _ _ _ _ Hl Hw) as (n' & Hb' & Hk & Hn & Hw'). assert (n' = n) as -> by congruence.
  rewrite <- (map_set_id b k n Hb). eapply ledger_set; [done..| |done|]; [by rewrite Hp|by apply Hh].
Qed.

(** What a transfer does to the balances: nothing, or it moves [a] stroops. *)
Definition moved (b : list (string * Z)) (k1 k2 : string) (a : Z) : list (string * Z) :=
  match map_get b k1, map_get b k2 with
  | Some n1, Some n2 => map_set (map_set b k1 (n1 - a)) k2 (n2 + a)
  | _, _ => b
  end.

Lemma moved_total b k1 k2 a : k1 ≠ k2 → total (moved b k1 k2 a) = total b.
Proof.
  intros Hk. unfold moved. destruct (map_get b k1) as [n1|] eqn:H1; [|done]. destruct (map_get b k2) as [n2|] eqn:H2; [|done].
  rewrite (total_set _ k2 _ n2), (total_set _ k1 _ n1) by (rewrite ?map_get_set_ne by done; done). lia.
Qed.

Lemma transfer_exact k1 k2 x a r s b :
  k1 ≠ k2 → ledger (wallets s) b → is_Some (map_get (wallets s) k1) → is_Some (map_get (wallets s) k2) → total b < amount_limit →
  stroops_of 1 x a → 0 < a < amount_limit → stroops_of 1 (parse_float (baseReserve cfg)) r → 0 < r →
  let '(q, s') := _applyAssetTransfer k1 k2 native x s in
  match q with
  | Ret _ => ledger (wallets s') (moved b k1 k2 a) ∧ ∃ n1, map_get b k1 = Some n1 ∧ a + r <= n1
  | Throw e => e = mk_error transaction_failed false 0 ∧ ledger (wallets s') b ∧ ∃ n1, map_get b k1 = Some n1 ∧ n1 <= a + r
  end.
Proof.
  intros Hk Hl [w1 H1] [w2 H2] Htot Hx Ha Hr Hr0.
  destruct (ledger_get _ _ _ _ Hl H1) as (n1 & Hb1 & Hp1 & Hn1 & Hh1), (ledger_get _ _ _ _ Hl H2) as (n2 & Hb2 & Hp2 & Hn2 & Hh2).
  pose proof (total_get _ _ _ _ Hl Hb1) as Ht1. pose proof (total_get _ _ _ _ Hl Hb2) as Ht2.
  assert (Hsum : n1 + n2 <= total b).
  { assert (Hl1 : ledger (wallets (update_wallet k1 (with_asset "native" (fixed_digits 7 0)) s)) (map_set b k1 0)).
    { unfold update_wallet. rewrite H1. cbn -[with_asset fixed_digits]. eapply ledger_set; [done..|lia|apply holds_with]. }
    pose proof (total_get _ _ k2 n2 Hl1) as Hn. rewrite map_get_set_ne, (total_set _ _ _ n1) in Hn by done. specialize (Hn Hb2). lia. }
  unfold _applyAssetTransfer, _getWalletAssetBalance, _ensureAssetBalances, get_wallet, _setWalletAssetBalance.
  unfold mbind, mret, stx_bind, stx_ret, modify_st, get_st, fail, throw. cbv beta iota.
  change (getAssetKey native) with "native". change (a_type native) with "native". rewrite bool_decide_true by done. cbv beta iota.
  set (s1 := update_wallet k1 ensured s). set (s2 := update_wallet k2 ensured s1).
  assert (Hg1 : map_get (wallets s1) k1 = Some (ensured w1)) by (unfold s1; by rewrite update_get, decide_True, H1 by done).
  assert (Hg2 : map_get (wallets s2) k2 = Some (ensured w2)).
  { unfold s2, s1. rewrite update_get, decide_True, update_get, decide_False by done. by rewrite H2. }
  assert (Hl2 : ledger (wallets s2) b).
  { eapply ledger_update; [eapply ledger_update; [done|exact Hb1|done|apply holds_ensured]|exact Hb2|done|apply holds_ensured]. }
  rewrite Hg1, Hg2. cbv beta iota. rewrite (held_native n1), (held_native n2) by done.
  pose proof (parse_fixed_stroops n1 ltac:(lia)) as Hf1. pose proof (parse_fixed_stroops n2 ltac:(lia)) as Hf2.
  pose proof (sub_stroops 1 1 _ _ _ _ Hf1 Hx ltac:(lia) ltac:(lia) ltac:(lia) ltac:(lia)) as Hsub.
  destruct (num_ltb (num_sub (parse_float (fixed_digits 7 n1)) x) (parse_float (baseReserve cfg))) eqn:Hlt; cbv beta iota.
  - split; [done|]. split; [done|]. exists n1. split; [done|]. destruct (decide (n1 <= a + r)); [done|].
    rewrite (not_lt_stroops 3 1 _ _ (n1 - a) r Hsub Hr) in Hlt by lia. done.
  - assert (Hres : a + r <= n1).
    { destruct (decide (a + r <= n1)); [done|]. rewrite (lt_stroops 3 1 _ _ (n1 - a) r Hsub Hr) in Hlt by lia. done. }
    split; [|by exists n1]. pose proof (add_stroops 1 1 _ _ _ _ Hf2 Hx ltac:(lia) ltac:(lia) ltac:(lia) ltac:(lia)) as Hadd.
    rewrite (to_fixed_stroops _ (n1 - a) Hsub), (to_fixed_stroops _ (n2 + a) Hadd) by lia.
    set (s3 := update_wallet k1 (with_asset "native" (fixed_digits 7 (n1 - a))) s2).
    assert (Hg21 : map_get (wallets s2) k1 = Some (ensured w1)) by (unfold s2; by rewrite update_get, decide_False by done).
    assert (Hl3 : ledger (wallets s3) (map_set b k1 (n1 - a))).
    { unfold s3, update_wallet. rewrite Hg21. cbn -[with_asset fixed_digits]. eapply ledger_set; [done..|lia|apply holds_with]. }
    assert (Hg3 : map_get (wallets s3) k2 = Some (ensured w2)) by (unfold s3; by rewrite update_get, decide_False by done).
    unfold moved. rewrite Hb1, Hb2. unfold update_wallet at 1. rewrite Hg3. cbn -[with_asset fixed_digits].
    eapply ledger_set; [done..|lia|apply holds_with].
Qed.

(** ** Donations *)

(** A donation moved [a] stroops and left the reserve [r], or moved nothing. *)
Definition settled {A} (b : list (string * Z)) (dest : string) (a r : Z) (q : outcome error A * st) : Prop :=
  match q.1 with
  | Ret _ => ∃ k n, k ≠ dest ∧ map_get b k = Some n ∧ a + r <= n ∧ ledger (wallets q.2) (moved b k dest a)
  | Throw _ => ledger (wallets q.2) b
  end.

Lemma found_wallet secret s b w : ledger (wallets s) b → find_first (has_secret secret) (wallets s) = Some w →
  map_get (wallets s) (publicKey w.2) = Some w.2 ∧ secretKey w.2 = Some secret.
Proof.
  intros Hl Hf. apply find_first_Some in Hf as [Hin Hs%bool_decide_eq_true]. split; [|done]. destruct w as [k w]. cbn in *.
  assert (Hk : map_get (wallets s) k = Some w) by (apply map_get_elem; [apply Hl|done]).
  destruct (ledger_get _ _ _ _ Hl Hk) as (_ & _ & Hp & _). by rewrite Hp.
Qed.

Section donation.
Context (now : Z) (d : donation) (a r : Z) (b : list (string * Z)).
Context (Hasset : d_asset d = native) (Hamount : stroops_of 1 (parse_float (d_amount d)) a) (Ha : 0 < a < amount_limit)
  (Hreserve : stroops_of 1 (parse_float (baseReserve cfg)) r) (Hr : 0 < r) (Htotal : total b < amount_limit).

Lemma donate_once_settled s : ledger (wallets s) b → settled b (d_destination d) a r (donate_once now d s).
Proof.
  intros Hl. unfold donate_once.
  do 8 (apply (after wallets); [by auto with keeps|intros e s' Hs; unfold settled; cbn; by rewrite Hs|];
    let s' := fresh "s" in intros ? s' Hs; rewrite <- Hs in Hl; clear Hs).
  apply (after wallets); [|intros e s' Hs; unfold settled; cbn; by rewrite Hs|].
  { destruct (Transaction.truthy_str (d_memo d)); [|apply keeps_ret]. destruct (Memos.validateWithType _ _); [apply keeps_ret|apply keeps_throw]. }
  intros _ t Ht. assert (Hlt : ledger (wallets t) b) by (rewrite Ht; done). clear Ht Hl.
  unfold _findWalletBySecret at 1. unfold mbind at 1, stx_bind at 1. cbv beta iota delta [mbind mret stx_bind stx_ret get_st].
  destruct (find_first (has_secret (d_secret d)) (wallets t)) as [sw|] eqn:Hfind; cbn [fmap option_fmap option_map]; [|done].
  destruct (found_wallet _ _ _ _ Hlt Hfind) as [Hsw _]. destruct sw as [k0 sw]. cbn [snd] in *.
  case_bool_decide as Hself; [done|]. unfold get_wallet at 1. cbv beta iota delta [mbind mret stx_bind stx_ret get_st].
  destruct (map_get (wallets t) (d_destination d)) as [dw|] eqn:Hdw; [|done].
  unfold _ensureDestinationFunded. destruct (num_ltb _ _); [done|]. cbv beta iota delta [mbind mret stx_bind stx_ret get_st]. rewrite Hasset. change (a_type native) with "native".
  rewrite bool_decide_false by congruence. cbn [andb]. cbv beta iota.
  pose proof (transfer_exact (publicKey sw) (d_destination d) (parse_float (d_amount d)) a r t b Hself Hlt (ltac:(by eexists)) (ltac:(by eexists))
    Htotal Hamount Ha Hreserve Hr) as Htr.
  destruct (_applyAssetTransfer (publicKey sw) (d_destination d) native (parse_float (d_amount d)) t) as [[[]|e] u].
  - destruct Htr as [Hlu (n1 & Hb & Hres)]. unfold settled. cbn. exists (publicKey sw), n1. split_and!; try done.
    cbn. destruct (ledger_get _ _ _ _ Hlt Hsw) as (n1' & Hb1 & _). destruct (ledger_get _ _ _ _ Hlt Hdw) as (n2 & Hb2 & _).
    eapply (ledger_update u _ (publicKey sw) _ (n1 - a)); [done| |done|done].
    unfold moved. rewrite Hb, Hb2, map_get_set_ne, map_get_set_eq by done. done.
  - destruct Htr as (_ & Hlu & _). exact Hlu.
Qed.

Lemma retry_settled n (op : M string) :
  (∀ s, ledger (wallets s) b → settled b (d_destination d) a r (op s)) →
  ∀ s, ledger (wallets s) b → settled b (d_destination d) a r (retry_loop n op s).
Proof.
  intros Hop. induction n as [|n IH]; intros s Hl; cbn [retry_loop]; [by apply Hop|]. unfold try_catch.
  pose proof (Hop s Hl) as Hs. destruct (op s) as [[x|e] s1]; [done|]. cbn in Hs. destruct (_isRetryableError e); [by apply IH|done].
Qed.

Lemma sendDonation_settled s : ledger (wallets s) b → settled b (d_destination d) a r (sendDonation now d s).
Proof. intros Hl. unfold sendDonation, _executeWithRetry. cbn. apply retry_settled; [|done]. apply donate_once_settled. Qed.

End donation.
(** Donations one after the other, whatever became of each. *)
Fixpoint donate_all (l : list (Z * donation)) (s : st) : st :=
  match l with [] => s | (now, d) :: l => donate_all l (sendDonation now d s).2 end.

(** A donation of XLM that reads as some stroops. *)
Definition plain_amount (d : donation) : Prop :=
  d_asset d = native ∧ ∃ a, 0 < a < amount_limit ∧ stroops_of 1 (parse_float (d_amount d)) a.

(** No balance falls below the reserve that was not below it. *)
Definition above (r : Z) (b b' : list (string * Z)) : Prop :=
  ∀ k n', map_get b' k = Some n' → ∃ n, map_get b k = Some n ∧ (n <= n' ∨ r <= n').

Lemma above_refl r b : above r b b.
Proof. intros k n Hn. exists n. split; [done|by left]. Qed.
Lemma above_trans r b1 b2 b3 : above r b1 b2 → above r b2 b3 → above r b1 b3.
Proof.
  intros H12 H23 k n3 H3. destruct (H23 k n3 H3) as (n2 & H2 & [?|?]); destruct (H12 k n2 H2) as (n1 & H1 & [?|?]); exists n1; (split; [done|lia]).
Qed.
Lemma moved_above b k1 k2 a r n1 : k1 ≠ k2 → 0 < a → map_get b k1 = Some n1 → a + r <= n1 → above r b (moved b k1 k2 a).
Proof.
  intros Hk Ha H1 Hn. unfold moved. rewrite H1. destruct (map_get b k2) as [n2|] eqn:H2; [|apply above_refl].
  intros k n'. rewrite !map_get_set. repeat case_decide; subst.
  - intros [= <-]. exists n2. split; [done|lia].
  - intros [= <-]. exists n1. split; [done|lia].
  - intros Hk'. exists n'. split; [done|lia].
Qed.

(** C24: Donations below 2^28 XLM neither make nor lose a stroop, although the
    balances are texts that are read as floating-point numbers and written
    back with seven decimals; and they leave everybody the reserve. *)
Theorem donations_conserve l r : ∀ s b,
  ledger (wallets s) b → total b < amount_limit → stroops_of 1 (parse_float (baseReserve cfg)) r → 0 < r →
  (∀ c, c ∈ l → plain_amount c.2) →
  ∃ b', ledger (wallets (donate_all l s)) b' ∧ total b' = total b ∧ above r b b'.
Proof.
  induction l as [|[now d] l IH]; intros s b Hl Ht Hr Hr0 Hall; cbn [donate_all].
  - exists b. split_and!; [done|done|apply above_refl].
  - destruct (Hall (now, d) (list_elem_of_here _ _)) as (Hd & a & Ha & Hs).
    pose proof (sendDonation_settled now d a r b Hd Hs Ha Hr Hr0 Ht s Hl) as Hset.
    assert (Hb1 : ∃ b1, ledger (wallets (sendDonation now d s).2) b1 ∧ total b1 = total b ∧ above r b b1).
    { destruct (sendDonation now d s) as [[t|e] s1]; cbn in Hset |- *.
      - destruct Hset as (k & n & Hk & Hb & Hn & Hl1). eexists. split_and!; [exact Hl1|by apply moved_total|eapply moved_above; [done|lia|done|done]].
      - exists b. split_and!; [done|done|apply above_refl]. }
    destruct Hb1 as (b1 & Hl1 & Ht1 & Hab1). destruct (IH _ b1 Hl1) as (b2 & Hl2 & Ht2 & Hab2); [lia|done|done|by intros c ?; apply Hall; right|].
    exists b2. split_and!; [done|lia|]. by eapply above_trans.
Qed.

(** A donation of a text with at most seven decimals moves exactly these
    stroops, or nothing; when it succeeds the donor had the amount and a reserve
    of one XLM. *)
Theorem donation_exact now d w f b s :
  d_asset d = native → d_amount d = (w +:+ String "." f)%stdpp → all_digits w = true → str_forall is_digit f = true →
  (String.length f <= 7)%nat → 0 < text_stroops w f < amount_limit → baseReserve cfg = "1.0000000" →
  total b < amount_limit → ledger (wallets s) b →
  settled b (d_destination d) (text_stroops w f) (10 ^ 7) (sendDonation now d s).
Proof.
  intros Hd Ha Hw Hf Hl Ht Hr Htot Hb. apply sendDonation_settled; try done.
  - rewrite Ha. apply decimal_stroops; [done..|lia].
  - rewrite Hr. apply (decimal_stroops "1" "0000000"); [done..|]. by vm_compute.
Qed.

(** ** Attempts and requests *)

(** An operation is tried at most once more than the failures that are allowed. *)
Lemma retry_calls {A} (op : M A) (count : st → Z) n : (∀ s, count (op s).2 <= count s + 1) →
  ∀ s, count (retry_loop n op s).2 <= count s + Z.of_nat (S n).
Proof.
  intros Hop. induction n as [|n IH]; intros s; cbn [retry_loop]; [specialize (Hop s); lia|]. unfold try_catch.
  specialize (Hop s). destruct (op s) as [[a|e] s1]; cbn in Hop |- *; [lia|]. destruct (_isRetryableError e); [specialize (IH s1); lia|cbn; lia].
Qed.

(** The requests of the last second stay within the limit, in any second. *)
Lemma rate_window now limit s : rateLimit cfg = Some limit → 0 < limit →
  Z.of_nat (length (requestTimestamps s)) <= limit →
  let '(q, s') := _checkRateLimit now s in
  Z.of_nat (length (requestTimestamps s')) <= limit ∧ (∀ t, t ∈ requestTimestamps s' → now - 1000 < t ∨ t = now) ∧
  (is_ret q = true → now ∈ requestTimestamps s').
Proof.
  intros Hc Hl Hs. unfold _checkRateLimit. rewrite Hc. destruct (Z.eqb_spec limit 0); [lia|]. stx_unfold.
  pose proof (length_filter (λ t, now - 1000 < t) (requestTimestamps s)) as Hf. cbn.
  destruct (Z.leb_spec limit (Z.of_nat (length (filter (λ t, now - 1000 < t) (requestTimestamps s))))); cbn.
  - split_and!; [lia| |done]. intros t [? _]%list_elem_of_filter. by left.
  - rewrite length_app. cbn. split_and!; [lia| |].
    + intros t [[? _]%list_elem_of_filter|?%list_elem_of_singleton]%elem_of_app; [by left|by right].
    + intros _. apply elem_of_app. right. apply list_elem_of_here.
Qed.

(** Failures that may be tried again: the attempts that an operation has are
    enough, whatever is drawn. *)
Theorem retries_outlast_failures n s :
  retryable (simulated (sim_type (sim s))) = true → 0 < maxConsecutiveFailures (sim s) → 0 <= consecutiveFailures (sim s) →
  maxConsecutiveFailures (sim s) - consecutiveFailures (sim s) <= Z.of_nat n →
  is_ret (retry_loop n _simulateFailure s).1 = true.
Proof.
  revert s. induction n as [|n IH]; intros s Ht Hm Hc Hn; cbn [retry_loop]; unfold _simulateFailure at 1; unfold try_catch, draw; stx_unfold.
  - destruct (enabled (sim s)); [|done]. cbn. destruct (num_gtb _ _); [done|]. rewrite (proj2 (Z.ltb_lt _ _)) by lia. rewrite (proj2 (Z.leb_le _ _)) by lia. done.
  - destruct (enabled (sim s)); [|done]. cbn. destruct (num_gtb _ _); [done|]. destruct (_ && _); [done|]. cbn. unfold _isRetryableError. rewrite Ht.
    apply IH; cbn; try done; lia.
Qed.

End network.

#[export] Hint Resolve stable_wallets keeps_ret keeps_throw keeps_get keeps_bind keeps_if keeps_draw keeps_fresh keeps_rate keeps_failure keeps_random keeps_public
  keeps_secret keeps_amount keeps_time keeps_bounds keeps_funded keeps_keypair keeps_public_key : keeps.

(** ** Concrete calls *)

Definition key (prefix : string) (c : ascii) : string := (prefix +:+ str_repeat 55 c)%stdpp.
Definition no_draw (n : nat) : num := num_zero.
Definition some_hex (n : nat) : string := Z_to_string (Z.of_nat n).
Definition made_key (n : nat) : string * string := (key "G" "N", key "S" "N").
Definition hashed (k : string) : string := key "G" "H".
Definition funded (c : ascii) (t : string) : string * wallet := (key "G" c, new_wallet (key "G" c) (key "S" c) t).
Definition two (t1 t2 : string) : st := set_wallets [funded "A" t1; funded "B" t2] empty.
Definition balances (s : st) : list string := (λ e, balance (ensured e.2)) <$> wallets s.
Definition give (amount : string) : donation := mk_donation (key "S" "A") (key "G" "B") amount None "text" native 0 0.
Definition donate_c := sendDonation default_config no_draw some_hex.
Definition pay_c := sendPayment default_config no_draw some_hex made_key.

Example moves_exactly :
  balances (donate_c 0 (give "12.3456789") (two "100000000.0000001" "5.0000000")).2 = ["99999987.6543212"; "17.3456789"].
Proof. by vm_compute. Qed.

(** A donation that would leave exactly the reserve can be refused. *)
Example exact_reserve_refused :
  is_ret (donate_c 0 (give "0.4") (two "1.4000000" "5.0000000")).1 = false ∧
  is_ret (donate_c 0 (give "0.5") (two "1.5000000" "5.0000000")).1 = true.
Proof. by vm_compute. Qed.

(** Above the bound of the theorem a stroop can be lost. *)
Example large_balance_inexact :
  balances (donate_c 0 (give "0.0000001") (two "10000000000.0000003" "5.0000000")).2 = ["10000000000.0000000"; "5.0000001"].
Proof. by vm_compute. Qed.

(** A payment of an account to itself makes money. *)
Example self_payment_makes_money :
  balances (pay_c 0 (key "G" "A") (key "G" "A") "40" "" (two "100.0000000" "5.0000000")).2 = ["140.0000000"; "5.0000000"].
Proof. by vm_compute. Qed.

(** An account nobody made pays with ten thousand XLM. *)
Example unknown_account_pays :
  let s := (pay_c 0 (key "G" "C") (key "G" "B") "100" "" (two "100.0000000" "5.0000000")).2 in
  balances s = ["100.0000000"; "105.0000000"; "9900.0000000"].
Proof. by vm_compute. Qed.

(** A batch that fails in the middle keeps what it did before. *)
Example batch_not_atomic :
  let q := sendBatchDonations default_config no_draw some_hex 0 (key "S" "A") [(key "G" "B", "60", None); (key "G" "B", "60", None)] (two "100.0000000" "5.0000000") in
  is_ret q.1 = false ∧ balances q.2 = ["40.0000000"; "65.0000000"].
Proof. by vm_compute. Qed.

Definition ex_usd : asset := mk_asset "credit_alphanum" "USD" (Some (key "G" "U")).
(** A strict send reports what the route yields and delivers the minimum. *)
Example strict_send_underpays :
  let q := pathPaymentStrictSend default_config no_draw some_hex 0 (key "S" "A") native "10" (key "G" "B") ex_usd "6" "" (two "100.0000000" "5.0000000") in
  (match q.1 with Ret (_, sent, got) => Some (sent, got) | Throw _ => None end) = Some ("10", "12.0000000") ∧
  ((λ e, map_get (default [] (assetBalances e.2)) (getAssetKey ex_usd)) <$> wallets q.2) = [None; Some "6.0000000"].
Proof. by vm_compute. Qed.

Lemma two_ledger n1 n2 : 0 <= n1 → 0 <= n2 → ledger (wallets (two (fixed_digits 7 n1) (fixed_digits 7 n2))) [(key "G" "A", n1); (key "G" "B", n2)].
Proof.
  intros H1 H2. split; [apply (bool_decide_unpack _); by vm_compute|]. repeat constructor; try done.
Qed.

Lemma donation_exact_witness :
  settled [(key "G" "A", 1000000000); (key "G" "B", 50000000)] (key "G" "B") 123456789 (10 ^ 7)
    (donate_c 0 (give "12.3456789") (two "100.0000000" "5.0000000")).
Proof.
  apply (donation_exact default_config no_draw some_hex 0 (give "12.3456789") "12" "3456789" [(key "G" "A", 1000000000); (key "G" "B", 50000000)]
    (two "100.0000000" "5.0000000")); try reflexivity.
  - split; reflexivity.
  - apply (two_ledger 1000000000 50000000); apply Z.leb_le; reflexivity.
Defined.

Lemma donations_conserve_witness :
  ∃ b', ledger (wallets (donate_all default_config no_draw some_hex [(0, give "12.3456789"); (1, give "99")] (two "100.0000000" "5.0000000"))) b' ∧
    total b' = 1050000000 ∧ above 10000000 [(key "G" "A", 1000000000); (key "G" "B", 50000000)] b'.
Proof.
  apply (donations_conserve default_config no_draw some_hex [(0, give "12.3456789"); (1, give "99")] 10000000 (two "100.0000000" "5.0000000")
    [(key "G" "A", 1000000000); (key "G" "B", 50000000)]).
  - apply (two_ledger 1000000000 50000000); apply Z.leb_le; reflexivity.
  - reflexivity.
  - apply (decimal_stroops "1" "0000000"); [reflexivity|reflexivity|apply Nat.leb_le; reflexivity|reflexivity].
  - reflexivity.
  - intros c Hc. apply elem_of_cons in Hc as [->|Hc]; [|apply elem_of_cons in Hc as [->|Hc]; [|by apply elem_of_nil in Hc]].
    + split; [reflexivity|]. exists 123456789. split; [split; reflexivity|].
      apply (decimal_stroops "12" "3456789"); [reflexivity|reflexivity|apply Nat.leb_le; reflexivity|reflexivity].
    + split; [reflexivity|]. exists 990000000. split; [split; reflexivity|]. apply (whole_stroops "99"); reflexivity.
Defined.

Lemma retries_outlast_failures_witness :
  is_ret (retry_loop 3 (_simulateFailure no_draw) (set_sim (mk_sim true (Some "timeout") (num_of_Z 1) 0 3) empty)).1 = true.
Proof.
  apply (retries_outlast_failures no_draw 3 (set_sim (mk_sim true (Some "timeout") (num_of_Z 1) 0 3) empty)).
  - reflexivity.
  - reflexivity.
  - apply Z.leb_le. reflexivity.
  - apply Z.leb_le. reflexivity.
Defined.

End MockStellar.
