(* ===== verification/MockAccounts.v ===== *)
(** * The accounts of the simulated network ([src/src/services/mock/accounts.js],
      [src/src/utils/homeDomain.js])

    Making, funding, reading and merging accounts, home domains, data entries,
    sequence numbers and sponsorships.  Signers, thresholds, options and the
    times of creation are left out. *)

From Stdlib Require Import Ascii.
From S2P Require Import Prelude JsString JsNumber JsMap Errors JsRound.
From S2P Require Import Transaction Assets Memos MockStellar.
Local Open Scope Z_scope.

Module MockAccounts.
Import Assets MockStellar.

(** ** Home domains *)

Definition alnum (c : ascii) : bool :=
  is_digit c || ((65 <=? char_code c) && (char_code c <=? 90)) || ((97 <=? char_code c) && (char_code c <=? 122)).
Fixpoint last_char (c : ascii) (s : string) : ascii := match s with String d t => last_char d t | EmptyString => c end.
(** A letter or digit, up to 61 of these and hyphens, a letter or digit. *)
Definition label (s : string) : bool :=
  match s with
  | EmptyString => false
  | String c t => (String.length s <=? 63)%nat && alnum c && alnum (last_char c t) && str_forall (λ x, alnum x || Ascii.eqb x "-") s
  end.
Definition HOME_DOMAIN_PATTERN (s : string) : bool := forallb label (split_on "." s).
Definition validateHomeDomain (allowEmpty : bool) (d : string) : outcome jserror string :=
  if negb allowEmpty && is_empty d then Throw ValidationError
  else if (32 <? Memos.byteLength d)%nat then Throw ValidationError
  else if negb (is_empty d) && negb (HOME_DOMAIN_PATTERN d) then Throw ValidationError
  else Ret d.

(** ** Wallets *)

Definition with_inflation (x : string) (w : wallet) : wallet :=
  mk_wallet (publicKey w) (secretKey w) (balance w) (assetBalances w) (sequence w) (sponsoredBy w) (mergedInto w)
    (Some x) (homeDomain w) (dataEntries w) (w_trustlines w).
Definition with_domain (x : string) (w : wallet) : wallet :=
  mk_wallet (publicKey w) (secretKey w) (balance w) (assetBalances w) (sequence w) (sponsoredBy w) (mergedInto w)
    (inflationDestination w) (Some x) (dataEntries w) (w_trustlines w).
Definition with_entries (x : list (string * string)) (w : wallet) : wallet :=
  mk_wallet (publicKey w) (secretKey w) (balance w) (assetBalances w) (sequence w) (sponsoredBy w) (mergedInto w)
    (inflationDestination w) (homeDomain w) x (w_trustlines w).
Definition with_sponsor (x : option string) (w : wallet) : wallet :=
  mk_wallet (publicKey w) (secretKey w) (balance w) (assetBalances w) (sequence w) x (mergedInto w)
    (inflationDestination w) (homeDomain w) (dataEntries w) (w_trustlines w).
Definition merged (into : string) (w : wallet) : wallet :=
  mk_wallet (publicKey w) (secretKey w) "0" (assetBalances w) (sequence w) (sponsoredBy w) (Some into)
    (inflationDestination w) (homeDomain w) (dataEntries w) (w_trustlines w).
Definition sponsored_wallet (k by_ : string) : wallet :=
  mk_wallet k None zero_text None (Some "0") (Some by_) None None None [] [].

Section network.
Context (cfg : config) (random : nat → num) (hex : nat → string) (fresh_keypair : nat → string * string) (key_of_hash : string → string)
  (testnet : bool).

Definition rate := _checkRateLimit cfg.
Definition maybe_fail := _simulateFailure random.
Definition public := _validatePublicKey cfg.
Definition private := _validateSecretKey cfg.
Definition to_public := _secretToPublic key_of_hash.

Definition createWallet (now : Z) : M (string * string) :=
  rate now;;
  kp ← _generateKeypair fresh_keypair;
  modify_st (λ s, set_wallets (map_set (wallets s) kp.1 (new_wallet kp.1 kp.2 zero_text)) s);;
  modify_st (λ s, set_transactions (map_set (transactions s) kp.1 []) s);;
  mret kp.

(** The text of a balance that is zero is [0]. *)
Definition shown (t : string) : string := if num_eqb (parse_float t) num_zero then "0" else t.
Definition native_text (w : wallet) : string := default "" (map_get (default [] (assetBalances (ensured w))) "native").
Definition getBalance (now : Z) (k : string) : M string :=
  _executeWithRetry (
    rate now;; public k;; maybe_fail;;
    w ← get_wallet k;
    match w with
    | None => fail wallet_not_found
    | Some w => _ensureAssetBalances k;; mret (shown (native_text w))
    end).

Definition fundTestnetWallet (now : Z) (k : string) : M string :=
  _executeWithRetry (
    rate now;; public k;; maybe_fail;; _simulateRandomFailure cfg random;;
    w ← get_wallet k;
    match w with
    | None => fail wallet_not_found
    | Some w =>
        if num_gtb (parse_float (balance w)) num_zero then fail transaction_failed
        else
          _setWalletAssetBalance k native (num_of_Z 10000);;
          modify_st (update_wallet k (with_sequence "1"));;
          mret (num_to_fixed 7 (num_of_Z 10000))
    end).
(** [None]: not funded. *)
Definition fundWithFriendbot (now : Z) (k : string) : M (option string) :=
  if testnet then try_catch (x ← fundTestnetWallet now k; mret (Some x)) (λ _, mret None) else mret None.

Record funding := mk_funding { funded : bool; f_balance : string; exists_ : bool }.
Definition isAccountFunded (now : Z) (k : string) : M funding :=
  rate now;; public k;;
  w ← get_wallet k;
  mret (match w with
        | None => mk_funding false "0" false
        | Some w => mk_funding (num_geb (parse_float (balance w)) (parse_float (minAccountBalance cfg))) (balance w) true
        end).

Definition known (k : string) : M wallet :=
  if isValidAddress k then w ← get_wallet k; match w with Some w => mret w | None => fail wallet_not_found end else fail ValidationError.
(** The sequence number and the balance. *)
Definition loadAccount (k : string) : M (string * string) :=
  w ← known k; mret (or_text "1" (sequence w), or_text zero_text (Some (balance w))).
Definition getAccountSequence (k : string) : M string := w ← known k; mret (or_text "12345" (sequence w)).
Definition getAccountBalances (k : string) : M string := w ← known k; _ensureAssetBalances k;; mret (native_text w).

Definition by_secret (secret : string) (e : jserror) : M wallet :=
  w ← _findWalletBySecret secret; match w with Some w => mret w | None => fail e end.

Definition setInflationDestination (secret k : string) : M () :=
  private secret;; public k;;
  w ← by_secret secret ValidationError;
  modify_st (update_wallet (publicKey w) (with_inflation k)).
Definition getInflationDestination (k : string) : M (option string) :=
  public k;; w ← get_wallet k;
  match w with None => fail ValidationError | Some w => mret (Transaction.truthy_str (inflationDestination w)) end.

Definition setHomeDomain (secret domain : string) : M () :=
  match validateHomeDomain true domain with
  | Throw e => fail e
  | Ret _ => w ← by_secret secret ValidationError; modify_st (update_wallet (publicKey w) (with_domain domain))
  end.
Definition getHomeDomain (k : string) : M (option string) :=
  w ← get_wallet k; mret (w ≫= λ w, Transaction.truthy_str (homeDomain w)).

(** [None] deletes. *)
Definition setDataEntry (secret k : string) (value : option string) : M () :=
  private secret;;
  if (64 <? Memos.byteLength k)%nat then fail ValidationError
  else if match value with Some v => (64 <? Memos.byteLength v)%nat | None => false end then fail ValidationError
  else
    w ← by_secret secret ValidationError;
    match value with
    | None =>
        if map_has (dataEntries w) k then modify_st (update_wallet (publicKey w) (λ w, with_entries (map_del (dataEntries w) k) w))
        else fail NotFoundError
    | Some v => modify_st (update_wallet (publicKey w) (λ w, with_entries (map_set (dataEntries w) k v) w))
    end.
Definition deleteDataEntry (secret k : string) : M () := setDataEntry secret k None.
Definition getDataEntries (k : string) : M (list (string * string)) :=
  public k;; w ← get_wallet k; match w with None => fail wallet_not_found | Some w => mret (dataEntries w) end.

Definition mergeAccount (now : Z) (secret dest : string) : M string :=
  _executeWithRetry (
    rate now;; private secret;; public dest;; maybe_fail;;
    sw ← by_secret secret ValidationError;
    if bool_decide (publicKey sw = dest) then fail ValidationError
    else
      dw ← get_wallet dest;
      match dw with
      | None => fail wallet_not_found
      | Some dw =>
          let mergedAmount := balance sw in
          modify_st (update_wallet dest (with_balance (num_to_fixed 7 (num_add (parse_float (balance dw)) (parse_float mergedAmount)))));;
          modify_st (update_wallet (publicKey sw) (merged dest));;
          x ← fresh hex;
          _storeTransaction (mk_tx (Some ("mock_merge_" +:+ x)%stdpp) None "account_merge" (publicKey sw) dest mergedAmount native None "" "confirmed" None);;
          mret mergedAmount
      end).

(** No wallet has the fields [balances] and [openOffers]: only data entries block. *)
Definition validateMergeEligibility (k : string) : M bool := w ← known k; mret (bool_decide (dataEntries w = [])).

Definition bumpSequence (now : Z) (secret bumpTo : string) : M string :=
  rate now;; maybe_fail;;
  if is_empty secret then fail ValidationError
  else
    private secret;;
    match BigInt_of_string bumpTo with
    | None => fail ESyntax
    | Some n =>
        if n <? 0 then fail ValidationError
        else
          w ← by_secret secret wallet_not_found;
          match BigInt_of_string (or_text "0" (sequence w)) with
          | None => fail ESyntax
          | Some current =>
              if n <=? current then fail (BusinessLogicError (code_ref "INVALID_REQUEST"))
              else modify_st (update_wallet (publicKey w) (with_sequence (Z_to_string n)));; mret (Z_to_string n)
          end
    end.

(** ** Sponsorships *)

Definition createSponsoredAccount (now : Z) (secret k : string) : M () :=
  rate now;; maybe_fail;; private secret;; public k;;
  sponsor ← to_public secret;
  s ← get_st;
  if negb (map_has (wallets s) sponsor) then fail wallet_not_found
  else if map_has (wallets s) k then fail transaction_failed
  else
    modify_st (λ s, set_wallets (map_set (wallets s) k (sponsored_wallet k sponsor)) s);;
    modify_st (λ s, set_transactions (map_set (transactions s) k []) s);;
    modify_st (λ s, set_sponsorships (map_set (sponsorships s) k (mk_sponsorship sponsor false)) s).
Definition sponsorAccount := createSponsoredAccount.

Definition revokeSponsoredAccount (now : Z) (secret k : string) : M () :=
  rate now;; maybe_fail;; private secret;; public k;;
  sponsor ← to_public secret;
  s ← get_st;
  if negb (map_has (wallets s) sponsor) then fail wallet_not_found
  else
    match map_get (sponsorships s) k with
    | None => fail NotFoundError
    | Some r =>
        if bool_decide (by_ r ≠ sponsor) then fail transaction_failed
        else if revoked r then fail transaction_failed
        else
          modify_st (λ s, set_sponsorships (map_set (sponsorships s) k (mk_sponsorship (by_ r) true)) s);;
          modify_st (update_wallet k (with_sponsor None))
    end.
Definition revokeSponsorship := revokeSponsoredAccount.
(** The sponsor, if there is one. *)
Definition getSponsorshipStatus (k : string) : M (option string) :=
  public k;; s ← get_st;
  mret (match map_get (sponsorships s) k with Some r => if revoked r then None else Some (by_ r) | None => None end).

(** ** Merging *)

(** The balances of assets are there, XLM among them. *)
Definition has_native (w : wallet) : Prop := ∃ ab t, assetBalances w = Some ab ∧ map_get ab "native" = Some t.
Definition all_native (s : st) : Prop := ∀ k w, map_get (wallets s) k = Some w → has_native w.

(** A new text in [balance] alone is not what the wallet holds. *)
Lemma balance_ignored w w' n : has_native w → assetBalances w' = assetBalances w → holds n w → holds n w'.
Proof.
  intros (ab & t & Ha & Ht). unfold holds, ensured. intros ->. rewrite Ha. cbn. by rewrite Ht.
Qed.

Lemma update_ignored k f s b : all_native s → ledger (wallets s) b → (∀ w, assetBalances (f w) = assetBalances w ∧ publicKey (f w) = publicKey w) →
  ledger (wallets (update_wallet k f s)) b ∧ all_native (update_wallet k f s).
Proof.
  intros Hn Hl Hf. split.
  - unfold update_wallet. destruct (map_get (wallets s) k) as [w|] eqn:Hw; [|done]. cbn.
    destruct (ledger_get _ _ _ _ Hl Hw) as (n & Hb & Hk & Hn' & Hh). rewrite <- (map_set_id b k n Hb). destruct (Hf w) as [Ha Hp].
    eapply ledger_set; [done..|by rewrite Hp|done|]. by eapply balance_ignored; [eapply Hn|..].
  - intros k' w'. rewrite update_get. case_decide; [|apply Hn]. destruct (map_get (wallets s) k) as [w|] eqn:Hw; [|done].
    intros [= <-]. destruct (Hn _ _ Hw) as (ab & t & Ha & Ht). exists ab, t. by rewrite (proj1 (Hf w)).
Qed.

(** Whatever is done with the result, and however often it is tried. *)
Lemma retry_invariant {A} (P : st → Prop) (op : M A) n : (∀ s, P s → P (op s).2) → ∀ s, P s → P (retry_loop n op s).2.
Proof.
  intros Hop. induction n as [|n IH]; intros s Hs; cbn [retry_loop]; [by apply Hop|]. unfold try_catch. specialize (Hop s Hs).
  destruct (op s) as [[a|e] s1]; cbn in Hop |- *; [done|]. destruct (_isRetryableError e); [by apply IH|done].
Qed.

Lemma keeps_find {X} (g : st → X) secret e : keeps g (by_secret secret e).
Proof. unfold by_secret. apply keeps_bind; [done|]. by intros [w|]. Qed.

(** Merging an account moves nothing: the balances that are read afterwards are
    those before, whatever amount the call reports as merged. *)
Theorem merge_moves_nothing now secret dest s b :
  all_native s → ledger (wallets s) b → ledger (wallets (mergeAccount now secret dest s).2) b.
Proof.
  intros Hn Hl. unfold mergeAccount, _executeWithRetry. cbn. apply (retry_invariant (λ s, all_native s ∧ ledger (wallets s) b)); [|done].
  clear s Hn Hl. intros s [Hn Hl].
  do 5 (apply (after wallets _ _ _ (λ q, all_native q.2 ∧ ledger (wallets q.2) b));
    [first [apply keeps_find|unfold rate, private, public, maybe_fail; auto with keeps]|
     intros e s' Hs; unfold all_native; cbn; by rewrite Hs|];
    let s' := fresh "s" in intros ? s' Hs; assert (Hn' : all_native s') by (unfold all_native; by rewrite Hs);
    rewrite <- Hs in Hl; clear Hs Hn; rename Hn' into Hn).
  case_bool_decide; [by split|]. unfold get_wallet. cbv beta iota delta [mbind mret stx_bind stx_ret get_st].
  match goal with |- context [map_get (wallets ?t) dest] => destruct (map_get (wallets t) dest) as [dw|] eqn:Hdw; [|by unfold fail, throw; cbn; split]; set (s9 := t) in * end.
  cbv beta iota delta [modify_st]. destruct (update_ignored dest (with_balance (num_to_fixed 7 (num_add (parse_float (balance dw)) (parse_float (balance a3))))) s9 b Hn Hl ltac:(by intros; split)) as [Hl1 Hn1].
  destruct (update_ignored (publicKey a3) (merged dest) _ b Hn1 Hl1 ltac:(by intros; split)) as [Hl2 Hn2]. cbn. by split.
Qed.

(** ** Sequence numbers and funding *)

(** A bump that succeeds leaves a larger number. *)
Theorem bump_increases now secret bumpTo s x s' :
  bumpSequence now secret bumpTo s = (Ret x, s') →
  ∃ w old new, find_first (has_secret secret) (wallets s) = Some w ∧
    BigInt_of_string (or_text "0" (sequence w.2)) = Some old ∧ old < new ∧ x = Z_to_string new.
Proof.
  intros H. revert H. unfold bumpSequence.
  apply (after wallets _ _ s (λ q, q = (Ret x, s') → _)); [unfold rate; auto with keeps|done|]. intros _ s1 H1.
  apply (after wallets _ _ s1 (λ q, q = (Ret x, s') → _)); [unfold maybe_fail; auto with keeps|done|]. intros _ s2 H2.
  destruct (is_empty secret); [done|].
  apply (after wallets _ _ s2 (λ q, q = (Ret x, s') → _)); [unfold private; auto with keeps|done|]. intros _ s3 H3.
  rewrite <- H1, <- H2, <- H3. destruct (BigInt_of_string bumpTo) as [n|]; [|done]. destruct (n <? 0); [done|].
  unfold by_secret, _findWalletBySecret. cbv beta iota delta [mbind mret stx_bind stx_ret get_st].
  destruct (find_first (has_secret secret) (wallets s3)) as [w|]; [|done]. cbn [fmap option_fmap option_map].
  destruct (BigInt_of_string (or_text "0" (sequence w.2))) as [old|] eqn:Ho; [|done]. destruct (Z.leb_spec n old); [done|].
  intros [= <- _]. by exists w, old, n.
Qed.

(** ** Sponsorships *)

Definition sponsors (s : st) := (sponsorships s, wallets s).
Lemma stable_sponsors : stable sponsors. Proof. done. Qed.
Hint Resolve stable_sponsors : keeps.
Definition public_of (secret : string) (s : st) : string :=
  match find_first (has_secret secret) (wallets s) with Some w => publicKey w.2 | None => key_of_hash secret end.

(** What a revocation does when its checks pass. *)
Lemma revoke_cases now secret k s (P : outcome error () * st → Prop) :
  (∀ e s', sponsors s' = sponsors s → P (Throw e, s')) →
  (∀ s', map_get (sponsorships s) k = Some (mk_sponsorship (public_of secret s) false) →
    sponsorships s' = map_set (sponsorships s) k (mk_sponsorship (public_of secret s) true) → P (Ret (), s')) →
  P (revokeSponsoredAccount now secret k s).
Proof.
  intros He Hr. unfold revokeSponsoredAccount, rate, maybe_fail, private, public, to_public.
  apply (after sponsors); [by auto with keeps|intros e t Ht; apply He; congruence|]. intros _ t1 H1.
  apply (after sponsors); [by auto with keeps|intros e t Ht; apply He; congruence|]. intros _ t2 H2. rewrite H1 in H2. clear H1.
  apply (after sponsors); [by auto with keeps|intros e t Ht; apply He; congruence|]. intros _ t3 H3. rewrite H2 in H3. clear H2.
  apply (after sponsors); [by auto with keeps|intros e t Ht; apply He; congruence|]. intros _ t4 H4. rewrite H3 in H4. clear H3.
  rename H4 into Hsame.
  unfold _secretToPublic, _findWalletBySecret. cbv beta iota delta [mbind mret stx_bind stx_ret get_st].
  match type of Hsame with sponsors ?t = _ => set (t0 := t) in * end. injection Hsame as Hsp Hw. unfold public_of in Hr. rewrite <- Hw, <- Hsp in Hr.
  set (o := find_first (has_secret secret) (wallets t0)) in *.
  assert (Hpub : match snd <$> o with Some w => publicKey w | None => key_of_hash secret end = match o with Some w => publicKey w.2 | None => key_of_hash secret end)
    by (by destruct o).
  rewrite Hpub. set (sp := match o with Some w => publicKey w.2 | None => key_of_hash secret end) in *.
  assert (Hthrow : ∀ e, P (Throw e, t0)) by (intros; apply He; unfold sponsors; by rewrite Hsp, Hw).
  destruct (map_has (wallets t0) sp); [|apply Hthrow]. cbn [negb]. destruct (map_get (sponsorships t0) k) as [[by1 rev1]|] eqn:Hk; [|apply Hthrow].
  cbn [by_ revoked]. case_bool_decide as Hby; [apply Hthrow|]. destruct rev1; [apply Hthrow|].
  subst by1.
  cbv beta iota delta [modify_st]. apply Hr; [done|]. unfold update_wallet. cbn. by destruct (map_get (wallets t0) k).
Qed.

(** Only the sponsor can end a sponsorship, and nobody can end it again. *)
Theorem revoke_once now secret k s s' :
  revokeSponsoredAccount now secret k s = (Ret (), s') →
  map_get (sponsorships s) k = Some (mk_sponsorship (public_of secret s) false) ∧
  map_get (sponsorships s') k = Some (mk_sponsorship (public_of secret s) true) ∧
  ∀ now' secret', is_ret (revokeSponsoredAccount now' secret' k s').1 = false.
Proof.
  intros H. assert (Hok : map_get (sponsorships s) k = Some (mk_sponsorship (public_of secret s) false) ∧
    map_get (sponsorships s') k = Some (mk_sponsorship (public_of secret s) true)).
  { revert H. apply (revoke_cases now secret k s (λ q, q = (Ret (), s') → _)); [done|]. intros s1 Hg Hs [= <-]. split; [done|]. by rewrite Hs, map_get_set_eq. }
  destruct Hok as [Hg Hs']. split_and!; [done|done|]. intros now' secret'.
  apply (revoke_cases now' secret' k s' (λ q, is_ret q.1 = false)); [done|]. intros s2 Hg2. rewrite Hg2 in Hs'. done.
Qed.

End network.

(** ** Concrete calls *)

Definition rich : st := two "100.0000000" "5.0000000".
(** The merged amount is reported; the balances are those before. *)
Example merge_reports :
  let q := mergeAccount default_config no_draw some_hex 0 (key "S" "A") (key "G" "B") rich in
  (q.1, balances q.2) = (Ret "100.0000000", ["100.0000000"; "5.0000000"]).
Proof. by vm_compute. Qed.

Example home_domains :
  (λ d, is_ret (validateHomeDomain true d)) <$> ["example.org"; "-bad.org"; "a..b"; ""; "https://x.org"] = [true; false; false; true; false].
Proof. by vm_compute. Qed.

Definition sponsored : st :=
  (createSponsoredAccount default_config no_draw hashed 0 (key "S" "A") (key "G" "D") rich).2.

Lemma merge_moves_nothing_witness :
  ledger (wallets (mergeAccount default_config no_draw some_hex 0 (key "S" "A") (key "G" "B") rich).2)
    [(key "G" "A", 1000000000); (key "G" "B", 50000000)].
Proof.
  apply (merge_moves_nothing default_config no_draw some_hex 0 (key "S" "A") (key "G" "B") rich).
  - intros k w Hw. apply map_get_Some_elem in Hw. apply elem_of_cons in Hw as [[= -> ->]|Hw]; [by eexists _, _|].
    apply elem_of_cons in Hw as [[= -> ->]|Hw]; [by eexists _, _|by apply elem_of_nil in Hw].
  - apply (two_ledger 1000000000 50000000); apply Z.leb_le; reflexivity.
Defined.

Lemma bump_increases_witness : ∃ x s' w old new,
  bumpSequence default_config no_draw 0 (key "S" "A") "12" rich = (Ret x, s') ∧
  find_first (has_secret (key "S" "A")) (wallets rich) = Some w ∧ BigInt_of_string (or_text "0" (sequence w.2)) = Some old ∧ old < new.
Proof.
  destruct (bumpSequence default_config no_draw 0 (key "S" "A") "12" rich) as [q s'] eqn:Hq.
  assert (Hr : q = Ret "12") by (change q with (fst (q, s')); rewrite <- Hq; vm_compute; reflexivity). subst q.
  destruct (bump_increases default_config no_draw 0 (key "S" "A") "12" rich "12" s' Hq) as (w & old & new & Hf & Ho & Hlt & _).
  exists "12", s', w, old, new. split; [reflexivity|]. split; [exact Hf|]. split; [exact Ho|exact Hlt].
Defined.

Lemma revoke_once_witness : ∃ s',
  revokeSponsoredAccount default_config no_draw hashed 0 (key "S" "A") (key "G" "D") sponsored = (Ret (), s') ∧
  is_ret (revokeSponsoredAccount default_config no_draw hashed 1 (key "S" "A") (key "G" "D") s').1 = false.
Proof.
  destruct (revokeSponsoredAccount default_config no_draw hashed 0 (key "S" "A") (key "G" "D") sponsored) as [q s'] eqn:Hq.
  assert (Hr : q = Ret ()) by (change q with (fst (q, s')); rewrite <- Hq; vm_compute; reflexivity). subst q.
  exists s'. split; [reflexivity|].
  exact (proj2 (proj2 (revoke_once default_config no_draw hashed 0 (key "S" "A") (key "G" "D") sponsored s' Hq)) 1 (key "S" "A")).
Defined.

End MockAccounts.
