(* ===== verification/MockHoldings.v ===== *)
(** * Assets, claimable balances, channels and offers of the simulated network
      ([src/src/services/mock/assets.js], [claimableBalances.js],
      [channels.js], [offers.js], [fees.js])

    Trustlines, issued assets and their holders, balances to be claimed, the
    escrow accounts of channels, offers and fees.  The listeners of the order
    book, times of creation and ledger numbers are left out. *)

From Stdlib Require Import Ascii.
From S2P Require Import Prelude JsString JsNumber JsMap Errors JsRound.
From S2P Require Import Transaction Assets MockStellar MockAccounts.
Local Open Scope Z_scope.

Module MockHoldings.
Import Assets MockStellar MockAccounts.

Definition with_lines (x : list (string * trustline)) (w : wallet) : wallet :=
  mk_wallet (publicKey w) (secretKey w) (balance w) (assetBalances w) (sequence w) (sponsoredBy w) (mergedInto w)
    (inflationDestination w) (homeDomain w) (dataEntries w) x.

(** [/^[A-Za-z0-9]{1,12}$/] *)
Definition asset_code_pattern (c : string) : bool := (1 <=? String.length c)%nat && (String.length c <=? 12)%nat && str_forall alnum c.
Definition STELLAR_MAX_LIMIT : string := "922337203685.4775807".
Definition positive_amount (a : num) : bool := negb (num_is_nan a || num_leb a num_zero).

Section network.
Context (cfg : config) (random : nat → num) (hex : nat → string) (fresh_keypair : nat → string * string) (key_of_hash : string → string).

Definition rate := _checkRateLimit cfg.
Definition maybe_fail := _simulateFailure random.
Definition public := _validatePublicKey cfg.
Definition private := _validateSecretKey cfg.

(** ** Trustlines *)

(** The account: its key, for an asset given as an object, or its secret. *)
Inductive account := ByKey (k : string) | BySecret (secret : string).

Definition line_key (code issuer : string) : string := (code +:+ ":" +:+ issuer)%stdpp.

Definition check_limit (limit : option string) : M () :=
  match limit with
  | None => mret ()
  | Some l =>
      if negb (positive_amount (parse_float l)) then fail ValidationError
      else if num_gtb (parse_float l) (parse_float STELLAR_MAX_LIMIT) then fail ValidationError
      else mret ()
  end.

Definition find_account (who : account) (issuer : string) : M wallet :=
  match who with
  | ByKey k =>
      if negb (starts_with "G" k) then fail ValidationError
      else w ← get_wallet k; match w with Some w => mret w | None => fail wallet_not_found end
  | BySecret secret =>
      private secret;;
      (if is_empty issuer then mret () else public issuer);;
      by_secret secret ValidationError
  end.

Definition addTrustline (now : Z) (who : account) (assetCode issuer : string) (limit : option string) : M string :=
  rate now;; maybe_fail;;
  w ← find_account who issuer;
  if negb (asset_code_pattern assetCode) then fail ValidationError
  else if negb (starts_with "G" issuer) then fail ValidationError
  else
    check_limit limit;;
    let k := line_key assetCode issuer in
    let resolvedLimit := default STELLAR_MAX_LIMIT limit in
    if match who with ByKey _ => map_has (w_trustlines w) k | BySecret _ => false end then fail transaction_failed
    else
      modify_st (λ s, set_trustlines (map_set (trustlines s) (publicKey w +:+ ":" +:+ k)%stdpp (mk_trust (publicKey w) assetCode issuer resolvedLimit)) s);;
      modify_st (update_wallet (publicKey w) (λ w, with_lines (map_set (w_trustlines w) k
        (mk_trustline (mk_asset "" assetCode (Some issuer)) (or_text zero_text (tl_balance <$> map_get (w_trustlines w) k)) resolvedLimit)) w));;
      mret resolvedLimit.

Definition getTrustline (k assetCode issuer : string) : M (option trust) :=
  s ← get_st; mret (map_get (trustlines s) (k +:+ ":" +:+ line_key assetCode issuer)%stdpp).

Definition removeTrustline (now : Z) (who : account) (assetCode issuer : string) : M () :=
  _executeWithRetry (
    rate now;; maybe_fail;;
    w ← (match who with ByKey k => get_wallet k | BySecret secret => private secret;; _findWalletBySecret secret end);
    match w with
    | None => fail wallet_not_found
    | Some w =>
        let k := line_key assetCode issuer in
        match map_get (w_trustlines w) k with
        | None => fail transaction_failed
        | Some l =>
            if num_gtb (parse_float (tl_balance l)) num_zero then fail ValidationError
            else
              modify_st (update_wallet (publicKey w) (λ w, with_lines (map_del (w_trustlines w) k) w));;
              modify_st (λ s, set_trustlines (map_del (trustlines s) (publicKey w +:+ ":" +:+ k)%stdpp) s)
        end
    end).
Definition getTrustlines (now : Z) (k : string) : M (list trustline) :=
  _executeWithRetry (rate now;; w ← get_wallet k; match w with None => fail wallet_not_found | Some w => mret (w_trustlines w).*2 end).

(** ** Issued assets *)

Definition holders (assetKey : string) (s : st) : list (string * string) := default [] (map_get (holdings s) assetKey).
Definition set_holder (assetKey k t : string) (s : st) : st :=
  set_holdings (map_set (holdings s) assetKey (map_set (holders assetKey s) k t)) s.
Definition holding (assetKey k : string) (s : st) : num := parse_float (or_text "0" (map_get (holders assetKey s) k)).

Definition log_tx (ks : list string) (t : tx) : M () :=
  modify_st (λ s, set_transactions (foldl (λ l k, push_tx k t l) (transactions s) ks) s).

Definition line_balance (k t : string) (w : wallet) : wallet :=
  match map_get (w_trustlines w) k with
  | Some l => with_lines (map_set (w_trustlines w) k (mk_trustline (tl_asset l) t (tl_limit l))) w
  | None => w
  end.

Definition issueAsset (now : Z) (secret assetCode amount recipient : string) : M string :=
  _executeWithRetry (
    rate now;; private secret;; public recipient;; maybe_fail;;
    if negb (asset_code_pattern assetCode) then fail ValidationError
    else
      let amountNum := parse_float amount in
      if negb (positive_amount amountNum) then fail ValidationError
      else
        iw ← by_secret secret ValidationError;
        if bool_decide (publicKey iw = recipient) then fail ValidationError
        else
          rw ← get_wallet recipient;
          match rw with
          | None => fail wallet_not_found
          | Some rw =>
              if num_ltb (parse_float (or_text "0" (Some (balance iw)))) (parse_float (minAccountBalance cfg)) then fail insufficient_balance
              else
                s ← get_st;
                let assetKey := line_key assetCode (publicKey iw) in
                if negb (map_has (w_trustlines rw) assetKey || map_has (trustlines s) (recipient +:+ ":" +:+ assetKey)%stdpp) then fail ValidationError
                else
                  let total := num_to_fixed 7 (num_add (holding assetKey recipient s) amountNum) in
                  modify_st (set_holder assetKey recipient total);;
                  let a := mk_asset "credit_alphanum" assetCode (Some (publicKey iw)) in
                  current ← _getWalletAssetBalance recipient a;
                  _setWalletAssetBalance recipient a (num_add current amountNum);;
                  modify_st (update_wallet recipient (line_balance assetKey total));;
                  x ← fresh hex;
                  log_tx [publicKey iw; recipient] (mk_tx (Some ("mock_issue_" +:+ x)%stdpp) None "asset_issuance" (publicKey iw) recipient
                    (num_to_fixed 7 amountNum) a None "" "confirmed" None);;
                  mret (num_to_fixed 7 amountNum)
          end).

Definition burnAsset (now : Z) (secret assetCode issuer amount : string) : M string :=
  _executeWithRetry (
    rate now;; private secret;; public issuer;; maybe_fail;;
    if negb (asset_code_pattern assetCode) then fail ValidationError
    else
      let amountNum := parse_float amount in
      if negb (positive_amount amountNum) then fail ValidationError
      else
        hw ← by_secret secret ValidationError;
        if bool_decide (publicKey hw = issuer) then fail ValidationError
        else
          s ← get_st;
          let assetKey := line_key assetCode issuer in
          let current := holding assetKey (publicKey hw) s in
          if num_ltb current amountNum then fail transaction_failed
          else
            modify_st (set_holder assetKey (publicKey hw) (num_to_fixed 7 (num_sub current amountNum)));;
            x ← fresh hex;
            log_tx [publicKey hw] (mk_tx (Some ("mock_burn_" +:+ x)%stdpp) None "asset_burn" (publicKey hw) issuer (num_to_fixed 7 amountNum)
              (mk_asset "credit_alphanum" assetCode (Some issuer)) None "" "confirmed" None);;
            mret (num_to_fixed 7 amountNum)).

Definition clawback (now : Z) (secret from assetCode amount : string) : M string :=
  _executeWithRetry (
    rate now;; private secret;; public from;; maybe_fail;;
    if negb (asset_code_pattern assetCode) then fail ValidationError
    else
      let amountNum := parse_float amount in
      if negb (positive_amount amountNum) then fail ValidationError
      else
        iw ← by_secret secret ValidationError;
        s ← get_st;
        let assetKey := line_key assetCode (publicKey iw) in
        let current := holding assetKey from s in
        if num_ltb current amountNum then fail transaction_failed
        else
          modify_st (set_holder assetKey from (num_to_fixed 7 (num_sub current amountNum)));;
          x ← fresh hex;
          log_tx [publicKey iw] (mk_tx (Some ("mock_clawback_" +:+ x)%stdpp) None "clawback" (publicKey iw) from (num_to_fixed 7 amountNum)
            (mk_asset "credit_alphanum" assetCode (Some (publicKey iw))) None "" "confirmed" None);;
          mret (num_to_fixed 7 amountNum)).

Definition distributeAsset (secret assetCode issuer recipient amount : string) : M string :=
  _executeWithRetry (
    maybe_fail;;
    if negb (asset_code_pattern assetCode) then fail ValidationError
    else
      dw ← by_secret secret ValidationError;
      if bool_decide (publicKey dw = recipient) then fail ValidationError
      else
        let a := parse_float amount in
        if negb (positive_amount a) then fail ValidationError
        else
          s ← get_st;
          let assetKey := line_key assetCode issuer in
          let distBalance := holding assetKey (publicKey dw) s in
          if num_ltb distBalance a then fail ValidationError
          else
            modify_st (set_holder assetKey (publicKey dw) (num_to_fixed 7 (num_sub distBalance a)));;
            s ← get_st;
            modify_st (set_holder assetKey recipient (num_to_fixed 7 (num_add (holding assetKey recipient s) a)));;
            mret (num_to_fixed 7 a)).

Definition getAssetHolders (assetCode issuer : string) : M (list (string * string)) :=
  s ← get_st; mret (filter (λ e, num_gtb (parse_float e.2) num_zero = true) (holders (line_key assetCode issuer) s)).

(** ** Claimable balances *)

Fixpoint validate_all (ks : list string) : M () := match ks with [] => mret () | k :: ks => public k;; validate_all ks end.

Definition createClaimableBalance (now : Z) (secret amount : string) (cs : list (string * option predicate)) (p : option predicate) : M string :=
  rate now;; maybe_fail;; private secret;; _validateAmount cfg amount;;
  if bool_decide (cs = []) then fail ValidationError
  else if (10 <? length cs)%nat then fail ValidationError
  else
    validate_all cs.*1;;
    src ← _secretToPublic key_of_hash secret;
    w ← get_wallet src;
    match w with
    | None => fail wallet_not_found
    | Some w =>
        let amountNum := parse_float amount in
        let balanceNum := parse_float (balance w) in
        if num_ltb balanceNum amountNum then fail transaction_failed
        else
          modify_st (update_wallet src (with_balance (num_to_fixed 7 (num_sub balanceNum amountNum))));;
          x ← fresh hex;
          let i := ("00000000" +:+ x)%stdpp in
          modify_st (λ s, set_claimable (map_set (claimableBalances s) i
            (mk_claimable amount ((λ c, (c.1, match c.2 with Some q => Some q | None => p end)) <$> cs) src None)) s);;
          mret i
    end.

Definition available (now : Z) (p : option predicate) : bool :=
  match p with
  | None => true
  | Some q => negb (negb (notBefore q =? 0) && (now <? notBefore q)) && negb (negb (notAfter q =? 0) && (notAfter q <? now))
  end.
Definition bare_wallet (k : string) : wallet := mk_wallet k None "0" None None None None None None [] [].

Definition claimBalance (now : Z) (i secret : string) : M string :=
  rate now;; maybe_fail;; private secret;;
  s ← get_st;
  match map_get (claimableBalances s) i with
  | None => fail NotFoundError
  | Some c =>
      match claimedBy c with
      | Some _ => fail transaction_failed
      | None =>
          k ← _secretToPublic key_of_hash secret;
          match find_first (λ e, bool_decide (e.1 = k)) (claimants c) with
          | None => fail transaction_failed
          | Some e =>
              if negb (available now e.2) then fail transaction_failed
              else
                w ← get_wallet k;
                (match w with Some _ => mret () | None => modify_st (λ s, set_wallets (map_set (wallets s) k (bare_wallet k)) s) end);;
                modify_st (update_wallet k (λ w, with_balance (num_to_fixed 7 (num_add (parse_float (balance w)) (parse_float (c_amount c)))) w));;
                modify_st (λ s, set_claimable (map_set (claimableBalances s) i (mk_claimable (c_amount c) (claimants c) (sponsor c) (Some k))) s);;
                mret (c_amount c)
          end
      end
  end.
Definition listClaimableBalances (k : string) : M (list claimable) :=
  s ← get_st;
  mret (filter (λ c, claimedBy c = None ∧ k ∈ (claimants c).*1) (claimableBalances s).*2).

(** ** Channels *)

(** The escrow account. *)
Definition openChannel (now : Z) (secret recipient depositAmount : string) : M (string * string) :=
  rate now;; maybe_fail;; private secret;; public recipient;;
  src ← _secretToPublic key_of_hash secret;
  w ← get_wallet src;
  match w with
  | None => fail wallet_not_found
  | Some w =>
      let amt := parse_float depositAmount in
      if negb (positive_amount amt) then fail ValidationError
      else if num_ltb (parse_float (balance w)) amt then fail ValidationError
      else
        modify_st (update_wallet src (with_balance (num_to_fixed 7 (num_sub (parse_float (balance w)) amt))));;
        kp ← _generateKeypair fresh_keypair;
        modify_st (λ s, set_wallets (map_set (wallets s) kp.1 (new_wallet kp.1 kp.2 (num_to_fixed 7 amt))) s);;
        mret kp
  end.
Definition updateChannel (channelId newAmount : string) : M (string * string) := mret (channelId, newAmount).
Definition closeChannel (now : Z) (escrowSecret recipient amount : string) : M () :=
  rate now;; maybe_fail;; private escrowSecret;; public recipient;;
  k ← _secretToPublic key_of_hash escrowSecret;
  ew ← get_wallet k;
  match ew with
  | None => fail wallet_not_found
  | Some ew =>
      rw ← get_wallet recipient;
      match rw with
      | None => fail wallet_not_found
      | Some _ =>
          let amt := parse_float amount in
          let escrowBal := parse_float (balance ew) in
          if num_ltb escrowBal amt then fail ValidationError
          else
            modify_st (update_wallet k (with_balance (num_to_fixed 7 (num_sub escrowBal amt))));;
            modify_st (update_wallet recipient (λ w, with_balance (num_to_fixed 7 (num_add (parse_float (balance w)) amt)) w))
      end
  end.

(** ** Offers *)

(** A price is a number or a fraction. *)
Definition price_of (price : string) : num :=
  match split_on "/" price with
  | n :: d :: _ => match parse_int n, parse_int d with Some n, Some d => num_div (num_of_Z n) (num_of_Z d) | _, _ => num_nan end
  | _ => parse_float price
  end.

Definition createOffer (now : Z) (secret sellingAsset buyingAsset amount price : string) (offerId : Z) : M Z :=
  rate now;; maybe_fail;; private secret;;
  if is_empty sellingAsset || is_empty buyingAsset then fail ValidationError
  else if bool_decide (sellingAsset = buyingAsset) then fail ValidationError
  else
    let amountNum := parse_float amount in
    if num_is_nan amountNum || num_ltb amountNum num_zero then fail ValidationError
    else if negb (positive_amount (price_of price)) then fail ValidationError
    else
      src ← _secretToPublic key_of_hash secret;
      w ← get_wallet src;
      match w with
      | None => fail wallet_not_found
      | Some _ =>
          s ← get_st;
          if negb (offerId =? 0) then
            match map_get (offers s) offerId with
            | None => fail NotFoundError
            | Some o =>
                if bool_decide (seller o ≠ src) then fail transaction_failed
                else if num_eqb (parse_float (o_amount o)) num_zero then fail transaction_failed
                else
                  let o' := if num_eqb amountNum num_zero
                            then mk_offer (seller o) (selling o) (buying o) zero_text (o_price o) "cancelled"
                            else mk_offer (seller o) (selling o) (buying o) (num_to_fixed 7 amountNum) (num_to_fixed 7 (price_of price)) "active" in
                  modify_st (λ s, set_offers (map_set (offers s) offerId o') (offerCounter s) s);; mret offerId
            end
          else
            let n := (offerCounter s + 1) mod 1000 in
            let i := now * 1000 + n in
            modify_st (λ s, set_offers (map_set (offers s) i (mk_offer src sellingAsset buyingAsset (num_to_fixed 7 amountNum) (num_to_fixed 7 (price_of price)) "active")) n s);;
            mret i
      end.
Definition cancelOffer (now : Z) (secret sellingAsset buyingAsset : string) (offerId : Z) : M () :=
  createOffer now secret sellingAsset buyingAsset "0" "1" offerId;; mret ().
Definition listOffers (k : string) : M (list offer) :=
  s ← get_st; mret (filter (λ o, seller o = k ∧ o_status o = "active") (offers s).*2).
(** Bids and asks, with the amounts as they are; cancelled offers are there too. *)
Definition getOrderBook (now : Z) (sellingAsset buyingAsset : string) (limit : nat) : M (list (string * string) * list (string * string)) :=
  rate now;; maybe_fail;;
  if is_empty sellingAsset || is_empty buyingAsset then fail ValidationError
  else
    s ← get_st;
    let side a b := (λ o, (o_price o, o_amount o)) <$> take limit (filter (λ o, selling o = a ∧ buying o = b) (offers s).*2) in
    mret (side buyingAsset sellingAsset, side sellingAsset buyingAsset).

(** ** Fees *)

(** The fee, the rounded base fee and whether there is a surge. *)
Definition estimateFee (multiplier : num) (operationCount : num) : M (num * string * bool) :=
  maybe_fail;;
  let totalFee := num_mul (num_round (num_mul (num_of_Z 100) multiplier)) operationCount in
  mret (totalFee, num_to_fixed 7 (num_div totalFee (num_of_Z 10000000)), num_geb multiplier (num_of_Z 5)).
Definition buildAndSubmitFeeBumpTransaction (now : Z) (envelopeXdr : string) (newFee : Z) (feeSourceSecret : option string) : M string :=
  rate now;; maybe_fail;;
  if is_empty envelopeXdr then fail ValidationError
  else if newFee <? 100 then fail ValidationError
  else
    (match Transaction.truthy_str feeSourceSecret with Some k => private k | None => mret () end);;
    x ← fresh hex; mret ("mock_feebump_" +:+ x)%stdpp.

(** ** Escrow without charge *)

(** Texts in [balance] alone: the balances that are read stay. *)
Definition quiet (b : list (string * Z)) (s : st) : Prop := all_native s ∧ ledger (wallets s) b.

Lemma quiet_wallets b s s' : wallets s' = wallets s → quiet b s → quiet b s'.
Proof. intros Hw. unfold quiet, all_native. by rewrite Hw. Qed.
Lemma quiet_update b s k f : quiet b s → (∀ w, assetBalances (f w) = assetBalances w ∧ publicKey (f w) = publicKey w) → quiet b (update_wallet k f s).
Proof. intros [Hn Hl] Hf. destruct (update_ignored k f s b Hn Hl Hf). by split. Qed.

Lemma keeps_validate {X} (g : st → X) ks : keeps g (validate_all ks).
Proof. induction ks as [|k ks IH]; [done|]. cbn. apply keeps_bind; [apply keeps_public|done]. Qed.
Hint Resolve keeps_validate : keeps.
Hint Unfold rate maybe_fail public private : keeps.

Ltac pass_check b := apply (after wallets _ _ _ (λ q, quiet b q.2));
  [unfold rate, maybe_fail, public, private; by auto with keeps|intros e s' Hs; by eapply quiet_wallets|
   let t := fresh "t" in intros ? t Ht; match goal with Hq : quiet b _ |- _ => apply (quiet_wallets b _ t Ht) in Hq end; clear Ht].
Ltac step := cbv beta iota delta [mbind mret stx_bind stx_ret get_st modify_st fail throw].

(** A claimable balance is made without its sponsor paying, as far as anybody
    reads balances afterwards; a claim pays nobody whose wallet is known, and
    closing a channel pays neither side. *)
Theorem escrow_moves_nothing now b s :
  quiet b s →
  (∀ secret amount cs p, quiet b (createClaimableBalance now secret amount cs p s).2) ∧
  (∀ i secret, (∀ k, (_secretToPublic key_of_hash secret s).1 = Ret k → is_Some (map_get (wallets s) k)) → quiet b (claimBalance now i secret s).2) ∧
  (∀ secret recipient amount, quiet b (closeChannel now secret recipient amount s).2).
Proof.
  intros Hq. split_and!.
  - intros secret amount cs p. unfold createClaimableBalance. do 4 (pass_check b). case_bool_decide; [done|]. destruct (_ <? _)%nat; [done|].
    do 3 (pass_check b). destruct a5 as [w|]; [|done]. destruct (num_ltb _ _); [done|]. step. apply (quiet_wallets b (update_wallet a4 (with_balance (num_to_fixed 7 (num_sub (parse_float (balance w)) (parse_float amount)))) t5)); [done|].
    by apply quiet_update.
  - intros i secret Hk. unfold claimBalance.
    apply (after wallets _ _ _ (λ q, quiet b q.2)); [unfold rate; by auto with keeps|intros e s' Hs; by eapply quiet_wallets|]. intros _ t1 H1.
    apply (after wallets _ _ _ (λ q, quiet b q.2)); [unfold maybe_fail; by auto with keeps|intros e s' Hs; apply (quiet_wallets b s s'); [congruence|exact Hq]|]. intros _ t2 H2.
    apply (after wallets _ _ _ (λ q, quiet b q.2)); [unfold private; by auto with keeps|intros e s' Hs; apply (quiet_wallets b s s'); [congruence|exact Hq]|]. intros _ t3 H3.
    rewrite H2, H1 in H3. clear H1 H2 t1 t2. apply (quiet_wallets b s t3 H3) in Hq. step.
    destruct (map_get (claimableBalances t3) i) as [c|]; [|done]. destruct (claimedBy c); [done|]. unfold _secretToPublic, _findWalletBySecret in *. revert Hk. step.
    rewrite <- H3. destruct (find_first (has_secret secret) (wallets t3)) as [w|]; cbn [fmap option_fmap option_map]; cbn [fst]; intros Hk.
    all: specialize (Hk _ eq_refl) as [w0 Hw0].
    all: destruct (find_first _ (claimants c)) as [e|]; [|done]; destruct (available now e.2); [|done]; cbn [negb]; unfold get_wallet; step; rewrite Hw0; step.
    all: match goal with |- quiet ?b0 (_, set_claimable ?m ?u).2 => apply (quiet_wallets b0 u); [done|by apply quiet_update] end.
  - intros secret recipient amount. unfold closeChannel. do 6 (pass_check b). destruct a4 as [w|]; [|done].
    pass_check b. destruct a4 as [rw|]; [|done]. destruct (num_ltb _ _); [done|]. step. by apply quiet_update; [apply quiet_update|].
Qed.

(** ** Claims *)

Definition claims (s : st) := (claimableBalances s, wallets s).
Lemma stable_claims : stable claims. Proof. done. Qed.
Hint Resolve stable_claims : keeps.

(** What a claim does when its checks pass. *)
Lemma claim_cases now i secret s (P : outcome error string * st → Prop) :
  (∀ e s', claims s' = claims s → P (Throw e, s')) →
  (∀ c p s', map_get (claimableBalances s) i = Some c → claimedBy c = None →
    (public_of key_of_hash secret s, p) ∈ claimants c → available now p = true →
    claimableBalances s' = map_set (claimableBalances s) i (mk_claimable (c_amount c) (claimants c) (sponsor c) (Some (public_of key_of_hash secret s))) →
    P (Ret (c_amount c), s')) →
  P (claimBalance now i secret s).
Proof.
  intros He Hr. unfold claimBalance, rate, maybe_fail, private.
  apply (after claims); [by auto with keeps|intros e t Ht; apply He; congruence|]. intros _ t1 H1.
  apply (after claims); [by auto with keeps|intros e t Ht; apply He; congruence|]. intros _ t2 H2. rewrite H1 in H2. clear H1.
  apply (after claims); [by auto with keeps|intros e t Ht; apply He; congruence|]. intros _ t H. rewrite H2 in H. clear H2 t1 t2.
  assert (Hthrow : ∀ e, P (Throw e, t)) by (intros; by apply He). injection H as Hc Hw. unfold public_of in Hr. rewrite <- Hc, <- Hw in Hr.
  step. destruct (map_get (claimableBalances t) i) as [c|] eqn:Hg; [|apply Hthrow]. destruct (claimedBy c) eqn:Hcl; [apply Hthrow|].
  unfold _secretToPublic, _findWalletBySecret. step. set (o := find_first (has_secret secret) (wallets t)) in *.
  assert (Hpub : match snd <$> o with Some w => publicKey w | None => key_of_hash secret end = match o with Some w => publicKey w.2 | None => key_of_hash secret end)
    by (by destruct o).
  rewrite Hpub. set (k := match o with Some w => publicKey w.2 | None => key_of_hash secret end) in *.
  destruct (find_first _ (claimants c)) as [[k' p]|] eqn:Hf; [|apply Hthrow]. apply find_first_Some in Hf as [Hin Hk%bool_decide_eq_true]. cbn in Hk. subst k'.
  cbn [snd]. destruct (available now p) eqn:Hav; [|apply Hthrow]. cbn [negb]. unfold get_wallet. step.
  destruct (map_get (wallets t) k) as [w|] eqn:Hwk; step; apply (Hr c p); try done.
  - cbn. unfold update_wallet. by rewrite Hwk.
  - cbn. unfold update_wallet. cbn. by rewrite map_get_set_eq.
Qed.

(** A balance is claimed by one of its claimants, in its time, and only once. *)
Theorem claimed_once now i secret s x s' :
  claimBalance now i secret s = (Ret x, s') →
  (∃ c p, map_get (claimableBalances s) i = Some c ∧ claimedBy c = None ∧ x = c_amount c ∧
    (public_of key_of_hash secret s, p) ∈ claimants c ∧ available now p = true) ∧
  ∀ now' secret', is_ret (claimBalance now' i secret' s').1 = false.
Proof.
  intros H. assert (Hok : (∃ c p, map_get (claimableBalances s) i = Some c ∧ claimedBy c = None ∧ x = c_amount c ∧
      (public_of key_of_hash secret s, p) ∈ claimants c ∧ available now p = true) ∧
    ∃ c', map_get (claimableBalances s') i = Some c' ∧ claimedBy c' ≠ None).
  { revert H. apply (claim_cases now i secret s (λ q, q = (Ret x, s') → _)); [done|]. intros c p s1 Hg Hc Hin Hav Hs [= <- <-].
    split; [by exists c, p|]. eexists. rewrite Hs, map_get_set_eq. by split. }
  destruct Hok as [Hc (c' & Hg' & Hc')]. split; [done|]. intros now' secret'.
  apply (claim_cases now' i secret' s' (λ q, is_ret q.1 = false)); [done|]. intros c p s2 Hg Hcl. congruence.
Qed.

(** ** The holders of an asset *)

(** [b] lists what each holder has, in units of seven decimals. *)
Definition book (h : list (string * string)) (b : list (string * Z)) : Prop :=
  Forall2 (λ e f, f.1 = e.1 ∧ 0 <= f.2 ∧ e.2 = fixed_digits 7 f.2) h b.
Definition has (b : list (string * Z)) (k : string) : Z := default 0 (map_get b k).

Lemma book_get h b k : book h b → map_get h k = fixed_digits 7 <$> map_get b k ∧ 0 <= has b k.
Proof.
  unfold has. induction 1 as [|[k1 t] [k2 n] h b (He & Hn & Ht) _ IH]; [done|]. cbn in He, Hn, Ht |- *. subst. by destruct (decide (k1 = k)).
Qed.
Lemma book_set h b k n : book h b → 0 <= n → book (map_set h k (fixed_digits 7 n)) (map_set b k n).
Proof.
  intros H Hn. induction H as [|[k1 t] [k2 m] h b (He & Hm & Ht) Hr IH]; cbn in *; [by repeat constructor|]. subst.
  destruct (decide (k1 = k)); constructor; done.
Qed.
Lemma total_has b k n : total (map_set b k n) = total b - has b k + n.
Proof.
  unfold has. destruct (map_get b k) as [m|] eqn:Hg; [by apply total_set|]. rewrite map_set_fresh by done. cbn.
  clear Hg. induction b as [|e b IH]; cbn; lia.
Qed.
Lemma has_set b k k' n : has (map_set b k n) k' = if decide (k = k') then n else has b k'.
Proof. unfold has. rewrite map_get_set. by case_decide. Qed.
Lemma has_total h b k : book h b → has b k <= total b.
Proof.
  intros H. assert (Hall : Forall (λ f : string * Z, 0 <= f.2) b) by (revert H; clear; induction 1 as [|e f h b (_ & ? & _) _ IH]; [apply Forall_nil_2|by apply Forall_cons]).
  clear H. unfold has. induction Hall as [|[k1 n] b Hn Hall IH]; [done|]. assert (0 <= total b) by (clear IH; induction Hall; cbn; lia).
  cbn in *. destruct (decide (k1 = k)); cbn; lia.
Qed.

Lemma holding_units assetKey s b k : book (holders assetKey s) b → total b < amount_limit → stroops_of 1 (holding assetKey k s) (has b k).
Proof.
  intros Hb Ht. destruct (book_get _ _ k Hb) as [Hg Hn]. pose proof (has_total _ _ k Hb). unfold holding. rewrite Hg. unfold has in *.
  destruct (map_get b k) as [n|]; cbn [fmap option_fmap option_map]; [|by apply (whole_stroops "0")].
  rewrite or_text_fixed. apply parse_fixed_stroops. cbn in *. lia.
Qed.

Definition held_by (assetKey : string) (b : list (string * Z)) (s : st) : Prop := book (holders assetKey s) b.
Lemma held_set assetKey b s k n : held_by assetKey b s → 0 <= n → held_by assetKey (map_set b k n) (set_holder assetKey k (fixed_digits 7 n) s).
Proof. intros Hb Hn. unfold held_by, holders. cbn. rewrite map_get_set_eq. cbn. by apply book_set. Qed.

(** A difference that is not negative is written as the units that are left. *)
Lemma left_units x a n m : stroops_of 1 x n → stroops_of 1 a m → num_ltb x a = false → 0 <= n < amount_limit → 0 < m < amount_limit →
  m <= n ∧ num_to_fixed 7 (num_sub x a) = fixed_digits 7 (n - m).
Proof.
  intros Hx Ha Hlt Hn Hm. assert (Hle : m <= n). { destruct (decide (m <= n)); [done|]. rewrite (lt_stroops 1 1 _ _ n m Hx Ha) in Hlt by lia. done. }
  split; [done|]. pose proof (sub_stroops 1 1 _ _ _ _ Hx Ha ltac:(lia) ltac:(lia) ltac:(lia) ltac:(lia)) as Hs. apply to_fixed_near; [exact Hs|].
  destruct (decide (n - m = 0)) as [H0|]; [right|left; lia]. split; [done|].
  assert (Hge : 0 <= sval x - sval a). { destruct (Z.lt_ge_cases (sval x) (sval a)) as [H|H]; [|lia]. apply ltb_sval in H; [congruence|apply Hx|apply Ha]. }
  apply sub_near; [apply Hx|apply Ha| |done].
  destruct Hx as [_ Hx], Ha as [_ Ha]. pose proof limit_eq. pose proof ulp_small. assert (0 < ulp) by (apply Z.pow_pos_nonneg; lia).
  assert (n = m) as -> by lia. generalize dependent limit. generalize dependent ulp. generalize dependent (2 ^ 1074). generalize dependent amount_limit. intros. nia.
Qed.

Lemma stable_holdings : stable holdings. Proof. done. Qed.
Hint Resolve stable_holdings : keeps.

(** Distributions neither make nor lose a unit of an asset: the holder has less
    by what the recipient has more, or nothing happened. *)
Theorem distribution_conserves secret assetCode issuer recipient amount s b a :
  held_by (line_key assetCode issuer) b s → total b < amount_limit → stroops_of 1 (parse_float amount) a → 0 < a < amount_limit →
  let '(q, s') := distributeAsset secret assetCode issuer recipient amount s in
  match q with
  | Ret _ => ∃ k, k ≠ recipient ∧ a <= has b k ∧
      held_by (line_key assetCode issuer) (map_set (map_set b k (has b k - a)) recipient (has b recipient + a)) s'
  | Throw _ => held_by (line_key assetCode issuer) b s'
  end.
Proof.
  intros Hb Ht Ha Ha0. set (ak := line_key assetCode issuer) in *.
  set (Q := λ q : outcome error string * st, match q.1 with
    | Ret _ => ∃ k, k ≠ recipient ∧ a <= has b k ∧ held_by ak (map_set (map_set b k (has b k - a)) recipient (has b recipient + a)) q.2
    | Throw _ => held_by ak b q.2 end).
  assert (Hgo : ∀ n op, (∀ s, held_by ak b s → Q (op s)) → ∀ s, held_by ak b s → Q (retry_loop n op s)).
  { intros n op Hop. induction n as [|n IH]; intros u Hu; cbn [retry_loop]; [by apply Hop|]. unfold try_catch. pose proof (Hop u Hu) as Hs.
    destruct (op u) as [[x|e] u1]; [done|]. destruct (_isRetryableError e); [by apply IH|done]. }
  assert (HQ : Q (distributeAsset secret assetCode issuer recipient amount s)).
  { unfold distributeAsset, _executeWithRetry. cbn [mbind stx_bind get_st]. apply Hgo; [|done]. clear s Hb. intros s Hb. unfold maybe_fail.
    apply (after holdings); [by auto with keeps|intros e t Hs; unfold Q, held_by, holders; cbn; by rewrite Hs|]. intros _ t Hs.
    assert (Hbt : held_by ak b t) by (unfold held_by, holders; by rewrite Hs). clear s Hs Hb.
    destruct (negb (asset_code_pattern assetCode)); [done|].
    apply (after holdings); [apply keeps_find|intros e u Hs; unfold Q, held_by, holders; cbn; by rewrite Hs|]. intros dw u Hs.
    assert (Hbu : held_by ak b u) by (unfold held_by, holders; by rewrite Hs). clear t Hs Hbt.
    case_bool_decide as Hself; [done|]. destruct (negb (positive_amount _)); [done|]. step. fold ak.
    pose proof (holding_units ak u b (publicKey dw) Hbu Ht) as Hd. pose proof (has_total _ _ (publicKey dw) Hbu) as Hdt. destruct (book_get _ _ (publicKey dw) Hbu) as [_ Hd0].
    destruct (num_ltb (holding ak (publicKey dw) u) (parse_float amount)) eqn:Hlt; [done|].
    destruct (left_units _ _ _ _ Hd Ha Hlt ltac:(lia) Ha0) as [Hle Hfix]. rewrite Hfix.
    pose proof (held_set ak b u (publicKey dw) (has b (publicKey dw) - a) Hbu ltac:(lia)) as Hb1.
    set (u1 := set_holder ak (publicKey dw) _ u) in *.
    assert (Ht1 : total (map_set b (publicKey dw) (has b (publicKey dw) - a)) < amount_limit) by (rewrite total_has; lia).
    pose proof (holding_units ak u1 _ recipient Hb1 Ht1) as Hr. rewrite has_set, decide_False in Hr by done.
    pose proof (has_total _ _ recipient Hb1) as Hrt. rewrite has_set, decide_False, total_has in Hrt by done. destruct (book_get _ _ recipient Hbu) as [_ Hr0].
    pose proof (add_stroops 1 1 _ _ _ _ Hr Ha ltac:(lia) ltac:(lia) ltac:(lia) ltac:(lia)) as Hadd.
    rewrite (to_fixed_stroops _ _ Hadd) by lia. exists (publicKey dw). split_and!; [done|done|]. cbn [snd]. apply held_set; [done|lia]. }
  unfold Q in HQ. by destruct (distributeAsset secret assetCode issuer recipient amount s) as [[x|e] s'].
Qed.

End network.

(** ** Concrete calls *)

Definition kA : string := key "G" "A".
Definition kB : string := key "G" "B".
Definition sA : string := key "S" "A".
Definition sB : string := key "S" "B".
Definition C := default_config.

Definition offered : outcome error string * st := createClaimableBalance C no_draw some_hex hashed 0 sA "40" [(kB, None)] None rich.
Definition taken : outcome error string * st := claimBalance C no_draw hashed 1 "000000000" sB offered.2.

(** A claimable balance takes nothing from its sponsor that a reading does not
    give back, and gives nothing to the claimant. *)
Example claim_reports : (taken.1, balances taken.2, balance <$> (wallets taken.2).*2) =
  (Ret "40", ["100.0000000"; "5.0000000"], ["60.0000000"; "45.0000000"]).
Proof. by vm_compute. Qed.

(** Opening a channel makes the money of its escrow account. *)
Example channel_makes_money :
  balances (openChannel C no_draw made_key hashed 0 sA kB "40" rich).2 = ["100.0000000"; "5.0000000"; "40.0000000"].
Proof. by vm_compute. Qed.

Definition trusting : st := (addTrustline C no_draw 0 (BySecret sB) "USD" kA None rich).2.
Definition issued : st := (issueAsset C no_draw some_hex 0 sA "USD" "50" kB trusting).2.

(** What is clawed back can still be paid. *)
Example clawed_back_still_pays :
  let s := (clawback C no_draw some_hex 0 sA kB "USD" "50" issued).2 in
  getAssetHolders "USD" kA s = (Ret [], s) ∧
  is_ret (sendDonation C no_draw some_hex 1 (mk_donation sB kA "50" None "text" (mk_asset "credit_alphanum" "USD" (Some kA)) 0 0)
    (addTrustline C no_draw 1 (BySecret sA) "USD" kA None s).2).1 = true.
Proof. by vm_compute. Qed.

(** A distribution asks for no trustline, nor for a known recipient. *)
Example distribution_needs_no_trustline :
  getAssetHolders "USD" kA (distributeAsset no_draw sB "USD" kA "nobody" "20" issued).2 =
  (Ret [(kB, "30.0000000"); ("nobody", "20.0000000")], (distributeAsset no_draw sB "USD" kA "nobody" "20" issued).2).
Proof. by vm_compute. Qed.

(** A cancelled offer stays in the book, with nothing to sell. *)
Example cancelled_offer_in_book :
  let s := (createOffer C no_draw hashed 1 sA "XLM" "USD" "10" "1/4" 0 rich).2 in
  let s := (cancelOffer C no_draw hashed 2 sA "XLM" "USD" 1001 s).2 in
  (getOrderBook C no_draw 3 "XLM" "USD" 20 s).1 = Ret ([], [("0.2500000", "0.0000000")]) ∧ (listOffers kA s).1 = Ret [].
Proof. by vm_compute. Qed.

Lemma rich_quiet : quiet [(kA, 1000000000); (kB, 50000000)] rich.
Proof.
  split.
  - intros k w Hw. apply map_get_Some_elem in Hw. apply elem_of_cons in Hw as [[= -> ->]|Hw]; [by eexists _, _|].
    apply elem_of_cons in Hw as [[= -> ->]|Hw]; [by eexists _, _|by apply elem_of_nil in Hw].
  - apply (two_ledger 1000000000 50000000); apply Z.leb_le; reflexivity.
Qed.

Lemma escrow_moves_nothing_witness : quiet [(kA, 1000000000); (kB, 50000000)] offered.2.
Proof. exact (proj1 (escrow_moves_nothing C no_draw some_hex hashed 0 [(kA, 1000000000); (kB, 50000000)] rich rich_quiet) sA "40" [(kB, None)] None). Defined.

Lemma claimed_once_witness : ∃ s', claimBalance C no_draw hashed 1 "000000000" sB offered.2 = (Ret "40", s') ∧
  is_ret (claimBalance C no_draw hashed 2 "000000000" sB s').1 = false.
Proof.
  destruct (claimBalance C no_draw hashed 1 "000000000" sB offered.2) as [q s'] eqn:Hq.
  assert (Hr : q = Ret "40") by (change q with (fst (q, s')); rewrite <- Hq; vm_compute; reflexivity). subst q.
  exists s'. split; [reflexivity|]. exact (proj2 (claimed_once C no_draw hashed 1 "000000000" sB offered.2 "40" s' Hq) 2 sB).
Defined.

Lemma distribution_conserves_witness : ∃ k, k ≠ "nobody" ∧ 200000000 <= has [(kB, 500000000)] k ∧
  held_by (line_key "USD" kA) (map_set (map_set [(kB, 500000000)] k (has [(kB, 500000000)] k - 200000000)) "nobody" (has [(kB, 500000000)] "nobody" + 200000000))
    (distributeAsset no_draw sB "USD" kA "nobody" "20" issued).2.
Proof.
  assert (Hheld : held_by (line_key "USD" kA) [(kB, 500000000)] issued).
  { unfold held_by. assert (Hh : holders (line_key "USD" kA) issued = [(kB, fixed_digits 7 500000000)]) by (vm_compute; reflexivity).
    rewrite Hh. constructor; [|constructor]. split; [reflexivity|]. split; [apply Z.leb_le; reflexivity|reflexivity]. }
  assert (Hret : is_ret (distributeAsset no_draw sB "USD" kA "nobody" "20" issued).1 = true) by (vm_compute; reflexivity).
  pose proof (distribution_conserves no_draw sB "USD" kA "nobody" "20" issued [(kB, 500000000)] 200000000 Hheld eq_refl
    (whole_stroops "20" eq_refl eq_refl) (conj eq_refl eq_refl)) as H.
  generalize dependent issued. intros t _ Hret H. destruct (distributeAsset no_draw sB "USD" kA "nobody" "20" t) as [[x|e] s']; [exact H|discriminate Hret].
Defined.

End MockHoldings.
